(* ===== verification/_CoqProject ===== *)
-Q . S2P
Prelude.v
Serialize.v
Sha256.v
Primitives.v
ArithUint256.v
Chain.v
MedianTime.v
Versionbits.v
Pow.v
SubChainMeta.v
FlatFile.v
BlockFiles.v
SubBlockStore.v
Merkle.v
Script.v
Coins.v
TxVerify.v
UpdateCoins.v
BlockCheck.v
Headers.v
ConnectBlock.v
Supply.v
FieldPrime.v
Limbs.v
Field5x52.v
FieldImpl.v
Group.v
Pubkey.v
Compressor.v
Undo.v
ConnectStore.v
CheckTotal.v
ChainState.v
Activation.v
NewBlock.v
ProcessBlock.v
Invalidate.v
Reconsider.v
Precious.v
NodeRun.v
NodeExamples.v
Chainbase.v
SubMerkle.v
