(* ===== verification/Prelude.v ===== *)
(** * Verification of the top chain node and of parts of the sub-chain

    The repository has two programs. The top chain (src/topchain/src) is a node derived
    from Bitcoin Core 0.15 whose transactions carry extension data: a transaction can create
    a sub-chain, and the node stores and serves the blocks of sub-chains (sub-blocks). The
    sub-chain (src/subchain) is derived from EOSIO. This library models the consensus and
    storage core of the first, and of the second the database with undo history and the
    Merkle trees.

    ** How the parts interact

    A header or a block comes in ([AcceptBlockHeader], [ProcessNewBlock]); it is checked
    without context and against its predecessors, entered in the tree of blocks and written
    to a file; the best chain is then activated by disconnecting and connecting blocks, each
    of which changes the set of unspent coins, writes undo data and updates indices.
    Transactions and sub-blocks use the same serialization, hashes and files.

    ** Conventions

    Definitions keep the names of the source. Machine integers are [Z] with [wrapu] and
    [wraps] at the places where the source can wrap. A pointer to a block index entry is the
    hash under which the map owns it. Fallible code gives [result] (an error of the source)
    or [option] ([None] is undefined behaviour, a failed assertion or a loop that does not
    end); the theorems say when neither happens. Data of the operating system, hash tables'
    order, the address order of pointers, script verification and what the database library
    answers are arguments, with their documented laws as hypotheses.

    ** Files (source under src/topchain/src unless said otherwise)

    - [Prelude]: machine integers, bytes, little-endian words, the error monad.
    - [Serialize] (serialize.h, streams.h): readers and writers, the class [Codec] with its
      round-trip law; [Primitives] (primitives/, amount.h): transactions with extension
      data, blocks, sub-blocks, their identifiers.
    - [Sha256] (crypto/sha256.cpp, hash.h): the hasher, against FIPS 180-4.
    - [ArithUint256] (arith_uint256): 256-bit numbers, compact targets.
    - [Chain], [MedianTime] (chain.h, chain.cpp): the tree of blocks, skip list, active
      chain; [Pow] (pow.cpp); [Versionbits] (versionbits.cpp).
    - [SubChainMeta] (txmempool.cpp, the sub-chain pool).
    - [FlatFile], [BlockFiles], [SubBlockStore] (validation.cpp, txdb.cpp,
      net_processing.cpp): numbered files, placing and reading blocks, undo data and
      sub-blocks; the index of sub-blocks, its persistence and service to peers.
    - [Merkle] (consensus/merkle.cpp).
    - [Script] (script/script.cpp), [TxVerify] (consensus/tx_verify.cpp).
    - [Coins] (coins.cpp, txdb.cpp): views of the unspent coins behind the interface
      [CoinsView]; [UpdateCoins], [BlockCheck], [Headers], [ConnectBlock], [Supply],
      [ConnectStore], [CheckTotal] (validation.cpp): rules for blocks, connecting and
      disconnecting with data on disk.
    - [FieldPrime], [Limbs], [Field5x52], [FieldImpl], [Group] (the files field and
      group of secp256k1/src): the field and the curve behind the interface [FieldOps]; [Pubkey]
      (pubkey.cpp, secp256k1.c, eckey_impl.h); [Compressor], [Undo] (compressor.cpp,
      undo.h).
    - [ChainState], [Activation], [NewBlock], [ProcessBlock], [Invalidate], [Reconsider],
      [Precious], [NodeRun] (validation.cpp): choosing and activating the best chain, the
      arrival of blocks, the commands on blocks, and the node as a step relation from its
      first start; [NodeExamples]: the statements at a small chain.
    - [Chainbase] (src/subchain/libraries/chainbase): indices with undo history, sessions.
    - [SubMerkle] (src/subchain/libraries/chain/merkle.cpp, incremental_merkle.hpp).

    ** What the theorems show

    - The node. [ProcessNewBlock_correct]: no block from the wire crashes the node, the
      invariant is kept, and the best chain that is complete and not failed is active after;
      [ActivateBestChain_correct], [FindMostWorkChain_correct]: the loops end; the commands
      [InvalidateBlock], [PreciousBlock], [ResetBlockFailureFlags] do what they promise;
      [reachable_inv]: every state reached by blocks, headers, activation and invalidation
      from the genesis block has the invariant.
    - Rules. [AcceptBlockHeader_correct], [CheckBlock_correct]: exactly which headers and
      blocks pass; [block_checks_safe]: the checks only accept or reject; proof of work and
      difficulty; deployments against a recursion without cache.
    - Money. [supply_capped]: the unspent coins are worth at most the subsidies;
      [coins_cache_refines]: caches are invisible; [block_undone_from_disk]: a block
      disconnected with the undo data read back leaves the coins as they were;
      [db_BatchWrite_crash_safe].
    - Data. Round trips of transactions, sub-blocks and compact targets; identifiers commit
      to the data; [sha256_streaming]; Merkle roots against the tree, and binding.
    - Storage. What is placed in a file is read back and disturbs nothing; sub-blocks
      survive a flush and a load; [txindex_correct].
    - Arithmetic. [arith_uint256_refines_Z]; [field_arithmetic_correct] (no limb wraps
      within the documented magnitudes); [group_law_correct] (the Jacobian formulas are the
      chord-and-tangent law); [pubkey_decompress_correct].
    - Sub-chains. At most one creation per id, the pool stays well formed;
      [undo_index_refines], [session_atomic]: the undo stack is a stack of snapshots, and a
      session that ends without being pushed leaves no trace;
      [incremental_merkle_correct]: the incremental tree has the root of the whole list.

    Some theorems state defects: [duplicate_inputs_inflate], [corruption_never_ends],
    [reset_then_header_crashes], [subchain_meta_not_reloaded], [restart_loses_subblock],
    [FlushSubBlockFile_cuts_data], [undo_reused_key_throws] and others next to the code they
    are about. Theorems that a defect touches name the case they exclude.

    ** Bounds and fuel

    A loop that is not structural takes fuel, and the fuel given is proved to be enough
    where the function is used: the height of a block for walks to its ancestors, the number
    of entries or candidates for loops over them, the length of a script or stream for
    readers, the size of a word for bit loops, the length of a list for halvings, and for the
    rounds of [ActivateBestChain] the square of the number of entries. Statements that need
    a bound have it as a hypothesis: 2^31 leaves of a Merkle tree (the source wraps
    above), 2^63 digests of an incremental one, magnitudes of limbs as field.h has them.

    ** Not modelled, and why

    - Script execution and signatures ([VerifyScript]): an argument of the rules for blocks.
      Statements on coins hold for any answer it gives.
    - What connecting a block does to coins and files is modelled in [ConnectStore]; chain
      selection uses it through the interface [BlockEffects] with the laws [BlockRules],
      whose instance in [NodeExamples] is a small one. The final [FlushStateToDisk],
      notifications, warnings and the memory pool take part in no decision of chain
      selection and are left out of it.
    - The memory pool of transactions, fee estimation, mining, peers and messages, the
      interfaces for users, wallet and start-up: policies, I/O and clocks. Of the memory
      pool the sub-chain part, of the messages the service of sub-blocks is modelled.
    - LevelDB, Boost, OpenSSL, the sub-chain's virtual machine and softfloat: third-party.
    - The sub-chain's controller, authorities, fork database, resource limits and plugins;
      shared memory, locks and files of its database. *)

(** ** Shared vocabulary *)

From Stdlib Require Export ZArith Lia.
From Stdlib Require Export Init.Byte.
From Stdlib Require Strings.Byte.
From stdpp Require Export base numbers list option gmap.

#[global] Open Scope Z_scope.

(** ** Machine integers *)

(** An unsigned [w]-bit value is its integer modulo [2^w]; a signed one is the
    representative in [[-2^(w-1), 2^(w-1))]. *)
Definition wrapu (w z : Z) : Z := z mod 2 ^ w.
Definition wraps (w z : Z) : Z := (z + 2 ^ (w - 1)) mod 2 ^ w - 2 ^ (w - 1).

Abbreviation u8 := (wrapu 8).
Abbreviation u16 := (wrapu 16).
Abbreviation u32 := (wrapu 32).
Abbreviation u64 := (wrapu 64).
Abbreviation i32 := (wraps 32).
Abbreviation i64 := (wraps 64).

Definition uint_range (w z : Z) : Prop := 0 <= z < 2 ^ w.
Definition sint_range (w z : Z) : Prop := - 2 ^ (w - 1) <= z < 2 ^ (w - 1).

#[global] Instance uint_range_dec w z : Decision (uint_range w z).
Proof. unfold uint_range. apply _. Defined.
#[global] Instance sint_range_dec w z : Decision (sint_range w z).
Proof. unfold sint_range. apply _. Defined.

Create HintDb words.

Lemma wrapu_small w z : uint_range w z -> wrapu w z = z.
Proof. intros H. apply Z.mod_small, H. Qed.

Lemma wrapu_range w z : 0 <= w -> uint_range w (wrapu w z).
Proof. intros H. apply Z.mod_pos_bound. lia. Qed.

Lemma wraps_small w z : 0 < w -> sint_range w z -> wraps w z = z.
Proof.
  intros Hw [H1 H2]. unfold wraps.
  assert (2 ^ w = 2 * 2 ^ (w - 1)) as E.
  { rewrite <- Z.pow_succ_r by lia. f_equal. lia. }
  rewrite Z.mod_small by lia. lia.
Qed.

Lemma wraps_range w z : 0 < w -> sint_range w (wraps w z).
Proof.
  intros Hw. unfold wraps, sint_range.
  assert (2 ^ w = 2 * 2 ^ (w - 1)) as E.
  { rewrite <- Z.pow_succ_r by lia. f_equal. lia. }
  pose proof (Z.mod_pos_bound (z + 2 ^ (w - 1)) (2 ^ w) ltac:(lia)). lia.
Qed.

(** Reinterpreting the bits of an unsigned word as signed undoes the converse. *)
Lemma wraps_wrapu w z : 0 < w -> sint_range w z -> wraps w (wrapu w z) = z.
Proof.
  intros Hw H. unfold wraps, wrapu.
  rewrite Z.add_mod_idemp_l by lia. apply (wraps_small w z Hw H).
Qed.

Lemma wrapu_wraps w z : 0 < w -> uint_range w z -> wrapu w (wraps w z) = z.
Proof.
  intros Hw H. unfold wrapu, wraps.
  rewrite Zminus_mod_idemp_l.
  replace (z + 2 ^ (w - 1) - 2 ^ (w - 1)) with z by lia.
  apply Z.mod_small, H.
Qed.

#[global] Hint Resolve wrapu_range wraps_range : words.

(** ** Bits *)

(** A number below [2^s] or-ed under a number shifted by [s] is added to it. *)
Lemma lor_shiftl_add n s d : 0 <= s -> 0 <= d < 2 ^ s -> Z.lor (Z.shiftl n s) d = n * 2 ^ s + d.
Proof.
  intros Hs Hd. rewrite Z.shiftl_mul_pow2 by lia.
  assert (Z.land (n * 2 ^ s) d = 0) as E; [|pose proof (Z.add_lor_land (n * 2 ^ s) d); lia].
  apply Z.bits_inj'. intros i Hi. rewrite Z.land_spec, Z.bits_0.
  destruct (Z.lt_ge_cases i s) as [Hlt|Hge].
  - by rewrite Z.mul_pow2_bits_low.
  - apply andb_false_iff. right. rewrite <- (Z.mod_small d (2 ^ s)) by done.
    by apply Z.mod_pow2_bits_high.
Qed.

(** ** Bytes *)

Abbreviation bytes := (list byte) (only parsing).

Definition bval (b : byte) : Z := Z.of_N (Byte.to_N b).

(** The conversion of an integer to [unsigned char] keeps its low eight bits. *)
Definition byte_of (z : Z) : byte :=
  match Byte.of_N (Z.to_N (z mod 256)) with
  | Some b => b
  | None => x00
  end.

Lemma bval_range b : 0 <= bval b < 256.
Proof.
  unfold bval. pose proof (Byte.to_N_bounded b). lia.
Qed.

Lemma bval_byte_of z : bval (byte_of z) = z mod 256.
Proof.
  unfold byte_of, bval.
  pose proof (Z.mod_pos_bound z 256 ltac:(lia)).
  destruct (Byte.of_N (Z.to_N (z mod 256))) as [b|] eqn:E.
  - apply Byte.to_of_N in E. rewrite E. lia.
  - apply Byte.of_N_None_iff in E. lia.
Qed.

Lemma bval_inj b1 b2 : bval b1 = bval b2 -> b1 = b2.
Proof.
  unfold bval. intros H%N2Z.inj.
  pose proof (Byte.of_to_N b1) as E1. rewrite H, Byte.of_to_N in E1. congruence.
Qed.

Lemma byte_of_bval b : byte_of (bval b) = b.
Proof.
  apply bval_inj. rewrite bval_byte_of.
  apply Z.mod_small, bval_range.
Qed.

Lemma bval_byte_of_small z : 0 <= z < 256 -> bval (byte_of z) = z.
Proof. intros H. rewrite bval_byte_of. by apply Z.mod_small. Qed.

#[global] Instance byte_eq_dec : EqDecision byte := Byte.byte_eq_dec.

Lemma byte_of_to_N b : default x00 (Byte.of_N (Byte.to_N b)) = b.
Proof. by rewrite Byte.of_to_N. Qed.

#[global] Instance byte_countable : Countable byte :=
  inj_countable' Byte.to_N (fun n => default x00 (Byte.of_N n)) byte_of_to_N.

(** ** Little-endian words *)

Fixpoint le_bytes (n : nat) (z : Z) : bytes :=
  match n with
  | O => []
  | S n => byte_of z :: le_bytes n (z / 256)
  end.

Fixpoint le_val (bs : bytes) : Z :=
  match bs with
  | [] => 0
  | b :: bs => bval b + 256 * le_val bs
  end.

Lemma length_le_bytes n z : length (le_bytes n z) = n.
Proof. revert z. induction n; intros z; simpl; auto. Qed.

Lemma le_val_range bs : 0 <= le_val bs < 256 ^ Z.of_nat (length bs).
Proof.
  induction bs as [|b bs IH]; [simpl; lia|].
  cbn [le_val length]. rewrite Nat2Z.inj_succ, Z.pow_succ_r by lia.
  pose proof (bval_range b). nia.
Qed.

Lemma le_val_bytes n z : le_val (le_bytes n z) = z mod 256 ^ Z.of_nat n.
Proof.
  revert z. induction n as [|n IH]; intros z.
  - simpl. by rewrite Z.mod_1_r.
  - cbn [le_val le_bytes]. rewrite IH, bval_byte_of, Nat2Z.inj_succ, Z.pow_succ_r by lia.
    rewrite Z.rem_mul_r by lia. lia.
Qed.

Lemma le_bytes_val bs : le_bytes (length bs) (le_val bs) = bs.
Proof.
  induction bs as [|b bs IH]; [done|].
  cbn [le_val le_bytes length]. pose proof (bval_range b).
  f_equal.
  - apply bval_inj. rewrite bval_byte_of, Z.mul_comm, Z.mod_add by lia.
    by apply Z.mod_small.
  - rewrite Z.mul_comm, Z.div_add, (Z.div_small (bval b)) by lia.
    by rewrite Z.add_0_l.
Qed.

Lemma le_val_inj b1 b2 : length b1 = length b2 -> le_val b1 = le_val b2 -> b1 = b2.
Proof.
  intros Hl Hv. rewrite <- (le_bytes_val b1), <- (le_bytes_val b2). congruence.
Qed.

Lemma le_val_app b1 b2 :
  le_val (b1 ++ b2) = le_val b1 + 256 ^ Z.of_nat (length b1) * le_val b2.
Proof.
  induction b1 as [|b b1 IH]; cbn [le_val app length].
  - simpl. lia.
  - rewrite IH, Nat2Z.inj_succ, Z.pow_succ_r by lia. lia.
Qed.

(** The integer of big-endian bytes. *)
Definition be_val (b : bytes) : Z := le_val (rev b).

Lemma be_val_inj b1 b2 : length b1 = length b2 -> be_val b1 = be_val b2 -> b1 = b2.
Proof.
  intros Hl E. apply le_val_inj in E; [|by rewrite !length_rev]. rewrite <- (rev_involutive b1), E. apply rev_involutive.
Qed.

(** Bytes and ranges of a buffer. *)
Definition byte_at (b : bytes) (i : nat) : Z := bval (nth i b x00).
Definition slice (b : bytes) (from len : nat) : bytes := take len (drop from b).

Lemma slice_length b i n : (i + n <= length b)%nat -> length (slice b i n) = n.
Proof. intros Hl. unfold slice. rewrite length_take, length_drop. lia. Qed.

(** The byte a buffer has at an index, when its value is known. *)
Lemma drop_byte b i z : (i < length b)%nat -> byte_at b i = z -> drop i b = byte_of z :: drop (S i) b.
Proof.
  intros Hi E. destruct (nth_lookup_or_length b i x00) as [El|]; [|lia].
  rewrite (drop_S b _ i El). unfold byte_at in E. by rewrite <- E, byte_of_bval.
Qed.

Lemma drop_slice b i n : drop i b = slice b i n ++ drop (i + n) b.
Proof. unfold slice. rewrite <- drop_drop. by rewrite take_drop. Qed.

Lemma byte_at_slice b i n j : (j < n)%nat -> byte_at (slice b i n) j = byte_at b (i + j).
Proof.
  intros Hj. unfold byte_at, slice. f_equal. rewrite !nth_lookup, lookup_take_lt by done. by rewrite lookup_drop.
Qed.

Lemma byte_at_app b c i : (i < length b)%nat -> byte_at (b ++ c) i = byte_at b i.
Proof. intros Hi. unfold byte_at. by rewrite app_nth1. Qed.

Lemma slice_app b c i n : (i + n <= length b)%nat -> slice (b ++ c) i n = slice b i n.
Proof. intros Hi. unfold slice. rewrite drop_app_le by lia. rewrite take_app_le; [done|]. rewrite length_drop. lia. Qed.

Lemma slice_slice b i n j m : (j + m <= n)%nat -> slice (slice b i n) j m = slice b (i + j) m.
Proof. intros Hj. unfold slice. rewrite skipn_firstn_comm, take_take, drop_drop. f_equal. lia. Qed.

(** ** Results *)

(** Code that can throw or return an error. *)
Inductive result (E A : Type) : Type :=
| Ok (a : A)
| Err (e : E).
Arguments Ok {E A} a.
Arguments Err {E A} e.

#[global] Instance result_ret E : MRet (result E) := fun A a => Ok a.
#[global] Instance result_bind E : MBind (result E) := fun A B f r =>
  match r with
  | Ok a => f a
  | Err e => Err e
  end.

Definition is_ok {E A} (r : result E A) : bool :=
  match r with Ok _ => true | Err _ => false end.

#[global] Instance result_eq_dec E A `{EqDecision E} `{EqDecision A} :
  EqDecision (result E A).
Proof. solve_decision. Defined.

Lemma result_bind_Ok E A B (f : A -> result E B) (r : result E A) b :
  (r ≫= f) = Ok b <-> exists a, r = Ok a /\ f a = Ok b.
Proof.
  destruct r as [a|e]; split; cbn.
  - intros H. by exists a.
  - intros (a' & [= <-] & H). done.
  - done.
  - intros (a & H & _). done.
Qed.

Lemma Ok_inj {E A} (x y : A) : @Ok E A x = Ok y -> x = y.
Proof. congruence. Qed.

Lemma mapM_Ok_Forall2 {E A B} (f : A -> result E B) l k : mapM f l = Ok k -> Forall2 (fun a b => f a = Ok b) l k.
Proof.
  revert k. induction l as [|a l IH]; intros k; cbn [mapM]; [intros [= <-]; constructor|].
  destruct (f a) as [b|] eqn:Eb; [|done]. cbn [mbind result_bind]. destruct (mapM f l) as [bs|]; [|done].
  cbn [mbind result_bind mret result_ret]. intros [= <-]. constructor; auto.
Qed.

(** A failed [assert] or check; the branch of the source that gives up. *)
Definition guard_err {E} (b : bool) (e : E) : result E unit :=
  if b then Ok tt else Err e.

Lemma guard_err_Ok E b (e : E) : guard_err b e = Ok tt <-> b = true.
Proof. destruct b; cbn; split; congruence. Qed.

(** ** Lists *)

Definition Zlength {A} (l : list A) : Z := Z.of_nat (length l).

Lemma Zlength_nonneg {A} (l : list A) : 0 <= Zlength l.
Proof. unfold Zlength. lia. Qed.

Lemma Zlength_app {A} (l k : list A) : Zlength (l ++ k) = Zlength l + Zlength k.
Proof. unfold Zlength. rewrite length_app. lia. Qed.

Lemma Zlength_cons {A} (x : A) l : Zlength (x :: l) = 1 + Zlength l.
Proof. unfold Zlength. rewrite length_cons. lia. Qed.

Lemma rev_reverse {A} (l : list A) : rev l = reverse l.
Proof. apply rev_alt. Qed.

Lemma forallb_True {A} (f : A -> bool) l :
  forallb f l = true <-> Forall (fun x => f x = true) l.
Proof. rewrite List.forallb_forall, List.Forall_forall. done. Qed.

(** Case analysis on the first match or conditional of the goal or a
    hypothesis, keeping its equation. *)
(** [lia] with quotients and remainders replaced by their defining equations. *)
Ltac div_lia := Z.div_mod_to_equations; lia.

Ltac case_if :=
  match goal with
  | |- context [if ?b then _ else _] => destruct b eqn:?
  | H : context [if ?b then _ else _] |- _ => destruct b eqn:?
  end.

Ltac case_if_in H :=
  match type of H with
  | context [if ?b then _ else _] => destruct b eqn:?
  end.

(** Turn boolean comparisons on [Z] in the context into propositions. *)
Ltac zbool :=
  repeat match goal with
  | H : (_ && _)%bool = true |- _ => apply andb_true_iff in H; destruct H
  | H : (_ || _)%bool = false |- _ => apply orb_false_iff in H; destruct H
  | H : negb _ = true |- _ => apply negb_true_iff in H
  | H : negb _ = false |- _ => apply negb_false_iff in H
  | H : Z.eqb _ _ = true |- _ => apply Z.eqb_eq in H
  | H : Z.eqb _ _ = false |- _ => apply Z.eqb_neq in H
  | H : Z.leb _ _ = true |- _ => apply Z.leb_le in H
  | H : Z.leb _ _ = false |- _ => apply Z.leb_gt in H
  | H : Z.ltb _ _ = true |- _ => apply Z.ltb_lt in H
  | H : Z.ltb _ _ = false |- _ => apply Z.ltb_ge in H
  end.
