(* ===== verification/Serialize.v ===== *)
(** * Byte streams and serialization (topchain/src/serialize.h, streams.h)

    A stream being read is the list of the bytes still unread; writing to a
    stream appends to its bytes, so a writer is the list of bytes it appends.
    [CDataStream::read] and every [throw std::ios_base::failure] of serialize.h
    are the error cases of the reader monad. The class [Codec] is what a
    serializable type promises to the types built from it. *)

From S2P Require Import Prelude.

Inductive ser_error :=
| EndOfData            (** CDataStream::read(): end of data *)
| NonCanonicalSize     (** non-canonical ReadCompactSize() *)
| SizeTooLarge         (** ReadCompactSize(): size too large *)
| VarIntTooLarge       (** ReadVarInt(): size too large *)
| UnknownOptionalData  (** Unknown transaction optional data *)
| BadAnyCast           (** boost::bad_any_cast *)
| TooManyUndoRecords   (** Too many input undo records *)
| Aborted.             (** an assertion failed: the program ends *)

#[global] Instance ser_error_eq_dec : EqDecision ser_error.
Proof. solve_decision. Defined.

(** ** Readers *)

Definition reader (A : Type) := bytes -> result ser_error (A * bytes).

#[global] Instance reader_ret : MRet reader := fun A a s => Ok (a, s).
#[global] Instance reader_bind : MBind reader := fun A B f m s =>
  match m s with
  | Ok (a, s') => f a s'
  | Err e => Err e
  end.
#[global] Instance reader_fmap : FMap reader := fun A B f m s =>
  match m s with
  | Ok (a, s') => Ok (f a, s')
  | Err e => Err e
  end.

Definition throw {A} (e : ser_error) : reader A := fun _ => Err e.

(** [CDataStream::read]: the whole request or an exception. *)
Definition stream_read (nSize : Z) : reader bytes := fun s =>
  if nSize =? 0 then Ok ([], s)
  else if Zlength s <? nSize then Err EndOfData
  else Ok (take (Z.to_nat nSize) s, drop (Z.to_nat nSize) s).

(** ** Lowest-level conversions *)

Definition ser_writedata8 (obj : Z) : bytes := le_bytes 1 obj.
Definition ser_writedata16 (obj : Z) : bytes := le_bytes 2 obj.
Definition ser_writedata32 (obj : Z) : bytes := le_bytes 4 obj.
Definition ser_writedata64 (obj : Z) : bytes := le_bytes 8 obj.
#[global] Arguments ser_writedata8 : simpl never.
#[global] Arguments ser_writedata16 : simpl never.
#[global] Arguments ser_writedata32 : simpl never.
#[global] Arguments ser_writedata64 : simpl never.

Definition ser_readdata8 : reader Z := obj ← stream_read 1; mret (le_val obj).
Definition ser_readdata16 : reader Z := obj ← stream_read 2; mret (le_val obj).
Definition ser_readdata32 : reader Z := obj ← stream_read 4; mret (le_val obj).
Definition ser_readdata64 : reader Z := obj ← stream_read 8; mret (le_val obj).

(** Signed reads reinterpret the word: [a = ser_readdata32(s)] into an [int32_t]. *)
Definition Unserialize_int32 : reader Z := z ← ser_readdata32; mret (i32 z).
Definition Unserialize_int64 : reader Z := z ← ser_readdata64; mret (i64 z).

(** ** Compact size *)

Definition MAX_SIZE : Z := 0x02000000.

Definition GetSizeOfCompactSize (nSize : Z) : Z :=
  if nSize <? 253 then 1
  else if nSize <=? 0xffff then 1 + 2
  else if nSize <=? 0xffffffff then 1 + 4
  else 1 + 8.

Definition WriteCompactSize (nSize : Z) : bytes :=
  if nSize <? 253 then ser_writedata8 nSize
  else if nSize <=? 0xffff then ser_writedata8 253 ++ ser_writedata16 nSize
  else if nSize <=? 0xffffffff then ser_writedata8 254 ++ ser_writedata32 nSize
  else ser_writedata8 255 ++ ser_writedata64 nSize.

Definition ReadCompactSize : reader Z :=
  chSize ← ser_readdata8;
  nSizeRet ←
    (if chSize <? 253 then mret chSize
     else if chSize =? 253 then
       n ← ser_readdata16;
       if n <? 253 then throw NonCanonicalSize else mret n
     else if chSize =? 254 then
       n ← ser_readdata32;
       if n <? 0x10000 then throw NonCanonicalSize else mret n
     else
       n ← ser_readdata64;
       if n <? 0x100000000 then throw NonCanonicalSize else mret n);
  if MAX_SIZE <? nSizeRet then throw SizeTooLarge else mret nSizeRet.

(** ** Variable-length integers *)

(** The loop of [WriteVarInt] filling [tmp]; [room] is what is left of the
    array of [(sizeof(n)*8+6)/7] bytes, and running past it is [None]. [first]
    is [len == 0]. *)
Fixpoint WriteVarInt_tmp (room : nat) (n : Z) (first : bool) : option bytes :=
  match room with
  | O => None
  | S room =>
      let d := byte_of (Z.lor (Z.land n 0x7F) (if first then 0x00 else 0x80)) in
      if n <=? 0x7F then Some [d]
      else tmp ← WriteVarInt_tmp room (Z.shiftr n 7 - 1) false; Some (d :: tmp)
  end.

(** [w] is [sizeof(n)*8]; the bytes of [tmp] leave from the last to the first. *)
Definition WriteVarInt (w : Z) (n : Z) : option bytes :=
  tmp ← WriteVarInt_tmp (Z.to_nat ((w + 6) / 7)) n true; Some (reverse tmp).

(** [imax] is [std::numeric_limits<I>::max()]. *)
Fixpoint ReadVarInt_loop (imax n : Z) (s : bytes) : result ser_error (Z * bytes) :=
  match s with
  | [] => Err EndOfData
  | chData :: s' =>
      if Z.shiftr imax 7 <? n then Err VarIntTooLarge
      else
        let n := Z.lor (Z.shiftl n 7) (Z.land (bval chData) 0x7F) in
        if negb (Z.land (bval chData) 0x80 =? 0) then
          if n =? imax then Err VarIntTooLarge else ReadVarInt_loop imax (n + 1) s'
        else Ok (n, s')
  end.

Definition ReadVarInt (imax : Z) : reader Z := ReadVarInt_loop imax 0.

(** ** Strings and vectors *)

(** Strings, [std::vector<unsigned char>] and [prevector<N, unsigned char>] are
    written alike: a compact size, then the bytes as one blob. *)
Definition Serialize_blob (v : bytes) : bytes := WriteCompactSize (Zlength v) ++ v.

Definition Unserialize_string : reader bytes :=
  nSize ← ReadCompactSize; stream_read nSize.

(** [Unserialize_impl] for byte vectors reads blocks of at most 5000000 bytes;
    [v] holds what was read, so [i = v.size()]. *)
Definition BLOB_BLOCK : Z := 1 + 4999999.

Fixpoint Unserialize_blob_loop (fuel : nat) (nSize : Z) (v : bytes) : reader bytes :=
  match fuel with
  | O => mret v
  | S fuel =>
      let i := Zlength v in
      if i <? nSize then
        let blk := Z.min (nSize - i) BLOB_BLOCK in
        b ← stream_read blk; Unserialize_blob_loop fuel nSize (v ++ b)
      else mret v
  end.

Definition Unserialize_blob : reader bytes :=
  nSize ← ReadCompactSize;
  Unserialize_blob_loop (S (Z.to_nat (nSize / BLOB_BLOCK))) nSize [].

Section vectors.
Context {A : Type} (ser : A -> bytes) (unser : reader A).

Definition Serialize_vector (v : list A) : bytes :=
  WriteCompactSize (Zlength v) ++ concat (map ser v).

(** [for (; i < nMid; i++) Unserialize(is, v[i])] with [k = nMid - i]. *)
Fixpoint Unserialize_items (k : nat) : reader (list A) :=
  match k with
  | O => mret []
  | S k => a ← unser; v ← Unserialize_items k; mret (a :: v)
  end.

(** The vector grows by at most [batch = 5000000 / sizeof(T)] items at a time. *)
Fixpoint Unserialize_vector_loop (fuel : nat) (batch nSize : Z) (v : list A) : reader (list A) :=
  match fuel with
  | O => mret v
  | S fuel =>
      let i := Zlength v in
      if i <? nSize then
        let nMid := Z.min (i + batch) nSize in
        items ← Unserialize_items (Z.to_nat (nMid - i));
        Unserialize_vector_loop fuel batch nSize (v ++ items)
      else mret v
  end.

Definition Unserialize_vector (sizeofT : Z) : reader (list A) :=
  nSize ← ReadCompactSize;
  let batch := 5000000 / sizeofT in
  Unserialize_vector_loop (S (Z.to_nat (nSize / batch))) batch nSize [].
End vectors.

(** ** Codecs: what a serializable type promises *)

(** [unser] recovers exactly the values that satisfy [wf] from what [ser] wrote,
    and accepts no other encoding of them. *)
Class Codec {A} (ser : A -> bytes) (unser : reader A) (wf : A -> Prop) : Prop := {
  codec_roundtrip a rest : wf a -> unser (ser a ++ rest) = Ok (a, rest);
  codec_canonical s a rest : unser s = Ok (a, rest) -> wf a /\ s = ser a ++ rest
}.

Lemma reader_bind_Ok {A B} (m : reader A) (f : A -> reader B) s b rest :
  (m ≫= f) s = Ok (b, rest) <-> exists a s', m s = Ok (a, s') /\ f a s' = Ok (b, rest).
Proof.
  unfold mbind, reader_bind. destruct (m s) as [[a s']|e]; split.
  - intros H. by exists a, s'.
  - intros (? & ? & [= <- <-] & H). done.
  - done.
  - intros (? & ? & H & _). done.
Qed.

Lemma reader_ret_Ok {A} (a b : A) s rest : (mret a : reader A) s = Ok (b, rest) <-> a = b /\ s = rest.
Proof. unfold mret, reader_ret. split; [intros [= -> ->]; done | intros [-> ->]; done]. Qed.

Section codec.
Context {A B : Type} {ser : A -> bytes} {unser : reader A} {wf : A -> Prop}.
Context {C : Codec ser unser wf}.

(** Reading one field back and going on with the rest. *)
Lemma codec_step (k : A -> reader B) a rest :
  wf a -> (a' ← unser; k a') (ser a ++ rest) = k a rest.
Proof. intros H. unfold mbind, reader_bind. by rewrite codec_roundtrip. Qed.

(** A successful read of a field is a prefix of the stream. *)
Lemma codec_step_inv (k : A -> reader B) s b rest :
  (a ← unser; k a) s = Ok (b, rest) ->
  exists a s', wf a /\ s = ser a ++ s' /\ k a s' = Ok (b, rest).
Proof.
  intros (a & s' & H1 & H2)%reader_bind_Ok.
  apply codec_canonical in H1 as [Hwf ->]. by exists a, s'.
Qed.

Lemma codec_inj a1 a2 r1 r2 :
  wf a1 -> wf a2 -> ser a1 ++ r1 = ser a2 ++ r2 -> a1 = a2 /\ r1 = r2.
Proof.
  intros H1 H2 E. apply (codec_roundtrip _ r1) in H1. apply (codec_roundtrip _ r2) in H2.
  rewrite E in H1. rewrite H1 in H2. by injection H2.
Qed.
End codec.

(** [codec] peels the fields of a record off a reader: forward on a stream that
    starts with the writers' output, backward on a successful read. *)
Ltac codec_forward :=
  repeat first
    [ rewrite <- (assoc_L (++))
    | rewrite codec_step by (simpl; auto; try done) ].

Ltac codec_backward H :=
  repeat
    (let a := fresh "a" in let s := fresh "s" in let W := fresh "W" in
     apply codec_step_inv in H as (a & s & W & -> & H)).

Lemma stream_read_app b rest : stream_read (Zlength b) (b ++ rest) = Ok (b, rest).
Proof.
  unfold stream_read. destruct (Z.eqb_spec (Zlength b) 0) as [E|E].
  - destruct b; [done|]. unfold Zlength in E. simpl in E. lia.
  - rewrite Zlength_app. pose proof (Zlength_nonneg rest).
    destruct (Z.ltb_spec (Zlength b + Zlength rest) (Zlength b)); [lia|].
    unfold Zlength. rewrite Nat2Z.id, take_app_length, drop_app_length. done.
Qed.

Lemma stream_read_inv n s b rest :
  0 <= n -> stream_read n s = Ok (b, rest) -> Zlength b = n /\ s = b ++ rest.
Proof.
  unfold stream_read. intros Hn. destruct (Z.eqb_spec n 0) as [->|E].
  { intros [= <- <-]. done. }
  destruct (Z.ltb_spec (Zlength s) n); [done|]. intros [= <- <-].
  rewrite take_drop. split; [|done]. unfold Zlength in *. rewrite length_take. lia.
Qed.

Lemma le_codec (w : nat) (unser : reader Z) :
  unser = (obj ← stream_read (Z.of_nat w); mret (le_val obj)) ->
  Codec (le_bytes w) unser (uint_range (8 * Z.of_nat w)).
Proof.
  intros ->. assert (256 ^ Z.of_nat w = 2 ^ (8 * Z.of_nat w)) as E.
  { rewrite Z.pow_mul_r by lia. done. }
  split.
  - intros z rest H. pose proof (stream_read_app (le_bytes w z) rest) as R.
    unfold Zlength in R. rewrite length_le_bytes in R.
    unfold mbind, reader_bind. rewrite R. unfold mret, reader_ret.
    rewrite le_val_bytes, E. do 2 f_equal. by apply Z.mod_small.
  - intros s z rest (b & s' & H & [<- <-]%reader_ret_Ok)%reader_bind_Ok.
    apply stream_read_inv in H as [Hl ->]; [|lia].
    unfold Zlength in Hl. assert (length b = w) as <- by lia. split.
    + unfold uint_range. rewrite <- E. apply le_val_range.
    + by rewrite le_bytes_val.
Qed.

#[global] Instance uint8_codec : Codec ser_writedata8 ser_readdata8 (uint_range 8).
Proof. by apply (le_codec 1). Qed.
#[global] Instance uint16_codec : Codec ser_writedata16 ser_readdata16 (uint_range 16).
Proof. by apply (le_codec 2). Qed.
#[global] Instance uint32_codec : Codec ser_writedata32 ser_readdata32 (uint_range 32).
Proof. by apply (le_codec 4). Qed.
#[global] Instance uint64_codec : Codec ser_writedata64 ser_readdata64 (uint_range 64).
Proof. by apply (le_codec 8). Qed.

Lemma le_bytes_wrapu n z : le_bytes n (wrapu (8 * Z.of_nat n) z) = le_bytes n z.
Proof.
  apply le_val_inj; [by rewrite !length_le_bytes|].
  rewrite !le_val_bytes. unfold wrapu. rewrite Z.pow_mul_r by lia.
  change (2 ^ 8) with 256. by rewrite Z.mod_mod by lia.
Qed.

(** A signed integer is written as the unsigned word of the same bits. *)
Lemma signed_codec (n : nat) ser (runsigned rsigned : reader Z) :
  (0 < n)%nat -> ser = le_bytes n ->
  rsigned = (z ← runsigned; mret (wraps (8 * Z.of_nat n) z)) ->
  Codec ser runsigned (uint_range (8 * Z.of_nat n)) ->
  Codec ser rsigned (sint_range (8 * Z.of_nat n)).
Proof.
  intros Hn -> -> C. split.
  - intros z rest H. rewrite <- (le_bytes_wrapu n z).
    rewrite codec_step by (apply wrapu_range; lia).
    unfold mret, reader_ret. rewrite wraps_wrapu by (done || lia). done.
  - intros s z rest (u & s' & Hu & -> & [<- <-]%reader_ret_Ok)%codec_step_inv.
    split; [apply wraps_range; lia|].
    rewrite <- (le_bytes_wrapu n (wraps _ _)), wrapu_wraps by (done || lia). done.
Qed.

#[global] Instance int32_codec : Codec ser_writedata32 Unserialize_int32 (sint_range 32).
Proof. by apply (signed_codec 4 _ ser_readdata32); [lia|..|apply uint32_codec]. Qed.
#[global] Instance int64_codec : Codec ser_writedata64 Unserialize_int64 (sint_range 64).
Proof. by apply (signed_codec 8 _ ser_readdata64); [lia|..|apply uint64_codec]. Qed.

(** ** Compact sizes *)

Definition compact_range (n : Z) : Prop := 0 <= n <= MAX_SIZE.

Lemma length_WriteCompactSize n :
  Zlength (WriteCompactSize n) = GetSizeOfCompactSize n.
Proof.
  unfold WriteCompactSize, GetSizeOfCompactSize.
  repeat case_if; unfold Zlength; rewrite ?length_app; simpl; try done.
Qed.

(** The prefix byte and the payload of a long compact size. *)
Lemma ReadCompactSize_long p n (ser : Z -> bytes) (rd : reader Z) wf lo rest :
  Codec ser rd wf -> wf n -> lo <= n <= MAX_SIZE ->
  (n' ← rd; if n' <? lo then throw NonCanonicalSize else mret n') = p ->
  (nSizeRet ← p; if MAX_SIZE <? nSizeRet then throw SizeTooLarge else mret nSizeRet) (ser n ++ rest)
    = Ok (n, rest).
Proof.
  intros C Hn Hlo <-. unfold mbind at 1, reader_bind at 1.
  rewrite codec_step by done.
  destruct (Z.ltb_spec n lo); [lia|]. unfold mret at 1, reader_ret at 1.
  destruct (Z.ltb_spec MAX_SIZE n); [lia|]. done.
Qed.

#[global] Instance compact_codec : Codec WriteCompactSize ReadCompactSize compact_range.
Proof.
  split.
  - intros n rest [H1 H2]. unfold MAX_SIZE in H2. unfold WriteCompactSize, ReadCompactSize.
    destruct (Z.ltb_spec n 253).
    { rewrite codec_step by (split; simpl; lia). destruct (Z.ltb_spec n 253); [|lia].
      unfold mbind, mret, reader_bind, reader_ret.
      destruct (Z.ltb_spec MAX_SIZE n); [unfold MAX_SIZE in *; lia|done]. }
    destruct (Z.leb_spec n 0xffff).
    { rewrite <- (assoc_L (++)), codec_step by (split; simpl; lia).
      eapply (ReadCompactSize_long _ n _ _ _ 253 rest uint16_codec); [split; simpl; lia|unfold MAX_SIZE; lia|done]. }
    destruct (Z.leb_spec n 0xffffffff); [|lia].
    rewrite <- (assoc_L (++)), codec_step by (split; simpl; lia).
    eapply (ReadCompactSize_long _ n _ _ _ 0x10000 rest uint32_codec); [split; simpl; lia|unfold MAX_SIZE; lia|done].
  - intros s n rest H. unfold ReadCompactSize in H.
    apply codec_step_inv in H as (c & s' & Hc & -> & H).
    apply reader_bind_Ok in H as (m & s'' & H & H').
    destruct (Z.ltb_spec MAX_SIZE m) as [|Hmax]; [done|].
    apply reader_ret_Ok in H' as [-> ->]. unfold compact_range, WriteCompactSize.
    destruct Hc as [Hc0 Hc1].
    destruct (Z.ltb_spec c 253).
    { apply reader_ret_Ok in H as [-> ->]. destruct (Z.ltb_spec n 253); [|lia].
      split; [lia|done]. }
    destruct (Z.eqb_spec c 253); [|destruct (Z.eqb_spec c 254)]; subst;
      apply codec_step_inv in H as (m & r & [Hm0 Hm1] & -> & H); case_if_in H; try done;
      apply reader_ret_Ok in H as [-> ->]; zbool; unfold MAX_SIZE in *; simpl in Hm1;
      destruct (Z.ltb_spec n 253); try lia; destruct (Z.leb_spec n 0xffff); try lia;
      destruct (Z.leb_spec n 0xffffffff); try lia; split; try lia; by rewrite <- (assoc_L (++)).
Qed.

(** ** Blobs and vectors *)

Definition blob_wf (v : bytes) : Prop := Zlength v <= MAX_SIZE.

#[global] Instance string_codec : Codec Serialize_blob Unserialize_string blob_wf.
Proof.
  split.
  - intros v rest H. unfold Serialize_blob, Unserialize_string.
    rewrite <- (assoc_L (++)), codec_step by (split; [apply Zlength_nonneg|done]).
    apply stream_read_app.
  - intros s v rest (n & s' & [Hn0 Hn] & -> & H)%codec_step_inv.
    apply stream_read_inv in H as [Hl ->]; [|done]. unfold blob_wf, Serialize_blob.
    rewrite Hl. split; [done|]. by rewrite <- (assoc_L (++)).
Qed.

Lemma stream_read_add (a b : Z) s :
  0 <= a -> 0 <= b ->
  (x ← stream_read a; y ← stream_read b; (mret (x ++ y) : reader bytes)) s = stream_read (a + b) s.
Proof.
  intros Ha Hb. unfold mbind, reader_bind, mret, reader_ret.
  destruct (stream_read a s) as [[x s']|e] eqn:E1.
  - apply stream_read_inv in E1 as [Hx ->]; [|done].
    destruct (stream_read b s') as [[y s'']|e] eqn:E2.
    + apply stream_read_inv in E2 as [Hy ->]; [|done].
      rewrite (assoc_L (++)), <- Hx, <- Hy, <- Zlength_app. by rewrite stream_read_app.
    + unfold stream_read in *. rewrite Zlength_app.
      destruct (Z.eqb_spec b 0); [done|]. destruct (Z.eqb_spec (a + b) 0); [lia|].
      destruct (Z.ltb_spec (Zlength s') b); [|done].
      destruct (Z.ltb_spec (Zlength x + Zlength s') (a + b)); [congruence|lia].
  - unfold stream_read in *. destruct (Z.eqb_spec a 0); [done|].
    destruct (Z.eqb_spec (a + b) 0); [lia|].
    destruct (Z.ltb_spec (Zlength s) a); [|done].
    destruct (Z.ltb_spec (Zlength s) (a + b)); [congruence|lia].
Qed.

(** Reading in blocks is one read of the whole size. *)
Lemma Unserialize_blob_loop_eq fuel nSize v s :
  Zlength v <= nSize -> nSize - Zlength v <= Z.of_nat fuel * BLOB_BLOCK ->
  Unserialize_blob_loop fuel nSize v s
  = (b ← stream_read (nSize - Zlength v); (mret (v ++ b) : reader bytes)) s.
Proof.
  revert v s. induction fuel as [|fuel IH]; intros v s Hle Hf.
  - replace (nSize - Zlength v) with 0 by lia.
    unfold mbind, reader_bind, stream_read, mret, reader_ret. simpl. by rewrite (right_id_L [] (++)).
  - cbn [Unserialize_blob_loop]. destruct (Z.ltb_spec (Zlength v) nSize).
    + set (blk := Z.min (nSize - Zlength v) BLOB_BLOCK).
      assert (0 <= blk <= nSize - Zlength v) by (unfold blk, BLOB_BLOCK; lia).
      replace (nSize - Zlength v) with (blk + (nSize - Zlength v - blk)) by lia.
      unfold mbind, reader_bind. rewrite <- stream_read_add by lia.
      unfold mbind, reader_bind, mret, reader_ret.
      destruct (stream_read blk s) as [[b s']|e] eqn:E; [|done].
      apply stream_read_inv in E as [Hb ->]; [|lia].
      rewrite IH; rewrite ?Zlength_app, ?Hb; [|lia|unfold blk, BLOB_BLOCK in *; lia].
      replace (nSize - (Zlength v + blk)) with (nSize - Zlength v - blk) by lia.
      unfold mbind, reader_bind, mret, reader_ret.
      destruct (stream_read _ s') as [[c s'']|]; [|done]. by rewrite (assoc_L (++)).
    + replace (nSize - Zlength v) with 0 by lia.
      unfold mbind, reader_bind, stream_read, mret, reader_ret. simpl. by rewrite (right_id_L [] (++)).
Qed.

Lemma Unserialize_blob_eq s : Unserialize_blob s = Unserialize_string s.
Proof.
  unfold Unserialize_blob, Unserialize_string. unfold mbind at 1 2, reader_bind at 1 2.
  destruct (ReadCompactSize s) as [[n s']|e] eqn:E; [|done].
  apply codec_canonical in E as [[Hn0 Hn] _].
  rewrite Unserialize_blob_loop_eq; change (Zlength []) with 0.
  - rewrite Z.sub_0_r. unfold mbind, reader_bind, mret, reader_ret.
    destruct (stream_read n s') as [[b s'']|]; done.
  - done.
  - pose proof (Z.div_pos n BLOB_BLOCK). pose proof (Z.mul_succ_div_gt n BLOB_BLOCK).
    unfold BLOB_BLOCK in *. lia.
Qed.

#[global] Instance blob_codec : Codec Serialize_blob Unserialize_blob blob_wf.
Proof.
  split; intros *; rewrite Unserialize_blob_eq; apply string_codec.
Qed.

Definition vector_wf {A} (wf : A -> Prop) (v : list A) : Prop := Zlength v <= MAX_SIZE /\ Forall wf v.

Section vector_read.
Context {A} {unser : reader A}.

Lemma Unserialize_items_app a b s :
  (x ← Unserialize_items unser a; y ← Unserialize_items unser b; (mret (x ++ y) : reader (list A))) s
  = Unserialize_items unser (a + b) s.
Proof.
  revert s. induction a as [|a IH]; intros s; cbn [Unserialize_items Nat.add];
    unfold mbind, reader_bind, mret, reader_ret in *.
  - destruct (Unserialize_items unser b s) as [[? ?]|]; done.
  - destruct (unser s) as [[x s']|]; [|done]. rewrite <- IH.
    destruct (Unserialize_items unser a s') as [[? s'']|]; [|done].
    destruct (Unserialize_items unser b s'') as [[? ?]|]; done.
Qed.

Lemma Unserialize_items_length k s v rest :
  Unserialize_items unser k s = Ok (v, rest) -> length v = k.
Proof.
  revert s v. induction k as [|k IH]; intros s v; cbn [Unserialize_items].
  - intros [<- <-]%reader_ret_Ok. done.
  - intros (a & s' & _ & (v' & s'' & H & [<- <-]%reader_ret_Ok)%reader_bind_Ok)%reader_bind_Ok.
    simpl. by rewrite (IH _ _ H).
Qed.

(** Growing the vector in batches reads the items one after the other. *)
Lemma Unserialize_vector_loop_eq fuel batch nSize v s :
  0 < batch -> Zlength v <= nSize -> nSize - Zlength v <= Z.of_nat fuel * batch ->
  Unserialize_vector_loop unser fuel batch nSize v s
  = (b ← Unserialize_items unser (Z.to_nat (nSize - Zlength v)); (mret (v ++ b) : reader (list A))) s.
Proof.
  intros Hb. revert v s. induction fuel as [|fuel IH]; intros v s Hle Hf.
  { replace (nSize - Zlength v) with 0 by lia.
    unfold mbind, reader_bind, mret, reader_ret. simpl. by rewrite (right_id_L [] (++)). }
  cbn [Unserialize_vector_loop]. destruct (Z.ltb_spec (Zlength v) nSize).
  - set (k := Z.min (Zlength v + batch) nSize - Zlength v).
    assert (0 <= k <= nSize - Zlength v) by (unfold k; lia).
    replace (Z.to_nat (nSize - Zlength v))
      with (Z.to_nat k + Z.to_nat (nSize - Zlength v - k))%nat by lia.
    unfold mbind, reader_bind. rewrite <- Unserialize_items_app.
    unfold mbind, reader_bind, mret, reader_ret.
    destruct (Unserialize_items unser (Z.to_nat k) s) as [[b s']|e] eqn:E; [|done].
    apply Unserialize_items_length in E as Hl.
    assert (Zlength b = k) as Hk by (unfold Zlength; lia).
    rewrite IH; rewrite ?Zlength_app, ?Hk; [|lia|unfold k in *; lia].
    replace (nSize - (Zlength v + k)) with (nSize - Zlength v - k) by lia.
    unfold mbind, reader_bind, mret, reader_ret.
    destruct (Unserialize_items _ _ s') as [[c s'']|]; [|done]. by rewrite (assoc_L (++)).
  - replace (nSize - Zlength v) with 0 by lia.
    unfold mbind, reader_bind, mret, reader_ret. simpl. by rewrite (right_id_L [] (++)).
Qed.

Lemma Unserialize_vector_eq sz s :
  0 < sz <= 5000000 ->
  Unserialize_vector unser sz s = (n ← ReadCompactSize; Unserialize_items unser (Z.to_nat n)) s.
Proof.
  intros Hsz. assert (0 < 5000000 / sz) by (apply Z.div_str_pos; lia).
  unfold Unserialize_vector. unfold mbind at 1 2, reader_bind at 1 2.
  destruct (ReadCompactSize s) as [[n s']|e] eqn:E; [|done].
  apply codec_canonical in E as [[Hn0 Hn] _].
  rewrite Unserialize_vector_loop_eq; change (Zlength []) with 0; [|done|done|].
  - rewrite Z.sub_0_r. unfold mbind, reader_bind, mret, reader_ret.
    destruct (Unserialize_items _ _ s') as [[b s'']|]; done.
  - pose proof (Z.div_pos n (5000000 / sz)). pose proof (Z.mul_succ_div_gt n (5000000 / sz)). nia.
Qed.

(** What the vector of items that read back reads back as; the items need not
    be canonical. *)
Lemma Unserialize_vector_ser (ser : A -> bytes) (wf : A -> Prop) sz v rest :
  (forall a r, wf a -> unser (ser a ++ r) = Ok (a, r)) -> 0 < sz <= 5000000 -> vector_wf wf v ->
  Unserialize_vector unser sz (Serialize_vector ser v ++ rest) = Ok (v, rest).
Proof.
  intros Hrt Hsz [Hl Hv]. rewrite Unserialize_vector_eq by done. unfold Serialize_vector.
  rewrite <- (assoc_L (++)), codec_step by (split; [apply Zlength_nonneg|done]).
  unfold Zlength. rewrite Nat2Z.id. clear Hl.
  induction Hv as [|a v Ha Hv IH]; [done|]. cbn [Unserialize_items length map concat].
  unfold mbind, reader_bind in *. by rewrite <- (assoc_L (++)), Hrt, IH.
Qed.
End vector_read.

Section vector_codec.
Context {A} {ser : A -> bytes} {unser : reader A} {wf : A -> Prop}.
Context {C : Codec ser unser wf}.

Lemma Unserialize_items_inv k s v rest :
  Unserialize_items unser k s = Ok (v, rest) ->
  length v = k /\ Forall wf v /\ s = concat (map ser v) ++ rest.
Proof.
  revert s v. induction k as [|k IH]; intros s v; cbn [Unserialize_items].
  - intros [<- <-]%reader_ret_Ok. done.
  - intros (a & s' & Ha & -> & H)%codec_step_inv.
    apply reader_bind_Ok in H as (v' & s'' & H & [<- <-]%reader_ret_Ok).
    apply IH in H as (Hl & Hf & ->). simpl. rewrite <- (assoc_L (++)). auto.
Qed.

Lemma vector_codec sz :
  0 < sz <= 5000000 -> Codec (Serialize_vector ser) (Unserialize_vector unser sz) (vector_wf wf).
Proof.
  intros Hsz. split.
  - intros v rest Hv. apply (Unserialize_vector_ser ser wf); [apply codec_roundtrip|done..].
  - intros s v rest. rewrite Unserialize_vector_eq by done.
    intros (n & s' & [Hn0 Hn] & -> & H)%codec_step_inv.
    apply Unserialize_items_inv in H as (Hl & Hv & ->).
    assert (Zlength v = n) as Hn' by (unfold Zlength; lia). unfold vector_wf, Serialize_vector.
    rewrite Hn', <- (assoc_L (++)). done.
Qed.
End vector_codec.

(** ** Variable-length integers *)

Lemma land_127 n : Z.land n 0x7F = n mod 128.
Proof. apply (Z.land_ones n 7). lia. Qed.

Lemma shiftr_7 n : Z.shiftr n 7 = n / 128.
Proof. apply (Z.shiftr_div_pow2 n 7). lia. Qed.

Lemma lor_digit n d : 0 <= d < 128 -> Z.lor (Z.shiftl n 7) d = 128 * n + d.
Proof. intros Hd. rewrite lor_shiftl_add by lia. lia. Qed.

(** The byte the writer stores for digit [n mod 128], with the continuation
    bit set on every digit but the last. *)
Lemma digit_byte n (first : bool) :
  bval (byte_of (Z.lor (Z.land n 0x7F) (if first then 0x00 else 0x80)))
  = n mod 128 + (if first then 0 else 128).
Proof.
  rewrite land_127, bval_byte_of. pose proof (Z.mod_pos_bound n 128 ltac:(lia)).
  destruct first; [rewrite Z.lor_0_r, Z.mod_small; lia|].
  pose proof (lor_digit 1 (n mod 128) ltac:(lia)) as E. change (Z.shiftl 1 7) with 128 in E.
  rewrite Z.lor_comm, E, Z.mod_small by lia. lia.
Qed.

Lemma land_128 b : Z.land (bval b) 0x80 = if bval b <? 128 then 0 else 128.
Proof. by destruct b. Qed.

(** One step of the reader on a digit: value below 128, continuation above. *)
Lemma ReadVarInt_step imax a d s :
  ReadVarInt_loop imax a (d :: s) =
  if imax / 128 <? a then Err VarIntTooLarge
  else let n := 128 * a + bval d mod 128 in
       if bval d <? 128 then Ok (n, s)
       else if n =? imax then Err VarIntTooLarge else ReadVarInt_loop imax (n + 1) s.
Proof.
  cbn [ReadVarInt_loop]. rewrite shiftr_7, land_127.
  rewrite lor_digit by (apply Z.mod_pos_bound; lia).
  rewrite land_128.
  destruct (imax / 128 <? a); [done|]. by destruct (bval d <? 128).
Qed.

(** [tmp] is long enough for any value of the type. *)
Lemma WriteVarInt_tmp_room room n first :
  (0 < room)%nat -> 0 <= n < 128 ^ Z.of_nat room -> is_Some (WriteVarInt_tmp room n first).
Proof.
  revert n first. induction room as [|room IH]; intros n first Hr H; [lia|].
  cbn [WriteVarInt_tmp]. destruct (Z.leb_spec n 0x7F); [by eexists|].
  rewrite Nat2Z.inj_succ, Z.pow_succ_r in H by lia.
  destruct (IH (Z.shiftr n 7 - 1) false) as [t ->]; [| |by eexists].
  - destruct room; [simpl in H; lia|lia].
  - rewrite shiftr_7. pose proof (Z.div_le_lower_bound n 128 1 ltac:(lia) ltac:(lia)).
    pose proof (Z.div_lt_upper_bound n 128 (128 ^ Z.of_nat room) ltac:(lia) ltac:(lia)). lia.
Qed.

Lemma WriteVarInt_room w n : 0 < w -> uint_range w n -> is_Some (WriteVarInt w n).
Proof.
  intros Hw [Hn0 Hn]. unfold WriteVarInt.
  pose proof (Z.div_le_lower_bound (w + 6) 7 1 ltac:(lia) ltac:(lia)).
  destruct (WriteVarInt_tmp_room (Z.to_nat ((w + 6) / 7)) n true) as [t ->]; [lia| |by eexists].
  rewrite Z2Nat.id by lia. split; [done|]. apply Z.lt_le_trans with (1 := Hn).
  change 128 with (2 ^ 7). rewrite <- Z.pow_mul_r by lia. apply Z.pow_le_mono_r; [lia|].
  pose proof (Z.mul_succ_div_gt (w + 6) 7). lia.
Qed.

Lemma WriteVarInt_tmp_cons room n first tmp :
  WriteVarInt_tmp room n first = Some tmp ->
  exists d tmp', tmp = d :: tmp' /\ bval d = n mod 128 + (if first then 0 else 128) /\
  if n <=? 0x7F then tmp' = []
  else exists room', WriteVarInt_tmp room' (n / 128 - 1) false = Some tmp'.
Proof.
  destruct room as [|room]; [done|]. cbn [WriteVarInt_tmp].
  destruct (n <=? 0x7F).
  - intros [= <-]. do 2 eexists. split; [done|]. split; [apply digit_byte|done].
  - destruct (WriteVarInt_tmp room _ false) as [t|] eqn:E; [|done]. intros [= <-].
    do 2 eexists. split; [done|]. split; [apply digit_byte|].
    exists room. by rewrite shiftr_7 in E.
Qed.

(** The digits above the last one bring the accumulator to the next carry. *)
Lemma ReadVarInt_continue imax room n tmp s :
  0 <= n < imax -> WriteVarInt_tmp room n false = Some tmp ->
  ReadVarInt_loop imax 0 (reverse tmp ++ s) = ReadVarInt_loop imax (n + 1) s.
Proof.
  revert room n s. induction tmp as [|d tmp IH]; intros room n s Hn Ht;
    apply WriteVarInt_tmp_cons in Ht as (d' & tmp' & E & Hd & Ht); [done|].
  injection E as <- <-. rewrite reverse_cons, <- (assoc_L (++)). change ([d] ++ s) with (d :: s).
  pose proof (Z.mod_pos_bound n 128 ltac:(lia)).
  assert (bval d mod 128 = n mod 128) as Hdm.
  { replace (bval d) with (n mod 128 + 1 * 128) by (rewrite Hd; lia).
    rewrite Z.mod_add by lia. apply Z.mod_mod. lia. }
  assert (n = 128 * (n / 128) + n mod 128) as En by (apply Z.div_mod; lia).
  assert (ReadVarInt_loop imax 0 (reverse tmp ++ d :: s) = ReadVarInt_loop imax (n / 128) (d :: s)) as ->.
  { destruct (Z.leb_spec n 0x7F).
    - subst tmp. by rewrite (Z.div_small n 128) by lia.
    - destruct Ht as [room' Ht]. pose proof (Z.div_le_lower_bound n 128 1 ltac:(lia) ltac:(lia)).
      pose proof (Z.div_lt n 128 ltac:(lia) ltac:(lia)).
      rewrite (IH room' (n / 128 - 1)) by (done || lia). f_equal. lia. }
  rewrite ReadVarInt_step, Hdm. cbv zeta. rewrite <- En.
  destruct (Z.ltb_spec (imax / 128) (n / 128)).
  { pose proof (Z.div_le_mono n imax 128 ltac:(lia) ltac:(lia)). lia. }
  destruct (Z.ltb_spec (bval d) 128); [lia|]. destruct (Z.eqb_spec n imax); [lia|done].
Qed.

(** What the accumulator says about the digits already read. *)
Definition varint_prefix (a : Z) (pre : bytes) : Prop :=
  (a = 0 /\ pre = []) \/
  (0 < a /\ exists room tmp, WriteVarInt_tmp room (a - 1) false = Some tmp /\ pre = reverse tmp).

Lemma WriteVarInt_tmp_snoc a pre d (first : bool) :
  varint_prefix a pre -> bval d = bval d mod 128 + (if first then 0 else 128) ->
  exists room tmp, WriteVarInt_tmp room (128 * a + bval d mod 128) first = Some tmp /\
                   pre ++ [d] = reverse tmp.
Proof.
  intros Hp Hd. set (n := 128 * a + bval d mod 128).
  pose proof (Z.mod_pos_bound (bval d) 128 ltac:(lia)).
  assert (n mod 128 = bval d mod 128) as En.
  { unfold n. rewrite Z.add_comm, Z.mul_comm, Z.mod_add by lia. apply Z.mod_mod. lia. }
  assert (n / 128 = a) as Ea.
  { unfold n. rewrite Z.mul_comm, Z.div_add_l, (Z.div_small (_ mod _)) by lia. lia. }
  assert (byte_of (Z.lor (Z.land n 0x7F) (if first then 0x00 else 0x80)) = d) as Eb.
  { apply bval_inj. rewrite digit_byte, En. lia. }
  destruct Hp as [[-> ->]|(Ha & room & tmp & Ht & ->)].
  - exists 1%nat, [d]. split; [|done]. cbn [WriteVarInt_tmp]. rewrite Eb.
    destruct (Z.leb_spec n 0x7F); [done|lia].
  - exists (S room), (d :: tmp). split; [|by rewrite reverse_cons].
    cbn [WriteVarInt_tmp]. rewrite Eb, shiftr_7, Ea, Ht.
    destruct (Z.leb_spec n 0x7F); [lia|done].
Qed.

Lemma ReadVarInt_loop_canonical imax a pre s n rest :
  varint_prefix a pre -> imax mod 128 = 127 ->
  ReadVarInt_loop imax a s = Ok (n, rest) ->
  0 <= n <= imax /\ exists room tmp, WriteVarInt_tmp room n true = Some tmp /\ pre ++ s = reverse tmp ++ rest.
Proof.
  revert a pre. induction s as [|d s IH]; intros a pre Hp Hi; [done|].
  assert (0 <= a) by (destruct Hp as [[-> _]|[? _]]; lia).
  rewrite ReadVarInt_step. pose proof (bval_range d).
  pose proof (Z.mod_pos_bound (bval d) 128 ltac:(lia)).
  destruct (Z.ltb_spec (imax / 128) a) as [|Hc]; [done|]. cbv zeta.
  destruct (Z.ltb_spec (bval d) 128).
  - intros [= <- <-]. split.
    + pose proof (Z.div_mod imax 128 ltac:(lia)). lia.
    + destruct (WriteVarInt_tmp_snoc a pre d true Hp) as (room & tmp & Ht & E).
      { rewrite Z.mod_small; lia. }
      exists room, tmp. split; [done|]. rewrite <- E. by rewrite <- (assoc_L (++)).
  - destruct (Z.eqb_spec (128 * a + bval d mod 128) imax); [done|]. intros Hr.
    destruct (WriteVarInt_tmp_snoc a pre d false Hp) as (room & tmp & Ht & E).
    { rewrite <- (Z.mod_add (bval d) (-1) 128), Z.mod_small; lia. }
    apply (IH _ (pre ++ [d])) in Hr; [|right|done].
    + by rewrite <- (assoc_L (++)) in Hr.
    + split; [lia|]. exists room, tmp. by rewrite Z.add_simpl_r.
Qed.

(** The codec of [VARINT] on a [w]-bit unsigned type. *)
Lemma ReadVarInt_roundtrip w n rest :
  7 <= w -> uint_range w n ->
  exists enc, WriteVarInt w n = Some enc /\ ReadVarInt (2 ^ w - 1) (enc ++ rest) = Ok (n, rest).
Proof.
  intros Hw Hn. destruct (WriteVarInt_room w n) as [enc E]; [lia|done|].
  exists enc. split; [done|]. unfold WriteVarInt in E.
  destruct (WriteVarInt_tmp _ n true) as [tmp|] eqn:Et; [|done]. injection E as <-.
  apply WriteVarInt_tmp_cons in Et as (d & tmp' & -> & Hd & Ht). destruct Hn as [Hn0 Hn].
  rewrite reverse_cons, <- (assoc_L (++)). change ([d] ++ rest) with (d :: rest).
  pose proof (Z.mod_pos_bound n 128 ltac:(lia)). rewrite Z.add_0_r in Hd.
  assert (n = 128 * (n / 128) + n mod 128) as En by (apply Z.div_mod; lia).
  unfold ReadVarInt.
  assert (ReadVarInt_loop (2 ^ w - 1) 0 (reverse tmp' ++ d :: rest)
          = ReadVarInt_loop (2 ^ w - 1) (n / 128) (d :: rest)) as ->.
  { destruct (Z.leb_spec n 0x7F).
    - subst tmp'. by rewrite (Z.div_small n 128) by lia.
    - destruct Ht as [room' Ht]. pose proof (Z.div_le_lower_bound n 128 1 ltac:(lia) ltac:(lia)).
      pose proof (Z.div_lt n 128 ltac:(lia) ltac:(lia)).
      rewrite (ReadVarInt_continue _ room' (n / 128 - 1)) by (done || lia). f_equal. lia. }
  rewrite ReadVarInt_step. cbv zeta. rewrite Hd, Z.mod_mod, <- En by lia.
  pose proof (Z.div_le_mono n (2 ^ w - 1) 128 ltac:(lia) ltac:(lia)).
  destruct (Z.ltb_spec ((2 ^ w - 1) / 128) (n / 128)); [lia|].
  by destruct (Z.ltb_spec (n mod 128) 128); [|lia].
Qed.

Lemma WriteVarInt_tmp_more room room' n first tmp tmp' :
  WriteVarInt_tmp room n first = Some tmp -> WriteVarInt_tmp room' n first = Some tmp' -> tmp = tmp'.
Proof.
  revert room' n first tmp tmp'.
  induction room as [|room IH]; intros [|room'] n first tmp tmp'; try done.
  cbn [WriteVarInt_tmp]. destruct (n <=? 0x7F); [congruence|].
  destruct (WriteVarInt_tmp room _ false) eqn:E1; [|done].
  destruct (WriteVarInt_tmp room' _ false) eqn:E2; [|done].
  intros [= <-] [= <-]. f_equal. by eapply IH.
Qed.

Lemma ReadVarInt_canonical w s n rest :
  7 <= w -> ReadVarInt (2 ^ w - 1) s = Ok (n, rest) ->
  uint_range w n /\ exists enc, WriteVarInt w n = Some enc /\ s = enc ++ rest.
Proof.
  intros Hw H. apply (ReadVarInt_loop_canonical _ _ []) in H as (Hn & room & tmp & Ht & E).
  - assert (uint_range w n) as Hr by (unfold uint_range; lia). split; [done|].
    destruct (WriteVarInt_room w n) as [enc E']; [lia|done|]. exists enc. split; [done|].
    unfold WriteVarInt in E'. destruct (WriteVarInt_tmp (Z.to_nat _) n true) as [tmp'|] eqn:Et; [|done].
    injection E' as <-. by rewrite (WriteVarInt_tmp_more _ _ _ _ _ _ Et Ht).
  - by left.
  - replace (2 ^ w - 1) with (127 + (2 ^ (w - 7) - 1) * 128).
    + rewrite Z.mod_add by lia. done.
    + replace w with (7 + (w - 7)) at 2 by lia. rewrite Z.pow_add_r by lia. lia.
Qed.

(** A number that fits its type is written, and read back before anything else. *)
Lemma varint_step w n : 7 <= w -> uint_range w n ->
  exists enc, WriteVarInt w n = Some enc /\
    forall A (k : Z -> reader A) rest, (ReadVarInt (2 ^ w - 1) ≫= k) (enc ++ rest) = k n rest.
Proof.
  intros Hw Hn. destruct (WriteVarInt_room w n) as [enc E]; [lia|done|]. exists enc. split; [done|].
  intros A k rest. destruct (ReadVarInt_roundtrip w n rest Hw Hn) as (enc' & E' & R).
  unfold mbind, reader_bind. replace enc with enc' by congruence. by rewrite R.
Qed.

(** ** Fixed-size blobs: uint256 and uint160 *)

(** [base_blob<BITS>] is written and read as its [BITS/8] bytes. *)
Definition Serialize_base_blob (b : bytes) : bytes := b.
Definition Unserialize_base_blob (width : Z) : reader bytes := stream_read width.

Definition base_blob_wf (width : Z) (b : bytes) : Prop := Zlength b = width.

Lemma base_blob_codec width :
  0 <= width -> Codec Serialize_base_blob (Unserialize_base_blob width) (base_blob_wf width).
Proof.
  intros Hw. split.
  - intros b rest <-. apply stream_read_app.
  - intros s b rest H. by apply stream_read_inv in H.
Qed.

#[global] Instance uint256_codec : Codec Serialize_base_blob (Unserialize_base_blob 32) (base_blob_wf 32).
Proof. by apply base_blob_codec. Qed.
