(* ===== verification/Sha256.v ===== *)
(** * SHA-256 (topchain/src/crypto/sha256.cpp, crypto/common.h, hash.h)

    The portable [sha256::Transform] of the source, unrolled as it is written,
    the buffering of [CSHA256::Write] and [CSHA256::Finalize], and the double
    hash [CHash256] of the node. The reference is the definition of FIPS 180-4:
    the padded message, its 64-word schedule and 64 rounds per block. The SSE4
    assembly of [Transform] is not modelled. *)

From S2P Require Import Prelude.

(** ** Round functions *)

Definition shr (n x : Z) : Z := Z.shiftr x n.
Definition shl (n x : Z) : Z := u32 (Z.shiftl x n).

Definition Ch (x y z : Z) : Z := Z.lxor z (Z.land x (Z.lxor y z)).
Definition Maj (x y z : Z) : Z := Z.lor (Z.land x y) (Z.land z (Z.lor x y)).
Definition Sigma0 (x : Z) : Z :=
  Z.lxor (Z.lxor (Z.lor (shr 2 x) (shl 30 x)) (Z.lor (shr 13 x) (shl 19 x))) (Z.lor (shr 22 x) (shl 10 x)).
Definition Sigma1 (x : Z) : Z :=
  Z.lxor (Z.lxor (Z.lor (shr 6 x) (shl 26 x)) (Z.lor (shr 11 x) (shl 21 x))) (Z.lor (shr 25 x) (shl 7 x)).
Definition sigma0 (x : Z) : Z :=
  Z.lxor (Z.lxor (Z.lor (shr 7 x) (shl 25 x)) (Z.lor (shr 18 x) (shl 14 x))) (shr 3 x).
Definition sigma1 (x : Z) : Z :=
  Z.lxor (Z.lxor (Z.lor (shr 17 x) (shl 15 x)) (Z.lor (shr 19 x) (shl 13 x))) (shr 10 x).

(** [Round] updates its reference arguments [d] and [h]. *)
Definition Round (a b c d e f g h k w : Z) : Z * Z :=
  let t1 := u32 (h + Sigma1 e + Ch e f g + k + w) in
  let t2 := u32 (Sigma0 a + Maj a b c) in
  (u32 (d + t1), u32 (t1 + t2)).

(** [ReadBE32(chunk + off)] *)
Definition be_val (bs : bytes) : Z := le_val (reverse bs).
Definition be_bytes (n : nat) (z : Z) : bytes := reverse (le_bytes n z).
Definition ReadBE32 (chunk : bytes) (off : nat) : Z := be_val (take 4 (drop off chunk)).
Definition WriteBE32 (x : Z) : bytes := be_bytes 4 x.
Definition WriteBE64 (x : Z) : bytes := be_bytes 8 x.

(** The eight words of the state. *)
Definition sha_state : Type := Z * Z * Z * Z * Z * Z * Z * Z.

Definition Initialize : sha_state :=
  (0x6a09e667, 0xbb67ae85, 0x3c6ef372, 0xa54ff53a, 0x510e527f, 0x9b05688c, 0x1f83d9ab, 0x5be0cd19).

(** The sixteen message words [w0 .. w15]. *)
Definition sha_words : Type :=
  Z * Z * Z * Z * Z * Z * Z * Z * Z * Z * Z * Z * Z * Z * Z * Z.

(** The body of the loop of [sha256::Transform], in the four groups of sixteen
    rounds in which it is written. *)
Definition Transform_0_15 (s : sha_state) (chunk : bytes) : sha_state * sha_words :=
  let '(a, b, c, d, e, f, g, h) := s in
  let w0 := ReadBE32 chunk 0 in
  let '(d, h) := Round a b c d e f g h 0x428a2f98 w0 in
  let w1 := ReadBE32 chunk 4 in
  let '(c, g) := Round h a b c d e f g 0x71374491 w1 in
  let w2 := ReadBE32 chunk 8 in
  let '(b, f) := Round g h a b c d e f 0xb5c0fbcf w2 in
  let w3 := ReadBE32 chunk 12 in
  let '(a, e) := Round f g h a b c d e 0xe9b5dba5 w3 in
  let w4 := ReadBE32 chunk 16 in
  let '(h, d) := Round e f g h a b c d 0x3956c25b w4 in
  let w5 := ReadBE32 chunk 20 in
  let '(g, c) := Round d e f g h a b c 0x59f111f1 w5 in
  let w6 := ReadBE32 chunk 24 in
  let '(f, b) := Round c d e f g h a b 0x923f82a4 w6 in
  let w7 := ReadBE32 chunk 28 in
  let '(e, a) := Round b c d e f g h a 0xab1c5ed5 w7 in
  let w8 := ReadBE32 chunk 32 in
  let '(d, h) := Round a b c d e f g h 0xd807aa98 w8 in
  let w9 := ReadBE32 chunk 36 in
  let '(c, g) := Round h a b c d e f g 0x12835b01 w9 in
  let w10 := ReadBE32 chunk 40 in
  let '(b, f) := Round g h a b c d e f 0x243185be w10 in
  let w11 := ReadBE32 chunk 44 in
  let '(a, e) := Round f g h a b c d e 0x550c7dc3 w11 in
  let w12 := ReadBE32 chunk 48 in
  let '(h, d) := Round e f g h a b c d 0x72be5d74 w12 in
  let w13 := ReadBE32 chunk 52 in
  let '(g, c) := Round d e f g h a b c 0x80deb1fe w13 in
  let w14 := ReadBE32 chunk 56 in
  let '(f, b) := Round c d e f g h a b 0x9bdc06a7 w14 in
  let w15 := ReadBE32 chunk 60 in
  let '(e, a) := Round b c d e f g h a 0xc19bf174 w15 in
  ((a, b, c, d, e, f, g, h),
   (w0, w1, w2, w3, w4, w5, w6, w7, w8, w9, w10, w11, w12, w13, w14, w15)).

Definition Transform_16_31 (st : sha_state * sha_words) : sha_state * sha_words :=
  let '((a, b, c, d, e, f, g, h), (w0, w1, w2, w3, w4, w5, w6, w7, w8, w9, w10, w11, w12, w13, w14, w15)) := st in
  let w0 := u32 (w0 + u32 (sigma1 w14 + w9 + sigma0 w1)) in
  let '(d, h) := Round a b c d e f g h 0xe49b69c1 w0 in
  let w1 := u32 (w1 + u32 (sigma1 w15 + w10 + sigma0 w2)) in
  let '(c, g) := Round h a b c d e f g 0xefbe4786 w1 in
  let w2 := u32 (w2 + u32 (sigma1 w0 + w11 + sigma0 w3)) in
  let '(b, f) := Round g h a b c d e f 0x0fc19dc6 w2 in
  let w3 := u32 (w3 + u32 (sigma1 w1 + w12 + sigma0 w4)) in
  let '(a, e) := Round f g h a b c d e 0x240ca1cc w3 in
  let w4 := u32 (w4 + u32 (sigma1 w2 + w13 + sigma0 w5)) in
  let '(h, d) := Round e f g h a b c d 0x2de92c6f w4 in
  let w5 := u32 (w5 + u32 (sigma1 w3 + w14 + sigma0 w6)) in
  let '(g, c) := Round d e f g h a b c 0x4a7484aa w5 in
  let w6 := u32 (w6 + u32 (sigma1 w4 + w15 + sigma0 w7)) in
  let '(f, b) := Round c d e f g h a b 0x5cb0a9dc w6 in
  let w7 := u32 (w7 + u32 (sigma1 w5 + w0 + sigma0 w8)) in
  let '(e, a) := Round b c d e f g h a 0x76f988da w7 in
  let w8 := u32 (w8 + u32 (sigma1 w6 + w1 + sigma0 w9)) in
  let '(d, h) := Round a b c d e f g h 0x983e5152 w8 in
  let w9 := u32 (w9 + u32 (sigma1 w7 + w2 + sigma0 w10)) in
  let '(c, g) := Round h a b c d e f g 0xa831c66d w9 in
  let w10 := u32 (w10 + u32 (sigma1 w8 + w3 + sigma0 w11)) in
  let '(b, f) := Round g h a b c d e f 0xb00327c8 w10 in
  let w11 := u32 (w11 + u32 (sigma1 w9 + w4 + sigma0 w12)) in
  let '(a, e) := Round f g h a b c d e 0xbf597fc7 w11 in
  let w12 := u32 (w12 + u32 (sigma1 w10 + w5 + sigma0 w13)) in
  let '(h, d) := Round e f g h a b c d 0xc6e00bf3 w12 in
  let w13 := u32 (w13 + u32 (sigma1 w11 + w6 + sigma0 w14)) in
  let '(g, c) := Round d e f g h a b c 0xd5a79147 w13 in
  let w14 := u32 (w14 + u32 (sigma1 w12 + w7 + sigma0 w15)) in
  let '(f, b) := Round c d e f g h a b 0x06ca6351 w14 in
  let w15 := u32 (w15 + u32 (sigma1 w13 + w8 + sigma0 w0)) in
  let '(e, a) := Round b c d e f g h a 0x14292967 w15 in
  ((a, b, c, d, e, f, g, h),
   (w0, w1, w2, w3, w4, w5, w6, w7, w8, w9, w10, w11, w12, w13, w14, w15)).

Definition Transform_32_47 (st : sha_state * sha_words) : sha_state * sha_words :=
  let '((a, b, c, d, e, f, g, h), (w0, w1, w2, w3, w4, w5, w6, w7, w8, w9, w10, w11, w12, w13, w14, w15)) := st in
  let w0 := u32 (w0 + u32 (sigma1 w14 + w9 + sigma0 w1)) in
  let '(d, h) := Round a b c d e f g h 0x27b70a85 w0 in
  let w1 := u32 (w1 + u32 (sigma1 w15 + w10 + sigma0 w2)) in
  let '(c, g) := Round h a b c d e f g 0x2e1b2138 w1 in
  let w2 := u32 (w2 + u32 (sigma1 w0 + w11 + sigma0 w3)) in
  let '(b, f) := Round g h a b c d e f 0x4d2c6dfc w2 in
  let w3 := u32 (w3 + u32 (sigma1 w1 + w12 + sigma0 w4)) in
  let '(a, e) := Round f g h a b c d e 0x53380d13 w3 in
  let w4 := u32 (w4 + u32 (sigma1 w2 + w13 + sigma0 w5)) in
  let '(h, d) := Round e f g h a b c d 0x650a7354 w4 in
  let w5 := u32 (w5 + u32 (sigma1 w3 + w14 + sigma0 w6)) in
  let '(g, c) := Round d e f g h a b c 0x766a0abb w5 in
  let w6 := u32 (w6 + u32 (sigma1 w4 + w15 + sigma0 w7)) in
  let '(f, b) := Round c d e f g h a b 0x81c2c92e w6 in
  let w7 := u32 (w7 + u32 (sigma1 w5 + w0 + sigma0 w8)) in
  let '(e, a) := Round b c d e f g h a 0x92722c85 w7 in
  let w8 := u32 (w8 + u32 (sigma1 w6 + w1 + sigma0 w9)) in
  let '(d, h) := Round a b c d e f g h 0xa2bfe8a1 w8 in
  let w9 := u32 (w9 + u32 (sigma1 w7 + w2 + sigma0 w10)) in
  let '(c, g) := Round h a b c d e f g 0xa81a664b w9 in
  let w10 := u32 (w10 + u32 (sigma1 w8 + w3 + sigma0 w11)) in
  let '(b, f) := Round g h a b c d e f 0xc24b8b70 w10 in
  let w11 := u32 (w11 + u32 (sigma1 w9 + w4 + sigma0 w12)) in
  let '(a, e) := Round f g h a b c d e 0xc76c51a3 w11 in
  let w12 := u32 (w12 + u32 (sigma1 w10 + w5 + sigma0 w13)) in
  let '(h, d) := Round e f g h a b c d 0xd192e819 w12 in
  let w13 := u32 (w13 + u32 (sigma1 w11 + w6 + sigma0 w14)) in
  let '(g, c) := Round d e f g h a b c 0xd6990624 w13 in
  let w14 := u32 (w14 + u32 (sigma1 w12 + w7 + sigma0 w15)) in
  let '(f, b) := Round c d e f g h a b 0xf40e3585 w14 in
  let w15 := u32 (w15 + u32 (sigma1 w13 + w8 + sigma0 w0)) in
  let '(e, a) := Round b c d e f g h a 0x106aa070 w15 in
  ((a, b, c, d, e, f, g, h),
   (w0, w1, w2, w3, w4, w5, w6, w7, w8, w9, w10, w11, w12, w13, w14, w15)).

Definition Transform_48_63 (st : sha_state * sha_words) : sha_state :=
  let '((a, b, c, d, e, f, g, h), (w0, w1, w2, w3, w4, w5, w6, w7, w8, w9, w10, w11, w12, w13, w14, w15)) := st in
  let w0 := u32 (w0 + u32 (sigma1 w14 + w9 + sigma0 w1)) in
  let '(d, h) := Round a b c d e f g h 0x19a4c116 w0 in
  let w1 := u32 (w1 + u32 (sigma1 w15 + w10 + sigma0 w2)) in
  let '(c, g) := Round h a b c d e f g 0x1e376c08 w1 in
  let w2 := u32 (w2 + u32 (sigma1 w0 + w11 + sigma0 w3)) in
  let '(b, f) := Round g h a b c d e f 0x2748774c w2 in
  let w3 := u32 (w3 + u32 (sigma1 w1 + w12 + sigma0 w4)) in
  let '(a, e) := Round f g h a b c d e 0x34b0bcb5 w3 in
  let w4 := u32 (w4 + u32 (sigma1 w2 + w13 + sigma0 w5)) in
  let '(h, d) := Round e f g h a b c d 0x391c0cb3 w4 in
  let w5 := u32 (w5 + u32 (sigma1 w3 + w14 + sigma0 w6)) in
  let '(g, c) := Round d e f g h a b c 0x4ed8aa4a w5 in
  let w6 := u32 (w6 + u32 (sigma1 w4 + w15 + sigma0 w7)) in
  let '(f, b) := Round c d e f g h a b 0x5b9cca4f w6 in
  let w7 := u32 (w7 + u32 (sigma1 w5 + w0 + sigma0 w8)) in
  let '(e, a) := Round b c d e f g h a 0x682e6ff3 w7 in
  let w8 := u32 (w8 + u32 (sigma1 w6 + w1 + sigma0 w9)) in
  let '(d, h) := Round a b c d e f g h 0x748f82ee w8 in
  let w9 := u32 (w9 + u32 (sigma1 w7 + w2 + sigma0 w10)) in
  let '(c, g) := Round h a b c d e f g 0x78a5636f w9 in
  let w10 := u32 (w10 + u32 (sigma1 w8 + w3 + sigma0 w11)) in
  let '(b, f) := Round g h a b c d e f 0x84c87814 w10 in
  let w11 := u32 (w11 + u32 (sigma1 w9 + w4 + sigma0 w12)) in
  let '(a, e) := Round f g h a b c d e 0x8cc70208 w11 in
  let w12 := u32 (w12 + u32 (sigma1 w10 + w5 + sigma0 w13)) in
  let '(h, d) := Round e f g h a b c d 0x90befffa w12 in
  let w13 := u32 (w13 + u32 (sigma1 w11 + w6 + sigma0 w14)) in
  let '(g, c) := Round d e f g h a b c 0xa4506ceb w13 in
  let '(f, b) := Round c d e f g h a b 0xbef9a3f7 (u32 (w14 + sigma1 w12 + w7 + sigma0 w15)) in
  let '(e, a) := Round b c d e f g h a 0xc67178f2 (u32 (w15 + sigma1 w13 + w8 + sigma0 w0)) in
  (a, b, c, d, e, f, g, h).

Definition Transform_block (s : sha_state) (chunk : bytes) : sha_state :=
  let '(s0, s1, s2, s3, s4, s5, s6, s7) := s in
  let '(a, b, c, d, e, f, g, h) :=
    Transform_48_63 (Transform_32_47 (Transform_16_31 (Transform_0_15 s chunk))) in
  (u32 (s0 + a), u32 (s1 + b), u32 (s2 + c), u32 (s3 + d),
   u32 (s4 + e), u32 (s5 + f), u32 (s6 + g), u32 (s7 + h)).

Fixpoint Transform_loop (block : sha_state -> bytes -> sha_state)
    (s : sha_state) (chunk : bytes) (blocks : nat) : sha_state :=
  match blocks with
  | O => s
  | S blocks => Transform_loop block (block s chunk) (drop 64 chunk) blocks
  end.

Definition Transform : sha_state -> bytes -> nat -> sha_state := Transform_loop Transform_block.

(** ** The hasher *)

Record CSHA256 := mkCSHA256 {
  sha_s : sha_state;
  sha_buf : bytes;   (** the filled part of [buf] *)
  sha_bytes : Z      (** [uint64_t bytes] *)
}.

Definition CSHA256_Reset : CSHA256 := mkCSHA256 Initialize [] 0.

(** The three steps of [CSHA256::Write]; each returns the hasher and the part of
    [data] it has not consumed. [buf] is kept as the [bufsize] bytes in use. *)

(** "Fill the buffer, and process it." *)
Definition Write_fill (c : CSHA256) (data : bytes) : CSHA256 * bytes :=
  let bufsize := sha_bytes c mod 64 in
  if negb (bufsize =? 0) && (64 <=? bufsize + Zlength data) then
    let n := Z.to_nat (64 - bufsize) in
    (mkCSHA256 (Transform (sha_s c) (sha_buf c ++ take n data) 1) []
               (u64 (sha_bytes c + (64 - bufsize))),
     drop n data)
  else (c, data).

(** Whole blocks are hashed from [data] in place. *)
Definition Write_blocks (c : CSHA256) (data : bytes) : CSHA256 * bytes :=
  if 64 <=? Zlength data then
    let blocks := Zlength data / 64 in
    (mkCSHA256 (Transform (sha_s c) data (Z.to_nat blocks)) (sha_buf c)
               (u64 (sha_bytes c + 64 * blocks)),
     drop (Z.to_nat (64 * blocks)) data)
  else (c, data).

(** "Fill the buffer with what remains." *)
Definition Write_rest (c : CSHA256) (data : bytes) : CSHA256 :=
  if 0 <? Zlength data then
    mkCSHA256 (sha_s c) (sha_buf c ++ data) (u64 (sha_bytes c + Zlength data))
  else c.

Definition CSHA256_Write (c : CSHA256) (data : bytes) : CSHA256 :=
  let '(c, data) := Write_fill c data in
  let '(c, data) := Write_blocks c data in
  Write_rest c data.

Definition sha_pad : bytes := x80 :: replicate 63 x00.

Definition CSHA256_Finalize (c : CSHA256) : bytes :=
  let sizedesc := WriteBE64 (u64 (Z.shiftl (sha_bytes c) 3)) in
  let c := CSHA256_Write c (take (Z.to_nat (1 + (119 - sha_bytes c mod 64) mod 64)) sha_pad) in
  let c := CSHA256_Write c sizedesc in
  let '(s0, s1, s2, s3, s4, s5, s6, s7) := sha_s c in
  WriteBE32 s0 ++ WriteBE32 s1 ++ WriteBE32 s2 ++ WriteBE32 s3 ++
  WriteBE32 s4 ++ WriteBE32 s5 ++ WriteBE32 s6 ++ WriteBE32 s7.

(** [CHash256]: the data is written piecewise, then hashed twice. *)
Definition CHash256_Finalize (c : CSHA256) : bytes :=
  let buf := CSHA256_Finalize c in
  CSHA256_Finalize (CSHA256_Write CSHA256_Reset buf).

(** [Hash(begin, end)] over one range, and over the concatenation of two. *)
Definition Hash (data : bytes) : bytes :=
  CHash256_Finalize (CSHA256_Write CSHA256_Reset data).
Definition Hash2 (p1 p2 : bytes) : bytes :=
  CHash256_Finalize (CSHA256_Write (CSHA256_Write CSHA256_Reset p1) p2).

(** ** Reference: FIPS 180-4 *)

Module Fips.
Definition ROTR (n x : Z) : Z := Z.lor (Z.shiftr x n) (u32 (Z.shiftl x (32 - n))).
Definition ch (x y z : Z) : Z := Z.lxor (Z.land x y) (Z.ldiff z x).
Definition maj (x y z : Z) : Z := Z.lxor (Z.lxor (Z.land x y) (Z.land x z)) (Z.land y z).
Definition Sig0 (x : Z) : Z := Z.lxor (Z.lxor (ROTR 2 x) (ROTR 13 x)) (ROTR 22 x).
Definition Sig1 (x : Z) : Z := Z.lxor (Z.lxor (ROTR 6 x) (ROTR 11 x)) (ROTR 25 x).
Definition sig0 (x : Z) : Z := Z.lxor (Z.lxor (ROTR 7 x) (ROTR 18 x)) (Z.shiftr x 3).
Definition sig1 (x : Z) : Z := Z.lxor (Z.lxor (ROTR 17 x) (ROTR 19 x)) (Z.shiftr x 10).

(** The constants of the standard: the first 32 bits of the fractional parts of the
    cube roots of the first 64 primes, and of the square roots of the first 8. *)
Definition primes (n : nat) : list Z :=
  take n (filter (fun p => forallb (fun d => negb (p mod d =? 0)) (seqZ 2 (p - 2))) (seqZ 2 400)).

Fixpoint cbrt_bits (k : nat) (n r : Z) : Z :=
  match k with
  | O => r
  | S k => let r' := r + 2 ^ Z.of_nat k in cbrt_bits k n (if r' ^ 3 <=? n then r' else r)
  end.

Definition K : list Z :=
  Eval vm_compute in map (fun p => u32 (cbrt_bits 36 (p * 2 ^ 96) 0)) (primes 64).

Definition H0 : sha_state :=
  Eval vm_compute in
  match map (fun p => u32 (Z.sqrt (p * 2 ^ 64))) (primes 8) with
  | [a; b; c; d; e; f; g; h] => (a, b, c, d, e, f, g, h)
  | _ => (0, 0, 0, 0, 0, 0, 0, 0)
  end.

(** [W_t = sig1 W_(t-2) + W_(t-7) + sig0 W_(t-15) + W_(t-16)] for [16 <= t]. *)
Fixpoint schedule (n : nat) (ws : list Z) : list Z :=
  match n with
  | O => ws
  | S n =>
      let W := schedule n ws in
      let t := length W in
      let at_ i := nth i W 0 in
      W ++ [u32 (sig1 (at_ (t - 2)%nat) + at_ (t - 7)%nat + sig0 (at_ (t - 15)%nat) + at_ (t - 16)%nat)]
  end.

Definition step (k w : Z) (st : sha_state) : sha_state :=
  let '(a, b, c, d, e, f, g, h) := st in
  let T1 := h + Sig1 e + ch e f g + k + w in
  let T2 := Sig0 a + maj a b c in
  (u32 (T1 + T2), a, b, c, u32 (d + T1), e, f, g).

Fixpoint rounds (ks ws : list Z) (st : sha_state) : sha_state :=
  match ks, ws with
  | k :: ks, w :: ws => rounds ks ws (step k w st)
  | _, _ => st
  end.

Definition add_state (s t : sha_state) : sha_state :=
  let '(s0, s1, s2, s3, s4, s5, s6, s7) := s in
  let '(a, b, c, d, e, f, g, h) := t in
  (u32 (s0 + a), u32 (s1 + b), u32 (s2 + c), u32 (s3 + d),
   u32 (s4 + e), u32 (s5 + f), u32 (s6 + g), u32 (s7 + h)).

Definition words (block : bytes) : list Z := map (fun i => ReadBE32 block (4 * i)) (seq 0 16).

Definition compress (H : sha_state) (block : bytes) : sha_state :=
  add_state H (rounds K (schedule 48 (words block)) H).

(** The message padded to a multiple of 64 bytes: [0x80], zeros, bit length. *)
Definition pad (m : bytes) : bytes :=
  m ++ [x80] ++ replicate (Z.to_nat ((55 - Zlength m) mod 64)) x00 ++ be_bytes 8 (8 * Zlength m).

Definition blocks (n : nat) (m : bytes) : list bytes :=
  map (fun i => take 64 (drop (64 * i) m)) (seq 0 n).

Definition digest (s : sha_state) : bytes :=
  let '(s0, s1, s2, s3, s4, s5, s6, s7) := s in
  concat (map (be_bytes 4) [s0; s1; s2; s3; s4; s5; s6; s7]).

Definition sha256 (m : bytes) : bytes :=
  let p := pad m in
  digest (fold_left compress (blocks (length p / 64) p) H0).
End Fips.

(** ** The unrolled block function is the reference one *)

Lemma Ch_fips x y z : Ch x y z = Fips.ch x y z.
Proof.
  apply Z.bits_inj'. intros i Hi. unfold Ch, Fips.ch.
  rewrite !Z.lxor_spec, !Z.land_spec, Z.ldiff_spec, Z.lxor_spec.
  by destruct (Z.testbit x i), (Z.testbit y i), (Z.testbit z i).
Qed.

Lemma Maj_fips x y z : Maj x y z = Fips.maj x y z.
Proof.
  apply Z.bits_inj'. intros i Hi. unfold Maj, Fips.maj.
  rewrite !Z.lxor_spec, Z.lor_spec, !Z.land_spec, Z.lor_spec.
  by destruct (Z.testbit x i), (Z.testbit y i), (Z.testbit z i).
Qed.

Lemma u32_add_r a b : u32 (a + u32 b) = u32 (a + b).
Proof. apply Z.add_mod_idemp_r. lia. Qed.
Lemma u32_add_l a b : u32 (u32 a + b) = u32 (a + b).
Proof. apply Z.add_mod_idemp_l. lia. Qed.

Lemma step_Round a b c d e f g h k w d' h' :
  Round a b c d e f g h k w = (d', h') ->
  Fips.step k w (a, b, c, d, e, f, g, h) = (h', a, b, c, d', e, f, g).
Proof.
  unfold Round, Fips.step. intros [= <- <-].
  rewrite u32_add_r, u32_add_l, u32_add_r, Ch_fips, Maj_fips. done.
Qed.

Lemma schedule_word a b : u32 (a + u32 b) = u32 (b + a).
Proof. by rewrite u32_add_r, Z.add_comm. Qed.

Lemma schedule_last a b c d : u32 (a + b + c + d) = u32 (b + c + d + a).
Proof. f_equal. lia. Qed.

Lemma let_intro {A B} (P : B -> Prop) (v : A) (b : A -> B) :
  (forall y, v = y -> P (b y)) -> P (let x := v in b x).
Proof. intros H. by apply H. Qed.

Lemma schedule_extend n ws W w :
  Fips.schedule n ws = W ->
  u32 (Fips.sig1 (nth (length W - 2) W 0) + nth (length W - 7) W 0
       + Fips.sig0 (nth (length W - 15) W 0) + nth (length W - 16) W 0) = w ->
  Fips.schedule (S n) ws = W ++ [w].
Proof. intros <- <-. done. Qed.

(** Run one round of a group: name the message word, then the updated words. *)
Ltac sha_round :=
  lazymatch goal with
  | |- ?P (let x := ?v in @?b x) => refine (let_intro P v b _); intros ?w ?Hw; cbv beta
  | |- ?P (match ?R with (_, _) => _ end) => destruct R as [?d ?h] eqn:?
  end.

Definition wlist (ws : sha_words) : list Z :=
  let '(w0, w1, w2, w3, w4, w5, w6, w7, w8, w9, w10, w11, w12, w13, w14, w15) := ws in
  [w0; w1; w2; w3; w4; w5; w6; w7; w8; w9; w10; w11; w12; w13; w14; w15].

(** A group runs its rounds on the next sixteen words of the schedule. *)
Definition group_ok (ks l : list Z) (st : sha_state) (r : sha_state * sha_words) : Prop :=
  r.1 = Fips.rounds ks (wlist r.2) st /\ Fips.schedule 16 l = l ++ wlist r.2.

Ltac rounds_done :=
  cbn [Fips.rounds wlist fst snd firstn skipn Fips.K]; repeat (erewrite step_Round by eassumption); reflexivity.

Ltac schedule_done :=
  match goal with
  | |- Fips.schedule _ ?l = _ =>
      let S := fresh "S" in
      assert (S : Fips.schedule 0 l = l) by reflexivity;
      do 16 (eapply schedule_extend in S;
             [|cbn [nth length Nat.sub]; first [rewrite <- schedule_word; eassumption | rewrite <- schedule_last; symmetry; eassumption]];
             cbn [app] in S);
      exact S
  end.

Lemma Transform_16_31_ok st ws :
  group_ok (take 16 (drop 16 Fips.K)) (wlist ws) st (Transform_16_31 (st, ws)).
Proof.
  destruct st as [[[[[[[a b] c] d] e] f] g] h].
  destruct ws as [[[[[[[[[[[[[[[w0 w1] w2] w3] w4] w5] w6] w7] w8] w9] w10] w11] w12] w13] w14] w15].
  cbn [wlist]. cbv beta iota delta [Transform_16_31]. do 32 sha_round.
  split; [rounds_done|schedule_done].
Qed.

Lemma Transform_32_47_ok st ws :
  group_ok (take 16 (drop 32 Fips.K)) (wlist ws) st (Transform_32_47 (st, ws)).
Proof.
  destruct st as [[[[[[[a b] c] d] e] f] g] h].
  destruct ws as [[[[[[[[[[[[[[[w0 w1] w2] w3] w4] w5] w6] w7] w8] w9] w10] w11] w12] w13] w14] w15].
  cbn [wlist]. cbv beta iota delta [Transform_32_47]. do 32 sha_round.
  split; [rounds_done|schedule_done].
Qed.

(** The last group does not store its last two words. *)
Definition last_group_ok (ks l : list Z) (st r : sha_state) : Prop :=
  exists ws, r = Fips.rounds ks ws st /\ Fips.schedule 16 l = l ++ ws.

Lemma Transform_48_63_ok st ws :
  last_group_ok (drop 48 Fips.K) (wlist ws) st (Transform_48_63 (st, ws)).
Proof.
  destruct st as [[[[[[[a b] c] d] e] f] g] h].
  destruct ws as [[[[[[[[[[[[[[[w0 w1] w2] w3] w4] w5] w6] w7] w8] w9] w10] w11] w12] w13] w14] w15].
  cbn [wlist]. cbv beta iota delta [Transform_48_63]. do 28 sha_round.
  do 2 (lazymatch goal with
        | |- context [Round _ _ _ _ _ _ _ _ _ ?w] =>
            let y := fresh "w" in remember w as y eqn:?; sha_round
        end).
  exists [w; w16; w17; w18; w19; w20; w21; w22; w23; w24; w25; w26; w27; w28; w29; w30].
  split; [rounds_done|schedule_done].
Qed.

Lemma Transform_0_15_ok st chunk :
  let r := Transform_0_15 st chunk in
  r.1 = Fips.rounds (take 16 Fips.K) (wlist r.2) st /\ wlist r.2 = Fips.words chunk.
Proof.
  destruct st as [[[[[[[a b] c] d] e] f] g] h]. cbv zeta.
  set (P := fun r : sha_state * sha_words => r.1 = Fips.rounds (take 16 Fips.K) (wlist r.2) (a, b, c, d, e, f, g, h)
             /\ wlist r.2 = Fips.words chunk).
  change (P (Transform_0_15 (a, b, c, d, e, f, g, h) chunk)).
  cbv beta iota delta [Transform_0_15]. do 32 sha_round.
  split; [rounds_done|]. cbn [wlist snd]. unfold Fips.words. cbn [seq map Nat.mul Nat.add].
  congruence.
Qed.

(** *** The schedule, sixteen words at a time *)

Lemma schedule_length n l : length (Fips.schedule n l) = (length l + n)%nat.
Proof. induction n as [|n IH]; cbn [Fips.schedule]; rewrite ?length_app, ?IH; simpl; lia. Qed.

Lemma schedule_add a b l : Fips.schedule (a + b) l = Fips.schedule a (Fips.schedule b l).
Proof. induction a as [|a IH]; [done|]. cbn [Nat.add Fips.schedule]. by rewrite IH. Qed.

Lemma nth_suffix (p W : list Z) i :
  (0 < i <= length W)%nat -> nth (length (p ++ W) - i) (p ++ W) 0 = nth (length W - i) W 0.
Proof.
  intros Hi. rewrite length_app, app_nth2 by lia. f_equal. lia.
Qed.

(** Only the last sixteen words matter. *)
Lemma schedule_prefix n p l :
  (16 <= length l)%nat -> Fips.schedule n (p ++ l) = p ++ Fips.schedule n l.
Proof.
  intros Hl. induction n as [|n IH]; [done|]. cbn [Fips.schedule].
  rewrite IH, !nth_suffix by (rewrite schedule_length; lia). by rewrite <- (assoc_L (++)).
Qed.

Lemma rounds_app ks1 ks2 ws1 ws2 st :
  length ks1 = length ws1 ->
  Fips.rounds (ks1 ++ ks2) (ws1 ++ ws2) st = Fips.rounds ks2 ws2 (Fips.rounds ks1 ws1 st).
Proof.
  revert ws1 st. induction ks1 as [|k ks1 IH]; intros [|w ws1] st H; try done.
  cbn [app Fips.rounds]. apply IH. by injection H.
Qed.

Lemma length_wlist ws : length (wlist ws) = 16%nat.
Proof. by destruct ws as [[[[[[[[[[[[[[[? ?] ?] ?] ?] ?] ?] ?] ?] ?] ?] ?] ?] ?] ?] ?]. Qed.

Lemma Transform_block_compress s chunk : Transform_block s chunk = Fips.compress s chunk.
Proof.
  unfold Fips.compress, Transform_block.
  destruct (Transform_0_15_ok s chunk) as [E0 Ew].
  destruct (Transform_0_15 s chunk) as [st0 ws0]. cbn [fst snd] in *.
  destruct (Transform_16_31_ok st0 ws0) as [E1 S1].
  destruct (Transform_16_31 (st0, ws0)) as [st1 ws1]. cbn [fst snd] in *.
  destruct (Transform_32_47_ok st1 ws1) as [E2 S2].
  destruct (Transform_32_47 (st1, ws1)) as [st2 ws2]. cbn [fst snd] in *.
  destruct (Transform_48_63_ok st2 ws2) as (ws3 & E3 & S3). rewrite E3.
  assert (Fips.schedule 48 (Fips.words chunk)
          = wlist ws0 ++ wlist ws1 ++ wlist ws2 ++ ws3) as ->.
  { rewrite <- Ew. change 48%nat with (16 + (16 + 16))%nat. rewrite !schedule_add, S1.
    rewrite schedule_prefix, S2, (assoc_L (++)), schedule_prefix, S3 by (rewrite length_wlist; lia).
    by rewrite <- !(assoc_L (++)). }
  change Fips.K with (take 16 Fips.K ++ take 16 (drop 16 Fips.K) ++ take 16 (drop 32 Fips.K) ++ drop 48 Fips.K).
  rewrite !rounds_app by (rewrite length_wlist; done). by rewrite <- E0, <- E1, <- E2.
Qed.

(** ** The hasher buffers whatever pieces it is given *)

Lemma words_take chunk : Fips.words (take 64 chunk) = Fips.words chunk.
Proof.
  unfold Fips.words. apply List.map_ext_in. intros i [_ Hi]%in_seq. unfold ReadBE32.
  rewrite skipn_firstn_comm, take_take. do 2 f_equal. lia.
Qed.

Lemma Transform_block_take s chunk : Transform_block s (take 64 chunk) = Transform_block s chunk.
Proof. rewrite !Transform_block_compress. unfold Fips.compress. by rewrite words_take. Qed.

#[local] Opaque Transform_block Fips.compress.

Lemma Transform_add s m a b :
  Transform s m (a + b) = Transform (Transform s m a) (drop (64 * a) m) b.
Proof.
  revert s m. induction a as [|a IH]; intros s m; [done|].
  cbn [Nat.add]. unfold Transform in *. cbn [Transform_loop]. rewrite IH, drop_drop.
  do 2 f_equal. lia.
Qed.

Lemma Transform_app s m x n :
  (64 * n <= length m)%nat -> Transform s (m ++ x) n = Transform s m n.
Proof.
  revert s m. induction n as [|n IH]; intros s m Hn; [done|].
  unfold Transform in *. cbn [Transform_loop].
  rewrite drop_app_le, IH by (rewrite ?length_drop; lia).
  by rewrite <- (Transform_block_take s (m ++ x)), take_app_le, Transform_block_take by lia.
Qed.

Lemma Transform_fold s m n :
  Transform s m n = fold_left Fips.compress (Fips.blocks n m) s.
Proof.
  revert s m. induction n as [|n IH]; intros s m; [done|].
  unfold Fips.blocks in *. cbn [seq]. rewrite <- seq_shift. cbn [map fold_left].
  unfold Transform in *. cbn [Transform_loop]. rewrite IH, List.map_map.
  rewrite <- Transform_block_compress, Nat.mul_0_r, drop_0, Transform_block_take.
  erewrite List.map_ext; [done|]. intros i. cbv beta. rewrite drop_drop.
  replace (64 + 64 * i)%nat with (64 * S i)%nat by lia. done.
Qed.

(** The hasher has consumed the message [m]. *)
Definition sha_repr (c : CSHA256) (m : bytes) : Prop :=
  let n := (length m / 64)%nat in
  sha_s c = Transform Initialize m n /\ sha_buf c = drop (64 * n) m /\ sha_bytes c = u64 (Zlength m).

Lemma sha_repr_Reset : sha_repr CSHA256_Reset [].
Proof. done. Qed.

Lemma sha_repr_bufsize c m : sha_repr c m -> sha_bytes c mod 64 = Z.of_nat (length m mod 64).
Proof.
  intros (_ & _ & ->). unfold wrapu, Zlength. rewrite Nat2Z.inj_mod.
  change (2 ^ 64) with (64 * 2 ^ 58). rewrite Z.rem_mul_r by lia.
  rewrite Z.mul_comm, Z.mod_add by lia. apply Z.mod_mod. lia.
Qed.

Lemma div_mod_64 n : (n = 64 * (n / 64) + n mod 64 /\ n mod 64 < 64)%nat.
Proof. split; [apply Nat.div_mod_eq|by apply Nat.mod_upper_bound]. Qed.

Lemma u64_add_length c (m x : bytes) :
  sha_bytes c = u64 (Zlength m) -> u64 (sha_bytes c + Zlength x) = u64 (Zlength (m ++ x)).
Proof.
  intros ->. rewrite Zlength_app. apply Z.add_mod_idemp_l. lia.
Qed.

(** Whole blocks are hashed, from a buffer completed first if it is not empty. *)
Lemma sha_repr_blocks c m x b :
  sha_repr c m -> (length m mod 64 + length x = 64 * b)%nat ->
  sha_repr (mkCSHA256 (Transform (sha_s c) (sha_buf c ++ x) b) [] (u64 (sha_bytes c + Zlength x))) (m ++ x).
Proof.
  intros (Hs & Hb & Hn) Hx. pose proof (div_mod_64 (length m)) as [E _].
  assert (length (m ++ x) / 64 = length m / 64 + b)%nat as En.
  { rewrite length_app. replace (length m + length x)%nat with ((length m / 64 + b) * 64)%nat by lia.
    by apply Nat.div_mul. }
  unfold sha_repr. rewrite En. cbn [sha_s sha_buf sha_bytes]. split_and!.
  - by rewrite Transform_add, (Transform_app _ m x), <- Hs, drop_app_le, Hb by lia.
  - symmetry. apply drop_ge. rewrite length_app. lia.
  - by apply u64_add_length.
Qed.

Lemma sha_repr_buffer c m x :
  sha_repr c m -> (length m mod 64 + length x < 64)%nat ->
  sha_repr (mkCSHA256 (sha_s c) (sha_buf c ++ x) (u64 (sha_bytes c + Zlength x))) (m ++ x).
Proof.
  intros (Hs & Hb & Hn) Hx. pose proof (div_mod_64 (length m)) as [E _].
  assert (length (m ++ x) / 64 = length m / 64)%nat as En.
  { rewrite length_app. symmetry. apply (Nat.div_unique _ _ _ (length m mod 64 + length x)); lia. }
  unfold sha_repr. rewrite En. cbn [sha_s sha_buf sha_bytes]. split_and!.
  - by rewrite Transform_app by lia.
  - rewrite drop_app_le by lia. by rewrite Hb.
  - by apply u64_add_length.
Qed.

Lemma sha_repr_empty c m : sha_repr c m -> (length m mod 64 = 0)%nat -> sha_buf c = [].
Proof.
  intros (_ & -> & _) H. apply drop_ge. pose proof (div_mod_64 (length m)). lia.
Qed.

Lemma Write_fill_repr c m d :
  sha_repr c m ->
  exists m', sha_repr (Write_fill c d).1 m' /\ m ++ d = m' ++ (Write_fill c d).2 /\
    (length m' mod 64 = 0 \/ length m' mod 64 + length (Write_fill c d).2 < 64)%nat.
Proof.
  intros Hr. unfold Write_fill. rewrite (sha_repr_bufsize c m Hr).
  pose proof (div_mod_64 (length m)) as [E Hk]. set (k := (length m mod 64)%nat) in *.
  destruct (Z.eqb_spec (Z.of_nat k) 0) as [Ek|Ek]; cbn [negb andb].
  { exists m. split_and!; [done|done|left; fold k; lia]. }
  destruct (Z.leb_spec 64 (Z.of_nat k + Zlength d)) as [Hl|Hl]; unfold Zlength in Hl; cbn [fst snd].
  - set (j := Z.to_nat (64 - Z.of_nat k)).
    assert (length (take j d) = j) as Hj by (rewrite length_take; lia).
    exists (m ++ take j d). split_and!.
    + replace (64 - Z.of_nat k) with (Zlength (take j d)) by (unfold Zlength; lia).
      apply sha_repr_blocks; [done|fold k; lia].
    + by rewrite <- (assoc_L (++)), take_drop.
    + left. rewrite length_app, Hj.
      replace (length m + j)%nat with ((length m / 64 + 1) * 64)%nat by lia.
      by apply Nat.Div0.mod_mul.
  - exists m. split_and!; [done|done|right; fold k; lia].
Qed.

Lemma Write_blocks_repr c m d :
  sha_repr c m -> (length m mod 64 = 0 \/ length m mod 64 + length d < 64)%nat ->
  exists m', sha_repr (Write_blocks c d).1 m' /\ m ++ d = m' ++ (Write_blocks c d).2 /\
    (length m' mod 64 + length (Write_blocks c d).2 < 64)%nat.
Proof.
  intros Hr Hm. unfold Write_blocks.
  destruct (Z.leb_spec 64 (Zlength d)) as [Hl|Hl]; unfold Zlength in *; cbn [fst snd].
  - assert (length m mod 64 = 0)%nat as H0 by lia.
    pose proof (div_mod_64 (length d)) as [E Hd].
    rewrite <- (Nat2Z.inj_div (length d) 64 : _ = _ / 64), Nat2Z.id.
    set (b := (length d / 64)%nat) in *.
    assert (length (take (64 * b) d) = 64 * b)%nat as Ht by (rewrite length_take; lia).
    replace (64 * Z.of_nat b) with (Zlength (take (64 * b) d)) by (unfold Zlength; lia).
    replace (Z.to_nat (Zlength (take (64 * b) d))) with (64 * b)%nat by (unfold Zlength; lia).
    exists (m ++ take (64 * b) d). split_and!.
    + pose proof (sha_repr_blocks c m (take (64 * b) d) b Hr ltac:(lia)) as R.
      rewrite (sha_repr_empty c m) in R |- * by done. cbn [app] in R.
      rewrite <- (take_drop (64 * b) d) at 1. by rewrite Transform_app by lia.
    + by rewrite <- (assoc_L (++)), take_drop.
    + rewrite length_app, Ht, length_drop, (Nat.mul_comm 64), Nat.Div0.mod_add. lia.
  - exists m. split_and!; [done|done|lia].
Qed.

Lemma CSHA256_Write_repr c m d : sha_repr c m -> sha_repr (CSHA256_Write c d) (m ++ d).
Proof.
  intros Hr. unfold CSHA256_Write.
  destruct (Write_fill_repr c m d Hr) as (m1 & Hr1 & -> & Hm1).
  destruct (Write_fill c d) as [c1 d1]. cbn [fst snd] in *.
  destruct (Write_blocks_repr c1 m1 d1 Hr1 Hm1) as (m2 & Hr2 & -> & Hm2).
  destruct (Write_blocks c1 d1) as [c2 d2]. cbn [fst snd] in *. unfold Write_rest.
  destruct (Z.ltb_spec 0 (Zlength d2)).
  - by apply sha_repr_buffer.
  - destruct d2; [by rewrite (right_id_L [] (++))|]. unfold Zlength in *. simpl in *. lia.
Qed.

Lemma fold_Write_repr c m ds :
  sha_repr c m -> sha_repr (fold_left CSHA256_Write ds c) (m ++ concat ds).
Proof.
  revert c m. induction ds as [|d ds IH]; intros c m Hr; cbn [fold_left concat].
  - by rewrite (right_id_L [] (++)).
  - rewrite (assoc_L (++)). by apply IH, CSHA256_Write_repr.
Qed.

Lemma be_bytes_u64 z : be_bytes 8 (u64 z) = be_bytes 8 z.
Proof.
  unfold be_bytes. f_equal. apply le_val_inj; [by rewrite !length_le_bytes|].
  rewrite !le_val_bytes. change (256 ^ Z.of_nat 8) with (2 ^ 64).
  unfold wrapu. by rewrite Z.mod_mod by lia.
Qed.

Lemma CSHA256_Finalize_repr c m : sha_repr c m -> CSHA256_Finalize c = Fips.sha256 m.
Proof.
  intros Hr. unfold CSHA256_Finalize. pose proof (sha_repr_bufsize c m Hr) as Hk.
  assert (WriteBE64 (u64 (Z.shiftl (sha_bytes c) 3)) = be_bytes 8 (8 * Zlength m)) as ->.
  { unfold WriteBE64. rewrite be_bytes_u64, Z.shiftl_mul_pow2 by lia.
    destruct Hr as (_ & _ & ->). rewrite <- be_bytes_u64, <- (be_bytes_u64 (8 * _)).
    unfold wrapu. rewrite Z.mul_mod_idemp_l by lia. by replace (Zlength m * 2 ^ 3) with (8 * Zlength m) by lia. }
  set (z := Z.to_nat ((55 - Zlength m) mod 64)).
  assert (take (Z.to_nat (1 + (119 - sha_bytes c mod 64) mod 64)) sha_pad = x80 :: replicate z x00) as ->.
  { assert ((119 - sha_bytes c mod 64) mod 64 = Z.of_nat z) as ->.
    { unfold z. rewrite Z2Nat.id by (apply Z.mod_pos_bound; lia).
      rewrite Hk, Nat2Z.inj_mod. change (Z.of_nat (length m)) with (Zlength m).
      rewrite Zminus_mod_idemp_r. replace (119 - Zlength m) with (55 - Zlength m + 1 * 64) by lia.
      apply Z.mod_add. lia. }
    replace (Z.to_nat (1 + Z.of_nat z)) with (S z) by lia. unfold sha_pad. cbn [firstn].
    rewrite take_replicate. do 2 f_equal.
    pose proof (Z.mod_pos_bound (55 - Zlength m) 64 ltac:(lia)). unfold z. lia. }
  apply (CSHA256_Write_repr _ _ (x80 :: replicate z x00)) in Hr.
  apply (CSHA256_Write_repr _ _ (be_bytes 8 (8 * Zlength m))) in Hr as (Hs & _ & _).
  rewrite Hs. unfold Fips.sha256, Fips.pad. fold z.
  rewrite <- (assoc_L (++)). cbn [app]. rewrite Transform_fold. unfold Fips.digest, WriteBE32.
  destruct (fold_left _ _ _) as [[[[[[[s0 s1] s2] s3] s4] s5] s6] s7]. cbn [map concat].
  by rewrite (right_id_L [] (++)).
Qed.

Lemma Finalize_Write_Reset d : CSHA256_Finalize (CSHA256_Write CSHA256_Reset d) = Fips.sha256 d.
Proof. apply CSHA256_Finalize_repr, (CSHA256_Write_repr _ []), sha_repr_Reset. Qed.

(** [Hash] and [Hash2] are double SHA-256 of the data and of the concatenation. *)
Lemma Hash_fips data : Hash data = Fips.sha256 (Fips.sha256 data).
Proof. unfold Hash, CHash256_Finalize. by rewrite !Finalize_Write_Reset. Qed.

Lemma Hash2_app p1 p2 : Hash2 p1 p2 = Hash (p1 ++ p2).
Proof.
  rewrite Hash_fips. unfold Hash2, CHash256_Finalize. rewrite Finalize_Write_Reset. f_equal.
  apply CSHA256_Finalize_repr, CSHA256_Write_repr, (CSHA256_Write_repr _ []), sha_repr_Reset.
Qed.

Lemma length_CSHA256_Finalize c : length (CSHA256_Finalize c) = 32%nat.
Proof.
  unfold CSHA256_Finalize. destruct (sha_s _) as [[[[[[[s0 s1] s2] s3] s4] s5] s6] s7].
  unfold WriteBE32, be_bytes. by rewrite !length_app, !length_reverse, !length_le_bytes.
Qed.

Lemma length_Hash data : length (Hash data) = 32%nat.
Proof. apply length_CSHA256_Finalize. Qed.

Lemma length_Hash2 a b : length (Hash2 a b) = 32%nat.
Proof. apply length_CSHA256_Finalize. Qed.

(** C18: However the data is split into [Write] calls, the buffered, unrolled
    hasher returns the SHA-256 digest that FIPS 180-4 defines for the
    concatenation of the pieces. *)
Theorem sha256_streaming (pieces : list bytes) :
  CSHA256_Finalize (fold_left CSHA256_Write pieces CSHA256_Reset) = Fips.sha256 (concat pieces).
Proof. apply CSHA256_Finalize_repr, (fold_Write_repr _ []), sha_repr_Reset. Qed.

(** The test vectors of [SelfTest]: the padded empty string. *)
Example SelfTest_empty :
  Transform Initialize (x80 :: replicate 63 x00) 1
  = (0xe3b0c442, 0x98fc1c14, 0x9afbf4c8, 0x996fb924, 0x27ae41e4, 0x649b934c, 0xa495991b, 0x7852b855).
Proof. vm_compute. reflexivity. Qed.

(** Two blocks: sixty-four spaces and their padding. *)
Example SelfTest_spaces :
  Transform Initialize (Fips.pad (replicate 64 x20)) 2
  = (0xce4153b0, 0x147c2a86, 0x3ed4298e, 0xe0676bc8, 0x79fc77a1, 0x2abe1f49, 0xb2b055df, 0x1069523e).
Proof. vm_compute. reflexivity. Qed.
