(* ===== verification/Primitives.v ===== *)
(** * Transactions, blocks and sub-chain extension data (topchain/src/primitives, amount.h)

    The data the top chain exchanges and stores, with the sub-chain extension
    [CExtData] that every transaction of this chain carries, its
    serialization in both stream modes (with and without witnesses) and the
    identifiers computed from it. *)

From S2P Require Import Prelude Serialize Sha256.

(** ** Amounts *)

Definition COIN : Z := 100000000.
Definition MAX_MONEY : Z := 21000000 * COIN.
Definition MoneyRange (nValue : Z) : bool := (0 <=? nValue) && (nValue <=? MAX_MONEY).

(** ** Hashes and scripts as opaque bytes *)

Abbreviation uint256 := (list byte) (only parsing).
Abbreviation CScript := (list byte) (only parsing).

Definition uint256_zero : uint256 := replicate 32 x00.
Definition uint256_IsNull (h : uint256) : bool := forallb (fun b => bool_decide (b = x00)) h.

Abbreviation Unserialize_uint256 := (Unserialize_base_blob 32).

(** The object sizes that bound the batches of [Unserialize_impl] (x86-64). They
    decide when a vector is resized, never what is read: [Unserialize_vector_eq]. *)
Definition sizeof_CTxIn : Z := 96.
Definition sizeof_CTxOut : Z := 40.
Definition sizeof_vector : Z := 24.
Definition sizeof_string : Z := 32.
Definition sizeof_shared_ptr : Z := 16.

(** ** Extension data *)

Definition EXTDATA_NO : Z := 0.
Definition EXTDATA_GENESISCOINBASE : Z := 1.
Definition EXTDATA_CREATESUBCHAIN : Z := 2.
Definition EXTDATA_BACKUPSUBBLOCK : Z := 3.

Record CGenesisCoinBaseExt := mkGenesisExt {
  nInitPlatformFee : Z;
  platformAddress : bytes
}.

Record CCreateSubChainExt := mkCreateExt {
  cr_subChainId : uint256;
  cr_subChainOwner : uint256;
  cr_subChainName : bytes;
  cr_subCoinName : bytes;
  cr_subChainSeeds : list bytes;
  cr_signature : CScript
}.

Record CBackupSubBlockExt := mkBackupExt {
  bk_subChainId : uint256;
  bk_subBlockHash : uint256;
  bk_subBlockHeight : Z;
  bk_signature : CScript
}.

(** [boost::any data]: the alternatives the source stores in it. *)
Inductive any :=
| AnyEmpty
| AnyGenesis (e : CGenesisCoinBaseExt)
| AnyCreate (e : CCreateSubChainExt)
| AnyBackup (e : CBackupSubBlockExt).

Record CExtData := mkExtData { nExtType : Z; ext_data : any }.

Definition CExtData_default : CExtData := mkExtData 0 AnyEmpty.

(** [boost::any_cast] throws [bad_any_cast] on another alternative. *)
Definition any_cast_genesis (a : any) : result ser_error CGenesisCoinBaseExt :=
  match a with AnyGenesis e => Ok e | _ => Err BadAnyCast end.
Definition any_cast_create (a : any) : result ser_error CCreateSubChainExt :=
  match a with AnyCreate e => Ok e | _ => Err BadAnyCast end.
Definition any_cast_backup (a : any) : result ser_error CBackupSubBlockExt :=
  match a with AnyBackup e => Ok e | _ => Err BadAnyCast end.

Definition Serialize_genesis (e : CGenesisCoinBaseExt) : bytes :=
  ser_writedata64 (nInitPlatformFee e) ++ Serialize_blob (platformAddress e).
Definition Unserialize_genesis : reader CGenesisCoinBaseExt :=
  fee ← Unserialize_int64;
  addr ← Unserialize_string;
  mret (mkGenesisExt fee addr).

Definition Serialize_create (e : CCreateSubChainExt) : bytes :=
  Serialize_base_blob (cr_subChainId e) ++
  Serialize_base_blob (cr_subChainOwner e) ++
  Serialize_blob (cr_subChainName e) ++
  Serialize_blob (cr_subCoinName e) ++
  Serialize_vector Serialize_blob (cr_subChainSeeds e) ++
  Serialize_blob (cr_signature e).
Definition Unserialize_create : reader CCreateSubChainExt :=
  id ← Unserialize_uint256;
  owner ← Unserialize_uint256;
  name ← Unserialize_string;
  coin ← Unserialize_string;
  seeds ← Unserialize_vector Unserialize_string sizeof_string;
  sig ← Unserialize_blob;
  mret (mkCreateExt id owner name coin seeds sig).

Definition Serialize_backup (e : CBackupSubBlockExt) : bytes :=
  Serialize_base_blob (bk_subChainId e) ++
  Serialize_base_blob (bk_subBlockHash e) ++
  ser_writedata32 (bk_subBlockHeight e) ++
  Serialize_blob (bk_signature e).
Definition Unserialize_backup : reader CBackupSubBlockExt :=
  id ← Unserialize_uint256;
  hash ← Unserialize_uint256;
  height ← ser_readdata32;
  sig ← Unserialize_blob;
  mret (mkBackupExt id hash height sig).

Definition SerializeExtData (extdata : CExtData) : result ser_error bytes :=
  let t := ser_writedata8 (nExtType extdata) in
  if nExtType extdata =? EXTDATA_NO then Ok t
  else if nExtType extdata =? EXTDATA_GENESISCOINBASE then
    ext ← any_cast_genesis (ext_data extdata); Ok (t ++ Serialize_genesis ext)
  else if nExtType extdata =? EXTDATA_CREATESUBCHAIN then
    ext ← any_cast_create (ext_data extdata); Ok (t ++ Serialize_create ext)
  else if nExtType extdata =? EXTDATA_BACKUPSUBBLOCK then
    ext ← any_cast_backup (ext_data extdata); Ok (t ++ Serialize_backup ext)
  else Ok t.

(** Types without a payload leave [extdata.data] as it was. *)
Definition UnserializeExtData (extdata : CExtData) : reader CExtData :=
  nExtType ← ser_readdata8;
  if nExtType =? EXTDATA_NO then mret (mkExtData nExtType (ext_data extdata))
  else if nExtType =? EXTDATA_GENESISCOINBASE then
    ext ← Unserialize_genesis; mret (mkExtData nExtType (AnyGenesis ext))
  else if nExtType =? EXTDATA_CREATESUBCHAIN then
    ext ← Unserialize_create; mret (mkExtData nExtType (AnyCreate ext))
  else if nExtType =? EXTDATA_BACKUPSUBBLOCK then
    ext ← Unserialize_backup; mret (mkExtData nExtType (AnyBackup ext))
  else mret (mkExtData nExtType (ext_data extdata)).

Definition NeedsToSaveMeta (extdata : CExtData) : bool :=
  nExtType extdata =? EXTDATA_CREATESUBCHAIN.

Definition GetSubChainId (extdata : CExtData) : result ser_error uint256 :=
  if nExtType extdata =? EXTDATA_CREATESUBCHAIN then
    ext ← any_cast_create (ext_data extdata); Ok (cr_subChainId ext)
  else if nExtType extdata =? EXTDATA_BACKUPSUBBLOCK then
    ext ← any_cast_backup (ext_data extdata); Ok (bk_subChainId ext)
  else Ok uint256_zero.

Definition GetPreTxId (extdata : CExtData) : uint256 := uint256_zero.

Definition CCreateSubChainExt_Verify (e : CCreateSubChainExt) : bool := false.
Definition CBackupSubBlockExt_Verify (e : CBackupSubBlockExt) : bool := false.

Definition VerifyExtData (extdata : CExtData) : result ser_error bool :=
  if nExtType extdata =? EXTDATA_NO then Ok true
  else if nExtType extdata =? EXTDATA_GENESISCOINBASE then Ok true
  else if nExtType extdata =? EXTDATA_CREATESUBCHAIN then
    ext ← any_cast_create (ext_data extdata); Ok (CCreateSubChainExt_Verify ext)
  else if nExtType extdata =? EXTDATA_BACKUPSUBBLOCK then
    ext ← any_cast_backup (ext_data extdata); Ok (CBackupSubBlockExt_Verify ext)
  else Ok false.

(** ** Transactions *)

Record COutPoint := mkOutPoint { op_hash : uint256; op_n : Z }.

Definition COutPoint_IsNull (p : COutPoint) : bool :=
  uint256_IsNull (op_hash p) && (op_n p =? 0xffffffff).

#[global] Instance COutPoint_eq_dec : EqDecision COutPoint.
Proof. solve_decision. Defined.

#[global] Instance COutPoint_countable : Countable COutPoint :=
  inj_countable' (fun p => (op_hash p, op_n p)) (fun '(h, n) => mkOutPoint h n)
    (fun '(mkOutPoint h n) => eq_refl).

Record CTxIn := mkTxIn {
  prevout : COutPoint;
  scriptSig : CScript;
  nSequence : Z;
  scriptWitness : list bytes  (** the stack; only serialized through the transaction *)
}.

Definition SEQUENCE_FINAL : Z := 0xffffffff.

Record CTxOut := mkTxOut { nValue : Z; scriptPubKey : CScript }.

#[global] Instance CTxOut_eq_dec : EqDecision CTxOut.
Proof. solve_decision. Defined.

(** [CTransaction] and [CMutableTransaction] have the same data; the cached hash
    of the former is [ComputeHash] below. *)
Record CTransaction := mkTx {
  tx_nVersion : Z;
  vin : list CTxIn;
  vout : list CTxOut;
  nLockTime : Z;
  extData : CExtData
}.

Definition IsCoinBase (tx : CTransaction) : bool :=
  match vin tx with
  | [i] => COutPoint_IsNull (prevout i)
  | _ => false
  end.

Definition HasWitness (tx : CTransaction) : bool :=
  existsb (fun i => negb (bool_decide (scriptWitness i = []))) (vin tx).

Definition Serialize_outpoint (p : COutPoint) : bytes :=
  Serialize_base_blob (op_hash p) ++ ser_writedata32 (op_n p).
Definition Unserialize_outpoint : reader COutPoint :=
  hash ← Unserialize_uint256; n ← ser_readdata32; mret (mkOutPoint hash n).

Definition Serialize_txin (i : CTxIn) : bytes :=
  Serialize_outpoint (prevout i) ++ Serialize_blob (scriptSig i) ++ ser_writedata32 (nSequence i).
Definition Unserialize_txin : reader CTxIn :=
  p ← Unserialize_outpoint; sig ← Unserialize_blob; seq ← ser_readdata32; mret (mkTxIn p sig seq []).

Definition Serialize_txout (o : CTxOut) : bytes :=
  ser_writedata64 (nValue o) ++ Serialize_blob (scriptPubKey o).
Definition Unserialize_txout : reader CTxOut :=
  v ← Unserialize_int64; pk ← Unserialize_blob; mret (mkTxOut v pk).

Definition Serialize_vin := Serialize_vector Serialize_txin.
Definition Unserialize_vin := Unserialize_vector Unserialize_txin sizeof_CTxIn.
Definition Serialize_vout := Serialize_vector Serialize_txout.
Definition Unserialize_vout := Unserialize_vector Unserialize_txout sizeof_CTxOut.
Definition Serialize_stack := Serialize_vector Serialize_blob.
Definition Unserialize_stack := Unserialize_vector Unserialize_blob sizeof_vector.

Definition SERIALIZE_TRANSACTION_NO_WITNESS : Z := 0x40000000.

(** [s.GetVersion()] carries the mode of the stream. *)
Definition fAllowWitness (version : Z) : bool :=
  Z.land version SERIALIZE_TRANSACTION_NO_WITNESS =? 0.

Definition with_witness (i : CTxIn) (stack : list bytes) : CTxIn :=
  mkTxIn (prevout i) (scriptSig i) (nSequence i) stack.

(** [for (i...) s >> tx.vin[i].scriptWitness.stack] *)
Fixpoint Unserialize_witnesses (ins : list CTxIn) : reader (list CTxIn) :=
  match ins with
  | [] => mret []
  | i :: ins =>
      stack ← Unserialize_stack;
      rest ← Unserialize_witnesses ins;
      mret (with_witness i stack :: rest)
  end.

Definition UnserializeTransaction (version : Z) : reader CTransaction :=
  let allow := fAllowWitness version in
  nVersion ← Unserialize_int32;
  ins ← Unserialize_vin;
  '(flags, ins, outs) ←
    (if (Zlength ins =? 0) && allow then
       flags ← ser_readdata8;
       if negb (flags =? 0) then
         ins ← Unserialize_vin; outs ← Unserialize_vout; mret (flags, ins, outs)
       else mret (flags, ins, [])
     else
       outs ← Unserialize_vout; mret (0, ins, outs) : reader (Z * list CTxIn * list CTxOut));
  '(flags, ins) ←
    (if negb (Z.land flags 1 =? 0) && allow then
       ins ← Unserialize_witnesses ins; mret (Z.lxor flags 1, ins)
     else mret (flags, ins) : reader (Z * list CTxIn));
  if negb (flags =? 0) then throw UnknownOptionalData
  else
    lock ← ser_readdata32;
    ext ← UnserializeExtData CExtData_default;
    mret (mkTx nVersion ins outs lock ext).

Definition SerializeTransaction (tx : CTransaction) (version : Z) : result ser_error bytes :=
  let flags := if fAllowWitness version && HasWitness tx then 1 else 0 in
  ext ← SerializeExtData (extData tx);
  Ok (ser_writedata32 (tx_nVersion tx) ++
      (if flags =? 0 then [] else Serialize_vin [] ++ ser_writedata8 flags) ++
      Serialize_vin (vin tx) ++
      Serialize_vout (vout tx) ++
      (if negb (Z.land flags 1 =? 0)
       then concat (map (fun i => Serialize_stack (scriptWitness i)) (vin tx)) else []) ++
      ser_writedata32 (nLockTime tx) ++
      ext).

(** The double SHA-256 of the serialization without witnesses. *)
Definition ComputeHash (tx : CTransaction) : result ser_error uint256 :=
  data ← SerializeTransaction tx SERIALIZE_TRANSACTION_NO_WITNESS; Ok (Hash data).

Definition GetWitnessHash (tx : CTransaction) : result ser_error uint256 :=
  if negb (HasWitness tx) then ComputeHash tx
  else data ← SerializeTransaction tx 0; Ok (Hash data).

(** The sum of the outputs, or an exception when it leaves the money range. *)
Fixpoint GetValueOut_loop (outs : list CTxOut) (nValueOut : Z) : option Z :=
  match outs with
  | [] => Some nValueOut
  | o :: outs =>
      let nValueOut := i64 (nValueOut + nValue o) in
      if negb (MoneyRange (nValue o)) || negb (MoneyRange nValueOut) then None
      else GetValueOut_loop outs nValueOut
  end.
Definition GetValueOut (tx : CTransaction) : option Z := GetValueOut_loop (vout tx) 0.

(** A [CTransactionRef]: the transaction with the hash cached when it was built. *)
Record CTransactionRef := mkTxRef { ref_tx : CTransaction; ref_hash : uint256 }.

Definition MakeTransactionRef (tx : CTransaction) : result ser_error CTransactionRef :=
  h ← ComputeHash tx; Ok (mkTxRef tx h).

(** ** Blocks *)

Record CBlockHeader := mkHeader {
  hdr_nVersion : Z;
  hashPrevBlock : uint256;
  hashMerkleRoot : uint256;
  hdr_nTime : Z;
  hdr_nBits : Z;
  hdr_nNonce : Z
}.

Definition CBlockHeader_SetNull : CBlockHeader := mkHeader 0 uint256_zero uint256_zero 0 0 0.
Definition CBlockHeader_IsNull (h : CBlockHeader) : bool := hdr_nBits h =? 0.

Definition Serialize_header (h : CBlockHeader) : bytes :=
  ser_writedata32 (hdr_nVersion h) ++
  Serialize_base_blob (hashPrevBlock h) ++
  Serialize_base_blob (hashMerkleRoot h) ++
  ser_writedata32 (hdr_nTime h) ++
  ser_writedata32 (hdr_nBits h) ++
  ser_writedata32 (hdr_nNonce h).
Definition Unserialize_header : reader CBlockHeader :=
  v ← Unserialize_int32;
  prev ← Unserialize_uint256;
  root ← Unserialize_uint256;
  time ← ser_readdata32;
  bits ← ser_readdata32;
  nonce ← ser_readdata32;
  mret (mkHeader v prev root time bits nonce).

Definition CBlockHeader_GetHash (h : CBlockHeader) : uint256 := Hash (Serialize_header h).

Record CSubBlock := mkSubBlock {
  sb_subChainId : uint256;
  subblockdata : bytes;
  sb_nHeight : Z;
  sb_nTime : Z
}.

(** [SetNull] leaves [subChainId] as it was. *)
Definition CSubBlock_SetNull (b : CSubBlock) : CSubBlock := mkSubBlock (sb_subChainId b) [] 0 0.
Definition CSubBlock_IsNull (b : CSubBlock) : bool :=
  (Zlength (subblockdata b) =? 0) && (sb_nHeight b =? 0) && (sb_nTime b =? 0).

Definition Serialize_subblock (b : CSubBlock) : bytes :=
  Serialize_base_blob (sb_subChainId b) ++
  Serialize_blob (subblockdata b) ++
  ser_writedata32 (sb_nHeight b) ++
  ser_writedata32 (sb_nTime b).
Definition Unserialize_subblock : reader CSubBlock :=
  id ← Unserialize_uint256;
  data ← Unserialize_blob;
  height ← ser_readdata32;
  time ← ser_readdata32;
  mret (mkSubBlock id data height time).

Definition CSubBlock_GetHash (b : CSubBlock) : uint256 := Hash (Serialize_subblock b).

Record CBlock := mkBlock {
  block_header : CBlockHeader;
  vtx : list CTransaction;
  fChecked : bool
}.

Definition Serialize_block (b : CBlock) (version : Z) : result ser_error bytes :=
  txs ← mapM (fun tx => SerializeTransaction tx version) (vtx b);
  Ok (Serialize_header (block_header b) ++ WriteCompactSize (Zlength (vtx b)) ++ concat txs).

(** Reading into a block leaves its memory-only flag alone. *)
Definition Unserialize_block (version : Z) (b : CBlock) : reader CBlock :=
  h ← Unserialize_header;
  txs ← Unserialize_vector (UnserializeTransaction version) sizeof_shared_ptr;
  mret (mkBlock h txs (fChecked b)).

Definition SER_GETHASH : Z := Z.shiftl 1 2.

(** [CBlockLocator]: the client version is written outside hashing only, and
    the value read back is dropped. *)
Definition Serialize_locator (nType version : Z) (vHave : list uint256) : bytes :=
  (if Z.land nType SER_GETHASH =? 0 then ser_writedata32 version else []) ++
  Serialize_vector Serialize_base_blob vHave.
Definition Unserialize_locator (nType : Z) : reader (list uint256) :=
  if Z.land nType SER_GETHASH =? 0
  then _ ← Unserialize_int32; Unserialize_vector Unserialize_uint256 32
  else Unserialize_vector Unserialize_uint256 32.

(** * Well-formedness: the ranges of the C++ field types *)

Abbreviation uint256_wf := (base_blob_wf 32).

Definition genesis_wf (e : CGenesisCoinBaseExt) : Prop :=
  sint_range 64 (nInitPlatformFee e) /\ blob_wf (platformAddress e).

Definition create_wf (e : CCreateSubChainExt) : Prop :=
  uint256_wf (cr_subChainId e) /\ uint256_wf (cr_subChainOwner e) /\
  blob_wf (cr_subChainName e) /\ blob_wf (cr_subCoinName e) /\
  vector_wf blob_wf (cr_subChainSeeds e) /\ blob_wf (cr_signature e).

Definition backup_wf (e : CBackupSubBlockExt) : Prop :=
  uint256_wf (bk_subChainId e) /\ uint256_wf (bk_subBlockHash e) /\
  uint_range 32 (bk_subBlockHeight e) /\ blob_wf (bk_signature e).

(** The payload is the alternative the type byte announces. *)
Definition ext_wf (x : CExtData) : Prop :=
  uint_range 8 (nExtType x) /\
  match ext_data x with
  | AnyEmpty => nExtType x = EXTDATA_NO \/ EXTDATA_BACKUPSUBBLOCK < nExtType x
  | AnyGenesis e => nExtType x = EXTDATA_GENESISCOINBASE /\ genesis_wf e
  | AnyCreate e => nExtType x = EXTDATA_CREATESUBCHAIN /\ create_wf e
  | AnyBackup e => nExtType x = EXTDATA_BACKUPSUBBLOCK /\ backup_wf e
  end.

Definition outpoint_wf (p : COutPoint) : Prop := uint256_wf (op_hash p) /\ uint_range 32 (op_n p).
Definition txin_base_wf (i : CTxIn) : Prop :=
  outpoint_wf (prevout i) /\ blob_wf (scriptSig i) /\ uint_range 32 (nSequence i).
Definition txout_wf (o : CTxOut) : Prop := sint_range 64 (nValue o) /\ blob_wf (scriptPubKey o).
Definition stack_wf : list bytes -> Prop := vector_wf blob_wf.

Definition tx_wf (tx : CTransaction) : Prop :=
  sint_range 32 (tx_nVersion tx) /\
  Zlength (vin tx) <= MAX_SIZE /\
  Forall (fun i => txin_base_wf i /\ stack_wf (scriptWitness i)) (vin tx) /\
  vector_wf txout_wf (vout tx) /\
  uint_range 32 (nLockTime tx) /\
  ext_wf (extData tx).

Definition header_wf (h : CBlockHeader) : Prop :=
  sint_range 32 (hdr_nVersion h) /\ uint256_wf (hashPrevBlock h) /\ uint256_wf (hashMerkleRoot h) /\
  uint_range 32 (hdr_nTime h) /\ uint_range 32 (hdr_nBits h) /\ uint_range 32 (hdr_nNonce h).

Definition subblock_wf (b : CSubBlock) : Prop :=
  uint256_wf (sb_subChainId b) /\ blob_wf (subblockdata b) /\
  uint_range 32 (sb_nHeight b) /\ uint_range 32 (sb_nTime b).

(** What is left of a transaction when its witnesses are dropped. *)
Definition strip_witness (tx : CTransaction) : CTransaction :=
  mkTx (tx_nVersion tx) (map (fun i => with_witness i []) (vin tx)) (vout tx) (nLockTime tx) (extData tx).

(** * Codecs *)

Ltac record_codec :=
  split;
  [ let x := fresh in
    intros x rest ?; destruct_and?; codec_forward; destruct x; reflexivity
  | intros s x rest H; codec_backward H; apply reader_ret_Ok in H as [<- <-];
    split; [done | rewrite <- ?(assoc_L (++)); reflexivity] ].

#[global] Instance seeds_codec :
  Codec (Serialize_vector Serialize_blob) (Unserialize_vector Unserialize_string sizeof_string) (vector_wf blob_wf).
Proof. by apply vector_codec. Qed.

#[global] Instance genesis_codec : Codec Serialize_genesis Unserialize_genesis genesis_wf.
Proof. unfold Serialize_genesis, Unserialize_genesis, genesis_wf. record_codec. Qed.

#[global] Instance create_codec : Codec Serialize_create Unserialize_create create_wf.
Proof. unfold Serialize_create, Unserialize_create, create_wf. record_codec. Qed.

#[global] Instance backup_codec : Codec Serialize_backup Unserialize_backup backup_wf.
Proof. unfold Serialize_backup, Unserialize_backup, backup_wf. record_codec. Qed.

#[global] Instance outpoint_codec : Codec Serialize_outpoint Unserialize_outpoint outpoint_wf.
Proof. unfold Serialize_outpoint, Unserialize_outpoint, outpoint_wf. record_codec. Qed.

#[global] Instance txout_codec : Codec Serialize_txout Unserialize_txout txout_wf.
Proof. unfold Serialize_txout, Unserialize_txout, txout_wf. record_codec. Qed.

#[global] Instance header_codec : Codec Serialize_header Unserialize_header header_wf.
Proof. unfold Serialize_header, Unserialize_header, header_wf. record_codec. Qed.

#[global] Instance subblock_codec : Codec Serialize_subblock Unserialize_subblock subblock_wf.
Proof. unfold Serialize_subblock, Unserialize_subblock, subblock_wf. record_codec. Qed.

(** Writers that can throw: their output where they do not. *)
Definition ok_bytes (r : result ser_error bytes) : bytes :=
  match r with Ok b => b | Err _ => [] end.

Lemma ext_wf_Serialize x : ext_wf x -> SerializeExtData x = Ok (ok_bytes (SerializeExtData x)).
Proof.
  destruct x as [t d]. unfold ext_wf, SerializeExtData. simpl.
  intros [_ Hd]. destruct d; destruct_and?; subst; try done.
  destruct Hd as [->|Hd]; [done|].
  unfold EXTDATA_BACKUPSUBBLOCK, EXTDATA_NO, EXTDATA_GENESISCOINBASE, EXTDATA_CREATESUBCHAIN in *.
  repeat case_if; zbool; try lia; done.
Qed.

Lemma ext_roundtrip x rest :
  ext_wf x -> UnserializeExtData CExtData_default (ok_bytes (SerializeExtData x) ++ rest) = Ok (x, rest).
Proof.
  destruct x as [t d]. intros [Ht Hd]. cbn [nExtType ext_data] in *.
  destruct d as [|e|e|e]; [destruct Hd as [->|Hd]|destruct Hd as [-> Hd]..].
  - exact (codec_step _ _ _ Ht).
  - unfold SerializeExtData, UnserializeExtData. cbn [nExtType ext_data].
    unfold EXTDATA_BACKUPSUBBLOCK, EXTDATA_NO, EXTDATA_GENESISCOINBASE, EXTDATA_CREATESUBCHAIN in *.
    rewrite !(proj2 (Z.eqb_neq t _)) by lia. cbn [ok_bytes].
    rewrite codec_step by done. by rewrite !(proj2 (Z.eqb_neq t _)) by lia.
  - change (UnserializeExtData CExtData_default ((ser_writedata8 1 ++ Serialize_genesis e) ++ rest) =
            Ok (mkExtData 1 (AnyGenesis e), rest)).
    unfold UnserializeExtData. rewrite <- (assoc_L (++)), codec_step by done. exact (codec_step _ _ _ Hd).
  - change (UnserializeExtData CExtData_default ((ser_writedata8 2 ++ Serialize_create e) ++ rest) =
            Ok (mkExtData 2 (AnyCreate e), rest)).
    unfold UnserializeExtData. rewrite <- (assoc_L (++)), codec_step by done. exact (codec_step _ _ _ Hd).
  - change (UnserializeExtData CExtData_default ((ser_writedata8 3 ++ Serialize_backup e) ++ rest) =
            Ok (mkExtData 3 (AnyBackup e), rest)).
    unfold UnserializeExtData. rewrite <- (assoc_L (++)), codec_step by done. exact (codec_step _ _ _ Hd).
Qed.

Lemma ext_canonical s x rest :
  UnserializeExtData CExtData_default s = Ok (x, rest) ->
  ext_wf x /\ s = ok_bytes (SerializeExtData x) ++ rest.
Proof.
  unfold UnserializeExtData. intros (t & s' & Ht & -> & H)%codec_step_inv.
  unfold EXTDATA_NO, EXTDATA_GENESISCOINBASE, EXTDATA_CREATESUBCHAIN, EXTDATA_BACKUPSUBBLOCK in H.
  case_if_in H; zbool; [|case_if_in H; zbool; [|case_if_in H; zbool; [|case_if_in H; zbool]]].
  - apply reader_ret_Ok in H as [<- <-]. subst. split; [|done]. split; [done|by left].
  - subst. apply codec_step_inv in H as (e & s & He & -> & H). apply reader_ret_Ok in H as [<- <-].
    split; [done|]. rewrite (assoc_L (++)). reflexivity.
  - subst. apply codec_step_inv in H as (e & s & He & -> & H). apply reader_ret_Ok in H as [<- <-].
    split; [done|]. rewrite (assoc_L (++)). reflexivity.
  - subst. apply codec_step_inv in H as (e & s & He & -> & H). apply reader_ret_Ok in H as [<- <-].
    split; [done|]. rewrite (assoc_L (++)). reflexivity.
  - apply reader_ret_Ok in H as [<- <-]. split.
    + split; [done|]. right. unfold uint_range, EXTDATA_BACKUPSUBBLOCK in *. simpl in *. lia.
    + unfold SerializeExtData. cbn [nExtType].
      unfold EXTDATA_NO, EXTDATA_GENESISCOINBASE, EXTDATA_CREATESUBCHAIN, EXTDATA_BACKUPSUBBLOCK.
      by rewrite !(proj2 (Z.eqb_neq t _)) by lia.
Qed.

#[global] Instance ext_codec :
  Codec (ok_bytes ∘ SerializeExtData) (UnserializeExtData CExtData_default) ext_wf.
Proof. split; [apply ext_roundtrip | apply ext_canonical]. Qed.

#[global] Instance txin_codec :
  Codec Serialize_txin Unserialize_txin (fun i => txin_base_wf i /\ scriptWitness i = []).
Proof.
  unfold Serialize_txin, Unserialize_txin, txin_base_wf. split.
  - intros i rest ?. destruct_and?. codec_forward. destruct i; simpl in *; by subst.
  - intros s x rest H. codec_backward H. apply reader_ret_Ok in H as [<- <-].
    split; [done | rewrite <- ?(assoc_L (++)); reflexivity].
Qed.

#[global] Instance vin_codec :
  Codec Serialize_vin Unserialize_vin (vector_wf (fun i => txin_base_wf i /\ scriptWitness i = [])).
Proof. by apply vector_codec. Qed.

#[global] Instance vout_codec : Codec Serialize_vout Unserialize_vout (vector_wf txout_wf).
Proof. by apply vector_codec. Qed.

#[global] Instance stack_codec : Codec Serialize_stack Unserialize_stack stack_wf.
Proof. by apply vector_codec. Qed.

(** ** Transactions in both modes *)

Definition nowit_wf (tx : CTransaction) : Prop :=
  tx_wf tx /\ Forall (fun i => scriptWitness i = []) (vin tx).

Lemma strip_witness_id tx : Forall (fun i => scriptWitness i = []) (vin tx) -> strip_witness tx = tx.
Proof.
  destruct tx as [v ins outs l x]. unfold strip_witness. simpl. intros H. f_equal.
  induction H as [|[p sg sq w] ins Hw _ IH]; [done|]. simpl in *. by rewrite Hw, IH.
Qed.

Lemma strip_witness_wf tx : tx_wf tx -> nowit_wf (strip_witness tx).
Proof.
  unfold nowit_wf, tx_wf, strip_witness. simpl. intros (?&?&Hi&?&?&?).
  unfold Zlength in *. rewrite length_map. split_and!; try done.
  - apply Forall_map. eapply Forall_impl; [exact Hi|]. intros i [Hb _]. split; [exact Hb|]. by split.
  - apply Forall_map, Forall_true. done.
Qed.

Lemma Serialize_vin_strip ins : Serialize_vin (map (fun i => with_witness i []) ins) = Serialize_vin ins.
Proof.
  unfold Serialize_vin, Serialize_vector, Zlength. rewrite length_map. f_equal.
  induction ins as [|i ins IH]; [done|]. simpl. by rewrite IH.
Qed.

Lemma vin_base_wf tx : tx_wf tx ->
  vector_wf (fun i => txin_base_wf i /\ scriptWitness i = []) (map (fun i => with_witness i []) (vin tx)).
Proof.
  intros H%strip_witness_wf. destruct H as [(_&Hl&Hi&_) Hw]. split; [exact Hl|].
  apply Forall_and. split; [|exact Hw]. eapply Forall_impl; [exact Hi|]. by intros ? [].
Qed.

(** The body shared by both formats: everything after the inputs and outputs. *)
Lemma SerializeTransaction_nowit tx version :
  tx_wf tx -> fAllowWitness version && HasWitness tx = false ->
  SerializeTransaction tx version =
  Ok (ser_writedata32 (tx_nVersion tx) ++ Serialize_vin (vin tx) ++ Serialize_vout (vout tx) ++
      ser_writedata32 (nLockTime tx) ++ ok_bytes (SerializeExtData (extData tx))).
Proof.
  intros (_&_&_&_&_&Hx) E. unfold SerializeTransaction. rewrite E.
  rewrite (ext_wf_Serialize _ Hx). unfold mbind, result_bind. reflexivity.
Qed.

Lemma SerializeTransaction_strip tx version :
  fAllowWitness version = false -> SerializeTransaction (strip_witness tx) version = SerializeTransaction tx version.
Proof.
  intros E. unfold SerializeTransaction. rewrite E. cbn [andb].
  unfold strip_witness. cbn [tx_nVersion vin vout nLockTime extData].
  by rewrite Serialize_vin_strip.
Qed.

(** The tail every format ends with. *)
Definition tx_tail (v : Z) (ins : list CTxIn) (outs : list CTxOut) : reader CTransaction :=
  lock ← ser_readdata32;
  ext ← UnserializeExtData CExtData_default;
  mret (mkTx v ins outs lock ext).

Lemma tx_tail_roundtrip tx ins outs rest :
  tx_wf tx ->
  tx_tail (tx_nVersion tx) ins outs
    (ser_writedata32 (nLockTime tx) ++ ok_bytes (SerializeExtData (extData tx)) ++ rest) =
  Ok (mkTx (tx_nVersion tx) ins outs (nLockTime tx) (extData tx), rest).
Proof.
  intros (_&_&_&_&Hl&Hx). unfold tx_tail. rewrite codec_step by done.
  exact (codec_step (ser := ok_bytes ∘ SerializeExtData) _ _ _ Hx).
Qed.

Lemma bind_assoc_fail {A B} (m : reader A) (f : A -> reader B) s : (m ≫= f) s =
  match m s with Ok (a, s') => f a s' | Err e => Err e end.
Proof. reflexivity. Qed.

Lemma UnserializeTransaction_nowit version s :
  fAllowWitness version = false ->
  UnserializeTransaction version s =
  (v ← Unserialize_int32; ins ← Unserialize_vin; outs ← Unserialize_vout; tx_tail v ins outs) s.
Proof.
  intros E. unfold UnserializeTransaction. rewrite E, !bind_assoc_fail.
  destruct (Unserialize_int32 s) as [[v s1]|]; [|done]. rewrite !bind_assoc_fail.
  destruct (Unserialize_vin s1) as [[ins s2]|]; [|done]. rewrite andb_false_r, !bind_assoc_fail.
  by destruct (Unserialize_vout s2) as [[outs s3]|].
Qed.

(** With witnesses allowed, a stream whose first vector is not empty is read in
    the basic format. *)
Lemma UnserializeTransaction_basic version v ins s :
  fAllowWitness version = true -> sint_range 32 v -> ins <> [] ->
  vector_wf (fun i => txin_base_wf i /\ scriptWitness i = []) ins ->
  UnserializeTransaction version (ser_writedata32 v ++ Serialize_vin ins ++ s) =
  (outs ← Unserialize_vout; tx_tail v ins outs) s.
Proof.
  intros E Hv Hne Hi. unfold UnserializeTransaction. rewrite E.
  rewrite codec_step, codec_step by done.
  destruct ins as [|i ins]; [done|].
  destruct (Z.eqb_spec (Zlength (i :: ins)) 0) as [E0|_]; [unfold Zlength in E0; simpl in E0; lia|].
  cbn [andb]. rewrite !bind_assoc_fail. by destruct (Unserialize_vout s) as [[outs s3]|].
Qed.

Lemma Unserialize_witnesses_ser ins rest :
  Forall (fun i => txin_base_wf i /\ stack_wf (scriptWitness i)) ins ->
  Unserialize_witnesses (map (fun i => with_witness i []) ins)
    (concat (map (fun i => Serialize_stack (scriptWitness i)) ins) ++ rest) = Ok (ins, rest).
Proof.
  induction 1 as [|i ins [_ Hi] _ IH]; [done|]. cbn [map concat Unserialize_witnesses].
  rewrite <- (assoc_L (++)), codec_step by done.
  unfold mbind at 1, reader_bind. rewrite IH. by destruct i.
Qed.

(** The extended format. *)
Lemma tx_roundtrip_witness version tx rest :
  tx_wf tx -> fAllowWitness version = true -> HasWitness tx = true ->
  UnserializeTransaction version (ok_bytes (SerializeTransaction tx version) ++ rest) = Ok (tx, rest).
Proof.
  intros Hwf E W. pose proof Hwf as (Hv&_&Hi&Ho&_&Hx). pose proof (vin_base_wf _ Hwf) as Hb.
  unfold SerializeTransaction. rewrite E, W, (ext_wf_Serialize _ Hx).
  unfold mbind at 1, result_bind. cbn [ok_bytes andb]. change (1 =? 0) with false.
  change (negb (Z.land 1 1 =? 0)) with true. cbn iota.
  unfold UnserializeTransaction. rewrite E. rewrite <- !(assoc_L (++)).
  rewrite codec_step by done. rewrite codec_step by done.
  change (Zlength (@nil CTxIn) =? 0) with true. cbn [andb].
  rewrite (bind_assoc_fail (_ ≫= _)). rewrite codec_step by done. change (negb (1 =? 0)) with true. cbn iota.
  rewrite <- Serialize_vin_strip. rewrite codec_step by done. rewrite codec_step by done.
  cbn [mret reader_ret]. change (negb (Z.land 1 1 =? 0)) with true. cbn [andb].
  rewrite (bind_assoc_fail (_ ≫= _)), (bind_assoc_fail (Unserialize_witnesses _)).
  rewrite Unserialize_witnesses_ser by done. cbn [mret reader_ret].
  change (negb (Z.lxor 1 1 =? 0)) with false. cbn iota.
  exact (eq_trans (tx_tail_roundtrip tx (vin tx) (vout tx) rest Hwf) ltac:(by destruct tx)).
Qed.

Lemma HasWitness_false tx : HasWitness tx = false -> Forall (fun i => scriptWitness i = []) (vin tx).
Proof.
  unfold HasWitness. induction (vin tx) as [|i ins IH]; simpl; [done|].
  intros [H1 H2]%orb_false_iff. constructor; [|auto].
  apply negb_false_iff, bool_decide_eq_true in H1. done.
Qed.

Lemma tx_roundtrip_basic version tx rest :
  tx_wf tx -> fAllowWitness version = true -> HasWitness tx = false -> (vin tx = [] -> vout tx = []) ->
  UnserializeTransaction version (ok_bytes (SerializeTransaction tx version) ++ rest) = Ok (tx, rest).
Proof.
  intros Hwf E W Hne. pose proof Hwf as (Hv&_&_&Ho&_&_). pose proof (vin_base_wf _ Hwf) as Hb.
  pose proof (HasWitness_false _ W) as Hs. apply strip_witness_id in Hs.
  rewrite SerializeTransaction_nowit by (rewrite ?E, ?W; done). cbn [ok_bytes].
  rewrite <- !(assoc_L (++)), <- Serialize_vin_strip.
  assert (map (fun i => with_witness i []) (vin tx) = vin tx) as Ei by exact (f_equal vin Hs).
  rewrite Ei in *. destruct (vin tx) as [|i ins] eqn:Ev.
  - rewrite (Hne eq_refl). unfold UnserializeTransaction. rewrite E.
    rewrite codec_step by done. rewrite codec_step by done.
    change (Zlength (@nil CTxIn) =? 0) with true. cbn [andb].
    change (Serialize_vout []) with (ser_writedata8 0).
    rewrite (bind_assoc_fail (_ ≫= _)), codec_step by done.
    exact (eq_trans (tx_tail_roundtrip tx [] [] rest Hwf)
             ltac:(destruct tx; simpl in *; subst; by rewrite (Hne eq_refl))).
  - rewrite UnserializeTransaction_basic by done. rewrite codec_step by done.
    rewrite tx_tail_roundtrip by done. destruct tx; simpl in *; by subst.
Qed.

Lemma tx_roundtrip_nowit version tx rest :
  tx_wf tx -> fAllowWitness version = false ->
  UnserializeTransaction version (ok_bytes (SerializeTransaction tx version) ++ rest) =
  Ok (strip_witness tx, rest).
Proof.
  intros Hwf E. pose proof Hwf as (Hv&_&_&Ho&_&_). pose proof (vin_base_wf _ Hwf) as Hb.
  rewrite SerializeTransaction_nowit by (rewrite ?E; done). cbn [ok_bytes].
  rewrite UnserializeTransaction_nowit by done. rewrite <- !(assoc_L (++)), <- Serialize_vin_strip.
  rewrite codec_step by done. rewrite codec_step by done. rewrite codec_step by done.
  by apply tx_tail_roundtrip.
Qed.

Lemma tx_canonical_nowit version s tx rest :
  fAllowWitness version = false -> UnserializeTransaction version s = Ok (tx, rest) ->
  nowit_wf tx /\ s = ok_bytes (SerializeTransaction tx version) ++ rest.
Proof.
  intros E. rewrite UnserializeTransaction_nowit by done. intros H.
  apply codec_step_inv in H as (v & s1 & Hv & -> & H).
  apply codec_step_inv in H as (ins & s2 & [Hl Hi] & -> & H).
  apply codec_step_inv in H as (outs & s3 & Ho & -> & H).
  apply codec_step_inv in H as (lock & s4 & Ht & -> & H).
  apply (codec_step_inv (C := ext_codec)) in H as (x & s5 & Hx & -> & H).
  apply reader_ret_Ok in H as [<- <-].
  assert (nowit_wf (mkTx v ins outs lock x)) as Hwf.
  { apply Forall_and in Hi as [Hi1 Hi2]. split; [|done]. split_and!; try done.
    apply Forall_and. split; [done|]. eapply Forall_impl; [exact Hi2|].
    intros i Hw. cbn beta in Hw. rewrite Hw. done. }
  split; [done|]. destruct Hwf as [Hwf _].
  rewrite SerializeTransaction_nowit by (rewrite ?E; done). cbn [ok_bytes tx_nVersion vin vout nLockTime extData].
  by rewrite <- !(assoc_L (++)).
Qed.

(** * What the primitives promise *)

Lemma tx_wf_Serialize tx version :
  tx_wf tx -> SerializeTransaction tx version = Ok (ok_bytes (SerializeTransaction tx version)).
Proof.
  intros (_&_&_&_&_&Hx). unfold SerializeTransaction. by rewrite (ext_wf_Serialize _ Hx).
Qed.

(** The inputs that the extended format can express: a transaction with no
    input but some output is read as if its output count were the flag byte. *)
Definition wire_ok (version : Z) (tx : CTransaction) : Prop :=
  fAllowWitness version = true -> vin tx = [] -> vout tx = [].

Definition decoded (version : Z) (tx : CTransaction) : CTransaction :=
  if fAllowWitness version then tx else strip_witness tx.

Lemma tx_decode version tx rest :
  tx_wf tx -> wire_ok version tx ->
  UnserializeTransaction version (ok_bytes (SerializeTransaction tx version) ++ rest) =
  Ok (decoded version tx, rest).
Proof.
  unfold wire_ok, decoded. intros Hwf Hw. destruct (fAllowWitness version) eqn:E.
  - destruct (HasWitness tx) eqn:W; [by apply tx_roundtrip_witness | apply tx_roundtrip_basic; auto].
  - by apply tx_roundtrip_nowit.
Qed.

(** C21: a transaction whose fields are in the range of their types, extension
    data included, is always written without an exception, and reading what was
    written (followed by anything) gives the transaction back and leaves the rest
    of the stream: the whole transaction when the stream allows witnesses, the
    transaction without its witnesses when it does not. *)
Theorem transaction_roundtrip version tx rest :
  tx_wf tx -> wire_ok version tx ->
  exists enc, SerializeTransaction tx version = Ok enc /\
    UnserializeTransaction version (enc ++ rest) = Ok (decoded version tx, rest).
Proof.
  intros Hwf Hw. eexists. split; [by apply tx_wf_Serialize | by apply tx_decode].
Qed.

(** C22: the preimage of the transaction identifier determines everything but
    the witnesses: two transactions have the same preimage exactly when they agree
    on version, inputs, outputs, lock time and sub-chain extension data, and the
    identifier never depends on the witnesses. *)
Theorem txid_commits tx1 tx2 :
  tx_wf tx1 -> tx_wf tx2 ->
  (SerializeTransaction tx1 SERIALIZE_TRANSACTION_NO_WITNESS =
   SerializeTransaction tx2 SERIALIZE_TRANSACTION_NO_WITNESS <->
   strip_witness tx1 = strip_witness tx2) /\
  ComputeHash (strip_witness tx1) = ComputeHash tx1.
Proof.
  intros H1 H2. split; [split|].
  - intros E. pose proof (tx_roundtrip_nowit SERIALIZE_TRANSACTION_NO_WITNESS tx1 [] H1 eq_refl) as R1.
    rewrite E, (tx_roundtrip_nowit SERIALIZE_TRANSACTION_NO_WITNESS tx2 [] H2 eq_refl) in R1.
    revert R1. generalize (strip_witness tx1), (strip_witness tx2). by intros ? ? [= ->].
  - intros E. rewrite <- (SerializeTransaction_strip tx1), E by done. by apply SerializeTransaction_strip.
  - unfold ComputeHash. by rewrite SerializeTransaction_strip.
Qed.

(** In the mode without witnesses (the one transaction identifiers are
    computed in) the encoding is canonical: whatever byte string is accepted, it is
    the serialization of the transaction read, which is well-formed. *)
Theorem transaction_canonical s tx rest :
  UnserializeTransaction SERIALIZE_TRANSACTION_NO_WITNESS s = Ok (tx, rest) ->
  tx_wf tx /\ exists enc, SerializeTransaction tx SERIALIZE_TRANSACTION_NO_WITNESS = Ok enc /\ s = enc ++ rest.
Proof.
  intros [[Hwf _] E]%tx_canonical_nowit; [|done]. split; [done|].
  eexists. split; [by apply tx_wf_Serialize | exact E].
Qed.

Lemma mapM_Ok {A} (f : A -> result ser_error bytes) (P : A -> Prop) (l : list A) :
  (forall a, P a -> f a = Ok (ok_bytes (f a))) -> Forall P l ->
  mapM f l = Ok (map (fun a => ok_bytes (f a)) l).
Proof.
  intros Hf. induction 1 as [|a l Ha _ IH]; [done|]. simpl. by rewrite (Hf a Ha), IH.
Qed.

Definition block_wf (version : Z) (b : CBlock) : Prop :=
  header_wf (block_header b) /\
  vector_wf (fun tx => tx_wf tx /\ wire_ok version tx /\ decoded version tx = tx) (vtx b).

Lemma block_decode version b0 b rest :
  block_wf version b ->
  exists enc, Serialize_block b version = Ok enc /\
    Unserialize_block version b0 (enc ++ rest) = Ok (mkBlock (block_header b) (vtx b) (fChecked b0), rest).
Proof.
  intros [Hh [Hl Hv]]. unfold Serialize_block.
  erewrite (mapM_Ok _ _ (vtx b) (fun tx => tx_wf_Serialize tx version)) by
    (eapply Forall_impl; [exact Hv|]; by intros ? []).
  eexists. split; [reflexivity|]. unfold Unserialize_block.
  rewrite <- (assoc_L (++)), codec_step by done. rewrite bind_assoc_fail.
  match goal with |- context [Unserialize_vector ?u ?z ?t] =>
    assert (Unserialize_vector u z t = Ok (vtx b, rest)) as -> end; [|done].
  rewrite <- (assoc_L (++)), (assoc_L (++)).
  eapply (Unserialize_vector_ser (fun tx => ok_bytes (SerializeTransaction tx version)));
    [|done|exact (conj Hl Hv)].
  intros tx r (Hwf & Hw & Hd). rewrite <- Hd at 2. cbn beta. by apply tx_decode.
Qed.

(** A block round-trips through its serialization, header and transactions,
    and reading it does not touch the memory-only flag of the block read into. *)
Theorem block_roundtrip version b0 b rest :
  block_wf version b ->
  exists enc, Serialize_block b version = Ok enc /\
    Unserialize_block version b0 (enc ++ rest) = Ok (mkBlock (block_header b) (vtx b) (fChecked b0), rest).
Proof. apply block_decode. Qed.

(** C23: a sub-block round-trips through its serialization and distinct
    well-formed sub-blocks have distinct hash preimages, so that the hash a backup
    transaction carries is that of one sub-block. *)
Theorem subblock_roundtrip b rest :
  subblock_wf b ->
  Unserialize_subblock (Serialize_subblock b ++ rest) = Ok (b, rest) /\
  forall b', subblock_wf b' -> Serialize_subblock b' = Serialize_subblock b -> b' = b.
Proof.
  intros H. split; [by apply codec_roundtrip|].
  intros b' H' E. by apply (codec_inj b' b [] []); rewrite ?E.
Qed.

(** ** Instances of the statements *)

Ltac wf_compute := repeat first [ split | constructor ]; vm_compute; congruence.

Definition sample_create : CCreateSubChainExt :=
  mkCreateExt (replicate 32 x01) (replicate 32 x02) [x61] [x62] [[x63]; [x64; x65]] [x51].

Definition sample_tx : CTransaction :=
  mkTx 2 [mkTxIn (mkOutPoint (replicate 32 x07) 1) [x00] SEQUENCE_FINAL [[x01; x02]; []]]
    [mkTxOut (5 * COIN) [x51]; mkTxOut 0 []] 17 (mkExtData EXTDATA_CREATESUBCHAIN (AnyCreate sample_create)).

Lemma sample_tx_wf : tx_wf sample_tx.
Proof. wf_compute. Qed.

Lemma transaction_roundtrip_witness :
  exists enc, SerializeTransaction sample_tx 0 = Ok enc /\
    UnserializeTransaction 0 (enc ++ [x2a]) = Ok (sample_tx, [x2a]).
Proof. exact (transaction_roundtrip 0 sample_tx [x2a] sample_tx_wf (fun _ => ltac:(discriminate))). Defined.

Lemma txid_commits_witness :
  (SerializeTransaction sample_tx SERIALIZE_TRANSACTION_NO_WITNESS =
   SerializeTransaction sample_tx SERIALIZE_TRANSACTION_NO_WITNESS <->
   strip_witness sample_tx = strip_witness sample_tx) /\
  ComputeHash (strip_witness sample_tx) = ComputeHash sample_tx.
Proof. exact (txid_commits sample_tx sample_tx sample_tx_wf sample_tx_wf). Defined.

Definition sample_nowit : bytes := ok_bytes (SerializeTransaction sample_tx SERIALIZE_TRANSACTION_NO_WITNESS).

Lemma transaction_canonical_witness :
  exists enc, SerializeTransaction (strip_witness sample_tx) SERIALIZE_TRANSACTION_NO_WITNESS = Ok enc /\
    sample_nowit ++ [x2a] = enc ++ [x2a].
Proof.
  exact (proj2 (transaction_canonical (sample_nowit ++ [x2a]) (strip_witness sample_tx) [x2a]
    ltac:(vm_compute; reflexivity))).
Defined.

Definition sample_header : CBlockHeader := mkHeader (-3) (replicate 32 x05) (replicate 32 x06) 1 2 3.

Lemma block_roundtrip_witness :
  exists enc, Serialize_block (mkBlock sample_header [sample_tx; sample_tx] false) 0 = Ok enc /\
    Unserialize_block 0 (mkBlock CBlockHeader_SetNull [] true) (enc ++ []) =
    Ok (mkBlock sample_header [sample_tx; sample_tx] true, []).
Proof.
  refine (block_roundtrip 0 (mkBlock CBlockHeader_SetNull [] true)
           (mkBlock sample_header [sample_tx; sample_tx] false) [] _).
  split; [wf_compute|]. split; [vm_compute; congruence|].
  repeat constructor; try (vm_compute; congruence); apply sample_tx_wf.
Defined.

Definition sample_subblock : CSubBlock := mkSubBlock (replicate 32 x01) [x0a; x0b] 7 1500000000.

Lemma subblock_roundtrip_witness :
  Unserialize_subblock (Serialize_subblock sample_subblock ++ [xff]) = Ok (sample_subblock, [xff]) /\
  forall b', subblock_wf b' -> Serialize_subblock b' = Serialize_subblock sample_subblock -> b' = sample_subblock.
Proof. refine (subblock_roundtrip sample_subblock [xff] _). wf_compute. Defined.
