(* ===== verification/ArithUint256.v ===== *)
(** * 256-bit arithmetic (topchain/src/arith_uint256.h, arith_uint256.cpp)

    [base_uint<BITS>] as the list of its 32-bit limbs, least significant first,
    with every operator translated from its loop over the limbs, and the
    refinement of each of them to arithmetic on [Z] modulo [2^BITS]; the compact
    encoding of difficulty targets. *)

From S2P Require Import Prelude Serialize.

(** ** The limbs *)

(** [uint32_t pn[WIDTH]]: WIDTH is the length of the list. *)
Abbreviation base_uint := (list Z) (only parsing).

Definition WIDTH : nat := 8.

Definition base_uint_zero : base_uint := replicate WIDTH 0.

(** [base_uint(uint64_t b)] and [operator=(uint64_t b)]. *)
Definition base_uint_of_u64 (b : Z) : base_uint :=
  u32 b :: u32 (Z.shiftr b 32) :: replicate (WIDTH - 2) 0.

(** [operator~] *)
Definition base_uint_not (pn : base_uint) : base_uint := map (fun p => u32 (Z.lnot p)) pn.

(** [operator++] *)
Fixpoint base_uint_inc (pn : base_uint) : base_uint :=
  match pn with
  | [] => []
  | p :: pn => let p := u32 (p + 1) in if p =? 0 then p :: base_uint_inc pn else p :: pn
  end.

(** [operator--] *)
Fixpoint base_uint_dec (pn : base_uint) : base_uint :=
  match pn with
  | [] => []
  | p :: pn => let p := u32 (p - 1) in if p =? 0xffffffff then p :: base_uint_dec pn else p :: pn
  end.

(** [operator-()] *)
Definition base_uint_neg (pn : base_uint) : base_uint := base_uint_inc (base_uint_not pn).

(** [operator+=] *)
Fixpoint add_loop (carry : Z) (pn b : base_uint) : base_uint :=
  match pn, b with
  | p :: pn, q :: b =>
      let n := u64 (carry + p + q) in
      Z.land n 0xffffffff :: add_loop (Z.shiftr n 32) pn b
  | _, _ => []
  end.
Definition base_uint_add (a b : base_uint) : base_uint := add_loop 0 a b.

(** [operator-=] *)
Definition base_uint_sub (a b : base_uint) : base_uint := base_uint_add a (base_uint_neg b).

(** [operator*=(uint32_t)] *)
Fixpoint mul32_loop (carry b32 : Z) (pn : base_uint) : base_uint :=
  match pn with
  | [] => []
  | p :: pn =>
      let n := u64 (carry + b32 * p) in
      Z.land n 0xffffffff :: mul32_loop (Z.shiftr n 32) b32 pn
  end.
Definition base_uint_mul32 (a : base_uint) (b32 : Z) : base_uint := mul32_loop 0 b32 a.

(** [operator*=(const base_uint&)]: the inner loop runs over [pn[j..]] and [b[0..]]. *)
Fixpoint mul_row (carry aj : Z) (pn b : base_uint) : base_uint :=
  match pn, b with
  | p :: pn, q :: b =>
      let n := u64 (carry + p + aj * q) in
      Z.land n 0xffffffff :: mul_row (Z.shiftr n 32) aj pn b
  | _, _ => []
  end.
Fixpoint mul_loop (j : nat) (a b pn : base_uint) : base_uint :=
  match a with
  | [] => pn
  | aj :: a => mul_loop (S j) a b (take j pn ++ mul_row 0 aj (drop j pn) b)
  end.
Definition base_uint_mul (a b : base_uint) : base_uint := mul_loop 0 a b (replicate (length a) 0).

(** [pn[i] |= v] *)
Definition or_limb (i : nat) (v : Z) (pn : base_uint) : base_uint := alter (fun x => Z.lor x v) i pn.

(** [operator<<=]: one iteration and the loop. *)
Definition shl_step (a : base_uint) (k : nat) (shift : Z) (pn : base_uint) (i : nat) : base_uint :=
  let W := length a in
  let pn := if (i + k + 1 <? W)%nat && negb (shift =? 0)
            then or_limb (i + k + 1) (Z.shiftr (nth i a 0) (32 - shift)) pn else pn in
  if (i + k <? W)%nat then or_limb (i + k) (u32 (Z.shiftl (nth i a 0) shift)) pn else pn.
Definition base_uint_shl (a : base_uint) (shift : Z) : base_uint :=
  let k := Z.to_nat (shift / 32) in
  let shift := shift mod 32 in
  fold_left (shl_step a k shift) (seq 0 (length a)) (replicate (length a) 0).

(** [operator>>=] *)
Definition shr_step (a : base_uint) (k : nat) (shift : Z) (pn : base_uint) (i : nat) : base_uint :=
  let pn := if (k + 1 <=? i)%nat && negb (shift =? 0)
            then or_limb (i - k - 1) (u32 (Z.shiftl (nth i a 0) (32 - shift))) pn else pn in
  if (k <=? i)%nat then or_limb (i - k) (Z.shiftr (nth i a 0) shift) pn else pn.
Definition base_uint_shr (a : base_uint) (shift : Z) : base_uint :=
  let k := Z.to_nat (shift / 32) in
  let shift := shift mod 32 in
  fold_left (shr_step a k shift) (seq 0 (length a)) (replicate (length a) 0).

(** [CompareTo]: limbs [i-1 .. 0]. *)
Fixpoint CompareTo_loop (i : nat) (pn b : base_uint) : Z :=
  match i with
  | O => 0
  | S i =>
      if nth i pn 0 <? nth i b 0 then -1
      else if nth i pn 0 >? nth i b 0 then 1
      else CompareTo_loop i pn b
  end.
Definition CompareTo (a b : base_uint) : Z := CompareTo_loop (length a) a b.

Definition EqualTo (pn : base_uint) (b : Z) : bool :=
  forallb (fun p => p =? 0) (drop 2 pn) &&
  (nth 1 pn 0 =? Z.shiftr b 32) && (nth 0 pn 0 =? Z.land b 0xffffffff).

(** [bits()]: the position of the highest bit set plus one. *)
Fixpoint limb_bits (nbits : nat) (p : Z) : Z :=
  match nbits with
  | O => 1
  | S nbits' =>
      if negb (Z.land p (Z.shiftl 1 (Z.of_nat nbits)) =? 0) then Z.of_nat nbits + 1
      else limb_bits nbits' p
  end.
Fixpoint bits_loop (pos : nat) (pn : base_uint) : Z :=
  match pos with
  | O => 0
  | S pos =>
      if negb (nth pos pn 0 =? 0) then 32 * Z.of_nat pos + limb_bits 31 (nth pos pn 0)
      else bits_loop pos pn
  end.
Definition base_uint_bits (pn : base_uint) : Z := bits_loop (length pn) pn.

(** [operator/=]: the loop runs while [shift >= 0], here [shift = n - 1]; the
    state is the quotient, the remainder and the shifted divisor. *)
Fixpoint div_loop (n : nat) (pn num div : base_uint) : base_uint * base_uint :=
  match n with
  | O => (pn, num)
  | S shift =>
      let '(num, pn) :=
        if CompareTo num div >=? 0
        then (base_uint_sub num div,
              or_limb (shift / 32) (u32 (Z.shiftl 1 (Z.land (Z.of_nat shift) 31))) pn)
        else (num, pn) in
      div_loop shift pn num (base_uint_shr div 1)
  end.

(** [None] is the exception [uint_error("Division by zero")]. *)
Definition base_uint_div (a b : base_uint) : option base_uint :=
  let num_bits := base_uint_bits a in
  let div_bits := base_uint_bits b in
  let zero := replicate (length a) 0 in
  if div_bits =? 0 then None
  else if div_bits >? num_bits then Some zero
  else
    let shift := num_bits - div_bits in
    Some (div_loop (Z.to_nat (shift + 1)) zero a (base_uint_shl b shift)).1.

Definition GetLow64 (pn : base_uint) : Z :=
  Z.lor (nth 0 pn 0) (u64 (Z.shiftl (nth 1 pn 0) 32)).

(** ** The compact encoding *)

(** The value, [*pfNegative] and [*pfOverflow]. *)
Definition SetCompact (nCompact : Z) : base_uint * bool * bool :=
  let nSize := Z.shiftr nCompact 24 in
  let nWord := Z.land nCompact 0x007fffff in
  let '(nWord, v) :=
    if nSize <=? 3 then
      let nWord := Z.shiftr nWord (8 * (3 - nSize)) in (nWord, base_uint_of_u64 nWord)
    else (nWord, base_uint_shl (base_uint_of_u64 nWord) (8 * (nSize - 3))) in
  (v,
   negb (nWord =? 0) && negb (Z.land nCompact 0x00800000 =? 0),
   negb (nWord =? 0) && ((nSize >? 34) || ((nWord >? 0xff) && (nSize >? 33))
                         || ((nWord >? 0xffff) && (nSize >? 32)))).

(** [None] is a failed assertion. *)
Definition GetCompact (a : base_uint) (fNegative : bool) : option Z :=
  let nSize := (base_uint_bits a + 7) / 8 in
  let nCompact :=
    if nSize <=? 3 then u32 (u64 (Z.shiftl (GetLow64 a) (8 * (3 - nSize))))
    else u32 (GetLow64 (base_uint_shr a (8 * (nSize - 3)))) in
  let '(nCompact, nSize) :=
    if negb (Z.land nCompact 0x00800000 =? 0) then (Z.shiftr nCompact 8, nSize + 1)
    else (nCompact, nSize) in
  if negb (Z.land nCompact (Z.lnot 0x007fffff) =? 0) then None
  else if negb (nSize <? 256) then None
  else
    let nCompact := Z.lor nCompact (u32 (Z.shiftl nSize 24)) in
    Some (Z.lor nCompact
            (if fNegative && negb (Z.land nCompact 0x007fffff =? 0) then 0x00800000 else 0)).

(** ** Conversion to and from [uint256] *)

Definition ArithToUint256 (a : base_uint) : bytes := concat (map (le_bytes 4) a).

Definition UintToArith256 (a : bytes) : base_uint :=
  map (fun x => le_val (take 4 (drop (4 * x) a))) (seq 0 WIDTH).

(** * The value of a number and its range *)

Fixpoint uval (pn : base_uint) : Z :=
  match pn with
  | [] => 0
  | p :: pn => p + 2 ^ 32 * uval pn
  end.

Definition limbs_ok (pn : base_uint) : Prop := Forall (uint_range 32) pn.

(** [2 ^ BITS] of a number with as many limbs as [pn]. *)
Definition modulus (pn : base_uint) : Z := 2 ^ (32 * Z.of_nat (length pn)).

Lemma modulus_cons p pn : modulus (p :: pn) = 2 ^ 32 * modulus pn.
Proof. unfold modulus. cbn [length]. rewrite Nat2Z.inj_succ, <- Z.pow_add_r by lia. f_equal. lia. Qed.

Lemma modulus_pos pn : 0 < modulus pn.
Proof. unfold modulus. apply Z.pow_pos_nonneg; lia. Qed.

Lemma modulus_length a b : length a = length b -> modulus a = modulus b.
Proof. unfold modulus. by intros ->. Qed.

Lemma uval_range pn : limbs_ok pn -> 0 <= uval pn < modulus pn.
Proof.
  unfold limbs_ok. induction 1 as [|p pn Hp _ IH]; [done|]. rewrite modulus_cons. cbn [uval].
  unfold uint_range in Hp. nia.
Qed.

Lemma uval_app a b : uval (a ++ b) = uval a + modulus a * uval b.
Proof.
  induction a as [|p a IH]; cbn [uval app]; [unfold modulus; simpl; lia|].
  rewrite IH, modulus_cons. lia.
Qed.

Lemma uval_replicate n : uval (replicate n 0) = 0.
Proof. induction n as [|n IH]; [done|]. cbn [replicate uval]. by rewrite IH. Qed.

Lemma limbs_ok_replicate n : limbs_ok (replicate n 0).
Proof. apply Forall_replicate. done. Qed.

Lemma uval_inj a b : limbs_ok a -> limbs_ok b -> length a = length b -> uval a = uval b -> a = b.
Proof.
  intros Ha. revert b. induction Ha as [|p a Hp Ha IH]; intros [|q b] Hb Hl E; [done..|].
  apply Forall_cons in Hb as [Hq Hb]. injection Hl as Hl. cbn [uval] in E.
  unfold uint_range in *.
  assert (p = q) as -> by
    (apply (f_equal (fun z => z mod 2 ^ 32)) in E;
     rewrite (Z.mul_comm (2 ^ 32)), Z.mod_add, (Z.mul_comm (2 ^ 32)), Z.mod_add, !Z.mod_small in E by lia;
     done).
  f_equal. apply IH; [done..|]. lia.
Qed.

(** Splitting a sum into the limb kept and the carry. *)
Lemma limb_split n : 0 <= n < 2 ^ 64 ->
  uint_range 32 (Z.land n 0xffffffff) /\ uint_range 32 (Z.shiftr n 32) /\
  Z.land n 0xffffffff + 2 ^ 32 * Z.shiftr n 32 = n.
Proof.
  intros Hn. change 0xffffffff with (Z.ones 32). rewrite Z.land_ones, Z.shiftr_div_pow2 by lia.
  unfold uint_range. pose proof (Z.mod_pos_bound n (2 ^ 32) ltac:(lia)).
  pose proof (Z.div_mod n (2 ^ 32) ltac:(lia)). lia.
Qed.

Lemma limbs_ok_cons p pn : limbs_ok (p :: pn) <-> uint_range 32 p /\ limbs_ok pn.
Proof. apply Forall_cons. Qed.

(** A number that starts with the limb [r] and goes on with the value [v + c] modulo
    the modulus of the rest, [c] the carry. *)
Lemma mod_carry r c v M :
  0 < M -> uint_range 32 r ->
  r + 2 ^ 32 * ((v + c) mod M) = (r + 2 ^ 32 * c + 2 ^ 32 * v) mod (2 ^ 32 * M).
Proof.
  intros HM Hr. unfold uint_range in Hr.
  rewrite (Z.mod_eq (v + c) M) by lia.
  apply (Z.mod_unique _ _ ((v + c) / M)).
  - left. pose proof (Z.mod_pos_bound (v + c) M HM). rewrite (Z.mod_eq (v + c) M) in * by lia. nia.
  - lia.
Qed.

(** ** Addition, negation, subtraction *)

Lemma add_loop_spec c a b :
  limbs_ok a -> limbs_ok b -> length a = length b -> 0 <= c <= 1 ->
  limbs_ok (add_loop c a b) /\ length (add_loop c a b) = length a /\
  uval (add_loop c a b) = (uval a + uval b + c) mod modulus a.
Proof.
  intros Ha. revert b c. induction Ha as [|p a Hp Ha IH]; intros [|q b] c Hb Hl Hc; try done.
  { split; [constructor|]. split; [done|]. unfold modulus. simpl. by rewrite Z.mod_1_r. }
  apply limbs_ok_cons in Hb as [Hq Hb]. injection Hl as Hl. cbn [add_loop uval length].
  unfold uint_range in Hp, Hq. set (n := u64 (c + p + q)).
  assert (n = c + p + q) as En by (unfold n; rewrite wrapu_small; [done|unfold uint_range; lia]).
  destruct (limb_split n) as (R1 & R2 & Es); [lia|].
  assert (0 <= Z.shiftr n 32 <= 1) as Hc'.
  { unfold uint_range in R1, R2. lia. }
  destruct (IH b (Z.shiftr n 32) Hb Hl Hc') as (I1 & I2 & I3).
  split; [by apply limbs_ok_cons|]. split; [by rewrite I2|].
  rewrite I3, modulus_cons, mod_carry by (done || apply modulus_pos).
  f_equal. lia.
Qed.

Lemma length_base_uint_inc a : length (base_uint_inc a) = length a.
Proof. induction a as [|p a IH]; [done|]. cbn [base_uint_inc]. case_if; simpl; by rewrite ?IH. Qed.

Lemma base_uint_inc_spec a :
  limbs_ok a -> limbs_ok (base_uint_inc a) /\ uval (base_uint_inc a) = (uval a + 1) mod modulus a.
Proof.
  induction 1 as [|p a Hp Ha [IH1 IH2]]; [split; [constructor|done]|].
  cbn [base_uint_inc]. pose proof (modulus_pos a) as HM.
  assert (uint_range 32 (u32 (p + 1))) by (apply wrapu_range; lia).
  pose proof (uval_range a Ha). rewrite modulus_cons. unfold uint_range in Hp.
  destruct (Z.eqb_spec (u32 (p + 1)) 0) as [E|E]; (split; [by apply limbs_ok_cons|]); cbn [uval].
  - assert (p = 2 ^ 32 - 1) as ->.
    { destruct (decide (p = 2 ^ 32 - 1)); [done|].
      rewrite wrapu_small in E by (unfold uint_range; lia). lia. }
    rewrite IH2, E, mod_carry by done. f_equal. lia.
  - assert (u32 (p + 1) = p + 1) as ->.
    { destruct (decide (p = 2 ^ 32 - 1)) as [->|]; [done|].
      apply wrapu_small. unfold uint_range. lia. }
    rewrite Z.mod_small; [lia|]. assert (p <> 2 ^ 32 - 1) by (intros ->; done). nia.
Qed.

Lemma base_uint_dec_spec a :
  limbs_ok a -> limbs_ok (base_uint_dec a) /\ uval (base_uint_dec a) = (uval a - 1) mod modulus a.
Proof.
  induction 1 as [|p a Hp Ha [IH1 IH2]]; [split; [constructor|done]|].
  cbn [base_uint_dec]. pose proof (modulus_pos a) as HM.
  assert (uint_range 32 (u32 (p - 1))) by (apply wrapu_range; lia).
  pose proof (uval_range a Ha). rewrite modulus_cons. unfold uint_range in Hp.
  destruct (Z.eqb_spec (u32 (p - 1)) 0xffffffff) as [E|E]; (split; [by apply limbs_ok_cons|]); cbn [uval].
  - assert (p = 0) as ->.
    { destruct (decide (p = 0)); [done|]. rewrite wrapu_small in E by (unfold uint_range; lia). lia. }
    rewrite IH2, E, <- Z.add_opp_r. change 0xffffffff with (2 ^ 32 - 1).
    rewrite (mod_carry _ (-1)) by done. f_equal. lia.
  - assert (u32 (p - 1) = p - 1) as ->.
    { destruct (decide (p = 0)) as [->|]; [done|]. apply wrapu_small. unfold uint_range. lia. }
    rewrite Z.mod_small; [lia|]. assert (p <> 0) by (intros ->; done). nia.
Qed.

Lemma u32_lnot p : uint_range 32 p -> u32 (Z.lnot p) = 2 ^ 32 - 1 - p.
Proof.
  unfold uint_range, wrapu. intros Hp. rewrite Z.lnot_eq_pred_opp.
  symmetry. apply (Z.mod_unique _ _ (-1)); lia.
Qed.

Lemma length_base_uint_not a : length (base_uint_not a) = length a.
Proof. apply length_map. Qed.

Lemma base_uint_not_spec a :
  limbs_ok a -> limbs_ok (base_uint_not a) /\ uval (base_uint_not a) = modulus a - 1 - uval a.
Proof.
  induction 1 as [|p a Hp Ha [IH1 IH2]]; [split; [constructor|done]|].
  cbn [base_uint_not map uval]. fold (base_uint_not a). rewrite u32_lnot, IH2, modulus_cons by done.
  unfold uint_range in Hp. split; [|lia]. apply limbs_ok_cons. split; [unfold uint_range; lia|done].
Qed.

Lemma base_uint_neg_spec a :
  limbs_ok a ->
  limbs_ok (base_uint_neg a) /\ length (base_uint_neg a) = length a /\
  uval (base_uint_neg a) = (- uval a) mod modulus a.
Proof.
  intros Ha. unfold base_uint_neg. destruct (base_uint_not_spec a Ha) as [N1 N2].
  destruct (base_uint_inc_spec _ N1) as [I1 I2].
  rewrite length_base_uint_inc, length_base_uint_not. split_and!; [done..|].
  rewrite I2, N2, (modulus_length (base_uint_not a) a) by apply length_base_uint_not.
  replace (modulus a - 1 - uval a + 1) with (- uval a + 1 * modulus a) by lia.
  apply Z.mod_add. pose proof (modulus_pos a). lia.
Qed.

Lemma base_uint_add_spec a b :
  limbs_ok a -> limbs_ok b -> length a = length b ->
  limbs_ok (base_uint_add a b) /\ length (base_uint_add a b) = length a /\
  uval (base_uint_add a b) = (uval a + uval b) mod modulus a.
Proof.
  intros Ha Hb Hl. destruct (add_loop_spec 0 a b Ha Hb Hl ltac:(lia)) as (H1 & H2 & H3).
  split_and!; [done..|]. unfold base_uint_add. rewrite H3. f_equal. lia.
Qed.

Lemma base_uint_sub_spec a b :
  limbs_ok a -> limbs_ok b -> length a = length b ->
  limbs_ok (base_uint_sub a b) /\ length (base_uint_sub a b) = length a /\
  uval (base_uint_sub a b) = (uval a - uval b) mod modulus a.
Proof.
  intros Ha Hb Hl. destruct (base_uint_neg_spec b Hb) as (N1 & N2 & N3).
  destruct (base_uint_add_spec a (base_uint_neg b) Ha N1 ltac:(lia)) as (H1 & H2 & H3).
  split_and!; [done..|]. unfold base_uint_sub. rewrite H3, N3, (modulus_length b a) by done.
  pose proof (modulus_pos a). rewrite Zplus_mod_idemp_r. f_equal.
Qed.

(** ** Multiplication *)

Lemma mul32_loop_spec c b32 a :
  limbs_ok a -> uint_range 32 b32 -> uint_range 32 c ->
  limbs_ok (mul32_loop c b32 a) /\ length (mul32_loop c b32 a) = length a /\
  uval (mul32_loop c b32 a) = (b32 * uval a + c) mod modulus a.
Proof.
  intros Ha Hb. revert c. induction Ha as [|p a Hp Ha IH]; intros c Hc.
  { split; [constructor|]. split; [done|]. unfold modulus. simpl. by rewrite Z.mod_1_r. }
  cbn [mul32_loop uval length]. unfold uint_range in Hp, Hb, Hc. set (n := u64 (c + b32 * p)).
  assert (0 <= b32 * p <= (2 ^ 32 - 1) * (2 ^ 32 - 1)) by nia.
  assert (n = c + b32 * p) as En by (unfold n; rewrite wrapu_small; [done|unfold uint_range; lia]).
  destruct (limb_split n) as (R1 & R2 & Es); [lia|]. destruct (IH _ R2) as (I1 & I2 & I3).
  split; [by apply limbs_ok_cons|]. split; [by rewrite I2|].
  rewrite I3, modulus_cons, mod_carry by (done || apply modulus_pos). f_equal. lia.
Qed.

Lemma mul_row_spec c aj pn b :
  limbs_ok pn -> limbs_ok b -> uint_range 32 aj -> uint_range 32 c -> (length pn <= length b)%nat ->
  limbs_ok (mul_row c aj pn b) /\ length (mul_row c aj pn b) = length pn /\
  uval (mul_row c aj pn b) = (uval pn + aj * uval b + c) mod modulus pn.
Proof.
  intros Hp Hb Ha. revert b c Hb. induction Hp as [|p pn Hp Hpn IH]; intros b c Hb Hc Hl.
  { split; [destruct b; constructor|]. split; [by destruct b|].
    unfold modulus. simpl. rewrite Z.mod_1_r. by destruct b. }
  destruct b as [|q b]; [simpl in Hl; lia|]. apply limbs_ok_cons in Hb as [Hq Hb].
  cbn [mul_row uval length] in *. unfold uint_range in Hp, Hq, Ha, Hc.
  set (n := u64 (c + p + aj * q)).
  assert (0 <= aj * q <= (2 ^ 32 - 1) * (2 ^ 32 - 1)) by nia.
  assert (n = c + p + aj * q) as En by (unfold n; rewrite wrapu_small; [done|unfold uint_range; lia]).
  destruct (limb_split n) as (R1 & R2 & Es); [lia|].
  destruct (IH b _ Hb R2 ltac:(lia)) as (I1 & I2 & I3).
  split; [by apply limbs_ok_cons|]. split; [by rewrite I2|].
  rewrite I3, modulus_cons, mod_carry by (done || apply modulus_pos). f_equal. lia.
Qed.

Lemma modulus_split j pn : (j <= length pn)%nat -> modulus (take j pn) * modulus (drop j pn) = modulus pn.
Proof.
  intros Hj. unfold modulus. rewrite length_take, length_drop, <- Z.pow_add_r by lia. f_equal. lia.
Qed.

Lemma mod_mul_scale t m M v : 0 < m -> 0 < M -> t + m * (v mod M) = t + m * v - m * M * (v / M).
Proof. intros. rewrite Z.mod_eq by lia. lia. Qed.

(** One row of the schoolbook product. *)
Lemma mul_update_spec j aj pn b :
  limbs_ok pn -> limbs_ok b -> uint_range 32 aj -> (length pn <= length b)%nat -> (j <= length pn)%nat ->
  let pn' := take j pn ++ mul_row 0 aj (drop j pn) b in
  limbs_ok pn' /\ length pn' = length pn /\
  uval pn' mod modulus pn = (uval pn + 2 ^ (32 * Z.of_nat j) * (aj * uval b)) mod modulus pn.
Proof.
  intros Hpn Hb Ha Hl Hj pn'.
  assert (limbs_ok (take j pn)) as Ht by (by apply Forall_take).
  assert (limbs_ok (drop j pn)) as Hd by (by apply Forall_drop).
  destruct (mul_row_spec 0 aj (drop j pn) b Hd Hb Ha ltac:(done) ltac:(rewrite length_drop; lia)) as (R1 & R2 & R3).
  unfold pn'. split; [by apply Forall_app|].
  split; [rewrite length_app, R2, length_take, length_drop; lia|].
  rewrite uval_app, R3. rewrite mod_mul_scale by apply modulus_pos. rewrite modulus_split by done.
  replace (2 ^ (32 * Z.of_nat j)) with (modulus (take j pn)) by
    (unfold modulus; rewrite length_take; f_equal; lia).
  assert (uval pn = uval (take j pn) + modulus (take j pn) * uval (drop j pn)) as ->
    by (by rewrite <- uval_app, take_drop).
  set (k := (_ + _ + 0) / _).
  replace (_ - modulus pn * k) with
    (uval (take j pn) + modulus (take j pn) * uval (drop j pn) + modulus (take j pn) * (aj * uval b)
     + (- k) * modulus pn) by lia.
  apply Z.mod_add. pose proof (modulus_pos pn). lia.
Qed.

Lemma mul_loop_spec a b pn j :
  limbs_ok a -> limbs_ok b -> limbs_ok pn -> (length pn <= length b)%nat ->
  (j + length a = length pn)%nat ->
  limbs_ok (mul_loop j a b pn) /\ length (mul_loop j a b pn) = length pn /\
  uval (mul_loop j a b pn) = (uval pn + 2 ^ (32 * Z.of_nat j) * (uval a * uval b)) mod modulus pn.
Proof.
  intros Ha Hb. revert pn j. induction Ha as [|aj a Haj Ha IH]; intros pn j Hpn Hl Hj; cbn [mul_loop uval].
  - split_and!; [done..|]. rewrite Z.mul_0_l, Z.mul_0_r, Z.add_0_r.
    symmetry. apply Z.mod_small, uval_range, Hpn.
  - cbn [length] in Hj.
    destruct (mul_update_spec j aj pn b Hpn Hb Haj Hl ltac:(lia)) as (U1 & U2 & U3).
    destruct (IH _ (S j) U1 ltac:(lia) ltac:(lia)) as (I1 & I2 & I3).
    split_and!; [done|lia|]. rewrite I3, (modulus_length _ pn U2).
    rewrite Z.add_mod, U3, <- Z.add_mod by (pose proof (modulus_pos pn); lia). f_equal.
    rewrite Nat2Z.inj_succ. replace (32 * Z.succ (Z.of_nat j)) with (32 * Z.of_nat j + 32) by lia.
    rewrite Z.pow_add_r by lia. lia.
Qed.

Lemma base_uint_mul_spec a b :
  limbs_ok a -> limbs_ok b -> length a = length b ->
  limbs_ok (base_uint_mul a b) /\ length (base_uint_mul a b) = length a /\
  uval (base_uint_mul a b) = (uval a * uval b) mod modulus a.
Proof.
  intros Ha Hb Hl.
  destruct (mul_loop_spec a b (replicate (length a) 0) 0 Ha Hb (limbs_ok_replicate _)) as (H1 & H2 & H3);
    rewrite ?length_replicate in *; [lia..|].
  split_and!; [done..|]. unfold base_uint_mul.
  rewrite H3, uval_replicate, (modulus_length _ a) by apply length_replicate. f_equal. lia.
Qed.

Lemma base_uint_mul32_spec a b :
  limbs_ok a -> uint_range 32 b ->
  limbs_ok (base_uint_mul32 a b) /\ length (base_uint_mul32 a b) = length a /\
  uval (base_uint_mul32 a b) = (uval a * b) mod modulus a.
Proof.
  intros Ha Hb. destruct (mul32_loop_spec 0 b a Ha Hb ltac:(done)) as (H1 & H2 & H3).
  split_and!; [done..|]. unfold base_uint_mul32. rewrite H3. f_equal. lia.
Qed.

(** ** Shifts *)

(** The shift by less than a limb, from the low limb up with the carried bits. *)
Fixpoint shl_limbs (s c : Z) (a : base_uint) : base_uint :=
  match a with
  | [] => []
  | x :: a => Z.lor (u32 (Z.shiftl x s)) c :: shl_limbs s (Z.shiftr x (32 - s)) a
  end.

Lemma shl_limb_split x s c :
  uint_range 32 x -> 0 <= s < 32 -> 0 <= c < 2 ^ s ->
  let lo := Z.lor (u32 (Z.shiftl x s)) c in
  uint_range 32 lo /\ 0 <= Z.shiftr x (32 - s) < 2 ^ s /\
  lo + 2 ^ 32 * Z.shiftr x (32 - s) = x * 2 ^ s + c.
Proof.
  intros Hx Hs Hc lo. unfold uint_range in *.
  assert (2 ^ 32 = 2 ^ s * 2 ^ (32 - s)) as E32 by (rewrite <- Z.pow_add_r by lia; f_equal; lia).
  assert (0 < 2 ^ s) by (apply Z.pow_pos_nonneg; lia).
  assert (0 < 2 ^ (32 - s)) by (apply Z.pow_pos_nonneg; lia).
  assert (u32 (Z.shiftl x s) = Z.shiftl (x mod 2 ^ (32 - s)) s) as Elo.
  { unfold wrapu. rewrite !Z.shiftl_mul_pow2 by lia. rewrite E32, (Z.mul_comm (2 ^ s)).
    apply Z.mul_mod_distr_r; lia. }
  pose proof (Z.mod_pos_bound x (2 ^ (32 - s)) ltac:(lia)).
  unfold lo. rewrite Elo, lor_shiftl_add, Z.shiftr_div_pow2 by lia.
  split; [nia|]. split; [|rewrite E32, (Z.mod_eq x) by lia; lia].
  split; [apply Z.div_pos; lia|]. apply Z.div_lt_upper_bound; lia.
Qed.

Lemma shl_limbs_spec s c a :
  limbs_ok a -> 0 <= s < 32 -> 0 <= c < 2 ^ s ->
  limbs_ok (shl_limbs s c a) /\ uval (shl_limbs s c a) = (uval a * 2 ^ s + c) mod modulus a.
Proof.
  intros Ha Hs. revert c. induction Ha as [|x a Hx Ha IH]; intros c Hc.
  { split; [constructor|]. unfold modulus. simpl. by rewrite Z.mod_1_r. }
  cbn [shl_limbs uval]. destruct (shl_limb_split x s c Hx Hs Hc) as (L1 & L2 & L3).
  destruct (IH _ L2) as [I1 I2]. split; [by apply limbs_ok_cons|].
  rewrite I2, modulus_cons, mod_carry by (done || apply modulus_pos). f_equal. lia.
Qed.

(** The limb [m] after a shift left, as the loop leaves it. *)
Definition shl_at (a : base_uint) (k : nat) (s : Z) (n m : nat) : Z :=
  Z.lor (if (k <=? m)%nat && (m - k <? n)%nat then u32 (Z.shiftl (nth (m - k) a 0) s) else 0)
        (if (k + 1 <=? m)%nat && (m - k - 1 <? n)%nat && negb (s =? 0)
         then Z.shiftr (nth (m - k - 1) a 0) (32 - s) else 0).

Definition shr_at (a : base_uint) (k : nat) (s : Z) (n m : nat) : Z :=
  Z.lor (if (m + k <? n)%nat then Z.shiftr (nth (m + k) a 0) s else 0)
        (if (m + k + 1 <? n)%nat && negb (s =? 0) then u32 (Z.shiftl (nth (m + k + 1) a 0) (32 - s)) else 0).

Lemma or_limb_map f W j v :
  or_limb j v (map f (seq 0 W)) = map (fun m => if (m =? j)%nat then Z.lor (f m) v else f m) (seq 0 W).
Proof.
  apply list_eq. intros i. unfold or_limb. destruct (decide (i = j)) as [->|Hne].
  - rewrite list_lookup_alter_eq, !list_lookup_fmap. destruct (seq 0 W !! j) as [x|] eqn:E; [|done].
    apply lookup_seq in E as [-> _]. simpl. by rewrite Nat.eqb_refl.
  - rewrite list_lookup_alter_ne, !list_lookup_fmap by done. destruct (seq 0 W !! i) as [x|] eqn:E; [|done].
    apply lookup_seq in E as [-> _]. simpl. by rewrite (proj2 (Nat.eqb_neq _ _)).
Qed.

(** Decide comparisons on [nat] that follow from the context. *)
Ltac nat_bools :=
  repeat match goal with
  | |- context [(?a <? ?b)%nat] =>
      first [rewrite (proj2 (Nat.ltb_lt a b)) by lia | rewrite (proj2 (Nat.ltb_ge a b)) by lia]
  | |- context [(?a <=? ?b)%nat] =>
      first [rewrite (proj2 (Nat.leb_le a b)) by lia | rewrite (proj2 (Nat.leb_gt a b)) by lia]
  | |- context [(?a =? ?b)%nat] =>
      first [rewrite (proj2 (Nat.eqb_eq a b)) by lia | rewrite (proj2 (Nat.eqb_neq a b)) by lia]
  end; cbn [andb].

(** Or-ing a value into limb [j] when the index is in range. *)
Lemma or_limb_if (c : bool) f W j v :
  (if c then or_limb j v (map f (seq 0 W)) else map f (seq 0 W)) =
  map (fun m => if c && (m =? j)%nat then Z.lor (f m) v else f m) (seq 0 W).
Proof. destruct c; [apply or_limb_map|done]. Qed.

Lemma shl_step_at a k s n :
  shl_step a k s (map (shl_at a k s n) (seq 0 (length a))) n = map (shl_at a k s (S n)) (seq 0 (length a)).
Proof.
  unfold shl_step. rewrite !or_limb_if. apply map_ext_in. intros m [_ Hm]%in_seq. unfold shl_at.
  destruct (decide (m = n + k)%nat) as [->|]; [|destruct (decide (m = n + k + 1)%nat) as [->|]].
  - destruct (Nat.leb_spec (k + 1) (n + k)); nat_bools; rewrite !andb_false_r; cbn [andb];
      replace (n + k - k)%nat with n by lia; by rewrite Z.lor_0_l, Z.lor_comm.
  - nat_bools. rewrite andb_true_r. replace (n + k + 1 - k - 1)%nat with n by lia.
    destruct (negb (s =? 0)); [|done]. by rewrite Z.lor_0_r.
  - rewrite (proj2 (Nat.eqb_neq m (n + k))), (proj2 (Nat.eqb_neq m (n + k + 1))), !andb_false_r by lia.
    assert (forall x, x <> n -> (x <? S n)%nat = (x <? n)%nat) as E.
    { intros x Hx. destruct (Nat.ltb_spec x n); nat_bools; done. }
    destruct (Nat.leb_spec k m); [rewrite E by lia|]; (destruct (Nat.leb_spec (k + 1) m); [rewrite E by lia|]);
      first [done|lia].
Qed.

Lemma shr_step_at a k s n :
  (n < length a)%nat ->
  shr_step a k s (map (shr_at a k s n) (seq 0 (length a))) n = map (shr_at a k s (S n)) (seq 0 (length a)).
Proof.
  intros Hn. unfold shr_step. rewrite !or_limb_if. apply map_ext_in. intros m [_ Hm]%in_seq. unfold shr_at.
  destruct (decide (m + k = n)%nat) as [<-|]; [|destruct (decide (m + k + 1 = n)%nat) as [<-|]].
  - destruct (Nat.leb_spec (k + 1) (m + k)); nat_bools; rewrite ?andb_false_r; cbn [andb];
      by rewrite !Z.lor_0_l, Z.lor_0_r.
  - nat_bools. rewrite ?andb_true_r. cbn [andb].
    destruct (negb (s =? 0)); [|done]. by rewrite Z.lor_0_r.
  - assert ((k <=? n)%nat && (m =? n - k)%nat = false) as ->.
    { destruct (Nat.leb_spec k n); [|done]. nat_bools. done. }
    assert ((k + 1 <=? n)%nat && negb (s =? 0) && (m =? n - k - 1)%nat = false) as ->.
    { destruct (Nat.leb_spec (k + 1) n); [|done]. nat_bools. by rewrite andb_false_r. }
    assert (forall x, x <> n -> (x <? S n)%nat = (x <? n)%nat) as E.
    { intros x Hx. destruct (Nat.ltb_spec x n); nat_bools; done. }
    by rewrite !E by lia.
Qed.

Lemma fold_seq_map {A} (step : list A -> nat -> list A) (at_ : nat -> nat -> A) W :
  (forall n, (n < W)%nat -> step (map (at_ n) (seq 0 W)) n = map (at_ (S n)) (seq 0 W)) ->
  fold_left step (seq 0 W) (map (at_ 0%nat) (seq 0 W)) = map (at_ W) (seq 0 W).
Proof.
  intros H. assert (forall n, (n <= W)%nat ->
    fold_left step (seq 0 n) (map (at_ 0%nat) (seq 0 W)) = map (at_ n) (seq 0 W)) as G; [|by apply G].
  induction n as [|n IH]; intros Hn; [done|].
  rewrite seq_S, fold_left_app, IH by lia. simpl. apply H. lia.
Qed.

Lemma replicate_map_seq W (f : nat -> Z) :
  (forall m, (m < W)%nat -> f m = 0) -> replicate W 0 = map f (seq 0 W).
Proof.
  intros H. apply list_eq. intros i. rewrite list_lookup_fmap.
  destruct (decide (i < W)%nat).
  - rewrite lookup_replicate_2, lookup_seq_lt by done. simpl. by rewrite H.
  - rewrite !lookup_ge_None_2; [done|rewrite length_seq; lia|rewrite length_replicate; lia].
Qed.

Lemma base_uint_shl_at a shift :
  base_uint_shl a shift =
  map (shl_at a (Z.to_nat (shift / 32)) (shift mod 32) (length a)) (seq 0 (length a)).
Proof.
  unfold base_uint_shl.
  rewrite (replicate_map_seq _ (shl_at a (Z.to_nat (shift / 32)) (shift mod 32) 0)).
  - apply (fold_seq_map _ (shl_at a (Z.to_nat (shift / 32)) (shift mod 32))). intros n _. apply shl_step_at.
  - intros m _. unfold shl_at. nat_bools. by rewrite !andb_false_r.
Qed.

Lemma base_uint_shr_at a shift :
  base_uint_shr a shift =
  map (shr_at a (Z.to_nat (shift / 32)) (shift mod 32) (length a)) (seq 0 (length a)).
Proof.
  unfold base_uint_shr.
  rewrite (replicate_map_seq _ (shr_at a (Z.to_nat (shift / 32)) (shift mod 32) 0)).
  - apply (fold_seq_map _ (shr_at a (Z.to_nat (shift / 32)) (shift mod 32))). intros n. apply shr_step_at.
  - intros m _. unfold shr_at. nat_bools. done.
Qed.

Lemma nth_replicate_0 n m : nth m (replicate n 0) 0 = 0.
Proof. revert m. induction n as [|n IH]; intros [|m]; simpl; auto. Qed.

Lemma length_shl_limbs s c a : length (shl_limbs s c a) = length a.
Proof. revert c. induction a as [|x a IH]; intros c; [done|]. simpl. by rewrite IH. Qed.

Lemma nth_shl_limbs s c a m :
  (m < length a)%nat ->
  nth m (shl_limbs s c a) 0 =
  Z.lor (u32 (Z.shiftl (nth m a 0) s)) (match m with O => c | S m => Z.shiftr (nth m a 0) (32 - s) end).
Proof.
  revert c m. induction a as [|x a IH]; intros c [|m] Hm; simpl in Hm; [lia..|done|].
  cbn [shl_limbs nth]. rewrite IH by lia. by destruct m.
Qed.

Lemma map_seq_nth (l : list Z) (f : nat -> Z) W :
  length l = W -> (forall m, (m < W)%nat -> f m = nth m l 0) -> map f (seq 0 W) = l.
Proof.
  intros <- H. apply list_eq. intros i. rewrite list_lookup_fmap.
  destruct (decide (i < length l)%nat) as [Hi|].
  - rewrite lookup_seq_lt by done. simpl. rewrite H by done. symmetry.
    destruct (lookup_lt_is_Some_2 l i Hi) as [x Hx]. by rewrite Hx, (nth_lookup_Some _ _ _ _ Hx).
  - rewrite !lookup_ge_None_2; [done|lia|rewrite length_seq; lia].
Qed.

Lemma shiftr_limb_0 x : uint_range 32 x -> Z.shiftr x 32 = 0.
Proof. unfold uint_range. intros. rewrite Z.shiftr_div_pow2 by lia. apply Z.div_small. lia. Qed.

Lemma nth_limbs_ok m a : limbs_ok a -> uint_range 32 (nth m a 0).
Proof.
  intros Ha. destruct (decide (m < length a)%nat).
  - eapply Forall_nth in Ha; eauto.
  - rewrite nth_overflow by lia. done.
Qed.

Lemma base_uint_shl_limbs a shift :
  limbs_ok a -> (Z.to_nat (shift / 32) <= length a)%nat ->
  base_uint_shl a shift =
  replicate (Z.to_nat (shift / 32)) 0 ++
  take (length a - Z.to_nat (shift / 32)) (shl_limbs (shift mod 32) 0 a).
Proof.
  intros Ha Hk. rewrite base_uint_shl_at. set (k := Z.to_nat _) in *. set (s := shift mod 32).
  apply map_seq_nth.
  { rewrite length_app, length_replicate, length_take, length_shl_limbs. lia. }
  intros m Hm. unfold shl_at. destruct (Nat.leb_spec k m); cbn [andb].
  - rewrite app_nth2, length_replicate by (rewrite length_replicate; lia).
    rewrite nth_firstn. nat_bools. rewrite nth_shl_limbs by lia. f_equal.
    destruct (m - k)%nat as [|m'] eqn:Em; [by nat_bools|]. nat_bools.
    replace (S m' - 1)%nat with m' by lia. destruct (Z.eqb_spec s 0) as [->|]; [|done].
    symmetry. apply shiftr_limb_0, nth_limbs_ok, Ha.
  - nat_bools. rewrite app_nth1 by (rewrite length_replicate; lia). by rewrite nth_replicate_0.
Qed.

Lemma uval_take j a : limbs_ok a -> uval (take j a) = uval a mod 2 ^ (32 * Z.of_nat j).
Proof.
  intros Ha. destruct (decide (j <= length a)%nat) as [Hj|Hj].
  - assert (limbs_ok (take j a)) as Ht by (by apply Forall_take).
    assert (modulus (take j a) = 2 ^ (32 * Z.of_nat j)) as E by
      (unfold modulus; rewrite length_take; f_equal; lia).
    assert (uval a = uval (take j a) + uval (drop j a) * modulus (take j a)) as ->
      by (rewrite Z.mul_comm, <- uval_app, take_drop; done).
    pose proof (uval_range _ Ht). pose proof (modulus_pos (take j a)).
    rewrite <- E, Z.mod_add by lia. by rewrite Z.mod_small.
  - rewrite take_ge by lia. symmetry. apply Z.mod_small. pose proof (uval_range a Ha).
    assert (modulus a <= 2 ^ (32 * Z.of_nat j)); [|lia].
    unfold modulus. apply Z.pow_le_mono_r; lia.
Qed.

Lemma uval_drop j a : limbs_ok a -> uval (drop j a) = uval a / 2 ^ (32 * Z.of_nat j).
Proof.
  intros Ha. pose proof (uval_take j a Ha) as Et.
  assert (0 < 2 ^ (32 * Z.of_nat j)) by (apply Z.pow_pos_nonneg; lia).
  destruct (decide (j <= length a)%nat) as [Hj|Hj].
  - assert (modulus (take j a) = 2 ^ (32 * Z.of_nat j)) as E by
      (unfold modulus; rewrite length_take; f_equal; lia).
    pose proof (uval_app (take j a) (drop j a)) as Ea. rewrite take_drop, Et, E in Ea.
    rewrite Z.mod_eq in Ea by lia. nia.
  - rewrite drop_ge by lia. symmetry. apply Z.div_small. rewrite take_ge in Et by lia.
    pose proof (Z.mod_pos_bound (uval a) (2 ^ (32 * Z.of_nat j)) ltac:(lia)). lia.
Qed.

Lemma shift_split shift : 0 <= shift ->
  2 ^ shift = 2 ^ (32 * Z.of_nat (Z.to_nat (shift / 32))) * 2 ^ (shift mod 32).
Proof.
  intros H. pose proof (Z.div_pos shift 32 H ltac:(lia)). pose proof (Z.mod_pos_bound shift 32 ltac:(lia)).
  pose proof (Z.div_mod shift 32 ltac:(lia)). rewrite Z2Nat.id, <- Z.pow_add_r by lia. f_equal. lia.
Qed.

Lemma mod_mod_divide v m n : 0 < m -> 0 < n -> (v mod (m * n)) mod n = v mod n.
Proof.
  intros. rewrite (Z.mod_eq v (m * n)) by lia.
  replace (v - m * n * (v / (m * n))) with (v + (- (m * (v / (m * n)))) * n) by lia.
  apply Z.mod_add. lia.
Qed.

Lemma base_uint_shl_big a shift :
  0 <= shift -> (length a < Z.to_nat (shift / 32))%nat -> base_uint_shl a shift = replicate (length a) 0.
Proof.
  intros Hs Hk. rewrite base_uint_shl_at. symmetry. apply replicate_map_seq.
  intros m Hm. unfold shl_at. nat_bools. done.
Qed.

Lemma base_uint_shl_spec a shift :
  limbs_ok a -> 0 <= shift ->
  limbs_ok (base_uint_shl a shift) /\ length (base_uint_shl a shift) = length a /\
  uval (base_uint_shl a shift) = (uval a * 2 ^ shift) mod modulus a.
Proof.
  intros Ha Hs. pose proof (Z.mod_pos_bound shift 32 ltac:(lia)) as Hm.
  pose proof (shift_split shift Hs) as Es. pose proof (modulus_pos a) as HM.
  split_and!; [|rewrite base_uint_shl_at; by rewrite length_map, length_seq|];
    (destruct (decide (Z.to_nat (shift / 32) <= length a)%nat) as [Hk|Hk];
     [rewrite base_uint_shl_limbs by done | rewrite base_uint_shl_big by lia]).
  - destruct (shl_limbs_spec (shift mod 32) 0 a Ha Hm) as [L _]; [split; [done|apply Z.pow_pos_nonneg; lia]|].
    apply Forall_app. split; [apply limbs_ok_replicate|by apply Forall_take].
  - apply limbs_ok_replicate.
  - destruct (shl_limbs_spec (shift mod 32) 0 a Ha Hm) as [L1 L2]; [split; [done|apply Z.pow_pos_nonneg; lia]|].
    rewrite uval_app, uval_replicate, uval_take, L2 by done. unfold modulus at 1. rewrite length_replicate.
    rewrite Es. set (k := Z.to_nat (shift / 32)) in *.
    assert (modulus a = 2 ^ (32 * Z.of_nat k) * 2 ^ (32 * Z.of_nat (length a - k))) as EM
      by (unfold modulus; rewrite <- Z.pow_add_r by lia; f_equal; lia).
    rewrite EM, mod_mod_divide, Z.add_0_r, Z.add_0_l by (apply Z.pow_pos_nonneg; lia).
    rewrite (Z.mul_assoc (uval a)), (Z.mul_comm (uval a) (2 ^ (32 * _))), <- (Z.mul_assoc _ (uval a)).
    by rewrite Z.mul_mod_distr_l by (apply Z.pow_nonzero; lia).
  - rewrite uval_replicate. symmetry. apply Z.mod_divide; [lia|]. pose proof (Z.div_mod shift 32 ltac:(lia)).
    exists (uval a * 2 ^ (shift - 32 * Z.of_nat (length a))). unfold modulus.
    rewrite <- Z.mul_assoc, <- Z.pow_add_r by lia. do 2 f_equal. lia.
Qed.

Fixpoint shr_limbs (s : Z) (a : base_uint) : base_uint :=
  match a with
  | [] => []
  | x :: a => Z.lor (Z.shiftr x s) (u32 (Z.shiftl (nth 0 a 0) (32 - s))) :: shr_limbs s a
  end.

Lemma length_shr_limbs s a : length (shr_limbs s a) = length a.
Proof. induction a as [|x a IH]; [done|]. simpl. by rewrite IH. Qed.

Lemma nth_shr_limbs s a m :
  (m < length a)%nat ->
  nth m (shr_limbs s a) 0 = Z.lor (Z.shiftr (nth m a 0) s) (u32 (Z.shiftl (nth (S m) a 0) (32 - s))).
Proof.
  revert m. induction a as [|x a IH]; intros [|m] Hm; simpl in Hm; [lia..|done|].
  cbn [shr_limbs]. cbn [nth]. rewrite IH by lia. done.
Qed.

Lemma uval_hd a s : limbs_ok a -> 0 <= s <= 32 -> nth 0 a 0 mod 2 ^ s = uval a mod 2 ^ s.
Proof.
  intros Ha Hs. destruct a as [|x a]; [done|]. cbn [nth uval].
  replace (2 ^ 32) with (2 ^ (32 - s) * 2 ^ s) by (rewrite <- Z.pow_add_r by lia; f_equal; lia).
  rewrite (Z.mul_comm (2 ^ (32 - s))), <- Z.mul_assoc, (Z.mul_comm (2 ^ s)), Z.mod_add; [done|].
  apply Z.pow_nonzero; lia.
Qed.

(** The limb left by a shift right takes its high bits from the limb above. *)
Lemma shr_limb_eq x y s :
  uint_range 32 x -> 0 <= s < 32 ->
  Z.lor (Z.shiftr x s) (u32 (Z.shiftl y (32 - s))) = x / 2 ^ s + (y mod 2 ^ s) * 2 ^ (32 - s).
Proof.
  unfold uint_range. intros Hx Hs.
  assert (2 ^ 32 = 2 ^ s * 2 ^ (32 - s)) as E32 by (rewrite <- Z.pow_add_r by lia; f_equal; lia).
  assert (0 < 2 ^ s) by (apply Z.pow_pos_nonneg; lia).
  assert (0 < 2 ^ (32 - s)) by (apply Z.pow_pos_nonneg; lia).
  assert (u32 (Z.shiftl y (32 - s)) = Z.shiftl (y mod 2 ^ s) (32 - s)) as ->.
  { unfold wrapu. rewrite !Z.shiftl_mul_pow2 by lia. rewrite E32. apply Z.mul_mod_distr_r; lia. }
  rewrite Z.lor_comm, lor_shiftl_add, Z.shiftr_div_pow2; [lia..|].
  rewrite Z.shiftr_div_pow2 by lia. split; [apply Z.div_pos; lia|]. apply Z.div_lt_upper_bound; lia.
Qed.

Lemma shr_limbs_spec s a :
  limbs_ok a -> 0 <= s < 32 ->
  limbs_ok (shr_limbs s a) /\ uval (shr_limbs s a) = uval a / 2 ^ s.
Proof.
  intros Ha Hs. induction Ha as [|x a Hx Ha [IH1 IH2]].
  { split; [constructor|]. symmetry. apply Z.div_0_l. apply Z.pow_nonzero; lia. }
  cbn [shr_limbs uval]. rewrite shr_limb_eq, IH2, uval_hd by (done || lia). unfold uint_range in Hx.
  assert (2 ^ 32 = 2 ^ (32 - s) * 2 ^ s) as E32 by (rewrite <- Z.pow_add_r by lia; f_equal; lia).
  assert (0 < 2 ^ s) by (apply Z.pow_pos_nonneg; lia).
  assert (0 < 2 ^ (32 - s)) by (apply Z.pow_pos_nonneg; lia).
  pose proof (Z.mod_pos_bound (uval a) (2 ^ s) ltac:(lia)).
  assert (0 <= x / 2 ^ s) by (apply Z.div_pos; lia).
  assert (x / 2 ^ s < 2 ^ (32 - s)) by (apply Z.div_lt_upper_bound; lia).
  split.
  - apply limbs_ok_cons. split; [unfold uint_range; nia|done].
  - rewrite E32. replace (x + 2 ^ (32 - s) * 2 ^ s * uval a) with (x + (2 ^ (32 - s) * uval a) * 2 ^ s) by lia.
    rewrite Z.div_add by lia. rewrite (Z.mod_eq (uval a)) by lia. lia.
Qed.

Lemma base_uint_shr_limbs a shift :
  limbs_ok a ->
  base_uint_shr a shift =
  shr_limbs (shift mod 32) (drop (Z.to_nat (shift / 32)) a) ++
  replicate (Nat.min (Z.to_nat (shift / 32)) (length a)) 0.
Proof.
  intros Ha. rewrite base_uint_shr_at. set (k := Z.to_nat _) in *. set (s := shift mod 32).
  apply map_seq_nth; [rewrite length_app, length_replicate, length_shr_limbs, length_drop; lia|].
  intros m Hm. unfold shr_at. destruct (Nat.ltb_spec (m + k) (length a)).
  - rewrite app_nth1, nth_shr_limbs by (rewrite ?length_shr_limbs, length_drop; lia).
    rewrite !nth_skipn. replace (k + S m)%nat with (m + k + 1)%nat by lia. rewrite (Nat.add_comm k m).
    f_equal. destruct (Nat.ltb_spec (m + k + 1) (length a)); cbn [andb].
    + destruct (Z.eqb_spec s 0) as [->|]; [|done]. unfold wrapu.
      rewrite Z.shiftl_mul_pow2, Z.sub_0_r, Z.mod_mul by lia. done.
    + rewrite nth_overflow by lia. by rewrite Z.shiftl_0_l.
  - nat_bools. rewrite app_nth2 by (rewrite length_shr_limbs, length_drop; lia). by rewrite nth_replicate_0.
Qed.

Lemma base_uint_shr_spec a shift :
  limbs_ok a -> 0 <= shift ->
  limbs_ok (base_uint_shr a shift) /\ length (base_uint_shr a shift) = length a /\
  uval (base_uint_shr a shift) = uval a / 2 ^ shift.
Proof.
  intros Ha Hs. pose proof (Z.mod_pos_bound shift 32 ltac:(lia)) as Hm.
  assert (limbs_ok (drop (Z.to_nat (shift / 32)) a)) as Hd by (by apply Forall_drop).
  destruct (shr_limbs_spec (shift mod 32) _ Hd Hm) as [L1 L2].
  split_and!.
  - rewrite base_uint_shr_limbs by done. apply Forall_app. split; [done|apply limbs_ok_replicate].
  - rewrite base_uint_shr_at. by rewrite length_map, length_seq.
  - rewrite base_uint_shr_limbs, uval_app, uval_replicate, Z.mul_0_r, Z.add_0_r, L2, uval_drop by done.
    rewrite (shift_split shift Hs). apply Z.div_div; [apply Z.pow_nonzero; lia|apply Z.pow_pos_nonneg; lia].
Qed.

(** ** Comparison and bit length *)

Definition compare_sign (x y : Z) : Z :=
  match x ?= y with Lt => -1 | Eq => 0 | Gt => 1 end.

Lemma uval_take_S i a :
  (i < length a)%nat -> uval (take (S i) a) = uval (take i a) + 2 ^ (32 * Z.of_nat i) * nth i a 0.
Proof.
  intros Hi. destruct (lookup_lt_is_Some_2 a i Hi) as [x Hx].
  rewrite (take_S_r _ _ _ Hx), uval_app, (nth_lookup_Some _ _ _ _ Hx). cbn [uval].
  unfold modulus. rewrite length_take, Nat.min_l by lia. lia.
Qed.

Lemma uval_take_range i a :
  limbs_ok a -> (i <= length a)%nat -> 0 <= uval (take i a) < 2 ^ (32 * Z.of_nat i).
Proof.
  intros Ha Hi. pose proof (uval_range (take i a) ltac:(by apply Forall_take)) as H.
  unfold modulus in H. by rewrite length_take, Nat.min_l in H by lia.
Qed.

Lemma CompareTo_loop_spec i a b :
  limbs_ok a -> limbs_ok b -> (i <= length a)%nat -> (i <= length b)%nat ->
  CompareTo_loop i a b = compare_sign (uval (take i a)) (uval (take i b)).
Proof.
  intros Ha Hb. induction i as [|i IH]; intros Hi Hj; [done|].
  cbn [CompareTo_loop]. rewrite !uval_take_S by lia.
  pose proof (uval_take_range i a Ha ltac:(lia)). pose proof (uval_take_range i b Hb ltac:(lia)).
  set (M := 2 ^ (32 * Z.of_nat i)) in *.
  destruct (Z.ltb_spec (nth i a 0) (nth i b 0)) as [Hlt|Hge].
  - unfold compare_sign. rewrite (proj2 (Z.compare_lt_iff _ _)); [done|nia].
  - destruct (Z.gtb_spec (nth i a 0) (nth i b 0)) as [Hgt|Hle].
    + unfold compare_sign. rewrite (proj2 (Z.compare_gt_iff _ _)); [done|nia].
    + replace (nth i a 0) with (nth i b 0) by lia. rewrite IH by lia. unfold compare_sign.
      by rewrite !(Z.add_comm (uval _)), Z.add_compare_mono_l.
Qed.

Lemma CompareTo_spec a b :
  limbs_ok a -> limbs_ok b -> length a = length b -> CompareTo a b = compare_sign (uval a) (uval b).
Proof.
  intros Ha Hb Hl. unfold CompareTo. rewrite CompareTo_loop_spec by (done || lia).
  by rewrite !take_ge by lia.
Qed.

Lemma compare_sign_ge x y : (compare_sign x y >=? 0) = (y <=? x).
Proof. unfold compare_sign. destruct (Z.compare_spec x y); destruct (Z.leb_spec y x); try lia; done. Qed.

Lemma compare_sign_gt x y : (compare_sign x y >? 0) = (y <? x).
Proof. unfold compare_sign. destruct (Z.compare_spec x y); destruct (Z.ltb_spec y x); try lia; done. Qed.

(** The number of significant bits. *)
Definition bit_length (v : Z) : Z := if v =? 0 then 0 else Z.log2 v + 1.

Lemma bit_length_bounds v : 0 < v -> 2 ^ (bit_length v - 1) <= v < 2 ^ bit_length v /\ 0 < bit_length v.
Proof.
  intros Hv. unfold bit_length. rewrite (proj2 (Z.eqb_neq _ _)) by lia.
  replace (Z.log2 v + 1 - 1) with (Z.log2 v) by lia. pose proof (Z.log2_spec v Hv).
  pose proof (Z.log2_nonneg v). rewrite <- Z.add_1_r in *. lia.
Qed.

Lemma land_pow2 k p : 0 <= k -> 0 <= p < 2 ^ (k + 1) -> (Z.land p (2 ^ k) =? 0) = (p <? 2 ^ k).
Proof.
  intros Hk Hp. assert (0 < 2 ^ k) by (apply Z.pow_pos_nonneg; lia). rewrite Z.pow_add_r in Hp by lia.
  destruct (Z.ltb_spec p (2 ^ k)) as [Hlt|Hge].
  - apply Z.eqb_eq, Z.bits_inj'. intros i Hi. rewrite Z.land_spec, Z.pow2_bits_eqb, Z.bits_0 by lia.
    destruct (Z.eqb_spec k i) as [<-|]; [|apply andb_false_r].
    rewrite andb_true_r, <- (Z.mod_small p (2 ^ k)) by lia. by apply Z.mod_pow2_bits_high.
  - apply Z.eqb_neq. intros E. apply (f_equal (fun z => Z.testbit z k)) in E.
    assert (Z.log2 p = k) as El by (apply Z.log2_unique; rewrite ?Z.pow_succ_r; lia).
    rewrite Z.land_spec, Z.pow2_bits_true, Z.bits_0, andb_true_r in E by lia.
    rewrite <- El, Z.bit_log2 in E by lia. done.
Qed.

Lemma limb_bits_spec n p :
  0 < p < 2 ^ (Z.of_nat n + 1) -> limb_bits n p = Z.log2 p + 1.
Proof.
  induction n as [|n IH]; intros Hp.
  - replace p with 1 by (simpl in Hp; lia). done.
  - cbn [limb_bits]. set (k := Z.of_nat (S n)) in *. rewrite Z.shiftl_1_l, land_pow2 by lia.
    assert (0 < 2 ^ k) by (apply Z.pow_pos_nonneg; lia). rewrite Z.pow_add_r in Hp by lia.
    destruct (Z.ltb_spec p (2 ^ k)) as [Hlt|Hge]; cbn [negb].
    + apply IH. replace (Z.of_nat n + 1) with k by lia. lia.
    + assert (Z.log2 p = k) as El by (apply Z.log2_unique; rewrite ?Z.pow_succ_r; lia). lia.
Qed.

Lemma bits_loop_spec i a :
  limbs_ok a -> (i <= length a)%nat -> bits_loop i a = bit_length (uval (take i a)).
Proof.
  intros Ha. induction i as [|i IH]; intros Hi; [done|]. cbn [bits_loop]. rewrite uval_take_S by lia.
  pose proof (uval_take_range i a Ha ltac:(lia)) as Ht. pose proof (nth_limbs_ok i a Ha) as Hp.
  unfold uint_range in Hp. destruct (Z.eqb_spec (nth i a 0) 0) as [E|E]; cbn [negb].
  - rewrite E, Z.mul_0_r, Z.add_0_r. apply IH. lia.
  - rewrite limb_bits_spec by (simpl; lia). unfold bit_length.
    set (M := 2 ^ (32 * Z.of_nat i)) in *. rewrite (proj2 (Z.eqb_neq _ _)) by nia.
    pose proof (Z.log2_spec (nth i a 0) ltac:(lia)) as Hl. pose proof (Z.log2_nonneg (nth i a 0)).
    assert (Z.log2 (uval (take i a) + M * nth i a 0) = 32 * Z.of_nat i + Z.log2 (nth i a 0)) as ->; [|lia].
    apply Z.log2_unique; [lia|]. rewrite <- Z.add_1_r, <- Z.add_assoc, !Z.pow_add_r by lia. fold M.
    rewrite <- Z.add_1_r, Z.pow_add_r in Hl by lia. nia.
Qed.

Lemma base_uint_bits_spec a : limbs_ok a -> base_uint_bits a = bit_length (uval a).
Proof.
  intros Ha. unfold base_uint_bits. rewrite bits_loop_spec by (done || lia). by rewrite take_ge by lia.
Qed.

(** ** Division *)

Lemma nth_uval i a :
  limbs_ok a -> nth i a 0 = (uval a / 2 ^ (32 * Z.of_nat i)) mod 2 ^ 32.
Proof.
  intros Ha. rewrite <- uval_drop by done. pose proof (nth_limbs_ok i a Ha) as Hp. unfold uint_range in Hp.
  destruct (decide (i < length a)%nat) as [Hi|Hi].
  - destruct (lookup_lt_is_Some_2 a i Hi) as [x Hx].
    rewrite (drop_S _ _ _ Hx), (nth_lookup_Some _ _ _ _ Hx) in *. cbn [uval].
    rewrite (Z.mul_comm (2 ^ 32)), Z.mod_add, Z.mod_small by lia. done.
  - rewrite drop_ge, nth_overflow by lia. done.
Qed.

Lemma testbit_multiple v n i : 0 <= i < n -> v mod 2 ^ n = 0 -> Z.testbit v i = false.
Proof.
  intros Hi E. rewrite <- (Z.mod_pow2_bits_low v n i) by lia. by rewrite E, Z.bits_0.
Qed.

Lemma uval_or_limb i v a :
  limbs_ok a -> (i < length a)%nat -> uint_range 32 v -> Z.land (nth i a 0) v = 0 ->
  limbs_ok (or_limb i v a) /\ uval (or_limb i v a) = uval a + v * 2 ^ (32 * Z.of_nat i).
Proof.
  intros Ha Hi Hv Hd. destruct (lookup_lt_is_Some_2 a i Hi) as [x Hx].
  rewrite (nth_lookup_Some _ _ _ _ Hx) in Hd.
  pose proof (Z.add_lor_land x v) as Hs. rewrite Hd, Z.add_0_r in Hs.
  pose proof Ha as Ha'. unfold limbs_ok in Ha'. rewrite Forall_lookup in Ha'. pose proof (Ha' _ _ Hx) as Hxr.
  unfold uint_range in *.
  assert (0 <= Z.lor x v < 2 ^ 32) as Hor.
  { rewrite <- (Z.mod_small x (2 ^ 32)), <- (Z.mod_small v (2 ^ 32)), <- !Z.land_ones, <- Z.land_lor_distr_l,
      Z.land_ones by lia. apply Z.mod_pos_bound. lia. }
  assert (or_limb i v a = take i a ++ Z.lor x v :: drop (S i) a) as ->.
  { unfold or_limb. rewrite <- (take_drop_middle a i x Hx) at 1.
    rewrite alter_app_r_alt by (rewrite length_take; lia).
    rewrite length_take, Nat.min_l by lia. rewrite Nat.sub_diag. done. }
  split.
  - apply Forall_app. split; [by apply Forall_take|]. apply limbs_ok_cons. split; [done|by apply Forall_drop].
  - rewrite <- (take_drop_middle a i x Hx) at 3. rewrite !uval_app. cbn [uval].
    unfold modulus. rewrite length_take, Nat.min_l by lia. rewrite Hs. lia.
Qed.

(** Setting bit [n] of a number with its bits up to [n] clear adds [2^n]. *)
Lemma uval_set_bit n a :
  limbs_ok a -> (n < 32 * length a)%nat -> uval a mod 2 ^ (Z.of_nat n + 1) = 0 ->
  let a' := or_limb (n / 32) (u32 (Z.shiftl 1 (Z.land (Z.of_nat n) 31))) a in
  limbs_ok a' /\ uval a' = uval a + 2 ^ Z.of_nat n.
Proof.
  intros Ha Hn E a'. set (m := Z.of_nat n mod 32).
  assert (0 <= m < 32) as Hm by (apply Z.mod_pos_bound; lia).
  assert (Z.of_nat n = 32 * Z.of_nat (n / 32) + m) as En by (unfold m; rewrite Nat2Z.inj_div; div_lia).
  assert (u32 (Z.shiftl 1 (Z.land (Z.of_nat n) 31)) = 2 ^ m) as Ev.
  { change 31 with (Z.ones 5). rewrite Z.land_ones, Z.shiftl_1_l by lia. change (2 ^ 5) with 32. fold m.
    apply wrapu_small. unfold uint_range. split; [apply Z.pow_nonneg; lia|apply Z.pow_lt_mono_r; lia]. }
  unfold a'. rewrite Ev.
  destruct (uval_or_limb (n / 32) (2 ^ m) a Ha) as [O1 O2].
  - apply Nat.Div0.div_lt_upper_bound. lia.
  - unfold uint_range. split; [apply Z.pow_nonneg; lia|apply Z.pow_lt_mono_r; lia].
  - apply Z.bits_inj'. intros i Hi. rewrite Z.land_spec, Z.pow2_bits_eqb, Z.bits_0 by lia.
    destruct (Z.eqb_spec m i) as [<-|]; [|apply andb_false_r]. rewrite andb_true_r.
    rewrite nth_uval, Z.mod_pow2_bits_low, Z.div_pow2_bits by (done || lia).
    apply (testbit_multiple _ (Z.of_nat n + 1)); [lia|done].
  - split; [done|]. rewrite O2, En at 1. rewrite <- Z.pow_add_r by lia. do 2 f_equal. lia.
Qed.

(** One bit of the quotient: the invariant of the loop. *)
Lemma div_loop_spec n pn num div B :
  limbs_ok pn -> limbs_ok num -> limbs_ok div -> length num = length div -> (n <= 32 * length pn)%nat ->
  0 < B -> (n <> O -> uval div = B * 2 ^ (Z.of_nat n - 1)) -> uval num < B * 2 ^ Z.of_nat n ->
  uval pn mod 2 ^ Z.of_nat n = 0 ->
  let r := div_loop n pn num div in
  limbs_ok r.1 /\ length r.1 = length pn /\
  uval r.1 = uval pn + uval num / B /\ uval r.2 = uval num mod B.
Proof.
  revert pn num div. induction n as [|shift IH]; intros pn num div Hpn Hnum Hdiv Hl Hn HB Ediv Hlt Epn.
  { simpl. pose proof (uval_range num Hnum). rewrite Z.div_small, Z.mod_small by lia.
    split_and!; try done; lia. }
  cbn [div_loop]. specialize (Ediv ltac:(lia)). rewrite Nat2Z.inj_succ, <- Z.add_1_r in *.
  replace (Z.of_nat shift + 1 - 1) with (Z.of_nat shift) in Ediv by lia.
  rewrite CompareTo_spec, compare_sign_ge by done. rewrite Z.pow_add_r, Z.pow_1_r in Hlt, Epn by lia.
  assert (0 < 2 ^ Z.of_nat shift) as Hp by (apply Z.pow_pos_nonneg; lia).
  destruct (base_uint_shr_spec div 1 Hdiv ltac:(lia)) as (R1 & R2 & R3).
  assert (uval pn mod 2 ^ Z.of_nat shift = 0) as Epn'.
  { rewrite <- (mod_mod_divide (uval pn) 2 (2 ^ Z.of_nat shift)), (Z.mul_comm 2), Epn by lia. by apply Z.mod_0_l; lia. }
  assert (shift <> O -> uval (base_uint_shr div 1) = B * 2 ^ (Z.of_nat shift - 1)) as Ediv'.
  { intros Hs. rewrite R3, Ediv. replace (Z.of_nat shift) with (Z.of_nat shift - 1 + 1) at 1 by lia.
    rewrite Z.pow_add_r, Z.mul_assoc, Z.div_mul by lia. done. }
  pose proof (uval_range num Hnum) as Hr.
  destruct (Z.leb_spec (uval div) (uval num)) as [Hle|Hgt].
  - destruct (base_uint_sub_spec num div Hnum Hdiv Hl) as (S1 & S2 & S3).
    assert (uval (base_uint_sub num div) = uval num - uval div) as S4.
    { rewrite S3. apply Z.mod_small. pose proof (uval_range div Hdiv). lia. }
    destruct (uval_set_bit shift pn Hpn) as [B1 B2]; [lia|by rewrite Z.pow_add_r, Z.pow_1_r by lia|].
    destruct (IH _ _ (base_uint_shr div 1) B1 S1 R1) as (I1 & I2 & I3 & I4); try done.
    + by rewrite S2, R2.
    + unfold or_limb. rewrite length_alter. lia.
    + rewrite S4, Ediv. lia.
    + rewrite B2, Z.add_mod, Epn', Z.mod_same by lia. by apply Z.mod_0_l; lia.
    + split_and!; [done|rewrite I2; apply length_alter| |].
      * rewrite I3, B2, S4, Ediv.
        replace (uval num - B * 2 ^ Z.of_nat shift) with (uval num + (- 2 ^ Z.of_nat shift) * B) by lia.
        rewrite Z.div_add by lia. lia.
      * rewrite I4, S4, Ediv.
        replace (uval num - B * 2 ^ Z.of_nat shift) with (uval num + (- 2 ^ Z.of_nat shift) * B) by lia.
        apply Z.mod_add. lia.
  - apply IH; try done; lia.
Qed.

Lemma uval_nonneg a : limbs_ok a -> 0 <= uval a.
Proof. intros Ha. by apply uval_range. Qed.

Lemma bit_length_pos v : 0 <= v -> bit_length v = 0 <-> v = 0.
Proof.
  intros Hv. unfold bit_length. destruct (Z.eqb_spec v 0); [done|].
  pose proof (Z.log2_nonneg v). lia.
Qed.

Lemma bit_length_le v n : 0 <= n -> 0 <= v < 2 ^ n -> bit_length v <= n.
Proof.
  intros Hn Hv. destruct (Z.eq_dec v 0) as [->|]; [done|].
  unfold bit_length. rewrite (proj2 (Z.eqb_neq _ _)) by lia.
  pose proof (proj1 (Z.log2_lt_pow2 v n ltac:(lia)) ltac:(lia)). lia.
Qed.

Lemma base_uint_div_spec a b :
  limbs_ok a -> limbs_ok b -> length a = length b ->
  if uval b =? 0 then base_uint_div a b = None
  else exists q, base_uint_div a b = Some q /\ limbs_ok q /\ length q = length a /\ uval q = uval a / uval b.
Proof.
  intros Ha Hb Hl. unfold base_uint_div. rewrite !base_uint_bits_spec by done.
  pose proof (uval_range a Ha) as Ra. pose proof (uval_range b Hb) as Rb.
  destruct (Z.eqb_spec (uval b) 0) as [E|E]; [by rewrite E|].
  destruct (bit_length_bounds (uval b) ltac:(lia)) as [Bb Pb]. rewrite (proj2 (Z.eqb_neq _ _)) by lia.
  destruct (Z.gtb_spec (bit_length (uval b)) (bit_length (uval a))) as [Hgt|Hle].
  - eexists. split; [done|]. split_and!; [apply limbs_ok_replicate|apply length_replicate|].
    rewrite uval_replicate. symmetry. apply Z.div_small. split; [lia|].
    destruct (Z.eq_dec (uval a) 0); [lia|].
    destruct (bit_length_bounds (uval a) ltac:(lia)) as [Ba Pa].
    apply Z.lt_le_trans with (2 ^ bit_length (uval a)); [lia|].
    apply Z.le_trans with (2 ^ (bit_length (uval b) - 1)); [apply Z.pow_le_mono_r; lia|lia].
  - destruct (Z.eq_dec (uval a) 0) as [E0|]; [unfold bit_length at 2 in Hle; rewrite E0 in Hle; simpl in Hle; lia|].
    destruct (bit_length_bounds (uval a) ltac:(lia)) as [Ba Pa].
    set (shift := bit_length (uval a) - bit_length (uval b)) in *.
    pose proof (bit_length_le (uval a) (32 * Z.of_nat (length a)) ltac:(lia) Ra) as La.
    destruct (base_uint_shl_spec b shift Hb ltac:(lia)) as (S1 & S2 & S3).
    assert (uval b * 2 ^ shift < modulus b) as Hfit.
    { apply Z.lt_le_trans with (2 ^ bit_length (uval b) * 2 ^ shift).
      - apply Z.mul_lt_mono_pos_r; [apply Z.pow_pos_nonneg; lia|lia].
      - rewrite <- Z.pow_add_r by lia. unfold modulus. apply Z.pow_le_mono_r; lia. }
    rewrite Z.mod_small in S3 by (split; [apply Z.mul_nonneg_nonneg; [lia|apply Z.pow_nonneg; lia]|done]).
    destruct (div_loop_spec (Z.to_nat (shift + 1)) (replicate (length a) 0) a (base_uint_shl b shift) (uval b))
      as (D1 & D2 & D3 & _); try done.
    + apply limbs_ok_replicate.
    + lia.
    + rewrite length_replicate. lia.
    + lia.
    + intros _. rewrite S3. do 2 f_equal. lia.
    + rewrite Z2Nat.id by lia. apply Z.lt_le_trans with (2 ^ bit_length (uval a)); [lia|].
      replace (bit_length (uval a)) with (bit_length (uval b) - 1 + (shift + 1)) by lia.
      rewrite Z.pow_add_r by lia. apply Z.mul_le_mono_nonneg_r; [apply Z.pow_nonneg; lia|lia].
    + rewrite uval_replicate. apply Z.mod_0_l, Z.pow_nonzero; lia.
    + eexists. split; [done|]. rewrite D2, length_replicate, D3, uval_replicate. done.
Qed.

(** ** Construction from and projection to 64 bits *)

Lemma uval_of_u64 b :
  uint_range 64 b -> limbs_ok (base_uint_of_u64 b) /\ uval (base_uint_of_u64 b) = b.
Proof.
  intros Hb. unfold uint_range in Hb. unfold base_uint_of_u64, wrapu. rewrite Z.shiftr_div_pow2 by lia.
  rewrite (Z.mod_small (b / 2 ^ 32)) by div_lia. split.
  - repeat constructor; unfold uint_range; try lia; div_lia.
  - cbn [uval replicate WIDTH Nat.sub]. pose proof (Z.div_mod b (2 ^ 32) ltac:(lia)). lia.
Qed.

Lemma GetLow64_spec a : limbs_ok a -> GetLow64 a = uval a mod 2 ^ 64.
Proof.
  intros Ha. unfold GetLow64. pose proof (nth_limbs_ok 0 a Ha) as H0. pose proof (nth_limbs_ok 1 a Ha) as H1.
  unfold uint_range in *. rewrite wrapu_small, Z.lor_comm, lor_shiftl_add by
    (unfold uint_range; rewrite ?Z.shiftl_mul_pow2 by lia; lia).
  rewrite !nth_uval by done. simpl (32 * Z.of_nat 0). change (32 * Z.of_nat 1) with 32.
  rewrite Z.pow_0_r, Z.div_1_r. change (2 ^ 64) with (2 ^ 32 * 2 ^ 32).
  rewrite Z.rem_mul_r by lia. lia.
Qed.

Lemma EqualTo_spec a b :
  limbs_ok a -> uint_range 64 b -> EqualTo a b = (uval a =? b).
Proof.
  intros Ha Hb. unfold EqualTo. unfold uint_range in Hb.
  change 0xffffffff with (Z.ones 32). rewrite Z.land_ones, Z.shiftr_div_pow2 by lia.
  pose proof (nth_limbs_ok 0 a Ha) as H0. pose proof (nth_limbs_ok 1 a Ha) as H1.
  assert (uval a = nth 0 a 0 + 2 ^ 32 * (nth 1 a 0 + 2 ^ 32 * uval (drop 2 a))) as ->
    by (destruct a as [|? [|? ?]]; cbn [nth uval skipn]; rewrite ?drop_0; lia).
  assert (forallb (fun p => p =? 0) (drop 2 a) = (uval (drop 2 a) =? 0)) as ->.
  { assert (limbs_ok (drop 2 a)) as Hd by (by apply Forall_drop). induction Hd as [|p l Hp Hl IH]; [done|].
    cbn [forallb uval]. rewrite IH. pose proof (uval_range l Hl). unfold uint_range in Hp.
    destruct (Z.eqb_spec p 0), (Z.eqb_spec (uval l) 0), (Z.eqb_spec (p + 2 ^ 32 * uval l) 0); try done; lia. }
  assert (0 <= uval (drop 2 a)) by (apply uval_nonneg; by apply Forall_drop).
  pose proof (Z.div_mod b (2 ^ 32) ltac:(lia)). pose proof (Z.mod_pos_bound b (2 ^ 32) ltac:(lia)).
  unfold uint_range in *.
  destruct (Z.eqb_spec (uval (drop 2 a)) 0), (Z.eqb_spec (nth 1 a 0) (b / 2 ^ 32)),
    (Z.eqb_spec (nth 0 a 0) (b mod 2 ^ 32)), (Z.eqb_spec (nth 0 a 0 + 2 ^ 32 * (nth 1 a 0 + 2 ^ 32 * uval (drop 2 a))) b); try done; nia.
Qed.

(** ** The compact encoding on values *)

(** The size and mantissa [GetCompact] computes, as integers: the mantissa is the
    value scaled to three bytes, one fewer when its top bit would be the sign. *)
Definition compact_size0 (v : Z) : Z := (bit_length v + 7) / 8.
Definition compact_mant0 (v : Z) : Z := v * 256 ^ 3 / 256 ^ compact_size0 v.
Definition compact_size (v : Z) : Z :=
  if compact_mant0 v <? 2 ^ 23 then compact_size0 v else compact_size0 v + 1.
Definition compact_mant (v : Z) : Z := v * 256 ^ 3 / 256 ^ compact_size v.
Definition compact_enc (v : Z) : Z := compact_size v * 2 ^ 24 + compact_mant v.

(** The value of a mantissa and a size. *)
Definition compact_dec (m size : Z) : Z := m * 256 ^ size / 256 ^ 3.

Lemma pow256 k : 0 <= k -> 256 ^ k = 2 ^ (8 * k).
Proof. intros. change 256 with (2 ^ 8). by rewrite <- Z.pow_mul_r by lia. Qed.

Lemma pow256_pos k : 0 <= k -> 0 < 256 ^ k.
Proof. intros. apply Z.pow_pos_nonneg; lia. Qed.

Lemma compact_size0_bounds v :
  0 < v -> 1 <= compact_size0 v /\ 256 ^ (compact_size0 v - 1) <= v < 256 ^ compact_size0 v.
Proof.
  intros Hv. destruct (bit_length_bounds v Hv) as [Hb Hp]. unfold compact_size0.
  set (n := bit_length v) in *. assert (1 <= (n + 7) / 8) by div_lia. split; [done|].
  rewrite !pow256 by lia. split.
  - apply Z.le_trans with (2 ^ (n - 1)); [apply Z.pow_le_mono_r; div_lia|lia].
  - apply Z.lt_le_trans with (2 ^ n); [lia|apply Z.pow_le_mono_r; div_lia].
Qed.

Lemma compact_mant0_bounds v : 0 < v -> 2 ^ 16 <= compact_mant0 v < 2 ^ 24.
Proof.
  intros Hv. destruct (compact_size0_bounds v Hv) as (Hs & Hl & Hu). unfold compact_mant0.
  set (k := compact_size0 v) in *. pose proof (pow256_pos (k - 1) ltac:(lia)).
  assert (256 ^ k = 256 * 256 ^ (k - 1)) as E by (rewrite <- Z.pow_succ_r by lia; f_equal; lia).
  split; [apply Z.div_le_lower_bound|apply Z.div_lt_upper_bound]; lia.
Qed.

Lemma compact_mant_half v :
  0 < v -> compact_mant v = if compact_mant0 v <? 2 ^ 23 then compact_mant0 v else compact_mant0 v / 256.
Proof.
  intros Hv. destruct (compact_size0_bounds v Hv) as [Hs _]. unfold compact_mant, compact_size.
  destruct (compact_mant0 v <? 2 ^ 23); [done|]. unfold compact_mant0.
  pose proof (pow256_pos (compact_size0 v) ltac:(lia)).
  rewrite Z.pow_add_r, Z.pow_1_r by lia. rewrite Z.div_div by lia. done.
Qed.

Lemma compact_mant_bounds v : 0 < v -> 2 ^ 15 <= compact_mant v < 2 ^ 23.
Proof.
  intros Hv. rewrite compact_mant_half by done. pose proof (compact_mant0_bounds v Hv).
  destruct (Z.ltb_spec (compact_mant0 v) (2 ^ 23)); [lia|div_lia].
Qed.

Lemma compact_size_bounds v : 0 < v < 2 ^ 256 -> 1 <= compact_size v <= 33.
Proof.
  intros Hv. destruct (compact_size0_bounds v ltac:(lia)) as [Hs _].
  assert (compact_size0 v <= 32).
  { unfold compact_size0. pose proof (bit_length_le v 256 ltac:(lia) ltac:(lia)). div_lia. }
  unfold compact_size. destruct (compact_mant0 v <? 2 ^ 23); lia.
Qed.

(** Decoding what was encoded truncates to the precision of the mantissa. *)
Lemma compact_dec_enc v :
  0 < v < 2 ^ 256 ->
  let v' := compact_dec (compact_mant v) (compact_size v) in
  v' <= v /\ (v - v') * 2 ^ 15 < v /\ 0 < v' /\
  (compact_size v <= 3 -> v' = v) /\
  (3 <= compact_size v -> v' = compact_mant v * 256 ^ (compact_size v - 3) /\
                          compact_mant v = v / 256 ^ (compact_size v - 3)).
Proof.
  intros Hv v'. pose proof (compact_mant_bounds v ltac:(lia)) as Hm.
  pose proof (compact_size_bounds v Hv) as Hs. unfold v', compact_dec.
  destruct (Z.le_ge_cases (compact_size v) 3) as [Hle|Hge].
  - assert (compact_mant v * 256 ^ compact_size v / 256 ^ 3 = v) as ->.
    { unfold compact_mant. replace (256 ^ 3) with (256 ^ (3 - compact_size v) * 256 ^ compact_size v)
        by (rewrite <- Z.pow_add_r by lia; f_equal; lia).
      pose proof (pow256_pos (compact_size v) ltac:(lia)). pose proof (pow256_pos (3 - compact_size v) ltac:(lia)).
      rewrite Z.mul_assoc, Z.div_mul by lia. rewrite <- Z.mul_assoc, Z.div_mul by nia. done. }
    split_and!; [lia..|intros H3]. replace (compact_size v) with 3 by lia. rewrite Z.sub_diag, Z.pow_0_r.
    unfold compact_mant. replace (compact_size v) with 3 by lia. rewrite Z.div_mul, Z.div_1_r by lia. lia.
  - pose proof (pow256_pos (compact_size v - 3) ltac:(lia)) as Hp. set (N := 256 ^ (compact_size v - 3)) in *.
    assert (256 ^ compact_size v = N * 256 ^ 3) as EN
      by (unfold N; rewrite <- Z.pow_add_r by lia; f_equal; lia).
    assert (compact_mant v = v / N) as Em.
    { unfold compact_mant. rewrite EN. apply Z.div_mul_cancel_r; lia. }
    rewrite EN, Z.mul_assoc, Z.div_mul by lia.
    pose proof (Z.div_mod v N ltac:(lia)). pose proof (Z.mod_pos_bound v N ltac:(lia)).
    rewrite Em in *. split_and!; [lia|nia|nia| |done].
    intros ?. assert (compact_size v = 3) as E3 by lia. unfold N in *. rewrite E3, Z.sub_diag, Z.pow_0_r in *. lia.
Qed.

(** Encoding the decoded value again gives the same size and mantissa. *)
Lemma compact_enc_dec_enc v :
  0 < v < 2 ^ 256 -> compact_enc (compact_dec (compact_mant v) (compact_size v)) = compact_enc v.
Proof.
  intros Hv. destruct (compact_dec_enc v Hv) as (Hle & _ & Hpos & H3 & H4).
  set (v' := compact_dec _ _) in *. pose proof (compact_mant_bounds v ltac:(lia)) as Hm.
  pose proof (compact_size_bounds v Hv) as Hs.
  destruct (Z.le_ge_cases (compact_size v) 3) as [Hs3|Hs3]; [by rewrite H3|].
  specialize (H4 ltac:(lia)) as [Ev' Em]. set (e := compact_size v - 3) in *.
  pose proof (pow256_pos e ltac:(lia)) as Hp.
  assert (bit_length v' = bit_length v) as Ebl.
  { unfold bit_length. rewrite !(proj2 (Z.eqb_neq _ _)) by lia. f_equal.
    set (l := Z.log2 (compact_mant v)). pose proof (Z.log2_spec (compact_mant v) ltac:(lia)) as Hl. fold l in Hl.
    assert (0 <= l) by apply Z.log2_nonneg.
    assert (forall w, compact_mant v * 256 ^ e <= w < (compact_mant v + 1) * 256 ^ e -> Z.log2 w = l + 8 * e) as G.
    { intros w Hw. apply Z.log2_unique; [lia|]. rewrite pow256 in * by lia.
      rewrite <- Z.add_succ_l, !Z.pow_add_r by lia. nia. }
    rewrite !G; [done| |nia]. rewrite Em. pose proof (Z.div_mod v (256 ^ e) ltac:(lia)).
    pose proof (Z.mod_pos_bound v (256 ^ e) ltac:(lia)). nia. }
  assert (compact_size0 v' = compact_size0 v) as Es0 by (unfold compact_size0; by rewrite Ebl).
  assert (v' * 256 ^ 3 = compact_mant v * 256 ^ compact_size v) as Ev3.
  { rewrite Ev', <- Z.mul_assoc, <- Z.pow_add_r by lia. do 2 f_equal. lia. }
  assert ((compact_mant0 v' <? 2 ^ 23) = (compact_mant0 v <? 2 ^ 23)) as Ecmp.
  { pose proof (compact_mant_half v ltac:(lia)) as Eh. unfold compact_mant0 at 1. rewrite Es0, Ev3.
    unfold compact_size in *. destruct (compact_size0_bounds v ltac:(lia)) as [Hs0 _].
    pose proof (pow256_pos (compact_size0 v) ltac:(lia)).
    destruct (Z.ltb_spec (compact_mant0 v) (2 ^ 23)).
    - rewrite Z.div_mul by lia. apply Z.ltb_lt. lia.
    - rewrite Z.pow_add_r, (Z.mul_comm (256 ^ _)), Z.mul_assoc, Z.div_mul by lia. apply Z.ltb_ge. lia. }
  assert (compact_size v' = compact_size v) as Es by (unfold compact_size; by rewrite Ecmp, Es0).
  unfold compact_enc. rewrite Es. f_equal. unfold compact_mant at 1. rewrite Es, Ev3.
  apply Z.div_mul. pose proof (pow256_pos (compact_size v) ltac:(lia)). lia.
Qed.

Definition wf256 (a : base_uint) : Prop := limbs_ok a /\ length a = WIDTH.

Lemma wf256_range a : wf256 a -> 0 <= uval a < 2 ^ 256.
Proof. intros [Ha Hl]. pose proof (uval_range a Ha) as H. unfold modulus in H. by rewrite Hl in H. Qed.

(** The scaled mantissa before the sign bit is made free. *)
Lemma GetCompact_mant0 a :
  wf256 a ->
  (if compact_size0 (uval a) <=? 3
   then u32 (u64 (Z.shiftl (GetLow64 a) (8 * (3 - compact_size0 (uval a)))))
   else u32 (GetLow64 (base_uint_shr a (8 * (compact_size0 (uval a) - 3))))) = compact_mant0 (uval a).
Proof.
  intros Hw. pose proof (wf256_range a Hw) as Hv. destruct Hw as [Ha Hl].
  destruct (Z.eq_dec (uval a) 0) as [E0|E0].
  { rewrite E0. change (compact_size0 0) with 0. cbn [Z.leb]. by rewrite GetLow64_spec, E0. }
  pose proof (compact_mant0_bounds (uval a) ltac:(lia)) as Hm.
  destruct (compact_size0_bounds (uval a) ltac:(lia)) as (Hs & _ & Hu).
  unfold compact_mant0 in *. set (k := compact_size0 (uval a)) in *.
  destruct (Z.leb_spec k 3) as [Hk|Hk].
  - assert (uval a < 2 ^ 64).
    { apply Z.lt_le_trans with (256 ^ k); [lia|]. rewrite pow256 by lia. apply Z.pow_le_mono_r; lia. }
    assert (uval a * 256 ^ 3 / 256 ^ k = uval a * 2 ^ (8 * (3 - k))) as E.
    { rewrite <- pow256 by lia. replace (256 ^ 3) with (256 ^ (3 - k) * 256 ^ k)
        by (rewrite <- Z.pow_add_r by lia; f_equal; lia).
      rewrite Z.mul_assoc, Z.div_mul; [done|]. pose proof (pow256_pos k ltac:(lia)). lia. }
    rewrite GetLow64_spec, Z.mod_small, Z.shiftl_mul_pow2, <- E by (done || lia).
    rewrite (wrapu_small 64), wrapu_small; [done|unfold uint_range; lia..].
  - destruct (base_uint_shr_spec a (8 * (k - 3)) Ha ltac:(lia)) as (R1 & R2 & R3).
    assert (uval (base_uint_shr a (8 * (k - 3))) = uval a * 256 ^ 3 / 256 ^ k) as E.
    { rewrite R3, <- pow256 by lia. replace (256 ^ k) with (256 ^ (k - 3) * 256 ^ 3)
        by (rewrite <- Z.pow_add_r by lia; f_equal; lia).
      rewrite Z.div_mul_cancel_r; [done|pose proof (pow256_pos (k - 3) ltac:(lia)); lia|lia]. }
    rewrite GetLow64_spec, E, Z.mod_small, wrapu_small; [done|unfold uint_range; lia|lia|done].
Qed.

Lemma GetCompact_spec a : wf256 a -> GetCompact a false = Some (compact_enc (uval a)).
Proof.
  intros Hw. pose proof (wf256_range a Hw) as Hv. unfold GetCompact.
  rewrite base_uint_bits_spec by apply Hw. fold (compact_size0 (uval a)).
  rewrite GetCompact_mant0 by done.
  destruct (Z.eq_dec (uval a) 0) as [->|E0]; [done|].
  pose proof (compact_mant0_bounds (uval a) ltac:(lia)) as Hm0.
  pose proof (compact_mant_bounds (uval a) ltac:(lia)) as Hm.
  pose proof (compact_size_bounds (uval a) ltac:(lia)) as Hs.
  assert ((if negb (Z.land (compact_mant0 (uval a)) 0x00800000 =? 0)
           then (Z.shiftr (compact_mant0 (uval a)) 8, compact_size0 (uval a) + 1)
           else (compact_mant0 (uval a), compact_size0 (uval a)))
          = (compact_mant (uval a), compact_size (uval a))) as ->.
  { change 0x00800000 with (2 ^ 23). rewrite land_pow2 by lia.
    rewrite compact_mant_half by lia. unfold compact_size.
    destruct (compact_mant0 (uval a) <? 2 ^ 23); [done|]. cbn [negb].
    by rewrite Z.shiftr_div_pow2 by lia. }
  assert (Z.land (compact_mant (uval a)) (Z.lnot 0x007fffff) = 0) as ->.
  { change 0x007fffff with (Z.ones 23). rewrite <- Z.ldiff_land, Z.ldiff_ones_r, Z.shiftr_div_pow2 by lia.
    rewrite Z.div_small by lia. done. }
  rewrite (proj2 (Z.ltb_lt _ _)) by lia. cbn [negb Z.eqb]. cbn [andb].
  rewrite Z.lor_0_r, Z.lor_comm, (wrapu_small 32), lor_shiftl_add; [done|lia..|].
  unfold uint_range. rewrite Z.shiftl_mul_pow2 by lia. lia.
Qed.

Lemma compact_fields c :
  uint_range 32 c ->
  Z.shiftr c 24 = c / 2 ^ 24 /\ Z.land c 0x007fffff = c mod 2 ^ 23 /\ 0 <= c / 2 ^ 24 < 256.
Proof.
  unfold uint_range. intros Hc. change 0x007fffff with (Z.ones 23).
  rewrite Z.land_ones, Z.shiftr_div_pow2 by lia. split_and!; [done..|div_lia|div_lia].
Qed.

(** Decoding any 32-bit word: the value modulo [2^256], and an overflow flag that
    is set exactly when the value does not fit. *)
Lemma SetCompact_spec c :
  uint_range 32 c ->
  let v := compact_dec (c mod 2 ^ 23) (c / 2 ^ 24) in
  let '(b, neg, ovf) := SetCompact c in
  wf256 b /\ uval b = v mod 2 ^ 256 /\ ovf = (2 ^ 256 <=? v) /\
  neg = (if c / 2 ^ 24 <=? 3 then negb (v =? 0) else negb (c mod 2 ^ 23 =? 0))
        && negb (Z.land c 0x00800000 =? 0).
Proof.
  intros Hc v. destruct (compact_fields c Hc) as (E1 & E2 & Hs). unfold SetCompact. rewrite E1, E2.
  pose proof (Z.mod_pos_bound c (2 ^ 23) ltac:(lia)) as Hm. unfold v, compact_dec. clear v.
  set (size := c / 2 ^ 24) in *. set (m := c mod 2 ^ 23) in *.
  destruct (Z.leb_spec size 3) as [Hle|Hgt].
  - assert (Z.shiftr m (8 * (3 - size)) = m * 256 ^ size / 256 ^ 3) as E.
    { rewrite Z.shiftr_div_pow2, <- pow256 by lia.
      replace (256 ^ 3) with (256 ^ (3 - size) * 256 ^ size) by (rewrite <- Z.pow_add_r by lia; f_equal; lia).
      pose proof (pow256_pos size ltac:(lia)). pose proof (pow256_pos (3 - size) ltac:(lia)).
      rewrite Z.div_mul_cancel_r by lia. done. }
    rewrite <- E. set (w := Z.shiftr m _) in *.
    assert (0 <= w < 2 ^ 23) as Hw.
    { unfold w. rewrite Z.shiftr_div_pow2 by lia. assert (0 < 2 ^ (8 * (3 - size))) by (apply Z.pow_pos_nonneg; lia).
      split; [apply Z.div_pos; lia|]. apply Z.div_lt_upper_bound; nia. }
    destruct (uval_of_u64 w ltac:(unfold uint_range; lia)) as [U1 U2].
    split; [split; [exact U1|done]|]. split; [rewrite U2, Z.mod_small; lia|].
    rewrite (proj2 (Z.leb_gt (2 ^ 256) w)) by lia.
    destruct (Z.gtb_spec size 34), (Z.gtb_spec size 33), (Z.gtb_spec size 32); try lia.
  - assert (m * 256 ^ size / 256 ^ 3 = m * 256 ^ (size - 3)) as E.
    { replace (256 ^ size) with (256 ^ (size - 3) * 256 ^ 3) by (rewrite <- Z.pow_add_r by lia; f_equal; lia).
      rewrite Z.mul_assoc, Z.div_mul by lia. done. }
    rewrite E. destruct (uval_of_u64 m ltac:(unfold uint_range; lia)) as [U1 U2].
    destruct (base_uint_shl_spec _ (8 * (size - 3)) U1 ltac:(lia)) as (S1 & S2 & S3).
    split; [split; [exact S1|exact S2]|]. split; [rewrite S3, U2, <- pow256 by lia; done|]. split; [|done].
    assert (forall k, 0 <= k -> 256 ^ (32 + k) = 2 ^ 256 * 256 ^ k) as Ep
      by (intros k Hk; by rewrite Z.pow_add_r by lia).
    destruct (Z.eqb_spec m 0) as [->|Hne]; [done|]. cbn [negb andb].
    destruct (Z.gtb_spec size 34) as [H34|H34].
    { cbn [orb]. symmetry. apply Z.leb_le. replace (size - 3) with (32 + (size - 35)) by lia.
      rewrite Ep by lia. pose proof (pow256_pos (size - 35) ltac:(lia)). nia. }
    destruct (Z.gtb_spec size 33) as [H33|H33].
    { replace (size - 3) with 31 by lia. destruct (Z.gtb_spec m 0xff), (Z.gtb_spec m 0xffff), (Z.gtb_spec size 32);
        cbn [orb andb]; symmetry; first [apply Z.leb_le | apply Z.leb_gt]; lia. }
    rewrite andb_false_r. destruct (Z.gtb_spec size 32) as [H32|H32].
    { replace (size - 3) with 30 by lia. destruct (Z.gtb_spec m 0xffff);
        cbn [orb andb]; symmetry; first [apply Z.leb_le | apply Z.leb_gt]; lia. }
    rewrite andb_false_r. cbn [orb]. symmetry. apply Z.leb_gt.
    apply Z.lt_le_trans with (2 ^ 23 * 256 ^ (size - 3)).
    + apply Z.mul_lt_mono_pos_r; [apply pow256_pos; lia|lia].
    + rewrite pow256, <- Z.pow_add_r by lia. apply Z.pow_le_mono_r; lia.
Qed.

(** ** Conversion to bytes *)

Lemma ArithToUint256_val a : limbs_ok a -> le_val (ArithToUint256 a) = uval a.
Proof.
  unfold ArithToUint256. induction 1 as [|p a Hp Ha IH]; [done|]. cbn [map concat uval].
  rewrite le_val_app, IH, length_le_bytes, le_val_bytes. unfold uint_range in Hp.
  rewrite Z.mod_small by (simpl; lia). done.
Qed.

Lemma length_ArithToUint256 a : length (ArithToUint256 a) = (4 * length a)%nat.
Proof.
  unfold ArithToUint256. induction a as [|p a IH]; [done|].
  cbn [map concat]. rewrite length_app, length_le_bytes, IH. cbn [length]. lia.
Qed.

Lemma uval_chunks n b :
  length b = (4 * n)%nat -> uval (map (fun x => le_val (take 4 (drop (4 * x) b))) (seq 0 n)) = le_val b.
Proof.
  revert b. induction n as [|n IH]; intros b Hb; [destruct b; [done|simpl in Hb; lia]|].
  cbn [seq map uval]. rewrite <- seq_shift, map_map. rewrite Nat.mul_0_r, drop_0.
  rewrite (map_ext _ (fun x => le_val (take 4 (drop (4 * x) (drop 4 b))))).
  - rewrite IH by (rewrite length_drop; lia). rewrite <- (take_drop 4 b) at 3.
    rewrite le_val_app, length_take, Nat.min_l by lia. done.
  - intros x. rewrite drop_drop. do 3 f_equal. lia.
Qed.

Lemma UintToArith256_spec b :
  length b = 32%nat -> wf256 (UintToArith256 b) /\ uval (UintToArith256 b) = le_val b.
Proof.
  intros Hb. unfold UintToArith256. split; [|by apply uval_chunks]. split; [|done].
  apply Forall_map, Forall_forall. intros x Hx%elem_of_seq. unfold uint_range.
  pose proof (le_val_range (take 4 (drop (4 * x) b))) as H. rewrite length_take, length_drop in H.
  unfold WIDTH in Hx. rewrite Nat.min_l in H by lia. done.
Qed.

(** Decoding an encoded value raises no flag, truncates, and encodes back to itself. *)
Lemma compact_decodes v :
  0 <= v < 2 ^ 256 ->
  exists b, SetCompact (compact_enc v) = (b, false, false) /\ wf256 b /\
    uval b <= v /\ (v - uval b) * 2 ^ 15 <= v /\ compact_enc (uval b) = compact_enc v.
Proof.
  intros Hv. destruct (Z.eq_dec v 0) as [->|E0].
  { exists base_uint_zero. split; [vm_compute; reflexivity|].
    split; [split; [apply limbs_ok_replicate|done]|]. split_and!; vm_compute; congruence. }
  pose proof (compact_mant_bounds v ltac:(lia)) as Hm. pose proof (compact_size_bounds v ltac:(lia)) as Hs.
  destruct (compact_dec_enc v ltac:(lia)) as (D1 & D2 & D3 & _).
  assert (uint_range 32 (compact_enc v)) as Hc by (unfold uint_range, compact_enc; lia).
  pose proof (SetCompact_spec _ Hc) as S.
  assert (compact_enc v mod 2 ^ 23 = compact_mant v) as E1 by (unfold compact_enc; div_lia).
  assert (compact_enc v / 2 ^ 24 = compact_size v) as E2 by (unfold compact_enc; div_lia).
  assert (Z.land (compact_enc v) 0x00800000 = 0) as E3.
  { apply Z.bits_inj'. intros i Hi. change 0x00800000 with (2 ^ 23).
    rewrite Z.land_spec, Z.pow2_bits_eqb, Z.bits_0 by lia. destruct (Z.eqb_spec 23 i) as [<-|]; [|apply andb_false_r].
    rewrite andb_true_r, <- (Z.mod_pow2_bits_low _ 24) by lia.
    replace (compact_enc v mod 2 ^ 24) with (compact_mant v mod 2 ^ 23) by (unfold compact_enc; div_lia).
    apply Z.mod_pow2_bits_high; lia. }
  rewrite E1, E2, E3 in S. destruct (SetCompact (compact_enc v)) as [[b neg] ovf].
  destruct S as (S1 & S2 & S3 & S4). rewrite Z.mod_small in S2 by lia.
  rewrite (proj2 (Z.leb_gt _ _)) in S3 by lia. rewrite andb_false_r in S4. subst.
  exists b. split; [done|]. rewrite S2. split_and!; [exact S1|lia|lia|]. apply compact_enc_dec_enc. lia.
Qed.

(** * What 256-bit arithmetic promises *)

Lemma modulus_256 a : wf256 a -> modulus a = 2 ^ 256.
Proof. intros [_ Hl]. unfold modulus. by rewrite Hl. Qed.

(** C19: the limb-by-limb operators compute on 256-bit numbers what [Z] computes
    modulo [2^256] (sum, difference, product, both shifts), comparison and bit length
    are those of the values, and division is the quotient or, for a zero divisor
    only, the exception. Every result is again eight 32-bit limbs. *)
Theorem arith_uint256_refines_Z a b s :
  wf256 a -> wf256 b -> 0 <= s ->
  (wf256 (base_uint_add a b) /\ uval (base_uint_add a b) = (uval a + uval b) mod 2 ^ 256) /\
  (wf256 (base_uint_sub a b) /\ uval (base_uint_sub a b) = (uval a - uval b) mod 2 ^ 256) /\
  (wf256 (base_uint_mul a b) /\ uval (base_uint_mul a b) = (uval a * uval b) mod 2 ^ 256) /\
  (wf256 (base_uint_shl a s) /\ uval (base_uint_shl a s) = (uval a * 2 ^ s) mod 2 ^ 256) /\
  (wf256 (base_uint_shr a s) /\ uval (base_uint_shr a s) = uval a / 2 ^ s) /\
  CompareTo a b = compare_sign (uval a) (uval b) /\
  base_uint_bits a = bit_length (uval a) /\
  match base_uint_div a b with
  | None => uval b = 0
  | Some q => uval b <> 0 /\ wf256 q /\ uval q = uval a / uval b
  end.
Proof.
  intros Wa Wb Hs. pose proof Wa as [Ha La]. pose proof Wb as [Hb Lb].
  assert (length a = length b) as Hl by congruence. rewrite <- (modulus_256 a Wa).
  destruct (base_uint_add_spec a b Ha Hb Hl) as (?&?&?). destruct (base_uint_sub_spec a b Ha Hb Hl) as (?&?&?).
  destruct (base_uint_mul_spec a b Ha Hb Hl) as (?&?&?). destruct (base_uint_shl_spec a s Ha Hs) as (?&?&?).
  destruct (base_uint_shr_spec a s Ha Hs) as (?&?&?). pose proof (base_uint_div_spec a b Ha Hb Hl) as Hd.
  unfold wf256. split_and!; try congruence; [by apply CompareTo_spec|by apply base_uint_bits_spec|].
  destruct (Z.eqb_spec (uval b) 0) as [E|E]; [by rewrite Hd|].
  destruct Hd as (q & -> & ? & ? & ?). split_and!; congruence.
Qed.


Definition sample_a : base_uint := [0xffffffff; 0xdeadbeef; 0; 0x80000000; 1; 2; 3; 0x00ffffff].
Definition sample_b : base_uint := [7; 0xffffffff; 1; 0; 0; 0; 0; 0].

Lemma arith_uint256_refines_Z_witness :
  wf256 (base_uint_add sample_a sample_b) /\
  uval (base_uint_add sample_a sample_b) = (uval sample_a + uval sample_b) mod 2 ^ 256.
Proof.
  refine (proj1 (arith_uint256_refines_Z sample_a sample_b 37 _ _ _)); [..|lia];
    (split; [repeat constructor; unfold uint_range; lia|done]).
Defined.

