(* ===== verification/Chain.v ===== *)
(** * The block index tree and the active chain (topchain/src/chain.h, chain.cpp,
      [AddToBlockIndex] and [FindForkInGlobalIndex] of validation.cpp)

    [mapBlockIndex] owns the index entries; a [CBlockIndex*] is the hash of its
    block ([phashBlock] points to the key of the entry), and [nullptr] is [None].
    A definition that dereferences a pointer or asserts returns an [option] whose
    [None] is the dangling dereference or the failed assertion; the theorems show
    that neither happens on a well-formed index. *)

From stdpp Require Import sorting.
From S2P Require Import Prelude Serialize Sha256 Primitives ArithUint256.

(** ** Entries *)

Definition BLOCK_VALID_HEADER : Z := 1.
Definition BLOCK_VALID_TREE : Z := 2.
Definition BLOCK_VALID_TRANSACTIONS : Z := 3.
Definition BLOCK_VALID_CHAIN : Z := 4.
Definition BLOCK_VALID_SCRIPTS : Z := 5.
Definition BLOCK_VALID_MASK : Z :=
  Z.lor BLOCK_VALID_HEADER (Z.lor BLOCK_VALID_TREE (Z.lor BLOCK_VALID_TRANSACTIONS
    (Z.lor BLOCK_VALID_CHAIN BLOCK_VALID_SCRIPTS))).
Definition BLOCK_HAVE_DATA : Z := 8.
Definition BLOCK_HAVE_UNDO : Z := 16.
Definition BLOCK_FAILED_VALID : Z := 32.
Definition BLOCK_FAILED_CHILD : Z := 64.
Definition BLOCK_FAILED_MASK : Z := Z.lor BLOCK_FAILED_VALID BLOCK_FAILED_CHILD.
Definition BLOCK_OPT_WITNESS : Z := 128.

Record CBlockIndex := mkBlockIndex {
  bi_pprev : option uint256;
  bi_pskip : option uint256;
  bi_nHeight : Z;
  bi_nFile : Z;
  bi_nDataPos : Z;
  bi_nUndoPos : Z;
  bi_nChainWork : base_uint;
  bi_nTx : Z;
  bi_nChainTx : Z;
  bi_nStatus : Z;
  bi_nVersion : Z;
  bi_hashMerkleRoot : uint256;
  bi_nTime : Z;
  bi_nBits : Z;
  bi_nNonce : Z;
  bi_nSequenceId : Z;
  bi_nTimeMax : Z
}.

(** [CBlockIndex(const CBlockHeader&)] *)
Definition CBlockIndex_of_header (block : CBlockHeader) : CBlockIndex :=
  mkBlockIndex None None 0 0 0 0 base_uint_zero 0 0 0
    (hdr_nVersion block) (hashMerkleRoot block) (hdr_nTime block) (hdr_nBits block) (hdr_nNonce block) 0 0.

Definition set_prev (pprev : option uint256) (nHeight : Z) (n : CBlockIndex) : CBlockIndex :=
  mkBlockIndex pprev (bi_pskip n) nHeight (bi_nFile n) (bi_nDataPos n) (bi_nUndoPos n) (bi_nChainWork n)
    (bi_nTx n) (bi_nChainTx n) (bi_nStatus n) (bi_nVersion n) (bi_hashMerkleRoot n) (bi_nTime n) (bi_nBits n)
    (bi_nNonce n) (bi_nSequenceId n) (bi_nTimeMax n).
Definition set_skip (pskip : option uint256) (n : CBlockIndex) : CBlockIndex :=
  mkBlockIndex (bi_pprev n) pskip (bi_nHeight n) (bi_nFile n) (bi_nDataPos n) (bi_nUndoPos n) (bi_nChainWork n)
    (bi_nTx n) (bi_nChainTx n) (bi_nStatus n) (bi_nVersion n) (bi_hashMerkleRoot n) (bi_nTime n) (bi_nBits n)
    (bi_nNonce n) (bi_nSequenceId n) (bi_nTimeMax n).
Definition set_work (nTimeMax : Z) (nChainWork : base_uint) (n : CBlockIndex) : CBlockIndex :=
  mkBlockIndex (bi_pprev n) (bi_pskip n) (bi_nHeight n) (bi_nFile n) (bi_nDataPos n) (bi_nUndoPos n) nChainWork
    (bi_nTx n) (bi_nChainTx n) (bi_nStatus n) (bi_nVersion n) (bi_hashMerkleRoot n) (bi_nTime n) (bi_nBits n)
    (bi_nNonce n) (bi_nSequenceId n) nTimeMax.
Definition set_status (nStatus : Z) (n : CBlockIndex) : CBlockIndex :=
  mkBlockIndex (bi_pprev n) (bi_pskip n) (bi_nHeight n) (bi_nFile n) (bi_nDataPos n) (bi_nUndoPos n) (bi_nChainWork n)
    (bi_nTx n) (bi_nChainTx n) nStatus (bi_nVersion n) (bi_hashMerkleRoot n) (bi_nTime n) (bi_nBits n)
    (bi_nNonce n) (bi_nSequenceId n) (bi_nTimeMax n).

(** [IsValid] and [RaiseValidity]; the assertion on [nUpTo] is [None]. *)
Definition IsValid (nUpTo : Z) (n : CBlockIndex) : option bool :=
  if negb (Z.land nUpTo (Z.lnot BLOCK_VALID_MASK) =? 0) then None
  else if negb (Z.land (bi_nStatus n) BLOCK_FAILED_MASK =? 0) then Some false
  else Some (Z.land (bi_nStatus n) BLOCK_VALID_MASK >=? nUpTo).

Definition RaiseValidity (nUpTo : Z) (n : CBlockIndex) : option (CBlockIndex * bool) :=
  if negb (Z.land nUpTo (Z.lnot BLOCK_VALID_MASK) =? 0) then None
  else if negb (Z.land (bi_nStatus n) BLOCK_FAILED_MASK =? 0) then Some (n, false)
  else if Z.land (bi_nStatus n) BLOCK_VALID_MASK <? nUpTo then
    Some (set_status (Z.lor (Z.land (bi_nStatus n) (Z.lnot BLOCK_VALID_MASK)) nUpTo) n, true)
  else Some (n, false).

(** [GetBlockProof]; [None] is the division exception. *)
Definition GetBlockProof (nBits : Z) : option base_uint :=
  let '(bnTarget, fNegative, fOverflow) := SetCompact nBits in
  if fNegative || fOverflow || EqualTo bnTarget 0 then Some (base_uint_of_u64 0)
  else
    q ← base_uint_div (base_uint_not bnTarget) (base_uint_add bnTarget (base_uint_of_u64 1));
    Some (base_uint_add q (base_uint_of_u64 1)).

(** ** The tree *)

Abbreviation BlockMap := (gmap (list byte) CBlockIndex) (only parsing).

Definition InvertLowestOne (n : Z) : Z := Z.land n (n - 1).

Definition GetSkipHeight (height : Z) : Z :=
  if height <? 2 then 0
  else if negb (Z.land height 1 =? 0) then InvertLowestOne (InvertLowestOne (height - 1)) + 1
  else InvertLowestOne height.

(** The choice between [pskip] and [pprev]. *)
Definition follow_skip (heightWalk height : Z) : bool :=
  let heightSkip := GetSkipHeight heightWalk in
  let heightSkipPrev := GetSkipHeight (heightWalk - 1) in
  (heightSkip =? height) ||
  ((heightSkip >? height) && negb ((heightSkipPrev <? heightSkip - 2) && (heightSkipPrev >=? height))).

Fixpoint GetAncestor_loop (fuel : nat) (m : BlockMap) (pindexWalk : uint256) (heightWalk height : Z)
  : option uint256 :=
  match fuel with
  | O => None
  | S fuel =>
      if heightWalk >? height then
        n ← m !! pindexWalk;
        match bi_pskip n with
        | Some pskip =>
            if follow_skip heightWalk height
            then GetAncestor_loop fuel m pskip (GetSkipHeight heightWalk) height
            else pprev ← bi_pprev n; GetAncestor_loop fuel m pprev (heightWalk - 1) height
        | None => pprev ← bi_pprev n; GetAncestor_loop fuel m pprev (heightWalk - 1) height
        end
      else Some pindexWalk
  end.

(** The walk takes at most [nHeight] steps. *)
Definition GetAncestor (m : BlockMap) (p : uint256) (height : Z) : option (option uint256) :=
  n ← m !! p;
  if (height >? bi_nHeight n) || (height <? 0) then Some None
  else q ← GetAncestor_loop (S (Z.to_nat (bi_nHeight n))) m p (bi_nHeight n) height; Some (Some q).

(** [BuildSkip] of an entry that is being added under the hash [p]. *)
Definition BuildSkip (m : BlockMap) (n : CBlockIndex) : option CBlockIndex :=
  match bi_pprev n with
  | None => Some n
  | Some pprev => a ← GetAncestor m pprev (GetSkipHeight (bi_nHeight n)); Some (set_skip a n)
  end.

(** The globals [AddToBlockIndex] works on. *)
Record index_state := mkIndexState {
  mapBlockIndex : BlockMap;
  pindexBestHeader : option uint256;
  setDirtyBlockIndex : gset (list byte)
}.

Definition AddToBlockIndex (st : index_state) (block : CBlockHeader) : option (index_state * uint256) :=
  let hash := CBlockHeader_GetHash block in
  match mapBlockIndex st !! hash with
  | Some _ => Some (st, hash)
  | None =>
      let n := CBlockIndex_of_header block in
      let m := <[hash := n]> (mapBlockIndex st) in
      n ← match m !! hashPrevBlock block with
          | Some prev => BuildSkip m (set_prev (Some (hashPrevBlock block)) (bi_nHeight prev + 1) n)
          | None => Some n
          end;
      let prev := hp ← bi_pprev n; m !! hp in
      proof ← GetBlockProof (bi_nBits n);
      let n := set_work (match prev with Some q => Z.max (bi_nTimeMax q) (bi_nTime n) | None => bi_nTime n end)
                 (base_uint_add (match prev with Some q => bi_nChainWork q | None => base_uint_of_u64 0 end) proof) n in
      '(n, _) ← RaiseValidity BLOCK_VALID_TREE n;
      let m := <[hash := n]> m in
      best ← match pindexBestHeader st with
             | None => Some (Some hash)
             | Some b =>
                 bn ← m !! b;
                 Some (if CompareTo (bi_nChainWork bn) (bi_nChainWork n) <? 0 then Some hash else Some b)
             end;
      Some (mkIndexState m best ({[hash]} ∪ setDirtyBlockIndex st), hash)
  end.

(** [GetMedianTimePast]: the times of at most eleven blocks, sorted. *)
Definition nMedianTimeSpan : nat := 11.

Fixpoint median_times (i : nat) (m : BlockMap) (pindex : option uint256) : option (list Z) :=
  match i, pindex with
  | S i, Some p =>
      n ← m !! p;
      ts ← median_times i m (bi_pprev n);
      Some (bi_nTime n :: ts)
  | _, _ => Some []
  end.

Definition GetMedianTimePast (m : BlockMap) (p : uint256) : option Z :=
  ts ← median_times nMedianTimeSpan m (Some p);
  merge_sort Z.le ts !! (length ts / 2)%nat.

(** ** The active chain *)

(** [std::vector<CBlockIndex*> vChain] *)
Abbreviation CChain := (list (option (list byte))) (only parsing).

Definition CChain_at (c : CChain) (nHeight : Z) : option uint256 :=
  if (nHeight <? 0) || (nHeight >=? Zlength c) then None else mjoin (c !! Z.to_nat nHeight).

Definition CChain_Tip (c : CChain) : option uint256 := mjoin (last c).
Definition CChain_Genesis (c : CChain) : option uint256 := mjoin (head c).
Definition CChain_Height (c : CChain) : Z := Zlength c - 1.

Definition CChain_Contains (m : BlockMap) (c : CChain) (p : uint256) : option bool :=
  n ← m !! p; Some (bool_decide (CChain_at c (bi_nHeight n) = Some p)).

Definition CChain_Next (m : BlockMap) (c : CChain) (p : uint256) : option (option uint256) :=
  n ← m !! p; b ← CChain_Contains m c p;
  Some (if b : bool then CChain_at c (bi_nHeight n + 1) else None).

(** The loop of [SetTip]; [vChain[i]] out of range is undefined. *)
Fixpoint SetTip_loop (fuel : nat) (m : BlockMap) (c : CChain) (pindex : option uint256) : option CChain :=
  match fuel, pindex with
  | _, None => Some c
  | O, Some _ => None
  | S fuel, Some p =>
      n ← m !! p;
      x ← (if bi_nHeight n <? 0 then None else c !! Z.to_nat (bi_nHeight n));
      if bool_decide (x = Some p) then Some c
      else SetTip_loop fuel m (<[Z.to_nat (bi_nHeight n) := Some p]> c) (bi_pprev n)
  end.

Definition CChain_SetTip (m : BlockMap) (c : CChain) (pindex : option uint256) : option CChain :=
  match pindex with
  | None => Some []
  | Some p =>
      n ← m !! p;
      SetTip_loop (S (Z.to_nat (bi_nHeight n))) m (resize (Z.to_nat (bi_nHeight n + 1)) None c) (Some p)
  end.

Fixpoint FindFork_loop (fuel : nat) (m : BlockMap) (c : CChain) (pindex : option uint256) : option (option uint256) :=
  match fuel, pindex with
  | _, None => Some None
  | O, Some _ => None
  | S fuel, Some p =>
      b ← CChain_Contains m c p;
      if b : bool then Some (Some p) else n ← m !! p; FindFork_loop fuel m c (bi_pprev n)
  end.

Definition CChain_FindFork (m : BlockMap) (c : CChain) (pindex : option uint256) : option (option uint256) :=
  match pindex with
  | None => Some None
  | Some p =>
      n ← m !! p;
      p ← (if bi_nHeight n >? CChain_Height c then GetAncestor m p (CChain_Height c) else Some (Some p));
      FindFork_loop (S (Z.to_nat (bi_nHeight n + 1))) m c p
  end.

(** [GetLocator]: [nStep] doubles once ten hashes are in the list. *)
Fixpoint GetLocator_loop (fuel : nat) (m : BlockMap) (c : CChain) (vHave : list uint256) (nStep : Z)
  (pindex : option uint256) : option (list uint256) :=
  match fuel, pindex with
  | _, None => Some vHave
  | O, Some _ => None
  | S fuel, Some p =>
      n ← m !! p;
      let vHave := vHave ++ [p] in
      if bi_nHeight n =? 0 then Some vHave
      else
        let nHeight := Z.max (bi_nHeight n - nStep) 0 in
        b ← CChain_Contains m c p;
        next ← (if b : bool then Some (CChain_at c nHeight) else GetAncestor m p nHeight);
        GetLocator_loop fuel m c vHave (if Zlength vHave >? 10 then nStep * 2 else nStep) next
  end.

Definition CChain_GetLocator (m : BlockMap) (c : CChain) (pindex : option uint256) : option (list uint256) :=
  let pindex := match pindex with None => CChain_Tip c | Some p => Some p end in
  match pindex with
  | None => Some []
  | Some p => n ← m !! p; GetLocator_loop (S (Z.to_nat (bi_nHeight n))) m c [] 1 (Some p)
  end.

Fixpoint FindForkInGlobalIndex (m : BlockMap) (c : CChain) (vHave : list uint256) : option (option uint256) :=
  match vHave with
  | [] => Some (CChain_Genesis c)
  | hash :: vHave =>
      match m !! hash with
      | None => FindForkInGlobalIndex m c vHave
      | Some _ =>
          b ← CChain_Contains m c hash;
          if b : bool then Some (Some hash)
          else
            a ← GetAncestor m hash (CChain_Height c);
            if bool_decide (a = CChain_Tip c) then Some (CChain_Tip c)
            else FindForkInGlobalIndex m c vHave
      end
  end.

(** [LastCommonAncestor]: the loop and the final assertion. *)
Fixpoint LCA_loop (fuel : nat) (m : BlockMap) (pa pb : option uint256) : option (option uint256) :=
  match fuel, pa, pb with
  | S fuel, Some a, Some b =>
      if bool_decide (a = b) then Some (Some a)
      else na ← m !! a; nb ← m !! b; LCA_loop fuel m (bi_pprev na) (bi_pprev nb)
  | O, Some a, Some b => None
  | _, None, None => Some None
  | _, _, _ => None
  end.

Definition LastCommonAncestor (m : BlockMap) (pa pb : uint256) : option (option uint256) :=
  na ← m !! pa; nb ← m !! pb;
  a ← (if bi_nHeight na >? bi_nHeight nb then GetAncestor m pa (bi_nHeight nb) else Some (Some pa));
  b ← (if bi_nHeight na >? bi_nHeight nb then Some (Some pb)
       else if bi_nHeight nb >? bi_nHeight na then GetAncestor m pb (bi_nHeight na) else Some (Some pb));
  LCA_loop (S (S (Z.to_nat (Z.min (bi_nHeight na) (bi_nHeight nb))))) m a b.

(** [GetBlockProofEquivalentTime] on the two chain works and the bits of the tip;
    [sign * r.GetLow64()] is a product of [uint64_t], converted back. *)
Definition GetBlockProofEquivalentTime (to_work from_work : base_uint) (tip_nBits nPowTargetSpacing : Z) : option Z :=
  let '(r, sign) :=
    if CompareTo to_work from_work >? 0 then (base_uint_sub to_work from_work, 1)
    else (base_uint_sub from_work to_work, -1) in
  proof ← GetBlockProof tip_nBits;
  r ← base_uint_div (base_uint_mul r (base_uint_of_u64 nPowTargetSpacing)) proof;
  if base_uint_bits r >? 63 then Some (sign * (2 ^ 63 - 1))
  else Some (i64 (u64 (sign * GetLow64 r))).

(** * The tree invariant *)

(** Following [pprev] [k] times: the reference for every walk. *)
Fixpoint ancestor (m : BlockMap) (k : nat) (p : uint256) : option uint256 :=
  match k with
  | O => Some p
  | S k => n ← m !! p; q ← bi_pprev n; ancestor m k q
  end.

(** An entry without a parent has height zero and no skip pointer; an entry with a
    parent is one above it, and its skip pointer, if any, is its ancestor at the
    skip height. *)
Definition node_ok (m : BlockMap) (p : uint256) (n : CBlockIndex) : Prop :=
  0 <= bi_nHeight n /\
  match bi_pprev n with
  | None => bi_nHeight n = 0 /\ bi_pskip n = None
  | Some q =>
      (exists nq, m !! q = Some nq /\ bi_nHeight n = bi_nHeight nq + 1) /\
      forall s, bi_pskip n = Some s ->
        ancestor m (Z.to_nat (bi_nHeight n - GetSkipHeight (bi_nHeight n))) p = Some s
  end.

Definition index_ok (m : BlockMap) : Prop := forall p n, m !! p = Some n -> node_ok m p n.

Lemma land_le_r x y : 0 <= y -> Z.land x y <= y.
Proof.
  intros Hy. pose proof (Z.sub_nocarry_ldiff y (Z.land x y)) as H.
  assert (Z.ldiff (Z.land x y) y = 0) as E.
  { apply Z.bits_inj'. intros i Hi. rewrite Z.ldiff_spec, Z.land_spec, Z.bits_0.
    by destruct (Z.testbit x i), (Z.testbit y i). }
  specialize (H E). pose proof (Z.ldiff_nonneg y (Z.land x y)). lia.
Qed.

Lemma InvertLowestOne_bounds n : 0 < n -> 0 <= InvertLowestOne n < n.
Proof.
  intros Hn. unfold InvertLowestOne. pose proof (land_le_r n (n - 1) ltac:(lia)).
  pose proof (Z.land_nonneg n (n - 1)). lia.
Qed.

Lemma InvertLowestOne_0 : InvertLowestOne 0 = 0.
Proof. done. Qed.

Lemma GetSkipHeight_bounds h : 0 < h -> 0 <= GetSkipHeight h < h.
Proof.
  intros Hh. unfold GetSkipHeight. destruct (Z.ltb_spec h 2); [lia|].
  destruct (negb _); [|apply InvertLowestOne_bounds; lia].
  pose proof (InvertLowestOne_bounds (h - 1) ltac:(lia)) as H1.
  destruct (Z.eq_dec (InvertLowestOne (h - 1)) 0) as [->|]; [rewrite InvertLowestOne_0; lia|].
  pose proof (InvertLowestOne_bounds (InvertLowestOne (h - 1)) ltac:(lia)). lia.
Qed.

Lemma ancestor_add m a b p : ancestor m (a + b) p = q ← ancestor m a p; ancestor m b q.
Proof.
  revert p. induction a as [|a IH]; intros p; [done|]. cbn [ancestor Nat.add].
  destruct (m !! p) as [n|]; [|done]. simpl. destruct (bi_pprev n) as [q|]; [|done]. simpl. apply IH.
Qed.

Section tree.
Context (m : BlockMap) (Hok : index_ok m).

Lemma parent_ok p n q : m !! p = Some n -> bi_pprev n = Some q ->
  exists nq, m !! q = Some nq /\ bi_nHeight n = bi_nHeight nq + 1.
Proof. intros Hp Hq. pose proof (Hok p n Hp) as [_ H]. rewrite Hq in H. apply H. Qed.

Lemma height_nonneg p n : m !! p = Some n -> 0 <= bi_nHeight n.
Proof. intros Hp. apply (Hok p n Hp). Qed.

Lemma parent_exists p n : m !! p = Some n -> 0 < bi_nHeight n -> exists q, bi_pprev n = Some q.
Proof.
  intros Hp Hh. pose proof (Hok p n Hp) as [_ H]. destruct (bi_pprev n) as [q|]; [by exists q|lia].
Qed.

Lemma root_height p n : m !! p = Some n -> bi_pprev n = None <-> bi_nHeight n = 0.
Proof.
  intros Hp. pose proof (Hok p n Hp) as [_ H]. destruct (bi_pprev n) as [q|].
  - destruct H as [(nq & Hq & E) _]. pose proof (height_nonneg q nq Hq). split; [done|lia].
  - split; [intros _; apply H|done].
Qed.

(** Every height up to that of an entry has exactly one ancestor of the entry. *)
Lemma ancestor_height k p n :
  m !! p = Some n -> Z.of_nat k <= bi_nHeight n ->
  exists q nq, ancestor m k p = Some q /\ m !! q = Some nq /\ bi_nHeight nq = bi_nHeight n - Z.of_nat k.
Proof.
  revert p n. induction k as [|k IH]; intros p n Hp Hk.
  - exists p, n. split_and!; [done..|lia].
  - destruct (parent_exists p n Hp ltac:(lia)) as [q Hq].
    destruct (parent_ok p n q Hp Hq) as (nq & Hnq & Eh).
    destruct (IH q nq Hnq ltac:(lia)) as (r & nr & H1 & H2 & H3).
    exists r, nr. cbn [ancestor]. rewrite Hp. simpl. rewrite Hq. simpl. split_and!; [done..|lia].
Qed.

Lemma ancestor_inv k p n q :
  m !! p = Some n -> ancestor m k p = Some q ->
  exists nq, m !! q = Some nq /\ bi_nHeight nq = bi_nHeight n - Z.of_nat k.
Proof.
  revert p n. induction k as [|k IH]; intros p n Hp; cbn [ancestor].
  - intros [= <-]. exists n. split; [done|lia].
  - rewrite Hp. simpl. destruct (bi_pprev n) as [r|] eqn:Hr; [|done]. simpl. intros Ha.
    destruct (parent_ok p n r Hp Hr) as (nr & Hnr & Eh).
    destruct (IH r nr Hnr Ha) as (nq & H1 & H2). exists nq. split; [done|lia].
Qed.

Lemma GetAncestor_loop_spec fuel p n h :
  m !! p = Some n -> 0 <= h <= bi_nHeight n -> bi_nHeight n - h < Z.of_nat fuel ->
  GetAncestor_loop fuel m p (bi_nHeight n) h = ancestor m (Z.to_nat (bi_nHeight n - h)) p.
Proof.
  revert p n. induction fuel as [|fuel IH]; intros p n Hp Hh Hf; [lia|].
  cbn [GetAncestor_loop]. destruct (Z.gtb_spec (bi_nHeight n) h) as [Hgt|Hle].
  2: { replace (Z.to_nat (bi_nHeight n - h)) with 0%nat by lia. done. }
  rewrite Hp. simpl. destruct (parent_exists p n Hp ltac:(lia)) as [q Hq].
  destruct (parent_ok p n q Hp Hq) as (nq & Hnq & Eh).
  assert ((pprev ← bi_pprev n; GetAncestor_loop fuel m pprev (bi_nHeight n - 1) h) =
          ancestor m (Z.to_nat (bi_nHeight n - h)) p) as Hprev.
  { rewrite Hq. simpl. replace (bi_nHeight n - 1) with (bi_nHeight nq) by lia. rewrite IH by (done || lia).
    replace (Z.to_nat (bi_nHeight n - h)) with (S (Z.to_nat (bi_nHeight nq - h))) by lia.
    cbn [ancestor]. rewrite Hp. simpl. by rewrite Hq. }
  pose proof (Hok p n Hp) as [_ Hn]. rewrite Hq in Hn. destruct Hn as [_ Hskip].
  destruct (bi_pskip n) as [s|]; [|exact Hprev].
  destruct (follow_skip (bi_nHeight n) h) eqn:Ef; [|exact Hprev].
  specialize (Hskip s eq_refl). pose proof (GetSkipHeight_bounds (bi_nHeight n) ltac:(lia)) as Hs.
  assert (h <= GetSkipHeight (bi_nHeight n)) as Hhs.
  { unfold follow_skip in Ef. apply orb_true_iff in Ef as [Ef|Ef]; zbool; lia. }
  destruct (ancestor_inv _ p n s Hp Hskip) as (ns & Hns & Ens).
  replace (GetSkipHeight (bi_nHeight n)) with (bi_nHeight ns) by lia. rewrite IH by (done || lia).
  replace (Z.to_nat (bi_nHeight n - h)) with
    (Z.to_nat (bi_nHeight n - GetSkipHeight (bi_nHeight n)) + Z.to_nat (bi_nHeight ns - h))%nat by lia.
  rewrite ancestor_add, Hskip. done.
Qed.

Lemma GetAncestor_spec p n h :
  m !! p = Some n ->
  GetAncestor m p h =
  if (0 <=? h) && (h <=? bi_nHeight n) then Some (ancestor m (Z.to_nat (bi_nHeight n - h)) p) else Some None.
Proof.
  intros Hp. unfold GetAncestor. rewrite Hp. cbn [mbind option_bind]. pose proof (height_nonneg p n Hp).
  destruct (Z.gtb_spec h (bi_nHeight n)), (Z.ltb_spec h 0), (Z.leb_spec 0 h), (Z.leb_spec h (bi_nHeight n));
    try lia; try done. cbn [orb andb]. rewrite GetAncestor_loop_spec by (done || lia).
  destruct (ancestor_height (Z.to_nat (bi_nHeight n - h)) p n Hp ltac:(lia)) as (q & nq & -> & _). done.
Qed.

End tree.

(** ** Work *)

Lemma compact_dec_max m size :
  0 <= m < 2 ^ 23 -> 0 <= size -> compact_dec m size < 2 ^ 256 -> compact_dec m size <= 2 ^ 256 - 2.
Proof.
  intros Hm Hs Hlt. unfold compact_dec in *. destruct (Z.le_gt_cases size 3) as [Hle|Hgt].
  - assert (m * 256 ^ size / 256 ^ 3 <= m); [|lia].
    apply Z.div_le_upper_bound; [lia|]. rewrite Z.mul_comm. apply Z.mul_le_mono_nonneg_r; [lia|].
    apply Z.pow_le_mono_r; lia.
  - assert (m * 256 ^ size / 256 ^ 3 = m * 256 ^ (size - 4) * 256) as E.
    { replace (256 ^ size) with (256 ^ (size - 4) * 256 ^ 4) by (rewrite <- Z.pow_add_r by lia; f_equal; lia).
      change (256 ^ 4) with (256 * 256 ^ 3). rewrite !Z.mul_assoc, Z.div_mul by lia. done. }
    rewrite E in *. change (2 ^ 256) with (2 ^ 248 * 256) in *. lia.
Qed.

Lemma wf256_of_u64 b : uint_range 64 b -> wf256 (base_uint_of_u64 b) /\ uval (base_uint_of_u64 b) = b.
Proof. intros H. destruct (uval_of_u64 b H) as [U1 U2]. by split; [split|]. Qed.

Lemma wf256_not a : wf256 a -> wf256 (base_uint_not a) /\ uval (base_uint_not a) = 2 ^ 256 - 1 - uval a.
Proof.
  intros [Ha Hl]. destruct (base_uint_not_spec a Ha) as [N1 N2]. rewrite (modulus_256 a ltac:(by split)) in N2.
  split; [split; [done|]|done]. by rewrite length_base_uint_not.
Qed.

Lemma wf256_add a b : wf256 a -> wf256 b ->
  wf256 (base_uint_add a b) /\ uval (base_uint_add a b) = (uval a + uval b) mod 2 ^ 256.
Proof.
  intros Wa Wb. pose proof Wa as [Ha La]. pose proof Wb as [Hb Lb].
  destruct (base_uint_add_spec a b Ha Hb ltac:(congruence)) as (H1 & H2 & H3).
  rewrite (modulus_256 a Wa) in H3. split; [split; [done|congruence]|done].
Qed.

Definition target_valid (nBits : Z) : option Z :=
  let '(t, neg, ovf) := SetCompact nBits in
  if neg || ovf || (uval t =? 0) then None else Some (uval t).

(** The expected number of hashes of a target. *)
Definition proof_of (nBits : Z) : Z :=
  match target_valid nBits with None => 0 | Some t => 2 ^ 256 / (t + 1) end.

Lemma GetBlockProof_val nBits :
  uint_range 32 nBits ->
  exists w, GetBlockProof nBits = Some w /\ wf256 w /\ uval w = proof_of nBits.
Proof.
  intros Hb. unfold GetBlockProof, proof_of, target_valid. pose proof (SetCompact_spec nBits Hb) as S.
  destruct (SetCompact nBits) as [[t neg] ovf]. destruct S as (Wt & Ut & Eo & _).
  rewrite EqualTo_spec by (done || apply Wt). pose proof (wf256_range t Wt) as Rt.
  destruct (neg || ovf || (uval t =? 0)) eqn:E.
  { destruct (wf256_of_u64 0 ltac:(done)) as [W0 U0]. by exists (base_uint_of_u64 0). }
  apply orb_false_iff in E as [E E0]. apply orb_false_iff in E as [_ Eovf]. apply Z.eqb_neq in E0.
  rewrite Eovf in Eo. symmetry in Eo. apply Z.leb_gt in Eo.
  destruct (compact_fields nBits Hb) as (_ & _ & Hs). pose proof (Z.mod_pos_bound nBits (2 ^ 23) ltac:(lia)) as Hm.
  pose proof (compact_dec_max _ (nBits / 2 ^ 24) Hm ltac:(lia) Eo) as Hmax.
  assert (uval t <= 2 ^ 256 - 2).
  { rewrite Ut in *. destruct (Z.lt_ge_cases (compact_dec (nBits mod 2 ^ 23) (nBits / 2 ^ 24)) 0).
    - unfold compact_dec in *. assert (0 <= nBits mod 2 ^ 23 * 256 ^ (nBits / 2 ^ 24) / 256 ^ 3); [|lia].
      apply Z.div_pos; [|lia]. apply Z.mul_nonneg_nonneg; [lia|apply Z.pow_nonneg; lia].
    - rewrite Z.mod_small by lia. lia. }
  destruct (wf256_of_u64 1 ltac:(done)) as [W1 U1].
  destruct (wf256_not t Wt) as [Wn Un]. destruct (wf256_add t _ Wt W1) as [Wp Up].
  rewrite U1, Z.mod_small in Up by lia.
  pose proof (base_uint_div_spec _ _ (proj1 Wn) (proj1 Wp) ltac:(rewrite (proj2 Wn), (proj2 Wp); done)) as D.
  rewrite Up in D. rewrite (proj2 (Z.eqb_neq _ _)) in D by lia. destruct D as (q & -> & Hq & Lq & Uq).
  assert (wf256 q) as Wq by (split; [done|by rewrite Lq, (proj2 Wn)]).
  cbn [mbind option_bind]. destruct (wf256_add q _ Wq W1) as [Ws Us]. eexists. split; [done|]. split; [done|].
  rewrite Us, Uq, U1, Un. replace (2 ^ 256 - 1 - uval t) with (2 ^ 256 + (-1) * (uval t + 1)) by lia.
  rewrite Z.div_add by lia. rewrite Z.mod_small; [lia|].
  assert (2 ^ 256 / (uval t + 1) < 2 ^ 256) by (apply Z.div_lt; lia).
  assert (0 < 2 ^ 256 / (uval t + 1)) by (apply Z.div_str_pos; lia). lia.
Qed.

(** ** Adding a header *)

Lemma ancestor_insert m h x k p n :
  index_ok m -> m !! h = None -> m !! p = Some n -> ancestor (<[h := x]> m) k p = ancestor m k p.
Proof.
  intros Hok Hh. revert p n. induction k as [|k IH]; intros p n Hp; [done|]. cbn [ancestor].
  rewrite lookup_insert_ne, Hp by congruence. cbn [mbind option_bind].
  destruct (bi_pprev n) as [q|] eqn:Hq; [|done]. cbn [mbind option_bind].
  destruct (parent_ok m Hok p n q Hp Hq) as (nq & Hnq & _). by apply (IH q nq).
Qed.

(** A new leaf whose parent, if any, is already in the tree. *)
Lemma index_ok_insert m h n :
  index_ok m -> m !! h = None -> 0 <= bi_nHeight n ->
  match bi_pprev n with
  | None => bi_nHeight n = 0 /\ bi_pskip n = None
  | Some q =>
      exists nq, m !! q = Some nq /\ bi_nHeight n = bi_nHeight nq + 1 /\
      forall s, bi_pskip n = Some s ->
        ancestor m (Z.to_nat (bi_nHeight nq - GetSkipHeight (bi_nHeight n))) q = Some s
  end ->
  index_ok (<[h := n]> m).
Proof.
  intros Hok Hh Hn Hp p np. destruct (decide (p = h)) as [->|Hne].
  - rewrite lookup_insert_eq. intros [= <-]. split; [done|]. destruct (bi_pprev n) as [q|] eqn:Eq; [|done].
    destruct Hp as (nq & Hq & Eh & Hs). split.
    + exists nq. rewrite lookup_insert_ne by congruence. done.
    + intros s Es. pose proof (GetSkipHeight_bounds (bi_nHeight n)) as Hb.
      pose proof (height_nonneg m Hok q nq Hq).
      replace (Z.to_nat (bi_nHeight n - GetSkipHeight (bi_nHeight n)))
        with (S (Z.to_nat (bi_nHeight nq - GetSkipHeight (bi_nHeight n)))) by lia.
      cbn [ancestor]. rewrite lookup_insert_eq. cbn [mbind option_bind]. rewrite Eq. cbn [mbind option_bind].
      rewrite (ancestor_insert m h n _ q nq) by done. by apply Hs.
  - rewrite lookup_insert_ne by done. intros Hnp. destruct (Hok p np Hnp) as [H0 H1]. split; [done|].
    destruct (bi_pprev np) as [q|]; [|done]. destruct H1 as [(nq & Hq & Eh) Hs]. split.
    + exists nq. rewrite lookup_insert_ne by congruence. done.
    + intros s Es. rewrite (ancestor_insert m h n _ p np) by done. by apply Hs.
Qed.

Record index_inv (st : index_state) : Prop := {
  inv_index : index_ok (mapBlockIndex st);
  inv_work : forall p n, mapBlockIndex st !! p = Some n -> wf256 (bi_nChainWork n);
  inv_best :
    match pindexBestHeader st with
    | None => mapBlockIndex st = ∅
    | Some b =>
        exists nb, mapBlockIndex st !! b = Some nb /\
        forall p n, mapBlockIndex st !! p = Some n -> uval (bi_nChainWork n) <= uval (bi_nChainWork nb)
    end
}.

(** What the entry of a new header holds. *)
Definition entry_spec (m : BlockMap) (block : CBlockHeader) (n : CBlockIndex) : Prop :=
  bi_nVersion n = hdr_nVersion block /\ bi_hashMerkleRoot n = hashMerkleRoot block /\
  bi_nTime n = hdr_nTime block /\ bi_nBits n = hdr_nBits block /\ bi_nNonce n = hdr_nNonce block /\
  IsValid BLOCK_VALID_TREE n = Some true /\ bi_nTx n = 0 /\ bi_nChainTx n = 0 /\ bi_nStatus n = BLOCK_VALID_TREE /\
  match m !! hashPrevBlock block with
  | None =>
      bi_pprev n = None /\ bi_nHeight n = 0 /\ bi_nTimeMax n = hdr_nTime block /\
      uval (bi_nChainWork n) = proof_of (hdr_nBits block)
  | Some prev =>
      bi_pprev n = Some (hashPrevBlock block) /\ bi_nHeight n = bi_nHeight prev + 1 /\
      bi_nTimeMax n = Z.max (bi_nTimeMax prev) (hdr_nTime block) /\
      uval (bi_nChainWork n) = (uval (bi_nChainWork prev) + proof_of (hdr_nBits block)) mod 2 ^ 256
  end.

(** [BuildSkip] of the new entry never fails and finds the ancestor it means to. *)
Lemma BuildSkip_new m hash block prev n0 :
  index_ok m -> m !! hash = None -> m !! hashPrevBlock block = Some prev ->
  bi_pprev n0 = None -> bi_nHeight n0 = 0 -> bi_pskip n0 = None ->
  let n := set_prev (Some (hashPrevBlock block)) (bi_nHeight prev + 1) n0 in
  BuildSkip (<[hash := n0]> m) n =
  Some (set_skip (ancestor m (Z.to_nat (bi_nHeight prev - GetSkipHeight (bi_nHeight prev + 1))) (hashPrevBlock block)) n).
Proof.
  intros Hok Hh Hprev E1 E2 E3 n. unfold BuildSkip. cbn [n set_prev bi_pprev bi_nHeight].
  assert (index_ok (<[hash := n0]> m)) as Hok'.
  { apply index_ok_insert; [done..|lia|]. by rewrite E1. }
  rewrite (GetAncestor_spec _ Hok' _ prev) by (rewrite lookup_insert_ne by congruence; done).
  pose proof (height_nonneg m Hok _ prev Hprev). pose proof (GetSkipHeight_bounds (bi_nHeight prev + 1) ltac:(lia)).
  rewrite (proj2 (Z.leb_le _ _)), (proj2 (Z.leb_le _ _)) by lia. cbn [andb mbind option_bind].
  by rewrite (ancestor_insert m hash n0 _ _ prev).
Qed.

(** The entry as [AddToBlockIndex] stores it. *)
Definition new_entry (m : BlockMap) (block : CBlockHeader) (proof : base_uint) : CBlockIndex :=
  let n := CBlockIndex_of_header block in
  match m !! hashPrevBlock block with
  | Some prev =>
      set_status BLOCK_VALID_TREE (set_work (Z.max (bi_nTimeMax prev) (hdr_nTime block))
        (base_uint_add (bi_nChainWork prev) proof)
        (set_skip (ancestor m (Z.to_nat (bi_nHeight prev - GetSkipHeight (bi_nHeight prev + 1))) (hashPrevBlock block))
          (set_prev (Some (hashPrevBlock block)) (bi_nHeight prev + 1) n)))
  | None =>
      set_status BLOCK_VALID_TREE (set_work (hdr_nTime block) (base_uint_add (base_uint_of_u64 0) proof) n)
  end.

Lemma RaiseValidity_fresh n :
  bi_nStatus n = 0 -> RaiseValidity BLOCK_VALID_TREE n = Some (set_status BLOCK_VALID_TREE n, true).
Proof. intros E. unfold RaiseValidity. by rewrite E. Qed.

Lemma AddToBlockIndex_eq st block proof :
  index_ok (mapBlockIndex st) -> mapBlockIndex st !! CBlockHeader_GetHash block = None ->
  hashPrevBlock block <> CBlockHeader_GetHash block -> GetBlockProof (hdr_nBits block) = Some proof ->
  AddToBlockIndex st block =
  (let hash := CBlockHeader_GetHash block in
   let n := new_entry (mapBlockIndex st) block proof in
   let m := <[hash := n]> (mapBlockIndex st) in
   best ← match pindexBestHeader st with
          | None => Some (Some hash)
          | Some b =>
              bn ← m !! b;
              Some (if CompareTo (bi_nChainWork bn) (bi_nChainWork n) <? 0 then Some hash else Some b)
          end;
   Some (mkIndexState m best ({[hash]} ∪ setDirtyBlockIndex st), hash)).
Proof.
  intros Hok Hh Hne Hp. unfold AddToBlockIndex. rewrite Hh. unfold new_entry.
  set (hash := CBlockHeader_GetHash block) in *. set (n0 := CBlockIndex_of_header block).
  rewrite lookup_insert_ne by done. destruct (mapBlockIndex st !! hashPrevBlock block) as [prev|] eqn:Hprev.
  - rewrite (BuildSkip_new _ hash block prev n0) by done. cbn [mbind option_bind].
    cbn [set_skip set_prev bi_pprev bi_nBits mbind option_bind]. rewrite lookup_insert_ne, Hprev by done. cbn [mbind option_bind].
    change (bi_nBits n0) with (hdr_nBits block). rewrite Hp. cbn [mbind option_bind].
    rewrite RaiseValidity_fresh by reflexivity. cbn [mbind option_bind]. rewrite insert_insert_eq. reflexivity.
  - cbn [mbind option_bind]. change (bi_nBits n0) with (hdr_nBits block). rewrite Hp. cbn [mbind option_bind].
    change (bi_pprev n0) with (@None (list byte)). cbn [mbind option_bind].
    rewrite RaiseValidity_fresh by reflexivity. cbn [mbind option_bind]. rewrite insert_insert_eq. reflexivity.
Qed.

Lemma new_entry_spec m block proof :
  (forall p n, m !! p = Some n -> wf256 (bi_nChainWork n)) ->
  wf256 proof -> uval proof = proof_of (hdr_nBits block) ->
  wf256 (bi_nChainWork (new_entry m block proof)) /\ entry_spec m block (new_entry m block proof).
Proof.
  intros Hw Wp Ep. unfold entry_spec, new_entry.
  destruct (m !! hashPrevBlock block) as [prev|] eqn:Hprev.
  - destruct (wf256_add (bi_nChainWork prev) proof (Hw _ _ Hprev) Wp) as [Ws Us].
    split; [exact Ws|]. split_and!; try reflexivity. rewrite <- Ep. exact Us.
  - destruct (wf256_of_u64 0 ltac:(done)) as [W0 U0]. destruct (wf256_add _ proof W0 Wp) as [Ws Us].
    split; [exact Ws|]. split_and!; try reflexivity. cbn [set_status set_work bi_nChainWork].
    rewrite Us, U0, Z.add_0_l, Z.mod_small by (by apply wf256_range). exact Ep.
Qed.

Lemma new_entry_index_ok m block proof :
  index_ok m -> m !! CBlockHeader_GetHash block = None ->
  index_ok (<[CBlockHeader_GetHash block := new_entry m block proof]> m).
Proof.
  intros Hok Hh. unfold new_entry. destruct (m !! hashPrevBlock block) as [prev|] eqn:Hprev.
  - pose proof (height_nonneg m Hok _ prev Hprev). apply index_ok_insert; [done..|cbn; lia|].
    cbn [set_status set_work set_skip set_prev bi_pprev bi_pskip bi_nHeight]. exists prev. split_and!; done.
  - by apply index_ok_insert.
Qed.

(** The better of the old best header and the new one. *)
Lemma best_insert (m : BlockMap) hash n b bn :
  m !! hash = None -> m !! b = Some bn -> wf256 (bi_nChainWork n) -> wf256 (bi_nChainWork bn) ->
  (forall p np, m !! p = Some np -> uval (bi_nChainWork np) <= uval (bi_nChainWork bn)) ->
  let best := if CompareTo (bi_nChainWork bn) (bi_nChainWork n) <? 0 then hash else b in
  exists nb, <[hash := n]> m !! best = Some nb /\
  forall p np, <[hash := n]> m !! p = Some np -> uval (bi_nChainWork np) <= uval (bi_nChainWork nb).
Proof.
  intros Hh Hb Wn Wb Hmax best.
  assert ((CompareTo (bi_nChainWork bn) (bi_nChainWork n) <? 0) = (uval (bi_nChainWork bn) <? uval (bi_nChainWork n))) as E.
  { rewrite CompareTo_spec by (apply Wn || apply Wb || (rewrite (proj2 Wn), (proj2 Wb); done)).
    unfold compare_sign. destruct (Z.compare_spec (uval (bi_nChainWork bn)) (uval (bi_nChainWork n)));
      destruct (Z.ltb_spec (uval (bi_nChainWork bn)) (uval (bi_nChainWork n))); try lia; done. }
  unfold best. rewrite E. destruct (Z.ltb_spec (uval (bi_nChainWork bn)) (uval (bi_nChainWork n))) as [Hlt|Hge].
  - exists n. rewrite lookup_insert_eq. split; [done|]. intros p np. destruct (decide (p = hash)) as [->|].
    + rewrite lookup_insert_eq. intros [= <-]. lia.
    + rewrite lookup_insert_ne by done. intros Hp. specialize (Hmax p np Hp). lia.
  - exists bn. rewrite lookup_insert_ne by congruence. split; [done|]. intros p np. destruct (decide (p = hash)) as [->|].
    + rewrite lookup_insert_eq. intros [= <-]. lia.
    + rewrite lookup_insert_ne by done. apply Hmax.
Qed.

Lemma AddToBlockIndex_new st block :
  index_inv st -> header_wf block -> hashPrevBlock block <> CBlockHeader_GetHash block ->
  mapBlockIndex st !! CBlockHeader_GetHash block = None ->
  exists st' n, AddToBlockIndex st block = Some (st', CBlockHeader_GetHash block) /\ index_inv st' /\
    mapBlockIndex st' = <[CBlockHeader_GetHash block := n]> (mapBlockIndex st) /\
    entry_spec (mapBlockIndex st) block n /\
    setDirtyBlockIndex st' = {[CBlockHeader_GetHash block]} ∪ setDirtyBlockIndex st.
Proof.
  intros [Hok Hw Hbest] Hwf Hne Hh. assert (uint_range 32 (hdr_nBits block)) as Hb by apply Hwf.
  destruct (GetBlockProof_val _ Hb) as (proof & Ep & Wp & Up).
  rewrite (AddToBlockIndex_eq st block proof Hok Hh Hne Ep). cbn zeta.
  destruct (new_entry_spec (mapBlockIndex st) block proof Hw Wp Up) as [Wn Hn].
  pose proof (new_entry_index_ok _ block proof Hok Hh) as Hok'.
  set (hash := CBlockHeader_GetHash block) in *. set (n := new_entry (mapBlockIndex st) block proof) in *.
  assert (forall p np, <[hash := n]> (mapBlockIndex st) !! p = Some np -> wf256 (bi_nChainWork np)) as Hw'.
  { intros p np. destruct (decide (p = hash)) as [->|].
    - rewrite lookup_insert_eq. by intros [= <-].
    - rewrite lookup_insert_ne by done. apply Hw. }
  destruct (pindexBestHeader st) as [b|] eqn:Eb.
  - destruct Hbest as (bn & Hbn & Hmax). rewrite lookup_insert_ne, Hbn by congruence. cbn [mbind option_bind].
    pose proof (best_insert _ hash n b bn Hh Hbn Wn (Hw _ _ Hbn) Hmax) as Hb'. cbn zeta in Hb'.
    eexists _, n. split; [reflexivity|]. split; [|done]. split; [done..|]. cbn [pindexBestHeader mapBlockIndex].
    destruct (CompareTo _ _ <? 0); exact Hb'.
  - cbn [mbind option_bind]. eexists _, n. split; [reflexivity|]. split; [|done]. split; [done..|].
    cbn [pindexBestHeader mapBlockIndex]. exists n. rewrite lookup_insert_eq. split; [done|]. rewrite Hbest.
    intros p np. destruct (decide (p = hash)) as [->|].
    + rewrite lookup_insert_eq. intros [= <-]. done.
    + rewrite lookup_insert_ne by done. by rewrite lookup_empty.
Qed.

(** ** The active chain as a branch of the tree *)

(** The ancestor at height [i], below or at [p]. *)
Definition at_height (m : BlockMap) (p : uint256) (n : CBlockIndex) (i : nat) : option uint256 :=
  ancestor m (Z.to_nat (bi_nHeight n) - i) p.

Definition branch (m : BlockMap) (p : uint256) (n : CBlockIndex) : CChain :=
  map (at_height m p n) (seq 0 (S (Z.to_nat (bi_nHeight n)))).

Definition chain_ok (m : BlockMap) (c : CChain) : Prop :=
  c = [] \/ exists t nt, m !! t = Some nt /\ c = branch m t nt.

Section chain.
Context (m : BlockMap) (Hok : index_ok m).

Lemma length_branch p n : length (branch m p n) = S (Z.to_nat (bi_nHeight n)).
Proof. unfold branch. by rewrite length_map, length_seq. Qed.

Lemma branch_lookup p n i :
  (i <= Z.to_nat (bi_nHeight n))%nat -> branch m p n !! i = Some (at_height m p n i).
Proof. intros Hi. unfold branch. rewrite list_lookup_fmap, lookup_seq_lt by lia. done. Qed.

Lemma at_height_spec p n i :
  m !! p = Some n -> (i <= Z.to_nat (bi_nHeight n))%nat ->
  exists q nq, at_height m p n i = Some q /\ m !! q = Some nq /\ bi_nHeight nq = Z.of_nat i.
Proof.
  intros Hp Hi. pose proof (height_nonneg m Hok p n Hp).
  destruct (ancestor_height m Hok (Z.to_nat (bi_nHeight n) - i) p n Hp ltac:(lia)) as (q & nq & H1 & H2 & H3).
  exists q, nq. split_and!; [done..|lia].
Qed.

Lemma at_height_self p n : m !! p = Some n -> at_height m p n (Z.to_nat (bi_nHeight n)) = Some p.
Proof. intros _. unfold at_height. by rewrite Nat.sub_diag. Qed.

(** Below a block of the branch, the branch is that block's own. *)
Lemma at_height_trans p n i q nq j :
  m !! p = Some n -> (i <= Z.to_nat (bi_nHeight n))%nat -> at_height m p n i = Some q -> m !! q = Some nq ->
  (j <= i)%nat -> at_height m q nq j = at_height m p n j.
Proof.
  intros Hp Hi Hq Hnq Hj. destruct (at_height_spec p n i Hp Hi) as (q' & nq' & E1 & E2 & E3).
  rewrite Hq in E1. injection E1 as <-. rewrite Hnq in E2. injection E2 as <-. unfold at_height in *.
  replace (Z.to_nat (bi_nHeight n) - j)%nat with (Z.to_nat (bi_nHeight n) - i + (Z.to_nat (bi_nHeight nq) - j))%nat by lia.
  rewrite ancestor_add, Hq. done.
Qed.

Lemma parent_at_height p n q nq i :
  m !! p = Some n -> (S i <= Z.to_nat (bi_nHeight n))%nat -> at_height m p n (S i) = Some q -> m !! q = Some nq ->
  bi_pprev nq = at_height m p n i.
Proof.
  intros Hp Hi Hq Hnq. rewrite <- (at_height_trans p n (S i) q nq i) by (done || lia).
  destruct (at_height_spec p n (S i) Hp Hi) as (q' & nq' & E1 & E2 & E3).
  rewrite Hq in E1. injection E1 as <-. rewrite Hnq in E2. injection E2 as <-. unfold at_height.
  replace (Z.to_nat (bi_nHeight nq) - i)%nat with 1%nat by lia. cbn [ancestor]. rewrite Hnq. cbn [mbind option_bind].
  by destruct (bi_pprev nq).
Qed.

(** ** SetTip *)

(** What the vector holds before the loop: nothing, or consistent branches. *)
Definition base_ok (base : nat -> option uint256) : Prop :=
  forall i q nq, base i = Some q -> m !! q = Some nq -> bi_nHeight nq = Z.of_nat i ->
    forall j, (j <= i)%nat -> base j = at_height m q nq j.

Lemma map_seq_update {A} (f g : nat -> A) W k v :
  (k < W)%nat -> g k = v -> (forall i, (i < W)%nat -> i <> k -> f i = g i) ->
  <[k := v]> (map f (seq 0 W)) = map g (seq 0 W).
Proof.
  intros Hk Hv H. apply list_eq. intros i. destruct (decide (i = k)) as [->|Hne].
  - rewrite list_lookup_insert_eq by (rewrite length_map, length_seq; lia).
    rewrite list_lookup_fmap, lookup_seq_lt by done. simpl. by rewrite Hv.
  - rewrite list_lookup_insert_ne, !list_lookup_fmap by done.
    destruct (decide (i < W)%nat) as [Hi|Hi].
    + rewrite lookup_seq_lt by done. simpl. by rewrite H.
    + rewrite lookup_ge_None_2 by (rewrite length_seq; lia). done.
Qed.

Lemma SetTip_loop_spec base p n k fuel :
  base_ok base -> m !! p = Some n -> (k <= S (Z.to_nat (bi_nHeight n)))%nat -> (k <= fuel)%nat ->
  SetTip_loop fuel m
    (map (fun i => if (i <? k)%nat then base i else at_height m p n i) (seq 0 (S (Z.to_nat (bi_nHeight n)))))
    (match k with O => None | S j => at_height m p n j end) = Some (branch m p n).
Proof.
  intros Hb Hp. revert k. induction fuel as [|fuel IH]; intros k Hk Hf.
  { replace k with O by lia. done. }
  destruct k as [|j]; [done|].
  destruct (at_height_spec p n j Hp ltac:(lia)) as (q & nq & Eq & Hq & Hh). rewrite Eq.
  cbn [SetTip_loop]. rewrite Hq. cbn [mbind option_bind]. rewrite Hh.
  rewrite (proj2 (Z.ltb_ge _ _)), Nat2Z.id by lia.
  rewrite list_lookup_fmap, lookup_seq_lt by lia. cbn [fmap option_fmap option_map Nat.add mbind option_bind].
  rewrite (proj2 (Nat.ltb_lt _ _)) by lia. destruct (bool_decide (base j = Some q)) eqn:E.
  - apply bool_decide_eq_true in E. f_equal. apply map_ext_in. intros i [_ Hi]%in_seq.
    destruct (Nat.ltb_spec i (S j)); [|done]. rewrite (Hb j q nq E Hq Hh i) by lia.
    apply (at_height_trans p n j q nq i); (done || lia).
  - rewrite (map_seq_update _ (fun i => if (i <? j)%nat then base i else at_height m p n i)).
    + rewrite <- (IH j) by lia. f_equal. destruct j as [|i]; [by apply (root_height m Hok q nq)|].
      apply (parent_at_height p n q nq); (done || lia).
    + lia.
    + by rewrite (proj2 (Nat.ltb_ge j j)) by lia.
    + intros i Hi Hne. destruct (Nat.ltb_spec i (S j)), (Nat.ltb_spec i j); try lia; done.
Qed.

Lemma base_ok_branch t nt W :
  m !! t = Some nt ->
  base_ok (fun i => if (i <? S (Z.to_nat (bi_nHeight nt)))%nat && (i <? W)%nat then at_height m t nt i else None).
Proof.
  intros Ht i q nq Hi Hq Hh j Hj. destruct (Nat.ltb_spec i (S (Z.to_nat (bi_nHeight nt)))), (Nat.ltb_spec i W);
    cbn [andb] in Hi; try done. rewrite !(proj2 (Nat.ltb_lt j _)) by lia. cbn [andb].
  symmetry. apply (at_height_trans t nt i q nq j); (done || lia).
Qed.

Lemma resize_branch t nt W :
  resize W None (branch m t nt) =
  map (fun i => if (i <? S (Z.to_nat (bi_nHeight nt)))%nat && (i <? W)%nat then at_height m t nt i else None) (seq 0 W).
Proof.
  apply list_eq. intros i. rewrite list_lookup_fmap. destruct (decide (i < W)%nat) as [Hi|Hi].
  - rewrite lookup_seq_lt by done. cbn [fmap option_fmap option_map Nat.add]. rewrite (proj2 (Nat.ltb_lt i W)) by done.
    destruct (Nat.ltb_spec i (S (Z.to_nat (bi_nHeight nt)))) as [H|H]; cbn [andb].
    + rewrite lookup_resize by (rewrite ?length_branch; lia). apply branch_lookup. lia.
    + apply lookup_resize_new; rewrite ?length_branch; lia.
  - rewrite lookup_resize_old, lookup_ge_None_2 by (rewrite ?length_seq; lia). done.
Qed.

Lemma SetTip_spec c p n :
  chain_ok m c -> m !! p = Some n -> CChain_SetTip m c (Some p) = Some (branch m p n).
Proof.
  intros Hc Hp. unfold CChain_SetTip. rewrite Hp. cbn [mbind option_bind].
  pose proof (height_nonneg m Hok p n Hp). replace (Z.to_nat (bi_nHeight n + 1)) with (S (Z.to_nat (bi_nHeight n))) by lia.
  set (W := S (Z.to_nat (bi_nHeight n))).
  assert (exists base, base_ok base /\ resize W None c = map base (seq 0 W)) as (base & Hb & ->).
  { destruct Hc as [->|(t & nt & Ht & ->)].
    - exists (fun _ => None). split; [by intros ? ? ? ?|]. rewrite resize_nil. apply list_eq. intros i.
      rewrite list_lookup_fmap. destruct (decide (i < W)%nat).
      + by rewrite lookup_replicate_2, lookup_seq_lt by done.
      + by rewrite !lookup_ge_None_2 by (rewrite ?length_seq, ?length_replicate; lia).
    - eexists. split; [apply (base_ok_branch t nt W Ht)|apply resize_branch]. }
  rewrite <- (SetTip_loop_spec base p n W W Hb Hp) by (unfold W; lia). unfold W. rewrite at_height_self by done.
  f_equal. apply map_ext_in. intros i [_ Hi]%in_seq. by rewrite (proj2 (Nat.ltb_lt _ _)) by lia.
Qed.
End chain.

(** ** Forks *)

Section fork.
Context (m : BlockMap) (Hok : index_ok m).

(** [r] is the first block of the branch below [p] that the chain contains. *)
Definition fork_of (c : CChain) (p : uint256) (r : option uint256) : Prop :=
  match r with
  | Some f =>
      exists k, ancestor m k p = Some f /\ CChain_Contains m c f = Some true /\
      forall k' q, (k' < k)%nat -> ancestor m k' p = Some q -> CChain_Contains m c q = Some false
  | None => forall k q, ancestor m k p = Some q -> CChain_Contains m c q = Some false
  end.

Lemma Contains_total c p n : m !! p = Some n -> exists b, CChain_Contains m c p = Some b.
Proof. intros Hp. unfold CChain_Contains. rewrite Hp. by eexists. Qed.

Lemma Contains_above c p n : m !! p = Some n -> CChain_Height c < bi_nHeight n -> CChain_Contains m c p = Some false.
Proof.
  intros Hp Hh. unfold CChain_Contains, CChain_at, CChain_Height in *. rewrite Hp. cbn [mbind option_bind].
  destruct (Z.geb_spec (bi_nHeight n) (Zlength c)); [|lia]. by rewrite orb_true_r.
Qed.

Lemma fork_step c p n q r :
  m !! p = Some n -> bi_pprev n = Some q -> CChain_Contains m c p = Some false -> fork_of c q r -> fork_of c p r.
Proof.
  intros Hp Hq Hc. assert (forall k, ancestor m (S k) p = ancestor m k q) as E.
  { intros k. cbn [ancestor]. rewrite Hp. cbn [mbind option_bind]. by rewrite Hq. }
  destruct r as [f|]; cbn [fork_of].
  - intros (k & H1 & H2 & H3). exists (S k). rewrite E. split_and!; [done..|].
    intros [|k'] x Hk; [by intros [= <-]|]. rewrite E. apply H3. lia.
  - intros H [|k] x; [by intros [= <-]|]. rewrite E. apply H.
Qed.

Lemma fork_root c p n :
  m !! p = Some n -> bi_pprev n = None -> CChain_Contains m c p = Some false -> fork_of c p None.
Proof.
  intros Hp Hq Hc [|k] q; [by intros [= <-]|]. cbn [ancestor]. rewrite Hp. cbn [mbind option_bind]. by rewrite Hq.
Qed.

Lemma FindFork_loop_spec c fuel p n :
  m !! p = Some n -> bi_nHeight n + 1 < Z.of_nat fuel ->
  exists r, FindFork_loop fuel m c (Some p) = Some r /\ fork_of c p r.
Proof.
  revert p n. induction fuel as [|fuel IH]; intros p n Hp Hf.
  { pose proof (height_nonneg m Hok p n Hp). lia. }
  cbn [FindFork_loop]. destruct (Contains_total c p n Hp) as [[] Hb]; rewrite Hb; cbn [mbind option_bind].
  - exists (Some p). split; [done|]. exists O. split_and!; [done..|]. intros; lia.
  - rewrite Hp. cbn [mbind option_bind]. destruct (bi_pprev n) as [q|] eqn:Hq.
    + destruct (parent_ok m Hok p n q Hp Hq) as (nq & Hnq & Eh).
      destruct (IH q nq Hnq ltac:(lia)) as (r & H1 & H2). exists r. split; [done|]. by apply (fork_step c p n q).
    + exists None. split; [by destruct fuel|]. by apply (fork_root c p n).
Qed.

(** Jumping to the height of the chain skips only blocks it cannot contain. *)
Lemma fork_jump c p n k q r :
  m !! p = Some n -> ancestor m k p = Some q -> Z.of_nat k <= bi_nHeight n - CChain_Height c ->
  fork_of c q r -> fork_of c p r.
Proof.
  intros Hp. revert p n Hp. induction k as [|k IH]; intros p n Hp Hq Hk Hr; [by injection Hq as <-|].
  cbn [ancestor] in Hq. rewrite Hp in Hq. cbn [mbind option_bind] in Hq.
  destruct (bi_pprev n) as [x|] eqn:Hx; [|done]. cbn [mbind option_bind] in Hq.
  destruct (parent_ok m Hok p n x Hp Hx) as (nx & Hnx & Eh).
  apply (fork_step c p n x); [done..|apply (Contains_above c p n Hp); lia|].
  apply (IH x nx); (done || lia).
Qed.

Lemma FindFork_spec c p n :
  m !! p = Some n -> exists r, CChain_FindFork m c (Some p) = Some r /\ fork_of c p r.
Proof.
  intros Hp. unfold CChain_FindFork. rewrite Hp. cbn [mbind option_bind].
  pose proof (height_nonneg m Hok p n Hp). pose proof (Zlength_nonneg c).
  destruct (Z.gtb_spec (bi_nHeight n) (CChain_Height c)) as [Hgt|Hle].
  - rewrite (GetAncestor_spec m Hok p n _ Hp). rewrite (proj2 (Z.leb_le _ (bi_nHeight n))) by lia. rewrite andb_true_r.
    destruct (Z.leb_spec 0 (CChain_Height c)) as [Hc|Hc].
    + destruct (ancestor_height m Hok (Z.to_nat (bi_nHeight n - CChain_Height c)) p n Hp ltac:(lia)) as (q & nq & Eq & Hq & Hh).
      rewrite Eq. cbn [mbind option_bind].
      destruct (FindFork_loop_spec c (S (Z.to_nat (bi_nHeight n + 1))) q nq Hq ltac:(lia)) as (r & H1 & H2).
      exists r. split; [done|]. apply (fork_jump c p n (Z.to_nat (bi_nHeight n - CChain_Height c)) q); (done || lia).
    + cbn [mbind option_bind]. exists None. split; [done|]. intros k q Hq.
      destruct (ancestor_inv m Hok k p n q Hp Hq) as (nq & Hnq & _).
      apply (Contains_above c q nq Hnq). pose proof (height_nonneg m Hok q nq Hnq). lia.
  - cbn [mbind option_bind]. apply (FindFork_loop_spec c _ p n Hp). lia.
Qed.

(** ** The last common ancestor *)

(** The first step at which two walks from the same height meet. *)
Definition meet (a b : uint256) (r : option uint256) : Prop :=
  match r with
  | Some f =>
      exists k, ancestor m k a = Some f /\ ancestor m k b = Some f /\
      forall k', (k' < k)%nat -> ancestor m k' a <> ancestor m k' b
  | None => forall k q, ancestor m k a = Some q -> ancestor m k b <> Some q
  end.

Lemma LCA_loop_spec fuel a na b nb :
  m !! a = Some na -> m !! b = Some nb -> bi_nHeight na = bi_nHeight nb -> bi_nHeight na + 1 < Z.of_nat fuel ->
  exists r, LCA_loop fuel m (Some a) (Some b) = Some r /\ meet a b r.
Proof.
  revert a na b nb. induction fuel as [|fuel IH]; intros a na b nb Ha Hb Hh Hf.
  { pose proof (height_nonneg m Hok a na Ha). lia. }
  cbn [LCA_loop]. destruct (bool_decide (a = b)) eqn:E.
  { apply bool_decide_eq_true in E as <-. exists (Some a). split; [done|]. exists O. split_and!; [done..|]. intros; lia. }
  apply bool_decide_eq_false in E. rewrite Ha, Hb. cbn [mbind option_bind].
  assert (forall x nx y k, m !! x = Some nx -> bi_pprev nx = Some y -> ancestor m (S k) x = ancestor m k y) as G.
  { intros x nx y k Hx Hy. cbn [ancestor]. rewrite Hx. cbn [mbind option_bind]. by rewrite Hy. }
  pose proof (root_height m Hok a na Ha) as Ra. pose proof (root_height m Hok b nb Hb) as Rb.
  destruct (bi_pprev na) as [x|] eqn:Hx, (bi_pprev nb) as [y|] eqn:Hy.
  - destruct (parent_ok m Hok a na x Ha Hx) as (nx & Hnx & Ex). destruct (parent_ok m Hok b nb y Hb Hy) as (ny & Hny & Ey).
    destruct (IH x nx y ny Hnx Hny ltac:(lia) ltac:(lia)) as (r & H1 & H2). exists r. split; [done|].
    destruct r as [f|]; cbn [meet] in *.
    + destruct H2 as (k & K1 & K2 & K3). exists (S k). rewrite (G a na x), (G b nb y) by done. split_and!; [done..|].
      intros [|k'] Hk; [by intros [= ?]|]. rewrite (G a na x), (G b nb y) by done. apply K3. lia.
    + intros [|k] q; [by intros [= <-] [= ?]|]. rewrite (G a na x), (G b nb y) by done. apply H2.
  - exfalso. assert (bi_nHeight na = 0) by (rewrite Hh; by apply Rb). by apply Ra in H.
  - exfalso. assert (bi_nHeight nb = 0) by (rewrite <- Hh; by apply Ra). by apply Rb in H.
  - exists None. split; [by destruct fuel|]. intros [|k] q; [by intros [= <-] [= ?]|].
    cbn [ancestor]. rewrite Ha. cbn [mbind option_bind]. by rewrite Hx.
Qed.

(** The blocks two blocks descend from, and the highest of them. *)
Definition common_ancestor (pa pb q : uint256) : Prop :=
  (exists i, ancestor m i pa = Some q) /\ exists j, ancestor m j pb = Some q.

Definition last_common (pa pb : uint256) (r : option uint256) : Prop :=
  match r with
  | Some f =>
      common_ancestor pa pb f /\
      forall q, common_ancestor pa pb q -> exists k, ancestor m k f = Some q
  | None => forall q, ~ common_ancestor pa pb q
  end.

(** Aligning the deeper block first loses no common ancestor. *)
Lemma meet_last_common pa na pb nb i j a b h r :
  m !! pa = Some na -> m !! pb = Some nb ->
  ancestor m i pa = Some a -> ancestor m j pb = Some b ->
  bi_nHeight na - Z.of_nat i = h -> bi_nHeight nb - Z.of_nat j = h ->
  h = Z.min (bi_nHeight na) (bi_nHeight nb) ->
  meet a b r -> last_common pa pb r.
Proof.
  intros Ha Hb Hi Hj Ei Ej Eh Hm.
  assert (forall q, common_ancestor pa pb q -> exists k, ancestor m k a = Some q /\ ancestor m k b = Some q) as Halign.
  { intros q [[i' Hi'] [j' Hj']].
    destruct (ancestor_inv m Hok i' pa na q Ha Hi') as (nq & Hq & Hqa).
    destruct (ancestor_inv m Hok j' pb nb q Hb Hj') as (nq' & Hq' & Hqb). rewrite Hq in Hq'. injection Hq' as <-.
    assert (i <= i')%nat by lia. exists (i' - i)%nat. split.
    - replace i' with (i + (i' - i))%nat in Hi' by lia. by rewrite ancestor_add, Hi in Hi'.
    - replace j' with (j + (i' - i))%nat in Hj' by lia. by rewrite ancestor_add, Hj in Hj'. }
  destruct r as [f|]; cbn [meet last_common] in *.
  - destruct Hm as (k & K1 & K2 & K3). split.
    + split; [exists (i + k)%nat|exists (j + k)%nat]; rewrite ancestor_add, ?Hi, ?Hj; done.
    + intros q (k' & Q1 & Q2)%Halign. destruct (decide (k' < k)%nat) as [Hlt|Hge].
      * exfalso. apply (K3 k' Hlt). congruence.
      * exists (k' - k)%nat. replace k' with (k + (k' - k))%nat in Q1 by lia. by rewrite ancestor_add, K1 in Q1.
  - intros q (k & Q1 & Q2)%Halign. by apply (Hm k q).
Qed.

Lemma LastCommonAncestor_spec pa na pb nb :
  m !! pa = Some na -> m !! pb = Some nb ->
  exists r, LastCommonAncestor m pa pb = Some r /\ last_common pa pb r.
Proof.
  intros Ha Hb. unfold LastCommonAncestor. rewrite Ha, Hb. cbn [mbind option_bind].
  pose proof (height_nonneg m Hok pa na Ha). pose proof (height_nonneg m Hok pb nb Hb).
  assert (forall p n h, m !! p = Some n -> 0 <= h <= bi_nHeight n ->
    exists q nq, GetAncestor m p h = Some (Some q) /\ m !! q = Some nq /\ bi_nHeight nq = h /\
      ancestor m (Z.to_nat (bi_nHeight n - h)) p = Some q) as G.
  { intros p n h Hp Hh. rewrite (GetAncestor_spec m Hok p n h Hp).
    rewrite (proj2 (Z.leb_le 0 h)), (proj2 (Z.leb_le h (bi_nHeight n))) by lia. cbn [andb].
    destruct (ancestor_height m Hok (Z.to_nat (bi_nHeight n - h)) p n Hp ltac:(lia)) as (q & nq & -> & Hq & Eq).
    exists q, nq. split_and!; [done..|lia|done]. }
  destruct (Z.gtb_spec (bi_nHeight na) (bi_nHeight nb)) as [Hgt|Hle].
  - destruct (G pa na (bi_nHeight nb) Ha ltac:(lia)) as (a & n' & -> & Hn' & Eh & Hanc). cbn [mbind option_bind].
    destruct (LCA_loop_spec (S (S (Z.to_nat (Z.min (bi_nHeight na) (bi_nHeight nb))))) a n' pb nb Hn' Hb ltac:(lia) ltac:(lia))
      as (r & H1 & H2). exists r. split; [done|].
    apply (meet_last_common pa na pb nb (Z.to_nat (bi_nHeight na - bi_nHeight nb)) 0 a pb (bi_nHeight nb)); (done || lia).
  - cbn [mbind option_bind]. destruct (Z.gtb_spec (bi_nHeight nb) (bi_nHeight na)) as [Hgt|Hle'].
    + destruct (G pb nb (bi_nHeight na) Hb ltac:(lia)) as (b & n' & -> & Hn' & Eh & Hanc). cbn [mbind option_bind].
      destruct (LCA_loop_spec (S (S (Z.to_nat (Z.min (bi_nHeight na) (bi_nHeight nb))))) pa na b n' Ha Hn' ltac:(lia) ltac:(lia))
        as (r & H1 & H2). exists r. split; [done|].
      apply (meet_last_common pa na pb nb 0 (Z.to_nat (bi_nHeight nb - bi_nHeight na)) pa b (bi_nHeight na)); (done || lia).
    + cbn [mbind option_bind].
      destruct (LCA_loop_spec (S (S (Z.to_nat (Z.min (bi_nHeight na) (bi_nHeight nb))))) pa na pb nb Ha Hb ltac:(lia) ltac:(lia))
        as (r & H1 & H2). exists r. split; [done|].
      apply (meet_last_common pa na pb nb 0 0 pa pb (bi_nHeight na)); (done || lia).
Qed.
End fork.

(** ** Locators *)

(** From [p] down to the root of its tree, each hash a strict ancestor of the one before. *)
Inductive locator (m : BlockMap) : uint256 -> list uint256 -> Prop :=
| locator_root p n : m !! p = Some n -> bi_nHeight n = 0 -> locator m p [p]
| locator_step p n q k l :
    m !! p = Some n -> ancestor m (S k) p = Some q -> locator m q l -> locator m p (p :: l).

Lemma Contains_at_height m c p n i :
  index_ok m -> chain_ok m c -> m !! p = Some n -> CChain_Contains m c p = Some true ->
  (i <= Z.to_nat (bi_nHeight n))%nat -> CChain_at c (Z.of_nat i) = at_height m p n i.
Proof.
  intros Hok Hc Hp Hcont Hi. unfold CChain_Contains in Hcont. rewrite Hp in Hcont. cbn [mbind option_bind] in Hcont.
  injection Hcont as Hcont. apply bool_decide_eq_true in Hcont. pose proof (height_nonneg m Hok p n Hp).
  unfold CChain_at in *. destruct Hc as [->|(t & nt & Ht & ->)]; [by destruct (_ || _)|].
  pose proof (height_nonneg m Hok t nt Ht). unfold Zlength in *. rewrite length_branch in *.
  destruct (Z.ltb_spec (bi_nHeight n) 0), (Z.geb_spec (bi_nHeight n) (Z.of_nat (S (Z.to_nat (bi_nHeight nt)))));
    try lia; try done. cbn [orb] in Hcont. rewrite branch_lookup in Hcont by lia. cbn [mjoin option_join] in Hcont.
  rewrite (proj2 (Z.ltb_ge _ _)) by lia.
  destruct (Z.geb_spec (Z.of_nat i) (Z.of_nat (S (Z.to_nat (bi_nHeight nt))))); [lia|]. cbn [orb].
  rewrite Nat2Z.id, branch_lookup by lia. cbn [mjoin option_join]. symmetry.
  apply (at_height_trans m Hok t nt (Z.to_nat (bi_nHeight n)) p n i); (done || lia).
Qed.

Lemma GetLocator_loop_spec m c fuel vHave nStep p n :
  index_ok m -> chain_ok m c -> m !! p = Some n -> 1 <= nStep -> bi_nHeight n < Z.of_nat fuel ->
  exists l, GetLocator_loop fuel m c vHave nStep (Some p) = Some (vHave ++ l) /\ locator m p l.
Proof.
  intros Hok Hc. revert vHave nStep p n. induction fuel as [|fuel IH]; intros vHave nStep p n Hp Hs Hf.
  { pose proof (height_nonneg m Hok p n Hp). lia. }
  pose proof (height_nonneg m Hok p n Hp).
  cbn [GetLocator_loop]. rewrite Hp. cbn [mbind option_bind]. destruct (Z.eqb_spec (bi_nHeight n) 0) as [E|E].
  { exists [p]. split; [done|]. by apply (locator_root m p n). }
  set (h := Z.max (bi_nHeight n - nStep) 0).
  destruct (ancestor_height m Hok (Z.to_nat (bi_nHeight n - h)) p n Hp ltac:(lia)) as (q & nq & Eq & Hq & Hh).
  destruct (Contains_total m c p n Hp) as [b Hb]. rewrite Hb. cbn [mbind option_bind].
  assert ((if b then Some (CChain_at c h) else GetAncestor m p h) = Some (Some q)) as ->.
  { destruct b.
    - replace h with (Z.of_nat (Z.to_nat h)) by lia. rewrite (Contains_at_height m c p n) by (done || lia).
      unfold at_height. rewrite <- Eq. do 2 f_equal. lia.
    - rewrite (GetAncestor_spec m Hok p n h Hp), (proj2 (Z.leb_le 0 h)), (proj2 (Z.leb_le h (bi_nHeight n))), Eq by lia.
      done. }
  cbn [mbind option_bind].
  destruct (IH (vHave ++ [p]) (if Zlength (vHave ++ [p]) >? 10 then nStep * 2 else nStep) q nq Hq) as (l & El & Hl);
    [case_if; lia|lia|].
  exists (p :: l). split; [by rewrite El, <- (assoc_L (++))|].
  apply (locator_step m p n q (Z.to_nat (bi_nHeight n - h) - 1) l Hp); [|done].
  rewrite <- Eq. f_equal. lia.
Qed.

(** * What the index and the chain promise *)

(** C27: on a well-formed index [GetAncestor] terminates, asserts nothing, and
    whatever mixture of skip and parent pointers it follows returns the block that
    following parents leads to at that height, or null exactly for a height that is
    negative or above the block. *)
Theorem GetAncestor_correct m p n height :
  index_ok m -> m !! p = Some n ->
  GetAncestor m p height =
  Some (if (0 <=? height) && (height <=? bi_nHeight n)
        then ancestor m (Z.to_nat (bi_nHeight n - height)) p else None).
Proof. intros Hok Hp. rewrite (GetAncestor_spec m Hok p n height Hp). by case_if. Qed.


(** The work of a block is the expected number of hashes [2^256 / (target + 1)],
    computed without the 257-bit number; it is zero exactly for targets that are
    negative, zero or overflow, and the division never throws. *)
Theorem GetBlockProof_correct nBits :
  uint_range 32 nBits ->
  exists w, GetBlockProof nBits = Some w /\ wf256 w /\
    uval w = match target_valid nBits with None => 0 | Some t => 2 ^ 256 / (t + 1) end.
Proof. intros H. exact (GetBlockProof_val nBits H). Qed.

(** Whatever branch the chain held before, setting its tip leaves exactly the
    branch of the new tip: at each height the tip's ancestor. *)
Theorem SetTip_correct m c p n :
  index_ok m -> chain_ok m c -> m !! p = Some n ->
  exists c', CChain_SetTip m c (Some p) = Some c' /\ chain_ok m c' /\ CChain_Height c' = bi_nHeight n /\
    forall h, 0 <= h <= bi_nHeight n -> CChain_at c' h = ancestor m (Z.to_nat (bi_nHeight n - h)) p.
Proof.
  intros Hok Hc Hp. exists (branch m p n). split; [by apply SetTip_spec|].
  split; [right; by exists p, n|]. pose proof (height_nonneg m Hok p n Hp).
  unfold CChain_Height, Zlength. rewrite length_branch. split; [lia|]. intros h Hh. unfold CChain_at, Zlength.
  rewrite length_branch, (proj2 (Z.ltb_ge _ _)) by lia.
  destruct (Z.geb_spec h (Z.of_nat (S (Z.to_nat (bi_nHeight n))))); [lia|]. cbn [orb].
  rewrite branch_lookup by lia. unfold at_height. cbn [mjoin option_join]. f_equal. lia.
Qed.

(** [FindFork] returns the first block on the way from [p] to its root that
    the chain contains, or null when the chain contains none of them. *)
Theorem FindFork_correct m c p n :
  index_ok m -> m !! p = Some n -> exists r, CChain_FindFork m c (Some p) = Some r /\ fork_of m c p r.
Proof. intros Hok Hp. by apply (FindFork_spec m Hok c p n). Qed.

(** [LastCommonAncestor] returns a common ancestor that every common ancestor
    is an ancestor of, and null exactly when the two blocks are in different trees;
    its closing assertion holds. *)
Theorem LastCommonAncestor_correct m pa na pb nb :
  index_ok m -> m !! pa = Some na -> m !! pb = Some nb ->
  exists r, LastCommonAncestor m pa pb = Some r /\ last_common m pa pb r.
Proof. intros Hok Ha Hb. by apply (LastCommonAncestor_spec m Hok pa na pb nb). Qed.

(** A locator starts at the block asked for (the tip by default), goes down by
    strict ancestors and ends at the root of the tree. *)
Theorem GetLocator_correct m c p n :
  index_ok m -> chain_ok m c -> m !! p = Some n ->
  exists l, CChain_GetLocator m c (Some p) = Some l /\ locator m p l.
Proof.
  intros Hok Hc Hp. unfold CChain_GetLocator. rewrite Hp. cbn [mbind option_bind].
  pose proof (height_nonneg m Hok p n Hp).
  apply (GetLocator_loop_spec m c _ [] 1 p n); (done || lia).
Qed.

(** ** Instances of the statements *)

Definition sample_node (pprev pskip : option uint256) (nHeight : Z) : CBlockIndex :=
  set_skip pskip (set_prev pprev nHeight (CBlockIndex_of_header (mkHeader 1 [] [] nHeight 0x1d00ffff 0))).

(** A root, a branch of three blocks with skip pointers, and a fork. *)
Definition sample_n3 : CBlockIndex := sample_node (Some [x02]) (Some [x01]) 3.
Definition sample_fork : CBlockIndex := sample_node (Some [x01]) (Some [x00]) 2.
Definition sample_index : BlockMap :=
  <[[x13] := sample_fork]> (<[[x03] := sample_n3]> (<[[x02] := sample_node (Some [x01]) (Some [x00]) 2]>
    (<[[x01] := sample_node (Some [x00]) (Some [x00]) 1]> (<[[x00] := sample_node None None 0]> ∅)))).

Lemma sample_index_ok : index_ok sample_index.
Proof.
  unfold sample_index. repeat apply index_ok_insert;
    first [ done
          | (cbn [sample_node set_skip set_prev bi_pprev bi_nHeight]; eexists; split; [reflexivity|]; split; [reflexivity|];
             intros s; vm_compute; by intros [= <-]) ].
Qed.

Definition sample_chain : CChain := [Some [x00]; Some [x01]; Some [x13]].

Lemma sample_chain_ok : chain_ok sample_index sample_chain.
Proof. right. by exists [x13], sample_fork. Qed.

Lemma GetAncestor_correct_witness : GetAncestor sample_index [x03] 1 = Some (Some [x01]).
Proof. exact (GetAncestor_correct sample_index [x03] sample_n3 1 sample_index_ok eq_refl). Defined.

Definition empty_index : index_state := mkIndexState ∅ None ∅.


Lemma GetBlockProof_correct_witness :
  exists w, GetBlockProof 0x1d00ffff = Some w /\ wf256 w /\ uval w = 4295032833.
Proof. exact (GetBlockProof_correct 0x1d00ffff ltac:(done)). Defined.

Lemma SetTip_correct_witness :
  exists c', CChain_SetTip sample_index sample_chain (Some [x03]) = Some c' /\ chain_ok sample_index c' /\
    CChain_Height c' = 3 /\
    forall h, 0 <= h <= 3 -> CChain_at c' h = ancestor sample_index (Z.to_nat (3 - h)) [x03].
Proof. exact (SetTip_correct sample_index sample_chain [x03] sample_n3 sample_index_ok sample_chain_ok eq_refl). Defined.

Lemma FindFork_correct_witness :
  exists r, CChain_FindFork sample_index sample_chain (Some [x03]) = Some r /\ fork_of sample_index sample_chain [x03] r.
Proof. exact (FindFork_correct sample_index sample_chain [x03] sample_n3 sample_index_ok eq_refl). Defined.

Lemma LastCommonAncestor_correct_witness :
  exists r, LastCommonAncestor sample_index [x03] [x13] = Some r /\ last_common sample_index [x03] [x13] r.
Proof.
  exact (LastCommonAncestor_correct sample_index [x03] sample_n3 [x13] sample_fork sample_index_ok eq_refl eq_refl).
Defined.

Lemma GetLocator_correct_witness :
  exists l, CChain_GetLocator sample_index sample_chain (Some [x03]) = Some l /\ locator sample_index [x03] l.
Proof. exact (GetLocator_correct sample_index sample_chain [x03] sample_n3 sample_index_ok sample_chain_ok eq_refl). Defined.
