(* ===== verification/MedianTime.v ===== *)
(** * The median of the last block times ([GetMedianTimePast] of topchain/src/chain.h)

    The function is defined with the index in [Chain.v]; here are its range and the fact
    the deployment of rule changes relies on: in a chain each of whose blocks is later
    than the median before it, the median never decreases. *)

From stdpp Require Import sorting.
From S2P Require Import Prelude Serialize Sha256 Primitives ArithUint256 Chain.

Definition times_ok (m : BlockMap) : Prop := map_Forall (fun _ n => uint_range 32 (bi_nTime n)) m.

Lemma median_times_spec m i p n : index_ok m -> times_ok m -> m !! p = Some n ->
  exists ts, median_times (S i) m (Some p) = Some ts /\ ts <> [] /\ Forall (uint_range 32) ts.
Proof.
  intros Hok Ht. revert p n. induction i as [|i IH]; intros p n Hp; cbn [median_times]; rewrite Hp; cbn [mbind option_bind].
  - exists [bi_nTime n]. destruct (bi_pprev n); split_and!; try done; (constructor; [by apply (Ht p)|constructor]).
  - destruct (bi_pprev n) as [q|] eqn:Eq.
    + destruct (parent_ok m Hok p n q Hp Eq) as (nq & Hq & _).
      destruct (IH q nq Hq) as (ts & E & _ & Hf). change (median_times (S i) m (Some q)) with
        (n ← m !! q; ts ← median_times i m (bi_pprev n); Some (bi_nTime n :: ts)) in E. rewrite E.
      exists (bi_nTime n :: ts). split_and!; try done. constructor; [by apply (Ht p)|done].
    + exists [bi_nTime n]. split_and!; try done. constructor; [by apply (Ht p)|constructor].
Qed.

Lemma GetMedianTimePast_spec m p n : index_ok m -> times_ok m -> m !! p = Some n ->
  exists t, GetMedianTimePast m p = Some t /\ uint_range 32 t.
Proof.
  intros Hok Ht Hp. destruct (median_times_spec m 10 p n Hok Ht Hp) as (ts & E & Hne & Hf).
  unfold GetMedianTimePast, nMedianTimeSpan. rewrite E. cbn [mbind option_bind].
  pose proof (merge_sort_Permutation Z.le ts) as Hperm.
  destruct (lookup_lt_is_Some_2 (merge_sort Z.le ts) (length ts / 2)) as [t Et].
  { rewrite Hperm. apply Nat.div_lt; [|lia]. destruct ts; [done|cbn; lia]. }
  exists t. split; [done|]. apply (Forall_lookup_1 (uint_range 32) (merge_sort Z.le ts) (length ts / 2)); [|done].
  by rewrite Hperm.
Qed.

Lemma GetAncestor_Some m p n h : index_ok m -> m !! p = Some n -> 0 <= h <= bi_nHeight n ->
  exists a na, GetAncestor m p h = Some (Some a) /\ m !! a = Some na.
Proof.
  intros Hok Hp Hh. rewrite (GetAncestor_spec m Hok p n h Hp).
  rewrite (proj2 (Z.leb_le 0 h)), (proj2 (Z.leb_le h (bi_nHeight n))) by lia.
  destruct (ancestor_height m Hok (Z.to_nat (bi_nHeight n - h)) p n Hp) as (a & na & -> & Hna & _); [lia|]. by exists a, na.
Qed.

(** ** The median never decreases *)

(** The rule [ContextualCheckBlockHeader] enforces on timestamps. *)
Definition times_increase (m : BlockMap) : Prop :=
  forall p n q t, m !! p = Some n -> bi_pprev n = Some q -> GetMedianTimePast m q = Some t -> t < bi_nTime n.

(** How many elements are at least [x]. *)
Definition at_least (x : Z) (l : list Z) : nat := length (filter (fun y => x <= y) l).

Lemma at_least_perm x l k : l ≡ₚ k -> at_least x l = at_least x k.
Proof. intros H. unfold at_least. by rewrite H. Qed.

Lemma at_least_cons x y l : at_least x (y :: l) = ((if decide (x <= y)%Z then 1 else 0) + at_least x l)%nat.
Proof. unfold at_least. rewrite filter_cons. by case_decide. Qed.

Lemma at_least_all x l : Forall (fun y => x <= y) l -> at_least x l = length l.
Proof. induction 1 as [|y l Hy _ IH]; [done|]. rewrite at_least_cons, decide_True by done. cbn. lia. Qed.

Lemma at_least_le x l : (at_least x l <= length l)%nat.
Proof. unfold at_least. apply length_filter. Qed.

(** In a sorted list the element at [i] has at least as many elements not below it. *)
Lemma sorted_at_least l i x : StronglySorted Z.le l -> l !! i = Some x -> (length l - i <= at_least x l)%nat.
Proof.
  intros Hs. revert i. induction Hs as [|y l Hs IH Hy]; intros [|i] Hi; try done; cbn in Hi.
  - injection Hi as ->. rewrite at_least_all; [lia|]. constructor; [lia|done].
  - rewrite at_least_cons. specialize (IH i Hi). cbn [length]. lia.
Qed.

Lemma at_least_sorted l i x M : StronglySorted Z.le l -> l !! i = Some x -> (length l - i <= at_least M l)%nat -> M <= x.
Proof.
  intros Hs. revert i. induction Hs as [|y l Hs IH Hy]; intros [|i] Hi Hc; try done; cbn in Hi; cbn [length] in Hc.
  - injection Hi as ->. rewrite at_least_cons in Hc. case_decide; [done|]. pose proof (at_least_le M l). lia.
  - rewrite at_least_cons in Hc. pose proof (lookup_lt_Some _ _ _ Hi). case_decide as Hd; [|apply (IH i Hi); lia].
    pose proof (proj1 (Forall_lookup _ _) Hy i x Hi). cbn in *. lia.
Qed.

Definition median (ts : list Z) : option Z := merge_sort Z.le ts !! (length ts / 2)%nat.

Lemma at_least_app x l k : at_least x (l ++ k) = (at_least x l + at_least x k)%nat.
Proof. unfold at_least. by rewrite filter_app, length_app. Qed.

Lemma median_at_least ts M : median ts = Some M -> (length ts - length ts / 2 <= at_least M ts)%nat.
Proof.
  unfold median. intros HM. apply sorted_at_least in HM; [|apply (StronglySorted_merge_sort Z.le)].
  rewrite (at_least_perm M _ ts) in HM by apply merge_sort_Permutation. by rewrite merge_sort_Permutation in HM.
Qed.

Lemma at_least_median ts M M' : median ts = Some M' -> (length ts - length ts / 2 <= at_least M ts)%nat -> M <= M'.
Proof.
  unfold median. intros HM' Hc. eapply at_least_sorted; [apply (StronglySorted_merge_sort Z.le)|exact HM'|].
  rewrite (at_least_perm M _ ts) by apply merge_sort_Permutation. by rewrite merge_sort_Permutation.
Qed.

(** A later time pushed on, the oldest of eleven dropped. *)
Lemma median_step ts t M M' : (length ts <= 11)%nat -> median ts = Some M -> M < t ->
  median (t :: take 10 ts) = Some M' -> M <= M'.
Proof.
  intros Hlen HM Ht HM'. apply (at_least_median _ _ _ HM'). apply median_at_least in HM.
  rewrite at_least_cons, decide_True by lia. cbn [length]. rewrite length_take.
  rewrite <- (take_drop 10 ts), at_least_app in HM. rewrite take_drop in HM.
  pose proof (at_least_le M (drop 10 ts)) as Hd. rewrite length_drop in Hd.
  destruct (decide (length ts = 11)%nat) as [E|E].
  - rewrite E in *. cbn in *. lia.
  - assert (Nat.min 10 (length ts) = length ts) as -> by lia.
    pose proof (Nat.div_mod_eq (length ts) 2). pose proof (Nat.div_mod_eq (S (length ts)) 2).
    pose proof (Nat.mod_upper_bound (length ts) 2). pose proof (Nat.mod_upper_bound (S (length ts)) 2). lia.
Qed.

Lemma median_times_take m i x ts : median_times (S i) m x = Some ts -> median_times i m x = Some (take i ts) /\ (length ts <= S i)%nat.
Proof.
  revert x ts. induction i as [|i IH]; intros [p|] ts; cbn [median_times]; try (intros [= <-]; cbn; split; [done|lia]).
  - destruct (m !! p) as [n|]; [|done]. cbn [mbind option_bind]. destruct (bi_pprev n); cbn; intros [= <-]; split; try done; cbn; lia.
  - destruct (m !! p) as [n|]; [|done]. cbn [mbind option_bind].
    destruct (median_times (S i) m (bi_pprev n)) as [ts0|] eqn:E; cbn [median_times mbind option_bind] in *.
    + destruct (IH _ _ E) as [E' Hl]. rewrite E', E. cbn [mbind option_bind]. intros [= <-]. cbn. split; [done|lia].
    + by rewrite E.
Qed.

Lemma median_mono m p n q : index_ok m -> times_ok m -> times_increase m -> m !! p = Some n -> bi_pprev n = Some q ->
  exists t t', GetMedianTimePast m q = Some t /\ GetMedianTimePast m p = Some t' /\ t <= t'.
Proof.
  intros Hok Ht Hinc Hp Hq. destruct (parent_ok m Hok p n q Hp Hq) as (nq & Hnq & _).
  destruct (GetMedianTimePast_spec m q nq Hok Ht Hnq) as (t & Et & _).
  destruct (GetMedianTimePast_spec m p n Hok Ht Hp) as (t' & Et' & _).
  exists t, t'. split; [done|]. split; [done|]. pose proof (Hinc p n q t Hp Hq Et) as Hlt.
  unfold GetMedianTimePast, nMedianTimeSpan in Et, Et'.
  destruct (median_times 11 m (Some q)) as [ts|] eqn:Ets; [|done]. destruct (median_times_take m 10 (Some q) ts Ets) as [E10 Hlen].
  change (median_times 11 m (Some p)) with (n ← m !! p; ts ← median_times 10 m (bi_pprev n); Some (bi_nTime n :: ts)) in Et'.
  rewrite Hp in Et'. cbn [mbind option_bind] in Et'. rewrite Hq, E10 in Et'.
  by apply (median_step ts (bi_nTime n) t t').
Qed.

(** In an index each of whose blocks is later than the median of the times up to its
    parent, which the acceptance of headers demands, the median time past of a block is
    at least that of its parent, from the genesis block on, where fewer than eleven
    times exist. *)
Theorem median_time_monotone m p n q : index_ok m -> times_ok m -> times_increase m -> m !! p = Some n -> bi_pprev n = Some q ->
  exists t t', GetMedianTimePast m q = Some t /\ GetMedianTimePast m p = Some t' /\ t <= t'.
Proof. apply median_mono. Qed.

Lemma sample_times_increase : times_increase sample_index.
Proof.
  assert (map_Forall (fun p n => forall q, bi_pprev n = Some q -> forall t, GetMedianTimePast sample_index q = Some t -> t < bi_nTime n) sample_index) as Hall.
  { unfold sample_index at 2. repeat apply map_Forall_insert_2; try apply map_Forall_empty;
      intros q [= <-] t; vm_compute; intros [= <-]; reflexivity. }
  intros p n q t Hp Hq. apply (Hall p n Hp q Hq).
Qed.

Lemma median_time_monotone_witness :
  exists t t', GetMedianTimePast sample_index [x02] = Some t /\ GetMedianTimePast sample_index [x03] = Some t' /\ t <= t'.
Proof.
  apply (median_time_monotone sample_index [x03] sample_n3 [x02]); try reflexivity; try exact sample_index_ok.
  - unfold times_ok. refine (bool_decide_unpack _ _). vm_compute. exact I.
  - exact sample_times_increase.
Defined.
