(* ===== verification/Versionbits.v ===== *)
(** * Deployment of rule changes (topchain/src/versionbits.h, versionbits.cpp)

    The state of a deployment at a block, computed from the states at the ends of the
    periods before it and cached there. A block is the hash of its index entry, the
    parent of the genesis block is [None]. The reference is the recursion over the
    periods without the cache and without the short cut by the start time. *)

From S2P Require Import Prelude Serialize Sha256 Primitives ArithUint256 Chain MedianTime.

Definition VERSIONBITS_TOP_BITS : Z := 0x20000000.
Definition VERSIONBITS_TOP_MASK : Z := 0xE0000000.

Inductive ThresholdState := THRESHOLD_DEFINED | THRESHOLD_STARTED | THRESHOLD_LOCKED_IN | THRESHOLD_ACTIVE | THRESHOLD_FAILED.

#[global] Instance ThresholdState_eq_dec : EqDecision ThresholdState.
Proof. solve_decision. Defined.

(** What a subclass of [AbstractThresholdConditionChecker] supplies for given parameters. *)
Record checker := mkChecker {
  Condition : CBlockIndex -> bool;
  BeginTime : Z;
  EndTime : Z;
  Period : Z;
  Threshold : Z
}.

Abbreviation ThresholdConditionCache := (gmap (option (list byte)) ThresholdState) (only parsing).

Section state.
Context (m : BlockMap) (ch : checker).

(** The last block of the period before the one that [pindexPrev]'s child is in. *)
Definition period_parent (pindexPrev : uint256) : option (option uint256) :=
  n ← m !! pindexPrev;
  GetAncestor m pindexPrev (bi_nHeight n - Z.rem (bi_nHeight n + 1) (Period ch)).

(** The walk backwards: the entry whose state is known, the blocks to compute (the one
    pushed last first) and the cache. *)
Fixpoint walk_back (fuel : nat) (pindexPrev : option uint256) (vToCompute : list uint256) (cache : ThresholdConditionCache)
  : option (option uint256 * list uint256 * ThresholdConditionCache) :=
  match fuel with
  | O => None
  | S fuel =>
      match cache !! pindexPrev with
      | Some _ => Some (pindexPrev, vToCompute, cache)
      | None =>
          match pindexPrev with
          | None => Some (None, vToCompute, <[None := THRESHOLD_DEFINED]> cache)
          | Some p =>
              n ← m !! p;
              t ← GetMedianTimePast m p;
              if t <? BeginTime ch then Some (Some p, vToCompute, <[Some p := THRESHOLD_DEFINED]> cache)
              else
                a ← GetAncestor m p (bi_nHeight n - Period ch);
                walk_back fuel a (p :: vToCompute) cache
          end
      end
  end.

(** The number of blocks that signal among the [i] ones down from [pindexCount]. *)
Fixpoint count_signals (i : nat) (pindexCount : option uint256) : option Z :=
  match i with
  | O => Some 0
  | S i =>
      p ← pindexCount;
      n ← m !! p;
      c ← count_signals i (bi_pprev n);
      Some (if Condition ch n then c + 1 else c)
  end.

Definition next_state (pindexPrev : uint256) (state : ThresholdState) : option ThresholdState :=
  match state with
  | THRESHOLD_DEFINED =>
      t ← GetMedianTimePast m pindexPrev;
      Some (if EndTime ch <=? t then THRESHOLD_FAILED else if BeginTime ch <=? t then THRESHOLD_STARTED else state)
  | THRESHOLD_STARTED =>
      t ← GetMedianTimePast m pindexPrev;
      if EndTime ch <=? t then Some THRESHOLD_FAILED
      else
        count ← count_signals (Z.to_nat (Period ch)) (Some pindexPrev);
        Some (if Threshold ch <=? count then THRESHOLD_LOCKED_IN else state)
  | THRESHOLD_LOCKED_IN => Some THRESHOLD_ACTIVE
  | THRESHOLD_FAILED | THRESHOLD_ACTIVE => Some state
  end.

(** The walk forward over the blocks to compute. *)
Fixpoint walk_forward (vToCompute : list uint256) (state : ThresholdState) (cache : ThresholdConditionCache)
  : option (ThresholdConditionCache * ThresholdState) :=
  match vToCompute with
  | [] => Some (cache, state)
  | p :: vToCompute =>
      stateNext ← next_state p state;
      walk_forward vToCompute stateNext (<[Some p := stateNext]> cache)
  end.

(** The walk backwards visits each height at most once. *)
Definition GetStateFor (pindexPrev : option uint256) (cache : ThresholdConditionCache)
  : option (ThresholdConditionCache * ThresholdState) :=
  pindexPrev ← match pindexPrev with Some p => period_parent p | None => Some None end;
  fuel ← match pindexPrev with Some p => n ← m !! p; Some (Z.to_nat (bi_nHeight n) + 2)%nat | None => Some 1%nat end;
  '(known, vToCompute, cache) ← walk_back fuel pindexPrev [] cache;
  state ← cache !! known;
  walk_forward vToCompute state cache.

(** *** Statistics and the height of a state *)

Record BIP9Stats := mkStats { st_period : Z; st_threshold : Z; st_elapsed : Z; st_count : Z; st_possible : bool }.

(** From the current block down to the end of the previous period. *)
Fixpoint count_until (fuel : nat) (end_height : Z) (p : uint256) : option Z :=
  n ← m !! p;
  if end_height =? bi_nHeight n then Some 0
  else
    match fuel with
    | O => None
    | S fuel =>
        q ← bi_pprev n;
        c ← count_until fuel end_height q;
        Some (if Condition ch n then c + 1 else c)
    end.

Definition GetStateStatisticsFor (pindex : option uint256) : option BIP9Stats :=
  match pindex with
  | None => Some (mkStats (Period ch) (Threshold ch) 0 0 false)
  | Some p =>
      n ← m !! p;
      e ← period_parent p;
      e ← e;
      ne ← m !! e;
      let elapsed := bi_nHeight n - bi_nHeight ne in
      count ← count_until (Z.to_nat (Period ch)) (bi_nHeight ne) p;
      Some (mkStats (Period ch) (Threshold ch) elapsed count (elapsed - count <=? Period ch - Threshold ch))
  end.

Fixpoint since_loop (fuel : nat) (initialState : ThresholdState) (pindexPrev : uint256) (cache : ThresholdConditionCache)
  : option (ThresholdConditionCache * Z) :=
  n ← m !! pindexPrev;
  previousPeriodParent ← GetAncestor m pindexPrev (bi_nHeight n - Period ch);
  match previousPeriodParent with
  | None => Some (cache, bi_nHeight n + 1)
  | Some q =>
      '(cache, state) ← GetStateFor (Some q) cache;
      if bool_decide (state = initialState) then
        match fuel with
        | O => None
        | S fuel => since_loop fuel initialState q cache
        end
      else Some (cache, bi_nHeight n + 1)
  end.

Definition GetStateSinceHeightFor (pindexPrev : option uint256) (cache : ThresholdConditionCache)
  : option (ThresholdConditionCache * Z) :=
  '(cache, initialState) ← GetStateFor pindexPrev cache;
  match initialState with
  | THRESHOLD_DEFINED => Some (cache, 0)
  | _ =>
      p ← pindexPrev;
      pp ← period_parent p;
      pp ← pp;
      n ← m !! pp;
      since_loop (Z.to_nat (bi_nHeight n)) initialState pp cache
  end.
End state.

(** ** The deployments of the parameters *)

Record BIP9Deployment := mkDeployment { dep_bit : Z; nStartTime : Z; nTimeout : Z }.

Inductive DeploymentPos := DEPLOYMENT_TESTDUMMY | DEPLOYMENT_CSV | DEPLOYMENT_SEGWIT.

#[global] Instance DeploymentPos_eq_dec : EqDecision DeploymentPos.
Proof. solve_decision. Defined.

(** The fields of [Consensus::Params] that deployments read. *)
Record DeploymentParams := mkDeploymentParams {
  nRuleChangeActivationThreshold : Z;
  nMinerConfirmationWindow : Z;
  vDeployments : DeploymentPos -> BIP9Deployment
}.

Definition VersionBitsMask (params : DeploymentParams) (pos : DeploymentPos) : Z :=
  u32 (Z.shiftl 1 (dep_bit (vDeployments params pos))).

Definition VersionBitsConditionChecker (params : DeploymentParams) (pos : DeploymentPos) : checker :=
  mkChecker
    (fun n => (Z.land (u32 (bi_nVersion n)) VERSIONBITS_TOP_MASK =? VERSIONBITS_TOP_BITS) &&
              negb (Z.land (u32 (bi_nVersion n)) (VersionBitsMask params pos) =? 0))
    (nStartTime (vDeployments params pos)) (nTimeout (vDeployments params pos))
    (i32 (nMinerConfirmationWindow params)) (i32 (nRuleChangeActivationThreshold params)).

(** One cache for each deployment. *)
Abbreviation VersionBitsCache := (DeploymentPos -> ThresholdConditionCache) (only parsing).

Definition set_cache (pos : DeploymentPos) (c : ThresholdConditionCache) (caches : VersionBitsCache) : VersionBitsCache :=
  fun pos' => if bool_decide (pos' = pos) then c else caches pos'.

Definition VersionBitsState (m : BlockMap) (pindexPrev : option uint256) (params : DeploymentParams) (pos : DeploymentPos)
    (caches : VersionBitsCache) : option (VersionBitsCache * ThresholdState) :=
  '(c, s) ← GetStateFor m (VersionBitsConditionChecker params pos) pindexPrev (caches pos);
  Some (set_cache pos c caches, s).

Definition VersionBitsCache_Clear : VersionBitsCache := fun _ => ∅.

(** [ComputeBlockVersion], over the deployments in their order. *)
Fixpoint ComputeBlockVersion_loop (m : BlockMap) (pindexPrev : option uint256) (params : DeploymentParams)
    (deployments : list DeploymentPos) (nVersion : Z) (caches : VersionBitsCache) : option (VersionBitsCache * Z) :=
  match deployments with
  | [] => Some (caches, nVersion)
  | pos :: deployments =>
      '(caches, state) ← VersionBitsState m pindexPrev params pos caches;
      let nVersion :=
        match state with
        | THRESHOLD_LOCKED_IN | THRESHOLD_STARTED => i32 (Z.lor nVersion (VersionBitsMask params pos))
        | _ => nVersion
        end in
      ComputeBlockVersion_loop m pindexPrev params deployments nVersion caches
  end.
Definition ComputeBlockVersion (m : BlockMap) (pindexPrev : option uint256) (params : DeploymentParams) (caches : VersionBitsCache)
  : option (VersionBitsCache * Z) :=
  ComputeBlockVersion_loop m pindexPrev params [DEPLOYMENT_TESTDUMMY; DEPLOYMENT_CSV; DEPLOYMENT_SEGWIT] VERSIONBITS_TOP_BITS caches.

(** ** The reference *)

Section reference.
Context (m : BlockMap) (ch : checker).

(** The state behind [k] whole periods, [p] being the last block of the last of them. *)
Fixpoint ref_state (k : nat) (p : option uint256) : option ThresholdState :=
  match k, p with
  | O, None => Some THRESHOLD_DEFINED
  | S k, Some p =>
      n ← m !! p;
      a ← GetAncestor m p (bi_nHeight n - Period ch);
      s ← ref_state k a;
      next_state m ch p s
  | _, _ => None
  end.

(** The state for the children of [pindexPrev]. *)
Definition deployment_state (pindexPrev : option uint256) : option ThresholdState :=
  match pindexPrev with
  | None => Some THRESHOLD_DEFINED
  | Some p =>
      n ← m !! p;
      a ← GetAncestor m p (bi_nHeight n - Z.rem (bi_nHeight n + 1) (Period ch));
      ref_state (Z.to_nat ((bi_nHeight n + 1) / Period ch)) a
  end.

(** The last block of [k] periods. *)
Definition aligned (k : nat) (p : option uint256) : Prop :=
  match p with
  | None => k = O
  | Some p => exists n, m !! p = Some n /\ bi_nHeight n + 1 = Z.of_nat k * Period ch /\ (0 < k)%nat
  end.

(** The cache holds states of the reference only. *)
Definition cache_sound (cache : ThresholdConditionCache) : Prop :=
  forall p s, cache !! p = Some s -> exists k, aligned k p /\ ref_state k p = Some s.

Context (Hok : index_ok m) (Ht : times_ok m) (Hinc : times_increase m).
Context (Hper : 0 < Period ch) (Hse : BeginTime ch <= EndTime ch).

Lemma ancestor_of_aligned k p n : m !! p = Some n -> bi_nHeight n + 1 = Z.of_nat (S k) * Period ch ->
  exists a, GetAncestor m p (bi_nHeight n - Period ch) = Some a /\ aligned k a.
Proof.
  intros Hp Hh. rewrite (GetAncestor_spec m Hok p n _ Hp).
  destruct (Z.leb_spec 0 (bi_nHeight n - Period ch)); cbn [andb].
  - rewrite (proj2 (Z.leb_le _ (bi_nHeight n))) by lia.
    destruct (ancestor_height m Hok (Z.to_nat (bi_nHeight n - (bi_nHeight n - Period ch))) p n Hp) as (a & na & E & Ha & Hha); [lia|].
    exists (Some a). split; [by rewrite E|]. exists na. split; [done|]. split; nia.
  - exists None. split; [done|]. cbn. nia.
Qed.

Lemma median_ancestor j p n a : m !! p = Some n -> ancestor m j p = Some a ->
  exists na t t', m !! a = Some na /\ GetMedianTimePast m a = Some t /\ GetMedianTimePast m p = Some t' /\ t <= t'.
Proof.
  revert p n. induction j as [|j IH]; intros p n Hp Ha; cbn [ancestor] in Ha.
  - injection Ha as <-. destruct (GetMedianTimePast_spec m p n Hok Ht Hp) as (t & E & _). exists n, t, t. done.
  - rewrite Hp in Ha. cbn [mbind option_bind] in Ha. destruct (bi_pprev n) as [q|] eqn:Eq; [|done]. cbn [mbind option_bind] in Ha.
    destruct (parent_ok m Hok p n q Hp Eq) as (nq & Hq & _). destruct (IH q nq Hq Ha) as (na & t & t1 & Hna & E & E1 & Hle).
    destruct (median_mono m p n q Hok Ht Hinc Hp Eq) as (t1' & t2 & E1' & E2 & Hle2).
    exists na, t, t2. split_and!; try done. assert (t1' = t1) by congruence. lia.
Qed.

(** Before the start time every state is the initial one. *)
Lemma ref_before_start k p n t : m !! p = Some n -> bi_nHeight n + 1 = Z.of_nat (S k) * Period ch ->
  GetMedianTimePast m p = Some t -> t < BeginTime ch -> ref_state (S k) (Some p) = Some THRESHOLD_DEFINED.
Proof.
  revert p n t. induction k as [|k IH]; intros p n t Hp Hh Et Hlt;
    destruct (ancestor_of_aligned _ p n Hp Hh) as (a & Ea & Hal);
    assert (next_state m ch p THRESHOLD_DEFINED = Some THRESHOLD_DEFINED) as Hn by
      (cbn [next_state]; rewrite Et; cbn [mbind option_bind];
       rewrite (proj2 (Z.leb_gt (EndTime ch) t)), (proj2 (Z.leb_gt (BeginTime ch) t)) by lia; done).
  - cbn [ref_state]. rewrite Hp. cbn [mbind option_bind]. rewrite Ea. cbn [mbind option_bind].
    destruct a as [a|]; [destruct Hal as (? & _ & _ & ?); lia|done].
  - destruct a as [a|]; [|done]. destruct Hal as (na & Hna & Hha & _).
    assert (exists t', GetMedianTimePast m a = Some t' /\ t' <= t) as (t' & Et' & Hle).
    { rewrite (GetAncestor_spec m Hok p n _ Hp) in Ea. case_if; [|done]. injection Ea as Ea.
      destruct (median_ancestor _ p n a Hp Ea) as (? & t1 & t2 & _ & E1 & E2 & Hle). exists t1. split; [done|].
      assert (t2 = t) by congruence. lia. }
    cbn [ref_state]. rewrite Hp. cbn [mbind option_bind]. rewrite Ea. cbn [mbind option_bind].
    specialize (IH a na t' Hna Hha Et' ltac:(lia)). cbn [ref_state] in IH. by rewrite IH.
Qed.

Lemma count_signals_total i p n : m !! p = Some n -> Z.of_nat i <= bi_nHeight n + 1 ->
  exists c, count_signals m ch i (Some p) = Some c.
Proof.
  revert p n. induction i as [|i IH]; intros p n Hp Hi; [by eexists|]. cbn [count_signals mbind option_bind]. rewrite Hp. cbn [mbind option_bind].
  destruct (bi_pprev n) as [q|] eqn:Eq.
  - destruct (parent_ok m Hok p n q Hp Eq) as (nq & Hq & Eh). destruct (IH q nq Hq) as [c ->]; [lia|]. by eexists.
  - apply (root_height m Hok p n Hp) in Eq. assert (i = O) as -> by lia. by eexists.
Qed.

Lemma next_state_total p n s : m !! p = Some n -> Period ch <= bi_nHeight n + 1 -> exists s', next_state m ch p s = Some s'.
Proof.
  intros Hp Hh. destruct (GetMedianTimePast_spec m p n Hok Ht Hp) as (t & Et & _).
  destruct (count_signals_total (Z.to_nat (Period ch)) p n Hp) as [c Ec]; [lia|].
  destruct s; cbn [next_state]; rewrite ?Et; cbn [mbind option_bind]; rewrite ?Ec; (case_if; by eexists) || by eexists.
Qed.

Lemma ref_total k p : aligned k p -> exists s, ref_state k p = Some s.
Proof.
  revert p. induction k as [|k IH]; intros [p|] Hal; [| | |done].
  { destruct Hal as (? & _ & _ & ?). lia. }
  { by eexists. }
  destruct Hal as (n & Hp & Hh & _). destruct (ancestor_of_aligned k p n Hp Hh) as (a & Ea & Hal).
  destruct (IH a Hal) as [s Es]. cbn [ref_state]. rewrite Hp. cbn [mbind option_bind]. rewrite Ea. cbn [mbind option_bind]. rewrite Es.
  apply (next_state_total p n s Hp). nia.
Qed.

Lemma cache_sound_insert cache k p s : cache_sound cache -> aligned k p -> ref_state k p = Some s -> cache_sound (<[p := s]> cache).
Proof.
  intros Hs Hal Hr p' s'. destruct (decide (p' = p)) as [->|Hne].
  - rewrite lookup_insert_eq. intros [= <-]. by exists k.
  - rewrite lookup_insert_ne by done. apply Hs.
Qed.

(** The blocks from one end of period forward to another. *)
Inductive path : nat -> option uint256 -> list uint256 -> nat -> option uint256 -> Prop :=
  | path_nil k p : path k p [] k p
  | path_cons k p x n l K P : m !! x = Some n -> aligned (S k) (Some x) -> GetAncestor m x (bi_nHeight n - Period ch) = Some p ->
      path (S k) (Some x) l K P -> path k p (x :: l) K P.

Lemma walk_forward_spec k p l K P s cache : path k p l K P -> ref_state k p = Some s -> cache_sound cache ->
  exists cache' s', walk_forward m ch l s cache = Some (cache', s') /\ ref_state K P = Some s' /\ cache_sound cache'.
Proof.
  intros Hp. revert s cache. induction Hp as [k p|k p x n l K P Hx Hal Ha Hp IH]; intros s cache Hs Hc; [by exists cache, s|].
  destruct (ref_total _ _ Hal) as [s' Es']. pose proof Es' as En. cbn [ref_state] in En. rewrite Hx in En. cbn [mbind option_bind] in En.
  rewrite Ha in En. cbn [mbind option_bind] in En. rewrite Hs in En. cbn [mbind option_bind] in En.
  cbn [walk_forward]. rewrite En. cbn [mbind option_bind]. apply IH; [done|]. by apply (cache_sound_insert _ (S k)).
Qed.

Lemma walk_back_spec fuel k p l K P cache : (k < fuel)%nat -> aligned k p -> path k p l K P -> cache_sound cache ->
  exists j known l' cache' s, walk_back m ch fuel p l cache = Some (known, l', cache') /\ path j known l' K P /\
    cache_sound cache' /\ cache' !! known = Some s /\ ref_state j known = Some s.
Proof.
  revert k p l. induction fuel as [|fuel IH]; intros k p l Hf Hal Hpath Hc; [lia|]. cbn [walk_back].
  destruct (cache !! p) as [s|] eqn:Es.
  - destruct (Hc p s Es) as (k' & Hal' & Hr). assert (k' = k) as ->.
    { destruct p as [p|]; cbn in *; [|congruence]. destruct Hal as (n & Hp & Hh & _), Hal' as (n' & Hp' & Hh' & _).
      assert (n' = n) as -> by congruence. nia. }
    by exists k, p, l, cache, s.
  - destruct p as [p|].
    2: { assert (k = O) as -> by done. exists O, None, l, (<[None := THRESHOLD_DEFINED]> cache), THRESHOLD_DEFINED.
         split_and!; try done; [by apply (cache_sound_insert _ O)|by rewrite lookup_insert_eq]. }
    destruct Hal as (n & Hp & Hh & Hk). destruct k as [|k]; [lia|]. rewrite Hp. cbn [mbind option_bind].
    destruct (GetMedianTimePast_spec m p n Hok Ht Hp) as (t & Et & _). rewrite Et. cbn [mbind option_bind].
    destruct (Z.ltb_spec t (BeginTime ch)) as [Hlt|Hge].
    + pose proof (ref_before_start k p n t Hp Hh Et Hlt) as Hr.
      exists (S k), (Some p), l, (<[Some p := THRESHOLD_DEFINED]> cache), THRESHOLD_DEFINED. split_and!; try done.
      * apply (cache_sound_insert _ (S k)); try done. by exists n.
      * by rewrite lookup_insert_eq.
    + destruct (ancestor_of_aligned k p n Hp Hh) as (a & Ea & Hala). rewrite Ea. cbn [mbind option_bind].
      apply (IH k); [lia|done| |done]. econstructor; try done. by exists n.
Qed.

(** The end of the period before a block, and how many periods there are. *)
Lemma period_parent_aligned p n : m !! p = Some n ->
  exists a, GetAncestor m p (bi_nHeight n - Z.rem (bi_nHeight n + 1) (Period ch)) = Some a /\
    aligned (Z.to_nat ((bi_nHeight n + 1) / Period ch)) a /\
    match a with Some a => exists na, m !! a = Some na /\ bi_nHeight na <= bi_nHeight n | None => True end.
Proof.
  intros Hp. pose proof (height_nonneg m Hok p n Hp) as Hh. rewrite Z.rem_mod_nonneg by lia.
  pose proof (Z.mod_pos_bound (bi_nHeight n + 1) (Period ch) Hper) as Hm.
  pose proof (Z.div_mod (bi_nHeight n + 1) (Period ch) ltac:(lia)) as Hd.
  assert (0 <= (bi_nHeight n + 1) / Period ch) by (apply Z.div_pos; lia).
  rewrite (GetAncestor_spec m Hok p n _ Hp). set (r := (bi_nHeight n + 1) mod Period ch) in *.
  destruct (Z.leb_spec 0 (bi_nHeight n - r)); cbn [andb].
  - rewrite (proj2 (Z.leb_le _ (bi_nHeight n))) by lia.
    destruct (ancestor_height m Hok (Z.to_nat (bi_nHeight n - (bi_nHeight n - r))) p n Hp) as (a & na & E & Ha & Hha); [lia|].
    exists (Some a). split; [by rewrite E|]. split; [exists na; split; [done|split; nia]|exists na; split; [done|lia]].
  - exists None. split; [done|]. split; [cbn; nia|done].
Qed.

Lemma GetStateFor_spec pindexPrev cache : cache_sound cache ->
  match pindexPrev with Some p => is_Some (m !! p) | None => True end ->
  exists cache' s, GetStateFor m ch pindexPrev cache = Some (cache', s) /\ deployment_state pindexPrev = Some s /\ cache_sound cache'.
Proof.
  intros Hc Hp. unfold GetStateFor, deployment_state. destruct pindexPrev as [p|].
  - destruct Hp as [n Hp]. destruct (period_parent_aligned p n Hp) as (a & Ea & Hal & Hna). unfold period_parent.
    rewrite Hp. cbn [mbind option_bind]. rewrite Ea. cbn [mbind option_bind].
    assert (exists fuel, match a with Some p => n ← m !! p; Some (Z.to_nat (bi_nHeight n) + 2)%nat | None => Some 1%nat end = Some fuel /\
      (Z.to_nat ((bi_nHeight n + 1) / Period ch) < fuel)%nat) as (fuel & -> & Hf).
    { destruct a as [a|]; [|cbn in Hal; exists 1%nat; split; [done|lia]]. destruct Hal as (na & Ha & Hha & _). rewrite Ha.
      eexists. split; [done|]. nia. }
    cbn [mbind option_bind].
    destruct (walk_back_spec fuel _ a [] _ a cache Hf Hal (path_nil _ a) Hc) as (j & known & l & cache' & s & -> & Hpath & Hc' & Hs & Hr).
    cbn [mbind option_bind]. rewrite Hs. cbn [mbind option_bind].
    destruct (walk_forward_spec j known l _ a s cache' Hpath Hr Hc') as (c2 & s2 & -> & Hr2 & Hc2). by exists c2, s2.
  - cbn [mbind option_bind].
    destruct (walk_back_spec 1 0 None [] 0 None cache ltac:(lia) eq_refl (path_nil _ _) Hc) as (j & known & l & cache' & s & -> & Hpath & Hc' & Hs & Hr).
    cbn [mbind option_bind]. rewrite Hs. cbn [mbind option_bind].
    destruct (walk_forward_spec j known l _ _ s cache' Hpath Hr Hc') as (c2 & s2 & -> & Hr2 & Hc2). exists c2, s2. split_and!; try done.
Qed.

(** *** The states as a step relation along the chain *)

(** The state for the children of a block: the last block of a period makes the
    transition, the others hand on what they got. *)
Inductive bip9 : option uint256 -> ThresholdState -> Prop :=
  | bip9_genesis : bip9 None THRESHOLD_DEFINED
  | bip9_same p n s : m !! p = Some n -> (bi_nHeight n + 1) mod Period ch <> 0 -> bip9 (bi_pprev n) s -> bip9 (Some p) s
  | bip9_end p n s s' : m !! p = Some n -> (bi_nHeight n + 1) mod Period ch = 0 -> bip9 (bi_pprev n) s ->
      next_state m ch p s = Some s' -> bip9 (Some p) s'.

Lemma GetAncestor_parent p n q k : m !! p = Some n -> bi_pprev n = Some q -> k < bi_nHeight n -> GetAncestor m p k = GetAncestor m q k.
Proof.
  intros Hp Hq Hk. destruct (parent_ok m Hok p n q Hp Hq) as (nq & Hnq & Eh).
  rewrite (GetAncestor_spec m Hok p n k Hp), (GetAncestor_spec m Hok q nq k Hnq).
  destruct (Z.leb_spec 0 k); cbn [andb]; [|done].
  rewrite (proj2 (Z.leb_le k (bi_nHeight n))), (proj2 (Z.leb_le k (bi_nHeight nq))) by lia.
  replace (Z.to_nat (bi_nHeight n - k)) with (S (Z.to_nat (bi_nHeight nq - k))) by lia.
  cbn [ancestor]. rewrite Hp. cbn [mbind option_bind]. by rewrite Hq.
Qed.

Lemma deployment_same p n : m !! p = Some n -> (bi_nHeight n + 1) mod Period ch <> 0 ->
  deployment_state (Some p) = deployment_state (bi_pprev n).
Proof.
  intros Hp Hr. pose proof (height_nonneg m Hok p n Hp). cbn [deployment_state]. rewrite Hp. cbn [mbind option_bind].
  rewrite Z.rem_mod_nonneg by lia. set (P := Period ch) in *.
  pose proof (Z.mod_pos_bound (bi_nHeight n + 1) P Hper). pose proof (Z.div_mod (bi_nHeight n + 1) P ltac:(lia)).
  destruct (bi_pprev n) as [q|] eqn:Eq; cbn [deployment_state].
  - destruct (parent_ok m Hok p n q Hp Eq) as (nq & Hq & Eh). rewrite Hq. cbn [mbind option_bind].
    pose proof (height_nonneg m Hok q nq Hq). rewrite Z.rem_mod_nonneg by lia. fold P.
    assert ((bi_nHeight nq + 1) / P = (bi_nHeight n + 1) / P) as ->.
    { symmetry. apply (Z.div_unique _ _ _ ((bi_nHeight n + 1) mod P - 1)); [left; lia|]. lia. }
    assert ((bi_nHeight nq + 1) mod P = (bi_nHeight n + 1) mod P - 1) as ->.
    { symmetry. apply (Z.mod_unique _ _ ((bi_nHeight n + 1) / P)); [left; lia|]. lia. }
    rewrite (GetAncestor_parent p n q _ Hp Eq) by lia. f_equal. f_equal. lia.
  - apply (root_height m Hok p n Hp) in Eq. rewrite Eq in *. rewrite (GetAncestor_spec m Hok p n _ Hp).
    rewrite (proj2 (Z.leb_gt 0 (0 - (0 + 1) mod P))) by lia. cbn [andb mbind option_bind].
    replace ((0 + 1) / P) with 0; [done|]. nia.
Qed.

Lemma deployment_end p n : m !! p = Some n -> (bi_nHeight n + 1) mod Period ch = 0 ->
  deployment_state (Some p) = s ← deployment_state (bi_pprev n); next_state m ch p s.
Proof.
  intros Hp Hr. pose proof (height_nonneg m Hok p n Hp). cbn [deployment_state]. rewrite Hp. cbn [mbind option_bind].
  rewrite Z.rem_mod_nonneg, Hr, Z.sub_0_r by lia. set (P := Period ch) in *.
  pose proof (Z.div_mod (bi_nHeight n + 1) P ltac:(lia)) as Hd. rewrite Hr in Hd.
  assert (0 < (bi_nHeight n + 1) / P) by nia.
  assert (GetAncestor m p (bi_nHeight n) = Some (Some p)) as ->.
  { rewrite (GetAncestor_spec m Hok p n _ Hp), (proj2 (Z.leb_le 0 _)), Z.leb_refl, Z.sub_diag by done. done. }
  cbn [mbind option_bind]. replace (Z.to_nat ((bi_nHeight n + 1) / P)) with (S (Z.to_nat ((bi_nHeight n + 1) / P - 1))) by lia.
  cbn [ref_state]. rewrite Hp. cbn [mbind option_bind]. fold P.
  destruct (bi_pprev n) as [q|] eqn:Eq; cbn [deployment_state].
  - destruct (parent_ok m Hok p n q Hp Eq) as (nq & Hq & Eh). rewrite Hq. cbn [mbind option_bind].
    pose proof (height_nonneg m Hok q nq Hq). rewrite Z.rem_mod_nonneg by lia. fold P.
    assert ((bi_nHeight nq + 1) / P = (bi_nHeight n + 1) / P - 1) as ->.
    { symmetry. apply (Z.div_unique _ _ _ (P - 1)); nia. }
    assert ((bi_nHeight nq + 1) mod P = P - 1) as ->.
    { symmetry. apply (Z.mod_unique _ _ ((bi_nHeight n + 1) / P - 1)); nia. }
    rewrite (GetAncestor_parent p n q _ Hp Eq) by lia. replace (bi_nHeight nq - (P - 1)) with (bi_nHeight n - P) by lia.
    by destruct (GetAncestor m q (bi_nHeight n - P)).
  - apply (root_height m Hok p n Hp) in Eq. rewrite Eq in *. rewrite (GetAncestor_spec m Hok p n _ Hp).
    rewrite (proj2 (Z.leb_gt 0 (0 - P))) by lia. cbn [andb mbind option_bind].
    replace ((0 + 1) / P - 1) with 0 by nia. done.
Qed.

Lemma deployment_bip9 p s : deployment_state p = Some s -> bip9 p s.
Proof.
  destruct p as [p|]; [|intros [= <-]; constructor]. revert s.
  assert (forall h p n s, m !! p = Some n -> bi_nHeight n < Z.of_nat h -> deployment_state (Some p) = Some s -> bip9 (Some p) s) as Hind.
  { clear p. induction h as [|h IH]; intros p n s Hp Hh Hs; [pose proof (height_nonneg m Hok p n Hp); lia|].
    assert (forall s, deployment_state (bi_pprev n) = Some s -> bip9 (bi_pprev n) s) as Hprev.
    { intros s0. destruct (bi_pprev n) as [q|] eqn:Eq; [|intros [= <-]; constructor].
      destruct (parent_ok m Hok p n q Hp Eq) as (nq & Hq & Eh). apply (IH q nq s0 Hq). lia. }
    destruct (decide ((bi_nHeight n + 1) mod Period ch = 0)) as [E|E].
    - rewrite (deployment_end p n Hp E) in Hs. destruct (deployment_state (bi_pprev n)) as [s0|]; [|done]. cbn in Hs.
      eapply bip9_end; [done|done|by apply Hprev|done].
    - rewrite (deployment_same p n Hp E) in Hs. eapply bip9_same; [done|done|by apply Hprev]. }
  intros s Hs. cbn [deployment_state] in Hs. destruct (m !! p) as [n|] eqn:Hp; [|done].
  apply (Hind (Z.to_nat (bi_nHeight n + 1)) p n s Hp); [pose proof (height_nonneg m Hok p n Hp); lia|].
  cbn [deployment_state]. rewrite Hp. exact Hs.
Qed.
End reference.

(** C39: on a sound index with growing median times, a period that is positive and a start
    not after the timeout, the cached computation of a deployment's state finds every
    entry it needs, ends, gives the state the step relation along the chain defines, and
    leaves the cache with states of the reference only. The cache and the short cut by
    the start time are thus invisible. *)
Theorem GetStateFor_correct m ch pindexPrev cache : index_ok m -> times_ok m -> times_increase m ->
  0 < Period ch -> BeginTime ch <= EndTime ch -> cache_sound m ch cache ->
  match pindexPrev with Some p => is_Some (m !! p) | None => True end ->
  exists cache' s, GetStateFor m ch pindexPrev cache = Some (cache', s) /\ bip9 m ch pindexPrev s /\ cache_sound m ch cache'.
Proof.
  intros Hok Ht Hinc Hper Hse Hc Hp.
  destruct (GetStateFor_spec m ch Hok Ht Hinc Hper Hse pindexPrev cache Hc Hp) as (cache' & s & E & Hd & Hc').
  exists cache', s. split; [done|]. split; [|done]. by apply deployment_bip9.
Qed.

(** Period two, signals from every block, a start at time one. *)
Definition demo_checker : checker := mkChecker (fun _ => true) 1 100 2 2.

Lemma GetStateFor_correct_witness :
  exists cache' s, GetStateFor sample_index demo_checker (Some [x03]) ∅ = Some (cache', s) /\ s = THRESHOLD_LOCKED_IN /\
    bip9 sample_index demo_checker (Some [x03]) s.
Proof.
  destruct (GetStateFor_correct sample_index demo_checker (Some [x03]) ∅) as (cache' & s & E & Hb & _);
    try reflexivity; try exact sample_index_ok; try discriminate.
  - unfold times_ok. refine (bool_decide_unpack _ _). vm_compute. exact I.
  - exact sample_times_increase.
  - by eexists.
  - exists cache', s. split; [exact E|]. split; [|exact Hb].
    assert (snd <$> GetStateFor sample_index demo_checker (Some [x03]) ∅ = Some THRESHOLD_LOCKED_IN) as Hs by reflexivity.
    rewrite E in Hs. by injection Hs.
Defined.

(** ** Final states *)

Lemma bip9_fun m ch p s s' : bip9 m ch p s -> bip9 m ch p s' -> s = s'.
Proof.
  intros H. revert s'. induction H as [|p n s Hp Hr H IH|p n s s1 Hp Hr H IH Hn]; intros s' H'; inversion H'; subst; try congruence.
  - apply IH. congruence.
  - assert (n0 = n) as -> by congruence. rewrite (IH s0) in Hn by done. congruence.
Qed.

(** An active deployment stays active for every descendant, and a failed one failed. *)
Theorem bip9_final m ch k p q s s' : s = THRESHOLD_ACTIVE \/ s = THRESHOLD_FAILED ->
  ancestor m k q = Some p -> bip9 m ch (Some p) s -> bip9 m ch (Some q) s' -> s' = s.
Proof.
  intros Hs. revert q s'. induction k as [|k IH]; intros q s' Ha Hp Hq; cbn [ancestor] in Ha.
  - injection Ha as ->. by eapply bip9_fun.
  - destruct (m !! q) as [n|] eqn:Eq; [|done]. cbn [mbind option_bind] in Ha.
    destruct (bi_pprev n) as [r|] eqn:Er; [|done]. cbn [mbind option_bind] in Ha.
    inversion Hq as [|? n' ? Hn' _ Hr|? n' s0 ? Hn' _ Hr Hnext]; subst; assert (n' = n) as -> by congruence; rewrite Er in Hr.
    + by apply (IH r).
    + assert (s0 = s) as -> by by apply (IH r). by destruct Hs; subst; injection Hnext.
Qed.
