(* ===== verification/Pow.v ===== *)
(** * Proof of work (topchain/src/pow.cpp, the parameters of consensus/params.h)

    The difficulty rule of the next block and the check of a block hash against
    its claimed target. *)

From S2P Require Import Prelude Serialize Primitives ArithUint256 Chain.

(** The fields of [Consensus::Params] that proof of work reads. *)
Record PowParams := mkPowParams {
  powLimit : uint256;
  fPowAllowMinDifficultyBlocks : bool;
  fPowNoRetargeting : bool;
  nPowTargetSpacing : Z;
  nPowTargetTimespan : Z
}.

(** Division of [int64_t] truncates. *)
Definition DifficultyAdjustmentInterval (params : PowParams) : Z :=
  Z.quot (nPowTargetTimespan params) (nPowTargetSpacing params).

(** [bnNew *= nActualTimespan] takes the overload for [uint32_t], [bnNew /= ...] the
    one for [base_uint] through its constructor from [uint64_t]. *)
Definition CalculateNextWorkRequired (last : CBlockIndex) (nFirstBlockTime : Z) (params : PowParams) : option Z :=
  if fPowNoRetargeting params then Some (bi_nBits last)
  else
    let nActualTimespan := bi_nTime last - nFirstBlockTime in
    let nActualTimespan :=
      if nActualTimespan <? Z.quot (nPowTargetTimespan params) 4
      then Z.quot (nPowTargetTimespan params) 4 else nActualTimespan in
    let nActualTimespan :=
      if nActualTimespan >? i64 (nPowTargetTimespan params * 4)
      then i64 (nPowTargetTimespan params * 4) else nActualTimespan in
    let bnPowLimit := UintToArith256 (powLimit params) in
    let bnNew := (SetCompact (bi_nBits last)).1.1 in
    let bnNew := base_uint_mul32 bnNew (u32 nActualTimespan) in
    bnNew ← base_uint_div bnNew (base_uint_of_u64 (u64 (nPowTargetTimespan params)));
    let bnNew := if CompareTo bnNew bnPowLimit >? 0 then bnPowLimit else bnNew in
    GetCompact bnNew false.

(** The last block that was not allowed the minimum difficulty. *)
Fixpoint min_difficulty_walk (fuel : nat) (m : BlockMap) (interval nProofOfWorkLimit : Z) (pindex : uint256) : option Z :=
  match fuel with
  | O => None
  | S fuel =>
      n ← m !! pindex;
      match bi_pprev n with
      | Some pprev =>
          if negb (Z.rem (bi_nHeight n) interval =? 0) && (bi_nBits n =? nProofOfWorkLimit)
          then min_difficulty_walk fuel m interval nProofOfWorkLimit pprev
          else Some (bi_nBits n)
      | None => Some (bi_nBits n)
      end
  end.

Definition GetNextWorkRequired (m : BlockMap) (pindexLast : uint256) (block_nTime : Z) (params : PowParams) : option Z :=
  last ← m !! pindexLast;
  nProofOfWorkLimit ← GetCompact (UintToArith256 (powLimit params)) false;
  let interval := DifficultyAdjustmentInterval params in
  if negb (Z.rem (bi_nHeight last + 1) interval =? 0) then
    if fPowAllowMinDifficultyBlocks params then
      if block_nTime >? bi_nTime last + nPowTargetSpacing params * 2 then Some nProofOfWorkLimit
      else min_difficulty_walk (S (Z.to_nat (bi_nHeight last))) m interval nProofOfWorkLimit pindexLast
    else Some (bi_nBits last)
  else
    let nHeightFirst := bi_nHeight last - (interval - 1) in
    if nHeightFirst <? 0 then None
    else
      first ← GetAncestor m pindexLast nHeightFirst;
      first ← first;
      first ← m !! first;
      CalculateNextWorkRequired last (bi_nTime first) params.

Definition CheckProofOfWork (hash : uint256) (nBits : Z) (params : PowParams) : bool :=
  let '(bnTarget, fNegative, fOverflow) := SetCompact nBits in
  if fNegative || EqualTo bnTarget 0 || fOverflow
     || (CompareTo bnTarget (UintToArith256 (powLimit params)) >? 0) then false
  else if CompareTo (UintToArith256 hash) bnTarget >? 0 then false
  else true.

(** * What proof of work promises *)

Record params_ok (params : PowParams) : Prop := {
  powLimit_wf : uint256_wf (powLimit params);
  spacing_pos : 0 < nPowTargetSpacing params;
  timespan_ge : nPowTargetSpacing params <= nPowTargetTimespan params;
  timespan_lo : 4 <= nPowTargetTimespan params;
  timespan_hi : 4 * nPowTargetTimespan params < 2 ^ 32
}.

Abbreviation limit params := (le_val (powLimit params)) (only parsing).

Lemma uint256_length b : uint256_wf b -> length b = 32%nat.
Proof. unfold base_blob_wf, Zlength. lia. Qed.

Lemma CompareTo_wf256 a b : wf256 a -> wf256 b -> CompareTo a b = compare_sign (uval a) (uval b).
Proof. intros [Ha La] [Hb Lb]. apply CompareTo_spec; [done..|congruence]. Qed.

(** C29: a hash passes the check exactly when the claimed target is valid (positive,
    not negative, not overflowing), not easier than the limit, and the hash read as a
    little-endian number does not exceed it. *)
Theorem CheckProofOfWork_correct hash nBits params :
  uint256_wf hash -> uint256_wf (powLimit params) -> uint_range 32 nBits ->
  CheckProofOfWork hash nBits params = true <->
  exists t, target_valid nBits = Some t /\ t <= limit params /\ le_val hash <= t.
Proof.
  intros Hh Hl Hb. unfold CheckProofOfWork, target_valid. pose proof (SetCompact_spec nBits Hb) as S.
  destruct (SetCompact nBits) as [[t neg] ovf]. destruct S as (Wt & _).
  destruct (UintToArith256_spec _ (uint256_length _ Hh)) as [Wh Eh].
  destruct (UintToArith256_spec _ (uint256_length _ Hl)) as [Wl El].
  rewrite EqualTo_spec by (done || apply Wt). rewrite !CompareTo_wf256, !compare_sign_gt, Eh, El by done.
  destruct neg, ovf, (uval t =? 0), (Z.ltb_spec (limit params) (uval t)), (Z.ltb_spec (uval t) (le_val hash));
    cbn [orb]; split; try done; try (intros (? & [= <-] & ? & ?); lia); try (intros (? & ? & _); discriminate).
  intros _. by exists (uval t).
Qed.

(** A target that passes the check is worth at least one hash. *)
Lemma CheckProofOfWork_work hash nBits params : uint_range 32 nBits -> CheckProofOfWork hash nBits params = true -> 0 < proof_of nBits.
Proof.
  intros Hb. unfold CheckProofOfWork, proof_of, target_valid. pose proof (SetCompact_spec nBits Hb) as S.
  destruct (SetCompact nBits) as [[t neg] ovf]. destruct S as (Wt & _). rewrite EqualTo_spec by (done || apply Wt).
  pose proof (wf256_range t Wt). destruct neg; [done|]. destruct (Z.eqb_spec (uval t) 0); [done|]. destruct ovf; [done|]. intros _. cbn [orb].
  apply Z.div_str_pos. lia.
Qed.

(** The new target: the old one scaled by the clamped time, at most the limit. *)
Definition clamp_timespan (span target : Z) : Z := Z.min (Z.max span (target / 4)) (target * 4).
Definition next_target (t span : Z) (params : PowParams) : Z :=
  Z.min (limit params) (t * clamp_timespan span (nPowTargetTimespan params) / nPowTargetTimespan params).

Lemma clamp_timespan_eq span target :
  4 <= target -> 4 * target < 2 ^ 32 ->
  (let s := if span <? Z.quot target 4 then Z.quot target 4 else span in
   if s >? i64 (target * 4) then i64 (target * 4) else s) = clamp_timespan span target /\
  target / 4 <= clamp_timespan span target <= target * 4.
Proof.
  intros Hlo Hhi. cbn zeta. rewrite Z.quot_div_nonneg by lia.
  rewrite wraps_small by (unfold sint_range; lia). unfold clamp_timespan. pose proof (Z.div_pos target 4).
  assert (target / 4 <= target) by (apply Z.div_le_upper_bound; lia).
  destruct (Z.ltb_spec span (target / 4)), (Z.gtb_spec (if span <? target / 4 then target / 4 else span) (target * 4));
    destruct (Z.gtb_spec (target / 4) (target * 4)), (Z.gtb_spec span (target * 4)); lia.
Qed.

Lemma CalculateNextWorkRequired_val last t0 params :
  params_ok params -> fPowNoRetargeting params = false -> uint_range 32 (bi_nBits last) ->
  uval (SetCompact (bi_nBits last)).1.1 * (4 * nPowTargetTimespan params) < 2 ^ 256 ->
  CalculateNextWorkRequired last t0 params =
  Some (compact_enc (next_target (uval (SetCompact (bi_nBits last)).1.1) (bi_nTime last - t0) params)) /\
  0 <= next_target (uval (SetCompact (bi_nBits last)).1.1) (bi_nTime last - t0) params < 2 ^ 256.
Proof.
  intros [Pl Ps Pg Plo Phi] Hr Hb Hfit. unfold CalculateNextWorkRequired. rewrite Hr.
  destruct (clamp_timespan_eq (bi_nTime last - t0) (nPowTargetTimespan params) Plo Phi) as [Ec Hc].
  cbn zeta in Ec. rewrite Ec. pose proof (SetCompact_spec _ Hb) as S.
  destruct (SetCompact (bi_nBits last)) as [[t neg] ovf]. destruct S as (Wt & _). cbn [fst] in *.
  destruct (UintToArith256_spec _ (uint256_length _ Pl)) as [Wl El]. pose proof (wf256_range t Wt) as Rt.
  pose proof (wf256_range _ Wl) as Rl. rewrite El in Rl.
  set (s := clamp_timespan _ _) in *. assert (0 <= s) by (pose proof (Z.div_pos (nPowTargetTimespan params) 4); lia).
  assert (uint_range 32 s) as Hs by (unfold uint_range; lia). rewrite (wrapu_small 32 s) by done.
  destruct (base_uint_mul32_spec t s (proj1 Wt) Hs) as (M1 & M2 & M3).
  rewrite (modulus_256 t Wt), Z.mod_small in M3 by nia.
  destruct (wf256_of_u64 (nPowTargetTimespan params) ltac:(unfold uint_range; lia)) as [Wd Ud].
  rewrite (wrapu_small 64) by (unfold uint_range; lia).
  pose proof (base_uint_div_spec _ _ M1 (proj1 Wd) ltac:(rewrite M2, (proj2 Wt), (proj2 Wd); done)) as D.
  rewrite Ud, (proj2 (Z.eqb_neq _ _)) in D by lia. destruct D as (q & -> & Q1 & Q2 & Q3). cbn [mbind option_bind].
  assert (wf256 q) as Wq by (split; [done|by rewrite Q2, M2, (proj2 Wt)]).
  rewrite CompareTo_wf256, compare_sign_gt, El by done.
  pose proof (wf256_range q Wq) as Rq. unfold next_target. fold s. rewrite <- M3, <- Q3. split; [|lia].
  destruct (Z.ltb_spec (limit params) (uval q)); rewrite GetCompact_spec by done; rewrite ?El; do 2 f_equal; lia.
Qed.

(** The retarget multiplies the old target by the elapsed time, clamped to a
    factor of four either way, caps it at the limit and encodes it; nothing overflows
    or throws, and the target the new bits stand for is valid, at most the limit and
    at most four times the old one. *)
Theorem CalculateNextWorkRequired_correct last t0 params :
  params_ok params -> fPowNoRetargeting params = false -> uint_range 32 (bi_nBits last) ->
  uval (SetCompact (bi_nBits last)).1.1 * (4 * nPowTargetTimespan params) < 2 ^ 256 ->
  let told := uval (SetCompact (bi_nBits last)).1.1 in
  let tnew := next_target told (bi_nTime last - t0) params in
  exists c b, CalculateNextWorkRequired last t0 params = Some c /\ c = compact_enc tnew /\
    SetCompact c = (b, false, false) /\ uval b <= tnew /\ (tnew - uval b) * 2 ^ 15 <= tnew /\
    uval b <= limit params /\ uval b <= 4 * told.
Proof.
  intros Hp Hr Hb Hfit told tnew. destruct (CalculateNextWorkRequired_val last t0 params Hp Hr Hb Hfit) as [E R].
  fold told in E, R. fold tnew in E, R.
  destruct (compact_decodes tnew R) as (b & Hset & _ & Hle & Hprec & _).
  exists (compact_enc tnew), b. split_and!; try done.
  - apply Z.le_trans with tnew; [done|]. unfold tnew, next_target. lia.
  - apply Z.le_trans with tnew; [done|]. unfold tnew, next_target.
    assert (told * clamp_timespan (bi_nTime last - t0) (nPowTargetTimespan params) / nPowTargetTimespan params <= 4 * told); [|lia].
    destruct Hp as [_ _ _ Plo Phi]. destruct (clamp_timespan_eq (bi_nTime last - t0) _ Plo Phi) as [_ Hc].
    pose proof (wf256_range (SetCompact (bi_nBits last)).1.1) as W. pose proof (SetCompact_spec _ Hb) as S.
    unfold told in *. destruct (SetCompact (bi_nBits last)) as [[t neg] ovf]. destruct S as (Wt & _).
    specialize (W Wt). cbn [fst] in *. apply Z.div_le_upper_bound; nia.
Qed.

(** The retarget never throws, even where the multiplication wraps. *)
Lemma CalculateNextWorkRequired_total last t0 params :
  params_ok params -> uint_range 32 (bi_nBits last) -> is_Some (CalculateNextWorkRequired last t0 params).
Proof.
  intros [Pl Ps Pg Plo Phi] Hb. unfold CalculateNextWorkRequired. destruct (fPowNoRetargeting params); [done|]. cbn zeta.
  set (s := u32 _). assert (uint_range 32 s) as Hs by (unfold s, wrapu, uint_range; apply Z.mod_pos_bound; lia).
  pose proof (SetCompact_spec _ Hb) as S. destruct (SetCompact (bi_nBits last)) as [[t neg] ovf]. destruct S as (Wt & _). cbn [fst] in *.
  destruct (UintToArith256_spec _ (uint256_length _ Pl)) as [Wl El].
  destruct (base_uint_mul32_spec t s (proj1 Wt) Hs) as (M1 & M2 & M3).
  destruct (wf256_of_u64 (nPowTargetTimespan params) ltac:(unfold uint_range; lia)) as [Wd Ud].
  rewrite (wrapu_small 64) by (unfold uint_range; lia).
  pose proof (base_uint_div_spec _ _ M1 (proj1 Wd) ltac:(rewrite M2, (proj2 Wt), (proj2 Wd); done)) as D.
  rewrite Ud, (proj2 (Z.eqb_neq _ _)) in D by lia. destruct D as (q & -> & Q1 & Q2 & Q3). cbn [mbind option_bind].
  assert (wf256 q) as Wq by (split; [done|by rewrite Q2, M2, (proj2 Wt)]).
  destruct (_ >? 0); by rewrite GetCompact_spec.
Qed.

(** The block the minimum-difficulty rule stops at: every block before it on the way
    down was mined at the limit inside an interval, and it was not (or has no parent). *)
Definition walk_stop (m : BlockMap) (interval bits : Z) (p : uint256) (r : Z) : Prop :=
  exists k q nq, ancestor m k p = Some q /\ m !! q = Some nq /\ r = bi_nBits nq /\
    (bi_pprev nq = None \/ Z.rem (bi_nHeight nq) interval = 0 \/ bi_nBits nq <> bits) /\
    forall k' x nx, (k' < k)%nat -> ancestor m k' p = Some x -> m !! x = Some nx ->
      Z.rem (bi_nHeight nx) interval <> 0 /\ bi_nBits nx = bits.

Lemma min_difficulty_walk_spec m interval bits fuel p n :
  index_ok m -> m !! p = Some n -> bi_nHeight n < Z.of_nat fuel ->
  exists r, min_difficulty_walk fuel m interval bits p = Some r /\ walk_stop m interval bits p r.
Proof.
  intros Hok. revert p n. induction fuel as [|fuel IH]; intros p n Hp Hf.
  { pose proof (height_nonneg m Hok p n Hp). lia. }
  cbn [min_difficulty_walk]. rewrite Hp. cbn [mbind option_bind].
  assert ((bi_pprev n = None \/ Z.rem (bi_nHeight n) interval = 0 \/ bi_nBits n <> bits) ->
          walk_stop m interval bits p (bi_nBits n)) as Hstop.
  { intros H. exists O, p, n. split_and!; [done..|]. intros; lia. }
  destruct (bi_pprev n) as [q|] eqn:Hq; [|eexists; split; [done|auto]].
  destruct (Z.eqb_spec (Z.rem (bi_nHeight n) interval) 0) as [E|E]; [eexists; split; [done|auto]|]. cbn [negb andb].
  destruct (Z.eqb_spec (bi_nBits n) bits) as [E'|E']; [|eexists; split; [done|auto]].
  destruct (parent_ok m Hok p n q Hp Hq) as (nq & Hnq & Eh).
  destruct (IH q nq Hnq ltac:(lia)) as (r & Hr & k & x & nx & K1 & K2 & K3 & K4 & K5).
  assert (forall j, ancestor m (S j) p = ancestor m j q) as G.
  { intros j. cbn [ancestor]. rewrite Hp. cbn [mbind option_bind]. by rewrite Hq. }
  exists r. split; [done|]. exists (S k), x, nx. rewrite G. split_and!; [done..|].
  intros [|k'] y ny Hk'; [intros [= <-]; rewrite Hp; by intros [= <-]|]. rewrite G. apply K5. lia.
Qed.

Lemma GetNextWorkRequired_spec m p last t params :
  index_ok m -> params_ok params -> m !! p = Some last ->
  let interval := nPowTargetTimespan params / nPowTargetSpacing params in
  let bits := compact_enc (limit params) in
  if (bi_nHeight last + 1) mod interval =? 0 then
    exists f nf, ancestor m (Z.to_nat (interval - 1)) p = Some f /\ m !! f = Some nf /\
      GetNextWorkRequired m p t params = CalculateNextWorkRequired last (bi_nTime nf) params
  else if fPowAllowMinDifficultyBlocks params then
    if t >? bi_nTime last + nPowTargetSpacing params * 2 then GetNextWorkRequired m p t params = Some bits
    else exists r, GetNextWorkRequired m p t params = Some r /\ walk_stop m interval bits p r
  else GetNextWorkRequired m p t params = Some (bi_nBits last).
Proof.
  intros Hok [Pl Ps Pg Plo Phi] Hp interval bits. unfold GetNextWorkRequired. rewrite Hp. cbn [mbind option_bind].
  destruct (UintToArith256_spec _ (uint256_length _ Pl)) as [Wl El].
  rewrite GetCompact_spec, El by done. cbn [mbind option_bind]. fold bits.
  unfold DifficultyAdjustmentInterval. rewrite Z.quot_div_nonneg by lia. fold interval.
  assert (0 < interval) by (apply Z.div_str_pos; lia). pose proof (height_nonneg m Hok p last Hp).
  rewrite Z.rem_mod_nonneg by lia. destruct (Z.eqb_spec ((bi_nHeight last + 1) mod interval) 0) as [E|E]; cbn [negb].
  - assert (interval <= bi_nHeight last + 1).
    { apply Z.mod_divide in E as [k Ek]; [|lia]. assert (0 < k) by nia. nia. }
    rewrite (proj2 (Z.ltb_ge _ _)) by lia. rewrite (GetAncestor_spec m Hok p last _ Hp).
    rewrite (proj2 (Z.leb_le 0 _)), (proj2 (Z.leb_le _ (bi_nHeight last))) by lia. cbn [andb].
    replace (bi_nHeight last - (bi_nHeight last - (interval - 1))) with (interval - 1) by lia.
    destruct (ancestor_height m Hok (Z.to_nat (interval - 1)) p last Hp ltac:(lia)) as (f & nf & Ef & Hf & _).
    exists f, nf. rewrite Ef. cbn [mbind option_bind]. rewrite Hf. done.
  - destruct (fPowAllowMinDifficultyBlocks params); [|done].
    destruct (t >? bi_nTime last + nPowTargetSpacing params * 2); [done|].
    apply (min_difficulty_walk_spec m interval bits _ p last Hok Hp). lia.
Qed.

Lemma GetNextWorkRequired_total m p last t params :
  index_ok m -> params_ok params -> m !! p = Some last -> uint_range 32 (bi_nBits last) ->
  is_Some (GetNextWorkRequired m p t params).
Proof.
  intros Hok Hpar Hp Hb. pose proof (GetNextWorkRequired_spec m p last t params Hok Hpar Hp) as S. cbn zeta in S.
  destruct (_ =? 0); [destruct S as (f & nf & _ & _ & ->); by apply CalculateNextWorkRequired_total|].
  destruct (fPowAllowMinDifficultyBlocks params); [|by rewrite S].
  destruct (t >? _); [by rewrite S|]. destruct S as (r & -> & _). done.
Qed.

(** C30: the required work of the next block never fails on a well-formed index.
    Inside an adjustment interval it is that of the last block, except on networks
    that allow minimum difficulty; at the end of an interval it is the retarget from
    the first block of the interval, found [interval - 1] parents back. *)
Theorem GetNextWorkRequired_correct m p last t params :
  index_ok m -> params_ok params -> m !! p = Some last ->
  let interval := nPowTargetTimespan params / nPowTargetSpacing params in
  let bits := compact_enc (limit params) in
  if (bi_nHeight last + 1) mod interval =? 0 then
    exists f nf, ancestor m (Z.to_nat (interval - 1)) p = Some f /\ m !! f = Some nf /\
      GetNextWorkRequired m p t params = CalculateNextWorkRequired last (bi_nTime nf) params
  else if fPowAllowMinDifficultyBlocks params then
    if t >? bi_nTime last + nPowTargetSpacing params * 2 then GetNextWorkRequired m p t params = Some bits
    else exists r, GetNextWorkRequired m p t params = Some r /\ walk_stop m interval bits p r
  else GetNextWorkRequired m p t params = Some (bi_nBits last).
Proof. apply GetNextWorkRequired_spec. Qed.

(** ** Instances of the statements *)

(** Two-week retargeting with the limit [2^224 - 1], as on the main network. *)
Definition sample_params : PowParams :=
  mkPowParams (replicate 28 xff ++ replicate 4 x00) false false 600 1209600.

Lemma sample_params_ok : params_ok sample_params.
Proof. split; vm_compute; congruence. Qed.

Lemma CheckProofOfWork_correct_witness :
  CheckProofOfWork (x05 :: replicate 31 x00) 0x1d00ffff sample_params = true <->
  exists t, target_valid 0x1d00ffff = Some t /\ t <= limit sample_params /\ le_val (x05 :: replicate 31 x00) <= t.
Proof.
  refine (CheckProofOfWork_correct (x05 :: replicate 31 x00) 0x1d00ffff sample_params _ _ _); done.
Defined.

Definition sample_last : CBlockIndex := sample_node None None 0.

Lemma CalculateNextWorkRequired_correct_witness :
  exists c b, CalculateNextWorkRequired sample_last (-600000) sample_params = Some c /\
    c = compact_enc (next_target (uval (SetCompact 0x1d00ffff).1.1) 600000 sample_params) /\
    SetCompact c = (b, false, false) /\
    uval b <= next_target (uval (SetCompact 0x1d00ffff).1.1) 600000 sample_params /\
    (next_target (uval (SetCompact 0x1d00ffff).1.1) 600000 sample_params - uval b) * 2 ^ 15 <=
      next_target (uval (SetCompact 0x1d00ffff).1.1) 600000 sample_params /\
    uval b <= limit sample_params /\ uval b <= 4 * uval (SetCompact 0x1d00ffff).1.1.
Proof.
  exact (CalculateNextWorkRequired_correct sample_last (-600000) sample_params sample_params_ok eq_refl
    ltac:(vm_compute; split; congruence) ltac:(vm_compute; reflexivity)).
Defined.

Lemma GetNextWorkRequired_correct_witness :
  GetNextWorkRequired sample_index [x03] 7 sample_params = Some 0x1d00ffff.
Proof.
  exact (GetNextWorkRequired_correct sample_index [x03] sample_n3 7 sample_params sample_index_ok sample_params_ok eq_refl).
Defined.
