(* ===== verification/SubChainMeta.v ===== *)
(** * The pool of sub-chain metadata (topchain/src/txmempool.h, txmempool.cpp)

    [CSubChainMetaMemPool] records the transactions that create and operate
    sub-chains: the entries by transaction id, and for each sub-chain id the
    transaction of its last operation. The multi-index container is the map of its
    unique index; the order in which its second index (by sub-chain id) is iterated
    is that of a hash table and a parameter of the operation that reads it. *)

From S2P Require Import Prelude Serialize Sha256 Primitives.

Record LockPoints := mkLockPoints { lp_height : Z; lp_time : Z; lp_maxInputBlock : option uint256 }.
Definition LockPoints_default : LockPoints := mkLockPoints 0 0 None.

#[local] Set Warnings "-register-all".
Inductive CSubChainMetaMemPoolEntry := mkMetaEntry {
  me_tx : CTransactionRef;
  me_previous : option CSubChainMetaMemPoolEntry;
  me_subChainId : uint256;
  me_nOpType : Z;
  me_nTime : Z;
  me_entryHeight : Z;
  me_lockPoints : LockPoints
}.

Definition me_hash (e : CSubChainMetaMemPoolEntry) : uint256 := ref_hash (me_tx e).

Record CSubChainMetaMemPool := mkMetaPool {
  mapSubChainMeta : gmap (list byte) CSubChainMetaMemPoolEntry;
  mapLastOperation : gmap (list byte) (list byte)
}.

Definition MetaPool_empty : CSubChainMetaMemPool := mkMetaPool ∅ ∅.

(** [mapSubChainMeta.insert]: the first index is unique, a second entry with the same
    transaction id is not inserted. *)
Definition meta_insert (e : CSubChainMetaMemPoolEntry) (m : gmap (list byte) CSubChainMetaMemPoolEntry)
  : gmap (list byte) CSubChainMetaMemPoolEntry :=
  match m !! me_hash e with Some _ => m | None => <[me_hash e := e]> m end.

(** [addToMemPool(const CSubChainMetaMemPoolEntry&)] *)
Definition addToMemPool_entry (pool : CSubChainMetaMemPool) (entry : CSubChainMetaMemPoolEntry)
  : CSubChainMetaMemPool * bool :=
  match mapLastOperation pool !! me_subChainId entry with
  | Some last =>
      match me_previous entry with
      | Some ppre =>
          if bool_decide (last = me_hash ppre) then
            (mkMetaPool (meta_insert entry (mapSubChainMeta pool))
               (<[me_subChainId entry := me_hash entry]> (mapLastOperation pool)), true)
          else (pool, false)
      | None => (pool, false)
      end
  | None =>
      if me_nOpType entry =? EXTDATA_CREATESUBCHAIN then
        (mkMetaPool (meta_insert entry (mapSubChainMeta pool))
           (<[me_subChainId entry := me_hash entry]> (mapLastOperation pool)), true)
      else (pool, false)
  end.

Definition GetEntryByTxId (pool : CSubChainMetaMemPool) (txid : uint256) : option CSubChainMetaMemPoolEntry :=
  mapSubChainMeta pool !! txid.

(** [addToMemPool(const CTransactionRef&, ...)]; the error is the exception of
    [GetSubChainId] on extension data of the wrong type. *)
Definition addToMemPool (pool : CSubChainMetaMemPool) (ptx : CTransactionRef) (nTime entryHeight : Z) (lp : LockPoints)
  : result ser_error (CSubChainMetaMemPool * bool) :=
  subchainid ← GetSubChainId (extData (ref_tx ptx));
  Ok (if negb (uint256_IsNull subchainid) then
        if nExtType (extData (ref_tx ptx)) =? EXTDATA_CREATESUBCHAIN then
          addToMemPool_entry pool
            (mkMetaEntry ptx None subchainid (nExtType (extData (ref_tx ptx))) nTime entryHeight lp)
        else
          let pretxid := GetPreTxId (extData (ref_tx ptx)) in
          if negb (uint256_IsNull pretxid) then
            match GetEntryByTxId pool pretxid with
            | Some ppre =>
                addToMemPool_entry pool
                  (mkMetaEntry ptx (Some ppre) subchainid (nExtType (extData (ref_tx ptx))) nTime entryHeight lp)
            | None => (pool, false)
            end
          else (pool, false)
      else (pool, false)).

(** [idx.find(subchainid)] and the loop to [idx.end()], over the order of the index. *)
Fixpoint GetEntryBySubChainId (order : list CSubChainMetaMemPoolEntry) (subchainid : uint256)
  : list CSubChainMetaMemPoolEntry :=
  match order with
  | [] => []
  | e :: order' =>
      if bool_decide (me_subChainId e = subchainid) then order else GetEntryBySubChainId order' subchainid
  end.

(** The call in [AcceptToMemoryPoolWorker]. *)
Definition accept_meta (pool : CSubChainMetaMemPool) (ptx : CTransactionRef) (nAcceptTime height : Z) (lp : LockPoints)
  : result ser_error CSubChainMetaMemPool :=
  if NeedsToSaveMeta (extData (ref_tx ptx))
  then r ← addToMemPool pool ptx nAcceptTime height lp; Ok r.1
  else Ok pool.

(** ** Loading from the database *)

Definition DB_TXINDEX : byte := x74.

Record CDiskTxPos := mkDiskTxPos { tp_nFile : Z; tp_nPos : Z; tp_nTxOffset : Z }.

(** A record under the cursor: what [GetKey] and [GetValue] give, if they succeed. *)
Record meta_record := mkMetaRecord {
  mr_key : option (byte * uint256);
  mr_value : option CDiskTxPos
}.

(** Opening the block file and reading a transaction at its offset. *)
Inductive file_read := FileNull | ReadThrows | ReadTx (ptx : CTransactionRef).

Section load.
Context (read_tx : CDiskTxPos -> file_read).

(** The records from the sought position on. *)
Fixpoint LoadSubChainMetaData (records : list meta_record) (pool : CSubChainMetaMemPool) : CSubChainMetaMemPool * bool :=
  match records with
  | [] => (pool, true)
  | r :: records =>
      match mr_key r with
      | Some (k, _) =>
          if bool_decide (k = DB_TXINDEX) then
            match mr_value r with
            | Some postx =>
                match read_tx postx with
                | FileNull => (pool, false)
                | ReadThrows => (pool, false)
                | ReadTx ptx =>
                    match addToMemPool pool ptx 0 0 LockPoints_default with
                    | Ok (pool, _) => LoadSubChainMetaData records pool
                    | Err _ => (pool, false)
                    end
                end
            | None => (pool, false)
            end
          else (pool, true)
      | None => (pool, true)
      end
  end.
End load.

(** * The invariant of the pool *)

Definition entry_ok (e : CSubChainMetaMemPoolEntry) : Prop :=
  GetSubChainId (extData (ref_tx (me_tx e))) = Ok (me_subChainId e) /\
  me_nOpType e = nExtType (extData (ref_tx (me_tx e))) /\
  uint256_IsNull (me_subChainId e) = false.

(** Entries are filed under the hash of their transaction, agree with the extension
    data of that transaction, and belong to sub-chains whose creation is recorded;
    every recorded sub-chain has exactly one entry that creates it, and the last
    operation of a sub-chain is an entry of it. *)
Record meta_inv (pool : CSubChainMetaMemPool) : Prop := {
  inv_key : forall h e, mapSubChainMeta pool !! h = Some e -> h = me_hash e /\ entry_ok e;
  inv_created : forall id last, mapLastOperation pool !! id = Some last ->
    (exists e, mapSubChainMeta pool !! last = Some e /\ me_subChainId e = id) /\
    exists c, mapSubChainMeta pool !! me_hash c = Some c /\ me_subChainId c = id /\ me_nOpType c = EXTDATA_CREATESUBCHAIN;
  inv_known : forall h e, mapSubChainMeta pool !! h = Some e -> is_Some (mapLastOperation pool !! me_subChainId e);
  inv_unique : forall h1 h2 e1 e2, mapSubChainMeta pool !! h1 = Some e1 -> mapSubChainMeta pool !! h2 = Some e2 ->
    me_subChainId e1 = me_subChainId e2 -> me_nOpType e1 = EXTDATA_CREATESUBCHAIN ->
    me_nOpType e2 = EXTDATA_CREATESUBCHAIN -> h1 = h2
}.

Lemma meta_inv_empty : meta_inv MetaPool_empty.
Proof. by split; intros *; rewrite ?lookup_empty. Qed.

(** The only operation that changes the pool. *)
Lemma addToMemPool_create pool ptx nTime h lp id :
  GetSubChainId (extData (ref_tx ptx)) = Ok id -> uint256_IsNull id = false ->
  nExtType (extData (ref_tx ptx)) = EXTDATA_CREATESUBCHAIN ->
  addToMemPool pool ptx nTime h lp =
  Ok (match mapLastOperation pool !! id with
      | Some _ => (pool, false)
      | None =>
          let e := mkMetaEntry ptx None id EXTDATA_CREATESUBCHAIN nTime h lp in
          (mkMetaPool (meta_insert e (mapSubChainMeta pool)) (<[id := ref_hash ptx]> (mapLastOperation pool)), true)
      end).
Proof.
  intros Hid Hn Ht. unfold addToMemPool. rewrite Hid. cbn [mbind result_bind]. rewrite Hn, Ht. cbn [negb].
  unfold addToMemPool_entry. cbn. by destruct (mapLastOperation pool !! id).
Qed.

Lemma addToMemPool_other pool ptx nTime h lp r :
  nExtType (extData (ref_tx ptx)) <> EXTDATA_CREATESUBCHAIN \/
  GetSubChainId (extData (ref_tx ptx)) = Ok uint256_zero ->
  addToMemPool pool ptx nTime h lp = Ok r -> r = (pool, false).
Proof.
  intros H. unfold addToMemPool. destruct (GetSubChainId _) as [id|]; [|done]. cbn [mbind result_bind].
  destruct (uint256_IsNull id) eqn:En; cbn [negb]; [by intros [= <-]|].
  destruct (Z.eqb_spec (nExtType (extData (ref_tx ptx))) EXTDATA_CREATESUBCHAIN) as [E|E].
  - destruct H as [H|[= ->]]; [done|]. by vm_compute in En.
  - by intros [= <-].
Qed.

Lemma meta_insert_fresh e m : m !! me_hash e = None -> meta_insert e m = <[me_hash e := e]> m.
Proof. unfold meta_insert. by intros ->. Qed.

(** Recording a creation whose transaction id is not taken. *)
Lemma meta_inv_create pool ptx nTime h lp id :
  meta_inv pool -> GetSubChainId (extData (ref_tx ptx)) = Ok id -> uint256_IsNull id = false ->
  nExtType (extData (ref_tx ptx)) = EXTDATA_CREATESUBCHAIN ->
  mapLastOperation pool !! id = None -> mapSubChainMeta pool !! ref_hash ptx = None ->
  let e := mkMetaEntry ptx None id EXTDATA_CREATESUBCHAIN nTime h lp in
  meta_inv (mkMetaPool (<[ref_hash ptx := e]> (mapSubChainMeta pool)) (<[id := ref_hash ptx]> (mapLastOperation pool))).
Proof.
  intros [K C W U] Hid Hn Ht Hl Hm e.
  assert (forall h0 e0, mapSubChainMeta pool !! h0 = Some e0 -> me_subChainId e0 <> id) as Hfresh.
  { intros h0 e0 H0 E. apply W in H0. rewrite E, Hl in H0. by destruct H0. }
  split; cbn [mapSubChainMeta mapLastOperation].
  - intros h0 e0. destruct (decide (h0 = ref_hash ptx)) as [->|].
    + rewrite lookup_insert_eq. intros [= <-]. by split_and!.
    + rewrite lookup_insert_ne by done. apply K.
  - intros i last. destruct (decide (i = id)) as [->|].
    + rewrite lookup_insert_eq. intros [= <-]. split; exists e; by rewrite lookup_insert_eq.
    + rewrite lookup_insert_ne by done. intros H0. destruct (C i last H0) as [(x & X1 & X2) (c & C1 & C2 & C3)]. split.
      * exists x. rewrite lookup_insert_ne by congruence. done.
      * exists c. rewrite lookup_insert_ne by congruence. done.
  - intros h0 e0. destruct (decide (h0 = ref_hash ptx)) as [->|].
    + rewrite lookup_insert_eq. intros [= <-]. rewrite lookup_insert_eq. by eexists.
    + rewrite lookup_insert_ne by done. intros H0. rewrite lookup_insert_ne by (symmetry; eauto). eauto.
  - intros h1 h2 e1 e2. destruct (decide (h1 = ref_hash ptx)) as [->|], (decide (h2 = ref_hash ptx)) as [->|];
      rewrite ?lookup_insert_eq, ?lookup_insert_ne by done.
    + done.
    + intros [= <-] H2 E. exfalso. by apply (Hfresh h2 e2 H2).
    + intros H1 [= <-] E. exfalso. by apply (Hfresh h1 e1 H1).
    + apply U.
Qed.

(** ** Histories *)

(** No two transactions in the pool and the one being added share an id. *)
Definition no_collision (pool : CSubChainMetaMemPool) (ptx : CTransactionRef) : Prop :=
  forall e, mapSubChainMeta pool !! ref_hash ptx = Some e -> ref_tx (me_tx e) = ref_tx ptx.

Inductive meta_reachable : CSubChainMetaMemPool -> Prop :=
| meta_start : meta_reachable MetaPool_empty
| meta_step pool ptx nTime h lp pool' b :
    meta_reachable pool -> no_collision pool ptx ->
    addToMemPool pool ptx nTime h lp = Ok (pool', b) -> meta_reachable pool'.

(** The creation of a sub-chain with a proper id that is not recorded yet. *)
Definition creates_new (pool : CSubChainMetaMemPool) (ptx : CTransactionRef) (id : uint256) : Prop :=
  nExtType (extData (ref_tx ptx)) = EXTDATA_CREATESUBCHAIN /\
  GetSubChainId (extData (ref_tx ptx)) = Ok id /\ uint256_IsNull id = false /\
  mapLastOperation pool !! id = None.

Lemma addToMemPool_cases pool ptx nTime h lp pool' b :
  addToMemPool pool ptx nTime h lp = Ok (pool', b) ->
  (b = false /\ pool' = pool /\ forall id, ~ creates_new pool ptx id) \/
  (b = true /\ exists id, creates_new pool ptx id /\
     pool' = mkMetaPool (meta_insert (mkMetaEntry ptx None id EXTDATA_CREATESUBCHAIN nTime h lp) (mapSubChainMeta pool))
               (<[id := ref_hash ptx]> (mapLastOperation pool))).
Proof.
  intros H. destruct (decide (nExtType (extData (ref_tx ptx)) = EXTDATA_CREATESUBCHAIN)) as [Ht|Ht].
  - destruct (GetSubChainId (extData (ref_tx ptx))) as [id|e] eqn:Hid;
      [|unfold addToMemPool in H; by rewrite Hid in H].
    destruct (uint256_IsNull id) eqn:Hn.
    + left. unfold addToMemPool in H. rewrite Hid in H. cbn [mbind result_bind] in H. rewrite Hn in H.
      injection H as <- <-. split_and!; [done..|]. intros id' (_ & E & E' & _). rewrite Hid in E. injection E as <-. congruence.
    + rewrite (addToMemPool_create pool ptx nTime h lp id) in H by done.
      destruct (mapLastOperation pool !! id) as [l|] eqn:El; injection H as <- <-.
      * left. split_and!; [done..|]. intros id' (_ & E & _ & E'). rewrite Hid in E. injection E as <-. congruence.
      * right. split; [done|]. by exists id.
  - left. pose proof (addToMemPool_other pool ptx nTime h lp _ (or_introl Ht) H) as [= -> ->].
    split_and!; [done..|]. by intros id (E & _).
Qed.

Lemma creates_new_fresh pool ptx id :
  meta_inv pool -> no_collision pool ptx -> creates_new pool ptx id -> mapSubChainMeta pool !! ref_hash ptx = None.
Proof.
  intros [K C W U] Hnc (Ht & Hid & Hn & Hl). destruct (mapSubChainMeta pool !! ref_hash ptx) as [e|] eqn:E; [|done].
  exfalso. destruct (K _ _ E) as [_ [He _]]. rewrite (Hnc e E), Hid in He. injection He as He.
  destruct (W _ _ E) as [x Hx]. rewrite <- He, Hl in Hx. done.
Qed.

Lemma addToMemPool_inv pool ptx nTime h lp pool' b :
  meta_inv pool -> no_collision pool ptx -> addToMemPool pool ptx nTime h lp = Ok (pool', b) -> meta_inv pool'.
Proof.
  intros Hinv Hnc H. apply addToMemPool_cases in H as [(_ & -> & _)|(_ & id & Hc & ->)]; [done|].
  pose proof (creates_new_fresh pool ptx id Hinv Hnc Hc) as Hf. destruct Hc as (Ht & Hid & Hn & Hl).
  rewrite meta_insert_fresh by done. by apply meta_inv_create.
Qed.

Lemma meta_reachable_inv pool : meta_reachable pool -> meta_inv pool.
Proof.
  induction 1 as [|pool ptx nTime h lp pool' b _ IH Hnc H]; [apply meta_inv_empty|].
  by apply (addToMemPool_inv pool ptx nTime h lp pool' b).
Qed.

Lemma meta_reachable_creations pool h e :
  meta_reachable pool -> mapSubChainMeta pool !! h = Some e -> me_nOpType e = EXTDATA_CREATESUBCHAIN.
Proof.
  intros Hr. revert h e. induction Hr as [|pool ptx nTime t lp pool' b _ IH Hnc H]; intros h e; [cbn; by rewrite lookup_empty|].
  apply addToMemPool_cases in H as [(_ & -> & _)|(_ & id & Hc & ->)]; [apply IH|]. cbn [mapSubChainMeta].
  unfold meta_insert. destruct (mapSubChainMeta pool !! _); [apply IH|]. cbn [me_hash me_tx].
  destruct (decide (h = ref_hash ptx)) as [->|]; [rewrite lookup_insert_eq; by intros [= <-]|].
  rewrite lookup_insert_ne by done. apply IH.
Qed.

(** * What the pool promises *)

(** C31: in every pool that adding transactions can build, each recorded sub-chain has
    exactly one creating entry and its last operation is one of its entries; and adding
    a transaction returns true exactly when it creates a sub-chain with a proper,
    unrecorded id, which it then records, and otherwise leaves the pool as it was. *)
Theorem meta_pool_correct pool ptx nTime h lp pool' b :
  meta_reachable pool -> no_collision pool ptx -> addToMemPool pool ptx nTime h lp = Ok (pool', b) ->
  meta_inv pool' /\
  if b then exists id, creates_new pool ptx id /\ mapLastOperation pool' = <[id := ref_hash ptx]> (mapLastOperation pool) /\
                       GetEntryByTxId pool' (ref_hash ptx) =
                       Some (mkMetaEntry ptx None id EXTDATA_CREATESUBCHAIN nTime h lp)
  else pool' = pool /\ forall id, ~ creates_new pool ptx id.
Proof.
  intros Hr Hnc H. pose proof (meta_reachable_inv pool Hr) as Hinv. split; [by apply (addToMemPool_inv pool ptx nTime h lp pool' b)|].
  apply addToMemPool_cases in H as [(-> & -> & H)|(-> & id & Hc & ->)]; [done|]. exists id.
  rewrite meta_insert_fresh by exact (creates_new_fresh pool ptx id Hinv Hnc Hc).
  split_and!; [done..|]. apply lookup_insert_eq.
Qed.


(** Only creations are ever recorded. The branch that chains an operation to the
    previous one needs the id of a previous transaction, and [GetPreTxId] always
    returns null, so a backup of a sub-block never reaches the pool. *)
Theorem meta_only_creations pool ptx nTime h lp e :
  meta_reachable pool -> ext_data (extData (ref_tx ptx)) = AnyBackup e ->
  nExtType (extData (ref_tx ptx)) = EXTDATA_BACKUPSUBBLOCK ->
  addToMemPool pool ptx nTime h lp = Ok (pool, false) /\
  forall t x, mapSubChainMeta pool !! t = Some x -> me_nOpType x = EXTDATA_CREATESUBCHAIN.
Proof.
  intros Hr Hd Ht. split; [|intros t x; by apply meta_reachable_creations].
  destruct (addToMemPool pool ptx nTime h lp) as [r|er] eqn:H.
  - f_equal. apply (addToMemPool_other pool ptx nTime h lp r); [|done]. left. by rewrite Ht.
  - unfold addToMemPool, GetSubChainId in H. by rewrite Hd, Ht in H.
Qed.

(** ** Queries by sub-chain *)

(** The second index keeps entries with equal keys next to each other. *)
Definition grouped (order : list CSubChainMetaMemPoolEntry) : Prop :=
  forall l1 e l2 e' l3, order = l1 ++ e :: l2 ++ e' :: l3 -> me_subChainId e = me_subChainId e' ->
    Forall (fun x => me_subChainId x = me_subChainId e) l2.

Definition of_subchain (id : uint256) (e : CSubChainMetaMemPoolEntry) : Prop := me_subChainId e = id.
#[global] Instance of_subchain_dec id e : Decision (of_subchain id e).
Proof. unfold of_subchain. apply _. Defined.

Lemma filter_none {A} (P : A -> Prop) `{forall x, Decision (P x)} (l : list A) :
  Forall (fun x => ~ P x) l -> filter P l = [].
Proof. induction 1 as [|x l Hx _ IH]; [done|]. by rewrite filter_cons_False. Qed.

Lemma GetEntry_suffix order id :
  exists before, order = before ++ GetEntryBySubChainId order id /\ Forall (fun x => ~ of_subchain id x) before /\
    match GetEntryBySubChainId order id with [] => True | e :: _ => of_subchain id e end.
Proof.
  induction order as [|e order (before & E & F & H)]; [by exists []|]. cbn [GetEntryBySubChainId].
  destruct (bool_decide _) eqn:Ed.
  - apply bool_decide_eq_true in Ed. exists []. by split_and!.
  - apply bool_decide_eq_false in Ed. exists (e :: before). split_and!; [by rewrite E at 1|by constructor|done].
Qed.

(** After the entries of a sub-chain, none of a grouped order belongs to it. *)
Lemma grouped_split order id e l :
  grouped order -> (exists before, order = before ++ e :: l) -> of_subchain id e ->
  exists rest, e :: l = filter (of_subchain id) (e :: l) ++ rest /\ Forall (fun x => ~ of_subchain id x) rest.
Proof.
  intros Hg. revert e. induction l as [|x l IH]; intros e (before & E) He.
  { exists []. rewrite filter_cons_True by done. by rewrite filter_nil. }
  destruct (decide (of_subchain id x)) as [Hx|Hx].
  - destruct (IH x) as (rest & E1 & E2); [exists (before ++ [e]); by rewrite <- (assoc_L (++))|done|].
    exists rest. split; [|done]. rewrite filter_cons_True by done. cbn [app]. by rewrite E1 at 1.
  - assert (Forall (fun y => ~ of_subchain id y) l) as Hl.
    { apply Forall_forall. intros y Hy Hyid. apply list_elem_of_split in Hy as (l2 & l3 & El). unfold of_subchain in *.
      pose proof (Hg before e (x :: l2) y l3 ltac:(by rewrite E, El) ltac:(congruence)) as Hf.
      apply Forall_cons in Hf as [Hf _]. congruence. }
    exists (x :: l). rewrite filter_cons_True, filter_cons_False, filter_none by done. split; [done|by constructor].
Qed.

(** The query by sub-chain returns every entry of the sub-chain, in order, and
    then every entry that follows them in the index, all of other sub-chains: it is
    right exactly when nothing follows. *)
Theorem GetEntryBySubChainId_correct order id :
  grouped order ->
  exists rest, GetEntryBySubChainId order id = filter (of_subchain id) order ++ rest /\
    Forall (fun x => ~ of_subchain id x) rest /\ rest `suffix_of` order.
Proof.
  intros Hg. destruct (GetEntry_suffix order id) as (before & E & F & H).
  assert (filter (of_subchain id) order = filter (of_subchain id) (GetEntryBySubChainId order id)) as ->.
  { rewrite E at 1. rewrite filter_app. by rewrite (filter_none _ before). }
  destruct (GetEntryBySubChainId order id) as [|e l] eqn:Eg.
  - exists []. split_and!; [done..|]. apply suffix_nil.
  - destruct (grouped_split order id e l Hg (ex_intro _ before E) H) as (rest & E1 & E2).
    exists rest. split_and!; [done..|]. exists (before ++ filter (of_subchain id) (e :: l)).
    rewrite <- (assoc_L (++)), <- E1. exact E.
Qed.

(** ** Restart *)

Lemma GetSubChainId_wf x : ext_wf x -> is_ok (GetSubChainId x).
Proof.
  destruct x as [t d]. intros [_ Hd]. unfold GetSubChainId. cbn [nExtType ext_data] in *.
  destruct d; [destruct Hd as [->|Hd]|destruct Hd as [-> _]..]; try done.
  unfold EXTDATA_BACKUPSUBBLOCK, EXTDATA_CREATESUBCHAIN in *. by rewrite !(proj2 (Z.eqb_neq _ _)) by lia.
Qed.

Lemma addToMemPool_wf pool ptx nTime h lp :
  ext_wf (extData (ref_tx ptx)) -> exists pool' b, addToMemPool pool ptx nTime h lp = Ok (pool', b).
Proof.
  intros H%GetSubChainId_wf. unfold addToMemPool. destruct (GetSubChainId _) as [id|]; [|done].
  cbn [mbind result_bind]. destruct (if negb _ then _ else _) as [pool' b]. by exists pool', b.
Qed.

(** A record that leads to the transaction [ptx] on disk. *)
Definition record_of (read_tx : CDiskTxPos -> file_read) (r : meta_record) (ptx : CTransactionRef) : Prop :=
  exists id pos, mr_key r = Some (DB_TXINDEX, id) /\ mr_value r = Some pos /\ read_tx pos = ReadTx ptx.

Definition recorded (pool : CSubChainMetaMemPool) (id : uint256) : Prop := is_Some (mapLastOperation pool !! id).

Lemma addToMemPool_records pool ptx nTime h lp pool' b id :
  addToMemPool pool ptx nTime h lp = Ok (pool', b) ->
  (recorded pool id -> recorded pool' id) /\
  (nExtType (extData (ref_tx ptx)) = EXTDATA_CREATESUBCHAIN -> GetSubChainId (extData (ref_tx ptx)) = Ok id ->
   uint256_IsNull id = false -> recorded pool' id).
Proof.
  unfold recorded. intros H. apply addToMemPool_cases in H as [(_ & -> & Hn)|(_ & i & (_ & Hi & _) & ->)].
  - split; [done|]. intros Ht Hid Hnull. destruct (mapLastOperation pool !! id) eqn:E; [done|].
    exfalso. by apply (Hn id).
  - cbn [mapLastOperation]. split.
    + intros Hs. destruct (decide (i = id)) as [->|]; [by rewrite lookup_insert_eq|by rewrite lookup_insert_ne].
    + intros _ Hid _. rewrite Hid in Hi. injection Hi as ->. by rewrite lookup_insert_eq.
Qed.

Lemma Load_run read_tx records ptxs pool :
  Forall2 (record_of read_tx) records ptxs -> Forall (fun ptx => ext_wf (extData (ref_tx ptx))) ptxs ->
  meta_reachable pool ->
  (forall p1 p2, p1 ∈ ptxs -> p2 ∈ ptxs -> ref_hash p1 = ref_hash p2 -> ref_tx p1 = ref_tx p2) ->
  (forall p, p ∈ ptxs -> no_collision pool p) ->
  exists pool', LoadSubChainMetaData read_tx records pool = (pool', true) /\ meta_reachable pool' /\
    (forall id, recorded pool id -> recorded pool' id) /\
    forall ptx id, ptx ∈ ptxs -> nExtType (extData (ref_tx ptx)) = EXTDATA_CREATESUBCHAIN ->
      GetSubChainId (extData (ref_tx ptx)) = Ok id -> uint256_IsNull id = false -> recorded pool' id.
Proof.
  intros HR. revert pool. induction HR as [|r ptx records ptxs (k & pos & Ek & Ev & Er) _ IH]; intros pool Hwf Hr Hinj Hnc.
  { exists pool. split_and!; [done..|]. by intros ? ? ?%not_elem_of_nil. }
  apply Forall_cons in Hwf as [Hx Hwf]. cbn [LoadSubChainMetaData]. rewrite Ek, Ev, Er.
  rewrite bool_decide_true by done.
  destruct (addToMemPool_wf pool ptx 0 0 LockPoints_default Hx) as (pool1 & b & E1). rewrite E1.
  assert (meta_reachable pool1) as Hr1 by (eapply meta_step; [exact Hr|apply Hnc, list_elem_of_here|exact E1]).
  destruct (IH pool1 Hwf Hr1) as (pool' & L1 & L2 & L3 & L4).
  - intros p1 p2 H1 H2. apply Hinj; by apply list_elem_of_further.
  - intros p Hp e He. apply addToMemPool_cases in E1 as [(_ & -> & _)|(_ & i & _ & ->)].
    + exact (Hnc p ltac:(by apply list_elem_of_further) e He).
    + cbn [mapSubChainMeta] in He. unfold meta_insert, me_hash in He. cbn [me_tx] in He.
      destruct (mapSubChainMeta pool !! ref_hash ptx) eqn:Ep; [exact (Hnc p ltac:(by apply list_elem_of_further) e He)|].
      destruct (decide (ref_hash p = ref_hash ptx)) as [Eh|Eh].
      * rewrite Eh, lookup_insert_eq in He. injection He as <-. cbn [me_tx].
        apply Hinj; [apply list_elem_of_here|by apply list_elem_of_further|done].
      * rewrite lookup_insert_ne in He by done. exact (Hnc p ltac:(by apply list_elem_of_further) e He).
  - exists pool'. split_and!; [done..| |].
    + intros id Hid. apply L3. exact (proj1 (addToMemPool_records pool ptx 0 0 LockPoints_default pool1 b id E1) Hid).
    + intros p id [->|Hp]%elem_of_cons Ht Hid Hn; [|by apply (L4 p)].
      apply L3. exact (proj2 (addToMemPool_records pool ptx 0 0 LockPoints_default pool1 b id E1) Ht Hid Hn).
Qed.

(** Loading at startup from intact records succeeds, gives a pool that adding
    transactions can build (so the invariants hold), and records every sub-chain whose
    creation is in the database. *)
Theorem LoadSubChainMetaData_correct read_tx records ptxs :
  Forall2 (record_of read_tx) records ptxs -> Forall (fun ptx => ext_wf (extData (ref_tx ptx))) ptxs ->
  (forall p1 p2, p1 ∈ ptxs -> p2 ∈ ptxs -> ref_hash p1 = ref_hash p2 -> ref_tx p1 = ref_tx p2) ->
  exists pool, LoadSubChainMetaData read_tx records MetaPool_empty = (pool, true) /\ meta_inv pool /\
    forall ptx id, ptx ∈ ptxs -> nExtType (extData (ref_tx ptx)) = EXTDATA_CREATESUBCHAIN ->
      GetSubChainId (extData (ref_tx ptx)) = Ok id -> uint256_IsNull id = false -> recorded pool id.
Proof.
  intros HR Hwf Hinj. destruct (Load_run read_tx records ptxs MetaPool_empty HR Hwf meta_start Hinj) as (pool & H1 & H2 & _ & H3).
  - intros p _ e. cbn. by rewrite lookup_empty.
  - exists pool. split_and!; [done|by apply meta_reachable_inv|done].
Qed.

(** ** Instances of the statements *)

Definition sample_ptx (id : byte) : CTransactionRef :=
  mkTxRef (mkTx 2 [] [] 0 (mkExtData EXTDATA_CREATESUBCHAIN
    (AnyCreate (mkCreateExt (replicate 32 id) (replicate 32 x02) [] [] [] [])))) (replicate 32 id).

Definition sample_meta_entry (id : byte) : CSubChainMetaMemPoolEntry :=
  mkMetaEntry (sample_ptx id) None (replicate 32 id) EXTDATA_CREATESUBCHAIN 0 0 LockPoints_default.

Definition sample_pool : CSubChainMetaMemPool :=
  mkMetaPool {[replicate 32 x01 := sample_meta_entry x01]} {[replicate 32 x01 := replicate 32 x01]}.

Lemma sample_pool_reachable : meta_reachable sample_pool.
Proof.
  apply (meta_step MetaPool_empty (sample_ptx x01) 0 0 LockPoints_default sample_pool true meta_start); [|reflexivity].
  intros e. cbn. by rewrite lookup_empty.
Qed.

Lemma meta_pool_correct_witness :
  exists pool', addToMemPool sample_pool (sample_ptx x05) 9 8 LockPoints_default = Ok (pool', true) /\ meta_inv pool'.
Proof.
  eexists. split; [reflexivity|].
  refine (proj1 (meta_pool_correct sample_pool (sample_ptx x05) 9 8 LockPoints_default _ true
    sample_pool_reachable _ eq_refl)).
  intros e. vm_compute. discriminate.
Defined.


Definition sample_backup : CBackupSubBlockExt := mkBackupExt (replicate 32 x01) (replicate 32 x09) 4 [].
Definition sample_backup_ptx : CTransactionRef :=
  mkTxRef (mkTx 2 [] [] 0 (mkExtData EXTDATA_BACKUPSUBBLOCK (AnyBackup sample_backup))) (replicate 32 x0c).

Lemma meta_only_creations_witness :
  addToMemPool sample_pool sample_backup_ptx 9 8 LockPoints_default = Ok (sample_pool, false) /\
  forall t x, mapSubChainMeta sample_pool !! t = Some x -> me_nOpType x = EXTDATA_CREATESUBCHAIN.
Proof.
  exact (meta_only_creations sample_pool sample_backup_ptx 9 8 LockPoints_default sample_backup sample_pool_reachable
    eq_refl eq_refl).
Defined.

Definition sample_order : list CSubChainMetaMemPoolEntry := [sample_meta_entry x01; sample_meta_entry x05].

Lemma sample_order_grouped : grouped sample_order.
Proof.
  intros l1 e l2 e' l3 E He.
  destruct l1 as [|? [|? [|]]]; destruct l2 as [|? [|]]; simpl in E; try discriminate; try constructor.
  all: by injection E.
Qed.

Lemma GetEntryBySubChainId_correct_witness :
  exists rest, GetEntryBySubChainId sample_order (replicate 32 x01) = filter (of_subchain (replicate 32 x01)) sample_order ++ rest /\
    Forall (fun x => ~ of_subchain (replicate 32 x01) x) rest /\ rest `suffix_of` sample_order.
Proof. exact (GetEntryBySubChainId_correct sample_order (replicate 32 x01) sample_order_grouped). Defined.

(** The entries of one sub-chain are returned with those of another. *)
Example GetEntryBySubChainId_other_subchain :
  GetEntryBySubChainId sample_order (replicate 32 x01) = [sample_meta_entry x01; sample_meta_entry x05].
Proof. reflexivity. Qed.

Definition sample_read (pos : CDiskTxPos) : file_read :=
  if tp_nFile pos =? 0 then ReadTx (sample_ptx x01) else ReadTx sample_backup_ptx.

Lemma LoadSubChainMetaData_correct_witness :
  exists pool, LoadSubChainMetaData sample_read
    [mkMetaRecord (Some (DB_TXINDEX, replicate 32 x01)) (Some (mkDiskTxPos 0 8 81));
     mkMetaRecord (Some (DB_TXINDEX, replicate 32 x0c)) (Some (mkDiskTxPos 1 8 81))] MetaPool_empty = (pool, true) /\
    meta_inv pool /\
    forall ptx id, ptx ∈ [sample_ptx x01; sample_backup_ptx] -> nExtType (extData (ref_tx ptx)) = EXTDATA_CREATESUBCHAIN ->
      GetSubChainId (extData (ref_tx ptx)) = Ok id -> uint256_IsNull id = false -> recorded pool id.
Proof.
  refine (LoadSubChainMetaData_correct sample_read _ [sample_ptx x01; sample_backup_ptx] _ _ _).
  - repeat constructor; eexists _, _; split_and!; reflexivity.
  - repeat constructor; vm_compute; congruence.
  - intros p1 p2 H1 H2. repeat (apply elem_of_cons in H1 as [->|H1] || apply elem_of_cons in H2 as [->|H2]);
      try (by apply not_elem_of_nil in H1); try (by apply not_elem_of_nil in H2); try done; by vm_compute.
Defined.
