(* ===== verification/FlatFile.v ===== *)
(** * Numbered data files (topchain/src/chain.h, validation.cpp, util.cpp)

    Blocks, undo data and sub-blocks live in three families of numbered files.
    This file has the positions ([CDiskBlockPos]) and per-file statistics
    ([CBlockFileInfo]), the disk as a map from files to their bytes, and the
    operations of the code on it. What the operating system answers (free space,
    whether a file can be opened, whether space can be allocated in advance) is the
    argument [os] of the operations. An open file accepts the bytes written to it. *)

From S2P Require Import Prelude Serialize.

(** ** Positions and statistics *)

Record CDiskBlockPos := mkDiskPos { dp_nFile : Z; dp_nPos : Z }.

Definition CDiskBlockPos_SetNull : CDiskBlockPos := mkDiskPos (-1) 0.
Definition CDiskBlockPos_IsNull (pos : CDiskBlockPos) : bool := dp_nFile pos =? -1.

Record CBlockFileInfo := mkFileInfo {
  fi_nBlocks : Z;
  fi_nSize : Z;
  fi_nUndoSize : Z;
  fi_nHeightFirst : Z;
  fi_nHeightLast : Z;
  fi_nTimeFirst : Z;
  fi_nTimeLast : Z
}.

Definition CBlockFileInfo_SetNull : CBlockFileInfo := mkFileInfo 0 0 0 0 0 0 0.

Definition AddBlock (nHeightIn nTimeIn : Z) (i : CBlockFileInfo) : CBlockFileInfo :=
  let nHeightFirst :=
    if (fi_nBlocks i =? 0) || (nHeightIn <? fi_nHeightFirst i) then nHeightIn else fi_nHeightFirst i in
  let nTimeFirst :=
    if (fi_nBlocks i =? 0) || (nTimeIn <? fi_nTimeFirst i) then nTimeIn else fi_nTimeFirst i in
  let nBlocks := u32 (fi_nBlocks i + 1) in
  let nHeightLast := if fi_nHeightLast i <? nHeightIn then nHeightIn else fi_nHeightLast i in
  let nTimeLast := if fi_nTimeLast i <? nTimeIn then nTimeIn else fi_nTimeLast i in
  mkFileInfo nBlocks (fi_nSize i) (fi_nUndoSize i) nHeightFirst nHeightLast nTimeFirst nTimeLast.

Definition set_nSize (nSize : Z) (i : CBlockFileInfo) : CBlockFileInfo :=
  mkFileInfo (fi_nBlocks i) nSize (fi_nUndoSize i) (fi_nHeightFirst i) (fi_nHeightLast i)
    (fi_nTimeFirst i) (fi_nTimeLast i).

Definition set_nUndoSize (nUndoSize : Z) (i : CBlockFileInfo) : CBlockFileInfo :=
  mkFileInfo (fi_nBlocks i) (fi_nSize i) nUndoSize (fi_nHeightFirst i) (fi_nHeightLast i)
    (fi_nTimeFirst i) (fi_nTimeLast i).

(** The VARINT fields of [CBlockFileInfo::SerializationOp]: five of 32 bits, two of 64. *)
Definition Serialize_fileinfo (i : CBlockFileInfo) : option bytes :=
  a ← WriteVarInt 32 (fi_nBlocks i); b ← WriteVarInt 32 (fi_nSize i); c ← WriteVarInt 32 (fi_nUndoSize i);
  d ← WriteVarInt 32 (fi_nHeightFirst i); e ← WriteVarInt 32 (fi_nHeightLast i);
  f ← WriteVarInt 64 (fi_nTimeFirst i); g ← WriteVarInt 64 (fi_nTimeLast i);
  Some (a ++ b ++ c ++ d ++ e ++ f ++ g).
Definition Unserialize_fileinfo : reader CBlockFileInfo :=
  a ← ReadVarInt (2 ^ 32 - 1); b ← ReadVarInt (2 ^ 32 - 1); c ← ReadVarInt (2 ^ 32 - 1);
  d ← ReadVarInt (2 ^ 32 - 1); e ← ReadVarInt (2 ^ 32 - 1);
  f ← ReadVarInt (2 ^ 64 - 1); g ← ReadVarInt (2 ^ 64 - 1);
  mret (mkFileInfo a b c d e f g).

(** ** The disk *)

(** The prefixes of the three families, and the file of a prefix and a number
    ([GetBlockPosFilename]). *)
Inductive file_prefix := pre_subblk | pre_blk | pre_rev.

#[global] Instance file_prefix_eq_dec : EqDecision file_prefix.
Proof. solve_decision. Defined.

Definition file_prefix_code (p : file_prefix) : nat := match p with pre_subblk => 0 | pre_blk => 1 | pre_rev => 2 end.
Definition file_prefix_decode (n : nat) : file_prefix := match n with O => pre_subblk | 1%nat => pre_blk | _ => pre_rev end.

Lemma file_prefix_decode_code p : file_prefix_decode (file_prefix_code p) = p.
Proof. by destruct p. Qed.

#[global] Instance file_prefix_countable : Countable file_prefix :=
  inj_countable' file_prefix_code file_prefix_decode file_prefix_decode_code.

Abbreviation disk := (gmap (file_prefix * Z) (list byte)) (only parsing).

Record os_env := mkOs {
  os_available : Z;
  os_can_open : file_prefix -> Z -> bool;
  os_fallocate : bool
}.

Definition nMinDiskSpace : Z := 52428800.
Definition MAX_BLOCKFILE_SIZE : Z := 0x8000000.
Definition BLOCKFILE_CHUNK_SIZE : Z := 0x1000000.
Definition UNDOFILE_CHUNK_SIZE : Z := 0x100000.

Section ops.
Context (os : os_env).

Definition CheckDiskSpace (nAdditionalBytes : Z) : bool :=
  negb (os_available os <? u64 (nMinDiskSpace + nAdditionalBytes)).

(** The disk after opening a file for reading and writing at a position, which
    creates a missing file unless it is opened read-only; [None] is a null handle. *)
Definition OpenDiskFile (d : disk) (pos : CDiskBlockPos) (prefix : file_prefix) (fReadOnly : bool) : option disk :=
  if CDiskBlockPos_IsNull pos then None
  else if negb (os_can_open os prefix (dp_nFile pos)) then None
  else match d !! (prefix, dp_nFile pos) with
       | Some _ => Some d
       | None => if fReadOnly then None else Some (<[(prefix, dp_nFile pos) := []]> d)
       end.

(** Bytes written at an offset; a gap before the offset reads as zeros. *)
Definition write_at (p : nat) (data f : bytes) : bytes :=
  resize p x00 f ++ data ++ drop (p + length data) f.

Definition fwrite (prefix : file_prefix) (pos : CDiskBlockPos) (data : bytes) (d : disk) : disk :=
  alter (write_at (Z.to_nat (dp_nPos pos)) data) (prefix, dp_nFile pos) d.

(** What is left of a file from a position on. *)
Definition fstream (d : disk) (prefix : file_prefix) (pos : CDiskBlockPos) : bytes :=
  drop (Z.to_nat (dp_nPos pos)) (default [] (d !! (prefix, dp_nFile pos))).

Definition TruncateFile (prefix : file_prefix) (nFile length : Z) (d : disk) : disk :=
  alter (resize (Z.to_nat length) x00) (prefix, nFile) d.

(** [posix_fallocate] grows a file with zeros and never shrinks it. *)
Definition AllocateFileRange (prefix : file_prefix) (nFile offset len : Z) (d : disk) : disk :=
  if os_fallocate os
  then alter (fun f => f ++ replicate (Z.to_nat (offset + len) - length f) x00) (prefix, nFile) d
  else d.
End ops.

(** The loop of [FindBlockPos] and [FindSubBlockPos] that leaves full files behind:
    the file found and the statistics, grown by the files it entered. Out of fuel
    is [None]. *)
Fixpoint find_file (fuel : nat) (vinfo : list CBlockFileInfo) (nFile nAddSize : Z)
  : option (list CBlockFileInfo * Z) :=
  match fuel with
  | O => None
  | S fuel =>
      info ← vinfo !! Z.to_nat nFile;
      if MAX_BLOCKFILE_SIZE <=? u32 (fi_nSize info + nAddSize) then
        let nFile := u32 (nFile + 1) in
        let vinfo := if Zlength vinfo <=? nFile
                     then resize (Z.to_nat (u32 (nFile + 1))) CBlockFileInfo_SetNull vinfo else vinfo in
        find_file fuel vinfo nFile nAddSize
      else Some (vinfo, nFile)
  end.

(** [(size + CHUNK - 1) / CHUNK] in unsigned arithmetic. *)
Definition chunks (chunk size : Z) : Z := u32 (size + chunk - 1) / chunk.

(** * Lemmas *)

(** ** Data stored in a file *)

(** The bytes [data] are at offset [p] of the file. *)
Definition stored (f : bytes) (p : nat) (data : bytes) : Prop :=
  exists pre rest, f = pre ++ data ++ rest /\ length pre = p.

Lemma stored_drop f p data : stored f p data -> exists rest, drop p f = data ++ rest.
Proof. intros (pre & rest & -> & <-). exists rest. apply drop_app_length. Qed.

Lemma stored_sub f p a b : stored f p (a ++ b) -> stored f (p + length a) b.
Proof.
  intros (pre & rest & -> & <-). exists (pre ++ a), rest.
  rewrite length_app, <- !(assoc_L (++)). done.
Qed.

Lemma stored_app f g p data : stored f p data -> stored (f ++ g) p data.
Proof.
  intros (pre & rest & -> & <-). exists pre, (rest ++ g). by rewrite <- !(assoc_L (++)).
Qed.

Lemma stored_resize f n p data : stored f p data -> (p + length data <= n)%nat -> stored (resize n x00 f) p data.
Proof.
  intros (pre & rest & -> & <-) Hn. exists pre, (resize (n - length pre - length data) x00 rest).
  split; [|done]. rewrite (assoc_L (++)), resize_app_ge by (rewrite length_app; lia).
  rewrite length_app, <- (assoc_L (++)), Nat.sub_add_distr. done.
Qed.

Lemma stored_write f p data : stored (write_at p data f) p data.
Proof. eexists _, _. split; [done|]. apply length_resize. Qed.

Lemma stored_write_after f p data q old :
  stored f q old -> (q + length old <= p)%nat -> stored (write_at p data f) q old.
Proof. intros H Hq. unfold write_at. by apply stored_app, stored_resize. Qed.

(** Two writes in a row are one. *)
Lemma write_at_app p a b f : write_at (p + length a) b (write_at p a f) = write_at p (a ++ b) f.
Proof.
  unfold write_at. rewrite (assoc_L (++) (resize p x00 f)) at 1.
  rewrite resize_app_le by (rewrite length_app, length_resize; lia).
  rewrite resize_all_alt by (rewrite length_app, length_resize; lia).
  rewrite <- !(assoc_L (++)). do 3 f_equal. rewrite !(assoc_L (++)).
  rewrite drop_app_ge by (rewrite length_app, length_resize; lia).
  rewrite length_app, length_resize, drop_drop, length_app. f_equal. lia.
Qed.

(** ** Finding a file *)

Definition info_ok (i : CBlockFileInfo) : Prop := 0 <= fi_nSize i < MAX_BLOCKFILE_SIZE.

Lemma find_file_spec fuel vinfo (k : nat) nAddSize :
  Forall info_ok vinfo -> (k < length vinfo)%nat -> Zlength vinfo < 2 ^ 31 - 1 ->
  0 <= nAddSize < MAX_BLOCKFILE_SIZE -> (length vinfo - k < fuel)%nat ->
  exists vinfo' k' info, find_file fuel vinfo (Z.of_nat k) nAddSize = Some (vinfo', Z.of_nat k') /\
    (vinfo' = vinfo \/ vinfo' = vinfo ++ [CBlockFileInfo_SetNull]) /\ (k <= k' <= length vinfo)%nat /\
    vinfo' !! k' = Some info /\ info_ok info /\ fi_nSize info + nAddSize < MAX_BLOCKFILE_SIZE /\
    (k <> k' -> exists i, vinfo !! k = Some i /\ MAX_BLOCKFILE_SIZE <= fi_nSize i + nAddSize).
Proof.
  intros Hok. revert k. induction fuel as [|fuel IH]; intros k Hk Hl Hadd Hf; [lia|].
  cbn [find_file]. rewrite Nat2Z.id.
  destruct (lookup_lt_is_Some_2 vinfo k Hk) as [info E]. rewrite E. cbn [mbind option_bind].
  assert (info_ok info) as Hi by (by eapply Forall_lookup_1). unfold info_ok, MAX_BLOCKFILE_SIZE in *.
  unfold Zlength in *.
  rewrite (wrapu_small 32 (fi_nSize info + nAddSize)) by (unfold uint_range; lia).
  destruct (Z.leb_spec 0x8000000 (fi_nSize info + nAddSize)) as [Hfull|Hfree].
  - rewrite (wrapu_small 32 (Z.of_nat k + 1)) by (unfold uint_range; lia).
    replace (Z.of_nat k + 1) with (Z.of_nat (S k)) by lia.
    destruct (Z.leb_spec (Z.of_nat (length vinfo)) (Z.of_nat (S k))) as [Hend|Hin].
    + assert (S k = length vinfo) as Ek by lia.
      rewrite (wrapu_small 32 (Z.of_nat (S k) + 1)) by (unfold uint_range; lia).
      replace (Z.to_nat (Z.of_nat (S k) + 1)) with (length vinfo + 1)%nat by lia.
      rewrite resize_ge, Nat.add_comm, Nat.add_sub by lia. cbn [replicate].
      destruct fuel as [|fuel]; [lia|]. cbn [find_file]. rewrite Nat2Z.id, Ek.
      rewrite lookup_app_r, Nat.sub_diag by lia. cbn [lookup list_lookup mbind option_bind].
      cbn [fi_nSize CBlockFileInfo_SetNull].
      rewrite (wrapu_small 32 (0 + nAddSize)) by (unfold uint_range; lia).
      destruct (Z.leb_spec MAX_BLOCKFILE_SIZE (0 + nAddSize)); [unfold MAX_BLOCKFILE_SIZE in *; lia|].
      eexists _, _, CBlockFileInfo_SetNull. split; [done|]. split; [by right|]. split; [lia|].
      rewrite lookup_app_r, Nat.sub_diag by lia. split; [done|]. cbn. split; [lia|]. split; [lia|]. by exists info.
    + destruct (IH (S k)) as (v' & k' & i & Hr & Hv & Hk' & Hrest); try lia.
      exists v', k', i. split; [done|]. split; [done|]. split; [lia|].
      destruct Hrest as (H1 & H2 & H3 & _). split; [done|]. split; [done|]. split; [done|]. by exists info.
  - eexists _, k, info. split; [done|]. split; [by left|]. split; [lia|]. done.
Qed.

(** ** Statistics on disk *)

Definition fileinfo_wf (i : CBlockFileInfo) : Prop :=
  uint_range 32 (fi_nBlocks i) /\ uint_range 32 (fi_nSize i) /\ uint_range 32 (fi_nUndoSize i) /\
  uint_range 32 (fi_nHeightFirst i) /\ uint_range 32 (fi_nHeightLast i) /\
  uint_range 64 (fi_nTimeFirst i) /\ uint_range 64 (fi_nTimeLast i).

Lemma fileinfo_roundtrip i : fileinfo_wf i ->
  exists enc, Serialize_fileinfo i = Some enc /\
    forall rest, Unserialize_fileinfo (enc ++ rest) = Ok (i, rest).
Proof.
  intros (H1 & H2 & H3 & H4 & H5 & H6 & H7).
  destruct (varint_step 32 _ ltac:(lia) H1) as (e1 & E1 & R1), (varint_step 32 _ ltac:(lia) H2) as (e2 & E2 & R2),
    (varint_step 32 _ ltac:(lia) H3) as (e3 & E3 & R3), (varint_step 32 _ ltac:(lia) H4) as (e4 & E4 & R4),
    (varint_step 32 _ ltac:(lia) H5) as (e5 & E5 & R5), (varint_step 64 _ ltac:(lia) H6) as (e6 & E6 & R6),
    (varint_step 64 _ ltac:(lia) H7) as (e7 & E7 & R7).
  exists (e1 ++ e2 ++ e3 ++ e4 ++ e5 ++ e6 ++ e7). split.
  - unfold Serialize_fileinfo. rewrite E1, E2, E3, E4, E5, E6, E7. done.
  - intros rest. unfold Unserialize_fileinfo. rewrite <- !(assoc_L (++)).
    rewrite R1, R2, R3, R4, R5, R6, R7. by destruct i.
Qed.
