(* ===== verification/BlockFiles.v ===== *)
(** * Placing and reading blocks, undo data and sub-blocks in their files
    (topchain/src/validation.cpp)

    The two families of block files ([vinfoBlockFile], [vinfoSubBlockFile]) with
    their last file and dirty sets, the functions that find a place for new data
    and the functions that write and read it. [None] is undefined behaviour of the
    source (a vector access out of range) or a loop that does not end. *)

From S2P Require Import Prelude Serialize Sha256 Primitives ArithUint256 Chain Pow FlatFile.

Record family := mkFamily {
  fam_vinfo : list CBlockFileInfo;
  fam_last : Z;
  fam_dirty : gset Z
}.

Record files := mkFiles {
  fs_disk : gmap (file_prefix * Z) (list byte);
  fs_block : family;
  fs_sub : family;
  fs_fPruneMode : bool;
  fs_fCheckForPruning : bool
}.

Definition set_disk (d : disk) (st : files) : files :=
  mkFiles d (fs_block st) (fs_sub st) (fs_fPruneMode st) (fs_fCheckForPruning st).
Definition set_block (f : family) (st : files) : files :=
  mkFiles (fs_disk st) f (fs_sub st) (fs_fPruneMode st) (fs_fCheckForPruning st).
Definition set_sub (f : family) (st : files) : files :=
  mkFiles (fs_disk st) (fs_block st) f (fs_fPruneMode st) (fs_fCheckForPruning st).
Definition set_check (b : bool) (st : files) : files :=
  mkFiles (fs_disk st) (fs_block st) (fs_sub st) (fs_fPruneMode st) b.

Definition set_vinfo (v : list CBlockFileInfo) (f : family) : family := mkFamily v (fam_last f) (fam_dirty f).
Definition set_last (n : Z) (f : family) : family := mkFamily (fam_vinfo f) n (fam_dirty f).
Definition add_dirty (n : Z) (f : family) : family := mkFamily (fam_vinfo f) (fam_last f) ({[n]} ∪ fam_dirty f).

(** [vinfo.resize(nFile + 1)] where the vector is too short. *)
Definition grow_vinfo (nFile : Z) (v : list CBlockFileInfo) : list CBlockFileInfo :=
  if Zlength v <=? nFile then resize (Z.to_nat (u32 (nFile + 1))) CBlockFileInfo_SetNull v else v.

(** [vinfo[i]] at a signed index. *)
Definition vinfo_at (v : list CBlockFileInfo) (i : Z) : option CBlockFileInfo :=
  if 0 <=? i then v !! Z.to_nat i else None.

Section ops.
Context (os : os_env).

(** ** Leaving a file *)

Definition FlushSubBlockFile (fFinalize : bool) (st : files) : option files :=
  match OpenDiskFile os (fs_disk st) (mkDiskPos (fam_last (fs_sub st)) 0) pre_subblk false with
  | None => Some st
  | Some d =>
      if fFinalize then
        info ← vinfo_at (fam_vinfo (fs_sub st)) (fam_last (fs_block st));
        Some (set_disk (TruncateFile pre_subblk (fam_last (fs_sub st)) (fi_nSize info) d) st)
      else Some (set_disk d st)
  end.

Definition FlushBlockFile (fFinalize : bool) (st : files) : option files :=
  let nLast := fam_last (fs_block st) in
  st ← match OpenDiskFile os (fs_disk st) (mkDiskPos nLast 0) pre_blk false with
       | None => Some st
       | Some d =>
           if fFinalize then
             info ← vinfo_at (fam_vinfo (fs_block st)) nLast;
             Some (set_disk (TruncateFile pre_blk nLast (fi_nSize info) d) st)
           else Some (set_disk d st)
       end;
  match OpenDiskFile os (fs_disk st) (mkDiskPos nLast 0) pre_rev false with
  | None => Some st
  | Some d =>
      if fFinalize then
        info ← vinfo_at (fam_vinfo (fs_block st)) nLast;
        Some (set_disk (TruncateFile pre_rev nLast (fi_nUndoSize info) d) st)
      else Some (set_disk d st)
  end.

(** ** Finding a place *)

(** The end of [FindSubBlockPos], [FindBlockPos] and [FindUndoPos]: allocate the next
    chunk when the used size enters it; the result is false when space is short. *)
Definition preallocate (prefix : file_prefix) (chunk : Z) (pos : CDiskBlockPos) (nNewSize : Z) (st : files)
  : files * bool :=
  let nOldChunks := chunks chunk (dp_nPos pos) in
  let nNewChunks := chunks chunk nNewSize in
  if nOldChunks <? nNewChunks then
    let st := if fs_fPruneMode st then set_check true st else st in
    let len := u32 (nNewChunks * chunk - dp_nPos pos) in
    if CheckDiskSpace os len then
      match OpenDiskFile os (fs_disk st) pos prefix false with
      | Some d => (set_disk (AllocateFileRange os prefix (dp_nFile pos) (dp_nPos pos) len d) st, true)
      | None => (st, true)
      end
    else (st, false)
  else (st, true).

(** The position is [None] when the function fails with [out of disk space]. *)
Definition FindSubBlockPos (pos : CDiskBlockPos) (nAddSize nHeight nTime : Z) (fKnown : bool) (st : files)
  : option (files * option CDiskBlockPos) :=
  let nFile := if fKnown then u32 (dp_nFile pos) else u32 (fam_last (fs_sub st)) in
  let vinfo := grow_vinfo nFile (fam_vinfo (fs_sub st)) in
  '(vinfo, nFile, pos) ←
    (if fKnown then Some (vinfo, nFile, pos)
     else '(vinfo, nFile) ← find_file (S (length vinfo)) vinfo nFile nAddSize;
          info ← vinfo !! Z.to_nat nFile;
          Some (vinfo, nFile, mkDiskPos (i32 nFile) (fi_nSize info)));
  let st := set_sub (set_vinfo vinfo (fs_sub st)) st in
  st ← (if negb (i32 nFile =? fam_last (fs_sub st)) then
          _ ← (if negb fKnown then vinfo_at (fam_vinfo (fs_sub st)) (fam_last (fs_block st))
               else Some CBlockFileInfo_SetNull);
          st ← FlushSubBlockFile (negb fKnown) st;
          Some (set_sub (set_last (i32 nFile) (fs_sub st)) st)
        else Some st);
  info ← fam_vinfo (fs_sub st) !! Z.to_nat nFile;
  let info := AddBlock nHeight nTime info in
  nSize ← (if fKnown then
             binfo ← fam_vinfo (fs_block st) !! Z.to_nat nFile;
             Some (Z.max (u32 (dp_nPos pos + nAddSize)) (fi_nSize binfo))
           else Some (u32 (fi_nSize info + nAddSize)));
  let st := set_sub (set_vinfo (<[Z.to_nat nFile := set_nSize nSize info]> (fam_vinfo (fs_sub st))) (fs_sub st)) st in
  let '(st, ok) := if fKnown then (st, true) else preallocate pre_subblk BLOCKFILE_CHUNK_SIZE pos nSize st in
  if ok then Some (set_sub (add_dirty (i32 nFile) (fs_sub st)) st, Some pos) else Some (st, None).

Definition FindBlockPos (pos : CDiskBlockPos) (nAddSize nHeight nTime : Z) (fKnown : bool) (st : files)
  : option (files * option CDiskBlockPos) :=
  let nFile := if fKnown then u32 (dp_nFile pos) else u32 (fam_last (fs_block st)) in
  let vinfo := grow_vinfo nFile (fam_vinfo (fs_block st)) in
  '(vinfo, nFile, pos) ←
    (if fKnown then Some (vinfo, nFile, pos)
     else '(vinfo, nFile) ← find_file (S (length vinfo)) vinfo nFile nAddSize;
          info ← vinfo !! Z.to_nat nFile;
          Some (vinfo, nFile, mkDiskPos (i32 nFile) (fi_nSize info)));
  let st := set_block (set_vinfo vinfo (fs_block st)) st in
  st ← (if negb (i32 nFile =? fam_last (fs_block st)) then
          _ ← (if negb fKnown then vinfo_at (fam_vinfo (fs_block st)) (fam_last (fs_block st))
               else Some CBlockFileInfo_SetNull);
          st ← FlushBlockFile (negb fKnown) st;
          Some (set_block (set_last (i32 nFile) (fs_block st)) st)
        else Some st);
  info ← fam_vinfo (fs_block st) !! Z.to_nat nFile;
  let info := AddBlock nHeight nTime info in
  let nSize := if fKnown then Z.max (u32 (dp_nPos pos + nAddSize)) (fi_nSize info)
               else u32 (fi_nSize info + nAddSize) in
  let st := set_block (set_vinfo (<[Z.to_nat nFile := set_nSize nSize info]> (fam_vinfo (fs_block st))) (fs_block st)) st in
  let '(st, ok) := if fKnown then (st, true) else preallocate pre_blk BLOCKFILE_CHUNK_SIZE pos nSize st in
  if ok then Some (set_block (add_dirty (i32 nFile) (fs_block st)) st, Some pos) else Some (st, None).

Definition FindUndoPos (nFile nAddSize : Z) (st : files) : option (files * option CDiskBlockPos) :=
  info ← vinfo_at (fam_vinfo (fs_block st)) nFile;
  let pos := mkDiskPos nFile (fi_nUndoSize info) in
  let nNewSize := u32 (fi_nUndoSize info + nAddSize) in
  let st := set_block (add_dirty nFile
              (set_vinfo (<[Z.to_nat nFile := set_nUndoSize nNewSize info]> (fam_vinfo (fs_block st))) (fs_block st))) st in
  let '(st, ok) := preallocate pre_rev UNDOFILE_CHUNK_SIZE pos nNewSize st in
  Some (st, if ok then Some pos else None).

(** ** Writing and reading *)

(** [OpenDiskFile], then a header, then the data; the position returned is that of the
    data. *)
Definition write_framed (prefix : file_prefix) (header data : bytes) (pos : CDiskBlockPos) (st : files)
  : files * option CDiskBlockPos :=
  match OpenDiskFile os (fs_disk st) pos prefix false with
  | None => (st, None)
  | Some d =>
      let d := fwrite prefix pos header d in
      let pos := mkDiskPos (dp_nFile pos) (u32 (dp_nPos pos + Zlength header)) in
      (set_disk (fwrite prefix pos data d) st, Some pos)
  end.

(** The header is the message start and the size. *)
Definition write_record (prefix : file_prefix) (messageStart data : bytes) (pos : CDiskBlockPos) (st : files)
  : files * option CDiskBlockPos :=
  let nSize := u32 (Zlength data) in
  write_framed prefix (messageStart ++ ser_writedata32 nSize) data pos st.

Definition WriteSubBlockToDisk (messageStart : bytes) (block : CSubBlock) (pos : CDiskBlockPos) (st : files)
  : files * option CDiskBlockPos :=
  write_record pre_subblk messageStart (Serialize_subblock block) pos st.

(** The error is an exception of the transaction serializer. *)
Definition WriteBlockToDisk (messageStart : bytes) (CLIENT_VERSION : Z) (block : CBlock) (pos : CDiskBlockPos) (st : files)
  : result ser_error (files * option CDiskBlockPos) :=
  data ← Serialize_block block CLIENT_VERSION;
  Ok (write_record pre_blk messageStart data pos st).

(** Reading returns nothing when the file cannot be opened or the data does not parse. *)
Definition ReadSubBlockFromDisk (pos : CDiskBlockPos) (st : files) : option CSubBlock :=
  match OpenDiskFile os (fs_disk st) pos pre_subblk true with
  | None => None
  | Some d =>
      match Unserialize_subblock (fstream d pre_subblk pos) with
      | Ok (block, _) => Some block
      | Err _ => None
      end
  end.

Definition CBlock_SetNull : CBlock := mkBlock CBlockHeader_SetNull [] false.

Definition ReadBlockFromDisk (CLIENT_VERSION : Z) (params : PowParams) (pos : CDiskBlockPos) (st : files) : option CBlock :=
  match OpenDiskFile os (fs_disk st) pos pre_blk true with
  | None => None
  | Some d =>
      match Unserialize_block CLIENT_VERSION CBlock_SetNull (fstream d pre_blk pos) with
      | Ok (block, _) =>
          if CheckProofOfWork (CBlockHeader_GetHash (block_header block)) (hdr_nBits (block_header block)) params
          then Some block else None
      | Err _ => None
      end
  end.

Definition GetBlockPos (n : CBlockIndex) : CDiskBlockPos :=
  if negb (Z.land (bi_nStatus n) BLOCK_HAVE_DATA =? 0) then mkDiskPos (bi_nFile n) (bi_nDataPos n)
  else CDiskBlockPos_SetNull.
Definition GetUndoPos (n : CBlockIndex) : CDiskBlockPos :=
  if negb (Z.land (bi_nStatus n) BLOCK_HAVE_UNDO =? 0) then mkDiskPos (bi_nFile n) (bi_nUndoPos n)
  else CDiskBlockPos_SetNull.

(** The block of an index entry, named by its hash. *)
Definition ReadBlockFromDisk_index (CLIENT_VERSION : Z) (params : PowParams) (m : BlockMap) (p : uint256) (st : files)
  : option CBlock :=
  pindex ← m !! p;
  block ← ReadBlockFromDisk CLIENT_VERSION params (GetBlockPos pindex) st;
  if bool_decide (CBlockHeader_GetHash (block_header block) = p) then Some block else None.
End ops.

(** * What the files keep *)

Definition fam_of (prefix : file_prefix) (st : files) : family :=
  match prefix with pre_subblk => fs_sub st | pre_blk | pre_rev => fs_block st end.
Definition used (prefix : file_prefix) (i : CBlockFileInfo) : Z :=
  match prefix with pre_rev => fi_nUndoSize i | _ => fi_nSize i end.

(** A piece of data on disk: its family, file and offset. *)
Record place := mkPlace { pl_prefix : file_prefix; pl_nFile : nat; pl_pos : nat; pl_data : bytes }.

Definition pl_key (x : place) : file_prefix * Z := (pl_prefix x, Z.of_nat (pl_nFile x)).
Definition pl_end (x : place) : Z := Z.of_nat (pl_pos x) + Zlength (pl_data x).

(** The data is in its file, in the part the statistics count as used. *)
Definition kept (x : place) (st : files) : Prop :=
  (exists f, fs_disk st !! pl_key x = Some f /\ stored f (pl_pos x) (pl_data x)) /\
  (exists i, fam_vinfo (fam_of (pl_prefix x) st) !! pl_nFile x = Some i /\ pl_end x <= used (pl_prefix x) i).

Definition keeps (st st' : files) : Prop := forall x, kept x st -> kept x st'.

#[global] Instance keeps_preorder : PreOrder keeps.
Proof. split; [by intros st x|]. intros a b c H1 H2 x Hx. by apply H2, H1. Qed.

(** Only the disk changes. *)
Definition same_stats (st st' : files) : Prop := fs_block st' = fs_block st /\ fs_sub st' = fs_sub st.

Lemma set_disk_keeps st d :
  (forall x f i, kept x st -> fs_disk st !! pl_key x = Some f -> stored f (pl_pos x) (pl_data x) ->
     fam_vinfo (fam_of (pl_prefix x) st) !! pl_nFile x = Some i -> pl_end x <= used (pl_prefix x) i ->
     exists f', d !! pl_key x = Some f' /\ stored f' (pl_pos x) (pl_data x)) ->
  keeps st (set_disk d st).
Proof.
  intros H x Hx. destruct (Hx) as [(f & Hf & Hs) (i & Hi & Hu)]. split.
  - by eapply H.
  - exists i. by destruct x as [[] ? ? ?].
Qed.

Lemma OpenDiskFile_lookup os d pos prefix ro d' key f :
  OpenDiskFile os d pos prefix ro = Some d' -> d !! key = Some f -> d' !! key = Some f.
Proof.
  unfold OpenDiskFile. destruct (CDiskBlockPos_IsNull pos); [done|]. destruct (negb _); [done|].
  destruct (d !! (prefix, dp_nFile pos)) eqn:E; [congruence|]. destruct ro; [done|]. intros [= <-] H.
  rewrite lookup_insert_ne; [done|]. intros <-. congruence.
Qed.

Lemma open_keeps os st pos prefix ro d :
  OpenDiskFile os (fs_disk st) pos prefix ro = Some d -> keeps st (set_disk d st).
Proof.
  intros H. apply set_disk_keeps. intros x f i _ Hf Hs _ _. exists f. split; [|done].
  by eapply OpenDiskFile_lookup.
Qed.

(** Changing one file by a function that keeps what lies in the used part. *)
Lemma alter_keeps st prefix (k : nat) (g : bytes -> bytes) :
  (forall f p data i, fam_vinfo (fam_of prefix st) !! k = Some i -> stored f p data ->
     Z.of_nat p + Zlength data <= used prefix i -> stored (g f) p data) ->
  keeps st (set_disk (alter g (prefix, Z.of_nat k) (fs_disk st)) st).
Proof.
  intros H. apply set_disk_keeps. intros x f i _ Hf Hs Hi Hu.
  destruct (decide (pl_key x = (prefix, Z.of_nat k))) as [E|N].
  - rewrite E in *. unfold pl_key in E. injection E as Ep Ek. apply Nat2Z.inj in Ek.
    rewrite Ep, Ek in *. exists (g f). rewrite lookup_alter_eq, Hf. split; [done|]. by eapply H.
  - exists f. rewrite lookup_alter_ne by done. done.
Qed.

Lemma truncate_keeps st prefix (k : nat) n :
  (forall i, fam_vinfo (fam_of prefix st) !! k = Some i -> used prefix i <= n) ->
  keeps st (set_disk (TruncateFile prefix (Z.of_nat k) n (fs_disk st)) st).
Proof.
  intros H. apply alter_keeps. intros f p data i Hi Hs Hu.
  apply stored_resize; [done|]. specialize (H i Hi). unfold Zlength in Hu. lia.
Qed.

Lemma allocate_keeps os st prefix (k : nat) off len :
  keeps st (set_disk (AllocateFileRange os prefix (Z.of_nat k) off len (fs_disk st)) st).
Proof.
  unfold AllocateFileRange. case_if.
  - apply alter_keeps. intros. by apply stored_app.
  - by destruct st.
Qed.

(** Statistics that only grow keep what was counted. *)
Definition grows (prefix : file_prefix) (v v' : list CBlockFileInfo) : Prop :=
  forall k i, v !! k = Some i -> exists i', v' !! k = Some i' /\ used prefix i <= used prefix i'.

Lemma stats_keeps st st' :
  fs_disk st' = fs_disk st ->
  (forall prefix, grows prefix (fam_vinfo (fam_of prefix st)) (fam_vinfo (fam_of prefix st'))) ->
  keeps st st'.
Proof.
  intros Hd Hg x [Hf (i & Hi & Hu)]. split; [by rewrite Hd|].
  destruct (Hg (pl_prefix x) _ i Hi) as (i' & Hi' & Hle). exists i'. split; [done|]. lia.
Qed.

(** ** Finding a place *)

Definition family_ok (f : family) : Prop :=
  Forall info_ok (fam_vinfo f) /\
  exists k, fam_last f = Z.of_nat k /\ ((k < length (fam_vinfo f))%nat \/ (fam_vinfo f = [] /\ k = 0%nat)).

Definition set_fam (prefix : file_prefix) (f : family) (st : files) : files :=
  match prefix with pre_subblk => set_sub f st | pre_blk | pre_rev => set_block f st end.

(** What [FindSubBlockPos] and [FindBlockPos] share when the position is not known. *)
Definition find_pos (os : os_env) (prefix : file_prefix) (log : files -> option CBlockFileInfo)
    (flush : files -> option files) (nAddSize nHeight nTime : Z) (st : files) : option (files * option CDiskBlockPos) :=
  let nFile := u32 (fam_last (fam_of prefix st)) in
  let vinfo := grow_vinfo nFile (fam_vinfo (fam_of prefix st)) in
  '(vinfo, nFile) ← find_file (S (length vinfo)) vinfo nFile nAddSize;
  info ← vinfo !! Z.to_nat nFile;
  let pos := mkDiskPos (i32 nFile) (fi_nSize info) in
  let st := set_fam prefix (set_vinfo vinfo (fam_of prefix st)) st in
  st ← (if negb (i32 nFile =? fam_last (fam_of prefix st)) then
          _ ← log st; st ← flush st; Some (set_fam prefix (set_last (i32 nFile) (fam_of prefix st)) st)
        else Some st);
  info ← fam_vinfo (fam_of prefix st) !! Z.to_nat nFile;
  let info := AddBlock nHeight nTime info in
  let nSize := u32 (fi_nSize info + nAddSize) in
  let st := set_fam prefix
              (set_vinfo (<[Z.to_nat nFile := set_nSize nSize info]> (fam_vinfo (fam_of prefix st))) (fam_of prefix st)) st in
  let '(st, ok) := preallocate os prefix BLOCKFILE_CHUNK_SIZE pos nSize st in
  if ok then Some (set_fam prefix (add_dirty (i32 nFile) (fam_of prefix st)) st, Some pos) else Some (st, None).

Lemma FindSubBlockPos_eq os pos nAddSize nHeight nTime st :
  FindSubBlockPos os pos nAddSize nHeight nTime false st =
  find_pos os pre_subblk (fun st => vinfo_at (fam_vinfo (fs_sub st)) (fam_last (fs_block st)))
    (FlushSubBlockFile os true) nAddSize nHeight nTime st.
Proof.
  unfold FindSubBlockPos, find_pos. cbn [fam_of]. cbv zeta.
  destruct (find_file _ _ _ _) as [[v k]|]; [|done]. cbn [mbind option_bind].
  by destruct (v !! Z.to_nat k).
Qed.

Lemma FindBlockPos_eq os pos nAddSize nHeight nTime st :
  FindBlockPos os pos nAddSize nHeight nTime false st =
  find_pos os pre_blk (fun st => vinfo_at (fam_vinfo (fs_block st)) (fam_last (fs_block st)))
    (FlushBlockFile os true) nAddSize nHeight nTime st.
Proof.
  unfold FindBlockPos, find_pos. cbn [fam_of]. cbv zeta.
  destruct (find_file _ _ _ _) as [[v k]|]; [|done]. cbn [mbind option_bind].
  by destruct (v !! Z.to_nat k).
Qed.

(** The statistics with fresh files at the end. *)
Definition padded (v v' : list CBlockFileInfo) : Prop := exists n, v' = v ++ replicate n CBlockFileInfo_SetNull.

Lemma padded_grows prefix v v' : padded v v' -> grows prefix v v'.
Proof.
  intros [n ->] k i Hi. exists i. split; [|lia]. by apply lookup_app_l_Some.
Qed.

Lemma padded_ok v v' : padded v v' -> Forall info_ok v -> Forall info_ok v'.
Proof.
  intros [n ->] H. apply Forall_app. split; [done|]. apply Forall_replicate. unfold info_ok, MAX_BLOCKFILE_SIZE. cbn. lia.
Qed.

Lemma find_file_family f nAddSize :
  family_ok f -> Zlength (fam_vinfo f) < 2 ^ 31 - 2 -> 0 <= nAddSize < MAX_BLOCKFILE_SIZE ->
  exists v k info,
    (let nFile := u32 (fam_last f) in let vinfo := grow_vinfo nFile (fam_vinfo f) in
     find_file (S (length vinfo)) vinfo nFile nAddSize) = Some (v, Z.of_nat k) /\
    padded (fam_vinfo f) v /\ v !! k = Some info /\ info_ok info /\ fi_nSize info + nAddSize < MAX_BLOCKFILE_SIZE /\
    Z.of_nat k < 2 ^ 31 - 1 /\ (Z.to_nat (fam_last f) < length v)%nat /\
    (fam_last f <> Z.of_nat k ->
     exists i, v !! Z.to_nat (fam_last f) = Some i /\ MAX_BLOCKFILE_SIZE <= fi_nSize i + nAddSize).
Proof.
  intros [Hok (k & Hk & Hlast)] Hl Hadd. cbv zeta. rewrite Hk. unfold Zlength in Hl.
  rewrite (wrapu_small 32) by (unfold uint_range; destruct Hlast as [|[_ ->]]; lia).
  assert (exists v0, grow_vinfo (Z.of_nat k) (fam_vinfo f) = v0 /\ padded (fam_vinfo f) v0 /\
            (k < length v0)%nat /\ Zlength v0 < 2 ^ 31 - 1) as (v0 & E & Hp & Hk0 & Hl0).
  { unfold grow_vinfo, Zlength. destruct Hlast as [Hlt|[E ->]].
    - destruct (Z.leb_spec (Z.of_nat (length (fam_vinfo f))) (Z.of_nat k)); [lia|].
      eexists; split; [done|]. split; [exists 0%nat; by rewrite app_nil_r|]. lia.
    - rewrite E. exists [CBlockFileInfo_SetNull]. split; [by vm_compute|]. split; [by exists 1%nat|]. cbn. lia. }
  rewrite E. pose proof (padded_ok _ _ Hp Hok) as Hok0.
  destruct (find_file_spec (S (length v0)) v0 k nAddSize) as (v & k' & info & -> & Hv & Hk' & Hi & Hio & Hsz & Hleave);
    [done..|lia|].
  exists v, k', info. split; [done|]. unfold Zlength in Hl0.
  assert (padded (fam_vinfo f) v) as Hpv.
  { destruct Hp as [n ->], Hv as [->| ->]; [by exists n|]. exists (n + 1)%nat.
    by rewrite replicate_add, (assoc_L (++)). }
  split; [done|]. split; [done|]. split; [done|]. split; [done|]. split; [lia|].
  rewrite Nat2Z.id. split; [destruct Hv as [->| ->]; [|rewrite length_app]; lia|].
  intros N. destruct Hleave as (i & Hvi & Hfull); [lia|]. exists i. split; [|done].
  destruct Hv as [->| ->]; [done|]. by apply lookup_app_l_Some.
Qed.

Lemma set_check_keeps b st : keeps st (set_check b st).
Proof. apply stats_keeps; [done|]. intros [] k i Hi; exists i; split; done || lia. Qed.

Lemma preallocate_spec os prefix chunk (k : nat) nPos nNewSize st :
  0 < chunk -> nNewSize + chunk < 2 ^ 32 -> 0 <= nPos <= nNewSize ->
  let r := preallocate os prefix chunk (mkDiskPos (Z.of_nat k) nPos) nNewSize st in
  same_stats st r.1 /\ keeps st r.1 /\
  (nMinDiskSpace + (nNewSize - nPos) + chunk <= os_available os < 2 ^ 64 -> r.2 = true).
Proof.
  intros Hc Hn Hp. cbv zeta. unfold preallocate. cbn [dp_nPos dp_nFile].
  destruct (_ <? _) eqn:Hch; [|by split].
  set (st1 := if fs_fPruneMode st then set_check true st else st).
  assert (same_stats st st1 /\ keeps st st1) as [Hs Hk].
  { subst st1. case_if; [|by split]. split; [done|]. apply set_check_keeps. }
  destruct (CheckDiskSpace os _) eqn:Hd.
  - destruct (OpenDiskFile _ _ _ _ _) as [d|] eqn:Ho; [|done]. split; [done|]. split; [|done].
    etransitivity; [done|]. etransitivity; [by eapply open_keeps|].
    apply (allocate_keeps os (set_disk d st1)).
  - split; [done|]. split; [done|]. intros Ha. exfalso. unfold CheckDiskSpace in Hd. zbool.
    unfold chunks in *. rewrite !(wrapu_small 32) in Hch by (unfold uint_range; lia).
    assert ((nNewSize + chunk - 1) / chunk * chunk <= nNewSize + chunk - 1)
      by (rewrite Z.mul_comm; apply Z.mul_div_le; lia).
    assert (nPos <= (nNewSize + chunk - 1) / chunk * chunk)
      by (pose proof (Z.mul_succ_div_gt (nNewSize + chunk - 1) chunk Hc); lia).
    revert Hd. unfold chunks. rewrite (wrapu_small 32 (nNewSize + chunk - 1)) by (unfold uint_range; lia).
    rewrite (wrapu_small 32) by (unfold uint_range; lia).
    rewrite (wrapu_small 64) by (unfold uint_range, nMinDiskSpace in *; lia). lia.
Qed.

Lemma fam_of_set prefix f st : fam_of prefix (set_fam prefix f st) = f.
Proof. by destruct prefix. Qed.

Lemma set_fam_keeps prefix f st :
  (forall p, grows p (fam_vinfo (fam_of prefix st)) (fam_vinfo f)) -> keeps st (set_fam prefix f st).
Proof.
  intros Hg. apply stats_keeps; [by destruct prefix|].
  intros p. destruct prefix, p; try done; cbn; try (by apply Hg);
    intros k i Hi; exists i; split; done || lia.
Qed.

Lemma insert_grows prefix (v : list CBlockFileInfo) k i i' :
  v !! k = Some i -> used prefix i <= used prefix i' -> grows prefix v (<[k := i']> v).
Proof.
  intros Hi Hle k' j Hj. destruct (decide (k = k')) as [<-|N].
  - exists i'. rewrite list_lookup_insert_eq by (by eapply lookup_lt_Some). split; [done|]. congruence.
  - exists j. rewrite list_lookup_insert_ne by done. split; [done|lia].
Qed.

(** The new data lies behind everything the file keeps. *)
Definition free_from (pos : CDiskBlockPos) (prefix : file_prefix) (st : files) : Prop :=
  forall x, kept x st -> pl_key x = (prefix, dp_nFile pos) -> pl_end x <= dp_nPos pos.

(** What finding a place promises: nothing stored is lost, the statistics stay
    sound, and a position, if there is one, is free up to the size counted for it. *)
Definition found (os : os_env) (prefix : file_prefix) (nAddSize : Z) (st st' : files) (r : option CDiskBlockPos) : Prop :=
  keeps st st' /\ family_ok (fam_of prefix st') /\
  (nMinDiskSpace + nAddSize + BLOCKFILE_CHUNK_SIZE <= os_available os < 2 ^ 64 -> r <> None) /\
  forall pos, r = Some pos ->
    free_from pos prefix st /\ 0 <= dp_nPos pos /\
    exists k i, dp_nFile pos = Z.of_nat k /\ fam_vinfo (fam_of prefix st') !! k = Some i /\
      fi_nSize i = dp_nPos pos + nAddSize /\ fi_nSize i < MAX_BLOCKFILE_SIZE /\ dp_nFile pos ∈ fam_dirty (fam_of prefix st').

(** The end of the search, from the statistics [v] with the file [k] chosen. *)
Lemma placed_spec os prefix nAddSize nHeight nTime st st2 k v info :
  prefix <> pre_rev -> keeps st st2 -> fam_vinfo (fam_of prefix st2) = v -> fam_last (fam_of prefix st2) = Z.of_nat k ->
  Forall info_ok v -> v !! k = Some info -> 0 <= nAddSize -> fi_nSize info + nAddSize < MAX_BLOCKFILE_SIZE ->
  padded (fam_vinfo (fam_of prefix st)) v ->
  exists st' r,
    (let nSize := u32 (fi_nSize info + nAddSize) in
     let st3 := set_fam prefix (set_vinfo (<[k := set_nSize nSize (AddBlock nHeight nTime info)]> v) (fam_of prefix st2)) st2 in
     let pos := mkDiskPos (Z.of_nat k) (fi_nSize info) in
     let '(st4, ok) := preallocate os prefix BLOCKFILE_CHUNK_SIZE pos nSize st3 in
     if ok then Some (set_fam prefix (add_dirty (Z.of_nat k) (fam_of prefix st4)) st4, Some pos) else Some (st4, None))
    = Some (st', r) /\ found os prefix nAddSize st st' r.
Proof.
  intros Hpre Hk2 Hv2 Hl2 Hok Hk Hadd Hsz Hpad. cbv zeta.
  assert (info_ok info) as [Hi0 Hi1] by (by eapply Forall_lookup_1). unfold MAX_BLOCKFILE_SIZE in *.
  rewrite (wrapu_small 32) by (unfold uint_range; lia).
  set (st3 := set_fam prefix (set_vinfo _ _) st2).
  assert (fam_of prefix st3 = mkFamily (<[k := set_nSize (fi_nSize info + nAddSize) (AddBlock nHeight nTime info)]> v)
            (Z.of_nat k) (fam_dirty (fam_of prefix st2))) as E3.
  { subst st3. rewrite fam_of_set. unfold set_vinfo. by rewrite Hl2. }
  assert (keeps st2 st3) as Hk3.
  { apply set_fam_keeps. intros p. cbn. rewrite Hv2. eapply insert_grows; [done|]. destruct p; cbn; lia. }
  assert (free_from (mkDiskPos (Z.of_nat k) (fi_nSize info)) prefix st) as Hfree.
  { intros x [_ (i & Hi & Hu)] Ex. injection Ex as Ep Ek. cbn in Ek. apply Nat2Z.inj in Ek. rewrite Ep, Ek in *.
    apply (padded_grows prefix) in Hpad. destruct (Hpad _ _ Hi) as (i' & Hi' & Hle).
    replace i' with info in Hle by congruence. cbn. destruct prefix; cbn in *; lia || done. }
  destruct (preallocate_spec os prefix BLOCKFILE_CHUNK_SIZE k (fi_nSize info) (fi_nSize info + nAddSize) st3)
    as ([Hb Hs] & Hk4 & Hspace); [unfold BLOCKFILE_CHUNK_SIZE; lia..|lia|].
  destruct (preallocate _ _ _ _ _ st3) as [st4 ok]. cbn [fst snd] in *.
  assert (fam_of prefix st4 = fam_of prefix st3) as E4 by (destruct prefix; done).
  assert (keeps st st4) as Hkeep by (do 2 (etransitivity; [done|]); done).
  assert (Forall info_ok (fam_vinfo (fam_of prefix st3))) as Hok3.
  { rewrite E3. cbn. apply Forall_insert; [done|]. unfold info_ok, MAX_BLOCKFILE_SIZE. cbn. lia. }
  assert (family_ok (fam_of prefix st4)) as Hfam.
  { rewrite E4. split; [done|]. rewrite E3. exists k. split; [done|]. left. cbn. rewrite length_insert.
    by eapply lookup_lt_Some. }
  destruct ok; eexists _, _; (split; [done|]).
  - split; [|split; [|split; [done|]]].
    + etransitivity; [done|]. apply set_fam_keeps. intros p j i Hi. by exists i.
    + by rewrite fam_of_set.
    + intros pos [= <-]. split; [done|]. split; [done|].
      exists k, (set_nSize (fi_nSize info + nAddSize) (AddBlock nHeight nTime info)).
      rewrite fam_of_set. split; [done|]. unfold add_dirty. cbn [fam_vinfo fam_dirty]. rewrite E4, E3. cbn [fam_vinfo fam_dirty].
      rewrite list_lookup_insert_eq by (by eapply lookup_lt_Some). unfold MAX_BLOCKFILE_SIZE. cbn. set_solver by lia.
  - split; [done|]. split; [done|]. split; [|done]. intros Ha. exfalso.
    assert (false = true); [apply Hspace; lia|done].
Qed.

Lemma find_pos_spec os prefix log flush nAddSize nHeight nTime st :
  prefix <> pre_rev -> family_ok (fam_of prefix st) -> Zlength (fam_vinfo (fam_of prefix st)) < 2 ^ 31 - 2 ->
  0 <= nAddSize < MAX_BLOCKFILE_SIZE ->
  (forall v i, padded (fam_vinfo (fam_of prefix st)) v -> v !! Z.to_nat (fam_last (fam_of prefix st)) = Some i ->
     MAX_BLOCKFILE_SIZE <= fi_nSize i + nAddSize ->
     let st1 := set_fam prefix (set_vinfo v (fam_of prefix st)) st in
     is_Some (log st1) /\ exists st2, flush st1 = Some st2 /\ same_stats st1 st2 /\ keeps st1 st2) ->
  exists st' r, find_pos os prefix log flush nAddSize nHeight nTime st = Some (st', r) /\
    found os prefix nAddSize st st' r.
Proof.
  intros Hpre Hfam Hlen Hadd Hflush.
  destruct (find_file_family _ nAddSize Hfam Hlen Hadd) as (v & k & info & Hff & Hpad & Hk & Hio & Hsz & Hk31 & Hlast & Hleave).
  unfold find_pos. cbv zeta in Hff |- *. rewrite Hff. cbn [mbind option_bind]. rewrite Nat2Z.id, Hk.
  cbn [mbind option_bind]. rewrite (wraps_small 32) by (unfold sint_range; lia).
  set (st1 := set_fam prefix (set_vinfo v (fam_of prefix st)) st).
  assert (keeps st st1) as Hk1 by (apply set_fam_keeps; intros p; cbn; by apply padded_grows).
  set (mst2 := if negb _ then _ else _).
  assert (exists st2, mst2 = Some st2 /\ keeps st1 st2 /\ fam_vinfo (fam_of prefix st2) = v /\
            fam_last (fam_of prefix st2) = Z.of_nat k) as (st2 & -> & Hk2 & Hv2 & Hl2).
  { subst mst2. destruct (Z.eqb_spec (Z.of_nat k) (fam_last (fam_of prefix st1))) as [E|N]; cbn [negb].
    - exists st1. split; [done|]. split; [done|]. subst st1. rewrite fam_of_set. by rewrite fam_of_set in E.
    - destruct Hleave as (i0 & Hi0 & Hfull); [subst st1; rewrite fam_of_set in N; cbn in N; congruence|].
      destruct (Hflush v i0 Hpad Hi0 Hfull) as [[i Hlog] (st2 & Hfl & [Hb Hs] & Hk2)]. fold st1 in Hlog, Hfl, Hb, Hs, Hk2.
      rewrite Hlog. cbn [mbind option_bind]. rewrite Hfl. cbn [mbind option_bind]. eexists. split; [done|].
      rewrite fam_of_set. assert (fam_of prefix st2 = fam_of prefix st1) as Ef by (destruct prefix; done).
      assert (fam_vinfo (fam_of prefix st2) = v) as Ev by (rewrite Ef; subst st1; by rewrite fam_of_set).
      split; [|done]. etransitivity; [done|]. apply set_fam_keeps. intros p. cbn. intros j i' Hj. by exists i'. }
  cbn [mbind option_bind]. rewrite Hv2, Hk. cbn [mbind option_bind fi_nSize AddBlock].
  apply (placed_spec os prefix nAddSize nHeight nTime st st2 k v info); try done; [by etransitivity| |lia].
  by eapply padded_ok; [|apply Hfam].
Qed.

(** ** Leaving a file keeps its data *)

Lemma vinfo_at_lookup v (k : nat) : vinfo_at v (Z.of_nat k) = v !! k.
Proof. unfold vinfo_at. destruct (Z.leb_spec 0 (Z.of_nat k)); [|lia]. by rewrite Nat2Z.id. Qed.

(** A file opened and cut to a size not below its used part. *)
Lemma flush_one os st prefix (k : nat) n d :
  OpenDiskFile os (fs_disk st) (mkDiskPos (Z.of_nat k) 0) prefix false = Some d ->
  (forall i, fam_vinfo (fam_of prefix st) !! k = Some i -> used prefix i <= n) ->
  keeps st (set_disk (TruncateFile prefix (Z.of_nat k) n d) st).
Proof.
  intros Ho Hn. etransitivity; [by eapply open_keeps|].
  apply (truncate_keeps (set_disk d st)). by destruct prefix.
Qed.

(** Finalizing a sub-block file cuts it to the size the statistics record for the
    sub-block file with the number of the last block file. *)
Definition finalize_safe (st : files) : Prop :=
  exists i j, vinfo_at (fam_vinfo (fs_sub st)) (fam_last (fs_block st)) = Some j /\
    vinfo_at (fam_vinfo (fs_sub st)) (fam_last (fs_sub st)) = Some i /\ fi_nSize i <= fi_nSize j.

Lemma FlushSubBlockFile_spec os st (k : nat) :
  fam_last (fs_sub st) = Z.of_nat k -> finalize_safe st ->
  exists st', FlushSubBlockFile os true st = Some st' /\ same_stats st st' /\ keeps st st'.
Proof.
  intros Hk (i & j & Hj & Hi & Hle). unfold FlushSubBlockFile. rewrite Hj, Hk in *. rewrite vinfo_at_lookup in Hi.
  destruct (OpenDiskFile _ _ _ _ _) as [d|] eqn:Ho; [|by exists st].
  cbn [mbind option_bind]. eexists. split; [done|]. split; [done|]. apply (flush_one os st pre_subblk k); [done|].
  cbn. intros i' Hi'. replace i' with i by congruence. done.
Qed.

Lemma FlushBlockFile_spec os st (k : nat) i :
  fam_last (fs_block st) = Z.of_nat k -> fam_vinfo (fs_block st) !! k = Some i ->
  exists st', FlushBlockFile os true st = Some st' /\ same_stats st st' /\ keeps st st'.
Proof.
  intros Hk Hi. unfold FlushBlockFile. rewrite Hk, vinfo_at_lookup, Hi.
  assert (exists st1, match OpenDiskFile os (fs_disk st) (mkDiskPos (Z.of_nat k) 0) pre_blk false with
            | None => Some st
            | Some d => info ← Some i; Some (set_disk (TruncateFile pre_blk (Z.of_nat k) (fi_nSize info) d) st)
            end = Some st1 /\ same_stats st st1 /\ keeps st st1) as (st1 & -> & [Hb Hs] & Hk1).
  { destruct (OpenDiskFile _ _ _ _ _) as [d|] eqn:Ho; [|by exists st].
    eexists. split; [done|]. split; [done|]. apply (flush_one os st pre_blk k); [done|].
    cbn. intros i' Hi'. replace i' with i by congruence. done. }
  cbn [mbind option_bind]. rewrite Hb, vinfo_at_lookup, Hi.
  destruct (OpenDiskFile _ _ _ pre_rev _) as [d|] eqn:Ho; [|by exists st1].
  cbn [mbind option_bind]. eexists. split; [done|]. split; [done|]. etransitivity; [done|].
  apply (flush_one os st1 pre_rev k); [done|].
  cbn. rewrite Hb. intros i' Hi'. replace i' with i by congruence. done.
Qed.

(** ** Writing at a found position *)

Lemma OpenDiskFile_write os d pos prefix :
  os_can_open os prefix (dp_nFile pos) = true -> 0 <= dp_nFile pos ->
  exists d' f, OpenDiskFile os d pos prefix false = Some d' /\ d' !! (prefix, dp_nFile pos) = Some f /\
    forall key g, d !! key = Some g -> d' !! key = Some g.
Proof.
  intros Ho Hn. destruct (OpenDiskFile os d pos prefix false) as [d'|] eqn:E.
  - assert (is_Some (d' !! (prefix, dp_nFile pos))) as [f Hf].
    { revert E. unfold OpenDiskFile. destruct (CDiskBlockPos_IsNull pos); [done|]. rewrite Ho. cbn [negb].
      destruct (d !! (prefix, dp_nFile pos)) eqn:El; intros [= <-]; [by rewrite El|by rewrite lookup_insert_eq]. }
    exists d', f. split; [done|]. split; [done|]. intros key g. by eapply OpenDiskFile_lookup.
  - exfalso. revert E. unfold OpenDiskFile, CDiskBlockPos_IsNull. destruct (Z.eqb_spec (dp_nFile pos) (-1)); [lia|].
    rewrite Ho. cbn [negb]. by destruct (d !! (prefix, dp_nFile pos)).
Qed.

Lemma write_framed_spec os prefix header data (k : nat) nPos st :
  os_can_open os prefix (Z.of_nat k) = true -> 0 <= nPos -> nPos + 8 < 2 ^ 32 -> length header = 8%nat ->
  let pos' := mkDiskPos (Z.of_nat k) (nPos + 8) in
  exists st', write_framed os prefix header data (mkDiskPos (Z.of_nat k) nPos) st = (st', Some pos') /\
    same_stats st st' /\
    (exists f, fs_disk st' !! (prefix, Z.of_nat k) = Some f /\ stored f (Z.to_nat nPos + 8) data) /\
    (forall x, kept x st -> (pl_key x = (prefix, Z.of_nat k) -> pl_end x <= nPos) -> kept x st').
Proof.
  intros Ho H0 Hn Hh. cbv zeta. unfold write_framed.
  destruct (OpenDiskFile_write os (fs_disk st) (mkDiskPos (Z.of_nat k) nPos) prefix) as (d & f & -> & Hf & Hext);
    [done|cbn; lia|]. cbn [dp_nFile dp_nPos] in *.
  replace (Zlength header) with 8 by (unfold Zlength; lia). rewrite (wrapu_small 32) by (unfold uint_range; lia).
  eexists. split; [done|]. split; [done|]. unfold fwrite. cbn [dp_nFile dp_nPos fs_disk set_disk].
  assert (alter (write_at (Z.to_nat (nPos + 8)) data) (prefix, Z.of_nat k)
            (alter (write_at (Z.to_nat nPos) header) (prefix, Z.of_nat k) d)
          = alter (write_at (Z.to_nat nPos) (header ++ data)) (prefix, Z.of_nat k) d) as ->.
  { apply map_eq. intros key. destruct (decide ((prefix, Z.of_nat k) = key)) as [<-|N].
    - rewrite !lookup_alter_eq, Hf. cbn. rewrite <- write_at_app, Hh. do 2 f_equal. lia.
    - by rewrite !lookup_alter_ne. }
  split.
  - exists (write_at (Z.to_nat nPos) (header ++ data) f). rewrite lookup_alter_eq, Hf. split; [done|].
    rewrite <- Hh. apply stored_sub, stored_write.
  - intros x [(g & Hg & Hs) Hi] Hend. split; [|by destruct x as [[] ? ? ?]]. cbn [fs_disk set_disk].
    destruct (decide (pl_key x = (prefix, Z.of_nat k))) as [E|N].
    + specialize (Hend E). rewrite E in Hg |- *. apply Hext in Hg.
      exists (write_at (Z.to_nat nPos) (header ++ data) g). rewrite lookup_alter_eq, Hg. split; [done|].
      apply stored_write_after; [done|]. unfold pl_end, Zlength in Hend. lia.
    + exists g. rewrite lookup_alter_ne by done. split; [by apply Hext|done].
Qed.

Lemma record_header messageStart nSize : length messageStart = 4%nat -> length (messageStart ++ ser_writedata32 nSize) = 8%nat.
Proof. intros Hm. rewrite length_app, Hm. unfold ser_writedata32. by rewrite length_le_bytes. Qed.

(** Finding a place and writing there: the record is kept, and so is everything
    that was. *)
Lemma found_write os prefix messageStart data nAddSize st st1 pos :
  prefix <> pre_rev -> found os prefix nAddSize st st1 (Some pos) -> nAddSize = Zlength data + 8 ->
  os_can_open os prefix (dp_nFile pos) = true -> length messageStart = 4%nat ->
  exists st2 k pos', write_record os prefix messageStart data pos st1 = (st2, Some pos') /\ same_stats st1 st2 /\
    pos' = mkDiskPos (Z.of_nat k) (dp_nPos pos + 8) /\ dp_nFile pos = Z.of_nat k /\
    uint_range 32 (dp_nPos pos') /\
    kept (mkPlace prefix k (Z.to_nat (dp_nPos pos')) data) st2 /\ keeps st st2.
Proof.
  intros Hpre (Hk & Hfam & _ & Hpos) Hadd Ho Hm.
  destruct (Hpos pos) as (Hfree & H0 & k & i & Hn & Hi & Hsz & Hmax & _); [done|]. clear Hpos.
  destruct pos as [nFile nPos]. cbn [dp_nFile dp_nPos] in *. subst nFile.
  pose proof (Zlength_nonneg data). unfold MAX_BLOCKFILE_SIZE in Hmax.
  destruct (write_framed_spec os prefix (messageStart ++ ser_writedata32 (u32 (Zlength data))) data k nPos st1)
    as (st2 & Hw & Hs & (f & Hf & Hst) & Hrest); [done|lia..|by apply record_header|].
  exists st2, k, (mkDiskPos (Z.of_nat k) (nPos + 8)). split; [done|]. split; [done|]. split; [done|]. split; [done|].
  cbn [dp_nPos]. split; [unfold uint_range; lia|]. split.
  - split.
    + exists f. split; [done|]. cbn. replace (Z.to_nat (nPos + 8)) with (Z.to_nat nPos + 8)%nat by lia. done.
    + exists i. destruct Hs as [Hb Hs]. assert (fam_of prefix st2 = fam_of prefix st1) as E by (destruct prefix; done).
      cbn [pl_prefix pl_nFile]. rewrite E. split; [done|]. unfold pl_end, Zlength in *. cbn [pl_pos pl_data].
      destruct prefix; cbn [used]; try done; lia.
  - intros x Hx. apply Hrest; [by apply Hk|]. intros Ex. by apply Hfree.
Qed.

(** ** Blocks *)

Lemma OpenDiskFile_read os d pos prefix f :
  os_can_open os prefix (dp_nFile pos) = true -> 0 <= dp_nFile pos -> d !! (prefix, dp_nFile pos) = Some f ->
  OpenDiskFile os d pos prefix true = Some d.
Proof.
  intros Ho Hn Hf. unfold OpenDiskFile, CDiskBlockPos_IsNull. destruct (Z.eqb_spec (dp_nFile pos) (-1)); [lia|].
  by rewrite Ho, Hf.
Qed.

(** A kept piece of data is what its file reads as at its offset. *)
Lemma kept_stream os prefix (k : nat) nPos data st :
  0 <= nPos -> kept (mkPlace prefix k (Z.to_nat nPos) data) st -> os_can_open os prefix (Z.of_nat k) = true ->
  let pos := mkDiskPos (Z.of_nat k) nPos in
  OpenDiskFile os (fs_disk st) pos prefix true = Some (fs_disk st) /\
  exists rest, fstream (fs_disk st) prefix pos = data ++ rest.
Proof.
  intros Hn [(f & Hf & Hs) _] Ho. cbv zeta. cbn in Hf, Hs.
  split; [eapply OpenDiskFile_read; cbn; done || lia|]. unfold fstream. cbn [dp_nFile dp_nPos]. unfold pl_key in Hf.
  cbn in Hf. rewrite Hf. by apply stored_drop.
Qed.

(** The block a kept place holds can be read. *)
Lemma kept_block_read os version params st block data (k : nat) nPos :
  0 <= nPos -> kept (mkPlace pre_blk k (Z.to_nat nPos) data) st -> os_can_open os pre_blk (Z.of_nat k) = true ->
  block_wf version block -> Serialize_block block version = Ok data ->
  CheckProofOfWork (CBlockHeader_GetHash (block_header block)) (hdr_nBits (block_header block)) params = true ->
  ReadBlockFromDisk os version params (mkDiskPos (Z.of_nat k) nPos) st = Some (mkBlock (block_header block) (vtx block) false).
Proof.
  intros Hn Hk Ho Hwf Hser Hpow. destruct (kept_stream os pre_blk k nPos data st Hn Hk Ho) as [Hop [rest Hst]].
  unfold ReadBlockFromDisk. rewrite Hop, Hst.
  destruct (block_decode version CBlock_SetNull block rest Hwf) as (enc & He & Hd).
  rewrite Hser in He. injection He as <-. rewrite Hd. cbn [block_header]. by rewrite Hpow.
Qed.

Definition opens_all (os : os_env) (prefix : file_prefix) : Prop := forall k, os_can_open os prefix k = true.
Definition enough_space (os : os_env) (nAddSize : Z) : Prop :=
  nMinDiskSpace + nAddSize + BLOCKFILE_CHUNK_SIZE <= os_available os < 2 ^ 64.

Lemma FindBlockPos_spec os pos nAddSize nHeight nTime st :
  family_ok (fs_block st) -> Zlength (fam_vinfo (fs_block st)) < 2 ^ 31 - 2 -> 0 <= nAddSize < MAX_BLOCKFILE_SIZE ->
  exists st' r, FindBlockPos os pos nAddSize nHeight nTime false st = Some (st', r) /\ found os pre_blk nAddSize st st' r.
Proof.
  intros Hf Hl Ha. rewrite FindBlockPos_eq. apply find_pos_spec; [done..|].
  intros v i Hp Hi _ st1. destruct Hf as [_ (k & Hk & _)]. cbn [fam_of] in *. rewrite Hk, Nat2Z.id in Hi.
  split; [subst st1; cbn; by rewrite Hk, vinfo_at_lookup, Hi|]. by apply (FlushBlockFile_spec os st1 k i).
Qed.

(** Leaving the last sub-block file is safe: it is not full yet, or the file whose
    recorded size [FlushSubBlockFile] cuts it to is not shorter. *)
Definition leave_safe (nAddSize : Z) (st : files) : Prop :=
  forall i, fam_vinfo (fs_sub st) !! Z.to_nat (fam_last (fs_sub st)) = Some i ->
    MAX_BLOCKFILE_SIZE <= fi_nSize i + nAddSize ->
    exists j, vinfo_at (fam_vinfo (fs_sub st)) (fam_last (fs_block st)) = Some j /\ fi_nSize i <= fi_nSize j.

Lemma FindSubBlockPos_spec os pos nAddSize nHeight nTime st :
  family_ok (fs_sub st) -> Zlength (fam_vinfo (fs_sub st)) < 2 ^ 31 - 2 -> 0 <= nAddSize < MAX_BLOCKFILE_SIZE ->
  leave_safe nAddSize st ->
  exists st' r, FindSubBlockPos os pos nAddSize nHeight nTime false st = Some (st', r) /\
    found os pre_subblk nAddSize st st' r.
Proof.
  intros Hf Hl Ha Hsafe. rewrite FindSubBlockPos_eq. apply find_pos_spec; [done..|].
  intros v i [n ->] Hi Hfull st1. destruct Hf as [_ (k & Hk & Hlast)]. cbn [fam_of] in *.
  destruct Hlast as [Hlt|[E ->]].
  - rewrite Hk, Nat2Z.id, lookup_app_l in Hi by lia.
    destruct (Hsafe i) as (j & Hj & Hle); [by rewrite Hk, Nat2Z.id|done|].
    assert (finalize_safe st1) as Hs.
    { exists i, j. subst st1. cbn. rewrite Hk, vinfo_at_lookup, lookup_app_l by done. split; [|done].
      unfold vinfo_at in *. case_if; [|done]. by apply lookup_app_l_Some. }
    destruct (Hs) as (? & j' & Hj' & _). split; [by exists j'|]. by apply (FlushSubBlockFile_spec os st1 k).
  - exfalso. rewrite Hk, E in Hi. apply list_elem_of_lookup_2, elem_of_replicate in Hi as [-> _].
    cbn in Hfull. lia.
Qed.

(** C35: storing a block. With space left and files that open, finding a place and
    writing there succeeds; the block reads back from the position returned, every
    piece of data the files kept (blocks, undo data and sub-blocks alike) is still
    there, and the statistics stay sound. *)
Theorem block_store_correct os messageStart version params nHeight st block data :
  family_ok (fs_block st) -> Zlength (fam_vinfo (fs_block st)) < 2 ^ 31 - 2 ->
  block_wf version block -> Serialize_block block version = Ok data -> Zlength data + 8 < MAX_BLOCKFILE_SIZE ->
  CheckProofOfWork (CBlockHeader_GetHash (block_header block)) (hdr_nBits (block_header block)) params = true ->
  opens_all os pre_blk -> enough_space os (Zlength data + 8) -> length messageStart = 4%nat ->
  exists st1 pos st2 pos',
    FindBlockPos os CDiskBlockPos_SetNull (Zlength data + 8) nHeight (hdr_nTime (block_header block)) false st = Some (st1, Some pos) /\
    WriteBlockToDisk os messageStart version block pos st1 = Ok (st2, Some pos') /\
    ReadBlockFromDisk os version params pos' st2 = Some (mkBlock (block_header block) (vtx block) false) /\
    keeps st st2 /\ family_ok (fs_block st2) /\
    forall old odata (k : nat) nPos,
      0 <= nPos -> kept (mkPlace pre_blk k (Z.to_nat nPos) odata) st ->
      block_wf version old -> Serialize_block old version = Ok odata ->
      CheckProofOfWork (CBlockHeader_GetHash (block_header old)) (hdr_nBits (block_header old)) params = true ->
      ReadBlockFromDisk os version params (mkDiskPos (Z.of_nat k) nPos) st2 = Some (mkBlock (block_header old) (vtx old) false).
Proof.
  intros Hf Hl Hwf Hser Hsize Hpow Ho Hsp Hm. pose proof (Zlength_nonneg data).
  destruct (FindBlockPos_spec os CDiskBlockPos_SetNull (Zlength data + 8) nHeight (hdr_nTime (block_header block)) st)
    as (st1 & r & -> & Hfound); [done..|lia|].
  destruct r as [pos|]; [|by destruct Hfound as (_ & _ & Hr & _); apply Hr in Hsp].
  destruct (found_write os pre_blk messageStart data _ st st1 pos ltac:(done) Hfound eq_refl (Ho _) Hm)
    as (st2 & k & pos' & Hw & [Hb Hs] & -> & Hn & Hr & Hk & Hkeep).
  exists st1, pos, st2, (mkDiskPos (Z.of_nat k) (dp_nPos pos + 8)). split; [done|].
  split; [unfold WriteBlockToDisk; rewrite Hser; cbn; by rewrite Hw|].
  split; [eapply kept_block_read; [|done..]; cbn in Hr; by destruct Hr|]. split; [done|].
  split; [rewrite Hb; by destruct Hfound as (_ & ? & _)|].
  intros old odata k' p Hp Hold. eapply kept_block_read; [done|by apply Hkeep|done].
Qed.

(** Undo data gets the bytes behind what the undo file keeps, and nothing stored
    is lost. *)
Theorem FindUndoPos_correct os (k : nat) nAddSize st i :
  fam_vinfo (fs_block st) !! k = Some i -> 0 <= fi_nUndoSize i -> 0 <= nAddSize ->
  fi_nUndoSize i + nAddSize + UNDOFILE_CHUNK_SIZE < 2 ^ 32 ->
  exists st' r, FindUndoPos os (Z.of_nat k) nAddSize st = Some (st', r) /\ keeps st st' /\
    (exists i', fam_vinfo (fs_block st') !! k = Some i' /\ fi_nUndoSize i' = fi_nUndoSize i + nAddSize /\ fi_nSize i' = fi_nSize i) /\
    (nMinDiskSpace + nAddSize + UNDOFILE_CHUNK_SIZE <= os_available os < 2 ^ 64 -> r <> None) /\
    forall pos, r = Some pos -> pos = mkDiskPos (Z.of_nat k) (fi_nUndoSize i) /\ free_from pos pre_rev st.
Proof.
  intros Hi H0 Ha Hb. unfold FindUndoPos. rewrite vinfo_at_lookup, Hi. cbn [mbind option_bind]. rewrite Nat2Z.id.
  rewrite (wrapu_small 32) by (unfold uint_range, UNDOFILE_CHUNK_SIZE in *; lia).
  set (st1 := set_block _ st).
  assert (keeps st st1) as Hk1.
  { apply (set_fam_keeps pre_rev). intros p. cbn. eapply insert_grows; [done|]. destruct p; cbn; lia. }
  destruct (preallocate_spec os pre_rev UNDOFILE_CHUNK_SIZE k (fi_nUndoSize i) (fi_nUndoSize i + nAddSize) st1)
    as ([Hbl _] & Hk2 & Hspace); [unfold UNDOFILE_CHUNK_SIZE in *; lia..|].
  destruct (preallocate _ _ _ _ _ st1) as [st2 ok]. cbn [fst snd] in *. eexists _, _. split; [done|].
  split; [by etransitivity|]. split.
  { rewrite Hbl. eexists. split; [cbn; apply list_lookup_insert_eq; by eapply lookup_lt_Some|done]. }
  split.
  - intros Hsp. replace ok with true by (symmetry; apply Hspace; lia). done.
  - intros pos. destruct ok; [|done]. intros [= <-]. split; [done|].
    intros x [_ (i' & Hi' & Hu)] Ex. injection Ex as Ep Ek. cbn in Ek. apply Nat2Z.inj in Ek. rewrite Ep, Ek in *.
    cbn in Hi', Hu |- *. congruence.
Qed.

(** ** Instances of the statements *)

Definition sample_os : os_env := mkOs (2 ^ 40) (fun _ _ => true) false.
Definition empty_files : files := mkFiles ∅ (mkFamily [] 0 ∅) (mkFamily [] 0 ∅) false false.

Definition sample_mined : CBlock :=
  mkBlock (mkHeader 4 (replicate 32 x05) (replicate 32 x06) 1500000000 0x207fffff 0) [sample_tx] false.
Definition sample_limit : PowParams := mkPowParams (replicate 31 xff ++ [x7f]) true true 600 1209600.
Definition sample_mined_data : bytes :=
  match Serialize_block sample_mined 0 with Ok data => data | Err _ => [] end.

Lemma sample_mined_wf : block_wf 0 sample_mined.
Proof.
  split; [wf_compute|]. split; [vm_compute; congruence|].
  repeat constructor; try (vm_compute; congruence); apply sample_tx_wf.
Qed.

Lemma empty_family_ok : family_ok (mkFamily [] 0 ∅).
Proof. split; [constructor|]. exists 0%nat. split; [done|by right]. Qed.

Lemma block_store_correct_witness :
  exists st1 pos st2 pos',
    FindBlockPos sample_os CDiskBlockPos_SetNull (Zlength sample_mined_data + 8) 0 1500000000 false empty_files = Some (st1, Some pos) /\
    WriteBlockToDisk sample_os (replicate 4 xf9) 0 sample_mined pos st1 = Ok (st2, Some pos') /\
    ReadBlockFromDisk sample_os 0 sample_limit pos' st2 = Some sample_mined.
Proof.
  destruct (block_store_correct sample_os (replicate 4 xf9) 0 sample_limit 0 empty_files sample_mined sample_mined_data)
    as (st1 & pos & st2 & pos' & H1 & H2 & H3 & _).
  - exact empty_family_ok.
  - vm_compute. reflexivity.
  - exact sample_mined_wf.
  - vm_compute. reflexivity.
  - vm_compute. reflexivity.
  - vm_compute. reflexivity.
  - intros k. reflexivity.
  - vm_compute. split; congruence.
  - reflexivity.
  - exists st1, pos, st2, pos'. split; [exact H1|]. split; [exact H2|exact H3].
Defined.

Lemma FindUndoPos_correct_witness :
  exists st' r,
    FindUndoPos sample_os (Z.of_nat 0) 100 (set_block (mkFamily [CBlockFileInfo_SetNull] 0 ∅) empty_files) = Some (st', r) /\
    r <> None.
Proof.
  destruct (FindUndoPos_correct sample_os 0 100 (set_block (mkFamily [CBlockFileInfo_SetNull] 0 ∅) empty_files)
              CBlockFileInfo_SetNull) as (st' & r & H1 & _ & _ & H2 & _).
  - reflexivity.
  - cbn. lia.
  - lia.
  - vm_compute. reflexivity.
  - exists st', r. split; [exact H1|]. apply H2. vm_compute. split; congruence.
Defined.
