(* ===== verification/SubBlockStore.v ===== *)
(** * The store of sub-blocks (topchain/src/validation.cpp, txdb.cpp, net_processing.cpp)

    Sub-blocks arrive from peers or from the wallet, are written to their files,
    indexed by hash, persisted in a database of their own and served to peers. The
    index maps a hash to the object its pointer designates. [None] is undefined
    behaviour, a failed assertion or a loop that does not end. *)

From S2P Require Import Prelude Serialize Sha256 Primitives ArithUint256 Chain Pow FlatFile BlockFiles.

Record CSubBlockIndex := mkSubIndex {
  si_phashBlock : option uint256;
  si_nHeight : Z;
  si_nFile : Z;
  si_nDataPos : Z
}.

#[global] Instance CSubBlockIndex_eq_dec : EqDecision CSubBlockIndex.
Proof. solve_decision. Defined.

Definition CSubBlockIndex_default : CSubBlockIndex := mkSubIndex None 0 0 0.
Definition CSubBlockIndex_GetBlockHash (n : CSubBlockIndex) : option uint256 := si_phashBlock n.
Definition CSubBlockIndex_GetBlockPos (n : CSubBlockIndex) : CDiskBlockPos := mkDiskPos (si_nFile n) (si_nDataPos n).

(** The globals: the files, [mapSubBlockIndex], [setDirtySubBlockIndex]. *)
Record substore := mkSubStore {
  ss_files : files;
  ss_map : gmap (list byte) CSubBlockIndex;
  ss_dirty : gset (list byte)
}.

Definition set_files (fs : files) (st : substore) : substore := mkSubStore fs (ss_map st) (ss_dirty st).

Definition AddToSubBlockIndex (block : CSubBlock) (pos : CDiskBlockPos) (st : substore) : substore :=
  let hash := CSubBlock_GetHash block in
  match ss_map st !! hash with
  | Some _ => st
  | None =>
      let pindexNew := mkSubIndex (Some hash) (i32 (sb_nHeight block)) (dp_nFile pos) (dp_nPos pos) in
      mkSubStore (ss_files st) (<[hash := pindexNew]> (ss_map st)) ({[hash]} ∪ ss_dirty st)
  end.

(** What [AcceptSubBlock] returns: its result, the value of [*fNewBlock], and
    whether it goes on to call [FlushStateToDisk]. *)
Record accepted := mkAccepted { ac_ret : bool; ac_fNewBlock : bool; ac_flush : bool }.

Section ops.
Context (os : os_env) (messageStart : bytes).

(** The overload of [ReadSubBlockFromDisk] that takes an index entry. *)
Definition ReadSubBlockFromDisk_index (n : CSubBlockIndex) (fs : files) : option (option CSubBlock) :=
  match ReadSubBlockFromDisk os (CSubBlockIndex_GetBlockPos n) fs with
  | None => Some None
  | Some block =>
      h ← CSubBlockIndex_GetBlockHash n;
      Some (if bool_decide (CSubBlock_GetHash block = h) then Some block else None)
  end.

Definition AcceptSubBlock (block : CSubBlock) (st : substore) : option (substore * accepted) :=
  let hash := CSubBlock_GetHash block in
  match ss_map st !! hash with
  | None =>
      let nBlockSize := u32 (Zlength (Serialize_subblock block)) in
      '(fs, blockPos) ← FindSubBlockPos os CDiskBlockPos_SetNull (u32 (nBlockSize + 8)) (sb_nHeight block)
                          (sb_nTime block) false (ss_files st);
      let st := set_files fs st in
      match blockPos with
      | None => Some (st, mkAccepted false false false)
      | Some blockPos =>
          let '(fs, blockPos) := WriteSubBlockToDisk os messageStart block blockPos (ss_files st) in
          let st := set_files fs st in
          match blockPos with
          | None => Some (st, mkAccepted false false false)
          | Some blockPos =>
              Some (AddToSubBlockIndex block blockPos st, mkAccepted true false (fs_fCheckForPruning (ss_files st)))
          end
      end
  | Some _ => Some (st, mkAccepted true true (fs_fCheckForPruning (ss_files st)))
  end.

Definition ProcessNewSubBlock (block : CSubBlock) (st : substore) : option (substore * accepted) :=
  AcceptSubBlock block st.

(** ** Serving sub-blocks *)

Definition AlreadyHave_subblock (hash : uint256) (st : substore) : bool :=
  match ss_map st !! hash with Some _ => true | None => false end.

Inductive getdata_reply := NotFound | PushSubBlock (block : CSubBlock).

(** The [MSG_SUBBLOCK] branch of [ProcessGetData]; [recent] is [most_recent_subblock]. *)
Definition ProcessGetData_subblock (hash : uint256) (recent : option CSubBlock) (st : substore)
  : option (getdata_reply * option CSubBlock) :=
  match ss_map st !! hash with
  | None => Some (NotFound, recent)
  | Some n =>
      pblock ←
        (match recent with
         | Some r =>
             h ← CSubBlockIndex_GetBlockHash n;
             if bool_decide (CSubBlock_GetHash r = h) then Some r
             else mjoin (ReadSubBlockFromDisk_index n (ss_files st))
         | None => mjoin (ReadSubBlockFromDisk_index n (ss_files st))
         end);
      Some (PushSubBlock pblock, Some pblock)
  end.
End ops.

(** ** The database of sub-blocks *)

(** [CDiskSubBlockIndex::SerializationOp], outside hashing. *)
Definition Serialize_subindex (nVersion : Z) (n : CSubBlockIndex) : option bytes :=
  v ← WriteVarInt 32 nVersion; h ← WriteVarInt 32 (si_nHeight n);
  f ← WriteVarInt 32 (si_nFile n); p ← WriteVarInt 32 (si_nDataPos n);
  Some (v ++ h ++ f ++ p).
Definition Unserialize_subindex : reader CSubBlockIndex :=
  _ ← ReadVarInt (2 ^ 31 - 1); h ← ReadVarInt (2 ^ 31 - 1);
  f ← ReadVarInt (2 ^ 31 - 1); p ← ReadVarInt (2 ^ 32 - 1);
  mret (mkSubIndex None h f p).

(** The values under the keys [DB_BLOCK_FILES], [DB_LAST_BLOCK] and [DB_BLOCK_INDEX]. *)
Record sub_db := mkSubDb {
  db_files : gmap Z (list byte);
  db_last : option Z;
  db_index : gmap (list byte) (list byte)
}.

Definition WriteBatchSync (nVersion : Z) (fileInfo : list (Z * CBlockFileInfo)) (nLastFile : Z)
    (blockinfo : list CSubBlockIndex) (db : sub_db) : option sub_db :=
  fs ← foldl (fun acc x => m ← acc; v ← Serialize_fileinfo x.2; Some (<[x.1 := v]> m)) (Some (db_files db)) fileInfo;
  idx ← foldl (fun acc n => m ← acc; h ← CSubBlockIndex_GetBlockHash n; v ← Serialize_subindex nVersion n; Some (<[h := v]> m))
         (Some (db_index db)) blockinfo;
  Some (mkSubDb fs (Some nLastFile) idx).

(** The part of [FlushStateToDisk] that writes the dirty statistics and index
    entries of sub-blocks. *)
Definition FlushSubBlocks (nVersion : Z) (st : substore) (db : sub_db) : option (substore * sub_db) :=
  let fs := ss_files st in
  vSubFiles ← mapM (fun k => i ← vinfo_at (fam_vinfo (fs_sub fs)) k; Some (k, i)) (elements (fam_dirty (fs_sub fs)));
  vSubBlocks ← mapM (fun h => ss_map st !! h) (elements (ss_dirty st));
  db ← WriteBatchSync nVersion vSubFiles (fam_last (fs_sub fs)) vSubBlocks db;
  Some (mkSubStore (set_sub (mkFamily (fam_vinfo (fs_sub fs)) (fam_last (fs_sub fs)) ∅) fs) (ss_map st) ∅, db).

(** ** Loading at start *)

Definition InsertSubBlockIndex (hash : uint256) (m : gmap (list byte) CSubBlockIndex)
  : option (gmap (list byte) CSubBlockIndex) :=
  if uint256_IsNull hash then None
  else match m !! hash with
       | Some _ => Some m
       | None => Some (<[hash := mkSubIndex (Some hash) 0 0 0]> m)
       end.

Definition DB_BLOCK_INDEX : byte := x62.

(** A record under the cursor: what [GetKey] gives, and the bytes of the value. *)
Record sub_record := mkSubRecord { sr_key : option (byte * uint256); sr_value : bytes }.

Fixpoint LoadSubBlockIndexGuts (records : list sub_record) (m : gmap (list byte) CSubBlockIndex)
  : option (gmap (list byte) CSubBlockIndex * bool) :=
  match records with
  | [] => Some (m, true)
  | r :: records =>
      match sr_key r with
      | Some (k, hash) =>
          if bool_decide (k = DB_BLOCK_INDEX) then
            match Unserialize_subindex (sr_value r) with
            | Ok (diskindex, _) =>
                m ← InsertSubBlockIndex hash m;
                old ← m !! hash;
                LoadSubBlockIndexGuts records
                  (<[hash := mkSubIndex (si_phashBlock old) (si_nHeight diskindex) (si_nFile diskindex) (si_nDataPos diskindex)]> m)
            | Err _ => Some (m, false)
            end
          else Some (m, true)
      | None => Some (m, true)
      end
  end.

(** The sub-block state of a process that has just loaded the index: the disk is as
    it was, and [vinfoSubBlockFile] and [nLastSubBlockFile] have their initial values,
    which [LoadSubBlockIndexDB] does not change. *)
Definition LoadSubBlockIndexDB (records : list sub_record) (fs : files) : option (substore * bool) :=
  '(m, ok) ← LoadSubBlockIndexGuts records ∅;
  Some (mkSubStore (set_sub (mkFamily [] 0 ∅) fs) m ∅, ok).

(** * What the store promises *)

(** The index entry points at the serialization of the sub-block. *)
Definition holds (fs : files) (n : CSubBlockIndex) (b : CSubBlock) : Prop :=
  subblock_wf b /\ uint_range 32 (si_nDataPos n) /\
  exists k, si_nFile n = Z.of_nat k /\
    kept (mkPlace pre_subblk k (Z.to_nat (si_nDataPos n)) (Serialize_subblock b)) fs.

Record store_ok (st : substore) : Prop := {
  store_family : family_ok (fs_sub (ss_files st));
  store_entries : forall h n, ss_map st !! h = Some n ->
    si_phashBlock n = Some h /\ exists b, CSubBlock_GetHash b = h /\ holds (ss_files st) n b
}.

Lemma holds_keeps fs fs' n b : keeps fs fs' -> holds fs n b -> holds fs' n b.
Proof. intros Hk (Hwf & Hr & k & Hn & Hkept). split; [done|]. split; [done|]. exists k. split; [done|]. by apply Hk. Qed.

Lemma holds_read os fs n b : opens_all os pre_subblk -> holds fs n b ->
  ReadSubBlockFromDisk os (CSubBlockIndex_GetBlockPos n) fs = Some b.
Proof.
  intros Ho (Hwf & [Hr _] & k & Hn & Hk). unfold CSubBlockIndex_GetBlockPos. rewrite Hn.
  destruct (kept_stream os pre_subblk k _ _ fs Hr Hk (Ho _)) as [Hop [rest Hst]].
  unfold ReadSubBlockFromDisk. rewrite Hop, Hst, codec_roundtrip by done. done.
Qed.

Lemma holds_read_index os fs n b : opens_all os pre_subblk -> si_phashBlock n = Some (CSubBlock_GetHash b) ->
  holds fs n b -> ReadSubBlockFromDisk_index os n fs = Some (Some b).
Proof.
  intros Ho Hh H. unfold ReadSubBlockFromDisk_index, CSubBlockIndex_GetBlockHash.
  rewrite (holds_read os fs n b), Hh by done. cbn. by rewrite bool_decide_eq_true_2.
Qed.

Lemma subblock_size b : subblock_wf b ->
  0 <= Zlength (Serialize_subblock b) /\ Zlength (Serialize_subblock b) + 8 < MAX_BLOCKFILE_SIZE.
Proof.
  intros (Hid & Hdata & _). split; [apply Zlength_nonneg|].
  unfold Serialize_subblock, Serialize_base_blob, Serialize_blob. rewrite !Zlength_app.
  unfold base_blob_wf in Hid. unfold blob_wf, MAX_SIZE in Hdata. pose proof (Zlength_nonneg (subblockdata b)).
  assert (Zlength (WriteCompactSize (Zlength (subblockdata b))) <= 9).
  { rewrite length_WriteCompactSize. unfold GetSizeOfCompactSize. repeat case_if; lia. }
  unfold ser_writedata32, MAX_BLOCKFILE_SIZE. unfold Zlength in *. rewrite !length_le_bytes. lia.
Qed.

Lemma AddToSubBlockIndex_new block pos st :
  ss_map st !! CSubBlock_GetHash block = None ->
  ss_map (AddToSubBlockIndex block pos st) =
    <[CSubBlock_GetHash block := mkSubIndex (Some (CSubBlock_GetHash block)) (i32 (sb_nHeight block)) (dp_nFile pos) (dp_nPos pos)]> (ss_map st) /\
  ss_files (AddToSubBlockIndex block pos st) = ss_files st.
Proof. intros E. unfold AddToSubBlockIndex. by rewrite E. Qed.

(** Files that keep everything keep the store. *)
Lemma store_ok_keeps fs st : store_ok st -> keeps (ss_files st) fs -> family_ok (fs_sub fs) -> store_ok (set_files fs st).
Proof.
  intros [_ He] Hk Hf. split; [done|]. intros h n Hn. destruct (He h n Hn) as (Hp & b & Hb & Hh).
  split; [done|]. exists b. split; [done|]. by eapply holds_keeps.
Qed.

Lemma store_ok_add st block pos :
  store_ok st -> ss_map st !! CSubBlock_GetHash block = None ->
  holds (ss_files st) (mkSubIndex (Some (CSubBlock_GetHash block)) (i32 (sb_nHeight block)) (dp_nFile pos) (dp_nPos pos)) block ->
  store_ok (AddToSubBlockIndex block pos st).
Proof.
  intros [Hf He] Hnew Hh. destruct (AddToSubBlockIndex_new block pos st Hnew) as [Em Ef].
  split; [by rewrite Ef|]. rewrite Em, Ef. intros h n. rewrite lookup_insert_Some. intros [[<- <-]|[_ Hn]]; [|by apply He].
  split; [done|]. by exists block.
Qed.

(** Finding a place and writing a new sub-block. *)
Lemma Accept_new os messageStart block st :
  store_ok st -> subblock_wf block -> Zlength (fam_vinfo (fs_sub (ss_files st))) < 2 ^ 31 - 2 ->
  leave_safe (Zlength (Serialize_subblock block) + 8) (ss_files st) -> opens_all os pre_subblk -> length messageStart = 4%nat ->
  ss_map st !! CSubBlock_GetHash block = None ->
  exists st' r, AcceptSubBlock os messageStart block st = Some (st', r) /\ ac_fNewBlock r = false /\
    store_ok st' /\ keeps (ss_files st) (ss_files st') /\
    (enough_space os (Zlength (Serialize_subblock block) + 8) -> ac_ret r = true) /\
    (ac_ret r = false -> ss_map st' = ss_map st) /\
    (ac_ret r = true -> exists n, ss_map st' = <[CSubBlock_GetHash block := n]> (ss_map st) /\
       si_phashBlock n = Some (CSubBlock_GetHash block) /\ holds (ss_files st') n block).
Proof.
  intros Hst Hwf Hl Hsafe Ho Hm Hnew. unfold AcceptSubBlock. rewrite Hnew.
  destruct (subblock_size block Hwf) as [Hs0 Hs]. unfold MAX_BLOCKFILE_SIZE in Hs.
  rewrite (wrapu_small 32 (Zlength _)) by (unfold uint_range; lia). rewrite (wrapu_small 32) by (unfold uint_range; lia).
  destruct (FindSubBlockPos_spec os CDiskBlockPos_SetNull (Zlength (Serialize_subblock block) + 8) (sb_nHeight block)
    (sb_nTime block) (ss_files st)) as (fs1 & r & -> & Hfound); [apply Hst|done|unfold MAX_BLOCKFILE_SIZE; lia|done|].
  cbn [mbind option_bind]. destruct (Hfound) as (Hk1 & Hf1 & Hsp & _). cbn [fam_of] in Hf1.
  destruct r as [pos|].
  - destruct (found_write os pre_subblk messageStart (Serialize_subblock block) _ (ss_files st) fs1 pos
      ltac:(done) Hfound eq_refl (Ho _) Hm) as (fs2 & k & pos' & Hw & [Hb Hs2] & -> & Hn & Hr & Hk & Hkeep).
    unfold WriteSubBlockToDisk. cbn [ss_files set_files]. rewrite Hw. eexists _, _. split; [done|]. split; [done|].
    destruct (AddToSubBlockIndex_new block (mkDiskPos (Z.of_nat k) (dp_nPos pos + 8)) (set_files fs2 (set_files fs1 st)) Hnew)
      as [Em Ef]. cbn [ss_files set_files ss_map] in Em, Ef.
    assert (holds fs2 (mkSubIndex (Some (CSubBlock_GetHash block)) (i32 (sb_nHeight block)) (Z.of_nat k) (dp_nPos pos + 8)) block)
      as Hh by (split; [done|]; split; [done|]; by exists k).
    rewrite Ef. split.
    { apply store_ok_add; [|done|done]. apply (store_ok_keeps fs2 st); [done|done|by rewrite Hs2]. }
    split; [done|]. split; [done|]. split; [done|]. intros _. rewrite Em. eexists. split; [done|]. done.
  - eexists _, _. split; [done|]. split; [done|]. split; [by apply (store_ok_keeps fs1)|].
    split; [done|]. split; [intros H; by apply Hsp in H|]. by split.
Qed.


(** Serving a sub-block. From a sound store the assertion that the sub-block can be
    loaded never fails, and what is sent has the hash that was asked for. *)
Theorem ProcessGetData_subblock_correct os hash recent st :
  store_ok st -> opens_all os pre_subblk ->
  exists reply recent', ProcessGetData_subblock os hash recent st = Some (reply, recent') /\
    match reply with
    | NotFound => ss_map st !! hash = None /\ recent' = recent
    | PushSubBlock b => CSubBlock_GetHash b = hash /\ recent' = Some b
    end.
Proof.
  intros Hst Ho. unfold ProcessGetData_subblock. destruct (ss_map st !! hash) as [n|] eqn:En; [|by eexists _, _].
  destruct (store_entries _ Hst hash n En) as (Hp & b & Hb & Hh). subst hash.
  rewrite (holds_read_index os _ n b) by done. cbn [mjoin option_join].
  destruct recent as [rb|]; cbn [mbind option_bind]; [|by eexists _, _].
  unfold CSubBlockIndex_GetBlockHash. rewrite Hp. cbn [mbind option_bind].
  destruct (bool_decide_reflect (CSubBlock_GetHash rb = CSubBlock_GetHash b)); by eexists _, _.
Qed.

(** ** Persistence *)

Definition subindex_wf (n : CSubBlockIndex) : Prop :=
  0 <= si_nHeight n < 2 ^ 31 /\ 0 <= si_nFile n < 2 ^ 31 /\ uint_range 32 (si_nDataPos n).

Lemma subindex_roundtrip nVersion n : 0 <= nVersion < 2 ^ 31 -> subindex_wf n ->
  exists enc, Serialize_subindex nVersion n = Some enc /\
    forall rest, Unserialize_subindex (enc ++ rest) = Ok (mkSubIndex None (si_nHeight n) (si_nFile n) (si_nDataPos n), rest).
Proof.
  intros Hv (H1 & H2 & H3). unfold Serialize_subindex.
  assert (forall z, WriteVarInt 32 z = WriteVarInt 31 z) as W by done. rewrite (W nVersion), (W (si_nHeight n)), (W (si_nFile n)).
  destruct (varint_step 31 nVersion ltac:(lia) Hv) as (e0 & -> & R0), (varint_step 31 _ ltac:(lia) H1) as (e1 & -> & R1),
    (varint_step 31 _ ltac:(lia) H2) as (e2 & -> & R2), (varint_step 32 _ ltac:(lia) H3) as (e3 & -> & R3).
  eexists. split; [done|]. intros rest. unfold Unserialize_subindex. rewrite <- !(assoc_L (++)).
  by rewrite R0, R1, R2, R3.
Qed.

(** The database agrees with the index outside the dirty set. *)
Definition db_ok (nVersion : Z) (st : substore) (db : sub_db) : Prop :=
  (forall h, h ∈ ss_dirty st -> is_Some (ss_map st !! h)) /\
  (forall k, k ∈ fam_dirty (fs_sub (ss_files st)) -> exists i, vinfo_at (fam_vinfo (fs_sub (ss_files st))) k = Some i /\ fileinfo_wf i) /\
  forall h, h ∉ ss_dirty st -> db_index db !! h = n ← ss_map st !! h; Serialize_subindex nVersion n.

Lemma mapM_total {A B} (f : A -> option B) (g : A -> B) l :
  (forall a, a ∈ l -> f a = Some (g a)) -> mapM f l = Some (map g l).
Proof.
  induction l as [|a l IH]; intros H; [done|]. simpl. rewrite (H a) by apply list_elem_of_here. simpl.
  rewrite IH; [done|]. intros b Hb. apply H. by apply list_elem_of_further.
Qed.

(** A batch of writes whose values serialize. *)
Lemma batch_write {A K} `{Countable K} (key : A -> option K) (val : A -> option bytes) (l : list A) (m : gmap K (list byte)) :
  (forall a, a ∈ l -> is_Some (key a) /\ is_Some (val a)) ->
  exists m', foldl (fun acc a => m ← acc; k ← key a; v ← val a; Some (<[k := v]> m)) (Some m) l = Some m' /\
    (forall k, (forall a, a ∈ l -> key a <> Some k) -> m' !! k = m !! k) /\
    (forall k a, a ∈ l -> key a = Some k -> (forall b, b ∈ l -> key b = Some k -> val b = val a) -> m' !! k = val a).
Proof.
  revert m. induction l as [|a l IH]; intros m Hl.
  { exists m. split; [done|]. split; [done|]. intros k a Ha. by apply not_elem_of_nil in Ha. }
  destruct (Hl a) as [[k Hk] [v Hv]]; [apply list_elem_of_here|].
  cbn [foldl mbind option_bind]. rewrite Hk, Hv. cbn [mbind option_bind].
  destruct (IH (<[k := v]> m)) as (m' & E & Hout & Hin); [intros b Hb; apply Hl; by apply list_elem_of_further|].
  exists m'. split; [done|]. split.
  - intros k' Hk'. rewrite Hout by (intros b Hb; apply Hk'; by apply list_elem_of_further).
    rewrite lookup_insert_ne; [done|]. intros <-. by apply (Hk' a); [apply list_elem_of_here|].
  - intros k' b Hb Hkb Hsame. destruct (decide (Exists (fun c => key c = Some k') l)) as [Hex|Hno].
    + apply Exists_exists in Hex as (c & Hc & Hkc).
      assert (val c = val b) as Ec by (apply Hsame; [by apply list_elem_of_further|done]).
      rewrite (Hin k' c Hc Hkc); [done|]. intros d Hd Hkd. rewrite Ec. apply Hsame; [by apply list_elem_of_further|done].
    + assert (b = a) as ->.
      { apply elem_of_cons in Hb as [->|Hb]; [done|]. exfalso. apply Hno, Exists_exists. by exists b. }
      rewrite Hk in Hkb. injection Hkb as <-. rewrite Hout; [by rewrite lookup_insert_eq, Hv|].
      intros c Hc Hkc. apply Hno, Exists_exists. by exists c.
Qed.

Lemma FlushSubBlocks_spec nVersion st db :
  0 <= nVersion < 2 ^ 31 -> db_ok nVersion st db ->
  (forall h n, ss_map st !! h = Some n -> si_phashBlock n = Some h /\ subindex_wf n) ->
  exists st' db', FlushSubBlocks nVersion st db = Some (st', db') /\ ss_map st' = ss_map st /\ ss_dirty st' = ∅ /\
    fs_disk (ss_files st') = fs_disk (ss_files st) /\ db_last db' = Some (fam_last (fs_sub (ss_files st))) /\
    forall h, db_index db' !! h = n ← ss_map st !! h; Serialize_subindex nVersion n.
Proof.
  intros Hv (Hd & Hfd & Hdb) Hmap. unfold FlushSubBlocks. set (fs := ss_files st) in *.
  set (info := fun k => default CBlockFileInfo_SetNull (vinfo_at (fam_vinfo (fs_sub fs)) k)).
  rewrite (mapM_total _ (fun k => (k, info k))).
  2:{ intros k Hk. apply elem_of_elements, Hfd in Hk as (i & Hi & _). unfold info. by rewrite Hi. }
  set (entry := fun h => default CSubBlockIndex_default (ss_map st !! h)).
  assert (forall h, h ∈ ss_dirty st -> ss_map st !! h = Some (entry h)) as He.
  { intros h [n Hn]%Hd. unfold entry. by rewrite Hn. }
  rewrite (mapM_total _ entry) by (intros h Hh%elem_of_elements; by apply He).
  cbn [mbind option_bind]. unfold WriteBatchSync.
  destruct (batch_write (fun x => Some x.1) (fun x : Z * CBlockFileInfo => Serialize_fileinfo x.2)
    (map (fun k => (k, info k)) (elements (fam_dirty (fs_sub fs)))) (db_files db)) as (mf & Ef & _).
  { intros x Hx. apply list_elem_of_fmap in Hx as (k & -> & Hk). apply elem_of_elements, Hfd in Hk as (i & Hi & Hwf).
    cbn. unfold info. rewrite Hi. cbn. destruct (fileinfo_roundtrip i Hwf) as (enc & -> & _). by split; eexists. }
  cbn [mbind option_bind] in Ef. rewrite Ef. cbn [mbind option_bind].
  destruct (batch_write CSubBlockIndex_GetBlockHash (Serialize_subindex nVersion) (map entry (elements (ss_dirty st))) (db_index db))
    as (mi & -> & Hout & Hin).
  { intros n Hn. apply list_elem_of_fmap in Hn as (h & -> & Hh%elem_of_elements%He). destruct (Hmap _ _ Hh) as [Hp Hw].
    destruct (subindex_roundtrip nVersion _ Hv Hw) as (enc & E & _). rewrite E. unfold CSubBlockIndex_GetBlockHash. rewrite Hp.
    by split; eexists. }
  cbn [mbind option_bind]. eexists _, _. split; [done|]. split; [done|]. split; [done|]. split; [done|]. split; [done|].
  intros h. cbn [db_index]. destruct (decide (h ∈ ss_dirty st)) as [Hh|Hh].
  - rewrite (He h Hh). cbn [mbind option_bind]. destruct (Hmap _ _ (He h Hh)) as [Hp _].
    apply Hin; [apply list_elem_of_fmap; exists h; split; [done|by apply elem_of_elements]|done|].
    intros n' Hn' Hk'. apply list_elem_of_fmap in Hn' as (h' & -> & Hh'%elem_of_elements%He).
    destruct (Hmap _ _ Hh') as [Hp' _]. unfold CSubBlockIndex_GetBlockHash in Hk'. by replace h' with h by congruence.
  - rewrite Hout; [by apply Hdb|]. intros n' Hn' Hk'. apply list_elem_of_fmap in Hn' as (h' & -> & Hh').
    apply elem_of_elements in Hh'. destruct (Hmap _ _ (He h' Hh')) as [Hp' _]. unfold CSubBlockIndex_GetBlockHash in Hk'.
    replace h' with h in Hh' by congruence. done.
Qed.

(** The cursor over the database: the index records in some order, then records of
    other kinds. *)
Definition index_record (x : list byte * list byte) : sub_record := mkSubRecord (Some (DB_BLOCK_INDEX, x.1)) x.2.
Definition cursor_over (db : sub_db) (records : list sub_record) : Prop :=
  exists l others, l ≡ₚ map_to_list (db_index db) /\ records = map index_record l ++ others /\
    match others with
    | [] => True
    | r :: _ => match sr_key r with Some (k, _) => k <> DB_BLOCK_INDEX | None => True end
    end.

Lemma LoadGuts_spec (good : gmap (list byte) CSubBlockIndex) l others acc :
  NoDup (map fst l) -> Forall (fun h => uint256_IsNull h = false) (map fst l) ->
  (forall h, h ∈ map fst l -> acc !! h = None) ->
  (forall h v, (h, v) ∈ l -> exists n rest, good !! h = Some n /\ si_phashBlock n = Some h /\
     Unserialize_subindex v = Ok (mkSubIndex None (si_nHeight n) (si_nFile n) (si_nDataPos n), rest)) ->
  match others with
  | [] => True
  | r :: _ => match sr_key r with Some (k, _) => k <> DB_BLOCK_INDEX | None => True end
  end ->
  exists m, LoadSubBlockIndexGuts (map index_record l ++ others) acc = Some (m, true) /\
    forall h, m !! h = if bool_decide (h ∈ map fst l) then good !! h else acc !! h.
Proof.
  intros Hnd Hnull Hacc Hgood Hoth. revert acc Hnd Hnull Hacc Hgood. induction l as [|[h v] l IH]; intros acc Hnd Hnull Hacc Hgood.
  - exists acc. split; [|done]. cbn. destruct others as [|r others]; [done|]. cbn.
    destruct (sr_key r) as [[k hh]|]; [|done]. by rewrite bool_decide_eq_false_2.
  - destruct (Hgood h v) as (n & rest & Hn & Hp & Hu); [apply list_elem_of_here|].
    cbn [map app LoadSubBlockIndexGuts index_record sr_key sr_value fst snd]. rewrite bool_decide_eq_true_2, Hu by done.
    apply Forall_cons in Hnull as [Hh0 Hnull]. cbn [fst] in Hh0. unfold InsertSubBlockIndex. rewrite Hh0.
    rewrite (Hacc h) by apply list_elem_of_here. cbn [mbind option_bind]. rewrite lookup_insert_eq. cbn [mbind option_bind].
    cbn [map fst] in Hnd. apply NoDup_cons in Hnd as [Hh Hnd]. rewrite insert_insert_eq.
    cbn [si_phashBlock si_nHeight si_nFile si_nDataPos].
    destruct (IH (<[h := mkSubIndex (Some h) (si_nHeight n) (si_nFile n) (si_nDataPos n)]> acc)) as (m & E & Hm).
    + done.
    + done.
    + intros h' Hh'. rewrite lookup_insert_ne by (by intros <-). apply Hacc. by apply list_elem_of_further.
    + intros h' v' Hh'. apply Hgood. by apply list_elem_of_further.
    + exists m. split; [done|]. intros h'. rewrite Hm. cbn [map fst].
      destruct (decide (h' ∈ map fst l)) as [Hin|Hnin].
      * rewrite !bool_decide_eq_true_2; [done|by apply list_elem_of_further|done].
      * rewrite bool_decide_eq_false_2 by done. destruct (decide (h = h')) as [<-|Hne].
        -- rewrite lookup_insert_eq, bool_decide_eq_true_2 by apply list_elem_of_here. rewrite Hn.
           destruct n as [p nh nf np]. cbn in *. by rewrite Hp.
        -- rewrite lookup_insert_ne, bool_decide_eq_false_2; [done| |done].
           intros [?|?]%elem_of_cons; [by subst|done].
Qed.


(** ** Instances of the statements *)

Definition sample_magic : bytes := [xf9; xbe; xb4; xd9].
Definition empty_store : substore := mkSubStore empty_files ∅ ∅.
Definition accept_state (r : option (substore * accepted)) : substore :=
  match r with Some (st, _) => st | None => empty_store end.
Definition sample_store : substore := accept_state (AcceptSubBlock sample_os sample_magic sample_subblock empty_store).

Lemma empty_store_ok : store_ok empty_store.
Proof. split; [exact empty_family_ok|]. intros h n. cbn. by rewrite lookup_empty. Qed.

Lemma sample_subblock_wf : subblock_wf sample_subblock.
Proof. wf_compute. Qed.

Lemma sample_opens : opens_all sample_os pre_subblk.
Proof. intros k. reflexivity. Qed.

Lemma empty_leave_safe n : leave_safe n (ss_files empty_store).
Proof. intros i Hi. discriminate. Qed.

Lemma sample_store_ok : store_ok sample_store.
Proof.
  destruct (Accept_new sample_os sample_magic sample_subblock empty_store) as (st' & r & E & _ & H & _);
    [apply empty_store_ok|apply sample_subblock_wf|vm_compute; reflexivity|apply empty_leave_safe|apply sample_opens|done|done|].
  unfold sample_store. by rewrite E.
Qed.


Definition sample_entry : CSubBlockIndex := mkSubIndex (Some (CSubBlock_GetHash sample_subblock)) 7 0 8.
Definition empty_db : sub_db := mkSubDb ∅ None ∅.

Lemma sample_store_map : ss_map sample_store = {[CSubBlock_GetHash sample_subblock := sample_entry]}.
Proof. refine (bool_decide_unpack _ _). vm_compute. exact I. Qed.

Lemma sample_store_dirty : ss_dirty sample_store = {[CSubBlock_GetHash sample_subblock]}.
Proof. refine (bool_decide_unpack _ _). vm_compute. exact I. Qed.

Lemma ProcessGetData_subblock_correct_witness :
  exists b, ProcessGetData_subblock sample_os (CSubBlock_GetHash sample_subblock) None sample_store = Some (PushSubBlock b, Some b) /\
    CSubBlock_GetHash b = CSubBlock_GetHash sample_subblock.
Proof.
  destruct (ProcessGetData_subblock_correct sample_os (CSubBlock_GetHash sample_subblock) None sample_store sample_store_ok sample_opens)
    as ([|b] & recent' & E & H).
  - exfalso. destruct H as [H _]. rewrite sample_store_map, lookup_singleton_eq in H. discriminate.
  - exists b. destruct H as [H ->]. split; [exact E|exact H].
Defined.

Lemma sample_db_ok : db_ok 0 sample_store empty_db.
Proof.
  split; [|split].
  - intros h Hh. rewrite sample_store_map.
    rewrite sample_store_dirty in Hh. apply elem_of_singleton in Hh as ->. rewrite lookup_singleton_eq. by eexists.
  - intros k Hk. assert (fam_dirty (fs_sub (ss_files sample_store)) = {[0]}) as E by (refine (bool_decide_unpack _ _); vm_compute; exact I).
    rewrite E in Hk. apply elem_of_singleton in Hk as ->. eexists. split; [vm_compute; reflexivity|].
    repeat split; vm_compute; congruence.
  - intros h Hh. cbn [db_index empty_db]. rewrite lookup_empty, sample_store_map.
    rewrite sample_store_dirty in Hh. rewrite lookup_singleton_ne; [done|]. intros <-. by apply Hh, elem_of_singleton.
Qed.


(** ** Two defects *)

(** After a restart the sizes of the sub-block files are unknown, so that the next
    sub-block is written over the first one, and serving that one fails the assertion. *)
Definition restarted : substore :=
  match FlushSubBlocks 0 sample_store empty_db with
  | Some (st, db) =>
      match LoadSubBlockIndexDB (map index_record (map_to_list (db_index db))) (ss_files st) with
      | Some (st, _) => st
      | None => empty_store
      end
  | None => empty_store
  end.
Definition other_subblock : CSubBlock := mkSubBlock (replicate 32 x02) [x0c] 8 1500000001.

Example restart_loses_subblock :
  ProcessGetData_subblock sample_os (CSubBlock_GetHash sample_subblock) None restarted =
    Some (PushSubBlock sample_subblock, Some sample_subblock) /\
  ProcessGetData_subblock sample_os (CSubBlock_GetHash sample_subblock) None
    (accept_state (AcceptSubBlock sample_os sample_magic other_subblock restarted)) = None.
Proof. split; vm_compute; reflexivity. Qed.

(** Finalizing sub-block file 1 while the last block file is file 0 cuts it to the size of
    sub-block file 0. *)
Example FlushSubBlockFile_cuts_data :
  fmap (fun st => fs_disk st !! (pre_subblk, 1))
    (FlushSubBlockFile sample_os true
       (mkFiles {[(pre_subblk, 1) := replicate 4 x07]} (mkFamily [CBlockFileInfo_SetNull] 0 ∅)
          (mkFamily [set_nSize 2 CBlockFileInfo_SetNull; set_nSize 4 CBlockFileInfo_SetNull] 1 ∅) false false))
  = Some (Some (replicate 2 x07)).
Proof. vm_compute. reflexivity. Qed.
