(* ===== verification/Merkle.v ===== *)
(** * Merkle trees (topchain/src/consensus/merkle.cpp)

    The constant-space computation of the root and of a branch, with the flag that
    detects repeated subtrees. The reference is the tree drawn in the comment of the
    source: the last node of a level with an odd number of nodes is paired with
    itself. [None] is undefined behaviour (a shift or an array index out of range) or
    a loop that does not end. *)

From Stdlib Require Import ZifyNat.
From S2P Require Import Prelude Serialize Sha256 Primitives.

(** [!(count & (((uint32_t)1) << level))] *)
Definition level_clear (count : Z) (level : nat) : bool := Z.land count (Z.shiftl 1 (Z.of_nat level)) =? 0.

(** What one step up does to the branch: [x] is [inner[level]]; [pbranch] tells
    whether a branch is wanted. *)
Definition branch_step (pbranch : bool) (x h : uint256) (level : nat) (matchlevel : Z) (matchh : bool) (branch : list uint256)
  : bool * list uint256 :=
  if pbranch then
    if matchh then (true, branch ++ [x])
    else if matchlevel =? Z.of_nat level then (true, branch ++ [h])
    else (false, branch)
  else (matchh, branch).

(** The loop that merges a new leaf with the finished subtrees to its left. *)
Fixpoint combine_loop (fuel : nat) (pbranch : bool) (count : Z) (inner : list uint256) (matchlevel : Z)
    (level : nat) (h : uint256) (matchh mutated : bool) (branch : list uint256)
  : option (nat * uint256 * bool * bool * list uint256) :=
  match fuel with
  | O => None
  | S fuel =>
      if level_clear count level then
        x ← inner !! level;
        let '(matchh, branch) := branch_step pbranch x h level matchlevel matchh branch in
        let mutated := mutated || bool_decide (x = h) in
        combine_loop fuel pbranch count inner matchlevel (S level) (Hash2 x h) matchh mutated branch
      else Some (level, h, matchh, mutated, branch)
  end.

Record merkle := mkMerkle {
  mk_inner : list uint256;
  mk_matchlevel : Z;
  mk_mutated : bool;
  mk_branch : list uint256
}.

Fixpoint leaves_loop (fuel : nat) (pbranch : bool) (branchpos : Z) (leaves : list uint256) (count : Z) (st : merkle)
  : option (Z * merkle) :=
  match fuel with
  | O => None
  | S fuel =>
      if count <? Zlength leaves then
        h ← leaves !! Z.to_nat count;
        let matchh := count =? branchpos in
        let count := u32 (count + 1) in
        match combine_loop 33 pbranch count (mk_inner st) (mk_matchlevel st) 0 h matchh (mk_mutated st) (mk_branch st) with
        | None => None
        | Some (level, h, matchh, mutated, branch) =>
            let matchlevel := if matchh then Z.of_nat level else mk_matchlevel st in
            leaves_loop fuel pbranch branchpos leaves count
              (mkMerkle (<[level := h]> (mk_inner st)) matchlevel mutated branch)
        end
      else Some (count, st)
  end.

Fixpoint skip_loop (fuel : nat) (count : Z) (level : nat) : option nat :=
  match fuel with
  | O => None
  | S fuel => if level_clear count level then skip_loop fuel count (S level) else Some level
  end.

Fixpoint propagate_loop (fuel : nat) (pbranch : bool) (count : Z) (inner : list uint256) (matchlevel : Z)
    (level : nat) (h : uint256) (matchh : bool) (branch : list uint256) : option (nat * uint256 * bool * list uint256) :=
  match fuel with
  | O => None
  | S fuel =>
      if level_clear count level then
        x ← inner !! level;
        let '(matchh, branch) := branch_step pbranch x h level matchlevel matchh branch in
        propagate_loop fuel pbranch count inner matchlevel (S level) (Hash2 x h) matchh branch
      else Some (level, h, matchh, branch)
  end.

Fixpoint sweep_loop (fuel : nat) (pbranch : bool) (count : Z) (inner : list uint256) (matchlevel : Z)
    (level : nat) (h : uint256) (matchh : bool) (branch : list uint256) : option (uint256 * list uint256) :=
  match fuel with
  | O => None
  | S fuel =>
      if negb (count =? Z.shiftl 1 (Z.of_nat level)) then
        let branch := if pbranch && matchh then branch ++ [h] else branch in
        let h := Hash2 h h in
        let count := u32 (count + Z.shiftl 1 (Z.of_nat level)) in
        match propagate_loop 33 pbranch count inner matchlevel (S level) h matchh branch with
        | None => None
        | Some (level, h, matchh, branch) => sweep_loop fuel pbranch count inner matchlevel level h matchh branch
        end
      else Some (h, branch)
  end.

(** The root, the flag [mutated] and the branch. *)
Definition MerkleComputation (leaves : list uint256) (branchpos : Z) (pbranch : bool)
  : option (uint256 * bool * list uint256) :=
  if Zlength leaves =? 0 then Some (uint256_zero, false, [])
  else
    '(count, st) ← leaves_loop (S (length leaves)) pbranch branchpos leaves 0
                     (mkMerkle (replicate 32 uint256_zero) (-1) false []);
    level ← skip_loop 33 count 0;
    h ← mk_inner st !! level;
    let matchh := mk_matchlevel st =? Z.of_nat level in
    '(h, branch) ← sweep_loop 33 pbranch count (mk_inner st) (mk_matchlevel st) level h matchh (mk_branch st);
    Some (h, mk_mutated st, branch).

Definition ComputeMerkleRoot (leaves : list uint256) : option (uint256 * bool) :=
  r ← MerkleComputation leaves (u32 (-1)) false; let '(root, mutated, _) := r in Some (root, mutated).

Definition ComputeMerkleBranch (leaves : list uint256) (position : Z) : option (list uint256) :=
  r ← MerkleComputation leaves position true; let '(_, _, branch) := r in Some branch.

Fixpoint ComputeMerkleRootFromBranch (hash : uint256) (vMerkleBranch : list uint256) (nIndex : Z) {struct vMerkleBranch} : uint256 :=
  match vMerkleBranch with
  | [] => hash
  | it :: vMerkleBranch =>
      let hash := if negb (Z.land nIndex 1 =? 0) then Hash2 it hash else Hash2 hash it in
      ComputeMerkleRootFromBranch hash vMerkleBranch (Z.shiftr nIndex 1)
  end.

(** The leaves are the cached hashes of the transactions. *)
Definition BlockMerkleRoot (block : CBlock) : result ser_error (option (uint256 * bool)) :=
  leaves ← mapM ComputeHash (vtx block); Ok (ComputeMerkleRoot leaves).

(** The coinbase counts as the null hash; a block without transactions has no first leaf. *)
Definition BlockWitnessMerkleRoot (block : CBlock) : result ser_error (option (uint256 * bool)) :=
  match vtx block with
  | [] => Ok None
  | _ :: txs => leaves ← mapM GetWitnessHash txs; Ok (ComputeMerkleRoot (uint256_zero :: leaves))
  end.

Definition BlockMerkleBranch (block : CBlock) (position : Z) : result ser_error (option (list uint256)) :=
  leaves ← mapM ComputeHash (vtx block); Ok (ComputeMerkleBranch leaves position).

(** * The reference tree *)

(** [width n i] nodes at level [i] of a tree over [n] leaves, rounding up; [fl n i] of
    them have all their leaves. *)
Fixpoint width (n i : nat) : nat := match i with O => n | S i => (width n i + 1) / 2 end.
Fixpoint fl (n i : nat) : nat := match i with O => n | S i => fl n i / 2 end.

(** Node [j] of level [i]; the last node of an odd level is its own sibling. *)
Fixpoint node (l : list uint256) (i j : nat) : uint256 :=
  match i with
  | O => nth j l uint256_zero
  | S i => Hash2 (node l i (2 * j)) (node l i (if 2 * j + 1 <? width (length l) i then 2 * j + 1 else 2 * j)%nat)
  end.

Definition sibling (n i j : nat) : nat :=
  if Nat.odd j then j - 1 else if (j + 1 <? width n i)%nat then j + 1 else j.

(** The levels of a tree over [n] leaves: the first level with one node. *)
Fixpoint depth_from (fuel n i : nat) : nat :=
  match fuel with
  | O => i
  | S fuel => if (width n i <=? 1)%nat then i else depth_from fuel n (S i)
  end.
Definition depth (n : nat) : nat := depth_from 32 n 0.

Definition tree_root (l : list uint256) : uint256 := node l (depth (length l)) 0.
Definition tree_branch (l : list uint256) (pos k : nat) : list uint256 :=
  map (fun i => node l i (sibling (length l) i (fl pos i))) (seq 0 k).

(** Two complete sibling subtrees with the same hash. *)
Definition repeats (l : list uint256) (c : nat) : Prop :=
  exists i j, (2 * j + 2 <= fl c i)%nat /\ node l i (2 * j) = node l i (2 * j + 1).

(** ** Halving *)

(** [lia] with the quotients and remainders of natural numbers. *)
Ltac nlia := zify; Z.to_euclidean_division_equations; lia.

Lemma fl_shiftr n i : Z.of_nat (fl n i) = Z.shiftr (Z.of_nat n) (Z.of_nat i).
Proof.
  induction i as [|i IH]; [by rewrite Z.shiftr_0_r|]. cbn [fl].
  replace (Z.of_nat (S i)) with (Z.of_nat i + 1) by lia. rewrite <- Z.shiftr_shiftr, <- IH by lia.
  rewrite (Z.shiftr_div_pow2 _ 1) by lia. apply Nat2Z.inj_div.
Qed.

Lemma level_clear_fl n i : level_clear (Z.of_nat n) i = (fl n i mod 2 =? 0)%nat.
Proof.
  unfold level_clear. rewrite Z.shiftl_1_l. apply eq_true_iff_eq. rewrite Z.eqb_eq, Nat.eqb_eq.
  assert (Z.testbit (Z.of_nat n) (Z.of_nat i) = Nat.odd (fl n i)) as Hb.
  { rewrite Z.testbit_odd, <- fl_shiftr. apply eq_true_iff_eq. rewrite Z.odd_spec, Nat.odd_spec.
    split; intros [k Hk]; [exists (Z.to_nat k)|exists (Z.of_nat k)]; lia. }
  assert (fl n i mod 2 = 0 <-> Nat.odd (fl n i) = false)%nat as ->.
  { rewrite <- Nat.negb_even, negb_false_iff, Nat.even_spec. split; [intros H|intros [k Hk]]; [|nlia].
    exists (fl n i / 2)%nat. nlia. }
  rewrite <- Hb. split.
  - intros H. apply (f_equal (fun x => Z.testbit x (Z.of_nat i))) in H.
    rewrite Z.land_spec, Z.pow2_bits_true, andb_true_r, Z.bits_0 in H by lia. done.
  - intros H. apply Z.bits_inj'. intros k Hk. rewrite Z.land_spec, Z.bits_0, Z.pow2_bits_eqb by lia.
    destruct (Z.eqb_spec (Z.of_nat i) k) as [<-|]; [by rewrite H|apply andb_false_r].
Qed.

Lemma fl_le n m i : (n <= m -> fl n i <= fl m i)%nat.
Proof. intros H. induction i as [|i IH]; cbn [fl]; nlia. Qed.

Lemma fl_pow2 w i : (fl (w * 2 ^ i) i = w)%nat.
Proof.
  apply Nat2Z.inj. rewrite fl_shiftr, Z.shiftr_div_pow2, Nat2Z.inj_mul, Nat2Z.inj_pow by lia.
  apply Z.div_mul. lia.
Qed.

Lemma fl_zero n i : (Z.of_nat n < 2 ^ Z.of_nat i)%Z -> fl n i = 0%nat.
Proof.
  intros H. apply Nat2Z.inj. rewrite fl_shiftr, Z.shiftr_div_pow2 by lia. apply Z.div_small. lia.
Qed.

(** No bit below [i]. *)
Definition low_clear (n i : nat) : Prop := forall k, (k < i)%nat -> (fl n k mod 2 = 0)%nat.

Lemma fl_pred c i : (0 < c)%nat -> low_clear c i -> fl (c - 1) i = (fl c i - 1)%nat /\ (0 < fl c i)%nat.
Proof.
  intros Hc. induction i as [|i IH]; intros Hl; [done|]. cbn [fl].
  destruct IH as [E Hp]; [intros k Hk; apply Hl; lia|]. specialize (Hl i ltac:(lia)). rewrite E. nlia.
Qed.

Lemma fl_pred_high c i k : (0 < c)%nat -> low_clear c i -> (fl c i mod 2 = 1)%nat -> (i < k)%nat -> fl (c - 1) k = fl c k.
Proof.
  intros Hc Hl Hi Hk. destruct (fl_pred c i Hc Hl) as [E Hp]. induction Hk as [|k Hk IH]; cbn [fl]; [|by rewrite IH].
  rewrite E. nlia.
Qed.

Lemma width_fl n i : (0 < n)%nat ->
  (low_clear n i /\ width n i = fl n i) \/ (~ low_clear n i /\ width n i = (fl n i + 1)%nat).
Proof.
  intros Hn. induction i as [|i [[Hl E]|[Hl E]]].
  - left. split; [intros k Hk; lia|done].
  - cbn [width fl]. rewrite E. destruct (decide (fl n i mod 2 = 0)%nat) as [H0|H1].
    + left. split; [|nlia]. intros k Hk. destruct (decide (k = i)) as [->|]; [done|]. apply Hl. lia.
    + right. split; [|nlia]. intros H. apply H1, H. lia.
  - cbn [width fl]. rewrite E. right. split; [|nlia]. intros H. apply Hl. intros k Hk. apply H. lia.
Qed.

Lemma fl_le_width n i : (fl n i <= width n i)%nat.
Proof. destruct n; [induction i; cbn [fl width]; nlia|]. destruct (width_fl (S n) i) as [[_ ->]|[_ ->]]; nlia. Qed.

Lemma width_pos n i : (0 < n -> 0 < width n i)%nat.
Proof. intros H. induction i as [|i IH]; cbn [width]; nlia. Qed.

#[local] Opaque Hash2.

(** ** Processing the leaves *)

Section tree.
Context (l : list uint256) (pos : nat).

Definition inner_ok (c : nat) (inner : list uint256) : Prop :=
  length inner = 32%nat /\
  forall i, (fl c i mod 2 = 1)%nat -> inner !! i = Some (node l i (fl c i - 1)).

(** Where the wanted leaf is after [c] leaves: not reached, or in the subtree of [m]. *)
Definition match_inv (c : nat) (matchlevel : Z) (branch : list uint256) : Prop :=
  ((c <= pos)%nat /\ matchlevel = -1 /\ branch = []) \/
  ((pos < c)%nat /\ exists m, matchlevel = Z.of_nat m /\ (fl c m mod 2 = 1)%nat /\
     fl pos m = (fl c m - 1)%nat /\ branch = tree_branch l pos m).

(** The same while the leaf [c - 1] is merged, at [level]. *)
Definition loop_inv (c level : nat) (matchh : bool) (matchlevel : Z) (branch : list uint256) : Prop :=
  if matchh then fl pos level = (fl c level - 1)%nat /\ branch = tree_branch l pos level
  else ((c <= pos)%nat /\ matchlevel = -1 /\ branch = []) \/
       ((pos < c - 1)%nat /\ exists m, (level <= m)%nat /\ matchlevel = Z.of_nat m /\ (fl (c - 1) m mod 2 = 1)%nat /\
          fl pos m = (fl (c - 1) m - 1)%nat /\ branch = tree_branch l pos m).

Lemma tree_branch_S k :
  tree_branch l pos (S k) = tree_branch l pos k ++ [node l k (sibling (length l) k (fl pos k))].
Proof. unfold tree_branch. by rewrite seq_S, map_app. Qed.

Lemma sibling_odd n i j : (j mod 2 = 1)%nat -> sibling n i j = (j - 1)%nat.
Proof.
  intros H. unfold sibling. replace (Nat.odd j) with true; [done|]. symmetry. apply Nat.odd_spec. exists (j / 2)%nat. nlia.
Qed.

Lemma sibling_even n i j : (j mod 2 = 0)%nat -> sibling n i j = if (j + 1 <? width n i)%nat then (j + 1)%nat else j.
Proof.
  intros H. unfold sibling. replace (Nat.odd j) with false; [done|]. symmetry. rewrite <- Nat.negb_even.
  apply negb_false_iff, Nat.even_spec. exists (j / 2)%nat. nlia.
Qed.

Lemma node_pair c level : (c <= length l)%nat -> (fl c level mod 2 = 0)%nat -> (0 < fl c level)%nat ->
  Hash2 (node l level (fl c level - 2)) (node l level (fl c level - 1)) = node l (S level) (fl c (S level) - 1).
Proof.
  intros Hc He Hp. cbn [node fl].
  pose proof (fl_le c (length l) level Hc). pose proof (fl_le_width (length l) level).
  replace (2 * (fl c level / 2 - 1))%nat with (fl c level - 2)%nat by nlia.
  destruct (Nat.ltb_spec (fl c level - 2 + 1) (width (length l) level)); [|lia].
  do 2 f_equal. nlia.
Qed.

Lemma loop_inv_step c level matchh matchlevel branch :
  (0 < c <= length l)%nat -> low_clear c level -> (fl c level mod 2 = 0)%nat ->
  loop_inv c level matchh matchlevel branch ->
  let r := branch_step true (node l level (fl c level - 2)) (node l level (fl c level - 1)) level matchlevel matchh branch in
  loop_inv c (S level) r.1 matchlevel r.2.
Proof.
  intros Hc Hl He Hinv. cbv zeta. destruct (fl_pred c level ltac:(lia) Hl) as [Ep Hp].
  pose proof (fl_le c (length l) level ltac:(lia)). pose proof (fl_le_width (length l) level).
  unfold branch_step. destruct matchh; cbn [loop_inv] in Hinv.
  - destruct Hinv as [Hpos ->]. cbn [fst snd]. split.
    + cbn [fl]. rewrite Hpos. nlia.
    + rewrite tree_branch_S, Hpos, sibling_odd by nlia. do 3 f_equal. lia.
  - destruct (Z.eqb_spec matchlevel (Z.of_nat level)) as [Em|Nm]; cbn [fst snd].
    + destruct Hinv as [(_ & -> & _)|(Hlt & m & _ & -> & Hodd & Hpos & ->)]; [lia|].
      apply Nat2Z.inj in Em as ->. rewrite Ep in *. split.
      * cbn [fl]. rewrite Hpos. nlia.
      * rewrite tree_branch_S, Hpos, sibling_even by nlia.
        destruct (Nat.ltb_spec (fl c level - 1 - 1 + 1) (width (length l) level)); [|lia]. do 3 f_equal. lia.
    + destruct Hinv as [Hnot|(Hlt & m & Hm & -> & Hrest)]; [by left|]. right. split; [done|]. exists m.
      split; [|done]. assert (m <> level) by (by intros ->). lia.
Qed.

Lemma combine_spec c pbranch inner matchlevel fuel level matchh mutated branch :
  (0 < c <= length l)%nat -> Z.of_nat c < 2 ^ 32 -> inner_ok (c - 1) inner -> (33 <= fuel + level)%nat ->
  low_clear c level -> (pbranch = true -> loop_inv c level matchh matchlevel branch) ->
  exists level' matchh' mutated' branch',
    combine_loop fuel pbranch (Z.of_nat c) inner matchlevel level (node l level (fl c level - 1)) matchh mutated branch
    = Some (level', node l level' (fl c level' - 1), matchh', mutated', branch') /\
    (level <= level')%nat /\ low_clear c level' /\ (fl c level' mod 2 = 1)%nat /\
    (mutated' = true <-> mutated = true \/
       exists i, (level <= i < level')%nat /\ node l i (fl c i - 2) = node l i (fl c i - 1)) /\
    (pbranch = true -> loop_inv c level' matchh' matchlevel branch').
Proof.
  intros Hc Hc32 Hin. revert level matchh mutated branch.
  induction fuel as [|fuel IH]; intros level matchh mutated branch Hf Hl Hinv;
    destruct (fl_pred c level ltac:(lia) Hl) as [Ep Hp].
  { rewrite fl_zero in Hp; [lia|]. apply (Z.lt_le_trans _ _ _ Hc32). apply Z.pow_le_mono_r; lia. }
  cbn [combine_loop]. rewrite level_clear_fl. destruct (Nat.eqb_spec (fl c level mod 2) 0) as [He|Ho].
  - destruct Hin as [Hlen Hin]. rewrite (Hin level) by (rewrite Ep; nlia). rewrite Ep. cbn [mbind option_bind].
    replace (fl c level - 1 - 1)%nat with (fl c level - 2)%nat by lia.
    destruct (branch_step _ _ _ _ _ _ _) as [mh br] eqn:Eb.
    rewrite node_pair by (done || lia).
    destruct (IH (S level) mh (mutated || bool_decide (node l level (fl c level - 2) = node l level (fl c level - 1))) br)
      as (level' & mh' & mu' & br' & -> & Hle & Hl' & Hodd & Hmu & Hinv').
    + lia.
    + intros k Hk. destruct (decide (k = level)) as [->|]; [done|]. apply Hl. lia.
    + intros ->. pose proof (loop_inv_step c level matchh matchlevel branch Hc Hl He (Hinv eq_refl)) as H.
      rewrite Eb in H. done.
    + exists level', mh', mu', br'. split; [done|]. split; [lia|]. split; [done|]. split; [done|]. split; [|done].
      rewrite Hmu, orb_true_iff, bool_decide_eq_true. split.
      * intros [[H|H]|(i & Hi & H)]; [by left| |]; right; [exists level|exists i]; (split; [lia|done]).
      * intros [H|(i & Hi & H)]; [by left; left|]. destruct (decide (i = level)) as [->|]; [by left; right|].
        right. exists i. split; [lia|done].
  - exists level, matchh, mutated, branch. split; [done|]. split; [lia|]. split; [done|]. split; [nlia|]. split; [|done].
    split; [by left|]. intros [H|(i & Hi & _)]; [done|lia].
Qed.

Lemma repeats_step c level : low_clear (S c) level -> (fl (S c) level mod 2 = 1)%nat ->
  repeats l (S c) <-> repeats l c \/
    exists i, (0 <= i < level)%nat /\ node l i (fl (S c) i - 2) = node l i (fl (S c) i - 1).
Proof.
  intros Hl Ho. split.
  - intros (i & j & Hj & E). destruct (decide (2 * j + 2 <= fl c i)%nat); [left; by exists i, j|].
    destruct (Nat.lt_trichotomy i level) as [Hi|[->|Hi]].
    + right. exists i. split; [lia|]. destruct (fl_pred (S c) i ltac:(lia)) as [Ep Hp]; [intros k Hk; apply Hl; lia|].
      rewrite Nat.sub_1_r in Ep. cbn [pred] in Ep. replace (fl (S c) i) with (2 * j + 2)%nat by lia.
      replace (2 * j + 2 - 2)%nat with (2 * j)%nat by lia. replace (2 * j + 2 - 1)%nat with (2 * j + 1)%nat by lia. done.
    + destruct (fl_pred (S c) level ltac:(lia) Hl) as [Ep Hp]. rewrite Nat.sub_1_r in Ep. cbn [pred] in Ep. nlia.
    + pose proof (fl_pred_high (S c) level i ltac:(lia) Hl Ho Hi) as Ep. rewrite Nat.sub_1_r in Ep. cbn [pred] in Ep. lia.
  - intros [(i & j & Hj & E)|(i & Hi & E)].
    + exists i, j. split; [|done]. pose proof (fl_le c (S c) i). lia.
    + destruct (fl_pred (S c) i ltac:(lia)) as [_ Hp]; [intros k Hk; apply Hl; lia|]. specialize (Hl i ltac:(lia)).
      exists i, (fl (S c) i / 2 - 1)%nat. split; [nlia|].
      replace (2 * (fl (S c) i / 2 - 1))%nat with (fl (S c) i - 2)%nat by nlia.
      replace (fl (S c) i - 2 + 1)%nat with (fl (S c) i - 1)%nat by nlia. done.
Qed.

Lemma inner_ok_step c inner level : Z.of_nat (S c) < 2 ^ 32 -> inner_ok c inner -> low_clear (S c) level ->
  (fl (S c) level mod 2 = 1)%nat -> inner_ok (S c) (<[level := node l level (fl (S c) level - 1)]> inner).
Proof.
  intros Hc [Hlen Hin] Hl Ho. split; [by rewrite length_insert|].
  assert (level < 32)%nat.
  { destruct (decide (level < 32)%nat); [done|]. rewrite fl_zero in Ho; [done|].
    apply (Z.lt_le_trans _ _ _ Hc). apply Z.pow_le_mono_r; lia. }
  intros i Hi. destruct (Nat.lt_trichotomy i level) as [Hlt|[->|Hgt]].
  - rewrite Hl in Hi; lia.
  - rewrite list_lookup_insert_eq; [done|lia].
  - rewrite list_lookup_insert_ne by lia.
    pose proof (fl_pred_high (S c) level i ltac:(lia) Hl Ho Hgt) as Ep. rewrite Nat.sub_1_r in Ep. cbn [pred] in Ep.
    rewrite <- Ep in *. by apply Hin.
Qed.

(** The flags after a leaf was merged. *)
Lemma match_inv_step c level matchh matchlevel branch :
  low_clear (S c) level -> (fl (S c) level mod 2 = 1)%nat -> loop_inv (S c) level matchh matchlevel branch ->
  match_inv (S c) (if matchh then Z.of_nat level else matchlevel) branch.
Proof.
  intros Hl Ho Hinv. destruct (fl_pred (S c) level ltac:(lia) Hl) as [Ep Hp]. cbn in Ep. rewrite Nat.sub_0_r in Ep.
  destruct matchh; cbn [loop_inv] in Hinv.
  - destruct Hinv as [Hpos ->]. right. split; [|by exists level].
    destruct (decide (pos < S c)%nat); [done|]. pose proof (fl_le (S c) pos level). lia.
  - rewrite Nat.sub_1_r in Hinv. cbn [pred] in Hinv.
    destruct Hinv as [?|(Hlt & m & Hm & -> & Hodd & Hfl & ->)]; [by left|]. right. split; [lia|]. exists m. split; [done|].
    assert (m <> level) by (intros ->; rewrite Ep in Hodd; nlia).
    pose proof (fl_pred_high (S c) level m ltac:(lia) Hl Ho ltac:(lia)) as Eh. rewrite Nat.sub_1_r in Eh. cbn [pred] in Eh.
    rewrite <- Eh. done.
Qed.

Lemma leaves_spec fuel pbranch branchpos c st :
  Z.of_nat (length l) < 2 ^ 32 -> (c <= length l)%nat -> (length l - c < fuel)%nat ->
  (pbranch = true -> branchpos = Z.of_nat pos) ->
  inner_ok c (mk_inner st) -> (mk_mutated st = true <-> repeats l c) ->
  (pbranch = true -> match_inv c (mk_matchlevel st) (mk_branch st)) ->
  exists st', leaves_loop fuel pbranch branchpos l (Z.of_nat c) st = Some (Z.of_nat (length l), st') /\
    inner_ok (length l) (mk_inner st') /\ (mk_mutated st' = true <-> repeats l (length l)) /\
    (pbranch = true -> match_inv (length l) (mk_matchlevel st') (mk_branch st')).
Proof.
  intros H32. revert c st. induction fuel as [|fuel IH]; intros c st Hc Hf Hbp Hin Hmu Hma; [lia|].
  cbn [leaves_loop]. unfold Zlength. destruct (Z.ltb_spec (Z.of_nat c) (Z.of_nat (length l))) as [Hlt|Hge].
  - rewrite Nat2Z.id. destruct (lookup_lt_is_Some_2 l c ltac:(lia)) as [h Hh]. rewrite Hh. cbn [mbind option_bind].
    rewrite (wrapu_small 32) by (unfold uint_range; lia). replace (Z.of_nat c + 1) with (Z.of_nat (S c)) by lia.
    assert (h = node l 0 (fl (S c) 0 - 1)) as ->.
    { cbn. rewrite Nat.sub_0_r. symmetry. by apply nth_lookup_Some. }
    destruct (combine_spec (S c) pbranch (mk_inner st) (mk_matchlevel st) 33 0 (Z.of_nat c =? branchpos)
      (mk_mutated st) (mk_branch st)) as (level & mh & mu & br & -> & _ & Hl & Ho & Hmu' & Hma').
    + lia.
    + lia.
    + by rewrite Nat.sub_1_r.
    + lia.
    + intros k Hk. lia.
    + intros ->. rewrite (Hbp eq_refl). unfold loop_inv. cbn [fl]. rewrite Nat.sub_1_r. cbn [pred].
      destruct (Hma eq_refl) as [(Hp & Hm & Hb)|(Hp & m & Hm & Ho & Hfl & Hb)];
        destruct (Z.eqb_spec (Z.of_nat c) (Z.of_nat pos)) as [E|N].
      * split; [lia|]. done.
      * left. split; [lia|done].
      * lia.
      * right. split; [done|]. exists m. split; [lia|done].
    + destruct (IH (S c) (mkMerkle (<[level := node l level (fl (S c) level - 1)]> (mk_inner st))
        (if mh then Z.of_nat level else mk_matchlevel st) mu br)) as (st' & E & Hrest); cbn [mk_inner mk_mutated mk_matchlevel mk_branch].
      * lia.
      * lia.
      * done.
      * apply inner_ok_step; done || lia.
      * rewrite Hmu', Hmu. by rewrite (repeats_step c level Hl Ho).
      * intros Hp. apply match_inv_step; [done|done|]. by apply Hma'.
      * exists st'. done.
  - assert (c = length l) as -> by lia. by exists st.
Qed.

(** ** The sweep over the rightmost branch *)

Abbreviation n := (length l).

Lemma width_bound k : Z.of_nat n <= 2 ^ 31 -> (k <= 31)%nat -> (width n k <= 2 ^ (31 - k))%nat.
Proof.
  intros Hn. induction k as [|k IH]; intros Hk; cbn [width].
  - apply Nat2Z.inj_le. rewrite Nat2Z.inj_pow. exact Hn.
  - specialize (IH ltac:(lia)). replace (31 - k)%nat with (S (31 - S k)) in IH by lia. cbn [Nat.pow] in IH. nlia.
Qed.

(** A level with more than one node is below 31. *)
Lemma wide_level k : Z.of_nat n <= 2 ^ 31 -> (forall i, i < k -> 1 < width n i)%nat -> (k <= 31)%nat.
Proof.
  intros Hn Hw. destruct (decide (k <= 31)%nat); [done|]. specialize (Hw 31%nat ltac:(lia)).
  pose proof (width_bound 31 Hn ltac:(lia)). cbn [Nat.pow Nat.sub] in *. lia.
Qed.

Definition count_at (level : nat) : Z := Z.of_nat (width n level * 2 ^ level).

Lemma count_at_clear level : level_clear (count_at level) level = (width n level mod 2 =? 0)%nat.
Proof. unfold count_at. by rewrite level_clear_fl, fl_pow2. Qed.

Lemma count_at_even level : (width n level mod 2 = 0)%nat -> count_at (S level) = count_at level.
Proof.
  intros H. unfold count_at. cbn [width Nat.pow]. replace ((width n level + 1) / 2)%nat with (width n level / 2)%nat by nlia.
  rewrite (Nat.div_mod_eq (width n level) 2) at 2. f_equal. lia.
Qed.

Lemma count_at_odd level : (width n level mod 2 = 1)%nat -> count_at (S level) = count_at level + Z.shiftl 1 (Z.of_nat level).
Proof.
  intros H. unfold count_at. rewrite Z.shiftl_1_l. cbn [width Nat.pow].
  change 2 with (Z.of_nat 2). rewrite <- Nat2Z.inj_pow, <- Nat2Z.inj_add. f_equal.
  assert (2 * ((width n level + 1) / 2) = width n level + 1)%nat by nlia. nia.
Qed.

Lemma count_at_one level : (count_at level =? Z.shiftl 1 (Z.of_nat level)) = (width n level =? 1)%nat.
Proof.
  unfold count_at. rewrite Z.shiftl_1_l. change 2 with (Z.of_nat 2). rewrite <- Nat2Z.inj_pow.
  assert (2 ^ level <> 0)%nat by (apply Nat.pow_nonzero; lia).
  destruct (Nat.eqb_spec (width n level) 1) as [->|N]; [by rewrite Nat.mul_1_l, Z.eqb_refl|].
  apply Z.eqb_neq. intros E%Nat2Z.inj. apply N. nia.
Qed.

(** The last two nodes of a level with an even number of nodes, and the last one of a
    level with an odd number, give the last node of the next level. *)
Lemma node_last_even level : (0 < n)%nat -> (width n level mod 2 = 0)%nat ->
  Hash2 (node l level (width n level - 2)) (node l level (width n level - 1)) = node l (S level) (width n (S level) - 1).
Proof.
  intros Hn He. pose proof (width_pos n level Hn). cbn [node width].
  replace (2 * ((width n level + 1) / 2 - 1))%nat with (width n level - 2)%nat by nlia.
  destruct (Nat.ltb_spec (width n level - 2 + 1) (width n level)); [|lia]. do 2 f_equal. lia.
Qed.

Lemma node_last_odd level : (width n level mod 2 = 1)%nat ->
  Hash2 (node l level (width n level - 1)) (node l level (width n level - 1)) = node l (S level) (width n (S level) - 1).
Proof.
  intros Ho. cbn [node width]. replace (2 * ((width n level + 1) / 2 - 1))%nat with (width n level - 1)%nat by nlia.
  destruct (Nat.ltb_spec (width n level - 1 + 1) (width n level)); [nlia|]. done.
Qed.

Lemma count_at_range level : Z.of_nat n <= 2 ^ 31 -> (level <= 31)%nat -> uint_range 32 (count_at level).
Proof.
  intros H31 Hlv. pose proof (width_bound level H31 Hlv). unfold count_at, uint_range.
  assert (width n level * 2 ^ level <= 2 ^ 31)%nat.
  { replace 31%nat with (31 - level + level)%nat by lia. rewrite Nat.pow_add_r. by apply Nat.mul_le_mono_r. }
  split; [lia|]. apply (Z.le_lt_trans _ (Z.of_nat (2 ^ 31))); [lia|]. rewrite Nat2Z.inj_pow. done.
Qed.

(** Where the wanted leaf is: under the node in hand, or in the subtree of [m]. *)
Definition sweep_inv (level : nat) (matchh : bool) (matchlevel : Z) (branch : list uint256) : Prop :=
  if matchh then fl pos level = (width n level - 1)%nat /\ branch = tree_branch l pos level
  else exists m, (level <= m)%nat /\ matchlevel = Z.of_nat m /\ (fl n m mod 2 = 1)%nat /\
         fl pos m = (fl n m - 1)%nat /\ branch = tree_branch l pos m.

Lemma sweep_inv_step level matchh matchlevel branch :
  (0 < n)%nat -> ~ low_clear n level -> (width n level mod 2 = 0)%nat -> sweep_inv level matchh matchlevel branch ->
  let r := branch_step true (node l level (width n level - 2)) (node l level (width n level - 1)) level matchlevel matchh branch in
  sweep_inv (S level) r.1 matchlevel r.2.
Proof.
  intros Hn Hl He Hinv. cbv zeta. pose proof (width_pos n level Hn).
  destruct (width_fl n level Hn) as [[? _]|[_ Ew]]; [done|].
  unfold branch_step. destruct matchh; cbn [sweep_inv] in Hinv.
  - destruct Hinv as [Hpos ->]. cbn [fst snd]. split.
    + cbn [fl width]. rewrite Hpos. nlia.
    + rewrite tree_branch_S, Hpos, sibling_odd by nlia. do 3 f_equal. lia.
  - destruct Hinv as (m & Hm & -> & Hodd & Hpos & ->).
    destruct (Z.eqb_spec (Z.of_nat m) (Z.of_nat level)) as [Em|Nm]; cbn [fst snd].
    + apply Nat2Z.inj in Em as ->. split.
      * cbn [fl width]. rewrite Hpos. nlia.
      * rewrite tree_branch_S, Hpos, sibling_even by nlia.
        destruct (Nat.ltb_spec (fl n level - 1 + 1) (width n level)); [|lia]. do 3 f_equal. lia.
    + exists m. split; [lia|done].
Qed.

Lemma propagate_spec pbranch inner matchlevel fuel level matchh branch :
  (0 < n)%nat -> Z.of_nat n <= 2 ^ 31 -> inner_ok n inner -> (33 <= fuel + level)%nat -> ~ low_clear n level ->
  (forall k, k < level -> 1 < width n k)%nat -> (pbranch = true -> sweep_inv level matchh matchlevel branch) ->
  exists level' matchh' branch',
    propagate_loop fuel pbranch (count_at level) inner matchlevel level (node l level (width n level - 1)) matchh branch
    = Some (level', node l level' (width n level' - 1), matchh', branch') /\
    (level <= level')%nat /\ count_at level' = count_at level /\ ~ low_clear n level' /\ (width n level' mod 2 = 1)%nat /\
    (forall k, k < level' -> 1 < width n k)%nat /\ (pbranch = true -> sweep_inv level' matchh' matchlevel branch').
Proof.
  intros Hn H31 Hin. revert level matchh branch. induction fuel as [|fuel IH]; intros level matchh branch Hf Hl Hw Hinv;
    pose proof (wide_level level H31 Hw); [lia|].
  cbn [propagate_loop]. rewrite count_at_clear. pose proof (width_pos n level Hn).
  destruct (Nat.eqb_spec (width n level mod 2) 0) as [He|Ho].
  - destruct (width_fl n level Hn) as [[? _]|[_ Ew]]; [done|]. destruct (Hin) as [_ Hlook].
    rewrite (Hlook level) by nlia. cbn [mbind option_bind].
    replace (fl n level - 1)%nat with (width n level - 2)%nat by lia.
    destruct (branch_step _ _ _ _ _ _ _) as [mh br] eqn:Eb.
    rewrite node_last_even by done.
    rewrite <- (count_at_even level He).
    destruct (IH (S level) mh br) as (level' & mh' & br' & -> & Hle & Hcnt & Hrest).
    + lia.
    + intros Hc. apply Hl. intros k Hk. apply Hc. lia.
    + intros k Hk. destruct (decide (k = level)) as [->|]; [nlia|]. apply Hw. lia.
    + intros ->. pose proof (sweep_inv_step level matchh matchlevel branch Hn Hl He (Hinv eq_refl)) as Hs.
      by rewrite Eb in Hs.
    + exists level', mh', br'. split; [done|]. split; [lia|]. done.
  - exists level, matchh, branch. split; [done|]. split; [lia|]. split; [done|]. split; [done|]. split; [nlia|]. done.
Qed.

Lemma depth_from_spec fuel i L : (forall k, i <= k < L -> 1 < width n k)%nat -> (i <= L)%nat -> (width n L <= 1)%nat ->
  (L - i < fuel)%nat -> depth_from fuel n i = L.
Proof.
  revert i. induction fuel as [|fuel IH]; intros i Hw Hi HL Hf; [lia|]. cbn [depth_from].
  destruct (Nat.leb_spec (width n i) 1) as [Hle|Hgt].
  - destruct (decide (i = L)) as [->|]; [done|]. specialize (Hw i ltac:(lia)). lia.
  - assert (i <> L) by (intros ->; lia). apply IH; [|lia|done|lia]. intros k Hk. apply Hw. lia.
Qed.

Lemma sweep_spec pbranch inner matchlevel fuel level matchh branch :
  (0 < n)%nat -> Z.of_nat n <= 2 ^ 31 -> inner_ok n inner -> (33 <= fuel + level)%nat -> (width n level mod 2 = 1)%nat ->
  (forall k, k < level -> 1 < width n k)%nat -> (pbranch = true -> sweep_inv level matchh matchlevel branch) ->
  (pbranch = true -> matchh = false -> matchlevel <> Z.of_nat level) ->
  exists branch',
    sweep_loop fuel pbranch (count_at level) inner matchlevel level (node l level (width n level - 1)) matchh branch
    = Some (tree_root l, branch') /\ (pbranch = true -> branch' = tree_branch l pos (depth n)).
Proof.
  intros Hn H31 Hin. revert level matchh branch. induction fuel as [|fuel IH]; intros level matchh branch Hf Hodd Hw Hinv Hne;
    pose proof (wide_level level H31 Hw) as Hlv; [lia|].
  cbn [sweep_loop]. rewrite count_at_one. destruct (Nat.eqb_spec (width n level) 1) as [E1|N1]; cbn [negb].
  - assert (depth n = level) as Ed by (apply depth_from_spec; [intros k Hk; apply Hw; lia|lia..]).
    exists branch. unfold tree_root. rewrite Ed, E1. split; [done|]. intros Hp. specialize (Hinv Hp).
    destruct matchh; [by destruct Hinv|]. destruct Hinv as (m & Hm & -> & Hom & _ & ->). exfalso.
    specialize (Hne Hp eq_refl).
    assert (forall k, (level <= k)%nat -> width n k = 1%nat) as H1.
    { intros k Hk. induction Hk as [|k Hk IHk]; [done|]. cbn [width]. rewrite IHk. done. }
    assert (fl n m = 0)%nat as E0; [|by rewrite E0 in Hom].
    destruct m as [|m]; [lia|]. cbn [fl]. pose proof (fl_le_width n m) as Hle. rewrite H1 in Hle by lia. nlia.
  - assert (1 < width n level)%nat as Hwl by (pose proof (width_pos n level Hn); lia).
    assert (forall k, k < S level -> 1 < width n k)%nat as Hw'.
    { intros k Hk. destruct (decide (k = level)) as [->|]; [done|]. apply Hw. lia. }
    pose proof (wide_level (S level) H31 Hw') as Hlv'.
    rewrite <- (count_at_odd level Hodd), (wrapu_small 32), node_last_odd by (done || by apply count_at_range).
    destruct (propagate_spec pbranch inner matchlevel 33 (S level) matchh
      (if pbranch && matchh then branch ++ [node l level (width n level - 1)] else branch))
      as (level' & mh' & br' & -> & Hle & Hcnt & Hnl & Hodd' & Hw'' & Hinv'); [done|done|done|lia| |done| |].
    + intros Hc. destruct (width_fl n level Hn) as [[_ Ew]|[Hnc _]]; [|apply Hnc; intros k Hk; apply Hc; lia].
      specialize (Hc level ltac:(lia)). rewrite <- Ew in Hc. lia.
    + intros ->. specialize (Hinv eq_refl). destruct matchh; cbn [andb].
      * destruct Hinv as [Hp ->]. split; [cbn [fl width]; rewrite Hp; nlia|]. rewrite tree_branch_S, Hp, sibling_even by nlia.
        destruct (Nat.ltb_spec (width n level - 1 + 1) (width n level)); [lia|done].
      * destruct Hinv as (m & Hm & -> & Hom & Hfl & ->). exists m. split; [|done].
        specialize (Hne eq_refl eq_refl). lia.
    + rewrite <- Hcnt. apply IH; [lia|done|done|done|]. intros Hp ->. destruct (Hinv' Hp) as (m & _ & -> & Hom & _).
      intros ->%Nat2Z.inj. destruct (width_fl n level' Hn) as [[? _]|[_ Ew]]; [done|]. nlia.
Qed.

Lemma low_clear_width level : (0 < n)%nat -> low_clear n level -> width n level = fl n level.
Proof. intros Hn Hl. by destruct (width_fl n level Hn) as [[_ ?]|[? _]]. Qed.

Lemma count_low_clear level : (0 < n)%nat -> low_clear n level -> Z.of_nat n = count_at level.
Proof.
  intros Hn. induction level as [|level IH]; intros Hl; [unfold count_at; cbn; lia|].
  assert (low_clear n level) as Hl' by (intros k Hk; apply Hl; lia).
  rewrite IH by done. symmetry. apply count_at_even. rewrite low_clear_width by done. apply Hl. lia.
Qed.

Lemma skip_spec fuel level : (0 < n)%nat -> Z.of_nat n <= 2 ^ 31 -> (33 <= fuel + level)%nat -> low_clear n level ->
  exists level', skip_loop fuel (Z.of_nat n) level = Some level' /\ low_clear n level' /\ (fl n level' mod 2 = 1)%nat.
Proof.
  intros Hn H31. revert level. induction fuel as [|fuel IH]; intros level Hf Hl; destruct (fl_pred n level Hn Hl) as [_ Hp].
  { rewrite fl_zero in Hp; [lia|]. apply (Z.le_lt_trans _ _ _ H31). apply Z.pow_lt_mono_r; lia. }
  cbn [skip_loop]. rewrite level_clear_fl. destruct (Nat.eqb_spec (fl n level mod 2) 0) as [He|Ho].
  - apply IH; [lia|]. intros k Hk. destruct (decide (k = level)) as [->|]; [done|]. apply Hl. lia.
  - exists level. split; [done|]. split; [done|nlia].
Qed.

Lemma MerkleComputation_spec pbranch branchpos :
  (0 < n)%nat -> Z.of_nat n <= 2 ^ 31 -> (pbranch = true -> branchpos = Z.of_nat pos /\ (pos < n)%nat) ->
  exists mutated branch, MerkleComputation l branchpos pbranch = Some (tree_root l, mutated, branch) /\
    (mutated = true <-> repeats l n) /\ (pbranch = true -> branch = tree_branch l pos (depth n)).
Proof.
  intros Hn H31 Hpb. unfold MerkleComputation, Zlength. destruct (Z.eqb_spec (Z.of_nat n) 0) as [|Nz]; [lia|].
  destruct (leaves_spec (S n) pbranch branchpos 0 (mkMerkle (replicate 32 uint256_zero) (-1) false []))
    as (st & E & Hin & Hmu & Hma).
  - lia.
  - lia.
  - lia.
  - intros H. by apply Hpb.
  - split; [done|]. intros i Hi. rewrite fl_zero in Hi; [done|]. cbn. lia.
  - cbn. split; [done|]. intros (i & j & Hj & _). rewrite fl_zero in Hj; [lia|]. cbn. lia.
  - intros _. left. split; [lia|done].
  - change (Z.of_nat 0) with 0 in E. rewrite E. cbn [mbind option_bind].
    destruct (skip_spec 33 0 Hn H31) as (level & -> & Hl & Ho); [lia|intros k Hk; lia|]. cbn [mbind option_bind].
    destruct (Hin) as [_ Hlook]. rewrite (Hlook level Ho). cbn [mbind option_bind].
    rewrite <- (low_clear_width level Hn Hl) in *.
    rewrite (count_low_clear level Hn Hl).
    destruct (sweep_spec pbranch (mk_inner st) (mk_matchlevel st) 33 level (mk_matchlevel st =? Z.of_nat level) (mk_branch st))
      as (br & -> & Hbr); [done|done|done|lia|done| | | |].
    + intros k Hk. assert (low_clear n k) as Hk' by (intros i Hi; apply Hl; lia). rewrite low_clear_width by done.
      destruct (fl_pred n k Hn Hk') as [_ Hp]. specialize (Hl k Hk). nlia.
    + intros Hp. destruct (Hpb Hp) as [_ Hlt]. destruct (Hma Hp) as [[? _]|(_ & m & -> & Hom & Hfl & ->)]; [lia|].
      assert (level <= m)%nat. { destruct (decide (level <= m)%nat); [done|]. rewrite Hl in Hom; lia. }
      destruct (Z.eqb_spec (Z.of_nat m) (Z.of_nat level)) as [Em|Nm].
      * apply Nat2Z.inj in Em as ->. split; [by rewrite low_clear_width|done].
      * exists m. done.
    + intros _ Hf. by apply Z.eqb_neq.
    + eexists _, br. done.
Qed.
End tree.

(** ** The tree level by level *)

Fixpoint next_level (l : list uint256) : list uint256 :=
  match l with
  | a :: b :: l => Hash2 a b :: next_level l
  | [a] => [Hash2 a a]
  | [] => []
  end.

Fixpoint merkle_root (fuel : nat) (l : list uint256) : uint256 :=
  match l, fuel with
  | [], _ => uint256_zero
  | [a], _ => a
  | _, O => uint256_zero
  | _, S fuel => merkle_root fuel (next_level l)
  end.

Definition level_nodes (l : list uint256) (i : nat) : list uint256 := map (node l i) (seq 0 (width (length l) i)).

Lemma next_level_seq (f : nat -> uint256) a w :
  next_level (map f (seq (2 * a) w)) =
  map (fun j => Hash2 (f (2 * j)%nat) (f (if 2 * j + 1 <? 2 * a + w then 2 * j + 1 else 2 * j)%nat)) (seq a ((w + 1) / 2)).
Proof.
  revert a. induction (lt_wf w) as [w _ IH]. intros a. destruct w as [|[|w]].
  - done.
  - change ((1 + 1) / 2)%nat with 1%nat. cbn [map seq next_level].
    destruct (Nat.ltb_spec (2 * a + 1) (2 * a + 1)); [lia|done].
  - replace ((S (S w) + 1) / 2)%nat with (S ((w + 1) / 2)) by nlia. cbn [map seq next_level].
    destruct (Nat.ltb_spec (2 * a + 1) (2 * a + S (S w))); [|lia]. f_equal; [do 2 f_equal; lia|].
    replace (S (S (2 * a))) with (2 * S a)%nat by lia. rewrite IH by lia. apply map_ext. intros j.
    replace (2 * S a + w)%nat with (2 * a + S (S w))%nat by lia. done.
Qed.

Lemma next_level_nodes l i : next_level (level_nodes l i) = level_nodes l (S i).
Proof. unfold level_nodes. apply (next_level_seq (node l i) 0). Qed.

Lemma level_nodes_0 l : level_nodes l 0 = l.
Proof.
  apply list_eq. intros j. unfold level_nodes. cbn [width]. rewrite list_lookup_fmap.
  destruct (decide (j < length l)%nat) as [H|H].
  - rewrite lookup_seq_lt by done. cbn. destruct (lookup_lt_is_Some_2 l j H) as [x Hx]. rewrite Hx.
    by rewrite (nth_lookup_Some _ _ _ x).
  - rewrite lookup_seq_ge, lookup_ge_None_2 by lia. done.
Qed.

Lemma merkle_root_levels l fuel i L : (0 < length l)%nat ->
  (forall k, i <= k < L -> 1 < width (length l) k)%nat -> (i <= L)%nat -> width (length l) L = 1%nat -> (L - i <= fuel)%nat ->
  merkle_root fuel (level_nodes l i) = node l L 0.
Proof.
  intros Hl. revert i. induction fuel as [|fuel IH]; intros i Hw Hi HL Hf.
  - assert (i = L) as -> by lia. unfold level_nodes. by rewrite HL.
  - destruct (decide (i = L)) as [->|N]; [unfold level_nodes; by rewrite HL|].
    specialize (Hw i ltac:(lia)) as Hwi.
    assert (merkle_root (S fuel) (level_nodes l i) = merkle_root fuel (next_level (level_nodes l i))) as ->.
    { unfold level_nodes. destruct (width (length l) i) as [|[|w]]; [lia|lia|done]. }
    rewrite next_level_nodes. apply IH; [|lia|done|lia]. intros k Hk. apply Hw. lia.
Qed.

Lemma depth_from_props n fuel i :
  (forall k, k < i -> 1 < width n k)%nat -> (width n (i + fuel) <= 1)%nat ->
  (width n (depth_from fuel n i) <= 1)%nat /\ (forall k, k < depth_from fuel n i -> 1 < width n k)%nat.
Proof.
  revert i. induction fuel as [|fuel IH]; intros i Hw He; cbn [depth_from].
  - by rewrite Nat.add_0_r in He.
  - destruct (Nat.leb_spec (width n i) 1) as [Hle|Hgt]; [done|]. apply IH; [|by rewrite Nat.add_succ_comm].
    intros k Hk. destruct (decide (k = i)) as [->|]; [done|]. apply Hw. lia.
Qed.

Lemma depth_spec (l : list uint256) : Z.of_nat (length l) <= 2 ^ 31 -> (0 < length l)%nat ->
  (depth (length l) <= 31)%nat /\ width (length l) (depth (length l)) = 1%nat /\
  (forall k, k < depth (length l) -> 1 < width (length l) k)%nat.
Proof.
  intros H31 Hl. destruct (depth_from_props (length l) 32 0) as [H1 Hw]; [lia| |].
  - pose proof (width_bound l 31 H31 ltac:(lia)) as H. change (0 + 32)%nat with 32%nat.
    change (width (length l) 32) with ((width (length l) 31 + 1) / 2)%nat. cbn [Nat.sub Nat.pow] in H. nlia.
  - fold (depth (length l)) in *. pose proof (width_pos (length l) (depth (length l)) Hl).
    split; [by apply (wide_level l)|]. split; [lia|done].
Qed.

Lemma tree_root_levels l : Z.of_nat (length l) <= 2 ^ 31 -> tree_root l = merkle_root 32 l.
Proof.
  intros H31. destruct (decide (length l = 0)%nat) as [E|N]; [by destruct l|].
  destruct (depth_spec l H31) as (HL & H1 & Hw); [lia|]. unfold tree_root.
  rewrite <- (merkle_root_levels l 32 0 (depth (length l))), level_nodes_0; [done|lia| |lia|done|lia].
  intros k Hk. apply Hw. lia.
Qed.

(** ** Branches *)

Lemma fl_lt_width p n i : (p < n -> fl p i < width n i)%nat.
Proof. intros H. induction i as [|i IH]; cbn [fl width]; nlia. Qed.

Lemma RootFromBranch_spec l pos k i :
  (pos < length l)%nat ->
  ComputeMerkleRootFromBranch (node l i (fl pos i)) (map (fun i => node l i (sibling (length l) i (fl pos i))) (seq i k))
    (Z.of_nat (fl pos i)) = node l (i + k) (fl pos (i + k)).
Proof.
  intros Hp. revert i. induction k as [|k IH]; intros i; cbn [seq map ComputeMerkleRootFromBranch].
  { by rewrite Nat.add_0_r. }
  assert (Z.shiftr (Z.of_nat (fl pos i)) 1 = Z.of_nat (fl pos (S i))) as ->.
  { cbn [fl]. rewrite Z.shiftr_div_pow2 by lia. symmetry. apply Nat2Z.inj_div. }
  pose proof (fl_lt_width pos (length l) i Hp) as Hw.
  replace (i + S k)%nat with (S i + k)%nat by lia. rewrite <- IH. f_equal. cbn [node fl].
  change (Z.land (Z.of_nat (fl pos i)) 1 =? 0) with (level_clear (Z.of_nat (fl pos i)) 0).
  rewrite level_clear_fl. cbn [fl]. destruct (Nat.eqb_spec (fl pos i mod 2) 0) as [He|Ho]; cbn [negb].
  - rewrite sibling_even by done. replace (2 * (fl pos i / 2))%nat with (fl pos i) by nlia. done.
  - rewrite sibling_odd by nlia. replace (2 * (fl pos i / 2))%nat with (fl pos i - 1)%nat by nlia.
    replace (fl pos i - 1 + 1)%nat with (fl pos i) by nlia.
    destruct (Nat.ltb_spec (fl pos i) (width (length l) i)); [done|lia].
Qed.

(** ** Binding *)

Definition collision : Prop := exists x y : bytes, x <> y /\ Hash x = Hash y.

Lemma Hash2_inj (a b c d : uint256) : length a = length c -> Hash2 a b = Hash2 c d -> (a = c /\ b = d) \/ collision.
Proof.
  intros Hl E. rewrite !Hash2_app in E. destruct (decide (a ++ b = c ++ d)) as [E'|N].
  - left. by apply app_inj_1.
  - right. by exists (a ++ b), (c ++ d).
Qed.

Lemma length_node l i j : Forall uint256_wf l -> length (node l i j) = 32%nat.
Proof.
  intros Hl. destruct i as [|i]; cbn [node].
  - destruct (nth_in_or_default j l uint256_zero) as [Hin|E]; [|by rewrite E].
    apply list_elem_of_In in Hin. rewrite Forall_forall in Hl. specialize (Hl _ Hin). unfold base_blob_wf, Zlength in Hl. lia.
  - rewrite Hash2_app. apply length_Hash.
Qed.

Lemma node_inj l1 l2 i j1 j2 : Forall uint256_wf l1 -> Forall uint256_wf l2 -> node l1 (S i) j1 = node l2 (S i) j2 ->
  (node l1 i (2 * j1) = node l2 i (2 * j2) /\
   node l1 i (if 2 * j1 + 1 <? width (length l1) i then 2 * j1 + 1 else 2 * j1)%nat =
   node l2 i (if 2 * j2 + 1 <? width (length l2) i then 2 * j2 + 1 else 2 * j2)%nat) \/ collision.
Proof. intros H1 H2 E. cbn [node] in E. apply Hash2_inj in E; [done|]. by rewrite !length_node. Qed.

(** A complete subtree equal to an incomplete one contains two equal halves. *)
Lemma incomplete_repeats l i a b : Forall uint256_wf l -> (0 < length l)%nat ->
  (a < fl (length l) i)%nat -> (fl (length l) i <= b < width (length l) i)%nat -> node l i a = node l i b ->
  repeats l (length l) \/ collision.
Proof.
  intros Hl Hn. revert a b. induction i as [|i IH]; intros a b Ha Hb E; [cbn in *; lia|].
  cbn [fl width] in Ha, Hb. pose proof (fl_le_width (length l) i).
  apply node_inj in E as [[E1 E2]|]; [|by right|done..].
  destruct (Nat.ltb_spec (2 * a + 1) (width (length l) i)) as [_|]; [|nlia].
  destruct (Nat.ltb_spec (2 * b + 1) (width (length l) i)) as [Hlt|Hge].
  - apply (IH (2 * a + 1)%nat (2 * b + 1)%nat); [nlia|nlia|done].
  - left. exists i, a. split; [nlia|congruence].
Qed.

Lemma sibling_repeats l i j : Forall uint256_wf l -> (0 < length l)%nat ->
  (2 * j + 1 < width (length l) i)%nat -> node l i (2 * j) = node l i (2 * j + 1) -> repeats l (length l) \/ collision.
Proof.
  intros Hl Hn Hj E. destruct (decide (2 * j + 2 <= fl (length l) i)%nat); [left; by exists i, j|].
  apply (incomplete_repeats l i (2 * j) (2 * j + 1)); try done;
    destruct (width_fl (length l) i Hn) as [[_ ?]|[_ ?]]; lia.
Qed.

Lemma forall_lt_or (P : nat -> Prop) (C : Prop) w :
  (forall j, (j < w)%nat -> P j \/ C) -> (forall j, (j < w)%nat -> P j) \/ C.
Proof.
  induction w as [|w IH]; intros H; [left; lia|]. destruct IH as [Hw|]; [intros j Hj; apply H; lia| |by right].
  destruct (H w ltac:(lia)); [|by right]. left. intros j Hj. destruct (decide (j = w)) as [->|]; [done|]. apply Hw. lia.
Qed.

Definition same_level (l1 l2 : list uint256) (i : nat) : Prop :=
  width (length l1) i = width (length l2) i /\ forall j, (j < width (length l1) i)%nat -> node l1 i j = node l2 i j.

(** The wider of two trees that agree one level up repeats a subtree. *)
Lemma wider_repeats l1 l2 i : Forall uint256_wf l1 -> Forall uint256_wf l2 -> (0 < length l1)%nat ->
  same_level l1 l2 (S i) -> (width (length l2) i < width (length l1) i)%nat -> repeats l1 (length l1) \/ collision.
Proof.
  intros H1 H2 Hn1 [Ew En] Hlt. cbn [width] in Ew.
  set (j := ((width (length l1) i + 1) / 2 - 1)%nat).
  assert (node l1 (S i) j = node l2 (S i) j) as E by (apply En; cbn [width]; nlia).
  apply node_inj in E as [[E1 E2]|]; [|by right|done..].
  destruct (Nat.ltb_spec (2 * j + 1) (width (length l1) i)) as [Hj|]; [|nlia].
  destruct (Nat.ltb_spec (2 * j + 1) (width (length l2) i)) as [|_]; [nlia|].
  apply (sibling_repeats l1 i j); [done|done|done|congruence].
Qed.

Lemma same_level_down l1 l2 i : Forall uint256_wf l1 -> Forall uint256_wf l2 -> (0 < length l1)%nat -> (0 < length l2)%nat ->
  ~ repeats l1 (length l1) -> ~ repeats l2 (length l2) -> same_level l1 l2 (S i) -> same_level l1 l2 i \/ collision.
Proof.
  intros H1 H2 Hn1 Hn2 Hr1 Hr2 Hs. destruct (Nat.lt_trichotomy (width (length l2) i) (width (length l1) i)) as [Hlt|[Ew|Hgt]].
  - right. by destruct (wider_repeats l1 l2 i).
  - destruct (forall_lt_or (fun j => node l1 i (2 * j) = node l2 i (2 * j) /\
        ((2 * j + 1 < width (length l1) i)%nat -> node l1 i (2 * j + 1) = node l2 i (2 * j + 1)))
        collision (width (length l1) (S i))) as [Hc|]; [| |by right].
    + intros j Hj. destruct Hs as [_ En]. specialize (En j Hj). apply node_inj in En as [[E1 E2]|]; [|by right|done..].
      left. split; [done|]. intros Hlt. rewrite Ew in E2.
      destruct (Nat.ltb_spec (2 * j + 1) (width (length l1) i)); [done|lia].
    + left. split; [done|]. intros j Hj. destruct (Hc (j / 2)%nat) as [Ee Eo]; [cbn [width]; nlia|].
      destruct (decide (j mod 2 = 0)%nat); [by replace (2 * (j / 2))%nat with j in Ee by nlia|].
      replace (2 * (j / 2) + 1)%nat with j in Eo by nlia. by apply Eo.
  - destruct Hs as [Ew En]. destruct (wider_repeats l2 l1 i) as [|]; try done; [|by right].
    split; [done|]. intros j Hj. symmetry. apply En. by rewrite Ew.
Qed.

Lemma same_level_eq l1 l2 : same_level l1 l2 0 -> l1 = l2.
Proof.
  intros [Ew En]. cbn in Ew. rewrite <- (level_nodes_0 l1), <- (level_nodes_0 l2). unfold level_nodes. cbn [width].
  rewrite Ew. apply map_ext_in. intros j Hj%in_seq. apply En. cbn. lia.
Qed.

Lemma ComputeMerkleRoot_spec l : Z.of_nat (length l) <= 2 ^ 31 ->
  exists mutated, ComputeMerkleRoot l = Some (tree_root l, mutated) /\ (mutated = true <-> repeats l (length l)).
Proof.
  intros H31. unfold ComputeMerkleRoot. destruct (decide (length l = 0)%nat) as [E|N].
  - destruct l; [|done]. exists false. split; [done|]. split; [done|]. intros (i & j & Hj & _).
    rewrite fl_zero in Hj; [lia|]. cbn. lia.
  - destruct (MerkleComputation_spec l 0 false (u32 (-1))) as (mu & br & -> & Hmu & _); [lia|done|done|].
    cbn [mbind option_bind]. by exists mu.
Qed.

(** C36: the constant-space computation gives the root of the tree built level by level,
    pairing the last node of an odd level with itself, and flags a list exactly when two
    complete sibling subtrees have the same hash. *)
Theorem ComputeMerkleRoot_correct leaves :
  Zlength leaves <= 2 ^ 31 ->
  exists mutated, ComputeMerkleRoot leaves = Some (merkle_root 32 leaves, mutated) /\
    (mutated = true <-> repeats leaves (length leaves)).
Proof.
  intros H. destruct (ComputeMerkleRoot_spec leaves H) as (mu & E & Hmu). exists mu. by rewrite <- tree_root_levels.
Qed.

(** The branch computed for a leaf leads from it back to the root. *)
Theorem ComputeMerkleBranch_correct leaves pos leaf :
  Zlength leaves <= 2 ^ 31 -> leaves !! pos = Some leaf ->
  exists branch, ComputeMerkleBranch leaves (Z.of_nat pos) = Some branch /\
    ComputeMerkleRootFromBranch leaf branch (Z.of_nat pos) = merkle_root 32 leaves.
Proof.
  intros H31 Hl. pose proof (lookup_lt_Some _ _ _ Hl) as Hp. unfold ComputeMerkleBranch.
  destruct (MerkleComputation_spec leaves pos true (Z.of_nat pos)) as (mu & br & -> & _ & Hbr); [lia|done|done|].
  cbn [mbind option_bind]. exists br. split; [done|]. rewrite Hbr by done. rewrite <- tree_root_levels by done.
  destruct (depth_spec leaves H31) as (_ & H1 & _); [lia|].
  pose proof (RootFromBranch_spec leaves pos (depth (length leaves)) 0 Hp) as E. cbn [node fl] in E.
  rewrite (nth_lookup_Some _ _ _ leaf Hl) in E. unfold tree_branch. rewrite E. cbn [Nat.add]. unfold tree_root. f_equal.
  pose proof (fl_lt_width pos (length leaves) (depth (length leaves)) Hp). lia.
Qed.

(** C37: the root commits to the leaves. Two lists of hashes that are not flagged, whose
    trees have the same depth and the same root, are equal, or a collision of the double
    SHA-256 is at hand. *)
Theorem merkle_root_binding l1 l2 root :
  Forall uint256_wf l1 -> Forall uint256_wf l2 -> Zlength l1 <= 2 ^ 31 -> Zlength l2 <= 2 ^ 31 ->
  l1 <> [] -> l2 <> [] -> depth (length l1) = depth (length l2) ->
  ComputeMerkleRoot l1 = Some (root, false) -> ComputeMerkleRoot l2 = Some (root, false) ->
  l1 = l2 \/ exists x y : bytes, x <> y /\ Hash x = Hash y.
Proof.
  intros W1 W2 H1 H2 N1 N2 Ed R1 R2.
  assert (0 < length l1)%nat as P1 by (destruct l1; [done|cbn; lia]).
  assert (0 < length l2)%nat as P2 by (destruct l2; [done|cbn; lia]).
  destruct (ComputeMerkleRoot_spec l1 H1) as (m1 & E1 & Hr1), (ComputeMerkleRoot_spec l2 H2) as (m2 & E2 & Hr2).
  rewrite R1 in E1. rewrite R2 in E2. injection E1 as Et1 <-. injection E2 as Et2 <-.
  destruct (depth_spec l1 H1 P1) as (_ & D1 & _), (depth_spec l2 H2 P2) as (_ & D2 & _).
  assert (forall k, (k <= depth (length l1))%nat -> same_level l1 l2 (depth (length l1) - k) \/ collision) as Hall.
  { induction k as [|k IH]; intros Hk.
    - left. rewrite Nat.sub_0_r. split; [congruence|]. rewrite D1. intros j Hj. replace j with 0%nat by lia.
      unfold tree_root in *. rewrite <- Ed in Et2. congruence.
    - destruct (IH ltac:(lia)) as [Hs|]; [|by right].
      replace (depth (length l1) - k)%nat with (S (depth (length l1) - S k)) in Hs by lia.
      apply (same_level_down l1 l2); try done; [by rewrite <- Hr1|by rewrite <- Hr2]. }
  destruct (Hall (depth (length l1)) (Nat.le_refl _)) as [Hs|]; [|by right].
  left. apply same_level_eq. by rewrite Nat.sub_diag in Hs.
Qed.

(** ** Instances of the statements *)

Definition sample_leaves : list uint256 := [replicate 32 x01; replicate 32 x02; replicate 32 x03].

Lemma ComputeMerkleRoot_correct_witness :
  exists mutated, ComputeMerkleRoot sample_leaves = Some (merkle_root 32 sample_leaves, mutated) /\
    (mutated = true <-> repeats sample_leaves 3).
Proof. exact (ComputeMerkleRoot_correct sample_leaves ltac:(vm_compute; congruence)). Defined.

Lemma ComputeMerkleBranch_correct_witness :
  exists branch, ComputeMerkleBranch sample_leaves (Z.of_nat 2) = Some branch /\
    ComputeMerkleRootFromBranch (replicate 32 x03) branch (Z.of_nat 2) = merkle_root 32 sample_leaves.
Proof. exact (ComputeMerkleBranch_correct sample_leaves 2 (replicate 32 x03) ltac:(vm_compute; congruence) eq_refl). Defined.

Definition sample_root : uint256 :=
  match ComputeMerkleRoot sample_leaves with Some (root, _) => root | None => [] end.

Lemma merkle_root_binding_witness :
  sample_leaves = sample_leaves \/ exists x y : bytes, x <> y /\ Hash x = Hash y.
Proof.
  refine (merkle_root_binding sample_leaves sample_leaves sample_root _ _ _ _ _ _ _ _ _);
    [repeat constructor|repeat constructor|vm_compute; congruence|vm_compute; congruence|discriminate|discriminate
    |reflexivity|vm_compute; reflexivity|vm_compute; reflexivity].
Defined.

(** The list of the warning in the source: repeating the tail keeps the root and is flagged. *)
Example repeated_tail_flagged :
  exists root, ComputeMerkleRoot sample_leaves = Some (root, false) /\
    ComputeMerkleRoot (sample_leaves ++ [replicate 32 x03]) = Some (root, true).
Proof. eexists. split; vm_compute; reflexivity. Qed.
