(* ===== verification/Script.v ===== *)
(** * Scripts (topchain/src/script/script.h, script.cpp, the counting of signature operations of interpreter.cpp)

    The byte format of scripts: reading one operation, pushing data and numbers,
    [CScriptNum], the shapes of output scripts that have a meaning of their own, and the
    counting of signature operations. A position in a script is the bytes that are left.
    A loop over a script takes the length of the script as its fuel; each operation read
    is at least one byte long, so that it is enough. *)

From S2P Require Import Prelude Serialize Sha256 Primitives.

(** ** Limits and opcodes *)

Definition MAX_SCRIPT_ELEMENT_SIZE : Z := 520.
Definition MAX_PUBKEYS_PER_MULTISIG : Z := 20.
Definition MAX_SCRIPT_SIZE : Z := 10000.
Definition LOCKTIME_THRESHOLD : Z := 500000000.

Definition OP_0 : Z := 0x00.
Definition OP_PUSHDATA1 : Z := 0x4c.
Definition OP_PUSHDATA2 : Z := 0x4d.
Definition OP_PUSHDATA4 : Z := 0x4e.
Definition OP_1 : Z := 0x51.
Definition OP_16 : Z := 0x60.
Definition OP_RETURN : Z := 0x6a.
Definition OP_DUP : Z := 0x76.
Definition OP_EQUAL : Z := 0x87.
Definition OP_EQUALVERIFY : Z := 0x88.
Definition OP_HASH160 : Z := 0xa9.
Definition OP_CHECKSIG : Z := 0xac.
Definition OP_CHECKSIGVERIFY : Z := 0xad.
Definition OP_CHECKMULTISIG : Z := 0xae.
Definition OP_CHECKMULTISIGVERIFY : Z := 0xaf.
Definition OP_NOP10 : Z := 0xb9.
Definition OP_INVALIDOPCODE : Z := 0xff.
Definition MAX_OPCODE : Z := OP_NOP10.

Definition IsUnspendable (s : CScript) : bool :=
  (0 <? Zlength s) && (byte_at s 0 =? OP_RETURN) || (MAX_SCRIPT_SIZE <? Zlength s).

(** ** Reading an operation *)

(** The operand of [nSize] bytes. *)
Definition GetOp2_data (opcode nSize : Z) (pc : bytes) : option (Z * bytes * bytes) :=
  if Zlength pc <? nSize then None
  else Some (opcode, take (Z.to_nat nSize) pc, drop (Z.to_nat nSize) pc).

(** The opcode, the operand and the position behind it; [None] if the function returns false. *)
Definition GetOp2 (pc : bytes) : option (Z * bytes * bytes) :=
  match pc with
  | [] => None
  | b :: pc =>
      let opcode := bval b in
      if opcode <=? OP_PUSHDATA4 then
        if opcode <? OP_PUSHDATA1 then GetOp2_data opcode opcode pc
        else if opcode =? OP_PUSHDATA1 then
          if Zlength pc <? 1 then None else GetOp2_data opcode (le_val (take 1 pc)) (drop 1 pc)
        else if opcode =? OP_PUSHDATA2 then
          if Zlength pc <? 2 then None else GetOp2_data opcode (le_val (take 2 pc)) (drop 2 pc)
        else
          if Zlength pc <? 4 then None else GetOp2_data opcode (le_val (take 4 pc)) (drop 4 pc)
      else Some (opcode, [], pc)
  end.

(** [while (pc < end()) { if (!GetOp(pc, opcode, data)) return fail; ... }], the body giving the
    new state or the value returned. *)
Fixpoint while_op {S R} (body : Z -> bytes -> S -> S + R) (fail finish : S -> R) (fuel : nat) (pc : bytes) (s : S) : option R :=
  match pc with
  | [] => Some (finish s)
  | _ =>
      match fuel with
      | O => None
      | S fuel =>
          match GetOp2 pc with
          | None => Some (fail s)
          | Some (opcode, data, pc) =>
              match body opcode data s with
              | inl s => while_op body fail finish fuel pc s
              | inr r => Some r
              end
          end
      end
  end.

(** ** Small integers *)

Definition DecodeOP_N (opcode : Z) : option Z :=
  if opcode =? OP_0 then Some 0
  else if (OP_1 <=? opcode) && (opcode <=? OP_16) then Some (opcode - (OP_1 - 1)) else None.
Definition EncodeOP_N (n : Z) : option Z :=
  if (0 <=? n) && (n <=? 16) then Some (if n =? 0 then OP_0 else OP_1 + n - 1) else None.

(** ** Signature operations *)

Definition sigop_body (fAccurate : bool) (opcode : Z) (_ : bytes) (s : Z * Z) : Z * Z + Z :=
  let '(n, lastOpcode) := s in
  inl (if (opcode =? OP_CHECKSIG) || (opcode =? OP_CHECKSIGVERIFY) then u32 (n + 1)
       else if (opcode =? OP_CHECKMULTISIG) || (opcode =? OP_CHECKMULTISIGVERIFY) then
         if fAccurate && (OP_1 <=? lastOpcode) && (lastOpcode <=? OP_16)
         then u32 (n + default 0 (DecodeOP_N lastOpcode))
         else u32 (n + MAX_PUBKEYS_PER_MULTISIG)
       else n, opcode).
Definition GetSigOpCount (fAccurate : bool) (s : CScript) : Z :=
  default 0 (while_op (sigop_body fAccurate) fst fst (length s) s (0, OP_INVALIDOPCODE)).

Definition IsPayToScriptHash (s : CScript) : bool :=
  (Zlength s =? 23) && (byte_at s 0 =? OP_HASH160) && (byte_at s 1 =? 0x14) && (byte_at s 22 =? OP_EQUAL).
Definition IsPayToWitnessScriptHash (s : CScript) : bool :=
  (Zlength s =? 34) && (byte_at s 0 =? OP_0) && (byte_at s 1 =? 0x20).

(** The version and the program, if the function returns true. *)
Definition IsWitnessProgram (s : CScript) : option (Z * bytes) :=
  if (Zlength s <? 4) || (42 <? Zlength s) then None
  else if negb (byte_at s 0 =? OP_0) && ((byte_at s 0 <? OP_1) || (OP_16 <? byte_at s 0)) then None
  else if byte_at s 1 + 2 =? Zlength s then version ← DecodeOP_N (byte_at s 0); Some (version, drop 2 s)
  else None.

Definition push_only_body (opcode : Z) (_ : bytes) (s : unit) : unit + bool :=
  if OP_16 <? opcode then inr false else inl tt.
Definition IsPushOnly (s : CScript) : bool :=
  default false (while_op push_only_body (fun _ => false) (fun _ => true) (length s) s tt).

Definition valid_ops_body (opcode : Z) (item : bytes) (s : unit) : unit + bool :=
  if (MAX_OPCODE <? opcode) || (MAX_SCRIPT_ELEMENT_SIZE <? Zlength item) then inr false else inl tt.
Definition HasValidOps (s : CScript) : bool :=
  default false (while_op valid_ops_body (fun _ => false) (fun _ => true) (length s) s tt).

Definition p2sh_body (opcode : Z) (data : bytes) (vData : bytes) : bytes + option bytes :=
  if OP_16 <? opcode then inr None else inl data.
(** The count for a script spent by [scriptSig]. *)
Definition GetSigOpCount_sig (scriptSig s : CScript) : Z :=
  if negb (IsPayToScriptHash s) then GetSigOpCount true s
  else
    match default None (while_op p2sh_body (fun _ => None) Some (length scriptSig) scriptSig []) with
    | None => 0
    | Some vData => GetSigOpCount true vData
    end.

Definition SCRIPT_VERIFY_P2SH : Z := Z.shiftl 1 0.
Definition SCRIPT_VERIFY_WITNESS : Z := Z.shiftl 1 11.

Definition WitnessSigOps (witversion : Z) (witprogram : bytes) (witness : list bytes) : Z :=
  if witversion =? 0 then
    if Zlength witprogram =? 20 then 1
    else
      match last witness with
      | Some subscript => if Zlength witprogram =? 32 then GetSigOpCount true subscript else 0
      | None => 0
      end
  else 0.

(** The loop over a push-only [scriptSig] keeps the last operand. *)
Definition last_push_body (opcode : Z) (data : bytes) (_ : bytes) : bytes + bytes := inl data.
Definition CountWitnessSigOps (scriptSig scriptPubKey : CScript) (witness : list bytes) (flags : Z) : option Z :=
  if Z.land flags SCRIPT_VERIFY_WITNESS =? 0 then Some 0
  else if Z.land flags SCRIPT_VERIFY_P2SH =? 0 then None
  else
    match IsWitnessProgram scriptPubKey with
    | Some (witnessversion, witnessprogram) => Some (WitnessSigOps witnessversion witnessprogram witness)
    | None =>
        if IsPayToScriptHash scriptPubKey && IsPushOnly scriptSig then
          let data := default [] (while_op last_push_body (fun _ => []) id (length scriptSig) scriptSig []) in
          match IsWitnessProgram data with
          | Some (witnessversion, witnessprogram) => Some (WitnessSigOps witnessversion witnessprogram witness)
          | None => Some 0
          end
        else Some 0
    end.

(** ** Numbers on the stack *)

Fixpoint abs_bytes (fuel : nat) (absvalue : Z) : bytes :=
  match fuel with
  | O => []
  | S fuel => if absvalue =? 0 then [] else byte_of absvalue :: abs_bytes fuel (Z.shiftr absvalue 8)
  end.

(** [back] of the bytes so far, and everything before it. *)
Definition set_back (l : bytes) (f : Z -> bytes) : bytes :=
  match last l with
  | Some b => removelast l ++ f (bval b)
  | None => l
  end.

(** The most significant byte, with the sign put in. *)
Definition sign_back (neg : bool) (back : Z) : bytes :=
  if negb (Z.land back 0x80 =? 0) then [byte_of back; if neg then x80 else x00]
  else if neg then [byte_of (Z.lor back 0x80)] else [byte_of back].

Definition CScriptNum_serialize (value : Z) : bytes :=
  if value =? 0 then []
  else
    let neg := value <? 0 in
    set_back (abs_bytes 8 (u64 (if neg then - value else value))) (sign_back neg).

(** [result] over the bytes, the [i]-th shifted by [8 * i]. *)
Fixpoint or_bytes (i : Z) (vch : bytes) (result : Z) : Z :=
  match vch with
  | [] => result
  | b :: vch => or_bytes (i + 1) vch (Z.lor result (Z.shiftl (bval b) (8 * i)))
  end.

(** Numbers of more than eight bytes are refused before. *)
Definition set_vch (vch : bytes) : Z :=
  match last vch with
  | None => 0
  | Some back =>
      let result := or_bytes 0 vch 0 in
      if negb (Z.land (bval back) 0x80 =? 0)
      then - Z.land result (Z.lnot (Z.shiftl 0x80 (8 * (Zlength vch - 1))))
      else result
  end.

Inductive scriptnum_error := script_number_overflow | non_minimally_encoded_script_number.

Definition second_back (vch : bytes) : Z := bval (default x00 (last (removelast vch))).

Definition CScriptNum (vch : bytes) (fRequireMinimal : bool) (nMaxNumSize : Z) : result scriptnum_error Z :=
  if nMaxNumSize <? Zlength vch then Err script_number_overflow
  else
    match last vch with
    | Some back =>
        if fRequireMinimal && (Z.land (bval back) 0x7f =? 0) && ((Zlength vch <=? 1) || (Z.land (second_back vch) 0x80 =? 0))
        then Err non_minimally_encoded_script_number
        else Ok (set_vch vch)
    | None => Ok (set_vch vch)
    end.

Definition getint (m_value : Z) : Z :=
  if 2 ^ 31 - 1 <? m_value then 2 ^ 31 - 1 else if m_value <? - 2 ^ 31 then - 2 ^ 31 else m_value.

(** ** Building scripts *)

Definition push_data (b : bytes) : CScript :=
  (if Zlength b <? OP_PUSHDATA1 then [byte_of (Zlength b)]
   else if Zlength b <=? 0xff then [byte_of OP_PUSHDATA1; byte_of (Zlength b)]
   else if Zlength b <=? 0xffff then byte_of OP_PUSHDATA2 :: le_bytes 2 (Zlength b)
   else byte_of OP_PUSHDATA4 :: le_bytes 4 (Zlength b)) ++ b.

Definition push_int64 (n : Z) : CScript :=
  if (n =? -1) || ((1 <=? n) && (n <=? 16)) then [byte_of (n + (OP_1 - 1))]
  else if n =? 0 then [byte_of OP_0]
  else push_data (CScriptNum_serialize n).

(** ** Reading back *)

Lemma GetOp2_shorter pc opcode data rest : GetOp2 pc = Some (opcode, data, rest) -> (length rest < length pc)%nat.
Proof.
  assert (forall op n p, GetOp2_data op n p = Some (opcode, data, rest) -> (length rest <= length p)%nat) as Hd.
  { intros op n p. unfold GetOp2_data. case_if; [done|]. intros [= _ _ <-]. rewrite length_drop. lia. }
  destruct pc as [|b pc]; [done|]. cbn [GetOp2 length]. repeat (case_if; try done).
  all: try (intros H%Hd; rewrite ?length_drop in H; lia). intros [= _ _ <-]. lia.
Qed.

(** The length of the script is fuel enough for every loop. *)
Lemma while_op_total {S R} (body : Z -> bytes -> S -> S + R) fail finish fuel pc s :
  (length pc <= fuel)%nat -> is_Some (while_op body fail finish fuel pc s).
Proof.
  revert pc s. induction fuel as [|fuel IH]; intros pc s Hf; destruct pc as [|b pc]; cbn [while_op].
  - done.
  - cbn in Hf. lia.
  - done.
  - destruct (GetOp2 (b :: pc)) as [[[op data] rest]|] eqn:E; [|done]. apply GetOp2_shorter in E.
    destruct (body op data s); [|done]. apply IH. cbn in *. lia.
Qed.

Lemma GetOp2_data_app op data rest : GetOp2_data op (Zlength data) (data ++ rest) = Some (op, data, rest).
Proof.
  unfold GetOp2_data. rewrite Zlength_app. pose proof (Zlength_nonneg rest).
  destruct (Z.ltb_spec (Zlength data + Zlength rest) (Zlength data)); [lia|].
  unfold Zlength. rewrite Nat2Z.id. by rewrite take_app_length, drop_app_length.
Qed.

(** A little-endian size of [k] bytes in front. *)
Lemma read_size k n (p : bytes) : 0 <= n < 256 ^ Z.of_nat k ->
  (Zlength (le_bytes k n ++ p) <? Z.of_nat k) = false /\
  le_val (take k (le_bytes k n ++ p)) = n /\ drop k (le_bytes k n ++ p) = p.
Proof.
  intros Hn. assert (length (le_bytes k n) = k) as Hk by apply length_le_bytes.
  rewrite (take_app_length' (le_bytes k n)), (drop_app_length' (le_bytes k n)), le_val_bytes, Z.mod_small by done.
  split; [|done]. apply Z.ltb_ge. unfold Zlength. rewrite length_app. lia.
Qed.

(** The three opcodes with a size. *)
Lemma GetOp2_sized op k n data rest : In (op, k) [(OP_PUSHDATA1, 1%nat); (OP_PUSHDATA2, 2%nat); (OP_PUSHDATA4, 4%nat)] ->
  n = Zlength data -> n < 256 ^ Z.of_nat k -> GetOp2 (byte_of op :: le_bytes k n ++ data ++ rest) = Some (op, data, rest).
Proof.
  intros Hin Hd Hn. destruct (read_size k n (data ++ rest)) as (E1 & E2 & E3).
  { pose proof (Zlength_nonneg data). lia. }
  assert (GetOp2 (byte_of op :: le_bytes k n ++ data ++ rest) =
    if Zlength (le_bytes k n ++ data ++ rest) <? Z.of_nat k then None
    else GetOp2_data op (le_val (take k (le_bytes k n ++ data ++ rest))) (drop k (le_bytes k n ++ data ++ rest))) as ->.
  { destruct Hin as [[= <- <-]|[[= <- <-]|[[= <- <-]|[]]]]; reflexivity. }
  rewrite E1, E2, E3, Hd. apply GetOp2_data_app.
Qed.

(** What [push_data] appends to a script is read back by [GetOp] as one push of the
    same data, whatever follows. *)
Theorem push_data_GetOp data rest : Zlength data < 2 ^ 32 ->
  exists opcode, GetOp2 (push_data data ++ rest) = Some (opcode, data, rest) /\ 0 <= opcode <= OP_PUSHDATA4.
Proof.
  intros Hlen. pose proof (Zlength_nonneg data). unfold push_data. rewrite <- app_assoc.
  destruct (Z.ltb_spec (Zlength data) OP_PUSHDATA1) as [Hs|Hs]; [|destruct (Z.leb_spec (Zlength data) 0xff) as [H1|H1];
    [|destruct (Z.leb_spec (Zlength data) 0xffff) as [H2|H2]]]; unfold OP_PUSHDATA1 in Hs.
  - exists (Zlength data). cbn [app GetOp2]. rewrite bval_byte_of_small by lia. unfold OP_PUSHDATA4, OP_PUSHDATA1.
    rewrite (proj2 (Z.leb_le _ _)), (proj2 (Z.ltb_lt _ _)), GetOp2_data_app by lia. split; [done|lia].
  - exists OP_PUSHDATA1. split; [|done]. apply (GetOp2_sized OP_PUSHDATA1 1); cbn; [tauto|done|lia].
  - exists OP_PUSHDATA2. split; [|done]. apply (GetOp2_sized OP_PUSHDATA2 2); cbn; [tauto|done|lia].
  - exists OP_PUSHDATA4. split; [|done]. apply (GetOp2_sized OP_PUSHDATA4 4); cbn; [tauto|done|lia].
Qed.

Lemma push_data_GetOp_witness :
  exists opcode, GetOp2 (push_data (replicate 300 x42) ++ [xac]) = Some (opcode, replicate 300 x42, [xac]) /\
    0 <= opcode <= OP_PUSHDATA4.
Proof. apply (push_data_GetOp (replicate 300 x42) [xac]). reflexivity. Defined.

(** ** Numbers are in one form only *)

Lemma or_bytes_val i vch r : 0 <= i -> 0 <= r < 256 ^ i -> or_bytes i vch r = r + le_val vch * 256 ^ i.
Proof.
  revert i r. induction vch as [|b vch IH]; intros i r Hi Hr; cbn [or_bytes le_val]; [lia|].
  pose proof (bval_range b). assert (256 ^ i = 2 ^ (8 * i)) as E. { rewrite Z.pow_mul_r by lia. done. }
  assert (256 ^ (i + 1) = 256 * 256 ^ i) as E1. { rewrite Z.pow_add_r by lia. lia. }
  rewrite Z.lor_comm, lor_shiftl_add by lia. rewrite <- E, IH, E1 by nia. lia.
Qed.

Lemma le_val_snoc l b : le_val (l ++ [b]) = le_val l + 256 ^ Zlength l * bval b.
Proof. rewrite le_val_app. cbn [le_val]. unfold Zlength. lia. Qed.

(** A number with its top bit set, the bit cleared. *)
Lemma clear_top x k b : 0 <= k -> 0 <= x < 256 ^ k -> 128 <= b < 256 ->
  Z.land (x + 256 ^ k * b) (Z.lnot (Z.shiftl 0x80 (8 * k))) = x + 256 ^ k * (b - 128).
Proof.
  intros Hk Hx Hb. assert (256 ^ k = 2 ^ (8 * k)) as E. { rewrite Z.pow_mul_r by lia. done. }
  rewrite <- Z.ldiff_land, Z.shiftl_mul_pow2, <- E by lia.
  rewrite <- Z.sub_nocarry_ldiff; [lia|].
  change 0x80 with (2 ^ 7). rewrite E, <- Z.pow_add_r by lia.
  apply Z.bits_inj'. intros n Hn. rewrite Z.ldiff_spec, Z.bits_0.
  destruct (decide (n = 7 + 8 * k)) as [->|Hne]; [|by rewrite Z.pow2_bits_false by done].
  apply andb_false_iff. right. apply negb_false_iff.
  rewrite Z.testbit_true by lia. rewrite Z.pow_add_r, Z.mul_comm with (n := 2 ^ 7), <- Z.div_div by lia.
  replace ((x + 2 ^ (8 * k) * b) / 2 ^ (8 * k)) with b.
  2: { rewrite Z.mul_comm, Z.div_add, Z.div_small; lia. }
  change (2 ^ 7) with 128. assert (b / 128 = 1) as -> by div_lia. done.
Qed.

Lemma land_80 b : (Z.land (bval b) 0x80 =? 0) = (bval b <? 128).
Proof. by destruct b. Qed.

Lemma land_7f b : Z.land (bval b) 0x7f = bval b mod 128.
Proof. by destruct b. Qed.

Lemma lor_80 b : bval b < 128 -> Z.lor (bval b) 0x80 = bval b + 128.
Proof. by destruct b. Qed.

Lemma set_vch_snoc l b :
  set_vch (l ++ [b]) = (if bval b <? 128 then 1 else -1) * (le_val l + 256 ^ Zlength l * (bval b mod 128)).
Proof.
  unfold set_vch. rewrite last_snoc, land_80, or_bytes_val, le_val_snoc by lia.
  pose proof (le_val_range l) as Hl. fold (Zlength l) in Hl. pose proof (bval_range b) as Hb. pose proof (Zlength_nonneg l).
  replace (Zlength (l ++ [b]) - 1) with (Zlength l) by (rewrite Zlength_app; change (Zlength [b]) with 1; lia).
  rewrite Z.pow_0_r, Z.mul_1_r, Z.add_0_l. destruct (Z.ltb_spec (bval b) 128); cbn [negb].
  - rewrite Z.mod_small by lia. lia.
  - rewrite clear_top by lia. replace (bval b mod 128) with (bval b - 128) by div_lia. lia.
Qed.

(** The digits of a number with a leading one that is not zero. *)
Lemma abs_bytes_val fuel l b : (length l < fuel)%nat -> 0 < bval b -> abs_bytes fuel (le_val (l ++ [b])) = l ++ [b].
Proof.
  revert l. induction fuel as [|fuel IH]; intros l Hf Hb; [lia|]. pose proof (bval_range b).
  assert (0 < le_val (l ++ [b])) as Hpos.
  { rewrite le_val_snoc. pose proof (le_val_range l). pose proof (Zlength_nonneg l). nia. }
  cbn [abs_bytes]. destruct (Z.eqb_spec (le_val (l ++ [b])) 0); [lia|]. rewrite Z.shiftr_div_pow2 by lia. change (2 ^ 8) with 256.
  destruct l as [|c l]; cbn [app le_val].
  - rewrite Z.mul_0_r, Z.add_0_r, byte_of_bval. f_equal. rewrite Z.div_small by lia. by destruct fuel.
  - assert (byte_of (bval c + 256 * le_val (l ++ [b])) = c) as ->.
    { apply bval_inj. rewrite bval_byte_of. pose proof (bval_range c). div_lia. }
    f_equal. replace ((bval c + 256 * le_val (l ++ [b])) / 256) with (le_val (l ++ [b])) by (pose proof (bval_range c); div_lia).
    apply IH; [cbn in Hf; lia|done].
Qed.

Lemma digits_exist n a : 0 < a < 256 ^ Z.of_nat n ->
  exists l b, a = le_val (l ++ [b]) /\ 0 < bval b /\ (length l < n)%nat.
Proof.
  revert a. induction n as [|n IH]; intros a Ha; [cbn in Ha; lia|].
  destruct (Z.lt_ge_cases a 256).
  - exists [], (byte_of a). cbn [app le_val]. rewrite bval_byte_of_small by lia. cbn. split; [lia|]. lia.
  - destruct (IH (a / 256)) as (l & b & E & Hb & Hl).
    { rewrite Nat2Z.inj_succ, Z.pow_succ_r in Ha by lia. split; [div_lia|]. apply Z.div_lt_upper_bound; lia. }
    exists (byte_of a :: l), b. cbn [app le_val length]. rewrite <- E, bval_byte_of. split; [div_lia|]. split; [done|lia].
Qed.

Lemma serialize_digits v l b : Z.abs v = le_val (l ++ [b]) -> 0 < bval b -> (length l < 8)%nat ->
  CScriptNum_serialize v = l ++ sign_back (v <? 0) (bval b).
Proof.
  intros E Hb Hl. unfold CScriptNum_serialize.
  assert (0 < le_val (l ++ [b]) < 2 ^ 64) as Hr.
  { pose proof (le_val_range (l ++ [b])) as [H1 H2]. rewrite length_app in H2. change (2 ^ 64) with (256 ^ 8).
    assert (256 ^ Z.of_nat (length l + length [b]) <= 256 ^ 8) by (apply Z.pow_le_mono_r; cbn; lia).
    rewrite le_val_snoc in *. pose proof (le_val_range l). pose proof (Zlength_nonneg l). nia. }
  destruct (Z.eqb_spec v 0); [lia|].
  replace (if v <? 0 then - v else v) with (Z.abs v) by (destruct (Z.ltb_spec v 0); lia).
  rewrite E, wrapu_small, abs_bytes_val by (unfold uint_range; lia || done).
  unfold set_back. by rewrite last_snoc, removelast_last.
Qed.

(** What is read from digits with the sign put in. *)
Lemma CScriptNum_sign v l b n : Z.abs v = le_val (l ++ [b]) -> 0 < bval b ->
  Zlength (l ++ sign_back (v <? 0) (bval b)) <= n -> CScriptNum (l ++ sign_back (v <? 0) (bval b)) true n = Ok v.
Proof.
  intros E Hb Hn. unfold CScriptNum. destruct (Z.ltb_spec n (Zlength (l ++ sign_back (v <? 0) (bval b)))); [lia|]. clear H Hn.
  rewrite le_val_snoc in E. pose proof (bval_range b). pose proof (le_val_range l) as Hl. fold (Zlength l) in Hl.
  unfold sign_back. rewrite land_80. destruct (Z.ltb_spec (bval b) 128) as [Hlt|Hge]; cbn [negb].
  - assert (exists c, (if v <? 0 then [byte_of (Z.lor (bval b) 0x80)] else [byte_of (bval b)]) = [c] /\
      bval c = (if v <? 0 then bval b + 128 else bval b)) as (c & -> & Ec).
    { destruct (v <? 0); eexists; (split; [done|]); [rewrite lor_80 by done|]; apply bval_byte_of_small; lia. }
    rewrite last_snoc, land_7f, set_vch_snoc, Ec.
    assert ((if v <? 0 then bval b + 128 else bval b) mod 128 = bval b) as -> by (case_if; div_lia).
    destruct (Z.eqb_spec (bval b) 0); [lia|]. cbn [andb]. f_equal. destruct (Z.ltb_spec v 0).
    + destruct (Z.ltb_spec (bval b + 128) 128); lia.
    + destruct (Z.ltb_spec (bval b) 128); lia.
  - rewrite byte_of_bval. change [b; if v <? 0 then x80 else x00] with ([b] ++ [if v <? 0 then x80 else x00]).
    rewrite app_assoc, last_snoc, set_vch_snoc, le_val_snoc. unfold second_back. rewrite removelast_last, last_snoc. cbn [from_option id].
    rewrite land_80, land_7f, (proj2 (Z.ltb_ge (bval b) 128)) by lia.
    destruct (Z.leb_spec (Zlength ((l ++ [b]) ++ [if v <? 0 then x80 else x00])) 1) as [Hx|Hx].
    { rewrite !Zlength_app in Hx. pose proof (Zlength_nonneg l). unfold Zlength in Hx at 2 3. cbn in Hx. lia. }
    rewrite andb_false_r. f_equal. destruct (Z.ltb_spec v 0); cbv iota.
    + change (bval x80 mod 128) with 0. change (bval x80 <? 128) with false. cbv iota. lia.
    + change (bval x00 mod 128) with 0. change (bval x00 <? 128) with true. cbv iota. lia.
Qed.

Lemma abs_digits v : Z.abs v < 2 ^ 63 -> v <> 0 ->
  exists l b, Z.abs v = le_val (l ++ [b]) /\ 0 < bval b /\ (length l < 8)%nat /\ (128 <= bval b -> (length l < 7)%nat).
Proof.
  intros Hv H0. destruct (digits_exist 8 (Z.abs v)) as (l & b & E & Hb & Hl); [change (256 ^ Z.of_nat 8) with (2 ^ 64); lia|].
  exists l, b. split_and!; try done. intros Hge. destruct (decide (length l = 7%nat)) as [E7|]; [|lia].
  rewrite le_val_snoc in E. pose proof (le_val_range l). unfold Zlength in E. rewrite E7 in *.
  change (256 ^ Z.of_nat 7) with (2 ^ 56) in *. lia.
Qed.

(** The form with a top byte [back]: its low bits are not all zero, or it only holds the
    sign of digits whose top bit is taken. *)
Lemma canonical_snoc l back : (length l < 8)%nat ->
  (bval back mod 128 = 0 -> exists l' d, l = l' ++ [d] /\ 128 <= bval d) ->
  CScriptNum_serialize ((if bval back <? 128 then 1 else -1) * (le_val l + 256 ^ Zlength l * (bval back mod 128))) = l ++ [back].
Proof.
  intros Hl Hmin. pose proof (bval_range back). pose proof (le_val_range l). pose proof (Zlength_nonneg l).
  set (v := _ * _). destruct (decide (bval back mod 128 = 0)) as [E|E].
  - destruct (Hmin E) as (l' & d & -> & Hd). rewrite length_app in Hl. cbn in Hl.
    pose proof (le_val_range l'). rewrite le_val_snoc in *. pose proof (Zlength_nonneg l').
    assert (0 < 256 ^ Zlength l') by lia.
    assert (0 < le_val l' + 256 ^ Zlength l' * bval d) as Hpos by nia.
    assert (v = (if bval back <? 128 then 1 else -1) * (le_val l' + 256 ^ Zlength l' * bval d)) as Ev.
    { unfold v. by rewrite E, ?le_val_snoc, Z.mul_0_r, Z.add_0_r. }
    rewrite (serialize_digits v l' d); [|rewrite le_val_snoc, Ev; case_if; lia|lia|lia].
    unfold sign_back. rewrite land_80, (proj2 (Z.ltb_ge _ _)), byte_of_bval, <- app_assoc by done. cbn [negb app]. do 3 f_equal.
    apply bval_inj. destruct (Z.ltb_spec (bval back) 128).
    + assert (bval back = 0) as -> by div_lia. rewrite (proj2 (Z.ltb_ge v 0)); [done|lia].
    + assert (bval back = 128) as -> by div_lia. rewrite (proj2 (Z.ltb_lt v 0)); [done|lia].
  - assert (0 < bval back mod 128 < 128) as Hm by (pose proof (Z.mod_pos_bound (bval back) 128); lia).
    assert (0 < 256 ^ Zlength l) by lia.
    assert (bval (byte_of (bval back mod 128)) = bval back mod 128) as Eb by (apply bval_byte_of_small; lia).
    assert (0 < le_val l + 256 ^ Zlength l * (bval back mod 128)) as Hpos by nia.
    rewrite (serialize_digits v l (byte_of (bval back mod 128))); [|rewrite le_val_snoc, Eb; unfold v; case_if; lia|lia|lia].
    f_equal. unfold sign_back. rewrite land_80, lor_80, Eb, (proj2 (Z.ltb_lt _ 128)) by lia. cbn [negb].
    destruct (Z.ltb_spec (bval back) 128).
    + rewrite (proj2 (Z.ltb_ge v 0)) by (unfold v; lia). f_equal. rewrite Z.mod_small by lia. apply byte_of_bval.
    + rewrite (proj2 (Z.ltb_lt v 0)) by (unfold v; lia). f_equal.
      replace (bval back mod 128 + 128) with (bval back) by div_lia. apply byte_of_bval.
Qed.

(** The encoding of a number of less than 63 bits reads back as the number and is
    accepted as minimal; conversely an encoding of at most eight bytes accepted as
    minimal is the one the number is given. *)
Theorem scriptnum_canonical n : 0 <= n <= 8 ->
  (forall v, Z.abs v < 2 ^ 63 -> Zlength (CScriptNum_serialize v) <= n -> CScriptNum (CScriptNum_serialize v) true n = Ok v) /\
  (forall v, Z.abs v < 2 ^ 63 -> Zlength (CScriptNum_serialize v) <= 8) /\
  (forall vch v, CScriptNum vch true n = Ok v -> CScriptNum_serialize v = vch).
Proof.
  intros Hn. split; [|split].
  - intros v Hv Hlen. destruct (decide (v = 0)) as [->|Hv0].
    { unfold CScriptNum. by destruct (Z.ltb_spec n (Zlength (CScriptNum_serialize 0))); [lia|]. }
    destruct (abs_digits v) as (l & b & E & Hb & Hl & _); [lia|done|].
    rewrite (serialize_digits v l b) in * by done. by apply CScriptNum_sign.
  - intros v Hv. destruct (decide (v = 0)) as [->|Hv0]; [done|].
    destruct (abs_digits v) as (l & b & E & Hb & Hl & Htop); [lia|done|].
    rewrite (serialize_digits v l b) by done. unfold sign_back. rewrite land_80, Zlength_app.
    destruct (Z.ltb_spec (bval b) 128) as [H|H]; cbn [negb].
    + assert (Zlength (if v <? 0 then [byte_of (Z.lor (bval b) 128)] else [byte_of (bval b)]) = 1) as -> by by case_if.
      unfold Zlength. lia.
    + change (Zlength [_; _]) with 2. specialize (Htop H). unfold Zlength. lia.
  - intros vch v. unfold CScriptNum. destruct (Z.ltb_spec n (Zlength vch)) as [|Hlen]; [done|].
    destruct (last vch) as [back|] eqn:Eb.
    2: { apply last_None in Eb as ->. by intros [= <-]. }
    apply last_Some in Eb as [l ->]. rewrite land_7f, Zlength_app in *. change (Zlength [back]) with 1 in *.
    match goal with |- context [if ?c then _ else _] => destruct c eqn:Ec end; [done|]. intros [= <-]. rewrite set_vch_snoc. pose proof (Zlength_nonneg l).
    apply canonical_snoc; [unfold Zlength in *; lia|]. unfold second_back in Ec. rewrite removelast_last in Ec. cbn [andb] in Ec.
    intros E0. rewrite E0 in Ec. cbn [Z.eqb andb] in Ec. apply orb_false_iff in Ec as [E1 E2]. apply Z.leb_gt in E1.
    destruct (last l) as [d|] eqn:Ed; [|apply last_None in Ed as ->; unfold Zlength in E1; cbn in E1; lia].
    apply last_Some in Ed as [l' ->]. exists l', d. split; [done|]. cbn [from_option id] in E2.
    rewrite land_80 in E2. by apply Z.ltb_ge in E2.
Qed.

Lemma scriptnum_canonical_witness :
  CScriptNum (CScriptNum_serialize (-255)) true 4 = Ok (-255) /\ CScriptNum_serialize (-255) = [xff; x80].
Proof.
  destruct (scriptnum_canonical 4 ltac:(lia)) as (H1 & _ & H2). split.
  - apply H1; [reflexivity|vm_compute; discriminate].
  - apply H2. reflexivity.
Defined.
