(* ===== verification/Coins.v ===== *)
(** * The set of unspent outputs (topchain/src/coins.h, coins.cpp, txdb.cpp)

    A view of the coins is something that answers [GetCoin], names its best block and
    takes batches of changes. The interface [CoinsView] has the operations,
    [CoinsViewSpec] what they promise in terms of the set of unspent coins a view
    represents. The database and the cache over any view implement it; the memory
    accounting of the cache ([cachedCoinsUsage]) is not modelled. An operation gives
    [None] where the source throws or an assertion fails. *)

From S2P Require Import Prelude Serialize Sha256 Primitives Script.

(** ** Coins *)

Definition CTxOut_SetNull : CTxOut := mkTxOut (-1) [].
Definition CTxOut_IsNull (out : CTxOut) : bool := nValue out =? -1.

Record Coin := mkCoin { c_out : CTxOut; c_fCoinBase : bool; c_nHeight : Z }.

#[global] Instance Coin_eq_dec : EqDecision Coin.
Proof. solve_decision. Defined.

(** The height is a bit field of 31 bits. *)
Definition Coin_of (outIn : CTxOut) (nHeightIn : Z) (fCoinBaseIn : bool) : Coin :=
  mkCoin outIn fCoinBaseIn (wrapu 31 nHeightIn).
Definition Coin_Clear : Coin := mkCoin CTxOut_SetNull false 0.
Definition IsSpent (c : Coin) : bool := CTxOut_IsNull (c_out c).

Record CCoinsCacheEntry := mkEntry { e_coin : Coin; e_dirty : bool; e_fresh : bool }.

(** ** Views *)

Class CoinsView (V : Type) := {
  view_GetCoin : COutPoint -> V -> V * option Coin;
  view_GetBestBlock : V -> V * uint256;
  view_BatchWrite : list (COutPoint * CCoinsCacheEntry) -> uint256 -> V -> option (V * bool)
}.

(** *** The cache *)

Record CCoinsViewCache (V : Type) := mkCache {
  cc_base : V;
  cc_hashBlock : uint256;
  cc_coins : gmap COutPoint CCoinsCacheEntry
}.
Arguments mkCache {V}.
Arguments cc_base {V}.
Arguments cc_hashBlock {V}.
Arguments cc_coins {V}.

Section cache.
Context {V : Type} `{CoinsView V}.
Abbreviation cache := (CCoinsViewCache V).

Definition CCoinsViewCache_new (base : V) : cache := mkCache base uint256_zero ∅.
Definition set_coins (m : gmap COutPoint CCoinsCacheEntry) (c : cache) : cache :=
  mkCache (cc_base c) (cc_hashBlock c) m.
Definition set_base (base : V) (c : cache) : cache := mkCache base (cc_hashBlock c) (cc_coins c).

Definition FetchCoin (outpoint : COutPoint) (c : cache) : cache * option CCoinsCacheEntry :=
  match cc_coins c !! outpoint with
  | Some e => (c, Some e)
  | None =>
      let '(base, tmp) := view_GetCoin outpoint (cc_base c) in
      let c := set_base base c in
      match tmp with
      | None => (c, None)
      | Some tmp =>
          let e := mkEntry tmp false (IsSpent tmp) in
          (set_coins (<[outpoint := e]> (cc_coins c)) c, Some e)
      end
  end.

Definition GetCoin (outpoint : COutPoint) (c : cache) : cache * option Coin :=
  let '(c, it) := FetchCoin outpoint c in
  match it with
  | Some e => (c, if IsSpent (e_coin e) then None else Some (e_coin e))
  | None => (c, None)
  end.

Definition AddCoin (outpoint : COutPoint) (coin : Coin) (possible_overwrite : bool) (c : cache) : option cache :=
  if IsSpent coin then None
  else if IsUnspendable (scriptPubKey (c_out coin)) then Some c
  else
    let it := default (mkEntry Coin_Clear false false) (cc_coins c !! outpoint) in
    if negb possible_overwrite && negb (IsSpent (e_coin it)) then None
    else
      let fresh := if possible_overwrite then false else negb (e_dirty it) in
      Some (set_coins (<[outpoint := mkEntry coin true (e_fresh it || fresh)]> (cc_coins c)) c).

(** The coin moved out, if the function returns true. *)
Definition SpendCoin (outpoint : COutPoint) (c : cache) : cache * option Coin :=
  let '(c, it) := FetchCoin outpoint c in
  match it with
  | None => (c, None)
  | Some e =>
      (if e_fresh e then set_coins (delete outpoint (cc_coins c)) c
       else set_coins (<[outpoint := mkEntry Coin_Clear true (e_fresh e)]> (cc_coins c)) c,
       Some (e_coin e))
  end.

Definition AccessCoin (outpoint : COutPoint) (c : cache) : cache * Coin :=
  let '(c, it) := FetchCoin outpoint c in
  (c, match it with Some e => e_coin e | None => Coin_Clear end).

Definition HaveCoin (outpoint : COutPoint) (c : cache) : cache * bool :=
  let '(c, it) := FetchCoin outpoint c in
  (c, match it with Some e => negb (IsSpent (e_coin e)) | None => false end).

Definition HaveCoinInCache (outpoint : COutPoint) (c : cache) : bool :=
  match cc_coins c !! outpoint with Some e => negb (IsSpent (e_coin e)) | None => false end.

Definition GetBestBlock (c : cache) : cache * uint256 :=
  if uint256_IsNull (cc_hashBlock c) then
    let '(base, h) := view_GetBestBlock (cc_base c) in (mkCache base h (cc_coins c), h)
  else (c, cc_hashBlock c).

Definition SetBestBlock (hashBlockIn : uint256) (c : cache) : cache := mkCache (cc_base c) hashBlockIn (cc_coins c).

(** What [BatchWrite] does with one entry of the child. *)
Definition BatchWrite_entry (x : COutPoint * CCoinsCacheEntry) (m : gmap COutPoint CCoinsCacheEntry)
  : option (gmap COutPoint CCoinsCacheEntry) :=
  let '(o, e) := x in
  if e_dirty e then
    match m !! o with
    | None =>
        if negb (e_fresh e && IsSpent (e_coin e)) then Some (<[o := mkEntry (e_coin e) true (e_fresh e)]> m) else Some m
    | Some us =>
        if e_fresh e && negb (IsSpent (e_coin us)) then None
        else if e_fresh us && IsSpent (e_coin e) then Some (delete o m)
        else Some (<[o := mkEntry (e_coin e) true (e_fresh us)]> m)
    end
  else Some m.

Fixpoint BatchWrite_loop (mapCoins : list (COutPoint * CCoinsCacheEntry)) (m : gmap COutPoint CCoinsCacheEntry)
  : option (gmap COutPoint CCoinsCacheEntry) :=
  match mapCoins with
  | [] => Some m
  | x :: mapCoins => m ← BatchWrite_entry x m; BatchWrite_loop mapCoins m
  end.

Definition BatchWrite (mapCoins : list (COutPoint * CCoinsCacheEntry)) (hashBlockIn : uint256) (c : cache)
  : option (cache * bool) :=
  m ← BatchWrite_loop mapCoins (cc_coins c); Some (mkCache (cc_base c) hashBlockIn m, true).

Definition Flush (c : cache) : option (cache * bool) :=
  '(base, fOk) ← view_BatchWrite (map_to_list (cc_coins c)) (cc_hashBlock c) (cc_base c);
  Some (mkCache base (cc_hashBlock c) ∅, fOk).

Definition Uncache (outpoint : COutPoint) (c : cache) : cache :=
  match cc_coins c !! outpoint with
  | Some e => if negb (e_dirty e) && negb (e_fresh e) then set_coins (delete outpoint (cc_coins c)) c else c
  | None => c
  end.

Definition GetCacheSize (c : cache) : Z := u32 (Z.of_nat (size (cc_coins c))).

(** *** Operations of whole transactions *)

Fixpoint GetValueIn_loop (ins : list CTxIn) (nResult : Z) (c : cache) : cache * Z :=
  match ins with
  | [] => (c, nResult)
  | i :: ins =>
      let '(c, coin) := AccessCoin (prevout i) c in
      GetValueIn_loop ins (i64 (nResult + nValue (c_out coin))) c
  end.
Definition GetValueIn (tx : CTransaction) (c : cache) : cache * Z :=
  if IsCoinBase tx then (c, 0) else GetValueIn_loop (vin tx) 0 c.

Fixpoint HaveInputs_loop (ins : list CTxIn) (c : cache) : cache * bool :=
  match ins with
  | [] => (c, true)
  | i :: ins =>
      let '(c, have) := HaveCoin (prevout i) c in
      if negb have then (c, false) else HaveInputs_loop ins c
  end.
Definition HaveInputs (tx : CTransaction) (c : cache) : cache * bool :=
  if negb (IsCoinBase tx) then HaveInputs_loop (vin tx) c else (c, true).

(** [outs] are the outputs from index [i] on. *)
Fixpoint AddCoins_loop (txid : uint256) (fCoinbase : bool) (nHeight : Z) (check : bool) (i : Z) (outs : list CTxOut)
    (c : cache) : option cache :=
  match outs with
  | [] => Some c
  | out :: outs =>
      let o := mkOutPoint txid (u32 i) in
      let '(c, overwrite) := if check then HaveCoin o c else (c, fCoinbase) in
      c ← AddCoin o (Coin_of out nHeight fCoinbase) overwrite c;
      AddCoins_loop txid fCoinbase nHeight check (i + 1) outs c
  end.
Definition AddCoins (tx : CTransactionRef) (nHeight : Z) (check : bool) (c : cache) : option cache :=
  AddCoins_loop (ref_hash tx) (IsCoinBase (ref_tx tx)) nHeight check 0 (vout (ref_tx tx)) c.

Definition WITNESS_SCALE_FACTOR : Z := 4.
Definition MAX_BLOCK_WEIGHT : Z := 4000000.
Definition MIN_TRANSACTION_OUTPUT_WEIGHT : Z := WITNESS_SCALE_FACTOR * Zlength (Serialize_txout CTxOut_SetNull).
Definition MAX_OUTPUTS_PER_BLOCK : Z := MAX_BLOCK_WEIGHT / MIN_TRANSACTION_OUTPUT_WEIGHT.

(** The loop over the output numbers, [fuel] of them left. *)
Fixpoint AccessByTxid_loop (fuel : nat) (txid : uint256) (n : Z) (c : cache) : cache * Coin :=
  match fuel with
  | O => (c, Coin_Clear)
  | S fuel =>
      let '(c, alternate) := AccessCoin (mkOutPoint txid n) c in
      if negb (IsSpent alternate) then (c, alternate) else AccessByTxid_loop fuel txid (n + 1) c
  end.
Definition AccessByTxid (txid : uint256) (c : cache) : cache * Coin :=
  AccessByTxid_loop (Z.to_nat MAX_OUTPUTS_PER_BLOCK) txid 0 c.
End cache.

#[global] Instance cache_view V `{CoinsView V} : CoinsView (CCoinsViewCache V) := {
  view_GetCoin := GetCoin;
  view_GetBestBlock := GetBestBlock;
  view_BatchWrite := BatchWrite
}.

(** *** The database *)

(** [db_best_block] and [db_head_blocks] are the records [DB_BEST_BLOCK] and
    [DB_HEAD_BLOCKS]; [db_batch_full] tells of the operations collected in a batch
    whether their estimated size is above [-dbbatchsize]. *)
Inductive db_op :=
  | write_coin (o : COutPoint) (c : Coin)
  | erase_coin (o : COutPoint)
  | write_best (h : uint256)
  | erase_best
  | write_heads (hs : list uint256)
  | erase_heads.

Record CCoinsViewDB := mkCoinsDB {
  db_coins : gmap COutPoint Coin;
  db_best_block : option uint256;
  db_head_blocks : option (list uint256);
  db_batch_full : list db_op -> bool
}.

Definition db_apply (db : CCoinsViewDB) (op : db_op) : CCoinsViewDB :=
  let '(mkCoinsDB coins best heads full) := db in
  match op with
  | write_coin o c => mkCoinsDB (<[o := c]> coins) best heads full
  | erase_coin o => mkCoinsDB (delete o coins) best heads full
  | write_best h => mkCoinsDB coins (Some h) heads full
  | erase_best => mkCoinsDB coins None heads full
  | write_heads hs => mkCoinsDB coins best (Some hs) full
  | erase_heads => mkCoinsDB coins best None full
  end.

(** [WriteBatch] applies the whole batch. *)
Definition db_write (db : CCoinsViewDB) (batch : list db_op) : CCoinsViewDB := fold_left db_apply batch db.

Definition db_GetCoin (o : COutPoint) (db : CCoinsViewDB) : CCoinsViewDB * option Coin := (db, db_coins db !! o).
Definition db_GetBestBlock (db : CCoinsViewDB) : uint256 := default uint256_zero (db_best_block db).
Definition db_GetHeadBlocks (db : CCoinsViewDB) : list uint256 := default [] (db_head_blocks db).

(** The tip the transition starts from. *)
Definition db_old_tip (hashBlock : uint256) (db : CCoinsViewDB) : option uint256 :=
  let old_tip := db_GetBestBlock db in
  if uint256_IsNull old_tip then
    match db_GetHeadBlocks db with
    | [new; old] => if bool_decide (new = hashBlock) then Some old else None
    | _ => Some old_tip
    end
  else Some old_tip.

Definition db_entry_op (x : COutPoint * CCoinsCacheEntry) : list db_op :=
  let '(o, e) := x in
  if e_dirty e then [if IsSpent (e_coin e) then erase_coin o else write_coin o (e_coin e)] else [].

(** The batches written one after the other; [batch] is the one being filled. *)
Fixpoint db_batches (full : list db_op -> bool) (mapCoins : list (COutPoint * CCoinsCacheEntry)) (hashBlock : uint256)
    (batch : list db_op) {struct mapCoins} : list (list db_op) :=
  match mapCoins with
  | [] => [batch ++ [erase_heads; write_best hashBlock]]
  | x :: mapCoins =>
      let batch := batch ++ db_entry_op x in
      if full batch then batch :: db_batches full mapCoins hashBlock []
      else db_batches full mapCoins hashBlock batch
  end.

Definition BatchWrite_batches (mapCoins : list (COutPoint * CCoinsCacheEntry)) (hashBlock : uint256) (db : CCoinsViewDB)
  : option (list (list db_op)) :=
  if uint256_IsNull hashBlock then None
  else
    old_tip ← db_old_tip hashBlock db;
    Some (db_batches (db_batch_full db) mapCoins hashBlock [erase_best; write_heads [hashBlock; old_tip]]).

Definition db_BatchWrite (mapCoins : list (COutPoint * CCoinsCacheEntry)) (hashBlock : uint256) (db : CCoinsViewDB)
  : option (CCoinsViewDB * bool) :=
  batches ← BatchWrite_batches mapCoins hashBlock db; Some (fold_left db_write batches db, true).

#[global] Instance db_view : CoinsView CCoinsViewDB := {
  view_GetCoin := db_GetCoin;
  view_GetBestBlock db := (db, db_GetBestBlock db);
  view_BatchWrite := db_BatchWrite
}.

(** ** What a view promises *)

(** A set of unspent coins. *)
Abbreviation utxos := (COutPoint -> option Coin).

Definition unspent (c : Coin) : option Coin := if IsSpent c then None else Some c.

(** The set after the changes of a batch. *)
Definition apply_batch (l : list (COutPoint * CCoinsCacheEntry)) (M : utxos) : utxos := fun o =>
  match (list_to_map l : gmap COutPoint CCoinsCacheEntry) !! o with
  | Some e => if e_dirty e then unspent (e_coin e) else M o
  | None => M o
  end.

(** The entries marked fresh are not in the set the batch is for. *)
Definition batch_ok (M : utxos) (l : list (COutPoint * CCoinsCacheEntry)) : Prop :=
  Forall (fun x => e_dirty x.2 = true -> e_fresh x.2 = true -> M x.1 = None) l.

Class CoinsViewSpec (V : Type) `{CoinsView V} := {
  view_ok : V -> Prop;
  contents : V -> utxos;
  best : V -> uint256;
  contents_unspent v o c : view_ok v -> contents v o = Some c -> IsSpent c = false;
  view_GetCoin_spec v o : view_ok v ->
    exists v', view_GetCoin o v = (v', contents v o) /\ view_ok v' /\ best v' = best v /\
      forall o', contents v' o' = contents v o';
  view_GetBestBlock_spec v : view_ok v ->
    exists v', view_GetBestBlock v = (v', best v) /\ view_ok v' /\ best v' = best v /\
      forall o', contents v' o' = contents v o';
  view_BatchWrite_spec v l h : view_ok v -> uint256_IsNull h = false -> NoDup l.*1 -> batch_ok (contents v) l ->
    exists v', view_BatchWrite l h v = Some (v', true) /\ view_ok v' /\ best v' = h /\
      forall o, contents v' o = apply_batch l (contents v) o
}.

(** Two states of a view represent the same. *)
Definition same_view {V} `{CoinsViewSpec V} (v v' : V) : Prop :=
  best v' = best v /\ forall o, contents v' o = contents v o.

#[global] Instance same_view_equiv {V} `{CoinsViewSpec V} : Equivalence (same_view (V := V)).
Proof.
  split.
  - by intros v.
  - intros v v' [E F]. split; [done|]. intros o. by rewrite F.
  - intros v1 v2 v3 [E1 F1] [E2 F2]. split; [congruence|]. intros o. by rewrite F2, F1.
Qed.

Lemma apply_batch_cons o e l M o' : o ∉ l.*1 ->
  apply_batch ((o, e) :: l) M o' =
  apply_batch l (fun o' => if bool_decide (o' = o) && e_dirty e then unspent (e_coin e) else M o') o'.
Proof.
  intros Hno. unfold apply_batch. cbn [list_to_map foldr curry fst snd].
  destruct (decide (o' = o)) as [->|Hne].
  - rewrite lookup_insert_eq, not_elem_of_list_to_map_1 by done.
    by rewrite bool_decide_eq_true_2.
  - rewrite lookup_insert_ne by done. by rewrite bool_decide_eq_false_2.
Qed.

Lemma apply_batch_ext l M M' o : (forall o, M o = M' o) -> apply_batch l M o = apply_batch l M' o.
Proof. intros E. unfold apply_batch. rewrite E. done. Qed.

(** *** The database keeps the promise *)

Definition db_ok (db : CCoinsViewDB) : Prop :=
  db_head_blocks db = None /\ map_Forall (fun _ c => IsSpent c = false) (db_coins db).

Lemma db_batches_concat full l h batch :
  concat (db_batches full l h batch) = batch ++ concat (db_entry_op <$> l) ++ [erase_heads; write_best h].
Proof.
  revert batch. induction l as [|x l IH]; intros batch; cbn [db_batches concat fmap list_fmap app].
  - by rewrite app_nil_r.
  - case_if; cbn [concat]; rewrite IH; cbn [app]; by rewrite <- ?app_assoc.
Qed.

Lemma db_writes_concat batches db : fold_left db_write batches db = fold_left db_apply (concat batches) db.
Proof.
  revert db. induction batches as [|b bs IH]; intros db; cbn [fold_left concat]; [done|].
  by rewrite fold_left_app, IH.
Qed.

(** The operations of the entries change the coins only. *)
Lemma db_entries_spec l db : NoDup l.*1 -> db_ok (fold_left db_apply [erase_heads] db) ->
  exists coins, fold_left db_apply (concat (db_entry_op <$> l)) db =
      mkCoinsDB coins (db_best_block db) (db_head_blocks db) (db_batch_full db) /\
    map_Forall (fun _ c => IsSpent c = false) coins /\
    forall o, coins !! o = apply_batch l (fun o => db_coins db !! o) o.
Proof.
  revert db. induction l as [|[o e] l IH]; intros db Hnd Hok.
  - exists (db_coins db). destruct db; by destruct Hok.
  - apply NoDup_cons in Hnd as [Hno Hnd].
    cbn [fmap list_fmap concat]. rewrite fold_left_app.
    destruct (IH (fold_left db_apply (db_entry_op (o, e)) db) Hnd) as (coins & E & Hun & Hlook).
    { destruct Hok as [_ Hun]. destruct db as [coins ? ? ?]. unfold db_entry_op.
      destruct (e_dirty e); [|done]. destruct (IsSpent (e_coin e)) eqn:Es; (split; [done|]).
      - by apply map_Forall_delete.
      - by apply map_Forall_insert_2. }
    exists coins. split; [|split; [done|]].
    { rewrite E. destruct db. unfold db_entry_op. repeat case_match; done. }
    intros o'. rewrite Hlook, apply_batch_cons by done. apply apply_batch_ext. clear o'. intros o'.
    destruct db as [m ? ? ?]. unfold db_entry_op, unspent.
    destruct (e_dirty e), (decide (o' = o)) as [->|Hne]; cbn.
    + rewrite bool_decide_eq_true_2 by done. destruct (IsSpent (e_coin e)); cbn.
      * apply lookup_delete_eq.
      * apply lookup_insert_eq.
    + rewrite bool_decide_eq_false_2 by done. destruct (IsSpent (e_coin e)); cbn.
      * by apply lookup_delete_ne.
      * by apply lookup_insert_ne.
    + by rewrite andb_false_r.
    + by rewrite andb_false_r.
Qed.

Lemma db_old_tip_ok h db : db_ok db -> db_old_tip h db = Some (db_GetBestBlock db).
Proof. intros [E _]. unfold db_old_tip, db_GetHeadBlocks. rewrite E. cbn. by case_if. Qed.

Lemma db_BatchWrite_spec db l h old : map_Forall (fun _ c => IsSpent c = false) (db_coins db) ->
  db_old_tip h db = Some old -> uint256_IsNull h = false -> NoDup l.*1 ->
  exists db', db_BatchWrite l h db = Some (db', true) /\ db_ok db' /\ db_best_block db' = Some h /\
    forall o, db_coins db' !! o = apply_batch l (fun o => db_coins db !! o) o.
Proof.
  intros Hok Ho Hh Hnd. unfold db_BatchWrite, BatchWrite_batches. rewrite Hh, Ho. cbn [mbind option_bind].
  rewrite db_writes_concat, db_batches_concat, !fold_left_app.
  edestruct (db_entries_spec l (fold_left db_apply [erase_best; write_heads [h; old]] db))
    as (coins & -> & Hun & Hlook); [done|by destruct db|].
  eexists. split; [done|]. cbn. split; [done|]. split; [done|].
  intros o. rewrite Hlook. by destruct db.
Qed.

#[global] Instance db_view_spec : CoinsViewSpec CCoinsViewDB.
Proof.
  refine {| view_ok := db_ok; contents db o := db_coins db !! o; best := db_GetBestBlock |}.
  - intros db o c [_ H]. apply H.
  - intros db o Hok. by exists db.
  - intros db Hok. by exists db.
  - intros db l h Hok Hh Hnd _. 
    destruct (db_BatchWrite_spec db l h _ (proj2 Hok) (db_old_tip_ok h db Hok) Hh Hnd) as (db' & E & Hok' & Hb & Hl).
    exists db'. split; [exact E|]. split; [done|]. split; [|done]. unfold db_GetBestBlock. by rewrite Hb.
Defined.

(** *** The cache keeps the promise *)

Section cache_spec.
Context {V : Type} `{CoinsViewSpec V}.
Abbreviation cache := (CCoinsViewCache V).

(** What the entries [m] over a base with coins [B] represent, and what their flags
    say of the base. *)
Definition entries_contents (m : gmap COutPoint CCoinsCacheEntry) (B : utxos) : utxos := fun o =>
  match m !! o with Some e => unspent (e_coin e) | None => B o end.

Definition entry_ok (B : utxos) (o : COutPoint) (e : CCoinsCacheEntry) : Prop :=
  (e_fresh e = true -> B o = None) /\ (e_dirty e = false -> unspent (e_coin e) = B o).

Definition cache_ok (c : cache) : Prop :=
  view_ok (cc_base c) /\ map_Forall (entry_ok (contents (cc_base c))) (cc_coins c).
Definition cache_contents (c : cache) : utxos := entries_contents (cc_coins c) (contents (cc_base c)).
Definition cache_best (c : cache) : uint256 :=
  if uint256_IsNull (cc_hashBlock c) then best (cc_base c) else cc_hashBlock c.

Lemma unspent_Some c c' : unspent c = Some c' -> c' = c /\ IsSpent c = false.
Proof. unfold unspent. case_if; naive_solver. Qed.

Lemma entries_contents_ext m B B' o : (forall o, B o = B' o) -> entries_contents m B o = entries_contents m B' o.
Proof. intros E. unfold entries_contents. by rewrite E. Qed.

Lemma entry_ok_ext B B' o e : (forall o, B o = B' o) -> entry_ok B o e -> entry_ok B' o e.
Proof. intros E. unfold entry_ok. by rewrite E. Qed.

Lemma entries_contents_insert m B o e o' :
  entries_contents (<[o := e]> m) B o' = if bool_decide (o' = o) then unspent (e_coin e) else entries_contents m B o'.
Proof.
  unfold entries_contents. case_bool_decide as E; [subst o'|].
  - by rewrite lookup_insert_eq.
  - by rewrite lookup_insert_ne.
Qed.

Lemma entries_contents_delete m B o o' :
  entries_contents (delete o m) B o' = if bool_decide (o' = o) then B o else entries_contents m B o'.
Proof.
  unfold entries_contents. case_bool_decide as E; [subst o'|].
  - by rewrite lookup_delete_eq.
  - by rewrite lookup_delete_ne.
Qed.

Lemma cache_contents_unspent c o coin : cache_ok c -> cache_contents c o = Some coin -> IsSpent coin = false.
Proof.
  intros [Hv _]. unfold cache_contents, entries_contents. case_match; [|by apply contents_unspent].
  intros [-> ?]%unspent_Some. done.
Qed.

(** The effect of a function on the state, as far as a client can tell. *)
Definition cache_same (c c' : cache) : Prop :=
  cache_best c' = cache_best c /\ forall o, cache_contents c' o = cache_contents c o.

Lemma FetchCoin_spec o c : cache_ok c ->
  exists c' it, FetchCoin o c = (c', it) /\ cache_ok c' /\ cache_same c c' /\ cc_coins c' !! o = it /\
    match it with Some e => cache_contents c o = unspent (e_coin e) | None => cache_contents c o = None end.
Proof.
  intros [Hv Hm]. unfold FetchCoin. destruct (cc_coins c !! o) as [e|] eqn:E.
  - exists c, (Some e). split_and!; try done. unfold cache_contents, entries_contents. by rewrite E.
  - destruct (view_GetCoin_spec (cc_base c) o Hv) as (v' & -> & Hv' & Hb & Hc).
    assert (cache_contents c o = contents (cc_base c) o) as E0.
    { unfold cache_contents, entries_contents. by rewrite E. }
    assert (map_Forall (entry_ok (contents v')) (cc_coins c)) as Hm'.
    { intros o' e' He'. eapply entry_ok_ext; [|by apply Hm]. intros. by rewrite Hc. }
    destruct (contents (cc_base c) o) as [coin|] eqn:Ec.
    + assert (unspent coin = Some coin) as Eu.
      { unfold unspent. by rewrite (contents_unspent (cc_base c) o coin). }
      eexists _, _. split; [done|]. split; [|split; [split|split]].
      * split; [done|]. cbn. apply map_Forall_insert_2; [|done]. unfold entry_ok. cbn.
        rewrite Hc, Ec, Eu, (contents_unspent (cc_base c) o coin) by done. done.
      * unfold cache_best. cbn. by rewrite Hb.
      * intros o'. unfold cache_contents. cbn. rewrite entries_contents_insert. case_bool_decide; [subst o'|].
        -- cbn. rewrite Eu. symmetry. exact E0.
        -- by apply entries_contents_ext.
      * apply lookup_insert_eq.
      * cbn. by rewrite E0, Eu.
    + eexists _, _. split; [done|]. split; [done|]. split; [split|split]; try done.
      * unfold cache_best. cbn. by rewrite Hb.
      * intros o'. by apply entries_contents_ext.
Qed.

Lemma GetCoin_spec o c : cache_ok c ->
  exists c', GetCoin o c = (c', cache_contents c o) /\ cache_ok c' /\ cache_same c c'.
Proof.
  intros Hok. destruct (FetchCoin_spec o c Hok) as (c' & it & E & Hok' & Hs & _ & Hit).
  exists c'. unfold GetCoin. rewrite E. destruct it; by rewrite Hit.
Qed.

Lemma HaveCoin_spec o c : cache_ok c ->
  exists c', HaveCoin o c = (c', bool_decide (is_Some (cache_contents c o))) /\ cache_ok c' /\ cache_same c c'.
Proof.
  intros Hok. destruct (FetchCoin_spec o c Hok) as (c' & it & E & Hok' & Hs & _ & Hit).
  exists c'. unfold HaveCoin. rewrite E. split; [|done]. f_equal. destruct it; rewrite Hit; [|done].
  unfold unspent. by case_if.
Qed.

(** An entry that is spent may be there, so [AccessCoin] gives some spent coin for an
    absent one, not always the empty one. *)
Lemma AccessCoin_spec o c : cache_ok c ->
  exists c' coin, AccessCoin o c = (c', coin) /\ unspent coin = cache_contents c o /\ cache_ok c' /\ cache_same c c'.
Proof.
  intros Hok. destruct (FetchCoin_spec o c Hok) as (c' & it & E & Hok' & Hs & _ & Hit).
  unfold AccessCoin. rewrite E. eexists _, _. split; [done|]. split; [|done]. destruct it; by rewrite Hit.
Qed.

(** Spending removes the coin from the set. *)
Lemma SpendCoin_spec o c : cache_ok c ->
  exists c' r, SpendCoin o c = (c', r) /\ cache_ok c' /\ cache_best c' = cache_best c /\
    (r ≫= unspent) = cache_contents c o /\
    forall o', cache_contents c' o' = if bool_decide (o' = o) then None else cache_contents c o'.
Proof.
  intros Hok. destruct (FetchCoin_spec o c Hok) as (c' & it & E & [Hv' Hm'] & [Hb Hc] & Hl & Hit).
  unfold SpendCoin. rewrite E. destruct it as [e|].
  - destruct (Hm' _ _ Hl) as [Hf Hd]. eexists _, _. split; [done|]. split; [|split; [|split]].
    + destruct (e_fresh e) eqn:Ef; (split; [done|]); cbn.
      * by apply map_Forall_delete.
      * by apply map_Forall_insert_2.
    + rewrite <- Hb. by destruct (e_fresh e).
    + by rewrite Hit.
    + intros o'. rewrite <- Hc. destruct (e_fresh e) eqn:Ef; unfold cache_contents; cbn.
      * rewrite entries_contents_delete. case_bool_decide; [|done]. by apply Hf.
      * rewrite entries_contents_insert. by case_bool_decide.
  - exists c', None. split; [done|]. split; [done|]. split; [done|]. split; [done|].
    intros o'. rewrite Hc. case_bool_decide; [by subst|done].
Qed.

(** Adding a coin that can be spent puts it in the set, provided the caller's promise
    that it does not overwrite one holds. *)
Lemma AddCoin_spec o coin ow c : cache_ok c -> IsSpent coin = false -> IsUnspendable (scriptPubKey (c_out coin)) = false ->
  (ow = false -> cache_contents c o = None) ->
  exists c', AddCoin o coin ow c = Some c' /\ cache_ok c' /\ cache_best c' = cache_best c /\
    forall o', cache_contents c' o' = if bool_decide (o' = o) then Some coin else cache_contents c o'.
Proof.
  intros [Hv Hm] Hs Hu How. unfold AddCoin. rewrite Hs, Hu.
  set (it := default _ _).
  assert (entry_ok (contents (cc_base c)) o it \/ cc_coins c !! o = None /\ it = mkEntry Coin_Clear false false) as Hit.
  { unfold it. destruct (cc_coins c !! o) eqn:E; [left; by apply Hm|by right]. }
  assert (ow = false -> IsSpent (e_coin it) = true /\ (e_dirty it = false -> contents (cc_base c) o = None)) as Hnew.
  { intros Ew. specialize (How Ew). unfold it, cache_contents, entries_contents in *.
    destruct (cc_coins c !! o) as [e|] eqn:E; [|done]. unfold unspent in How. cbn.
    destruct (IsSpent (e_coin e)) eqn:Ee; [|done]. split; [done|]. intros Hd.
    destruct (Hm _ _ E) as [_ Hn]. rewrite <- Hn by done. unfold unspent. by rewrite Ee. }
  assert (negb ow && negb (IsSpent (e_coin it)) = false) as ->.
  { destruct ow; [done|]. by rewrite (proj1 (Hnew eq_refl)). }
  eexists. split; [done|]. split; [|split; [done|]].
  - split; [done|]. cbn. apply map_Forall_insert_2; [|done]. split; [|done]. cbn. intros Hf.
    destruct (e_fresh it) eqn:Ef; cbn in Hf.
    + destruct Hit as [[Hfr _]|[_ E]]; [by apply Hfr|by rewrite E in Ef].
    + destruct ow; [done|]. apply (Hnew eq_refl). by destruct (e_dirty it).
  - intros o'. unfold cache_contents. cbn. rewrite entries_contents_insert. cbn. unfold unspent. by rewrite Hs.
Qed.

Lemma AddCoin_unspendable o coin ow (c : cache) : IsSpent coin = false -> IsUnspendable (scriptPubKey (c_out coin)) = true ->
  AddCoin o coin ow c = Some c.
Proof. intros Hs Hu. unfold AddCoin. by rewrite Hs, Hu. Qed.

Lemma Uncache_spec o (c : cache) : cache_ok c -> cache_ok (Uncache o c) /\ cache_same c (Uncache o c).
Proof.
  intros [Hv Hm]. unfold Uncache. destruct (cc_coins c !! o) as [e|] eqn:E; [|done].
  destruct (negb (e_dirty e) && negb (e_fresh e)) eqn:Ef; [|done]. split; [|split; [done|]].
  - split; [done|]. by apply map_Forall_delete.
  - intros o'. unfold cache_contents. cbn. rewrite entries_contents_delete. case_bool_decide; [|done]. subst o'.
    unfold entries_contents. rewrite E. symmetry. apply (Hm _ _ E). by destruct (e_dirty e).
Qed.

Lemma GetBestBlock_spec c : cache_ok c ->
  exists c', GetBestBlock c = (c', cache_best c) /\ cache_ok c' /\ cache_same c c'.
Proof.
  intros [Hv Hm]. unfold GetBestBlock, cache_best. destruct (uint256_IsNull (cc_hashBlock c)) eqn:En.
  - destruct (view_GetBestBlock_spec (cc_base c) Hv) as (v' & -> & Hv' & Hb & Hc). eexists. split; [done|].
    split; [split; [done|]|split].
    + intros o' e' He'. eapply entry_ok_ext; [|by apply Hm]. intros. by rewrite Hc.
    + unfold cache_best. cbn. rewrite En, Hb. by case_if.
    + intros o'. by apply entries_contents_ext.
  - by exists c.
Qed.

Lemma BatchWrite_entry_spec B m o e : map_Forall (entry_ok B) m ->
  (e_dirty e = true -> e_fresh e = true -> entries_contents m B o = None) ->
  exists m', BatchWrite_entry (o, e) m = Some m' /\ map_Forall (entry_ok B) m' /\
    forall o', entries_contents m' B o' =
      if bool_decide (o' = o) && e_dirty e then unspent (e_coin e) else entries_contents m B o'.
Proof.
  intros Hm Hb. unfold BatchWrite_entry. destruct (e_dirty e) eqn:Ed.
  2: { exists m. split; [done|]. split; [done|]. intros. by rewrite andb_false_r. }
  destruct (m !! o) as [us|] eqn:E; unfold entries_contents in Hb; rewrite E in Hb.
  - pose proof (Hm _ _ E) as [Hf _].
    assert (e_fresh e && negb (IsSpent (e_coin us)) = false) as ->.
    { destruct (e_fresh e); [|done]. specialize (Hb eq_refl eq_refl). unfold unspent in Hb. by destruct (IsSpent (e_coin us)). }
    destruct (e_fresh us && IsSpent (e_coin e)) eqn:Ef.
    + apply andb_true_iff in Ef as [Ef Es]. eexists. split; [done|]. split; [by apply map_Forall_delete|].
      intros o'. rewrite entries_contents_delete, andb_true_r. case_bool_decide; [|done].
      unfold unspent. rewrite Es. by apply Hf.
    + eexists. split; [done|]. split; [by apply map_Forall_insert_2|].
      intros o'. by rewrite entries_contents_insert, andb_true_r.
  - destruct (e_fresh e && IsSpent (e_coin e)) eqn:Ef; cbn [negb].
    + apply andb_true_iff in Ef as [Ef Es]. eexists. split; [done|]. split; [done|].
      intros o'. rewrite andb_true_r. case_bool_decide; [|done]. subst o'. unfold entries_contents, unspent. rewrite E, Es.
      by apply Hb.
    + eexists. split; [done|]. split; [|intros o'; by rewrite entries_contents_insert, andb_true_r].
      apply map_Forall_insert_2; [|done]. split; [|done]. cbn. intros Ef'. by apply Hb.
Qed.

Lemma BatchWrite_loop_spec B l m : map_Forall (entry_ok B) m -> NoDup l.*1 -> batch_ok (entries_contents m B) l ->
  exists m', BatchWrite_loop l m = Some m' /\ map_Forall (entry_ok B) m' /\
    forall o, entries_contents m' B o = apply_batch l (entries_contents m B) o.
Proof.
  revert m. induction l as [|[o e] l IH]; intros m Hm Hnd Hb; [by exists m|].
  apply NoDup_cons in Hnd as [Hno Hnd]. apply Forall_cons in Hb as [Hb1 Hb].
  destruct (BatchWrite_entry_spec B m o e Hm Hb1) as (m1 & E1 & Hm1 & Hc1).
  destruct (IH m1 Hm1 Hnd) as (m2 & E2 & Hm2 & Hc2).
  { apply Forall_forall. intros [o' e'] Hin Hd Hf. cbn in *.
    assert (o' <> o) as Hne. { intros ->. apply Hno. by apply (list_elem_of_fmap_2' fst l (o, e')). }
    rewrite Hc1, bool_decide_eq_false_2 by done. by apply (proj1 (Forall_forall _ _) Hb _ Hin). }
  exists m2. cbn [BatchWrite_loop]. rewrite E1. split; [exact E2|]. split; [done|].
  intros o'. rewrite Hc2, apply_batch_cons by done. by apply apply_batch_ext.
Qed.

Lemma cache_BatchWrite_spec c l h : cache_ok c -> uint256_IsNull h = false -> NoDup l.*1 ->
  batch_ok (cache_contents c) l ->
  exists c', BatchWrite l h c = Some (c', true) /\ cache_ok c' /\ cache_best c' = h /\
    forall o, cache_contents c' o = apply_batch l (cache_contents c) o.
Proof.
  intros [Hv Hm] Hh Hnd Hb. destruct (BatchWrite_loop_spec _ l _ Hm Hnd Hb) as (m' & E & Hm' & Hc').
  unfold BatchWrite. rewrite E. eexists. split; [done|]. split; [done|]. split; [|done].
  unfold cache_best. cbn [cc_hashBlock]. by rewrite Hh.
Qed.

(** The entries of a cache are a batch its base accepts, and what it represents. *)
Lemma cache_batch_ok c : cache_ok c ->
  NoDup (map_to_list (cc_coins c)).*1 /\ batch_ok (contents (cc_base c)) (map_to_list (cc_coins c)) /\
  forall o, apply_batch (map_to_list (cc_coins c)) (contents (cc_base c)) o = cache_contents c o.
Proof.
  intros [Hv Hm]. split; [apply NoDup_fst_map_to_list|]. split.
  - apply Forall_forall. intros [o e] Hin%elem_of_map_to_list _. apply (Hm _ _ Hin).
  - intros o. unfold apply_batch, cache_contents, entries_contents. rewrite list_to_map_to_list.
    destruct (cc_coins c !! o) as [e|] eqn:E; [|done]. destruct (e_dirty e) eqn:Ed; [done|].
    symmetry. by apply (Hm _ _ E).
Qed.
End cache_spec.

(** A cache is a view: its promise to a cache stacked on it follows from its base's. *)
#[global] Instance cache_view_spec V `{CoinsViewSpec V} : CoinsViewSpec (CCoinsViewCache V).
Proof.
  refine {| view_ok := cache_ok; contents := cache_contents; best := cache_best |}.
  - apply cache_contents_unspent.
  - intros c o Hok. destruct (GetCoin_spec o c Hok) as (c' & E & Hok' & Hb & Hc). by exists c'.
  - intros c Hok. destruct (GetBestBlock_spec c Hok) as (c' & E & Hok' & Hb & Hc). by exists c'.
  - intros c l h Hok Hh Hnd Hb. by apply cache_BatchWrite_spec.
Defined.

(** ** The cache against the set of unspent coins *)

Inductive coin_op :=
  | op_GetCoin (o : COutPoint)
  | op_HaveCoin (o : COutPoint)
  | op_AddCoin (o : COutPoint) (c : Coin) (possible_overwrite : bool)
  | op_SpendCoin (o : COutPoint)
  | op_Uncache (o : COutPoint)
  | op_Flush.

Inductive coin_answer := ans_coin (c : option Coin) | ans_bool (b : bool) | ans_none.

(** The set a client has in mind, and the answers it expects: coins that can be spent
    come and go, the cache is invisible. *)
Definition spec_op (op : coin_op) (M : utxos) : utxos * coin_answer :=
  match op with
  | op_GetCoin o => (M, ans_coin (M o))
  | op_HaveCoin o => (M, ans_bool (bool_decide (is_Some (M o))))
  | op_AddCoin o c _ =>
      (fun o' => if bool_decide (o' = o) && negb (IsUnspendable (scriptPubKey (c_out c))) then Some c else M o', ans_none)
  | op_SpendCoin o => (fun o' => if bool_decide (o' = o) then None else M o', ans_coin (M o))
  | op_Uncache _ => (M, ans_none)
  | op_Flush => (M, ans_bool true)
  end.

(** A coin added is not spent, and replaces another only where the client says it may. *)
Definition op_legal (op : coin_op) (M : utxos) : Prop :=
  match op with
  | op_AddCoin o c ow => IsSpent c = false /\ (ow = false -> M o = None)
  | _ => True
  end.

Fixpoint spec_ops (ops : list coin_op) (M : utxos) : utxos * list coin_answer :=
  match ops with
  | [] => (M, [])
  | op :: ops =>
      let '(M, a) := spec_op op M in
      let '(M, answers) := spec_ops ops M in (M, a :: answers)
  end.

Fixpoint ops_legal (ops : list coin_op) (M : utxos) : Prop :=
  match ops with
  | [] => True
  | op :: ops => op_legal op M /\ ops_legal ops (spec_op op M).1
  end.

Section run.
Context {V : Type} `{CoinsView V}.

(** The answer of [SpendCoin] is the coin moved out if it is one that was unspent. *)
Definition run_op (op : coin_op) (c : CCoinsViewCache V) : option (CCoinsViewCache V * coin_answer) :=
  match op with
  | op_GetCoin o => let '(c, r) := GetCoin o c in Some (c, ans_coin r)
  | op_HaveCoin o => let '(c, b) := HaveCoin o c in Some (c, ans_bool b)
  | op_AddCoin o coin ow => c ← AddCoin o coin ow c; Some (c, ans_none)
  | op_SpendCoin o => let '(c, r) := SpendCoin o c in Some (c, ans_coin (r ≫= unspent))
  | op_Uncache o => Some (Uncache o c, ans_none)
  | op_Flush => '(c, fOk) ← Flush c; Some (c, ans_bool fOk)
  end.

Fixpoint run_ops (ops : list coin_op) (c : CCoinsViewCache V) : option (CCoinsViewCache V * list coin_answer) :=
  match ops with
  | [] => Some (c, [])
  | op :: ops =>
      '(c, a) ← run_op op c;
      '(c, answers) ← run_ops ops c;
      Some (c, a :: answers)
  end.
End run.

Section refinement.
Context {V : Type} `{CoinsViewSpec V}.
Implicit Types c : CCoinsViewCache V.

Lemma Flush_spec c : cache_ok c -> uint256_IsNull (cc_hashBlock c) = false ->
  exists c', Flush c = Some (c', true) /\ cache_ok c' /\ cc_hashBlock c' = cc_hashBlock c /\ cc_coins c' = ∅ /\
    best (cc_base c') = cc_hashBlock c /\
    (forall o, contents (cc_base c') o = cache_contents c o) /\ (forall o, cache_contents c' o = cache_contents c o).
Proof.
  intros Hok Hh. destruct (cache_batch_ok c Hok) as (Hnd & Hb & Hc).
  destruct (view_BatchWrite_spec (cc_base c) _ (cc_hashBlock c) (proj1 Hok) Hh Hnd Hb) as (v' & E & Hv' & Hbest & Hc').
  unfold Flush. rewrite E. eexists. split; [done|]. split; [by split|]. split; [done|]. split; [done|].
  split; [done|]. cbn [cc_base]. split; intros o; rewrite <- Hc; apply Hc'.
Qed.

Lemma spec_op_ext op M M' : (forall o, M o = M' o) ->
  (spec_op op M).2 = (spec_op op M').2 /\ forall o, (spec_op op M).1 o = (spec_op op M').1 o.
Proof. intros E. destruct op; cbn; rewrite ?E; (split; [done|]); intros o'; by rewrite ?E. Qed.

Lemma op_legal_ext op M M' : (forall o, M o = M' o) -> op_legal op M -> op_legal op M'.
Proof. intros E. destruct op; cbn; rewrite ?E; done. Qed.

Lemma FetchCoin_hash o c : cc_hashBlock (FetchCoin o c).1 = cc_hashBlock c.
Proof. unfold FetchCoin. case_match; [done|]. destruct (view_GetCoin o (cc_base c)) as [v [r|]]; done. Qed.

Lemma run_op_hash op c c' a : run_op op c = Some (c', a) -> cc_hashBlock c' = cc_hashBlock c.
Proof.
  destruct op as [o|o|o coin ow|o|o|]; cbn [run_op];
    [pose proof (FetchCoin_hash o c) as Hf..| |pose proof (FetchCoin_hash o c) as Hf| |].
  - unfold GetCoin. destruct (FetchCoin o c) as [c1 [e|]]; naive_solver.
  - unfold HaveCoin. destruct (FetchCoin o c) as [c1 [e|]]; naive_solver.
  - unfold AddCoin. repeat case_if; naive_solver.
  - unfold SpendCoin. destruct (FetchCoin o c) as [c1 [e|]]; [destruct (e_fresh e)|]; naive_solver.
  - unfold Uncache. repeat case_match; naive_solver.
  - unfold Flush. destruct (view_BatchWrite _ _ _) as [[v b]|]; naive_solver.
Qed.

(** One operation of the cache is one of the set. *)
Lemma run_op_spec op c M : cache_ok c -> uint256_IsNull (cc_hashBlock c) = false ->
  (forall o, cache_contents c o = M o) -> op_legal op M ->
  exists c', run_op op c = Some (c', (spec_op op M).2) /\ cache_ok c' /\
    forall o, cache_contents c' o = (spec_op op M).1 o.
Proof.
  intros Hok Hh HM Hl. destruct op as [o|o|o coin ow|o|o|]; cbn [run_op spec_op fst snd].
  - destruct (GetCoin_spec o c Hok) as (c' & -> & Hok' & _ & Hc). exists c'. rewrite HM. split; [done|]. split; [done|].
    intros o'. by rewrite Hc.
  - destruct (HaveCoin_spec o c Hok) as (c' & -> & Hok' & _ & Hc). exists c'. rewrite HM. split; [done|]. split; [done|].
    intros o'. by rewrite Hc.
  - destruct Hl as [Hs How]. destruct (IsUnspendable (scriptPubKey (c_out coin))) eqn:Eu.
    + rewrite AddCoin_unspendable by done. exists c. split; [done|]. split; [done|]. intros o'. by rewrite andb_false_r.
    + destruct (AddCoin_spec o coin ow c Hok Hs Eu) as (c' & -> & Hok' & _ & Hc); [by rewrite HM|].
      exists c'. split; [done|]. split; [done|]. intros o'. by rewrite andb_true_r, Hc, HM.
  - destruct (SpendCoin_spec o c Hok) as (c' & r & -> & Hok' & _ & Hr & Hc). exists c'. rewrite Hr, HM. split; [done|].
    split; [done|]. intros o'. by rewrite Hc, HM.
  - destruct (Uncache_spec o c Hok) as (Hok' & _ & Hc). eexists. split; [done|]. split; [done|]. intros o'. by rewrite Hc.
  - destruct (Flush_spec c Hok Hh) as (c' & -> & Hok' & _ & _ & _ & _ & Hc). exists c'. split; [done|]. split; [done|].
    intros o'. by rewrite Hc.
Qed.


(** Flushing a cache with right flags succeeds, whatever the view under it: the base
    then holds exactly the coins the cache showed, with the cache's best block as its
    own, and the emptied cache still shows them. *)
Theorem Flush_correct c : cache_ok c -> uint256_IsNull (cc_hashBlock c) = false ->
  exists c', Flush c = Some (c', true) /\ cc_coins c' = ∅ /\ cache_ok c' /\ best (cc_base c') = cc_hashBlock c /\
    (forall o, contents (cc_base c') o = cache_contents c o) /\ (forall o, cache_contents c' o = cache_contents c o).
Proof.
  intros Hok Hh. destruct (Flush_spec c Hok Hh) as (c' & E & Hok' & _ & Hm & Hb & Hc). by exists c'.
Qed.
End refinement.

(** ** An interrupted write of the database *)

Lemma db_batches_prefix full l h batch k : (0 < k < length (db_batches full l h batch))%nat ->
  exists j, concat (take k (db_batches full l h batch)) = batch ++ concat (db_entry_op <$> take j l).
Proof.
  revert batch k. induction l as [|x l IH]; intros batch k Hk; cbn [db_batches] in *; [cbn in Hk; lia|].
  destruct (full (batch ++ db_entry_op x)).
  - destruct k as [|k]; [lia|]. cbn [length] in Hk. cbn [take concat].
    destruct (decide (k = O)) as [->|Hne].
    + exists 1%nat. cbn. by rewrite !app_nil_r.
    + destruct (IH [] k) as [j ->]; [lia|]. exists (S j). cbn [take fmap list_fmap concat]. by rewrite <- app_assoc.
  - destruct (IH _ _ Hk) as [j ->]. exists (S j). cbn [take fmap list_fmap concat]. by rewrite <- app_assoc.
Qed.

Lemma apply_batch_take l j M o : NoDup l.*1 ->
  apply_batch (take j l) M o = M o \/ apply_batch (take j l) M o = apply_batch l M o.
Proof.
  intros Hnd. unfold apply_batch.
  destruct (list_to_map (take j l) !! o) as [e|] eqn:E; [right|by left].
  apply elem_of_list_to_map_2 in E. apply (sublist_subseteq _ _ (sublist_take l j)) in E.
  by rewrite (elem_of_list_to_map_1 l o e).
Qed.

(** Writing a batch again on top of a part of it has the effect of writing it once. *)
Lemma apply_batch_again l M M' o : M' o = M o \/ M' o = apply_batch l M o -> apply_batch l M' o = apply_batch l M o.
Proof. unfold apply_batch. destruct (list_to_map l !! o) as [e|]; [destruct (e_dirty e)|]; by intros [?|?]. Qed.

(** C38: a crash between two of the batches of a write leaves the database marked as in
    transition from the old tip to the new one, without a best block, every coin being
    what it was or what it will be; writing the same changes again completes the write
    with the result it would have had. *)
Theorem db_BatchWrite_crash_safe db l h k batches : db_ok db -> uint256_IsNull h = false -> NoDup l.*1 ->
  BatchWrite_batches l h db = Some batches -> (0 < k < length batches)%nat ->
  let db' := fold_left db_write (take k batches) db in
  db_best_block db' = None /\ db_head_blocks db' = Some [h; db_GetBestBlock db] /\
  (forall o, db_coins db' !! o = db_coins db !! o \/ db_coins db' !! o = apply_batch l (fun o => db_coins db !! o) o) /\
  exists db'', db_BatchWrite l h db' = Some (db'', true) /\ db_ok db'' /\ db_best_block db'' = Some h /\
    forall o, db_coins db'' !! o = apply_batch l (fun o => db_coins db !! o) o.
Proof.
  intros Hok Hh Hnd. unfold BatchWrite_batches. rewrite Hh, db_old_tip_ok by done. cbn [mbind option_bind].
  intros [= <-] Hk. destruct (db_batches_prefix _ _ _ _ _ Hk) as [j Ej].
  rewrite db_writes_concat, Ej, fold_left_app. clear Ej Hk.
  edestruct (db_entries_spec (take j l) (fold_left db_apply [erase_best; write_heads [h; db_GetBestBlock db]] db))
    as (coins & -> & Hun & Hlook).
  { rewrite fmap_take. by apply (sublist_NoDup _ l.*1), sublist_take. }
  { destruct db; by destruct Hok. }
  cbn zeta. assert (forall o, coins !! o = db_coins db !! o \/ coins !! o = apply_batch l (fun o => db_coins db !! o) o) as Hc.
  { intros o. rewrite Hlook. replace (fun o => db_coins _ !! o) with (fun o => db_coins db !! o) by by destruct db.
    by apply apply_batch_take. }
  split; [by destruct db|]. split; [by destruct db|]. split; [done|].
  edestruct (db_BatchWrite_spec (mkCoinsDB coins None (Some [h; db_GetBestBlock db]) (db_batch_full db)) l h)
    as (db'' & E & Hok'' & Hb & Hc''); [done| |done..|].
  { unfold db_old_tip. cbn -[uint256_IsNull]. by rewrite bool_decide_eq_true_2. }
  exists db''. split; [by destruct db|]. split; [done|]. split; [done|].
  intros o. rewrite Hc''. apply apply_batch_again, Hc.
Qed.

(** *** Witnesses *)

Definition demo_txid : uint256 := replicate 32 x07.
Definition demo_coin (v : Z) : Coin := Coin_of (mkTxOut v [x51]) 5 false.
Definition demo_db (full : list db_op -> bool) : CCoinsViewDB :=
  mkCoinsDB {[ mkOutPoint demo_txid 0 := demo_coin 10 ]} (Some (replicate 32 x01)) None full.

(** A cache on a cache on the database, the middle one holding a spent entry. *)
Definition demo_cache : CCoinsViewCache (CCoinsViewCache CCoinsViewDB) :=
  mkCache (mkCache (demo_db (fun _ => false)) (replicate 32 x02) {[ mkOutPoint demo_txid 0 := mkEntry Coin_Clear true false ]})
    (replicate 32 x03) ∅.

Lemma demo_cache_ok : cache_ok demo_cache.
Proof.
  split; [split; [split|]|].
  - done.
  - apply map_Forall_singleton. done.
  - apply map_Forall_singleton. done.
  - apply map_Forall_empty.
Qed.

Definition demo_ops : list coin_op :=
  [op_HaveCoin (mkOutPoint demo_txid 0); op_AddCoin (mkOutPoint demo_txid 0) (demo_coin 10) false; op_Flush;
   op_SpendCoin (mkOutPoint demo_txid 0); op_GetCoin (mkOutPoint demo_txid 0); op_Flush].


Lemma Flush_correct_witness :
  exists c', Flush demo_cache = Some (c', true) /\ contents (cc_base c') (mkOutPoint demo_txid 0) = None.
Proof.
  destruct (Flush_correct demo_cache demo_cache_ok) as (c' & E & _ & _ & _ & Hc & _); [reflexivity|].
  exists c'. split; [exact E|]. rewrite Hc. reflexivity.
Defined.

(** Two changes, a batch for each, and a crash after the first. *)
Definition demo_batch : list (COutPoint * CCoinsCacheEntry) :=
  [(mkOutPoint demo_txid 0, mkEntry Coin_Clear true false); (mkOutPoint demo_txid 1, mkEntry (demo_coin 20) true true)].

Lemma db_BatchWrite_crash_safe_witness :
  let db := demo_db (fun _ => true) in
  exists batches, BatchWrite_batches demo_batch (replicate 32 x02) db = Some batches /\ length batches = 3%nat /\
    db_head_blocks (fold_left db_write (take 1 batches) db) = Some [replicate 32 x02; replicate 32 x01].
Proof.
  intros db. eexists. split; [reflexivity|]. split; [reflexivity|].
  apply (db_BatchWrite_crash_safe db demo_batch (replicate 32 x02) 1); try reflexivity.
  - split; [reflexivity|]. apply map_Forall_singleton. reflexivity.
  - apply (bool_decide_unpack _). reflexivity.
  - cbn. lia.
Defined.
