(* ===== verification/TxVerify.v ===== *)
(** * Rules for transactions (topchain/src/consensus/tx_verify.cpp, consensus/validation.h)

    Absolute and relative lock times, the counting of signature operations, the checks
    that need no context and those of the inputs against the set of unspent coins. A
    function that returns false through [state.DoS] or [state.Invalid] gives [Rejected]
    with what it told the state, [state.Error] gives [RunError]; [Crash] is a failed
    assertion or an exception. *)

From Stdlib Require Import Strings.String.
From S2P Require Import Prelude Serialize Sha256 Primitives ArithUint256 Chain MedianTime Script Coins.

#[local] Open Scope Z_scope.

(** ** Outcomes *)

Definition REJECT_INVALID : Z := 0x10.
Definition REJECT_OBSOLETE : Z := 0x11.
Definition REJECT_CHECKPOINT : Z := 0x43.

(** What [CValidationState] keeps of a call of [DoS] on a fresh state. *)
Record rejection := mkReject {
  rj_nDoS : Z;
  rj_chRejectCode : Z;
  rj_strRejectReason : string;
  rj_corruptionPossible : bool
}.

Inductive failure := Rejected (r : rejection) | RunError (reason : string) | Crash.

Definition DoS {A} (level code : Z) (reason : string) : result failure A := Err (Rejected (mkReject level code reason false)).
Definition DoS_corrupt {A} (level code : Z) (reason : string) : result failure A :=
  Err (Rejected (mkReject level code reason true)).
Definition Invalid {A} (code : Z) (reason : string) : result failure A := DoS 0 code reason.

Definition crash_if_none {A} (x : option A) : result failure A := match x with Some a => Ok a | None => Err Crash end.
Definition crash_if_err {E A} (x : result E A) : result failure A := match x with Ok a => Ok a | Err _ => Err Crash end.

(** ** Lock times *)

Definition IsFinalTx (tx : CTransaction) (nBlockHeight nBlockTime : Z) : bool :=
  if nLockTime tx =? 0 then true
  else if nLockTime tx <? (if nLockTime tx <? LOCKTIME_THRESHOLD then nBlockHeight else nBlockTime) then true
  else forallb (fun txin => nSequence txin =? SEQUENCE_FINAL) (vin tx).

Definition SEQUENCE_LOCKTIME_DISABLE_FLAG : Z := Z.shiftl 1 31.
Definition SEQUENCE_LOCKTIME_TYPE_FLAG : Z := Z.shiftl 1 22.
Definition SEQUENCE_LOCKTIME_MASK : Z := 0x0000ffff.
Definition SEQUENCE_LOCKTIME_GRANULARITY : Z := 9.
Definition LOCKTIME_VERIFY_SEQUENCE : Z := Z.shiftl 1 0.
Definition LOCKTIME_MEDIAN_TIME_PAST : Z := Z.shiftl 1 1.

Definition has_flag (x flag : Z) : bool := negb (Z.land x flag =? 0).

(** The loop over the inputs, [block] the hash of the block the transaction is to be in;
    the new [prevHeights] and the pair of locks. *)
Fixpoint CalculateSequenceLocks_loop (m : BlockMap) (block : uint256) (ins : list CTxIn) (prevHeights : list Z)
    (nMinHeight nMinTime : Z) : option (list Z * (Z * Z)) :=
  match ins, prevHeights with
  | txin :: ins, h :: prevHeights =>
      if has_flag (nSequence txin) SEQUENCE_LOCKTIME_DISABLE_FLAG then
        '(hs, r) ← CalculateSequenceLocks_loop m block ins prevHeights nMinHeight nMinTime;
        Some (0 :: hs, r)
      else if has_flag (nSequence txin) SEQUENCE_LOCKTIME_TYPE_FLAG then
        ancestor ← GetAncestor m block (Z.max (i32 (h - 1)) 0);
        ancestor ← ancestor;
        nCoinTime ← GetMedianTimePast m ancestor;
        let span := u32 (Z.shiftl (Z.land (nSequence txin) SEQUENCE_LOCKTIME_MASK) SEQUENCE_LOCKTIME_GRANULARITY) in
        '(hs, r) ← CalculateSequenceLocks_loop m block ins prevHeights nMinHeight
                     (Z.max nMinTime (i64 (nCoinTime + span - 1)));
        Some (h :: hs, r)
      else
        '(hs, r) ← CalculateSequenceLocks_loop m block ins prevHeights
                     (Z.max nMinHeight (i32 (h + Z.land (nSequence txin) SEQUENCE_LOCKTIME_MASK - 1))) nMinTime;
        Some (h :: hs, r)
  | _, _ => Some (prevHeights, (nMinHeight, nMinTime))
  end.

Definition CalculateSequenceLocks (m : BlockMap) (tx : CTransaction) (flags : Z) (prevHeights : list Z) (block : uint256)
  : option (list Z * (Z * Z)) :=
  if negb (length prevHeights =? length (vin tx))%nat then None
  else
    let fEnforceBIP68 := (2 <=? u32 (tx_nVersion tx)) && has_flag flags LOCKTIME_VERIFY_SEQUENCE in
    if negb fEnforceBIP68 then Some (prevHeights, (-1, -1))
    else CalculateSequenceLocks_loop m block (vin tx) prevHeights (-1) (-1).

Definition EvaluateSequenceLocks (m : BlockMap) (block : uint256) (lockPair : Z * Z) : option bool :=
  n ← m !! block;
  pprev ← bi_pprev n;
  nBlockTime ← GetMedianTimePast m pprev;
  Some (negb ((bi_nHeight n <=? lockPair.1) || (nBlockTime <=? lockPair.2))).

Definition SequenceLocks (m : BlockMap) (tx : CTransaction) (flags : Z) (prevHeights : list Z) (block : uint256)
  : option (list Z * bool) :=
  '(hs, lockPair) ← CalculateSequenceLocks m tx flags prevHeights block;
  r ← EvaluateSequenceLocks m block lockPair;
  Some (hs, r).

(** ** Checks without context *)

Definition GetLegacySigOpCount (tx : CTransaction) : Z :=
  let nSigOps := fold_left (fun n i => u32 (n + GetSigOpCount false (scriptSig i))) (vin tx) 0 in
  fold_left (fun n o => u32 (n + GetSigOpCount false (scriptPubKey o))) (vout tx) nSigOps.

Fixpoint CheckTransaction_outputs (outs : list CTxOut) (nValueOut : Z) : result failure unit :=
  match outs with
  | [] => Ok tt
  | txout :: outs =>
      if nValue txout <? 0 then DoS 100 REJECT_INVALID "bad-txns-vout-negative"
      else if MAX_MONEY <? nValue txout then DoS 100 REJECT_INVALID "bad-txns-vout-toolarge"
      else
        let nValueOut := i64 (nValueOut + nValue txout) in
        if negb (MoneyRange nValueOut) then DoS 100 REJECT_INVALID "bad-txns-txouttotal-toolarge"
        else CheckTransaction_outputs outs nValueOut
  end.

(** The set of the outpoints seen. *)
Fixpoint CheckTransaction_duplicates (ins : list CTxIn) (vInOutPoints : gset COutPoint) : result failure unit :=
  match ins with
  | [] => Ok tt
  | txin :: ins =>
      if bool_decide (prevout txin ∈ vInOutPoints) then DoS 100 REJECT_INVALID "bad-txns-inputs-duplicate"
      else CheckTransaction_duplicates ins ({[prevout txin]} ∪ vInOutPoints)
  end.

Definition CheckTransaction (tx : CTransaction) (fCheckDuplicateInputs : bool) : result failure unit :=
  match vin tx, vout tx with
  | [], _ => DoS 10 REJECT_INVALID "bad-txns-vin-empty"
  | _, [] => DoS 10 REJECT_INVALID "bad-txns-vout-empty"
  | first :: _, _ =>
      data ← crash_if_err (SerializeTransaction tx SERIALIZE_TRANSACTION_NO_WITNESS);
      if MAX_BLOCK_WEIGHT <? Zlength data * WITNESS_SCALE_FACTOR then DoS 100 REJECT_INVALID "bad-txns-oversize"
      else
        _ ← CheckTransaction_outputs (vout tx) 0;
        _ ← (if fCheckDuplicateInputs then CheckTransaction_duplicates (vin tx) ∅ else Ok tt);
        if IsCoinBase tx then
          if (Zlength (scriptSig first) <? 2) || (100 <? Zlength (scriptSig first))
          then DoS 100 REJECT_INVALID "bad-cb-length" else Ok tt
        else if existsb (fun txin => COutPoint_IsNull (prevout txin)) (vin tx)
        then DoS 10 REJECT_INVALID "bad-txns-prevout-null" else Ok tt
  end.

(** ** Checks of the inputs *)

Definition COINBASE_MATURITY : Z := 100.
Definition MAX_BLOCK_SIGOPS_COST : Z := 80000.

Section inputs.
Context {V : Type} `{CoinsView V}.
Abbreviation cache := (CCoinsViewCache V).

(** [AccessCoin] and the assertion that the coin is not spent. *)
Definition AccessUnspent (o : COutPoint) (c : cache) : option (cache * Coin) :=
  let '(c, coin) := AccessCoin o c in
  if IsSpent coin then None else Some (c, coin).

Fixpoint GetP2SHSigOpCount_loop (ins : list CTxIn) (nSigOps : Z) (c : cache) : option (cache * Z) :=
  match ins with
  | [] => Some (c, nSigOps)
  | i :: ins =>
      '(c, coin) ← AccessUnspent (prevout i) c;
      let pk := scriptPubKey (c_out coin) in
      GetP2SHSigOpCount_loop ins
        (if IsPayToScriptHash pk then u32 (nSigOps + GetSigOpCount_sig (scriptSig i) pk) else nSigOps) c
  end.
Definition GetP2SHSigOpCount (tx : CTransaction) (c : cache) : option (cache * Z) :=
  if IsCoinBase tx then Some (c, 0) else GetP2SHSigOpCount_loop (vin tx) 0 c.

Fixpoint WitnessSigOps_loop (ins : list CTxIn) (flags nSigOps : Z) (c : cache) : option (cache * Z) :=
  match ins with
  | [] => Some (c, nSigOps)
  | i :: ins =>
      '(c, coin) ← AccessUnspent (prevout i) c;
      n ← CountWitnessSigOps (scriptSig i) (scriptPubKey (c_out coin)) (scriptWitness i) flags;
      WitnessSigOps_loop ins flags (i64 (nSigOps + n)) c
  end.
Definition GetTransactionSigOpCost (tx : CTransaction) (flags : Z) (c : cache) : option (cache * Z) :=
  let nSigOps := u32 (GetLegacySigOpCount tx * WITNESS_SCALE_FACTOR) in
  if IsCoinBase tx then Some (c, nSigOps)
  else
    '(c, nSigOps) ←
      (if has_flag flags SCRIPT_VERIFY_P2SH then
         '(c, n) ← GetP2SHSigOpCount tx c; Some (c, i64 (nSigOps + u32 (n * WITNESS_SCALE_FACTOR)))
       else Some (c, nSigOps));
    WitnessSigOps_loop (vin tx) flags nSigOps c.

Fixpoint CheckTxInputs_loop (ins : list CTxIn) (nSpendHeight nValueIn : Z) (c : cache) : result failure (cache * Z) :=
  match ins with
  | [] => Ok (c, nValueIn)
  | i :: ins =>
      '(c, coin) ← crash_if_none (AccessUnspent (prevout i) c);
      if c_fCoinBase coin && (i32 (nSpendHeight - c_nHeight coin) <? COINBASE_MATURITY)
      then Invalid REJECT_INVALID "bad-txns-premature-spend-of-coinbase"
      else
        let nValueIn := i64 (nValueIn + nValue (c_out coin)) in
        if negb (MoneyRange (nValue (c_out coin))) || negb (MoneyRange nValueIn)
        then DoS 100 REJECT_INVALID "bad-txns-inputvalues-outofrange"
        else CheckTxInputs_loop ins nSpendHeight nValueIn c
  end.

Definition CheckTxInputs (tx : CTransaction) (nSpendHeight : Z) (c : cache) : result failure cache :=
  let '(c, have) := HaveInputs tx c in
  if negb have then Invalid 0 "Inputs unavailable"
  else
    '(c, nValueIn) ← CheckTxInputs_loop (vin tx) nSpendHeight 0 c;
    nValueOut ← crash_if_none (GetValueOut tx);
    if nValueIn <? nValueOut then DoS 100 REJECT_INVALID "bad-txns-in-belowout"
    else
      let nTxFee := i64 (nValueIn - nValueOut) in
      if nTxFee <? 0 then DoS 100 REJECT_INVALID "bad-txns-fee-negative"
      else
        let nFees := i64 (0 + nTxFee) in
        if negb (MoneyRange nFees) then DoS 100 REJECT_INVALID "bad-txns-fee-outofrange"
        else Ok c.
End inputs.

Definition GetTransactionWeight (tx : CTransaction) : result ser_error Z :=
  base ← SerializeTransaction tx SERIALIZE_TRANSACTION_NO_WITNESS;
  full ← SerializeTransaction tx 0;
  Ok (Zlength base * (WITNESS_SCALE_FACTOR - 1) + Zlength full).
Definition GetBlockWeight (block : CBlock) : result ser_error Z :=
  base ← Serialize_block block SERIALIZE_TRANSACTION_NO_WITNESS;
  full ← Serialize_block block 0;
  Ok (Zlength base * (WITNESS_SCALE_FACTOR - 1) + Zlength full).

(** ** Transactions that pass the checks without context *)

Definition value_sum (outs : list CTxOut) : Z := foldr (fun o z => nValue o + z) 0 outs.

Definition value_ok (v : Z) : Prop := 0 <= v <= MAX_MONEY.

Lemma MoneyRange_spec v : MoneyRange v = true <-> value_ok v.
Proof. unfold MoneyRange, value_ok. rewrite andb_true_iff, !Z.leb_le. done. Qed.

Lemma value_ok_i64 v : - MAX_MONEY <= v <= 2 * MAX_MONEY -> i64 v = v.
Proof.
  intros H. apply wraps_small; [lia|]. unfold sint_range, MAX_MONEY, COIN in *.
  change (2 ^ (64 - 1)) with 9223372036854775808. lia.
Qed.

Lemma value_sum_nonneg outs : Forall (fun o => value_ok (nValue o)) outs -> 0 <= value_sum outs.
Proof. induction 1 as [|o outs Ho _ IH]; cbn [value_sum foldr]; [lia|]. fold (value_sum outs). unfold value_ok in Ho. lia. Qed.

Lemma CheckTransaction_outputs_spec outs acc : value_ok acc ->
  CheckTransaction_outputs outs acc = Ok tt <->
  Forall (fun o => value_ok (nValue o)) outs /\ acc + value_sum outs <= MAX_MONEY.
Proof.
  revert acc. induction outs as [|o outs IH]; intros acc Hacc; cbn [CheckTransaction_outputs value_sum foldr].
  { unfold value_ok in Hacc. split; [|done]. split; [constructor|lia]. }
  rewrite Forall_cons. fold (value_sum outs). unfold value_ok in Hacc.
  destruct (Z.ltb_spec (nValue o) 0). { split; [done|]. unfold value_ok. lia. }
  destruct (Z.ltb_spec MAX_MONEY (nValue o)). { split; [done|]. unfold value_ok. lia. }
  rewrite value_ok_i64 by lia. destruct (MoneyRange (acc + nValue o)) eqn:E; cbn [negb].
  - apply MoneyRange_spec in E. rewrite (IH _ E), Z.add_assoc. unfold value_ok. intuition lia.
  - split; [done|]. intros [[_ Hf] Hs]. apply value_sum_nonneg in Hf.
    assert (MoneyRange (acc + nValue o) = true); [|congruence]. apply MoneyRange_spec. unfold value_ok. lia.
Qed.

Lemma GetValueOut_loop_spec outs acc : value_ok acc -> Forall (fun o => value_ok (nValue o)) outs ->
  acc + value_sum outs <= MAX_MONEY -> GetValueOut_loop outs acc = Some (acc + value_sum outs).
Proof.
  revert acc. induction outs as [|o outs IH]; intros acc Hacc Hf Hs; cbn [GetValueOut_loop value_sum foldr].
  { f_equal. lia. }
  apply Forall_cons in Hf as [Ho Hf]. pose proof (value_sum_nonneg _ Hf). cbn in Hs. fold (value_sum outs) in *.
  unfold value_ok in Hacc, Ho. rewrite value_ok_i64 by lia.
  rewrite (proj2 (MoneyRange_spec (nValue o))), (proj2 (MoneyRange_spec (acc + nValue o))) by (unfold value_ok; lia).
  cbn [negb orb]. rewrite IH; [f_equal; lia|unfold value_ok; lia|done|lia].
Qed.

Lemma GetValueOut_spec tx : Forall (fun o => value_ok (nValue o)) (vout tx) -> value_sum (vout tx) <= MAX_MONEY ->
  GetValueOut tx = Some (value_sum (vout tx)).
Proof. intros Hf Hs. apply (GetValueOut_loop_spec _ 0); [unfold value_ok, MAX_MONEY, COIN; lia|done|lia]. Qed.

Lemma CheckTransaction_duplicates_spec ins seen :
  CheckTransaction_duplicates ins seen = Ok tt <-> NoDup (prevout <$> ins) /\ Forall (fun i => prevout i ∉ seen) ins.
Proof.
  revert seen. induction ins as [|i ins IH]; intros seen; cbn [CheckTransaction_duplicates fmap list_fmap].
  { split; [intros _; split; constructor|done]. }
  rewrite NoDup_cons, Forall_cons. case_bool_decide as Hin; [naive_solver|].
  rewrite IH, !Forall_forall. split.
  - intros [Hnd Hall]. split_and!; try done; [|set_solver].
    intros (j & Ej & Hj)%list_elem_of_fmap. apply (Hall j Hj). set_solver.
  - intros [[Hno Hnd] [_ Hall]]. split; [done|]. intros j Hj. rewrite not_elem_of_union, not_elem_of_singleton. split; [|by apply Hall].
    intros E. apply Hno. rewrite <- E. by apply list_elem_of_fmap_2.
Qed.

(** The rules as a reader states them. *)
Definition transaction_valid (tx : CTransaction) (fCheckDuplicateInputs : bool) : Prop :=
  vin tx <> [] /\ vout tx <> [] /\
  (exists data, SerializeTransaction tx SERIALIZE_TRANSACTION_NO_WITNESS = Ok data /\
    Zlength data * WITNESS_SCALE_FACTOR <= MAX_BLOCK_WEIGHT) /\
  Forall (fun o => value_ok (nValue o)) (vout tx) /\ value_sum (vout tx) <= MAX_MONEY /\
  (fCheckDuplicateInputs = true -> NoDup (prevout <$> vin tx)) /\
  (if IsCoinBase tx then Forall (fun i => 2 <= Zlength (scriptSig i) <= 100) (vin tx)
   else Forall (fun i => COutPoint_IsNull (prevout i) = false) (vin tx)).

Lemma bind_check {A} (x : result failure unit) (y : result failure A) r :
  (x ≫= fun _ => y) = Ok r <-> x = Ok tt /\ y = Ok r.
Proof. destruct x as [[]|]; cbn; naive_solver. Qed.

Lemma duplicates_if tx (dup : bool) :
  (if dup then CheckTransaction_duplicates (vin tx) ∅ else Ok tt) = Ok tt <-> (dup = true -> NoDup (prevout <$> vin tx)).
Proof.
  destruct dup; [|naive_solver]. rewrite CheckTransaction_duplicates_spec. split; [naive_solver|].
  intros Hd. split; [by apply Hd|]. apply Forall_forall. set_solver.
Qed.

Lemma last_checks tx i ins : vin tx = i :: ins ->
  (if IsCoinBase tx then
     if (Zlength (scriptSig i) <? 2) || (100 <? Zlength (scriptSig i)) then DoS 100 REJECT_INVALID "bad-cb-length" else Ok tt
   else if existsb (fun txin => COutPoint_IsNull (prevout txin)) (vin tx)
   then DoS 10 REJECT_INVALID "bad-txns-prevout-null" else Ok tt) = Ok tt <->
  if IsCoinBase tx then Forall (fun i => 2 <= Zlength (scriptSig i) <= 100) (vin tx)
  else Forall (fun i => COutPoint_IsNull (prevout i) = false) (vin tx).
Proof.
  intros Ei. destruct (IsCoinBase tx) eqn:Ec.
  - unfold IsCoinBase in Ec. rewrite Ei in *. destruct ins; [|done]. rewrite Forall_singleton.
    destruct (Z.ltb_spec (Zlength (scriptSig i)) 2); [split; [done|lia]|].
    destruct (Z.ltb_spec 100 (Zlength (scriptSig i))); (split; [done||lia|done||lia]).
  - destruct (existsb _ (vin tx)) eqn:Ex.
    + apply existsb_exists in Ex as (j & Hj & Hn). split; [done|]. rewrite Forall_forall. intros Hall.
      apply list_elem_of_In, Hall in Hj. congruence.
    + split; [|done]. intros _. apply Forall_forall. intros j Hj%list_elem_of_In.
      destruct (COutPoint_IsNull (prevout j)) eqn:En; [|done].
      assert (existsb (fun txin => COutPoint_IsNull (prevout txin)) (vin tx) = true); [|congruence].
      apply existsb_exists. by exists j.
Qed.

Lemma CheckTransaction_spec tx dup : CheckTransaction tx dup = Ok tt <-> transaction_valid tx dup.
Proof.
  unfold CheckTransaction, transaction_valid. destruct (vin tx) as [|i ins] eqn:Ei; [naive_solver|].
  destruct (vout tx) as [|o outs] eqn:Eo; [naive_solver|]. rewrite <- Ei, <- Eo.
  destruct (SerializeTransaction tx SERIALIZE_TRANSACTION_NO_WITNESS) as [data|e]; cbn [crash_if_err mbind result_bind]; [|naive_solver].
  destruct (Z.ltb_spec MAX_BLOCK_WEIGHT (Zlength data * WITNESS_SCALE_FACTOR)) as [Hbig|Hsize].
  { split; [done|]. intros (_ & _ & (d & [= <-] & Hd) & _). lia. }
  rewrite bind_check, bind_check, (CheckTransaction_outputs_spec _ 0), duplicates_if, last_checks by (done || by rewrite Ei).
  split.
  - intros ([Hf Hs] & Hd & Hl). rewrite Ei, Eo in *. split_and!; try done. by exists data.
  - intros (_ & _ & _ & Hf & Hs & Hd & Hl). done.
Qed.

(** A transaction passes the checks without context exactly if it has inputs and
    outputs, is not too large, pays amounts that are in range each and in total, spends
    no output twice when that is asked for, and is a coinbase with a script of proper
    length or has no null input. The 64-bit sum cannot hide an overflow. *)
Theorem CheckTransaction_correct tx dup : CheckTransaction tx dup = Ok tt <-> transaction_valid tx dup.
Proof. apply CheckTransaction_spec. Qed.

(** ** Inputs against the unspent coins *)

Definition coin_sum (coins : list Coin) : Z := value_sum (c_out <$> coins).

(** The coins an input list takes from a set. *)
Definition spends (M : utxos) (ins : list CTxIn) (coins : list Coin) : Prop :=
  Forall2 (fun i coin => M (prevout i) = Some coin) ins coins.

Definition mature (nSpendHeight : Z) (coin : Coin) : Prop :=
  c_fCoinBase coin = true -> COINBASE_MATURITY <= nSpendHeight - c_nHeight coin.

Definition coins_good (nSpendHeight acc : Z) (coins : list Coin) : Prop :=
  Forall (mature nSpendHeight) coins /\ Forall (fun coin => value_ok (nValue (c_out coin))) coins /\
  acc + coin_sum coins <= MAX_MONEY.

Definition inputs_valid (M : utxos) (nSpendHeight : Z) (tx : CTransaction) : Prop :=
  exists coins, spends M (vin tx) coins /\ coins_good nSpendHeight 0 coins /\ value_sum (vout tx) <= coin_sum coins.

(** Heights fit the 31 bits they are kept in. *)
Definition heights_ok (M : utxos) : Prop := forall o coin, M o = Some coin -> 0 <= c_nHeight coin < 2 ^ 31.

Section inputs_spec.
Context {V : Type} `{CoinsViewSpec V}.
Abbreviation cache := (CCoinsViewCache V).
Implicit Types c : cache.

Lemma cache_same_refl c : cache_same c c.
Proof. done. Qed.

Lemma cache_same_trans c1 c2 c3 : cache_same c1 c2 -> cache_same c2 c3 -> cache_same c1 c3.
Proof. intros [E1 F1] [E2 F2]. split; [congruence|]. intros o. by rewrite F2. Qed.

Lemma spends_same c c' ins coins : cache_same c c' -> spends (cache_contents c) ins coins -> spends (cache_contents c') ins coins.
Proof. intros [_ E] Hs. eapply Forall2_impl; [exact Hs|]. intros i coin Hi. cbn. by rewrite E. Qed.

Lemma spends_inj M ins coins coins' : spends M ins coins -> spends M ins coins' -> coins = coins'.
Proof.
  intros Hs. revert coins'. induction Hs as [|i coin ins coins Hi _ IH]; intros coins' Hs'; inversion Hs'; subst; [done|].
  f_equal; [congruence|]. by apply IH.
Qed.

Lemma AccessUnspent_spec o coin c : cache_ok c -> cache_contents c o = Some coin ->
  exists c', AccessUnspent o c = Some (c', coin) /\ cache_ok c' /\ cache_same c c'.
Proof.
  intros Hok Hc. destruct (AccessCoin_spec o c Hok) as (c' & coin' & E & Hu & Hok' & Hs).
  rewrite Hc in Hu. apply unspent_Some in Hu as [-> Hsp].
  exists c'. unfold AccessUnspent. by rewrite E, Hsp.
Qed.

Lemma HaveInputs_loop_spec ins c : cache_ok c ->
  exists c' b, HaveInputs_loop ins c = (c', b) /\ cache_ok c' /\ cache_same c c' /\
    (b = true <-> exists coins, spends (cache_contents c) ins coins).
Proof.
  revert c. induction ins as [|i ins IH]; intros c Hok; cbn [HaveInputs_loop].
  { exists c, true. split_and!; try done. split; [|done]. exists []. constructor. }
  destruct (HaveCoin_spec (prevout i) c Hok) as (c1 & -> & Hok1 & Hs1). case_bool_decide as Hi; cbn [negb].
  - destruct (IH c1 Hok1) as (c2 & b & -> & Hok2 & Hs2 & Hb). exists c2, b.
    split_and!; try done; [by eapply cache_same_trans|]. rewrite Hb. destruct Hi as [coin Hi]. split.
    + intros [coins Hc]. exists (coin :: coins). constructor; [done|]. eapply spends_same; [|done].
      split; [|intros o]; symmetry; apply Hs1.
    + intros [coins Hc]. inversion Hc; subst. eexists. by eapply spends_same.
  - exists c1, false. split_and!; try done. split; [done|]. intros [coins Hc]. inversion Hc; subst. by destruct Hi.
Qed.

Lemma CheckTxInputs_loop_spec ins coins h acc c : cache_ok c -> value_ok acc -> 0 <= h < 2 ^ 31 ->
  spends (cache_contents c) ins coins -> Forall (fun coin => 0 <= c_nHeight coin < 2 ^ 31) coins ->
  (coins_good h acc coins /\ exists c', CheckTxInputs_loop ins h acc c = Ok (c', acc + coin_sum coins) /\ cache_ok c' /\ cache_same c c') \/
  (~ coins_good h acc coins /\ exists r, CheckTxInputs_loop ins h acc c = Err (Rejected r)).
Proof.
  revert coins acc c. induction ins as [|i ins IH]; intros coins acc c Hok Hacc Hh Hs Hhs; inversion Hs as [|? coin ? coins' Hi Hs']; subst.
  { left. unfold coins_good, coin_sum. unfold value_ok in Hacc. cbn. split; [split_and!; try constructor; lia|].
    exists c. split; [by rewrite Z.add_0_r|]. done. }
  apply Forall_cons in Hhs as [Hhc Hhs]. cbn [CheckTxInputs_loop].
  destruct (AccessUnspent_spec (prevout i) coin c Hok Hi) as (c1 & -> & Hok1 & Hs1). cbn [crash_if_none mbind result_bind].
  assert (i32 (h - c_nHeight coin) = h - c_nHeight coin) as ->. { apply wraps_small; [lia|]. unfold sint_range. lia. }
  destruct (c_fCoinBase coin && (h - c_nHeight coin <? COINBASE_MATURITY)) eqn:Em.
  { right. apply andb_true_iff in Em as [Ecb Em%Z.ltb_lt]. split; [|by eexists].
    intros [Hm _]. apply Forall_cons in Hm as [Hm _]. specialize (Hm Ecb). lia. }
  assert (mature h coin) as Hm. { intros Ecb. rewrite Ecb in Em. cbn in Em. apply Z.ltb_ge in Em. lia. }
  destruct (MoneyRange (nValue (c_out coin))) eqn:Ev; cbn [negb orb].
  2: { right. split; [|by eexists]. intros (_ & Hv & _). apply Forall_cons in Hv as [Hv%MoneyRange_spec _]. congruence. }
  apply MoneyRange_spec in Ev. unfold value_ok in Hacc, Ev. rewrite value_ok_i64 by lia.
  assert (coin_sum (coin :: coins') = nValue (c_out coin) + coin_sum coins') as Esum by done.
  destruct (MoneyRange (acc + nValue (c_out coin))) eqn:Er; cbn [negb].
  - apply MoneyRange_spec in Er.
    destruct (IH coins' _ c1 Hok1 Er Hh (spends_same _ _ _ _ Hs1 Hs') Hhs) as [[Hg (c2 & E & Hok2 & Hs2)]|[Hg Hr]].
    + left. split; [|exists c2; rewrite E, Esum, Z.add_assoc; split_and!; try done; by eapply cache_same_trans].
      destruct Hg as (Hg1 & Hg2 & Hg3). unfold coins_good. rewrite Esum. split_and!; [by constructor|by constructor|lia].
    + right. split; [|done]. intros (Hg1 & Hg2 & Hg3). apply Hg. rewrite Esum in Hg3.
      split_and!; [by inversion Hg1|by inversion Hg2|lia].
  - right. split; [|by eexists]. intros (_ & Hg2 & Hg3). rewrite Esum in Hg3. apply Forall_cons in Hg2 as [_ Hg2].
    assert (0 <= coin_sum coins'). { apply value_sum_nonneg. by apply Forall_fmap. }
    assert (MoneyRange (acc + nValue (c_out coin)) = true); [|congruence]. apply MoneyRange_spec. unfold value_ok. lia.
Qed.

(** Either the transaction passes and is valid, or it is refused and is not; no
    assertion fails. *)
Lemma CheckTxInputs_spec c tx h : cache_ok c -> IsCoinBase tx = false -> 0 <= h < 2 ^ 31 -> heights_ok (cache_contents c) ->
  Forall (fun o => value_ok (nValue o)) (vout tx) -> value_sum (vout tx) <= MAX_MONEY ->
  (inputs_valid (cache_contents c) h tx /\ exists c', CheckTxInputs tx h c = Ok c' /\ cache_ok c' /\ cache_same c c') \/
  (~ inputs_valid (cache_contents c) h tx /\ exists r, CheckTxInputs tx h c = Err (Rejected r)).
Proof.
  intros Hok Hcb Hh Hhs Hv Hsum. unfold CheckTxInputs, HaveInputs. rewrite Hcb. cbn [negb].
  destruct (HaveInputs_loop_spec (vin tx) c Hok) as (c1 & b & -> & Hok1 & Hs1 & Hb). destruct b; cbn [negb].
  2: { right. split; [|by eexists]. intros (coins & Hc & _). by discriminate (proj2 Hb (ex_intro _ coins Hc)). }
  destruct (proj1 Hb eq_refl) as [coins Hc].
  assert (Forall (fun coin => 0 <= c_nHeight coin < 2 ^ 31) coins) as Hcs.
  { clear -Hc Hhs. induction Hc; constructor; [by eapply Hhs|done]. }
  assert (value_ok 0) as Hv0 by (unfold value_ok, MAX_MONEY, COIN; lia).
  destruct (CheckTxInputs_loop_spec (vin tx) coins h 0 c1 Hok1 Hv0 Hh (spends_same _ _ _ _ Hs1 Hc) Hcs)
    as [[Hg (c2 & -> & Hok2 & Hs2)]|[Hg [r Hr]]].
  2: { right. split; [|exists r; by rewrite Hr]. intros (coins' & Hc' & Hg' & _).
       by rewrite (spends_inj _ _ _ _ Hc' Hc) in Hg'. }
  cbn [mbind result_bind]. rewrite (GetValueOut_spec tx Hv Hsum). cbn [crash_if_none mbind result_bind]. rewrite Z.add_0_l.
  destruct (Z.ltb_spec (coin_sum coins) (value_sum (vout tx))).
  { right. split; [|by eexists]. intros (coins' & Hc' & _ & Hle). rewrite (spends_inj _ _ _ _ Hc' Hc) in Hle. lia. }
  left. split; [by exists coins|]. exists c2. pose proof (value_sum_nonneg _ Hv). destruct Hg as (_ & _ & Hmax).
  assert (i64 (coin_sum coins - value_sum (vout tx)) = coin_sum coins - value_sum (vout tx)) as -> by (apply value_ok_i64; lia).
  rewrite (proj2 (Z.ltb_ge _ 0)), Z.add_0_l, value_ok_i64 by lia.
  rewrite (proj2 (MoneyRange_spec _)) by (unfold value_ok; lia). split_and!; try done. by eapply cache_same_trans.
Qed.
End inputs_spec.

(** ** Relative lock times *)

(** The rule of one input that spends an output of height [h], for a block at [height] on
    a parent whose median time is [mtp]: so many blocks, or so many times 512 seconds
    after the median time before the output's block. *)
Definition lock_met (m : BlockMap) (block : uint256) (height mtp : Z) (txin : CTxIn) (h : Z) : Prop :=
  has_flag (nSequence txin) SEQUENCE_LOCKTIME_DISABLE_FLAG = false ->
  let k := Z.land (nSequence txin) SEQUENCE_LOCKTIME_MASK in
  if has_flag (nSequence txin) SEQUENCE_LOCKTIME_TYPE_FLAG then
    forall a t, GetAncestor m block (Z.max (h - 1) 0) = Some (Some a) -> GetMedianTimePast m a = Some t -> t + 512 * k <= mtp
  else h + k <= height.

(** The locks of the inputs are met exactly if the pair the loop gives is below the
    height and the time of the block. *)
Lemma CalculateSequenceLocks_loop_spec m p n ins hs mh mt height mtp : index_ok m -> times_ok m -> m !! p = Some n ->
  bi_nHeight n <= 2 ^ 31 - 2 ^ 16 -> length hs = length ins -> Forall (fun h => 0 <= h <= bi_nHeight n) hs ->
  exists hs' mh' mt', CalculateSequenceLocks_loop m p ins hs mh mt = Some (hs', (mh', mt')) /\
    (mh' < height /\ mt' < mtp <-> mh < height /\ mt < mtp /\ Forall2 (lock_met m p height mtp) ins hs).
Proof.
  intros Hok Ht Hp Hmax. revert hs mh mt. induction ins as [|txin ins IH]; intros [|h hs] mh mt Hlen Hhs; try done.
  { eexists _, _, _. split; [done|]. split; [naive_solver|tauto]. }
  apply Forall_cons in Hhs as [Hh Hhs]. cbn [length] in Hlen. cbn [CalculateSequenceLocks_loop].
  assert (0 <= Z.land (nSequence txin) SEQUENCE_LOCKTIME_MASK <= 65535) as Hk.
  { split; [apply Z.land_nonneg; right; done|]. by apply land_le_r. }
  pose proof (List.Forall2_cons_iff (lock_met m p height mtp) txin h ins hs) as Hcons. destruct (has_flag (nSequence txin) SEQUENCE_LOCKTIME_DISABLE_FLAG) eqn:Ed.
  { destruct (IH hs mh mt ltac:(lia) Hhs) as (hs' & mh' & mt' & -> & E). eexists _, _, _. split; [done|]. rewrite E, Hcons.
    assert (lock_met m p height mtp txin h) by (unfold lock_met; rewrite Ed; done). tauto. }
  destruct (has_flag (nSequence txin) SEQUENCE_LOCKTIME_TYPE_FLAG) eqn:Ety.
  - assert (i32 (h - 1) = h - 1) as ->. { apply wraps_small; [lia|]. unfold sint_range. lia. }
    destruct (GetAncestor_Some m p n (Z.max (h - 1) 0) Hok Hp) as (a & na & Ea & Hna); [lia|].
    destruct (GetMedianTimePast_spec m a na Hok Ht Hna) as (t & Et & Hrt). rewrite Ea. cbn [mbind option_bind]. rewrite Et.
    set (k := Z.land (nSequence txin) SEQUENCE_LOCKTIME_MASK) in *. cbn [mbind option_bind].
    assert (u32 (Z.shiftl k SEQUENCE_LOCKTIME_GRANULARITY) = 512 * k) as ->.
    { rewrite Z.shiftl_mul_pow2 by done. change (2 ^ SEQUENCE_LOCKTIME_GRANULARITY) with 512.
      rewrite wrapu_small; [lia|]. unfold uint_range. lia. }
    assert (i64 (t + 512 * k - 1) = t + 512 * k - 1) as ->.
    { apply wraps_small; [lia|]. unfold sint_range, uint_range in *. lia. }
    destruct (IH hs mh (Z.max mt (t + 512 * k - 1)) ltac:(lia) Hhs) as (hs' & mh' & mt' & -> & E).
    eexists _, _, _. split; [done|]. rewrite E, Hcons.
    assert (lock_met m p height mtp txin h <-> t + 512 * k <= mtp) as ->.
    { unfold lock_met. rewrite Ety. fold k. split; [intros Hl; by apply (Hl Ed a t)|].
      intros Hle _ a' t' Ea' Et'. assert (a' = a) as -> by congruence. assert (t' = t) as -> by congruence. done. }
    rewrite Z.max_lub_lt_iff. intuition lia.
  - set (k := Z.land (nSequence txin) SEQUENCE_LOCKTIME_MASK) in *.
    assert (i32 (h + k - 1) = h + k - 1) as ->. { apply wraps_small; [lia|]. unfold sint_range. lia. }
    destruct (IH hs (Z.max mh (h + k - 1)) mt ltac:(lia) Hhs) as (hs' & mh' & mt' & -> & E).
    eexists _, _, _. split; [done|]. rewrite E, Hcons.
    assert (lock_met m p height mtp txin h <-> h + k <= height) as ->.
    { unfold lock_met. rewrite Ety. fold k. split; [intros Hl; by apply Hl|done]. }
    rewrite Z.max_lub_lt_iff. intuition lia.
Qed.

(** For a block of a sound index, with the heights of the outputs spent at most its
    own, the check of relative lock times ends without a failed look-up and holds
    exactly if the rule is off (flag or version), or every input that takes part has
    waited for its number of blocks, or for its multiple of 512 seconds measured between
    median times. *)
Theorem SequenceLocks_correct m p n q tx flags hs : index_ok m -> times_ok m -> m !! p = Some n -> bi_pprev n = Some q ->
  bi_nHeight n <= 2 ^ 31 - 2 ^ 16 -> length hs = length (vin tx) -> Forall (fun h => 0 <= h <= bi_nHeight n) hs ->
  exists hs' b mtp, SequenceLocks m tx flags hs p = Some (hs', b) /\ GetMedianTimePast m q = Some mtp /\
    (b = true <->
      (2 <= u32 (tx_nVersion tx) /\ has_flag flags LOCKTIME_VERIFY_SEQUENCE = true ->
       Forall2 (lock_met m p (bi_nHeight n) mtp) (vin tx) hs)).
Proof.
  intros Hok Ht Hp Hq Hmax Hlen Hhs. destruct (parent_ok m Hok p n q Hp Hq) as (nq & Hnq & Eh).
  destruct (GetMedianTimePast_spec m q nq Hok Ht Hnq) as (mtp & Emtp & Hmtp).
  pose proof (height_nonneg m Hok q nq Hnq). unfold uint_range in Hmtp.
  assert (forall hs' mh mt, CalculateSequenceLocks m tx flags hs p = Some (hs', (mh, mt)) ->
    SequenceLocks m tx flags hs p = Some (hs', negb ((bi_nHeight n <=? mh) || (mtp <=? mt)))) as Hseq.
  { intros hs' mh mt E. unfold SequenceLocks, EvaluateSequenceLocks. rewrite E, Hp. cbn [mbind option_bind].
    rewrite Hq. cbn [mbind option_bind]. by rewrite Emtp. }
  unfold CalculateSequenceLocks in Hseq. rewrite Hlen, Nat.eqb_refl in Hseq. cbn [negb] in Hseq.
  destruct ((2 <=? u32 (tx_nVersion tx)) && has_flag flags LOCKTIME_VERIFY_SEQUENCE) eqn:Een; cbn [negb] in Hseq.
  - apply andb_true_iff in Een as [Ev%Z.leb_le Ef].
    destruct (CalculateSequenceLocks_loop_spec m p n (vin tx) hs (-1) (-1) (bi_nHeight n) mtp) as (hs' & mh & mt & E & Hiff); try done.
    eexists _, _, _. split; [by apply Hseq|]. split; [done|].
    rewrite negb_true_iff, orb_false_iff, !Z.leb_gt, Hiff. intuition lia.
  - eexists _, _, _. split; [by apply Hseq|]. split; [done|].
    rewrite negb_true_iff, orb_false_iff, !Z.leb_gt. apply andb_false_iff in Een. split; [|lia]. intros _ [Hv Hf].
    destruct Een as [Een|Een]; [apply Z.leb_gt in Een; lia|congruence].
Qed.

(** A transaction with one input that waits two blocks for an output of height one. *)
Definition waiting_tx (seq : Z) : CTransaction :=
  mkTx 2 [mkTxIn (mkOutPoint (replicate 32 x07) 0) [] seq []] [mkTxOut 1 []] 0 CExtData_default.

Lemma SequenceLocks_correct_witness :
  exists hs' b, SequenceLocks sample_index (waiting_tx 2) LOCKTIME_VERIFY_SEQUENCE [1] [x03] = Some (hs', b) /\ b = true.
Proof.
  assert (times_ok sample_index) as Ht.
  { unfold times_ok. refine (bool_decide_unpack _ _). vm_compute. exact I. }
  destruct (SequenceLocks_correct sample_index [x03] sample_n3 [x02] (waiting_tx 2) LOCKTIME_VERIFY_SEQUENCE [1])
    as (hs' & b & mtp & E & _ & Hb); try reflexivity; try exact sample_index_ok; try exact Ht.
  - discriminate.
  - repeat constructor; cbn; lia.
  - exists hs', b. split; [exact E|]. apply Hb. intros _. repeat constructor. intros _. vm_compute. discriminate.
Defined.
