(* ===== verification/UpdateCoins.v ===== *)
(** * Connecting and disconnecting transactions (topchain/src/validation.cpp)

    [UpdateCoins] applies a transaction to a cache of coins and records what it spent,
    [DisconnectBlock] takes a block back with these records. The theorems are over any
    view below the cache: applying a transaction changes the set of unspent coins as its
    inputs and outputs say, and taking a block back restores the set. *)

From S2P Require Import Prelude Serialize Sha256 Primitives ArithUint256 Chain MedianTime Script Coins TxVerify.

(** The undo record of a transaction: the coins its inputs spent. *)
Abbreviation CTxUndo := (list Coin) (only parsing).

Section update.
Context {V : Type} `{CoinsView V}.
Abbreviation cache := (CCoinsViewCache V).

(** The loop over the inputs; the assertion that [SpendCoin] succeeds. *)
Fixpoint UpdateCoins_spend (ins : list CTxIn) (c : cache) : option (cache * CTxUndo) :=
  match ins with
  | [] => Some (c, [])
  | i :: ins =>
      let '(c, r) := SpendCoin (prevout i) c in
      coin ← r;
      '(c, undo) ← UpdateCoins_spend ins c;
      Some (c, coin :: undo)
  end.

Definition UpdateCoins (tx : CTransactionRef) (nHeight : Z) (c : cache) : option (cache * CTxUndo) :=
  '(c, txundo) ← (if negb (IsCoinBase (ref_tx tx)) then UpdateCoins_spend (vin (ref_tx tx)) c else Some (c, []));
  c ← AddCoins tx nHeight false c;
  Some (c, txundo).

Inductive DisconnectResult := DISCONNECT_OK | DISCONNECT_UNCLEAN | DISCONNECT_FAILED.

#[global] Instance DisconnectResult_eq_dec : EqDecision DisconnectResult.
Proof. solve_decision. Defined.

Definition ApplyTxInUndo (undo : Coin) (out : COutPoint) (c : cache) : option (cache * DisconnectResult) :=
  let '(c, have) := HaveCoin out c in
  let fClean := negb have in
  if c_nHeight undo =? 0 then
    let '(c, alternate) := AccessByTxid (op_hash out) c in
    if negb (IsSpent alternate) then
      c ← AddCoin out (mkCoin (c_out undo) (c_fCoinBase alternate) (c_nHeight alternate)) (negb fClean) c;
      Some (c, if fClean then DISCONNECT_OK else DISCONNECT_UNCLEAN)
    else Some (c, DISCONNECT_FAILED)
  else
    c ← AddCoin out undo (negb fClean) c;
    Some (c, if fClean then DISCONNECT_OK else DISCONNECT_UNCLEAN).

(** The outputs from number [o] on, removed and compared. *)
Fixpoint Disconnect_outputs (hash : uint256) (is_coinbase : bool) (nHeight : Z) (o : Z) (outs : list CTxOut) (fClean : bool)
    (c : cache) : cache * bool :=
  match outs with
  | [] => (c, fClean)
  | out :: outs =>
      if negb (IsUnspendable (scriptPubKey out)) then
        let '(c, r) := SpendCoin (mkOutPoint hash (u32 o)) c in
        let coin := default Coin_Clear r in
        let bad := bool_decide (r = None) || negb (bool_decide (out = c_out coin)) || negb (nHeight =? c_nHeight coin)
                   || negb (eqb is_coinbase (c_fCoinBase coin)) in
        Disconnect_outputs hash is_coinbase nHeight (o + 1) outs (if bad then false else fClean) c
      else Disconnect_outputs hash is_coinbase nHeight (o + 1) outs fClean c
  end.

(** The inputs restored from the last to the first: the lists are reversed. *)
Fixpoint Disconnect_inputs (rev_ins : list CTxIn) (rev_undo : list Coin) (fClean : bool) (c : cache) : option (cache * option bool) :=
  match rev_ins, rev_undo with
  | i :: rev_ins, u :: rev_undo =>
      '(c, res) ← ApplyTxInUndo u (prevout i) c;
      match res with
      | DISCONNECT_FAILED => Some (c, None)
      | _ => Disconnect_inputs rev_ins rev_undo (fClean && bool_decide (res <> DISCONNECT_UNCLEAN)) c
      end
  | _, _ => Some (c, Some fClean)
  end.

(** One transaction; [undo] is absent for the first of the block. The flag, or [None] if
    the result is [DISCONNECT_FAILED]. *)
Definition Disconnect_tx (tx : CTransactionRef) (undo : option CTxUndo) (nHeight : Z) (fClean : bool) (c : cache)
  : option (cache * option bool) :=
  let '(c, fClean) := Disconnect_outputs (ref_hash tx) (IsCoinBase (ref_tx tx)) nHeight 0 (vout (ref_tx tx)) fClean c in
  match undo with
  | None => Some (c, Some fClean)
  | Some txundo =>
      if negb (length txundo =? length (vin (ref_tx tx)))%nat then Some (c, None)
      else Disconnect_inputs (rev (vin (ref_tx tx))) (rev txundo) fClean c
  end.

(** The transactions from the last to the first, each with its undo record. *)
Fixpoint Disconnect_loop (rev_txs : list (CTransactionRef * option CTxUndo)) (nHeight : Z) (fClean : bool) (c : cache)
  : option (cache * option bool) :=
  match rev_txs with
  | [] => Some (c, Some fClean)
  | (tx, undo) :: rev_txs =>
      '(c, r) ← Disconnect_tx tx undo nHeight fClean c;
      match r with
      | None => Some (c, None)
      | Some fClean => Disconnect_loop rev_txs nHeight fClean c
      end
  end.

(** [DisconnectBlock] once the undo data is read: [hashPrev] is the hash of the previous
    block, [nHeight] the height of the block. *)
Definition DisconnectBlock_coins (txs : list CTransactionRef) (vtxundo : list CTxUndo) (nHeight : Z) (hashPrev : uint256) (c : cache)
  : option (cache * DisconnectResult) :=
  if negb (length vtxundo + 1 =? length txs)%nat then Some (c, DISCONNECT_FAILED)
  else
    '(c, r) ← Disconnect_loop (rev (zip txs (None :: map Some vtxundo))) nHeight true c;
    match r with
    | None => Some (c, DISCONNECT_FAILED)
    | Some fClean => Some (SetBestBlock hashPrev c, if (fClean : bool) then DISCONNECT_OK else DISCONNECT_UNCLEAN)
    end.
End update.

(** ** What a transaction does to the set of coins *)

(** The coin made at an outpoint by the outputs [outs] numbered from [i] on. *)
Definition created_from (txid : uint256) (fCoinBase : bool) (nHeight i : Z) (outs : list CTxOut) (o : COutPoint) : option Coin :=
  if bool_decide (op_hash o = txid) && (i <=? op_n o) then
    out ← outs !! Z.to_nat (op_n o - i);
    if IsUnspendable (scriptPubKey out) then None else Some (Coin_of out nHeight fCoinBase)
  else None.

Definition created (tx : CTransactionRef) (nHeight : Z) : COutPoint -> option Coin :=
  created_from (ref_hash tx) (IsCoinBase (ref_tx tx)) nHeight 0 (vout (ref_tx tx)).

Definition spent_by (tx : CTransaction) (o : COutPoint) : Prop := IsCoinBase tx = false /\ o ∈ prevout <$> vin tx.

#[global] Instance spent_by_dec tx o : Decision (spent_by tx o).
Proof. unfold spent_by. apply _. Defined.

Definition apply_tx (tx : CTransactionRef) (nHeight : Z) (M : utxos) : utxos := fun o =>
  match created tx nHeight o with
  | Some coin => Some coin
  | None => if decide (spent_by (ref_tx tx) o) then None else M o
  end.

(** Outputs that can be added: amounts are not the null value, numbers fit 32 bits. *)
Definition outputs_ok (tx : CTransaction) : Prop :=
  Forall (fun o => value_ok (nValue o)) (vout tx) /\ Zlength (vout tx) <= 2 ^ 32.

(** The coins of a set can be restored: spendable, of a height that is known and fits. *)
Definition coins_wf (M : utxos) : Prop :=
  forall o coin, M o = Some coin ->
    0 < c_nHeight coin < 2 ^ 31 /\ value_ok (nValue (c_out coin)) /\ IsUnspendable (scriptPubKey (c_out coin)) = false.

(** A transaction that may be applied to a set, and the coins it spends. *)
Definition tx_legal (tx : CTransactionRef) (nHeight : Z) (M : utxos) (coins : list Coin) : Prop :=
  outputs_ok (ref_tx tx) /\ (forall o, is_Some (created tx nHeight o) -> M o = None) /\
  if IsCoinBase (ref_tx tx) then coins = []
  else NoDup (prevout <$> vin (ref_tx tx)) /\ spends M (vin (ref_tx tx)) coins.

Fixpoint txs_legal (txs : list CTransactionRef) (undos : list CTxUndo) (nHeight : Z) (M : utxos) : Prop :=
  match txs, undos with
  | [], [] => True
  | tx :: txs, u :: undos => tx_legal tx nHeight M u /\ txs_legal txs undos nHeight (apply_tx tx nHeight M)
  | _, _ => False
  end.

Definition apply_txs (txs : list CTransactionRef) (nHeight : Z) (M : utxos) : utxos :=
  fold_left (fun M tx => apply_tx tx nHeight M) txs M.

Section update_spec.
Context {V : Type} `{CoinsViewSpec V}.
Abbreviation cache := (CCoinsViewCache V).
Implicit Types c : cache.

Lemma UpdateCoins_spend_spec ins coins c : cache_ok c -> NoDup (prevout <$> ins) -> spends (cache_contents c) ins coins ->
  exists c', UpdateCoins_spend ins c = Some (c', coins) /\ cache_ok c' /\ cache_best c' = cache_best c /\
    forall o, cache_contents c' o = if decide (o ∈ prevout <$> ins) then None else cache_contents c o.
Proof.
  revert coins c. induction ins as [|i ins IH]; intros coins c Hok Hnd Hs; inversion Hs as [|? coin ? coins' Hi Hs']; subst.
  { exists c. done. }
  cbn [fmap list_fmap] in Hnd. apply NoDup_cons in Hnd as [Hno Hnd]. cbn [UpdateCoins_spend].
  destruct (SpendCoin_spec (prevout i) c Hok) as (c1 & r & -> & Hok1 & Hb1 & Hr & Hc1).
  rewrite Hi in Hr. destruct r as [coin'|]; [|done]. cbn in Hr. apply unspent_Some in Hr as [-> _]. cbn [mbind option_bind].
  destruct (IH coins' c1 Hok1 Hnd) as (c2 & -> & Hok2 & Hb2 & Hc2).
  { apply Forall2_same_length_lookup. apply Forall2_same_length_lookup in Hs' as [Hl Hs']. split; [done|].
    intros j ij cj Hij Hcj. rewrite Hc1, bool_decide_eq_false_2; [by eapply Hs'|].
    intros E. apply Hno. rewrite <- E. by eapply list_elem_of_fmap_2, list_elem_of_lookup_2. }
  exists c2. split; [done|]. split; [done|]. split; [congruence|]. intros o. rewrite Hc2, Hc1. cbn [fmap list_fmap].
  destruct (decide (o ∈ prevout <$> ins)) as [Hin|Hin]; [by rewrite decide_True by by apply list_elem_of_further|].
  case_bool_decide as Ho; [subst; by rewrite decide_True by by apply list_elem_of_here|].
  rewrite decide_False; [done|]. rewrite elem_of_cons. tauto.
Qed.

Lemma created_from_cons txid cb h i out outs o : 0 <= i ->
  created_from txid cb h i (out :: outs) o =
  if bool_decide (o = mkOutPoint txid i) then
    if IsUnspendable (scriptPubKey out) then None else Some (Coin_of out h cb)
  else created_from txid cb h (i + 1) outs o.
Proof.
  intros Hi. unfold created_from. destruct o as [oh on]. cbn [op_hash op_n].
  destruct (decide (oh = txid)) as [->|Hne].
  2: { rewrite !(bool_decide_eq_false_2 (oh = txid)), (bool_decide_eq_false_2 (mkOutPoint oh on = _)) by congruence. done. }
  rewrite !(bool_decide_eq_true_2 (txid = txid)) by done. cbn [andb].
  destruct (Z.leb_spec i on), (Z.leb_spec (i + 1) on); try lia.
  - rewrite bool_decide_eq_false_2 by (intros [=]; lia).
    replace (Z.to_nat (on - i)) with (S (Z.to_nat (on - (i + 1)))) by lia. done.
  - assert (on = i) as -> by lia. rewrite bool_decide_eq_true_2 by done. by rewrite Z.sub_diag.
  - by rewrite bool_decide_eq_false_2 by (intros [=]; lia).
Qed.

Lemma created_from_below txid cb h i j outs : j < i -> created_from txid cb h i outs (mkOutPoint txid j) = None.
Proof. intros Hj. unfold created_from. cbn [op_n]. by rewrite (proj2 (Z.leb_gt i j)), andb_false_r by lia. Qed.

(** An output that is worth something is not a spent coin. *)
Lemma value_ok_unspent out h cb : value_ok (nValue out) -> IsSpent (Coin_of out h cb) = false.
Proof. unfold value_ok, IsSpent, CTxOut_IsNull. intros Hv. cbn. apply Z.eqb_neq. lia. Qed.

Lemma AddCoins_loop_spec txid cb h i outs c : cache_ok c -> 0 <= i -> i + Zlength outs <= 2 ^ 32 ->
  Forall (fun o => value_ok (nValue o)) outs ->
  (cb = false -> forall o, is_Some (created_from txid cb h i outs o) -> cache_contents c o = None) ->
  exists c', AddCoins_loop txid cb h false i outs c = Some c' /\ cache_ok c' /\ cache_best c' = cache_best c /\
    forall o, cache_contents c' o =
      match created_from txid cb h i outs o with Some coin => Some coin | None => cache_contents c o end.
Proof.
  intros Hok Hi. revert i Hi c Hok. induction outs as [|out outs IH]; intros i Hi c Hok Hlen Hv Hnew.
  { exists c. split_and!; try done. intros o. unfold created_from. by case_if. }
  apply Forall_cons in Hv as [Hv1 Hv]. rewrite Zlength_cons in Hlen. pose proof (Zlength_nonneg outs).
  cbn [AddCoins_loop]. rewrite (wrapu_small 32 i) by (unfold uint_range; lia).
  destruct (IsUnspendable (scriptPubKey out)) eqn:Eu.
  - rewrite AddCoin_unspendable by (done || by apply value_ok_unspent). cbn [mbind option_bind].
    destruct (IH (i + 1) ltac:(lia) c Hok ltac:(lia) Hv) as (c' & E & Hok' & Hb & Hc).
    { intros Ecb o [coin Ho]. apply Hnew; [done|]. rewrite created_from_cons by done. case_bool_decide as Eo; [|by rewrite Ho].
      exfalso. subst o. by rewrite created_from_below in Ho by lia. }
    exists c'. split_and!; try done. intros o. rewrite Hc, created_from_cons, Eu by done. case_bool_decide as Eo; [|done].
    subst o. by rewrite created_from_below by lia.
  - destruct (AddCoin_spec (mkOutPoint txid i) (Coin_of out h cb) cb c Hok) as (c1 & -> & Hok1 & Hb1 & Hc1); [by apply value_ok_unspent|done| |].
    { intros Ecb. apply Hnew; [done|]. rewrite created_from_cons, bool_decide_eq_true_2, Eu by done. done. }
    cbn [mbind option_bind]. destruct (IH (i + 1) ltac:(lia) c1 Hok1 ltac:(lia) Hv) as (c' & E & Hok' & Hb & Hc).
    { intros Ecb o [coin Ho]. assert (o <> mkOutPoint txid i) as Hne.
      { intros ->. by rewrite created_from_below in Ho by lia. }
      rewrite Hc1, bool_decide_eq_false_2 by done. apply Hnew; [done|]. rewrite created_from_cons, bool_decide_eq_false_2, Ho by done. done. }
    exists c'. split_and!; try done; [congruence|]. intros o. rewrite Hc, Hc1, created_from_cons, Eu by done.
    case_bool_decide as Eo; [|done]. subst o. by rewrite created_from_below by lia.
Qed.

Lemma UpdateCoins_spec tx h coins c : cache_ok c -> tx_legal tx h (cache_contents c) coins ->
  exists c', UpdateCoins tx h c = Some (c', coins) /\ cache_ok c' /\ cache_best c' = cache_best c /\
    forall o, cache_contents c' o = apply_tx tx h (cache_contents c) o.
Proof.
  intros Hok ([Hv Hlen] & Hnew & Hin). unfold UpdateCoins, apply_tx, AddCoins.
  assert (exists c1, (if negb (IsCoinBase (ref_tx tx)) then UpdateCoins_spend (vin (ref_tx tx)) c else Some (c, [])) = Some (c1, coins) /\
    cache_ok c1 /\ cache_best c1 = cache_best c /\
    forall o, cache_contents c1 o = if decide (spent_by (ref_tx tx) o) then None else cache_contents c o) as (c1 & -> & Hok1 & Hb1 & Hc1).
  { destruct (IsCoinBase (ref_tx tx)) eqn:Ecb; cbn [negb].
    - subst coins. exists c. split_and!; try done. intros o. rewrite decide_False; [done|]. unfold spent_by. by rewrite Ecb; intros [].
    - destruct Hin as [Hnd Hs]. destruct (UpdateCoins_spend_spec _ _ _ Hok Hnd Hs) as (c1 & E & Hok1 & Hb1 & Hc1).
      exists c1. split_and!; try done. intros o. rewrite Hc1. apply decide_ext. unfold spent_by. naive_solver. }
  cbn [mbind option_bind].
  destruct (AddCoins_loop_spec (ref_hash tx) (IsCoinBase (ref_tx tx)) h 0 (vout (ref_tx tx)) c1 Hok1) as (c2 & -> & Hok2 & Hb2 & Hc2); [lia|lia|done| |].
  { intros _ o Ho. rewrite Hc1. case_decide; [done|]. by apply Hnew. }
  cbn [mbind option_bind]. exists c2. split_and!; try done; [congruence|]. intros o. rewrite Hc2, Hc1. done.
Qed.

(** *** Taking a transaction back *)

Lemma Disconnect_outputs_spec txid cb h i outs c : cache_ok c -> 0 <= i -> i + Zlength outs <= 2 ^ 32 -> 0 <= h < 2 ^ 31 ->
  (forall o coin, created_from txid cb h i outs o = Some coin -> cache_contents c o = Some coin) ->
  exists c', Disconnect_outputs txid cb h i outs true c = (c', true) /\ cache_ok c' /\ cache_best c' = cache_best c /\
    forall o, cache_contents c' o = if decide (is_Some (created_from txid cb h i outs o)) then None else cache_contents c o.
Proof.
  intros Hok Hi Hlen Hh. revert i Hi Hlen c Hok. induction outs as [|out outs IH]; intros i Hi Hlen c Hok Hin.
  { exists c. split_and!; try done. intros o. rewrite decide_False; [done|]. unfold created_from. case_if; by intros [??]. }
  rewrite Zlength_cons in Hlen. pose proof (Zlength_nonneg outs). cbn [Disconnect_outputs].
  destruct (IsUnspendable (scriptPubKey out)) eqn:Eu; cbn [negb].
  - destruct (IH (i + 1) ltac:(lia) ltac:(lia) c Hok) as (c' & E & Hok' & Hb & Hc).
    { intros o coin Ho. apply Hin. rewrite created_from_cons, Eu by done. case_bool_decide as Eo; [|done].
      subst o. by rewrite created_from_below in Ho by lia. }
    exists c'. split_and!; try done. intros o. rewrite Hc. apply decide_ext. rewrite created_from_cons, Eu by done.
    case_bool_decide as Eo; [|done]. subst o. by rewrite created_from_below by lia.
  - rewrite (wrapu_small 32 i) by (unfold uint_range; lia).
    destruct (SpendCoin_spec (mkOutPoint txid i) c Hok) as (c1 & r & -> & Hok1 & Hb1 & Hr & Hc1).
    rewrite (Hin (mkOutPoint txid i) (Coin_of out h cb)) in Hr by (rewrite created_from_cons, bool_decide_eq_true_2, Eu by done; done).
    destruct r as [coin|]; [|done]. cbn in Hr. apply unspent_Some in Hr as [<- _]. cbn [default from_option id].
    rewrite (bool_decide_eq_false_2 (Some _ = None)), (bool_decide_eq_true_2 (out = _)) by done. cbn [Coin_of c_nHeight c_fCoinBase orb negb].
    rewrite wrapu_small, Z.eqb_refl, eqb_reflx by (unfold uint_range; lia). cbn [orb negb].
    destruct (IH (i + 1) ltac:(lia) ltac:(lia) c1 Hok1) as (c' & E & Hok' & Hb & Hc).
    { intros o coin Ho. assert (o <> mkOutPoint txid i) as Hne by (intros ->; by rewrite created_from_below in Ho by lia).
      rewrite Hc1, bool_decide_eq_false_2 by done. apply Hin. by rewrite created_from_cons, bool_decide_eq_false_2 by done. }
    exists c'. split_and!; try done; [congruence|]. intros o. rewrite Hc, Hc1, created_from_cons, Eu by done.
    case_bool_decide as Eo; [|done]. subst o. rewrite (decide_True (P := is_Some (Some _))) by done. by case_decide.
Qed.

(** A coin with its height, put back where none is. *)
Lemma ApplyTxInUndo_spec coin o c : cache_ok c -> cache_contents c o = None -> 0 < c_nHeight coin ->
  value_ok (nValue (c_out coin)) -> IsUnspendable (scriptPubKey (c_out coin)) = false ->
  exists c', ApplyTxInUndo coin o c = Some (c', DISCONNECT_OK) /\ cache_ok c' /\ cache_best c' = cache_best c /\
    forall o', cache_contents c' o' = if bool_decide (o' = o) then Some coin else cache_contents c o'.
Proof.
  intros Hok Ho Hh Hv Hu. unfold ApplyTxInUndo. destruct (HaveCoin_spec o c Hok) as (c1 & -> & Hok1 & Hb1 & Hc1).
  rewrite Ho, bool_decide_eq_false_2 by (by intros [??]). cbn [negb]. destruct (Z.eqb_spec (c_nHeight coin) 0); [lia|].
  destruct (AddCoin_spec o coin false c1 Hok1) as (c2 & -> & Hok2 & Hb2 & Hc2).
  - unfold IsSpent, CTxOut_IsNull. unfold value_ok in Hv. apply Z.eqb_neq. lia.
  - done.
  - intros _. by rewrite Hc1.
  - cbn [mbind option_bind]. exists c2. split_and!; try done; [congruence|]. intros o'. rewrite Hc2. case_bool_decide; [done|]. apply Hc1.
Qed.

Definition coin_good (coin : Coin) : Prop :=
  0 < c_nHeight coin /\ value_ok (nValue (c_out coin)) /\ IsUnspendable (scriptPubKey (c_out coin)) = false.

(** Putting coins back where the inputs say; the order of the inputs is of no importance. *)
Lemma Disconnect_inputs_spec ins coins c : cache_ok c -> NoDup (prevout <$> ins) -> length coins = length ins ->
  Forall (fun i => cache_contents c (prevout i) = None) ins -> Forall coin_good coins ->
  exists c', Disconnect_inputs ins coins true c = Some (c', Some true) /\ cache_ok c' /\ cache_best c' = cache_best c /\
    Forall2 (fun i coin => cache_contents c' (prevout i) = Some coin) ins coins /\
    forall o, o ∉ prevout <$> ins -> cache_contents c' o = cache_contents c o.
Proof.
  revert coins c. induction ins as [|i ins IH]; intros [|coin coins] c Hok Hnd Hlen Habs Hg; try done.
  { exists c. done. }
  apply Forall_cons in Habs as [Ha Habs], Hg as [(Hh & Hv & Hu) Hg]. cbn [fmap list_fmap] in Hnd. apply NoDup_cons in Hnd as [Hno Hnd].
  cbn [Disconnect_inputs]. destruct (ApplyTxInUndo_spec coin (prevout i) c Hok Ha Hh Hv Hu) as (c1 & -> & Hok1 & Hb1 & Hc1).
  cbn [mbind option_bind]. rewrite bool_decide_eq_true_2 by done. cbn [andb].
  destruct (IH coins c1 Hok1 Hnd) as (c2 & -> & Hok2 & Hb2 & Hin & Hout); [cbn in Hlen; lia| |done|].
  { apply Forall_forall. intros j Hj. rewrite Hc1, bool_decide_eq_false_2; [by apply (proj1 (Forall_forall _ _) Habs)|].
    intros E. apply Hno. rewrite <- E. by apply list_elem_of_fmap_2. }
  exists c2. split_and!; try done; [congruence| |].
  - constructor; [|done]. by rewrite Hout, Hc1, bool_decide_eq_true_2 by done.
  - intros o. cbn [fmap list_fmap]. rewrite not_elem_of_cons. intros [Ho1 Ho2].
    by rewrite Hout, Hc1, bool_decide_eq_false_2 by done.
Qed.

(** A transaction taken back from the set it was applied to. *)
Lemma Disconnect_tx_spec tx h M coins c : cache_ok c -> 0 <= h < 2 ^ 31 -> coins_wf M -> tx_legal tx h M coins ->
  (forall o, cache_contents c o = apply_tx tx h M o) ->
  exists c', Disconnect_tx tx (if IsCoinBase (ref_tx tx) then None else Some coins) h true c = Some (c', Some true) /\
    cache_ok c' /\ cache_best c' = cache_best c /\ forall o, cache_contents c' o = M o.
Proof.
  intros Hok Hh Hwf ([Hv Hlen] & Hnew & Hin) HM. unfold Disconnect_tx.
  destruct (Disconnect_outputs_spec (ref_hash tx) (IsCoinBase (ref_tx tx)) h 0 (vout (ref_tx tx)) c Hok) as (c1 & -> & Hok1 & Hb1 & Hc1);
    [lia|lia|done| |].
  { intros o coin Ho. rewrite HM. unfold apply_tx, created. by rewrite Ho. }
  assert (forall o, cache_contents c1 o = if decide (spent_by (ref_tx tx) o) then None else M o) as Hc1'.
  { intros o. rewrite Hc1, HM. unfold apply_tx, created. case_decide as Hd.
    - case_decide; [done|]. symmetry. by apply Hnew.
    - apply eq_None_not_Some in Hd. by rewrite Hd. }
  destruct (IsCoinBase (ref_tx tx)) eqn:Ecb.
  { exists c1. split_and!; try done. intros o. rewrite Hc1'. rewrite decide_False; [done|]. unfold spent_by. rewrite Ecb. by intros []. }
  destruct Hin as [Hnd Hs]. pose proof (Forall2_length _ _ _ Hs) as Hl. rewrite <- Hl, Nat.eqb_refl. cbn [negb].
  destruct (Disconnect_inputs_spec (rev (vin (ref_tx tx))) (rev coins) c1 Hok1) as (c2 & E & Hok2 & Hb2 & Hin2 & Hout2).
  - by rewrite rev_reverse, fmap_reverse, reverse_Permutation.
  - by rewrite !length_rev.
  - apply Forall_rev, Forall_forall. intros i Hi. rewrite Hc1', decide_True; [done|]. split; [done|]. by apply list_elem_of_fmap_2.
  - apply Forall_rev. clear -Hs Hwf. induction Hs as [|i coin ins coins Hi _ IH]; constructor; [|done].
    destruct (Hwf _ _ Hi) as ([Hh0 _] & Hv & Hu). done.
  - exists c2. split_and!; try done; [congruence|]. intros o. destruct (decide (o ∈ prevout <$> vin (ref_tx tx))) as [Ho|Ho].
    + apply list_elem_of_fmap in Ho as (i & -> & Hi). apply list_elem_of_lookup in Hi as [k Hk].
      destruct (Forall2_lookup_l _ _ _ _ _ Hs Hk) as (coin & Hck & ->).
      rewrite !rev_reverse in Hin2. apply Forall2_reverse in Hin2. rewrite !reverse_involutive in Hin2.
      by destruct (Forall2_lookup_lr _ _ _ _ _ _ Hin2 Hk Hck).
    + rewrite Hout2, Hc1'; [|by rewrite rev_reverse, fmap_reverse, elem_of_reverse]. rewrite decide_False; [done|]. by intros [].
Qed.

(** *** Blocks *)

(** The records in the form [Disconnect_loop] takes them. *)
Definition undo_of (tx : CTransactionRef) (coins : list Coin) : option CTxUndo :=
  if IsCoinBase (ref_tx tx) then None else Some coins.

Lemma Disconnect_loop_snoc l tx undo h b c :
  Disconnect_loop (l ++ [(tx, undo)]) h b c =
  '(c, r) ← Disconnect_loop l h b c;
  match r with
  | None => Some (c, None)
  | Some b => Disconnect_tx tx undo h b c
  end.
Proof.
  revert b c. induction l as [|[tx' undo'] l IH]; intros b c; cbn [app Disconnect_loop].
  - cbn [mbind option_bind]. destruct (Disconnect_tx tx undo h b c) as [[c' [b'|]]|]; done.
  - destruct (Disconnect_tx tx' undo' h b c) as [[c' [b'|]]|]; cbn [mbind option_bind]; [apply IH|done..].
Qed.

Lemma apply_tx_ext tx h M M' o : (forall o, M o = M' o) -> apply_tx tx h M o = apply_tx tx h M' o.
Proof. intros E. unfold apply_tx. by rewrite E. Qed.

Lemma apply_tx_wf tx h M : 0 < h < 2 ^ 31 -> outputs_ok (ref_tx tx) -> coins_wf M -> coins_wf (apply_tx tx h M).
Proof.
  intros Hh [Hv _] Hwf o coin. unfold apply_tx, created, created_from.
  destruct (bool_decide (op_hash o = ref_hash tx) && (0 <=? op_n o)); [|case_decide; [done|apply Hwf]].
  destruct (vout (ref_tx tx) !! Z.to_nat (op_n o - 0)) as [out|] eqn:Eo; cbn [mbind option_bind]; [|case_decide; [done|apply Hwf]].
  destruct (IsUnspendable (scriptPubKey out)) eqn:Eu; [case_decide; [done|apply Hwf]|]. intros [= <-]. cbn [Coin_of c_nHeight c_out].
  rewrite wrapu_small by (unfold uint_range; lia). split_and!; [lia|lia| |done]. apply (Forall_lookup_1 _ _ _ _ Hv Eo).
Qed.

Lemma Disconnect_loop_spec txs undos h M c : cache_ok c -> 0 < h < 2 ^ 31 -> coins_wf M -> txs_legal txs undos h M ->
  (forall o, cache_contents c o = apply_txs txs h M o) ->
  exists c', Disconnect_loop (rev (zip_with (fun tx u => (tx, undo_of tx u)) txs undos)) h true c = Some (c', Some true) /\
    cache_ok c' /\ cache_best c' = cache_best c /\ forall o, cache_contents c' o = M o.
Proof.
  intros Hok Hh. revert undos M c Hok. induction txs as [|tx txs IH]; intros [|u undos] M c Hok Hwf Hl HM; try done; [by exists c|].
  destruct Hl as [Hl1 Hl]. cbn [zip_with rev]. rewrite Disconnect_loop_snoc.
  assert (coins_wf (apply_tx tx h M)) as Hwf1. { apply apply_tx_wf; [done| |done]. apply Hl1. }
  destruct (IH undos (apply_tx tx h M) c Hok Hwf1 Hl HM) as (c1 & -> & Hok1 & Hb1 & Hc1). cbn [mbind option_bind].
  destruct (Disconnect_tx_spec tx h M u c1 Hok1) as (c2 & E & Hok2 & Hb2 & Hc2); [lia|done|done|done|].
  exists c2. split; [exact E|]. split_and!; try done. congruence.
Qed.
End update_spec.
