(* ===== verification/BlockCheck.v ===== *)
(** * Rules for blocks (topchain/src/validation.cpp)

    The subsidy, the checks of a block without context ([CheckBlock]) and against the
    blocks before it ([ContextualCheckBlock]), and the witness commitment of the
    coinbase. *)

From Stdlib Require Import Strings.String.
From S2P Require Import Prelude Serialize Sha256 Primitives ArithUint256 Chain MedianTime Versionbits Pow Merkle Script Coins TxVerify.

#[local] Open Scope Z_scope.

(** The fields of [Consensus::Params]. *)
Record ConsensusParams := mkConsensus {
  hashGenesisBlock : uint256;
  nSubsidyHalvingInterval : Z;
  BIP34Height : Z;
  BIP34Hash : uint256;
  BIP65Height : Z;
  BIP66Height : Z;
  cp_deployments : DeploymentParams;
  cp_pow : PowParams
}.

(** ** Subsidy *)

Definition GetBlockSubsidy (nHeight : Z) (params : ConsensusParams) : Z :=
  let halvings := Z.quot nHeight (nSubsidyHalvingInterval params) in
  if 64 <=? halvings then 0 else Z.shiftr (50 * COIN) halvings.

(** ** Checks without context *)

Definition CheckBlockHeader (block : CBlockHeader) (params : ConsensusParams) (fCheckPOW : bool) : result failure unit :=
  if fCheckPOW && negb (CheckProofOfWork (CBlockHeader_GetHash block) (hdr_nBits block) (cp_pow params))
  then DoS 50 REJECT_INVALID "high-hash" else Ok tt.

(** The failure of one transaction is passed on as [Invalid] on top of its own level. *)
Fixpoint CheckBlock_txs (txs : list CTransaction) : result failure unit :=
  match txs with
  | [] => Ok tt
  | tx :: txs => _ ← CheckTransaction tx false; CheckBlock_txs txs
  end.

Definition set_fChecked (block : CBlock) : CBlock := mkBlock (block_header block) (vtx block) true.

Definition CheckBlock_merkle (block : CBlock) : result failure unit :=
  r ← crash_if_err (BlockMerkleRoot block);
  '(hashMerkleRoot2, mutated) ← crash_if_none r;
  if negb (bool_decide (hashMerkleRoot (block_header block) = hashMerkleRoot2))
  then DoS_corrupt 100 REJECT_INVALID "bad-txnmrklroot"
  else if (mutated : bool) then DoS_corrupt 100 REJECT_INVALID "bad-txns-duplicate" else Ok tt.

(** The block with its memory-only flag. *)
Definition CheckBlock (block : CBlock) (params : ConsensusParams) (fCheckPOW fCheckMerkleRoot : bool) : result failure CBlock :=
  if fChecked block then Ok block
  else
    _ ← CheckBlockHeader (block_header block) params fCheckPOW;
    _ ← (if fCheckMerkleRoot then CheckBlock_merkle block else Ok tt);
    match vtx block with
    | [] => DoS 100 REJECT_INVALID "bad-blk-length"
    | first :: rest =>
        if MAX_BLOCK_WEIGHT <? Zlength (vtx block) * WITNESS_SCALE_FACTOR then DoS 100 REJECT_INVALID "bad-blk-length"
        else
        data ← crash_if_err (Serialize_block block SERIALIZE_TRANSACTION_NO_WITNESS);
        if MAX_BLOCK_WEIGHT <? Zlength data * WITNESS_SCALE_FACTOR then DoS 100 REJECT_INVALID "bad-blk-length"
        else if negb (IsCoinBase first) then DoS 100 REJECT_INVALID "bad-cb-missing"
        else if existsb IsCoinBase rest then DoS 100 REJECT_INVALID "bad-cb-multiple"
        else
          _ ← CheckBlock_txs (vtx block);
          let nSigOps := fold_left (fun n tx => u32 (n + GetLegacySigOpCount tx)) (vtx block) 0 in
          if MAX_BLOCK_SIGOPS_COST <? u32 (nSigOps * WITNESS_SCALE_FACTOR) then DoS 100 REJECT_INVALID "bad-blk-sigops"
          else Ok (if fCheckPOW && fCheckMerkleRoot then set_fChecked block else block)
    end.

(** ** Checks against the blocks before *)

(** The witness commitment. *)

Definition commitment_header : bytes := [x6a; x24; xaa; x21; xa9; xed].

Definition is_commitment (pk : CScript) : bool := (38 <=? Zlength pk) && bool_decide (take 6 pk = commitment_header).

(** The last output that is a commitment, [-1] if none is. *)
Fixpoint commitment_loop (o commitpos : Z) (outs : list CTxOut) : Z :=
  match outs with
  | [] => commitpos
  | out :: outs => commitment_loop (o + 1) (if is_commitment (scriptPubKey out) then i32 o else commitpos) outs
  end.
Definition GetWitnessCommitmentIndex (block : CBlock) : Z :=
  match vtx block with
  | [] => -1
  | first :: _ => commitment_loop 0 (-1) (vout first)
  end.

Definition set_first_witness (tx : CTransaction) (stack : list bytes) : CTransaction :=
  match vin tx with
  | [] => tx
  | i :: ins => mkTx (tx_nVersion tx) (with_witness i stack :: ins) (vout tx) (nLockTime tx) (extData tx)
  end.

Definition witness_nonce : bytes := replicate 32 x00.

Definition is_active (s : ThresholdState) : bool := bool_decide (s = THRESHOLD_ACTIVE).

Definition IsWitnessEnabled (m : BlockMap) (pindexPrev : option uint256) (params : ConsensusParams) (caches : VersionBitsCache)
  : result failure (VersionBitsCache * bool) :=
  '(caches, s) ← crash_if_none (VersionBitsState m pindexPrev (cp_deployments params) DEPLOYMENT_SEGWIT caches);
  Ok (caches, is_active s).

Definition UpdateUncommittedBlockStructures (m : BlockMap) (block : CBlock) (pindexPrev : option uint256) (params : ConsensusParams)
    (caches : VersionBitsCache) : result failure (VersionBitsCache * CBlock) :=
  match vtx block with
  | first :: rest =>
      if GetWitnessCommitmentIndex block =? -1 then Ok (caches, block)
      else
        '(caches, enabled) ← IsWitnessEnabled m pindexPrev params caches;
        if (enabled : bool) && negb (HasWitness first)
        then Ok (caches, mkBlock (block_header block) (set_first_witness first [witness_nonce] :: rest) (fChecked block))
        else Ok (caches, block)
  | [] => Ok (caches, block)
  end.

Definition add_output (tx : CTransaction) (out : CTxOut) : CTransaction :=
  mkTx (tx_nVersion tx) (vin tx) (vout tx ++ [out]) (nLockTime tx) (extData tx).

(** The block with the commitment added, and the script of the commitment. *)
Definition GenerateCoinbaseCommitment (m : BlockMap) (block : CBlock) (pindexPrev : option uint256) (params : ConsensusParams)
    (caches : VersionBitsCache) : result failure (VersionBitsCache * CBlock * bytes) :=
  '(block, commitment) ←
    (if negb (nTimeout (vDeployments (cp_deployments params) DEPLOYMENT_SEGWIT) =? 0) && (GetWitnessCommitmentIndex block =? -1) then
       r ← crash_if_err (BlockWitnessMerkleRoot block);
       '(witnessroot, _) ← crash_if_none r;
       let commitment := commitment_header ++ Hash (witnessroot ++ witness_nonce) in
       match vtx block with
       | first :: rest => Ok (mkBlock (block_header block) (add_output first (mkTxOut 0 commitment) :: rest) (fChecked block), commitment)
       | [] => Err Crash
       end
     else Ok (block, []));
  '(caches, block) ← UpdateUncommittedBlockStructures m block pindexPrev params caches;
  Ok (caches, block, commitment).

(** Whether the block commits to its witnesses; an error if it does so wrongly. *)
Definition CheckWitnessCommitment (block : CBlock) : result failure bool :=
  let commitpos := GetWitnessCommitmentIndex block in
  if negb (commitpos =? -1) then
    r ← crash_if_err (BlockWitnessMerkleRoot block);
    '(hashWitness, _) ← crash_if_none r;
    first ← crash_if_none (head (vtx block));
    i ← crash_if_none (head (vin first));
    match scriptWitness i with
    | [nonce] =>
        if negb (Zlength nonce =? 32) then DoS_corrupt 100 REJECT_INVALID "bad-witness-nonce-size"
        else
          out ← crash_if_none (vout first !! Z.to_nat commitpos);
          if negb (bool_decide (Hash (hashWitness ++ nonce) = take 32 (drop 6 (scriptPubKey out))))
          then DoS_corrupt 100 REJECT_INVALID "bad-witness-merkle-match" else Ok true
    | _ => DoS_corrupt 100 REJECT_INVALID "bad-witness-nonce-size"
    end
  else Ok false.

(** The locktimes and the height in the coinbase. *)
Definition ContextualCheck_final (block : CBlock) (params : ConsensusParams) (nHeight nLockTimeCutoff : Z) : result failure unit :=
  if negb (forallb (fun tx => IsFinalTx tx nHeight nLockTimeCutoff) (vtx block)) then DoS 10 REJECT_INVALID "bad-txns-nonfinal"
  else if BIP34Height params <=? nHeight then
    first ← crash_if_none (head (vtx block));
    i ← crash_if_none (head (vin first));
    let expect := push_int64 nHeight in
    if (Zlength (scriptSig i) <? Zlength expect) || negb (bool_decide (take (length expect) (scriptSig i) = expect))
    then DoS 100 REJECT_INVALID "bad-cb-height" else Ok tt
  else Ok tt.

(** The witnesses and the weight. *)
Definition ContextualCheck_witness (block : CBlock) (fWitnessEnabled : bool) : result failure unit :=
  fHaveWitness ← (if fWitnessEnabled then CheckWitnessCommitment block else Ok false);
  if negb (fHaveWitness : bool) && existsb HasWitness (vtx block) then DoS_corrupt 100 REJECT_INVALID "unexpected-witness"
  else
    weight ← crash_if_err (GetBlockWeight block);
    if MAX_BLOCK_WEIGHT <? weight then DoS 100 REJECT_INVALID "bad-blk-weight" else Ok tt.

(** The caches of the deployments are filled on the way, whatever the outcome. *)
Definition ContextualCheckBlock (m : BlockMap) (block : CBlock) (params : ConsensusParams) (pindexPrev : option uint256)
    (caches : VersionBitsCache) : VersionBitsCache * result failure unit :=
  let nHeight := match pindexPrev with
                 | None => Ok 0
                 | Some p => n ← crash_if_none (m !! p); Ok (i32 (bi_nHeight n + 1))
                 end in
  match VersionBitsState m pindexPrev (cp_deployments params) DEPLOYMENT_CSV caches with
  | None => (caches, Err Crash)
  | Some (caches, csv) =>
      let final :=
        nHeight ← nHeight;
        nLockTimeCutoff ← (if is_active csv then crash_if_none (p ← pindexPrev; GetMedianTimePast m p)
                           else Ok (hdr_nTime (block_header block)));
        ContextualCheck_final block params nHeight nLockTimeCutoff in
      match final with
      | Err e => (caches, Err e)
      | Ok _ =>
          match VersionBitsState m pindexPrev (cp_deployments params) DEPLOYMENT_SEGWIT caches with
          | None => (caches, Err Crash)
          | Some (caches, segwit) => (caches, ContextualCheck_witness block (is_active segwit))
          end
      end
  end.

(** * Supply *)

Fixpoint total_subsidy (params : ConsensusParams) (n : nat) : Z :=
  match n with O => 0 | S n => total_subsidy params n + GetBlockSubsidy (Z.of_nat n) params end.

(** The subsidy of an era of [nSubsidyHalvingInterval] blocks. *)
Definition era_subsidy (k : Z) : Z := if 64 <=? k then 0 else 50 * COIN / 2 ^ k.

Lemma era_subsidy_bounds k : 0 <= k -> 0 <= era_subsidy k <= 50 * COIN.
Proof.
  intros Hk. unfold era_subsidy, COIN. destruct (Z.leb_spec 64 k); [lia|]. assert (0 < 2 ^ k) by (apply Z.pow_pos_nonneg; lia).
  split; [apply Z.div_pos; lia|]. apply Z.div_le_upper_bound; nia.
Qed.

Lemma era_subsidy_halves k : 0 <= k -> 2 * era_subsidy (k + 1) <= era_subsidy k.
Proof.
  intros Hk. pose proof (era_subsidy_bounds k Hk). unfold era_subsidy at 1. destruct (Z.leb_spec 64 (k + 1)); [lia|].
  unfold era_subsidy. rewrite (proj2 (Z.leb_gt 64 k)) by lia. assert (0 < 2 ^ k) by (apply Z.pow_pos_nonneg; lia).
  rewrite Z.pow_add_r, <- Z.div_div by lia. change (2 ^ 1) with 2. apply Z.mul_div_le. lia.
Qed.

Lemma GetBlockSubsidy_era h params : 0 <= h -> 0 < nSubsidyHalvingInterval params ->
  GetBlockSubsidy h params = era_subsidy (h / nSubsidyHalvingInterval params).
Proof.
  intros Hh Hi. unfold GetBlockSubsidy, era_subsidy. rewrite Z.quot_div_nonneg by lia.
  destruct (64 <=? _); [done|]. apply Z.shiftr_div_pow2. apply Z.div_pos; lia.
Qed.

Lemma GetBlockSubsidy_bounds h params : 0 <= h -> 0 < nSubsidyHalvingInterval params -> 0 <= GetBlockSubsidy h params <= 50 * COIN.
Proof. intros Hh Hi. rewrite GetBlockSubsidy_era by done. apply era_subsidy_bounds, Z.div_pos; lia. Qed.

(** What is still to come never exceeds the rest of the era at its rate and as much again
    as a whole era. *)
Lemma total_subsidy_potential params n : 0 < nSubsidyHalvingInterval params ->
  let i := nSubsidyHalvingInterval params in
  total_subsidy params n + (2 * i - Z.of_nat n mod i) * era_subsidy (Z.of_nat n / i) <= 100 * COIN * i.
Proof.
  intros Hi. cbn zeta. set (i := nSubsidyHalvingInterval params) in *. induction n as [|n IH].
  { cbn [total_subsidy]. rewrite Z.mod_0_l, Z.div_0_l by lia. pose proof (era_subsidy_bounds 0). nia. }
  cbn [total_subsidy]. rewrite GetBlockSubsidy_era by lia. fold i.
  pose proof (Z.div_mod (Z.of_nat n) i ltac:(lia)) as Hdm. pose proof (Z.mod_pos_bound (Z.of_nat n) i Hi) as Hr.
  assert (0 <= Z.of_nat n / i) as Hq by (apply Z.div_pos; lia). set (q := Z.of_nat n / i) in *. set (r := Z.of_nat n mod i) in *.
  destruct (Z.eq_dec (r + 1) i) as [E|E].
  - assert (Z.of_nat (S n) / i = q + 1) as -> by (symmetry; apply Z.div_unique with 0; lia).
    assert (Z.of_nat (S n) mod i = 0) as -> by (symmetry; apply Z.mod_unique with (q + 1); lia).
    pose proof (era_subsidy_halves q Hq). nia.
  - assert (Z.of_nat (S n) / i = q) as -> by (symmetry; apply Z.div_unique with (r + 1); lia).
    assert (Z.of_nat (S n) mod i = r + 1) as -> by (symmetry; apply Z.mod_unique with q; lia). nia.
Qed.

Lemma total_subsidy_bound params n : 0 < nSubsidyHalvingInterval params -> total_subsidy params n <= 100 * COIN * nSubsidyHalvingInterval params.
Proof.
  intros Hi. pose proof (total_subsidy_potential params n Hi) as H. cbn zeta in H.
  pose proof (era_subsidy_bounds (Z.of_nat n / nSubsidyHalvingInterval params) ltac:(apply Z.div_pos; lia)).
  pose proof (Z.mod_pos_bound (Z.of_nat n) _ Hi). nia.
Qed.

(** * Signature operations *)

(** The operations of a script up to the first that cannot be read. *)
Fixpoint script_ops (fuel : nat) (pc : bytes) : list Z :=
  match fuel with
  | O => []
  | S fuel => match GetOp2 pc with None => [] | Some (opcode, _, pc) => opcode :: script_ops fuel pc end
  end.
Definition sigop_weight (opcode : Z) : Z :=
  if (opcode =? OP_CHECKSIG) || (opcode =? OP_CHECKSIGVERIFY) then 1
  else if (opcode =? OP_CHECKMULTISIG) || (opcode =? OP_CHECKMULTISIGVERIFY) then 20 else 0.
Definition sum_list (l : list Z) : Z := foldr Z.add 0 l.
Definition script_sigops (s : CScript) : Z := sum_list (sigop_weight <$> script_ops (length s) s).
Definition tx_scripts (tx : CTransaction) : list CScript := (scriptSig <$> vin tx) ++ (scriptPubKey <$> vout tx).
Definition tx_sigops (tx : CTransaction) : Z := sum_list (script_sigops <$> tx_scripts tx).
Definition total_size (l : list bytes) : Z := sum_list (Zlength <$> l).

Lemma sum_list_app l k : sum_list (l ++ k) = sum_list l + sum_list k.
Proof. unfold sum_list. induction l as [|x l IH]; cbn in *; lia. Qed.

Lemma sum_list_nonneg l : Forall (fun x => 0 <= x) l -> 0 <= sum_list l.
Proof. unfold sum_list. induction 1; cbn in *; lia. Qed.

Lemma sigop_weight_bounds op : 0 <= sigop_weight op <= 20.
Proof. unfold sigop_weight. destruct (_ || _); [lia|]. destruct (_ || _); lia. Qed.

Lemma script_ops_length fuel pc : (length (script_ops fuel pc) <= length pc)%nat.
Proof.
  revert pc. induction fuel as [|fuel IH]; intros pc; cbn [script_ops]; [cbn; lia|].
  destruct (GetOp2 pc) as [[[op d] pc']|] eqn:E; [|cbn; lia]. apply GetOp2_shorter in E. specialize (IH pc'). cbn. lia.
Qed.

Lemma sigop_sum_bounds l : 0 <= sum_list (sigop_weight <$> l) <= 20 * Z.of_nat (length l).
Proof. unfold sum_list. induction l as [|op l IH]; cbn in *; [lia|]. pose proof (sigop_weight_bounds op). lia. Qed.

Lemma script_sigops_bounds s : 0 <= script_sigops s <= 20 * Zlength s.
Proof. pose proof (sigop_sum_bounds (script_ops (length s) s)). pose proof (script_ops_length (length s) s). unfold script_sigops, Zlength. lia. Qed.

Lemma GetOp2_nil : GetOp2 [] = None.
Proof. done. Qed.

Lemma while_sigop fuel pc n lst : (length pc <= fuel)%nat -> 0 <= n -> n + sum_list (sigop_weight <$> script_ops fuel pc) < 2 ^ 32 ->
  while_op (sigop_body false) fst fst fuel pc (n, lst) = Some (n + sum_list (sigop_weight <$> script_ops fuel pc)).
Proof.
  revert pc n lst. induction fuel as [|fuel IH]; intros pc n lst Hl Hn Hs.
  { destruct pc; [|cbn in Hl; lia]. cbn. f_equal. lia. }
  destruct pc as [|b pc]; [cbn; f_equal; lia|]. set (p := b :: pc) in *.
  cbn [while_op]. unfold p at 1. cbn [script_ops] in *. destruct (GetOp2 p) as [[[op d] pc']|] eqn:E; [|cbn; f_equal; lia].
  apply GetOp2_shorter in E. cbn [fmap list_fmap sum_list foldr] in Hs |- *. fold (sum_list (sigop_weight <$> script_ops fuel pc')) in Hs |- *.
  pose proof (sigop_weight_bounds op). pose proof (sigop_sum_bounds (script_ops fuel pc')).
  unfold sigop_body at 1. cbn [andb]. rewrite IH; [| lia | | ].
  - f_equal. unfold sigop_weight, MAX_PUBKEYS_PER_MULTISIG in *.
    destruct (_ || _); [rewrite wrapu_small by (unfold uint_range; lia); lia|].
    destruct (_ || _); [rewrite wrapu_small by (unfold uint_range; lia); lia|lia].
  - unfold sigop_weight, MAX_PUBKEYS_PER_MULTISIG in *. repeat case_if; rewrite ?wrapu_small by (unfold uint_range; lia); lia.
  - unfold sigop_weight, MAX_PUBKEYS_PER_MULTISIG in *. repeat case_if; rewrite ?wrapu_small by (unfold uint_range; lia); lia.
Qed.

(** A 32-bit counter over a list equals the sum when the sum fits. *)
Lemma fold_u32 {A} (f : A -> Z) l n : Forall (fun x => 0 <= f x) l -> 0 <= n -> n + sum_list (f <$> l) < 2 ^ 32 ->
  fold_left (fun n x => u32 (n + f x)) l n = n + sum_list (f <$> l).
Proof.
  intros Hf. revert n. induction Hf as [|x l Hx Hf IH]; intros n Hn Hs; cbn [fold_left fmap list_fmap sum_list foldr] in *; [lia|].
  fold (sum_list (f <$> l)) in *. assert (0 <= sum_list (f <$> l)) by (apply sum_list_nonneg; by apply Forall_fmap).
  rewrite IH; rewrite ?wrapu_small by (unfold uint_range; lia); lia.
Qed.

Lemma script_sigops_sum l : 0 <= sum_list (script_sigops <$> l) <= 20 * total_size l.
Proof.
  unfold total_size, sum_list. induction l as [|s l IH]; cbn in *; [lia|]. pose proof (script_sigops_bounds s). lia.
Qed.

Lemma GetSigOpCount_spec s : 20 * Zlength s < 2 ^ 32 -> GetSigOpCount false s = script_sigops s.
Proof.
  intros Hs. pose proof (script_sigops_bounds s). unfold GetSigOpCount, script_sigops in *. by rewrite while_sigop by lia.
Qed.

Lemma total_size_elem s l : s ∈ l -> Zlength s <= total_size l.
Proof.
  unfold total_size, sum_list. induction 1 as [s l|s x l _ IH]; cbn in *; [|pose proof (Zlength_nonneg x); lia].
  assert (0 <= foldr Z.add 0 (Zlength <$> l)); [|lia]. clear. induction l as [|y l IH]; cbn; [lia|]. pose proof (Zlength_nonneg y). lia.
Qed.

Lemma total_size_app l k : total_size (l ++ k) = total_size l + total_size k.
Proof. unfold total_size. by rewrite fmap_app, sum_list_app. Qed.

Lemma GetLegacySigOpCount_spec tx : 20 * total_size (tx_scripts tx) < 2 ^ 32 -> GetLegacySigOpCount tx = tx_sigops tx.
Proof.
  intros Hs. unfold GetLegacySigOpCount, tx_sigops. pose proof (script_sigops_sum (tx_scripts tx)) as Hsum. unfold tx_scripts in *.
  rewrite fmap_app, sum_list_app, <- !list_fmap_compose in *.
  pose proof (script_sigops_sum (scriptSig <$> vin tx)) as H1. pose proof (script_sigops_sum (scriptPubKey <$> vout tx)) as H2.
  rewrite <- list_fmap_compose in H1. rewrite <- list_fmap_compose in H2.
  assert (forall s, s ∈ (scriptSig <$> vin tx) ++ (scriptPubKey <$> vout tx) -> GetSigOpCount false s = script_sigops s) as Hg.
  { intros s Hin. apply GetSigOpCount_spec. apply total_size_elem in Hin. lia. }
  assert ((fun i => GetSigOpCount false (scriptSig i)) <$> vin tx = (script_sigops ∘ scriptSig) <$> vin tx) as E1.
  { apply list_fmap_ext. intros i x Hx. apply Hg. apply elem_of_app. left. apply list_elem_of_fmap_2. by apply list_elem_of_lookup_2 in Hx. }
  assert ((fun o => GetSigOpCount false (scriptPubKey o)) <$> vout tx = (script_sigops ∘ scriptPubKey) <$> vout tx) as E2.
  { apply list_fmap_ext. intros i x Hx. apply Hg. apply elem_of_app. right. apply list_elem_of_fmap_2. by apply list_elem_of_lookup_2 in Hx. }
  assert (forall s, s ∈ (scriptSig <$> vin tx) ++ (scriptPubKey <$> vout tx) -> 0 <= GetSigOpCount false s) as H0.
  { intros s Hin. rewrite (Hg s Hin). apply script_sigops_bounds. }
  rewrite (fold_u32 (fun i => GetSigOpCount false (scriptSig i)) (vin tx) 0), (fold_u32 (fun o => GetSigOpCount false (scriptPubKey o)) (vout tx)), E1, E2; [lia|..]; try (rewrite ?E1, ?E2; lia).
  - apply Forall_forall. intros x Hx. apply H0, elem_of_app. right. by apply list_elem_of_fmap_2.
  - apply Forall_forall. intros x Hx. apply H0, elem_of_app. left. by apply list_elem_of_fmap_2.
Qed.

Ltac nonneg_lengths :=
  repeat match goal with |- context [Zlength ?x] => lazymatch goal with
    | H : 0 <= Zlength x |- _ => fail | _ => pose proof (Zlength_nonneg x) end end.

(** The scripts are inside the serialization. *)
Lemma concat_map_size {A} (ser : A -> bytes) (f : A -> bytes) l : (forall x, Zlength (f x) <= Zlength (ser x)) ->
  total_size (f <$> l) <= Zlength (concat (map ser l)).
Proof.
  intros Hf. unfold total_size, sum_list. induction l as [|x l IH]; [done|].
  cbn [fmap list_fmap foldr concat map] in *. rewrite Zlength_app. specialize (Hf x). lia.
Qed.

Lemma tx_scripts_size tx version data : SerializeTransaction tx version = Ok data -> total_size (tx_scripts tx) + 4 <= Zlength data.
Proof.
  unfold SerializeTransaction. destruct (SerializeExtData _) as [ext|]; [|done]. cbn [mbind result_bind]. intros E. apply Ok_inj in E as <-.
  unfold tx_scripts, Serialize_vin, Serialize_vout, Serialize_vector. rewrite total_size_app, !Zlength_app.
  pose proof (concat_map_size Serialize_txin scriptSig (vin tx)) as H1. pose proof (concat_map_size Serialize_txout scriptPubKey (vout tx)) as H2.
  assert (Zlength (ser_writedata32 (tx_nVersion tx)) = 4) as -> by done.
  nonneg_lengths.
  enough (total_size (scriptSig <$> vin tx) <= Zlength (concat (map Serialize_txin (vin tx))) /\
          total_size (scriptPubKey <$> vout tx) <= Zlength (concat (map Serialize_txout (vout tx)))) by lia.
  split; [apply H1|apply H2]; intros x; unfold Serialize_txin, Serialize_txout, Serialize_blob; rewrite !Zlength_app;
    nonneg_lengths; lia.
Qed.

Definition block_scripts (block : CBlock) : list CScript := concat (tx_scripts <$> vtx block).

Lemma txs_scripts_size version txs datas : mapM (fun tx => SerializeTransaction tx version) txs = Ok datas ->
  total_size (concat (tx_scripts <$> txs)) + 4 * Zlength txs <= Zlength (concat datas).
Proof.
  revert datas. induction txs as [|tx txs IH]; intros datas; [intros [= <-]; done|].
  cbn [mapM mbind result_bind]. destruct (SerializeTransaction tx version) as [d|] eqn:E; [|done].
  cbn [mbind result_bind]. destruct (mapM _ txs) as [ds|]; [|done]. cbn [mret result_ret]. intros X. apply Ok_inj in X as <-. specialize (IH ds eq_refl).
  apply tx_scripts_size in E. rewrite fmap_cons. cbn [concat]. rewrite total_size_app, Zlength_app, Zlength_cons. lia.
Qed.

Lemma block_scripts_size block version data : Serialize_block block version = Ok data ->
  total_size (block_scripts block) + 4 * Zlength (vtx block) <= Zlength data.
Proof.
  unfold Serialize_block, block_scripts. destruct (mapM _ (vtx block)) as [ds|] eqn:E; [|done]. cbn [mbind result_bind]. intros X.
  apply Ok_inj in X as <-. apply txs_scripts_size in E. rewrite !Zlength_app. nonneg_lengths. lia.
Qed.

Lemma total_size_concat (txs : list CTransaction) tx : tx ∈ txs -> total_size (tx_scripts tx) <= total_size (concat (tx_scripts <$> txs)).
Proof.
  assert (forall l : list bytes, 0 <= total_size l) as H0.
  { intros l. apply sum_list_nonneg, Forall_fmap, Forall_true. intros x. apply Zlength_nonneg. }
  induction 1 as [tx txs|tx x txs _ IH]; rewrite fmap_cons; cbn [concat]; rewrite total_size_app;
    [pose proof (H0 (concat (tx_scripts <$> txs)))|pose proof (H0 (tx_scripts x))]; lia.
Qed.

(** In a block of legal size the 32-bit counter is the number of signature operations. *)
Lemma block_sigops txs : 20 * total_size (concat (tx_scripts <$> txs)) < 2 ^ 32 ->
  fold_left (fun n tx => u32 (n + GetLegacySigOpCount tx)) txs 0 = sum_list (tx_sigops <$> txs) /\
  0 <= sum_list (tx_sigops <$> txs) <= 20 * total_size (concat (tx_scripts <$> txs)).
Proof.
  intros Hs. assert (0 <= sum_list (tx_sigops <$> txs) <= 20 * total_size (concat (tx_scripts <$> txs))) as Hb.
  { clear Hs. induction txs as [|tx txs IH]; [done|]. rewrite !fmap_cons. cbn [concat sum_list foldr].
    fold (sum_list (tx_sigops <$> txs)). rewrite total_size_app. pose proof (script_sigops_sum (tx_scripts tx)) as Ht. fold (tx_sigops tx) in Ht. lia. }
  split; [|done].
  assert (forall tx, tx ∈ txs -> GetLegacySigOpCount tx = tx_sigops tx) as Hg.
  { intros tx Hin. apply GetLegacySigOpCount_spec. apply total_size_concat in Hin. lia. }
  assert (GetLegacySigOpCount <$> txs = tx_sigops <$> txs) as E.
  { apply list_fmap_ext. intros i tx Hi. apply Hg. by apply list_elem_of_lookup_2 in Hi. }
  rewrite (fold_u32 GetLegacySigOpCount), E; [lia| |lia|rewrite E; lia].
  apply Forall_forall. intros tx Hin. rewrite (Hg tx Hin). apply script_sigops_sum.
Qed.

(** * Valid blocks *)

#[local] Opaque merkle_root tree_root ComputeHash CheckProofOfWork CBlockHeader_GetHash ComputeMerkleRoot.

Record block_valid (block : CBlock) (params : ConsensusParams) (fCheckPOW fCheckMerkleRoot : bool) : Prop := {
  bv_pow : fCheckPOW = true ->
    CheckProofOfWork (CBlockHeader_GetHash (block_header block)) (hdr_nBits (block_header block)) (cp_pow params) = true;
  bv_merkle : fCheckMerkleRoot = true ->
    exists leaves, mapM ComputeHash (vtx block) = Ok leaves /\ hashMerkleRoot (block_header block) = merkle_root 32 leaves /\
      ~ repeats leaves (length leaves);
  bv_size : exists data, Serialize_block block SERIALIZE_TRANSACTION_NO_WITNESS = Ok data /\
    Zlength data * WITNESS_SCALE_FACTOR <= MAX_BLOCK_WEIGHT;
  bv_coinbase : exists first rest, vtx block = first :: rest /\ IsCoinBase first = true /\ Forall (fun tx => IsCoinBase tx = false) rest;
  bv_txs : Forall (fun tx => transaction_valid tx false) (vtx block);
  bv_sigops : sum_list (tx_sigops <$> vtx block) * WITNESS_SCALE_FACTOR <= MAX_BLOCK_SIGOPS_COST
}.

Lemma CheckBlock_txs_spec txs : CheckBlock_txs txs = Ok tt <-> Forall (fun tx => transaction_valid tx false) txs.
Proof.
  induction txs as [|tx txs IH]; cbn [CheckBlock_txs]; [by split|]. by rewrite bind_check, Forall_cons, CheckTransaction_spec, IH.
Qed.

Lemma CheckBlock_merkle_spec block : Zlength (vtx block) <= 2 ^ 31 ->
  CheckBlock_merkle block = Ok tt <->
  exists leaves, mapM ComputeHash (vtx block) = Ok leaves /\ hashMerkleRoot (block_header block) = merkle_root 32 leaves /\
    ~ repeats leaves (length leaves).
Proof.
  intros Hl. unfold CheckBlock_merkle, BlockMerkleRoot. destruct (mapM ComputeHash (vtx block)) as [leaves|] eqn:E; [|naive_solver].
  cbn [mbind result_bind crash_if_err]. assert (length leaves = length (vtx block)) as El 
    by (symmetry; exact (Forall2_length _ _ _ (mapM_Ok_Forall2 _ _ _ E))).
  destruct (ComputeMerkleRoot_spec leaves ltac:(unfold Zlength in *; rewrite El; done)) as (mu & -> & Hmu).
  cbn [crash_if_none mbind result_bind]. rewrite tree_root_levels by (unfold Zlength in *; rewrite El; done).
  case_bool_decide as Er; cbn [negb]; [|split; [done|]; intros (? & [= <-] & ? & _); done].
  destruct mu; split; try done; [|intros _; exists leaves; split_and!; try done; rewrite <- Hmu; done].
  intros (? & [= <-] & _ & Hno). by destruct Hno; apply Hmu.
Qed.

Lemma existsb_coinbase rest : existsb IsCoinBase rest = false <-> Forall (fun tx => IsCoinBase tx = false) rest.
Proof.
  induction rest as [|tx rest IH]; cbn [existsb]; [by split|]. by rewrite orb_false_iff, Forall_cons, IH.
Qed.

Lemma CheckBlockHeader_spec h params pow :
  CheckBlockHeader h params pow = Ok tt <-> (pow = true -> CheckProofOfWork (CBlockHeader_GetHash h) (hdr_nBits h) (cp_pow params) = true).
Proof. unfold CheckBlockHeader. destruct pow, (CheckProofOfWork _ _ _); cbn; naive_solver. Qed.

(** What follows the size checks. *)
Lemma CheckBlock_tail block first rest data (b : CBlock) :
  vtx block = first :: rest -> Serialize_block block SERIALIZE_TRANSACTION_NO_WITNESS = Ok data ->
  Zlength data * WITNESS_SCALE_FACTOR <= MAX_BLOCK_WEIGHT ->
  (if negb (IsCoinBase first) then DoS 100 REJECT_INVALID "bad-cb-missing"
   else if existsb IsCoinBase rest then DoS 100 REJECT_INVALID "bad-cb-multiple"
   else
     _ ← CheckBlock_txs (vtx block);
     let nSigOps := fold_left (fun n tx => u32 (n + GetLegacySigOpCount tx)) (vtx block) 0 in
     if MAX_BLOCK_SIGOPS_COST <? u32 (nSigOps * WITNESS_SCALE_FACTOR) then DoS 100 REJECT_INVALID "bad-blk-sigops" else Ok b) = Ok b <->
  IsCoinBase first = true /\ Forall (fun tx => IsCoinBase tx = false) rest /\ Forall (fun tx => transaction_valid tx false) (vtx block) /\
  sum_list (tx_sigops <$> vtx block) * WITNESS_SCALE_FACTOR <= MAX_BLOCK_SIGOPS_COST.
Proof.
  intros Ev Ed Hd. apply block_scripts_size in Ed. unfold WITNESS_SCALE_FACTOR, MAX_BLOCK_WEIGHT in *. unfold block_scripts in Ed.
  pose proof (Zlength_nonneg (vtx block)). destruct (block_sigops (vtx block)) as [-> Hb]; [lia|].
  rewrite wrapu_small by (unfold uint_range; lia).
  rewrite <- CheckBlock_txs_spec, <- existsb_coinbase.
  destruct (IsCoinBase first); cbn [negb]; [|naive_solver]. destruct (existsb IsCoinBase rest); [naive_solver|].
  rewrite bind_check. destruct (Z.ltb_spec MAX_BLOCK_SIGOPS_COST (sum_list (tx_sigops <$> vtx block) * 4)); naive_solver lia.
Qed.

Lemma CheckBlock_spec block params pow merkle :
  fChecked block = false -> Zlength (vtx block) <= 2 ^ 31 ->
  let checked := if pow && merkle then set_fChecked block else block in
  (CheckBlock block params pow merkle = Ok checked <-> block_valid block params pow merkle) /\
  forall b, CheckBlock block params pow merkle = Ok b -> b = checked.
Proof.
  intros Hc Hl checked. unfold CheckBlock. rewrite Hc. fold checked. split.
  - rewrite !bind_check, CheckBlockHeader_spec.
    assert ((if merkle then CheckBlock_merkle block else Ok tt) = Ok tt <-> (merkle = true -> CheckBlock_merkle block = Ok tt)) as ->
      by (destruct merkle; naive_solver).
    rewrite CheckBlock_merkle_spec by done. destruct (vtx block) as [|first rest] eqn:Ev.
    { split; [naive_solver|]. intros [_ _ _ (? & ? & ? & _) _ _]. congruence. }
    rewrite <- Ev in *. destruct (Serialize_block block SERIALIZE_TRANSACTION_NO_WITNESS) as [data|e] eqn:Ed; cbn [crash_if_err mbind result_bind].
    2: { split; [destruct (_ <? _); naive_solver|]. intros [_ _ (? & ? & _) _ _ _]. congruence. }
    pose proof (block_scripts_size _ _ _ Ed) as Hsz. pose proof (script_sigops_sum (block_scripts block)) as Hs0.
    destruct (Z.ltb_spec MAX_BLOCK_WEIGHT (Zlength data * WITNESS_SCALE_FACTOR)) as [Hbig|Hfit].
    + split; [destruct (_ <? _); naive_solver|]. intros [_ _ (d & Ed' & Hd) _ _ _]. rewrite Ed in Ed'. apply Ok_inj in Ed' as <-. lia.
    + rewrite (proj2 (Z.ltb_ge _ _)) by (unfold WITNESS_SCALE_FACTOR, MAX_BLOCK_WEIGHT in *; lia).
      rewrite (CheckBlock_tail block first rest data) by done. split.
      * intros (Hp & Hm & Hcb & Hr & Ht & Hs). split; try done; [by exists data|by exists first, rest].
      * intros [Hp Hm _ (f & r & Ef & Hf & Hr) Ht Hs]. rewrite Ev in Ef. injection Ef as <- <-. done.
  - intros b. destruct (CheckBlockHeader _ _ _) as [[]|]; [|done]. cbn [mbind result_bind]. destruct (if merkle then _ else _) as [[]|]; [|done].
    cbn [mbind result_bind]. destruct (vtx block); [done|]. destruct (_ <? _); [done|]. destruct (crash_if_err _); [|done].
    cbn [mbind result_bind]. destruct (_ <? _); [done|]. destruct (negb _); [done|]. destruct (existsb _ _); [done|].
    destruct (CheckBlock_txs _) as [[]|]; [|done]. cbn [mbind result_bind]. destruct (_ <? _); [done|]. by intros [= <-].
Qed.

(** C8: a block that was not checked before passes [CheckBlock] exactly when its header
    has the work it claims, its Merkle root is that of its transactions and these do not
    repeat a subtree, it fits the size limit, its first transaction and no other is a
    coinbase, every transaction is valid (double spends inside a transaction aside), and
    the signature operations are within the limit; in a block of legal size the 32-bit
    counters cannot wrap. It is marked as checked only after the full check. *)
Theorem CheckBlock_correct block params pow merkle :
  fChecked block = false -> Zlength (vtx block) <= 2 ^ 31 ->
  let checked := if pow && merkle then set_fChecked block else block in
  (CheckBlock block params pow merkle = Ok checked <-> block_valid block params pow merkle) /\
  forall b, CheckBlock block params pow merkle = Ok b -> b = checked.
Proof. apply CheckBlock_spec. Qed.

(** * The commitment to the witnesses *)

Lemma commitment_loop_app outs out o pos : commitment_loop o pos (outs ++ [out]) =
  if is_commitment (scriptPubKey out) then i32 (o + Zlength outs) else commitment_loop o pos outs.
Proof.
  revert o pos. induction outs as [|x outs IH]; intros o pos; cbn [commitment_loop app].
  - change (Zlength (@nil CTxOut)) with 0. by rewrite Z.add_0_r.
  - rewrite IH, Zlength_cons. by replace (o + 1 + Zlength outs) with (o + (1 + Zlength outs)) by lia.
Qed.

#[local] Opaque Hash GetWitnessHash VersionBitsState.

Lemma is_commitment_made h : length h = 32%nat -> is_commitment (commitment_header ++ h) = true.
Proof.
  intros Hl. unfold is_commitment. rewrite Zlength_app. unfold Zlength at 2. rewrite Hl. rewrite take_app_length' by done.
  apply andb_true_iff. split; [done|]. by apply bool_decide_eq_true.
Qed.

Lemma commitment_index_made block first rest h : Zlength (vout first) < 2 ^ 31 -> length h = 32%nat ->
  GetWitnessCommitmentIndex (mkBlock (block_header block) (add_output first (mkTxOut 0 (commitment_header ++ h)) :: rest) (fChecked block)) =
  Zlength (vout first).
Proof.
  intros Hlen Hl. unfold GetWitnessCommitmentIndex. cbn [vtx add_output vout]. rewrite commitment_loop_app. cbn [scriptPubKey].
  rewrite is_commitment_made by done. pose proof (Zlength_nonneg (vout first)).
  rewrite Z.add_0_l. by rewrite wraps_small by (unfold sint_range; lia).
Qed.

(** After segregated witnesses are active, the block that [GenerateCoinbaseCommitment]
    makes of a fresh one passes the check of [ContextualCheckBlock]: the commitment is
    found, it matches the witnesses, and the nonce is in the coinbase; the header and the
    other transactions are the same. *)
Theorem commitment_accepted m block pindexPrev params caches caches' first rest root mutated :
  vtx block = first :: rest -> IsCoinBase first = true -> HasWitness first = false ->
  GetWitnessCommitmentIndex block = -1 -> Zlength (vout first) < 2 ^ 31 ->
  nTimeout (vDeployments (cp_deployments params) DEPLOYMENT_SEGWIT) <> 0 ->
  BlockWitnessMerkleRoot block = Ok (Some (root, mutated)) ->
  VersionBitsState m pindexPrev (cp_deployments params) DEPLOYMENT_SEGWIT caches = Some (caches', THRESHOLD_ACTIVE) ->
  exists block' commitment first', GenerateCoinbaseCommitment m block pindexPrev params caches = Ok (caches', block', commitment) /\
    CheckWitnessCommitment block' = Ok true /\ block_header block' = block_header block /\ vtx block' = first' :: rest /\
    strip_witness first' = strip_witness (add_output first (mkTxOut 0 commitment)).
Proof.
  intros Ev Hcb Hw Hidx Hlen Hto Hroot Hvb. unfold IsCoinBase in Hcb. destruct (vin first) as [|i [|]] eqn:Ei; try done.
  unfold GenerateCoinbaseCommitment. rewrite Hidx, (proj2 (Z.eqb_neq _ _)) by done. cbn [negb andb Z.eqb Pos.eqb].
  rewrite Hroot. cbn [crash_if_err mbind result_bind crash_if_none]. rewrite Ev. cbn [mbind result_bind].
  pose proof (length_Hash (root ++ witness_nonce)) as Hl. set (h := Hash (root ++ witness_nonce)) in *.
  set (first1 := add_output first (mkTxOut 0 (commitment_header ++ h))).
  pose proof (commitment_index_made block first rest h Hlen Hl) as Hidx1. fold first1 in Hidx1.
  pose proof (Zlength_nonneg (vout first)) as H0.
  unfold UpdateUncommittedBlockStructures, IsWitnessEnabled. cbn [vtx]. rewrite Hidx1, (proj2 (Z.eqb_neq _ _)), Hvb by lia.
  cbn [crash_if_none mbind result_bind]. assert (HasWitness first1 = false) as -> by done.
  change (is_active THRESHOLD_ACTIVE) with true. cbn [negb andb mbind result_bind].
  set (first2 := set_first_witness first1 [witness_nonce]).
  assert (first2 = mkTx (tx_nVersion first) [with_witness i [witness_nonce]] (vout first1) (nLockTime first) (extData first)) as E2
    by (unfold first2, set_first_witness, first1, add_output; cbn [vin]; by rewrite Ei).
  exists (mkBlock (block_header block) (first2 :: rest) (fChecked block)), (commitment_header ++ h), first2. split; [done|]. split; [|split_and!; try done].
  - unfold CheckWitnessCommitment. cbn [vtx].
    assert (GetWitnessCommitmentIndex (mkBlock (block_header block) (first2 :: rest) (fChecked block)) = Zlength (vout first)) as ->.
    { rewrite <- Hidx1. unfold GetWitnessCommitmentIndex. cbn [vtx]. by rewrite E2. }
    rewrite (proj2 (Z.eqb_neq _ _)) by lia. cbn [negb].
    assert (BlockWitnessMerkleRoot (mkBlock (block_header block) (first2 :: rest) (fChecked block)) = Ok (Some (root, mutated))) as ->.
    { rewrite <- Hroot. unfold BlockWitnessMerkleRoot. cbn [vtx]. by rewrite Ev. }
    cbn [crash_if_err crash_if_none mbind result_bind head vtx]. rewrite E2. cbn [vin head crash_if_none mbind result_bind with_witness scriptWitness vout].
    change (negb (Zlength witness_nonce =? 32)) with false. cbn [negb]. unfold first1, add_output. cbn [vout].
    unfold Zlength. rewrite Nat2Z.id, list_lookup_middle by done. cbn [crash_if_none mbind result_bind scriptPubKey]. fold h.
    rewrite drop_app_length' by done. rewrite take_ge by lia. by rewrite bool_decide_eq_true_2.
  - rewrite E2. unfold strip_witness, first1, add_output. cbn [vin tx_nVersion vout nLockTime extData map]. by rewrite Ei.
Qed.

Lemma total_subsidy_range params n : 0 < nSubsidyHalvingInterval params <= 210000 -> 0 <= total_subsidy params n <= MAX_MONEY.
Proof.
  intros Hi. pose proof (total_subsidy_bound params n ltac:(lia)). split; [|unfold MAX_MONEY, COIN in *; lia].
  induction n as [|n IH]; cbn [total_subsidy]; [lia|]. pose proof (GetBlockSubsidy_bounds (Z.of_nat n) params). pose proof (total_subsidy_bound params n). lia.
Qed.

(** With the halving interval of the main network, or a shorter one, the subsidies of
    all blocks up to any height together stay within [MAX_MONEY]. *)
Theorem subsidies_bounded params n : 0 < nSubsidyHalvingInterval params <= 210000 -> 0 <= total_subsidy params n <= MAX_MONEY.
Proof. apply total_subsidy_range. Qed.

(** ** Instances of the statements *)

#[local] Transparent merkle_root tree_root ComputeHash CheckProofOfWork CBlockHeader_GetHash ComputeMerkleRoot Hash GetWitnessHash VersionBitsState.

Definition demo_pow : PowParams := mkPowParams (replicate 31 xff ++ [x7f]) false true 600 1209600.
(** Every block is a period of its own and needs no signals. *)
Definition demo_deployments : DeploymentParams := mkDeploymentParams 0 1 (fun _ => mkDeployment 28 (-1) 999999999999).
Definition demo_rules : ConsensusParams := mkConsensus (replicate 32 x00) 150 0 [] 100000000 100000000 demo_deployments demo_pow.
Definition demo_coinbase : CTransaction :=
  mkTx 1 [mkTxIn (mkOutPoint (replicate 32 x00) 0xffffffff) [x51; x51] 0xffffffff []] [mkTxOut 50 [x51]] 0 CExtData_default.
Definition demo_root : uint256 := match ComputeHash demo_coinbase with Ok h => h | Err _ => [] end.
Definition demo_block : CBlock := mkBlock (mkHeader 4 (replicate 32 x00) demo_root 1600 0x207fffff 1) [demo_coinbase] false.

Lemma CheckBlock_correct_witness :
  CheckBlock demo_block demo_rules true true = Ok (set_fChecked demo_block) /\ block_valid demo_block demo_rules true true.
Proof.
  destruct (CheckBlock_correct demo_block demo_rules true true eq_refl ltac:(vm_compute; discriminate)) as [Hiff _].
  assert (CheckBlock demo_block demo_rules true true = Ok (set_fChecked demo_block)) as E by (vm_compute; reflexivity).
  split; [exact E|]. apply Hiff. exact E.
Defined.

Lemma demo_active : exists caches, VersionBitsState sample_index (Some [x03]) demo_deployments DEPLOYMENT_SEGWIT VersionBitsCache_Clear =
  Some (caches, THRESHOLD_ACTIVE).
Proof.
  assert (snd <$> VersionBitsState sample_index (Some [x03]) demo_deployments DEPLOYMENT_SEGWIT VersionBitsCache_Clear = Some THRESHOLD_ACTIVE)
    as Es by (vm_compute; reflexivity).
  destruct (VersionBitsState _ _ _ _ _) as [[caches s]|]; [|discriminate Es]. injection Es as ->. by exists caches.
Qed.

Lemma demo_witness_root : exists root mutated, BlockWitnessMerkleRoot demo_block = Ok (Some (root, mutated)).
Proof.
  destruct (BlockWitnessMerkleRoot demo_block) as [[[root mutated]|]|] eqn:Er; [by eexists _, _|exfalso; vm_compute in Er; discriminate..].
Qed.

Lemma commitment_accepted_witness :
  exists caches block' commitment, GenerateCoinbaseCommitment sample_index demo_block (Some [x03]) demo_rules VersionBitsCache_Clear =
    Ok (caches, block', commitment) /\ CheckWitnessCommitment block' = Ok true.
Proof.
  destruct demo_active as [caches Ev]. destruct demo_witness_root as (root & mutated & Er).
  destruct (commitment_accepted sample_index demo_block (Some [x03]) demo_rules VersionBitsCache_Clear caches demo_coinbase [] root mutated
    eq_refl eq_refl eq_refl eq_refl eq_refl ltac:(discriminate) Er Ev) as (block' & commitment & first' & E1 & E2 & _).
  exists caches, block', commitment. split; [exact E1|exact E2].
Defined.

Lemma subsidies_bounded_witness : 0 <= total_subsidy demo_rules 3 <= MAX_MONEY /\ total_subsidy demo_rules 3 = 150 * COIN.
Proof. split; [apply (subsidies_bounded demo_rules 3); cbn; lia|reflexivity]. Defined.
