(* ===== verification/Headers.v ===== *)
(** * Headers into the index (topchain/src/validation.cpp, checkpoints.cpp)

    [ContextualCheckBlockHeader], [AcceptBlockHeader] and [ProcessNewBlockHeaders]: the
    rules that tie a header to its parent, and the invariant of the index they keep. *)

From Stdlib Require Import Strings.String.
From S2P Require Import Prelude Serialize Sha256 Primitives ArithUint256 Chain MedianTime Versionbits Pow Script Coins TxVerify BlockCheck.

#[local] Open Scope Z_scope.

Definition MAX_FUTURE_BLOCK_TIME : Z := 2 * 60 * 60.

(** The checkpoints from the highest down. *)
Fixpoint GetLastCheckpoint (m : BlockMap) (rev_checkpoints : list (Z * uint256)) : option uint256 :=
  match rev_checkpoints with
  | [] => None
  | (_, hash) :: rest => if bool_decide (is_Some (m !! hash)) then Some hash else GetLastCheckpoint m rest
  end.

(** [%08x] *)
Fixpoint hex_digits (n : nat) (x : Z) : string :=
  match n with
  | O => ""
  | S n => String (Ascii.ascii_of_nat (let d := Z.to_nat (Z.land (Z.shiftr x (4 * Z.of_nat n)) 15) in
                                       if (d <? 10)%nat then 48 + d else 87 + d)) (hex_digits n x)
  end.
Definition hex8 : Z -> string := hex_digits 8.

(** [rev_checkpoints] is empty when checkpoints are disabled. *)
Definition ContextualCheckBlockHeader (m : BlockMap) (block : CBlockHeader) (params : ConsensusParams)
    (rev_checkpoints : list (Z * uint256)) (pindexPrev : uint256) (nAdjustedTime : Z) : result failure unit :=
  prev ← crash_if_none (m !! pindexPrev);
  let nHeight := i32 (bi_nHeight prev + 1) in
  required ← crash_if_none (GetNextWorkRequired m pindexPrev (hdr_nTime block) (cp_pow params));
  if negb (hdr_nBits block =? required) then DoS 100 REJECT_INVALID "bad-diffbits"
  else if match GetLastCheckpoint m rev_checkpoints with
          | Some pcheckpoint => match m !! pcheckpoint with Some c => nHeight <? bi_nHeight c | None => false end
          | None => false
          end
  then DoS 100 REJECT_CHECKPOINT "bad-fork-prior-to-checkpoint"
  else
    mtp ← crash_if_none (GetMedianTimePast m pindexPrev);
    if hdr_nTime block <=? mtp then Invalid REJECT_INVALID "time-too-old"
    else if nAdjustedTime + MAX_FUTURE_BLOCK_TIME <? hdr_nTime block then Invalid REJECT_INVALID "time-too-new"
    else if ((hdr_nVersion block <? 2) && (BIP34Height params <=? nHeight)) ||
            ((hdr_nVersion block <? 3) && (BIP66Height params <=? nHeight)) ||
            ((hdr_nVersion block <? 4) && (BIP65Height params <=? nHeight))
    then Invalid REJECT_OBSOLETE ("bad-version(0x" ++ hex8 (u32 (hdr_nVersion block)) ++ ")")
    else Ok tt.

(** ** Headers into the index *)

(** The walk from [pindexPrev] down to the failed block marks the entries on the way. *)
Fixpoint mark_failed_children (fuel : nat) (failedit invalid_walk : uint256) (st : index_state) : option index_state :=
  match fuel with
  | O => None
  | S fuel =>
      if bool_decide (invalid_walk = failedit) then Some st
      else
        n ← mapBlockIndex st !! invalid_walk;
        let n' := set_status (Z.lor (bi_nStatus n) BLOCK_FAILED_CHILD) n in
        let st := mkIndexState (<[invalid_walk := n']> (mapBlockIndex st)) (pindexBestHeader st)
                    ({[invalid_walk]} ∪ setDirtyBlockIndex st) in
        next ← bi_pprev n;
        mark_failed_children fuel failedit next st
  end.

(** The search through [g_failed_blocks]: [None] inside the result if no block of it is
    an ancestor of [pindexPrev]. *)
Fixpoint find_failed_ancestor (failed : list uint256) (pindexPrev : uint256) (m : BlockMap) : option (option uint256) :=
  match failed with
  | [] => Some None
  | failedit :: failed =>
      f ← m !! failedit;
      a ← GetAncestor m pindexPrev (bi_nHeight f);
      if bool_decide (a = Some failedit) then
        if Z.land (bi_nStatus f) BLOCK_FAILED_VALID =? 0 then None else Some (Some failedit)
      else find_failed_ancestor failed pindexPrev m
  end.

Definition check_failed_blocks (st : index_state) (failed : list uint256) (pindexPrev : uint256) (prev : CBlockIndex)
  : index_state * result failure unit :=
  match IsValid BLOCK_VALID_SCRIPTS prev with
  | None => (st, Err Crash)
  | Some true => (st, Ok tt)
  | Some false =>
      match find_failed_ancestor failed pindexPrev (mapBlockIndex st) with
      | None => (st, Err Crash)
      | Some None => (st, Ok tt)
      | Some (Some failedit) =>
          match mark_failed_children (S (Z.to_nat (bi_nHeight prev))) failedit pindexPrev st with
          | None => (st, Err Crash)
          | Some st => (st, DoS 100 REJECT_INVALID "bad-prevblk")
          end
      end
  end.

Definition AddHeader (st : index_state) (block : CBlockHeader) : index_state * result failure uint256 :=
  match AddToBlockIndex st block with Some (st, p) => (st, Ok p) | None => (st, Err Crash) end.

(** [g_failed_blocks] is given in the order its iteration visits it. *)
Definition AcceptBlockHeader (st : index_state) (failed : list uint256) (block : CBlockHeader) (params : ConsensusParams)
    (rev_checkpoints : list (Z * uint256)) (nAdjustedTime : Z) : index_state * result failure uint256 :=
  let hash := CBlockHeader_GetHash block in
  let m := mapBlockIndex st in
  if bool_decide (hash = hashGenesisBlock params) then AddHeader st block
  else
    match m !! hash with
    | Some n => if negb (Z.land (bi_nStatus n) BLOCK_FAILED_MASK =? 0) then (st, Invalid 0 "duplicate") else (st, Ok hash)
    | None =>
        match CheckBlockHeader block params true, m !! hashPrevBlock block with
        | Err e, _ => (st, Err e)
        | Ok _, None => (st, DoS 10 0 "prev-blk-not-found")
        | Ok _, Some prev =>
            if negb (Z.land (bi_nStatus prev) BLOCK_FAILED_MASK =? 0) then (st, DoS 100 REJECT_INVALID "bad-prevblk")
            else
              match ContextualCheckBlockHeader m block params rev_checkpoints (hashPrevBlock block) nAdjustedTime with
              | Err e => (st, Err e)
              | Ok _ =>
                  match check_failed_blocks st failed (hashPrevBlock block) prev with
                  | (st, Err e) => (st, Err e)
                  | (st, Ok _) => AddHeader st block
                  end
              end
        end
    end.

(** The headers of a message in order: the entry of the last accepted one and, when one is
    refused, that header. *)
Fixpoint ProcessNewBlockHeaders (st : index_state) (failed : list uint256) (headers : list CBlockHeader) (params : ConsensusParams)
    (rev_checkpoints : list (Z * uint256)) (nAdjustedTime : Z) (ppindex : option uint256)
  : index_state * option uint256 * result (failure * CBlockHeader) unit :=
  match headers with
  | [] => (st, ppindex, Ok tt)
  | header :: headers =>
      match AcceptBlockHeader st failed header params rev_checkpoints nAdjustedTime with
      | (st, Err e) => (st, ppindex, Err (e, header))
      | (st, Ok p) => ProcessNewBlockHeaders st failed headers params rev_checkpoints nAdjustedTime (Some p)
      end
  end.

(** * Growing the index

    Accepting a header adds an entry or raises the failure flag of existing ones; nothing
    the rules read of an existing entry changes. *)

Definition status_up (n n' : CBlockIndex) : Prop := n' = n \/ n' = set_status (Z.lor (bi_nStatus n) BLOCK_FAILED_CHILD) n.
Definition extends (m m' : BlockMap) : Prop := forall p n, m !! p = Some n -> exists n', m' !! p = Some n' /\ status_up n n'.

Lemma status_up_fields n n' : status_up n n' -> exists s, n' = set_status s n.
Proof. intros [->| ->]; [exists (bi_nStatus n); by destruct n|by eexists]. Qed.

Lemma extends_lookup m m' p n : extends m m' -> m !! p = Some n -> exists s, m' !! p = Some (set_status s n).
Proof. intros He Hp. destruct (He p n Hp) as (n' & -> & Hs). destruct (status_up_fields _ _ Hs) as [s ->]. by exists s. Qed.

#[export] Instance extends_refl : Reflexive extends.
Proof. intros m p n Hp. exists n. split; [done|by left]. Qed.

#[export] Instance extends_trans : Transitive extends.
Proof.
  intros m1 m2 m3 H12 H23 p n Hp. destruct (H12 p n Hp) as (n2 & H2 & S2). destruct (H23 p n2 H2) as (n3 & H3 & S3).
  exists n3. split; [done|]. destruct S2 as [->| ->], S3 as [->| ->]; try (by left); right; [done..|].
  cbn. unfold set_status. cbn. f_equal. by rewrite <- Z.lor_assoc, Z.lor_diag.
Qed.

Lemma extends_insert m p n : m !! p = None -> extends m (<[p := n]> m).
Proof. intros Hp q nq Hq. exists nq. rewrite lookup_insert_ne by congruence. split; [done|by left]. Qed.

Lemma extends_mark m p n : m !! p = Some n -> extends m (<[p := set_status (Z.lor (bi_nStatus n) BLOCK_FAILED_CHILD) n]> m).
Proof.
  intros Hp q nq Hq. destruct (decide (q = p)) as [->|Hne].
  - rewrite lookup_insert_eq. eexists. split; [done|]. right. congruence.
  - rewrite lookup_insert_ne by done. exists nq. split; [done|by left].
Qed.

(** What the header rules read of an entry. *)
Record same_header (n n' : CBlockIndex) : Prop := {
  sh_pprev : bi_pprev n' = bi_pprev n;
  sh_pskip : bi_pskip n' = bi_pskip n;
  sh_height : bi_nHeight n' = bi_nHeight n;
  sh_work : bi_nChainWork n' = bi_nChainWork n;
  sh_time : bi_nTime n' = bi_nTime n;
  sh_bits : bi_nBits n' = bi_nBits n;
  sh_version : bi_nVersion n' = bi_nVersion n
}.
Definition includes (m m' : BlockMap) : Prop := forall p n, m !! p = Some n -> exists n', m' !! p = Some n' /\ same_header n n'.

Lemma extends_includes m m' : extends m m' -> includes m m'.
Proof. intros He p n Hp. destruct (extends_lookup m m' p n He Hp) as [s Hs]. exists (set_status s n). by split. Qed.

Section extension.
Context (m m' : BlockMap) (Hext : includes m m').

Lemma includes_ancestor k p q : ancestor m k p = Some q -> ancestor m' k p = Some q.
Proof using Hext.
  revert p. induction k as [|k IH]; intros p; cbn [ancestor]; [done|]. destruct (m !! p) as [n|] eqn:Hp; [|done].
  destruct (Hext p n Hp) as (n' & -> & E). cbn. rewrite (sh_pprev _ _ E). destruct (bi_pprev n) as [r|]; [|done]. apply IH.
Qed.

Lemma includes_GetAncestor_loop fuel p hw h q : GetAncestor_loop fuel m p hw h = Some q -> GetAncestor_loop fuel m' p hw h = Some q.
Proof using Hext.
  revert p hw. induction fuel as [|fuel IH]; intros p hw; cbn [GetAncestor_loop]; [done|]. destruct (hw >? h); [|done].
  destruct (m !! p) as [n|] eqn:Hp; [|done]. destruct (Hext p n Hp) as (n' & -> & E). cbn.
  rewrite (sh_pskip _ _ E), (sh_pprev _ _ E).
  destruct (bi_pskip n); [destruct (follow_skip hw h); [apply IH|]|]; (destruct (bi_pprev n); [apply IH|done]).
Qed.

Lemma includes_GetAncestor p h r : GetAncestor m p h = Some r -> GetAncestor m' p h = Some r.
Proof using Hext.
  unfold GetAncestor. destruct (m !! p) as [n|] eqn:Hp; [|done]. destruct (Hext p n Hp) as (n' & -> & E).
  cbn [mbind option_bind]. rewrite (sh_height _ _ E). destruct (_ || _); [done|].
  destruct (GetAncestor_loop _ m p _ h) as [q|] eqn:El; [|done]. by rewrite (includes_GetAncestor_loop _ _ _ _ _ El).
Qed.

Lemma includes_median_times i p ts : median_times i m p = Some ts -> median_times i m' p = Some ts.
Proof using Hext.
  revert p ts. induction i as [|i IH]; intros [p|] ts; cbn [median_times]; try done. destruct (m !! p) as [n|] eqn:Hp; [|done].
  destruct (Hext p n Hp) as (n' & -> & E). cbn [mbind option_bind]. rewrite (sh_pprev _ _ E), (sh_time _ _ E).
  destruct (median_times i m (bi_pprev n)) as [l|] eqn:El; [|done]. by rewrite (IH _ _ El).
Qed.

Lemma includes_GetMedianTimePast p t : GetMedianTimePast m p = Some t -> GetMedianTimePast m' p = Some t.
Proof using Hext.
  unfold GetMedianTimePast. destruct (median_times nMedianTimeSpan m (Some p)) as [ts|] eqn:E; [|done]. by rewrite (includes_median_times _ _ _ E).
Qed.

Lemma includes_min_difficulty_walk fuel i b p r : min_difficulty_walk fuel m i b p = Some r -> min_difficulty_walk fuel m' i b p = Some r.
Proof using Hext.
  revert p. induction fuel as [|fuel IH]; intros p; cbn [min_difficulty_walk]; [done|]. destruct (m !! p) as [n|] eqn:Hp; [|done].
  destruct (Hext p n Hp) as (n' & -> & E). cbn. rewrite (sh_pprev _ _ E), (sh_height _ _ E), (sh_bits _ _ E).
  destruct (bi_pprev n); [|done]. destruct (_ && _); [apply IH|done].
Qed.

Lemma includes_GetNextWorkRequired p t params r : GetNextWorkRequired m p t params = Some r -> GetNextWorkRequired m' p t params = Some r.
Proof using Hext.
  unfold GetNextWorkRequired. destruct (m !! p) as [n|] eqn:Hp; [|done]. destruct (Hext p n Hp) as (n' & -> & E).
  cbn [mbind option_bind]. rewrite (sh_height _ _ E), (sh_time _ _ E), (sh_bits _ _ E). destruct (GetCompact _ _); [|done]. cbn [mbind option_bind].
  destruct (negb _); [destruct (fPowAllowMinDifficultyBlocks params); [|done]; destruct (t >? _); [done|]; apply includes_min_difficulty_walk|].
  destruct (_ <? 0); [done|]. destruct (GetAncestor m p _) as [[f|]|] eqn:Ea; try done. rewrite (includes_GetAncestor _ _ _ Ea).
  cbn [mbind option_bind]. destruct (m !! f) as [nf|] eqn:Hf; [|done]. destruct (Hext f nf Hf) as (nf' & -> & Ef). cbn [mbind option_bind].
  rewrite (sh_time _ _ Ef). unfold CalculateNextWorkRequired. by rewrite (sh_time _ _ E), (sh_bits _ _ E).
Qed.

(** *** The states of the deployments *)

Lemma condition_header params pos n n' : same_header n n' ->
  Condition (VersionBitsConditionChecker params pos) n' = Condition (VersionBitsConditionChecker params pos) n.
Proof using. intros E. cbn. by rewrite (sh_version _ _ E). Qed.

Context (params : DeploymentParams) (pos : DeploymentPos).
Let ch : checker := VersionBitsConditionChecker params pos.

Lemma includes_count_signals i p c : count_signals m ch i p = Some c -> count_signals m' ch i p = Some c.
Proof using Hext.
  revert p c. induction i as [|i IH]; intros p c; cbn [count_signals]; [done|]. destruct p as [p|]; [|done]. cbn [mbind option_bind].
  destruct (m !! p) as [n|] eqn:Hp; [|done]. destruct (Hext p n Hp) as (n' & -> & E). cbn [mbind option_bind].
  destruct (count_signals m ch i (bi_pprev n)) as [c0|] eqn:Ec; [|done]. rewrite (sh_pprev _ _ E), (IH _ _ Ec). cbn [mbind option_bind].
  unfold ch. by rewrite (condition_header params pos n n' E).
Qed.

Lemma includes_next_state p s s' : next_state m ch p s = Some s' -> next_state m' ch p s = Some s'.
Proof using Hext.
  unfold next_state. destruct s; try done.
  - destruct (GetMedianTimePast m p) as [t|] eqn:Et; [|done]. by rewrite (includes_GetMedianTimePast _ _ Et).
  - destruct (GetMedianTimePast m p) as [t|] eqn:Et; [|done]. rewrite (includes_GetMedianTimePast _ _ Et). cbn [mbind option_bind].
    destruct (_ <=? _); [done|]. destruct (count_signals m ch _ (Some p)) as [c|] eqn:Ec; [|done]. by rewrite (includes_count_signals _ _ _ Ec).
Qed.

Lemma includes_ref_state k p s : ref_state m ch k p = Some s -> ref_state m' ch k p = Some s.
Proof using Hext.
  revert p s. induction k as [|k IH]; intros [p|] s; cbn [ref_state]; try done. destruct (m !! p) as [n|] eqn:Hp; [|done].
  destruct (Hext p n Hp) as (n' & -> & E). cbn [mbind option_bind]. rewrite (sh_height _ _ E).
  destruct (GetAncestor m p (bi_nHeight n - Period ch)) as [a|] eqn:Ea; [|done]. rewrite (includes_GetAncestor _ _ _ Ea). cbn [mbind option_bind].
  destruct (ref_state m ch k a) as [s0|] eqn:Er; [|done]. rewrite (IH _ _ Er). cbn [mbind option_bind]. apply includes_next_state.
Qed.

Lemma includes_cache_sound c : cache_sound m ch c -> cache_sound m' ch c.
Proof using Hext.
  intros Hc p s Hs. destruct (Hc p s Hs) as (k & Ha & Hr). exists k. split; [|by apply includes_ref_state].
  destruct p as [p|]; [|done]. destruct Ha as (n & Hn & Eh & Hk). destruct (Hext p n Hn) as (n' & Hn' & E). exists n'.
  by rewrite (sh_height _ _ E).
Qed.

End extension.

#[local] Opaque CBlockHeader_GetHash CheckProofOfWork GetNextWorkRequired GetMedianTimePast.

(** * The invariant of the header index *)

(** Besides the shape of the tree: every entry with a parent has a hash that meets its
    claimed target, the target the rule demands there, and a time past the median before
    it; the blocks recorded as failed are in the index and flagged. *)
Record headers_ok (params : ConsensusParams) (failed : list uint256) (st : index_state) : Prop := {
  ho_inv : index_inv st;
  ho_times : times_ok (mapBlockIndex st);
  ho_bits : map_Forall (fun _ n => uint_range 32 (bi_nBits n)) (mapBlockIndex st);
  ho_incr : times_increase (mapBlockIndex st);
  ho_pow : forall p n q, mapBlockIndex st !! p = Some n -> bi_pprev n = Some q ->
    CheckProofOfWork p (bi_nBits n) (cp_pow params) = true /\
    GetNextWorkRequired (mapBlockIndex st) q (bi_nTime n) (cp_pow params) = Some (bi_nBits n);
  ho_failed : Forall (fun f => exists n, mapBlockIndex st !! f = Some n /\ Z.land (bi_nStatus n) BLOCK_FAILED_VALID <> 0) failed
}.

(** What an entry that was not there before must meet. *)
Definition entry_fits (m : BlockMap) (params : ConsensusParams) (p : uint256) (n : CBlockIndex) : Prop :=
  uint_range 32 (bi_nTime n) /\ uint_range 32 (bi_nBits n) /\
  forall q, bi_pprev n = Some q ->
    (exists t, GetMedianTimePast m q = Some t /\ t < bi_nTime n) /\
    CheckProofOfWork p (bi_nBits n) (cp_pow params) = true /\
    GetNextWorkRequired m q (bi_nTime n) (cp_pow params) = Some (bi_nBits n).

Lemma status_up_failed n n' : status_up n n' -> Z.land (bi_nStatus n) BLOCK_FAILED_VALID <> 0 -> Z.land (bi_nStatus n') BLOCK_FAILED_VALID <> 0.
Proof.
  intros [->| ->]; [done|]. cbn. rewrite Z.land_lor_distr_l. change (Z.land BLOCK_FAILED_CHILD BLOCK_FAILED_VALID) with 0.
  by rewrite Z.lor_0_r.
Qed.

Lemma headers_ok_fits params failed st p n : headers_ok params failed st -> mapBlockIndex st !! p = Some n ->
  entry_fits (mapBlockIndex st) params p n.
Proof.
  intros [Hinv Ht Hb Hi Hp _] Hn. split; [by apply (Ht p)|]. split; [by apply (Hb p)|]. intros q Hq.
  destruct (Hp p n q Hn Hq) as [H1 H2]. split; [|done]. pose proof (inv_index _ Hinv) as Hok.
  destruct (parent_ok _ Hok p n q Hn Hq) as (nq & Hnq & _).
  destruct (GetMedianTimePast_spec _ q nq Hok Ht Hnq) as (t & Et & _). exists t. split; [done|]. by apply (Hi p n q t).
Qed.

Lemma headers_ok_extends params failed st st' :
  headers_ok params failed st -> extends (mapBlockIndex st) (mapBlockIndex st') -> index_inv st' ->
  (forall p n, mapBlockIndex st' !! p = Some n -> is_Some (mapBlockIndex st !! p) \/ entry_fits (mapBlockIndex st) params p n) ->
  headers_ok params failed st'.
Proof.
  intros Hh He Hinv Hnew.
  assert (forall p n, mapBlockIndex st' !! p = Some n -> entry_fits (mapBlockIndex st) params p n) as Hfit.
  { intros p n Hp. destruct (Hnew p n Hp) as [[n0 H0]|Hf]; [|done]. destruct (extends_lookup _ _ _ _ He H0) as [s Hs].
    rewrite Hp in Hs. injection Hs as ->. exact (headers_ok_fits _ _ _ _ _ Hh H0). }
  split; [done|..].
  - intros p n Hp. apply (Hfit p n Hp).
  - intros p n Hp. apply (Hfit p n Hp).
  - intros p n q t Hp Hq Et. destruct (Hfit p n Hp) as (_ & _ & Hf). destruct (Hf q Hq) as ((t' & Et' & Hlt) & _).
    pose proof (includes_GetMedianTimePast _ _ (extends_includes _ _ He) _ _ Et'). congruence.
  - intros p n q Hp Hq. destruct (Hfit p n Hp) as (_ & _ & Hf). destruct (Hf q Hq) as (_ & H1 & H2).
    split; [done|]. by apply (includes_GetNextWorkRequired _ _ (extends_includes _ _ He)).
  - eapply Forall_impl; [apply (ho_failed _ _ _ Hh)|]. cbn. intros f (n & Hn & Hs). destruct (He f n Hn) as (n' & Hn' & Hup).
    exists n'. split; [done|]. by apply (status_up_failed n).
Qed.

(** The invariant depends only on what the header rules read, the best header and the
    flags of the failed blocks. *)
Lemma headers_ok_same params failed failed' st st' :
  headers_ok params failed st -> includes (mapBlockIndex st) (mapBlockIndex st') ->
  (forall p, is_Some (mapBlockIndex st' !! p) -> is_Some (mapBlockIndex st !! p)) -> index_inv st' ->
  Forall (fun f => exists n, mapBlockIndex st' !! f = Some n /\ Z.land (bi_nStatus n) BLOCK_FAILED_VALID <> 0) failed' ->
  headers_ok params failed' st'.
Proof.
  intros Hh He Hdom Hinv Hf.
  assert (forall p n', mapBlockIndex st' !! p = Some n' -> exists n, mapBlockIndex st !! p = Some n /\ same_header n n') as Hback.
  { intros p n' Hp. destruct (Hdom p ltac:(by eexists)) as [n Hn]. destruct (He p n Hn) as (n0 & Hn0 & E).
    exists n. split; [done|]. by assert (n' = n0) as -> by congruence. }
  split; [done|..|done].
  - intros p n' Hp. destruct (Hback p n' Hp) as (n & Hn & E). rewrite (sh_time _ _ E). by apply (ho_times _ _ _ Hh p).
  - intros p n' Hp. destruct (Hback p n' Hp) as (n & Hn & E). rewrite (sh_bits _ _ E). by apply (ho_bits _ _ _ Hh p).
  - intros p n' q t Hp Hq Et. destruct (Hback p n' Hp) as (n & Hn & E). rewrite (sh_pprev _ _ E) in Hq. rewrite (sh_time _ _ E).
    destruct (headers_ok_fits _ _ _ _ _ Hh Hn) as (_ & _ & Hfit). destruct (Hfit q Hq) as ((t' & Et' & Hlt) & _).
    pose proof (includes_GetMedianTimePast _ _ He _ _ Et'). congruence.
  - intros p n' q Hp Hq. destruct (Hback p n' Hp) as (n & Hn & E). rewrite (sh_pprev _ _ E) in Hq. rewrite (sh_time _ _ E), (sh_bits _ _ E).
    destruct (ho_pow _ _ _ Hh p n q Hn Hq) as [H1 H2]. split; [done|]. by apply (includes_GetNextWorkRequired _ _ He).
Qed.

Lemma index_ok_marked m m' : index_ok m -> extends m m' -> (forall p n, m' !! p = Some n -> is_Some (m !! p)) -> index_ok m'.
Proof.
  intros Hok He Hdom p n' Hp. destruct (Hdom p n' Hp) as [n Hn]. destruct (extends_lookup _ _ _ _ He Hn) as [s Hs].
  rewrite Hp in Hs. injection Hs as ->. destruct (Hok p n Hn) as [H0 H1]. split; [done|]. cbn.
  destruct (bi_pprev n) as [q|]; [|done]. destruct H1 as [(nq & Hq & Eh) Hs']. split.
  - destruct (extends_lookup _ _ _ _ He Hq) as [s' Hq']. by exists (set_status s' nq).
  - intros x Hx. apply (includes_ancestor _ _ (extends_includes _ _ He)). by apply Hs'.
Qed.

Lemma index_inv_marked st st' :
  index_inv st -> extends (mapBlockIndex st) (mapBlockIndex st') ->
  (forall p n, mapBlockIndex st' !! p = Some n -> is_Some (mapBlockIndex st !! p)) ->
  pindexBestHeader st' = pindexBestHeader st -> index_inv st'.
Proof.
  intros [Hok Hw Hb] He Hdom Ebest.
  assert (forall p n', mapBlockIndex st' !! p = Some n' -> exists n s, mapBlockIndex st !! p = Some n /\ n' = set_status s n) as Hback.
  { intros p n' Hp. destruct (Hdom p n' Hp) as [n Hn]. destruct (extends_lookup _ _ _ _ He Hn) as [s Hs]. exists n, s. split; [done|congruence]. }
  split.
  - by apply (index_ok_marked (mapBlockIndex st)).
  - intros p n' Hp. destruct (Hback p n' Hp) as (n & s & Hn & ->). apply (Hw p n Hn).
  - rewrite Ebest. destruct (pindexBestHeader st) as [b|].
    + destruct Hb as (nb & Hnb & Hmax). destruct (extends_lookup _ _ _ _ He Hnb) as [s Hs]. exists (set_status s nb). split; [done|].
      intros p n' Hp. destruct (Hback p n' Hp) as (n & s' & Hn & ->). apply (Hmax p n Hn).
    + apply map_empty. intros p. apply eq_None_not_Some. intros [n' Hp]. destruct (Hback p n' Hp) as (n & s & Hn & _).
      rewrite Hb in Hn. done.
Qed.

(** ** What a valid header is *)

Definition is_ancestor (m : BlockMap) (f p : uint256) : Prop := exists k, ancestor m k p = Some f.

Record context_ok (m : BlockMap) (block : CBlockHeader) (params : ConsensusParams) (rev_checkpoints : list (Z * uint256))
    (prev : CBlockIndex) (nAdjustedTime : Z) : Prop := {
  co_bits : GetNextWorkRequired m (hashPrevBlock block) (hdr_nTime block) (cp_pow params) = Some (hdr_nBits block);
  co_checkpoint : forall c nc, GetLastCheckpoint m rev_checkpoints = Some c -> m !! c = Some nc -> bi_nHeight nc <= i32 (bi_nHeight prev + 1);
  co_old : exists t, GetMedianTimePast m (hashPrevBlock block) = Some t /\ t < hdr_nTime block;
  co_new : hdr_nTime block <= nAdjustedTime + MAX_FUTURE_BLOCK_TIME;
  co_version : (BIP34Height params <= i32 (bi_nHeight prev + 1) -> 2 <= hdr_nVersion block) /\
    (BIP66Height params <= i32 (bi_nHeight prev + 1) -> 3 <= hdr_nVersion block) /\
    (BIP65Height params <= i32 (bi_nHeight prev + 1) -> 4 <= hdr_nVersion block)
}.

Definition no_failed_ancestor (m : BlockMap) (failed : list uint256) (p : uint256) (prev : CBlockIndex) : Prop :=
  IsValid BLOCK_VALID_SCRIPTS prev = Some true \/ Forall (fun f => ~ is_ancestor m f p) failed.

(** A header is accepted if it is known and not failed, or if it is the first block, or
    if it meets the rules on a parent that is known and neither failed nor below a failed
    block. *)
Definition header_valid (st : index_state) (failed : list uint256) (block : CBlockHeader) (params : ConsensusParams)
    (rev_checkpoints : list (Z * uint256)) (nAdjustedTime : Z) : Prop :=
  let hash := CBlockHeader_GetHash block in
  let m := mapBlockIndex st in
  hash = hashGenesisBlock params \/
  match m !! hash with
  | Some n => Z.land (bi_nStatus n) BLOCK_FAILED_MASK = 0
  | None =>
      CheckProofOfWork hash (hdr_nBits block) (cp_pow params) = true /\
      exists prev, m !! hashPrevBlock block = Some prev /\ Z.land (bi_nStatus prev) BLOCK_FAILED_MASK = 0 /\
        context_ok m block params rev_checkpoints prev nAdjustedTime /\ no_failed_ancestor m failed (hashPrevBlock block) prev
  end.

Lemma ContextualCheckBlockHeader_spec m block params cps prev adj :
  index_ok m -> times_ok m -> map_Forall (fun _ n => uint_range 32 (bi_nBits n)) m -> params_ok (cp_pow params) ->
  m !! hashPrevBlock block = Some prev ->
  match ContextualCheckBlockHeader m block params cps (hashPrevBlock block) adj with
  | Ok _ => context_ok m block params cps prev adj
  | Err e => e <> Crash /\ ~ context_ok m block params cps prev adj
  end.
Proof.
  intros Hok Ht Hb Hpar Hp. unfold ContextualCheckBlockHeader. rewrite Hp. cbn [crash_if_none mbind result_bind].
  destruct (GetNextWorkRequired_total m _ prev (hdr_nTime block) _ Hok Hpar Hp (Hb _ _ Hp)) as [req Ereq].
  destruct (GetMedianTimePast_spec m _ prev Hok Ht Hp) as (t & Et & _).
  rewrite Ereq. cbn [crash_if_none mbind result_bind]. set (nH := i32 (bi_nHeight prev + 1)).
  destruct (Z.eqb_spec (hdr_nBits block) req) as [E1|E1]; cbn [negb]; [|split; [done|intros [C _ _ _ _]; congruence]].
  destruct (match GetLastCheckpoint m cps with Some c => match m !! c with Some c => nH <? bi_nHeight c | None => false end | None => false end) eqn:E2.
  { split; [done|]. intros [_ C _ _ _]. destruct (GetLastCheckpoint m cps) as [c|]; [|done]. destruct (m !! c) as [nc|] eqn:Ec; [|done].
    specialize (C c nc eq_refl Ec). fold nH in C. zbool. lia. }
  rewrite Et. cbn [crash_if_none mbind result_bind].
  destruct (Z.leb_spec (hdr_nTime block) t); [split; [done|]; intros [_ _ (t' & Et' & ?) _ _]; rewrite Et in Et'; injection Et'; lia|].
  destruct (Z.ltb_spec (adj + MAX_FUTURE_BLOCK_TIME) (hdr_nTime block)); [split; [done|]; intros [_ _ _ C _]; lia|].
  destruct (_ || _) eqn:E3.
  { split; [done|]. intros [_ _ _ _ (C1 & C2 & C3)]. fold nH in C1, C2, C3. zbool. lia. }
  split; [congruence| |by exists t|done|fold nH; zbool; lia].
  intros c nc Ec Enc. fold nH. rewrite Ec, Enc in E2. zbool. lia.
Qed.

Lemma GetAncestor_is_ancestor m p n f nf : index_ok m -> m !! p = Some n -> m !! f = Some nf ->
  exists a, GetAncestor m p (bi_nHeight nf) = Some a /\ (a = Some f <-> is_ancestor m f p).
Proof.
  intros Hok Hp Hf. pose proof (height_nonneg m Hok f nf Hf). rewrite (GetAncestor_spec m Hok p n _ Hp).
  rewrite (proj2 (Z.leb_le 0 _)) by done. cbn [andb]. destruct (Z.leb_spec (bi_nHeight nf) (bi_nHeight n)).
  - eexists. split; [done|]. split; [by eexists|]. intros [k Hk]. destruct (ancestor_inv m Hok k p n f Hp Hk) as (nf' & Hf' & Eh).
    rewrite Hf in Hf'. injection Hf' as <-. rewrite <- Hk. f_equal. lia.
  - exists None. split; [done|]. split; [done|]. intros [k Hk]. destruct (ancestor_inv m Hok k p n f Hp Hk) as (nf' & Hf' & Eh).
    rewrite Hf in Hf'. injection Hf' as <-. lia.
Qed.

Lemma find_failed_ancestor_spec m failed p n : index_ok m -> m !! p = Some n ->
  Forall (fun f => exists n, m !! f = Some n /\ Z.land (bi_nStatus n) BLOCK_FAILED_VALID <> 0) failed ->
  exists r, find_failed_ancestor failed p m = Some r /\
    match r with None => Forall (fun f => ~ is_ancestor m f p) failed | Some f => f ∈ failed /\ is_ancestor m f p end.
Proof.
  intros Hok Hp Hf. induction Hf as [|f failed (nf & Hnf & Hs) Hf IH]; cbn [find_failed_ancestor]; [by exists None|].
  rewrite Hnf. cbn [mbind option_bind]. destruct (GetAncestor_is_ancestor m p n f nf Hok Hp Hnf) as (a & -> & Ha). cbn [mbind option_bind].
  case_bool_decide as E.
  - rewrite (proj2 (Z.eqb_neq _ _)) by done. exists (Some f). split; [done|]. split; [left|by apply Ha].
  - destruct IH as (r & -> & Hr). exists r. split; [done|]. destruct r as [g|].
    + destruct Hr. split; [by right|done].
    + constructor; [|done]. rewrite <- Ha. done.
Qed.

Lemma mark_failed_children_spec k fuel st f p n : (k < fuel)%nat -> index_ok (mapBlockIndex st) ->
  mapBlockIndex st !! p = Some n -> ancestor (mapBlockIndex st) k p = Some f ->
  exists st', mark_failed_children fuel f p st = Some st' /\ extends (mapBlockIndex st) (mapBlockIndex st') /\
    (forall q nq, mapBlockIndex st' !! q = Some nq -> is_Some (mapBlockIndex st !! q)) /\
    pindexBestHeader st' = pindexBestHeader st.
Proof.
  revert k st p n. induction fuel as [|fuel IH]; intros k st p n Hk Hok Hp Ha; [lia|]. cbn [mark_failed_children].
  case_bool_decide as E; [exists st; split_and!; try done; by intros q nq Hq; exists nq|].
  rewrite Hp. cbn [mbind option_bind]. destruct k as [|k]; [injection Ha; congruence|]. cbn [ancestor] in Ha. rewrite Hp in Ha.
  cbn [mbind option_bind] in Ha. destruct (bi_pprev n) as [r|] eqn:Er; [|done]. cbn [mbind option_bind] in Ha |- *.
  set (n' := set_status _ n). set (st1 := mkIndexState _ _ _).
  assert (extends (mapBlockIndex st) (mapBlockIndex st1)) as He by exact (extends_mark _ p n Hp).
  assert (forall q nq, mapBlockIndex st1 !! q = Some nq -> is_Some (mapBlockIndex st !! q)) as Hd.
  { intros q nq. cbn. destruct (decide (q = p)) as [->|Hne]; [by rewrite Hp|]. rewrite lookup_insert_ne by done. by eexists. }
  destruct (parent_ok _ Hok p n r Hp Er) as (nr & Hr & Eh). destruct (extends_lookup _ _ _ _ He Hr) as [s Hr'].
  pose proof (index_ok_marked _ _ Hok He Hd) as Hok1.
  destruct (IH k st1 r _ ltac:(lia) Hok1 Hr' (includes_ancestor _ _ (extends_includes _ _ He) _ _ _ Ha)) as (st' & E' & He' & Hd' & Eb').
  exists st'. split; [done|]. split; [by transitivity (mapBlockIndex st1)|]. split; [|done].
  intros q nq Hq. destruct (Hd' q nq Hq) as [n1 H1]. by apply (Hd q n1).
Qed.

Lemma check_failed_blocks_spec params failed st p prev :
  headers_ok params failed st -> mapBlockIndex st !! p = Some prev -> Z.land (bi_nStatus prev) BLOCK_FAILED_MASK = 0 ->
  exists st' r, check_failed_blocks st failed p prev = (st', r) /\ headers_ok params failed st' /\ r <> Err Crash /\
    extends (mapBlockIndex st) (mapBlockIndex st') /\ dom (mapBlockIndex st') = dom (mapBlockIndex st) /\
    (r = Ok tt <-> no_failed_ancestor (mapBlockIndex st) failed p prev) /\ (r = Ok tt -> st' = st).
Proof.
  intros Hh Hp Hs. pose proof (inv_index _ (ho_inv _ _ _ Hh)) as Hok. unfold check_failed_blocks, no_failed_ancestor.
  destruct (IsValid BLOCK_VALID_SCRIPTS prev) as [[]|] eqn:Ev.
  - exists st, (Ok tt). split_and!; try done. split; [by left|done].
  - destruct (find_failed_ancestor_spec _ failed p prev Hok Hp (ho_failed _ _ _ Hh)) as ([f|] & -> & Hr).
    + destruct Hr as [Hin [k Hk]]. destruct (ancestor_inv _ Hok k p prev f Hp Hk) as (nf & Hnf & Eh).
      pose proof (height_nonneg _ Hok f nf Hnf).
      destruct (mark_failed_children_spec k (S (Z.to_nat (bi_nHeight prev))) st f p prev ltac:(lia) Hok Hp Hk) as (st' & -> & He & Hd & Eb).
      exists st', (DoS 100 REJECT_INVALID "bad-prevblk"). split_and!; try done.
      * apply (headers_ok_extends _ _ st); [done..| |]; [by apply (index_inv_marked st); [apply Hh|..]|]. intros q nq Hq. left. by apply (Hd q nq).
      * apply set_eq. intros q. rewrite !elem_of_dom. split; [intros [nq Hq]; by apply (Hd q nq)|]. intros [nq Hq].
        destruct (He q nq Hq) as (n' & -> & _). done.
      * split; [done|]. intros [?|Hall]; [done|]. rewrite Forall_forall in Hall. destruct (Hall f Hin). by exists k.
    + exists st, (Ok tt). split_and!; try done. split; [by right|done].
  - unfold IsValid in Ev. destruct (negb _) eqn:E0 in Ev; [by vm_compute in E0|]. by destruct (negb _) in Ev.
Qed.

(** ** Acceptance *)

Lemma AddHeader_spec params failed st block :
  headers_ok params failed st -> header_wf block -> hashPrevBlock block <> CBlockHeader_GetHash block ->
  (mapBlockIndex st !! CBlockHeader_GetHash block = None ->
   forall n, entry_spec (mapBlockIndex st) block n -> entry_fits (mapBlockIndex st) params (CBlockHeader_GetHash block) n) ->
  exists st', AddHeader st block = (st', Ok (CBlockHeader_GetHash block)) /\ headers_ok params failed st' /\
    extends (mapBlockIndex st) (mapBlockIndex st') /\
    dom (mapBlockIndex st') = dom (mapBlockIndex st) ∪ {[CBlockHeader_GetHash block]}.
Proof.
  intros Hh Hwf Hne Hfit. unfold AddHeader. destruct (mapBlockIndex st !! CBlockHeader_GetHash block) as [n|] eqn:Hn.
  - exists st. unfold AddToBlockIndex. rewrite Hn. split_and!; [done..|].
    apply set_eq. intros p. rewrite elem_of_union, elem_of_singleton, !elem_of_dom. split; [by left|]. intros [?| ->]; [done|by exists n].
  - destruct (AddToBlockIndex_new st block (ho_inv _ _ _ Hh) Hwf Hne Hn) as (st' & n & -> & Hinv & Em & Hn' & _).
    assert (extends (mapBlockIndex st) (mapBlockIndex st')) as He by (rewrite Em; by apply extends_insert).
    exists st'. split_and!; [done| |done|rewrite Em, dom_insert_L; set_solver].
    apply (headers_ok_extends _ _ st); [done..|]. intros p np. rewrite Em.
    destruct (decide (p = CBlockHeader_GetHash block)) as [->|Hp]; [|rewrite lookup_insert_ne by done; left; by eexists].
    rewrite lookup_insert_eq. intros [= <-]. right. by apply Hfit.
Qed.

(** The entry of a header that passed the checks fits. *)
Lemma entry_fits_checked m block params cps prev adj n :
  header_wf block -> m !! hashPrevBlock block = Some prev ->
  CheckProofOfWork (CBlockHeader_GetHash block) (hdr_nBits block) (cp_pow params) = true ->
  context_ok m block params cps prev adj -> entry_spec m block n -> entry_fits m params (CBlockHeader_GetHash block) n.
Proof.
  intros (_ & _ & _ & Ht & Hb & _) Hp Hpow [Cb _ Co _ _] (_ & _ & Et & Eb & _ & _ & _ & _ & _ & Hs). rewrite Hp in Hs. destruct Hs as (Eprev & _).
  unfold entry_fits. rewrite Et, Eb, Eprev. split_and!; [done..|]. by intros q [= <-].
Qed.

Lemma entry_fits_root m block params n :
  header_wf block -> m !! hashPrevBlock block = None -> entry_spec m block n -> entry_fits m params (CBlockHeader_GetHash block) n.
Proof.
  intros (_ & _ & _ & Ht & Hb & _) Hp (_ & _ & Et & Eb & _ & _ & _ & _ & _ & Hs). rewrite Hp in Hs. destruct Hs as (Eprev & _).
  unfold entry_fits. rewrite Et, Eb, Eprev. by split_and!.
Qed.

(** What a call promises: the invariant, no assertion or dangling pointer, acceptance of
    the valid headers and no others, and an index that has grown by the accepted header. *)
Definition accept_spec (params : ConsensusParams) (failed : list uint256) (st : index_state) (block : CBlockHeader) (valid : Prop)
    (out : index_state * result failure uint256) : Prop :=
  headers_ok params failed out.1 /\ out.2 <> Err Crash /\ ((exists p, out.2 = Ok p) <-> valid) /\
  extends (mapBlockIndex st) (mapBlockIndex out.1) /\
  match out.2 with
  | Ok p => p = CBlockHeader_GetHash block /\ dom (mapBlockIndex out.1) = dom (mapBlockIndex st) ∪ {[p]}
  | Err _ => dom (mapBlockIndex out.1) = dom (mapBlockIndex st)
  end.

Lemma AcceptBlockHeader_spec st failed block params cps adj :
  headers_ok params failed st -> params_ok (cp_pow params) -> header_wf block -> hashPrevBlock block <> CBlockHeader_GetHash block ->
  (CBlockHeader_GetHash block = hashGenesisBlock params -> mapBlockIndex st !! hashPrevBlock block = None) ->
  accept_spec params failed st block (header_valid st failed block params cps adj) (AcceptBlockHeader st failed block params cps adj).
Proof.
  intros Hh Hpar Hwf Hne Hgen. pose proof (inv_index _ (ho_inv _ _ _ Hh)) as Hok. unfold AcceptBlockHeader, header_valid.
  assert (forall (P : Prop) e, ~ P -> e <> Crash -> accept_spec params failed st block P (st, Err e)) as Hrej.
  { intros P e HP He. split_and!; try done; [by intros [= ->]|]. split; [by intros [p [=]]|done]. }
  case_bool_decide as Eg.
  { destruct (AddHeader_spec params failed st block Hh Hwf Hne) as (st' & -> & Hh' & He & Hd).
    { intros _ n. apply entry_fits_root; auto. }
    split_and!; try done. split; [by left|]. intros _. by eexists. }
  destruct (mapBlockIndex st !! CBlockHeader_GetHash block) as [n|] eqn:Hn.
  { destruct (Z.eqb_spec (Z.land (bi_nStatus n) BLOCK_FAILED_MASK) 0) as [E|E]; cbn [negb]; [|apply Hrej; naive_solver].
    split_and!; try done; [split; [by right|by eexists]|]. split; [done|].
    assert (CBlockHeader_GetHash block ∈ dom (mapBlockIndex st)) by (apply elem_of_dom; by exists n). cbn. set_solver. }
  unfold CheckBlockHeader. cbn [andb]. destruct (CheckProofOfWork _ _ _) eqn:Epow; cbn [negb]; [|apply Hrej; naive_solver].
  destruct (mapBlockIndex st !! hashPrevBlock block) as [prev|] eqn:Hp; [|apply Hrej; naive_solver].
  destruct (Z.eqb_spec (Z.land (bi_nStatus prev) BLOCK_FAILED_MASK) 0) as [E|E]; cbn [negb]; [|apply Hrej; naive_solver].
  pose proof (ContextualCheckBlockHeader_spec _ block params cps prev adj Hok (ho_times _ _ _ Hh) (ho_bits _ _ _ Hh) Hpar Hp) as Hc.
  destruct (ContextualCheckBlockHeader _ _ _ _ _ _) as [[]|e]; [|destruct Hc; apply Hrej; naive_solver].
  destruct (check_failed_blocks_spec params failed st _ prev Hh Hp E) as (st1 & r & -> & Hh1 & Hr & He1 & Hd1 & Hiff & Hst).
  destruct r as [[]|e].
  - specialize (Hst eq_refl) as ->. destruct (AddHeader_spec params failed st block Hh Hwf Hne) as (st' & -> & Hh' & He & Hd).
    { intros _ n. by apply (entry_fits_checked _ _ _ cps prev adj). }
    split_and!; try done. split; [|by eexists]. intros _. right. split; [done|]. exists prev. naive_solver.
  - split_and!; try done; [naive_solver|]. split; [by intros [p [=]]|].
    intros [?|(_ & prev' & [= <-] & _ & _ & Hno)]; [done|]. by apply Hiff in Hno.
Qed.

(** C7: on a well-formed index a header is accepted exactly when it is valid: known and
    not failed, or with enough work for the required target, a time after the median of
    its predecessors and not too far ahead, a version that is not obsolete, a height past
    the last checkpoint, and a parent that is neither failed nor below a failed block.
    No assertion fails and no pointer dangles; the invariant is kept, an accepted header
    is the only new entry, and a rejected one leaves the tree as it was. *)
Theorem AcceptBlockHeader_correct st failed block params cps adj :
  headers_ok params failed st -> params_ok (cp_pow params) -> header_wf block -> hashPrevBlock block <> CBlockHeader_GetHash block ->
  (CBlockHeader_GetHash block = hashGenesisBlock params -> mapBlockIndex st !! hashPrevBlock block = None) ->
  accept_spec params failed st block (header_valid st failed block params cps adj) (AcceptBlockHeader st failed block params cps adj).
Proof. apply AcceptBlockHeader_spec. Qed.

(** The accepted headers of a message are a prefix of it. *)
Lemma ProcessNewBlockHeaders_spec failed headers params cps adj st last :
  headers_ok params failed st -> params_ok (cp_pow params) ->
  Forall (fun h => header_wf h /\ hashPrevBlock h <> CBlockHeader_GetHash h /\ CBlockHeader_GetHash h <> hashGenesisBlock params) headers ->
  exists st' pp r accepted rest, ProcessNewBlockHeaders st failed headers params cps adj last = (st', pp, r) /\
    headers_ok params failed st' /\ extends (mapBlockIndex st) (mapBlockIndex st') /\ headers = accepted ++ rest /\
    dom (mapBlockIndex st') = dom (mapBlockIndex st) ∪ list_to_set (CBlockHeader_GetHash <$> accepted) /\
    match r with Ok _ => rest = [] | Err (e, h) => e <> Crash /\ head rest = Some h end.
Proof.
  intros Hh Hpar Hwf. revert st last Hh. induction Hwf as [|h headers (Hw & Hne & Hg) Hwf IH]; intros st last Hh; cbn [ProcessNewBlockHeaders].
  { exists st, last, (Ok tt), [], []. split_and!; try done. cbn. set_solver. }
  pose proof (AcceptBlockHeader_spec st failed h params cps adj Hh Hpar Hw Hne ltac:(done)) as Ha.
  destruct (AcceptBlockHeader st failed h params cps adj) as [st1 [p|e]]; destruct Ha as (Hh1 & Hc & _ & He & Hd); cbn [fst snd] in *.
  - destruct Hd as [-> Hd]. destruct (IH st1 (Some (CBlockHeader_GetHash h)) Hh1) as (st' & pp & r & acc & rest & -> & Hh' & He' & -> & Hd' & Hr).
    exists st', pp, r, (h :: acc), rest. split_and!; try done; [by transitivity (mapBlockIndex st1)|]. rewrite Hd', Hd. cbn. set_solver.
  - exists st1, last, (Err (e, h)), [], (h :: headers). split_and!; try done; [cbn; set_solver|]. by intros ->.
Qed.

(** ** Instances of the statements *)

Definition demo_genesis : CBlockHeader := mkHeader 4 (replicate 32 x00) (replicate 32 x01) 1000 0x207fffff 0.
Definition demo_params : ConsensusParams :=
  mkConsensus (CBlockHeader_GetHash demo_genesis) 150 100000000 [] 100000000 100000000 demo_deployments demo_pow.
Definition demo_header : CBlockHeader := mkHeader 4 (CBlockHeader_GetHash demo_genesis) (replicate 32 x02) 1600 0x207fffff 1.
Definition demo_index : index_state := (AcceptBlockHeader empty_index [] demo_genesis demo_params [] 1000).1.

#[local] Transparent CBlockHeader_GetHash CheckProofOfWork GetNextWorkRequired GetMedianTimePast.

Lemma demo_headers_wf : params_ok demo_pow /\ header_wf demo_genesis /\ header_wf demo_header /\
  hashPrevBlock demo_genesis <> CBlockHeader_GetHash demo_genesis /\ hashPrevBlock demo_header <> CBlockHeader_GetHash demo_header.
Proof.
  split; [split; vm_compute; congruence|]. split; [repeat (split; [vm_compute; try split; congruence|]); vm_compute; split; congruence|].
  split; [repeat (split; [vm_compute; try split; congruence|]); vm_compute; split; congruence|].
  split; vm_compute; discriminate.
Qed.

Lemma empty_headers_ok params : headers_ok params [] empty_index.
Proof.
  by split; try done; split.
Qed.

Lemma demo_index_ok : headers_ok demo_params [] demo_index.
Proof.
  destruct demo_headers_wf as (H1 & H2 & _ & H3 & _).
  exact (proj1 (AcceptBlockHeader_spec empty_index [] demo_genesis demo_params [] 1000 (empty_headers_ok _) H1 H2 H3 (fun _ => eq_refl))).
Qed.

Lemma AcceptBlockHeader_correct_witness :
  accept_spec demo_params [] demo_index demo_header (header_valid demo_index [] demo_header demo_params [] 2000)
    (AcceptBlockHeader demo_index [] demo_header demo_params [] 2000) /\
  (AcceptBlockHeader demo_index [] demo_header demo_params [] 2000).2 = Ok (CBlockHeader_GetHash demo_header).
Proof.
  split; [|vm_compute; reflexivity]. destruct demo_headers_wf as (H1 & _ & H2 & _ & H3).
  refine (AcceptBlockHeader_correct demo_index [] demo_header demo_params [] 2000 demo_index_ok H1 H2 H3 _).
  intros E. exfalso. revert E. vm_compute. discriminate.
Defined.
