(* ===== verification/ConnectBlock.v ===== *)
(** * Connecting a block (topchain/src/validation.cpp, [CheckInputs] and [ConnectBlock])

    The checks of a block against the set of unspent coins, up to the writing of its undo
    data and indices. [VerifyScript] with its signature checks and the cache of executed
    scripts are parameters: the theorems on coins hold for any of them. *)

From Stdlib Require Import Strings.String.
From S2P Require Import Prelude Serialize Sha256 Primitives ArithUint256 Chain MedianTime Versionbits Pow SubChainMeta FlatFile BlockFiles Merkle Script Coins TxVerify UpdateCoins BlockCheck.

#[local] Open Scope Z_scope.

Definition REJECT_NONSTANDARD : Z := 0x40.

Definition SCRIPT_VERIFY_NONE : Z := 0.
Definition SCRIPT_VERIFY_STRICTENC : Z := Z.shiftl 1 1.
Definition SCRIPT_VERIFY_DERSIG : Z := Z.shiftl 1 2.
Definition SCRIPT_VERIFY_LOW_S : Z := Z.shiftl 1 3.
Definition SCRIPT_VERIFY_NULLDUMMY : Z := Z.shiftl 1 4.
Definition SCRIPT_VERIFY_MINIMALDATA : Z := Z.shiftl 1 6.
Definition SCRIPT_VERIFY_DISCOURAGE_UPGRADABLE_NOPS : Z := Z.shiftl 1 7.
Definition SCRIPT_VERIFY_CLEANSTACK : Z := Z.shiftl 1 8.
Definition SCRIPT_VERIFY_CHECKLOCKTIMEVERIFY : Z := Z.shiftl 1 9.
Definition SCRIPT_VERIFY_CHECKSEQUENCEVERIFY : Z := Z.shiftl 1 10.
Definition SCRIPT_VERIFY_DISCOURAGE_UPGRADABLE_WITNESS_PROGRAM : Z := Z.shiftl 1 12.
Definition SCRIPT_VERIFY_MINIMALIF : Z := Z.shiftl 1 13.
Definition SCRIPT_VERIFY_NULLFAIL : Z := Z.shiftl 1 14.
Definition SCRIPT_VERIFY_WITNESS_PUBKEYTYPE : Z := Z.shiftl 1 15.

Definition MANDATORY_SCRIPT_VERIFY_FLAGS : Z := SCRIPT_VERIFY_P2SH.
Definition STANDARD_SCRIPT_VERIFY_FLAGS : Z :=
  fold_left Z.lor
    [SCRIPT_VERIFY_DERSIG; SCRIPT_VERIFY_STRICTENC; SCRIPT_VERIFY_MINIMALDATA; SCRIPT_VERIFY_NULLDUMMY;
     SCRIPT_VERIFY_DISCOURAGE_UPGRADABLE_NOPS; SCRIPT_VERIFY_CLEANSTACK; SCRIPT_VERIFY_MINIMALIF; SCRIPT_VERIFY_NULLFAIL;
     SCRIPT_VERIFY_CHECKLOCKTIMEVERIFY; SCRIPT_VERIFY_CHECKSEQUENCEVERIFY; SCRIPT_VERIFY_LOW_S; SCRIPT_VERIFY_WITNESS;
     SCRIPT_VERIFY_DISCOURAGE_UPGRADABLE_WITNESS_PROGRAM; SCRIPT_VERIFY_WITNESS_PUBKEYTYPE]
    MANDATORY_SCRIPT_VERIFY_FLAGS.
Definition STANDARD_NOT_MANDATORY_VERIFY_FLAGS : Z := Z.land STANDARD_SCRIPT_VERIFY_FLAGS (Z.lnot MANDATORY_SCRIPT_VERIFY_FLAGS).

(** The rules in force for the block of an index entry. *)
Definition GetBlockScriptFlags (m : BlockMap) (n : CBlockIndex) (params : ConsensusParams) (caches : VersionBitsCache)
  : result failure (VersionBitsCache * Z) :=
  let nBIP16SwitchTime := 1333238400 in
  let flags := if nBIP16SwitchTime <=? bi_nTime n then SCRIPT_VERIFY_P2SH else SCRIPT_VERIFY_NONE in
  let flags := if BIP66Height params <=? bi_nHeight n then Z.lor flags SCRIPT_VERIFY_DERSIG else flags in
  let flags := if BIP65Height params <=? bi_nHeight n then Z.lor flags SCRIPT_VERIFY_CHECKLOCKTIMEVERIFY else flags in
  '(caches, csv) ← crash_if_none (VersionBitsState m (bi_pprev n) (cp_deployments params) DEPLOYMENT_CSV caches);
  let flags := if is_active csv then Z.lor flags SCRIPT_VERIFY_CHECKSEQUENCEVERIFY else flags in
  '(caches, witness) ← IsWitnessEnabled m (bi_pprev n) params caches;
  Ok (caches, if (witness : bool) then Z.lor (Z.lor flags SCRIPT_VERIFY_WITNESS) SCRIPT_VERIFY_NULLDUMMY else flags).

(** Whether scripts are executed: not below the block that is assumed valid, once the best
    header is two weeks of work past it. *)
Definition CheckScripts (m : BlockMap) (pindexBestHeader : option uint256) (hashAssumeValid : uint256) (nMinimumChainWork : base_uint)
    (params : ConsensusParams) (pindex : uint256) (n : CBlockIndex) : option bool :=
  if uint256_IsNull hashAssumeValid then Some true
  else
    match m !! hashAssumeValid with
    | None => Some true
    | Some _ =>
        a ← GetAncestor m hashAssumeValid (bi_nHeight n);
        if negb (bool_decide (a = Some pindex)) then Some true
        else
          b ← pindexBestHeader;
          best ← m !! b;
          a ← GetAncestor m b (bi_nHeight n);
          if bool_decide (a = Some pindex) && (CompareTo (bi_nChainWork best) nMinimumChainWork >=? 0) then
            t ← GetBlockProofEquivalentTime (bi_nChainWork best) (bi_nChainWork n) (bi_nBits best) (nPowTargetSpacing (cp_pow params));
            Some (t <=? 60 * 60 * 24 * 7 * 2)
          else Some true
    end.

(** The two blocks of the main chain that repeat a coinbase. *)
Definition bip30_exceptions : list (Z * uint256) :=
  [(91842, rev [x00; x00; x00; x00; x00; x0a; x4d; x0a; x39; x81; x61; xff; xc1; x63; xc5; x03;
                x76; x3b; x1f; x43; x60; x63; x93; x93; xe0; xe4; xc8; xe3; x00; xe0; xca; xec]);
   (91880, rev [x00; x00; x00; x00; x00; x07; x43; xf1; x90; xa1; x8c; x55; x77; xa3; xc2; xd2;
                xa1; xf6; x10; xae; x96; x01; xac; x04; x6a; x38; x08; x4c; xcb; x7c; xd7; x21])].

Definition EnforceBIP30 (m : BlockMap) (params : ConsensusParams) (pindex : uint256) (n : CBlockIndex) : option bool :=
  let fEnforceBIP30 := negb (bool_decide ((bi_nHeight n, pindex) ∈ bip30_exceptions)) in
  pprev ← bi_pprev n;
  pindexBIP34height ← GetAncestor m pprev (BIP34Height params);
  Some (fEnforceBIP30 && negb (bool_decide (pindexBIP34height = Some (BIP34Hash params)))).

(** A script to be executed for an input. *)
Record CScriptCheck := mkScriptCheck {
  ck_scriptPubKey : CScript;
  ck_amount : Z;
  ck_txTo : CTransaction;
  ck_nIn : nat;
  ck_nFlags : Z;
  ck_cacheStore : bool
}.

Section connect.
Context {V : Type} `{CoinsView V}.
Abbreviation cache := (CCoinsViewCache V).

(** [CScriptCheck::operator()]: the text of the error, if the script fails. *)
Variable run_check : CScriptCheck -> option string.

(** [scriptExecutionCache] with its operations, and the nonce of its entries. *)
Variable SC : Type.
Variable sc_contains : uint256 -> bool -> SC -> bool * SC.
Variable sc_insert : uint256 -> SC -> SC.
Variable scriptExecutionCacheNonce : uint256.

Definition GetSpendHeight (m : BlockMap) (c : cache) : option (cache * Z) :=
  let '(c, b) := GetBestBlock c in
  n ← m !! b; Some (c, i32 (bi_nHeight n + 1)).

Definition script_cache_entry (tx : CTransaction) (flags : Z) : result ser_error uint256 :=
  h ← GetWitnessHash tx;
  Ok (CSHA256_Finalize (CSHA256_Write (CSHA256_Write (CSHA256_Write CSHA256_Reset (take 19 scriptExecutionCacheNonce)) h) (ser_writedata32 flags))).

(** The scripts of the inputs from number [i] on: run, or collected if there is a queue. *)
Fixpoint CheckInputs_scripts (tx : CTransaction) (flags : Z) (cacheSigStore queue : bool) (i : nat) (ins : list CTxIn) (c : cache)
  : result failure (cache * list CScriptCheck) :=
  match ins with
  | [] => Ok (c, [])
  | txin :: ins =>
      '(c, coin) ← crash_if_none (AccessUnspent (prevout txin) c);
      let check flags := mkScriptCheck (scriptPubKey (c_out coin)) (nValue (c_out coin)) tx i flags cacheSigStore in
      _ ← (if (queue : bool) then Ok tt
           else match run_check (check flags) with
                | None => Ok tt
                | Some err =>
                    if has_flag flags STANDARD_NOT_MANDATORY_VERIFY_FLAGS &&
                       bool_decide (run_check (check (Z.land flags (Z.lnot STANDARD_NOT_MANDATORY_VERIFY_FLAGS))) = None)
                    then Invalid REJECT_NONSTANDARD ("non-mandatory-script-verify-flag (" ++ err ++ ")")
                    else DoS 100 REJECT_INVALID ("mandatory-script-verify-flag-failed (" ++ err ++ ")")
                end);
      '(c, checks) ← CheckInputs_scripts tx flags cacheSigStore queue (S i) ins c;
      Ok (c, if queue then check flags :: checks else checks)
  end.

Definition CheckInputs (m : BlockMap) (tx : CTransaction) (fScriptChecks : bool) (flags : Z) (cacheSigStore cacheFullScriptStore queue : bool)
    (c : cache) (sc : SC) : result failure (cache * SC * list CScriptCheck) :=
  if IsCoinBase tx then Ok (c, sc, [])
  else
    '(c, h) ← crash_if_none (GetSpendHeight m c);
    c ← CheckTxInputs tx h c;
    if fScriptChecks then
      hashCacheEntry ← crash_if_err (script_cache_entry tx flags);
      let '(hit, sc) := sc_contains hashCacheEntry (negb cacheFullScriptStore) sc in
      if hit then Ok (c, sc, [])
      else
        '(c, checks) ← CheckInputs_scripts tx flags cacheSigStore queue 0 (vin tx) c;
        Ok (c, if cacheFullScriptStore && negb queue then sc_insert hashCacheEntry sc else sc, checks)
    else Ok (c, sc, []).

(** The outputs of a transaction, none of which may be unspent. *)
Fixpoint BIP30_outputs (hash : uint256) (o : Z) (outs : list CTxOut) (c : cache) : result failure cache :=
  match outs with
  | [] => Ok c
  | _ :: outs =>
      let '(c, have) := HaveCoin (mkOutPoint hash (u32 o)) c in
      if have then DoS 100 REJECT_INVALID "bad-txns-BIP30" else BIP30_outputs hash (o + 1) outs c
  end.
Fixpoint BIP30_check (txs : list CTransactionRef) (c : cache) : result failure cache :=
  match txs with
  | [] => Ok c
  | tx :: txs => c ← BIP30_outputs (ref_hash tx) 0 (vout (ref_tx tx)) c; BIP30_check txs c
  end.

Fixpoint prev_heights (ins : list CTxIn) (c : cache) : cache * list Z :=
  match ins with
  | [] => (c, [])
  | i :: ins =>
      let '(c, coin) := AccessCoin (prevout i) c in
      let '(c, hs) := prev_heights ins c in
      (c, c_nHeight coin :: hs)
  end.

(** What the loop over the transactions has built. *)
Record connected := mkConnected {
  cn_view : cache;
  cn_scripts : SC;
  cn_checks : list CScriptCheck;
  cn_nFees : Z;
  cn_nSigOpsCost : Z;
  cn_vtxundo : list CTxUndo;
  cn_nTxOffset : Z;
  cn_vPos : list (uint256 * CDiskTxPos);
  cn_vPosForSubChain : list (uint256 * CDiskTxPos)
}.

(** What the loop reads: the index, the entry of the block, the rules in force. *)
Record connect_env := mkConnectEnv {
  ce_index : BlockMap;
  ce_pindex : uint256;
  ce_entry : CBlockIndex;
  ce_fScriptChecks : bool;
  ce_flags : Z;
  ce_nLockTimeFlags : Z;
  ce_fJustCheck : bool;
  ce_threads : bool;
  ce_CLIENT_VERSION : Z
}.

(** The inputs exist and their relative lock times have passed. *)
Definition ConnectTx_locks (env : connect_env) (tx : CTransaction) (c : cache) : result failure cache :=
  if IsCoinBase tx then Ok c
  else
    let '(c, have) := HaveInputs tx c in
    if negb have then DoS 100 REJECT_INVALID "bad-txns-inputs-missingorspent"
    else
      let '(c, prevheights) := prev_heights (vin tx) c in
      '(_, ok) ← crash_if_none (SequenceLocks (ce_index env) tx (ce_nLockTimeFlags env) prevheights (ce_pindex env));
      if negb (ok : bool) then DoS 100 REJECT_INVALID "bad-txns-nonfinal" else Ok c.

(** The fee and the checks of the inputs. *)
Definition ConnectTx_inputs (env : connect_env) (tx : CTransaction) (nFees : Z) (c : cache) (sc : SC)
  : result failure (cache * SC * list CScriptCheck * Z) :=
  if IsCoinBase tx then Ok (c, sc, [], nFees)
  else
    let '(c, nValueIn) := GetValueIn tx c in
    nValueOut ← crash_if_none (GetValueOut tx);
    let nFees := i64 (nFees + i64 (nValueIn - nValueOut)) in
    r ← CheckInputs (ce_index env) tx (ce_fScriptChecks env) (ce_flags env) (ce_fJustCheck env) (ce_fJustCheck env) (ce_threads env) c sc;
    let '(c, sc, checks) := r in
    Ok (c, sc, checks, nFees).

(** One transaction; [first] is the test [i == 0]. *)
Definition ConnectTx (env : connect_env) (first : bool) (tx : CTransactionRef) (s : connected) : result failure connected :=
  let t := ref_tx tx in
  c ← ConnectTx_locks env t (cn_view s);
  '(c, cost) ← crash_if_none (GetTransactionSigOpCost t (ce_flags env) c);
  let nSigOpsCost := i64 (cn_nSigOpsCost s + cost) in
  if MAX_BLOCK_SIGOPS_COST <? nSigOpsCost then DoS 100 REJECT_INVALID "bad-blk-sigops"
  else
    r ← ConnectTx_inputs env t (cn_nFees s) c (cn_scripts s);
    let '(c, sc, checks, nFees) := r in
    '(c, undo) ← crash_if_none (UpdateCoins tx (bi_nHeight (ce_entry env)) c);
    data ← crash_if_err (SerializeTransaction t (ce_CLIENT_VERSION env));
    let blockpos := GetBlockPos (ce_entry env) in
    let pos := mkDiskTxPos (dp_nFile blockpos) (dp_nPos blockpos) (cn_nTxOffset s) in
    Ok (mkConnected c sc (cn_checks s ++ checks) nFees nSigOpsCost
          (if first then cn_vtxundo s else cn_vtxundo s ++ [undo])
          (u32 (cn_nTxOffset s + Zlength data))
          (cn_vPos s ++ [(ref_hash tx, pos)])
          (if NeedsToSaveMeta (extData t) then cn_vPosForSubChain s ++ [(ref_hash tx, pos)] else cn_vPosForSubChain s)).

Fixpoint ConnectTxs (env : connect_env) (first : bool) (txs : list CTransactionRef) (s : connected) : result failure connected :=
  match txs with
  | [] => Ok s
  | tx :: txs => s ← ConnectTx env first tx s; ConnectTxs env false txs s
  end.

(** [control.Wait()]: every check that was queued succeeded. *)
Definition CheckQueue_Wait (checks : list CScriptCheck) : bool := forallb (fun ck => bool_decide (run_check ck = None)) checks.

(** The globals [ConnectBlock] reads besides the view. *)
Record node_env := mkNodeEnv {
  ne_index : BlockMap;
  ne_pindexBestHeader : option uint256;
  ne_hashAssumeValid : uint256;
  ne_nMinimumChainWork : base_uint;
  ne_params : ConsensusParams;
  ne_threads : bool;
  ne_CLIENT_VERSION : Z
}.

(** [ConnectBlock] for an entry of the index, up to the writing of undo data and indices.
    The block comes back with its memory-only flag; [None] inside is the first block, which
    is not connected. *)
Definition ConnectBlock_checks (env : node_env) (block : CBlock) (pindex : uint256) (fJustCheck : bool) (c : cache) (sc : SC)
    (caches : VersionBitsCache) : result failure (VersionBitsCache * CBlock * cache * option connected) :=
  let m := ne_index env in
  let params := ne_params env in
  n ← crash_if_none (m !! pindex);
  let hash := CBlockHeader_GetHash (block_header block) in
  if negb (bool_decide (pindex = hash)) then Err Crash
  else
    block ← CheckBlock block params (negb fJustCheck) (negb fJustCheck);
    let '(c, best) := GetBestBlock c in
    if negb (bool_decide (default uint256_zero (bi_pprev n) = best)) then Err Crash
    else if bool_decide (hash = hashGenesisBlock params) then
      Ok (caches, block, if fJustCheck then c else SetBestBlock pindex c, None)
    else
      fScriptChecks ← crash_if_none (CheckScripts m (ne_pindexBestHeader env) (ne_hashAssumeValid env) (ne_nMinimumChainWork env) params pindex n);
      fEnforceBIP30 ← crash_if_none (EnforceBIP30 m params pindex n);
      txs ← crash_if_err (mapM MakeTransactionRef (vtx block));
      c ← (if (fEnforceBIP30 : bool) then BIP30_check txs c else Ok c);
      '(caches, csv) ← crash_if_none (VersionBitsState m (bi_pprev n) (cp_deployments params) DEPLOYMENT_CSV caches);
      let nLockTimeFlags := if is_active csv then LOCKTIME_VERIFY_SEQUENCE else 0 in
      '(caches, flags) ← GetBlockScriptFlags m n params caches;
      let ce := mkConnectEnv m pindex n fScriptChecks flags nLockTimeFlags fJustCheck (ne_threads env) (ne_CLIENT_VERSION env) in
      s ← ConnectTxs ce true txs (mkConnected c sc [] 0 0 [] (GetSizeOfCompactSize (Zlength (vtx block))) [] []);
      let blockReward := i64 (cn_nFees s + GetBlockSubsidy (bi_nHeight n) params) in
      first ← crash_if_none (head (vtx block));
      nValueOut ← crash_if_none (GetValueOut first);
      if blockReward <? nValueOut then DoS 100 REJECT_INVALID "bad-cb-amount"
      else if negb (CheckQueue_Wait (cn_checks s)) then DoS 100 REJECT_INVALID "block-validation-failed"
      else Ok (caches, block, cn_view s, Some s).
End connect.

(** * The view while a block is checked *)

Section connect_spec.
Context {V : Type} `{CoinsViewSpec V}.
Abbreviation cache := (CCoinsViewCache V).
Implicit Types c : cache.

(** A step that only looks things up. *)
Definition looks c c' : Prop := cache_ok c -> cache_ok c' /\ cache_same c c'.

Lemma looks_refl c : looks c c.
Proof. intros Hok. split; [done|apply cache_same_refl]. Qed.

Lemma looks_trans c1 c2 c3 : looks c1 c2 -> looks c2 c3 -> looks c1 c3.
Proof. intros H1 H2 Hok. destruct (H1 Hok) as [Hok2 S1]. destruct (H2 Hok2) as [Hok3 S2]. split; [done|by eapply cache_same_trans]. Qed.

Lemma AccessCoin_looks o c c' coin : AccessCoin o c = (c', coin) -> looks c c'.
Proof. intros E Hok. destruct (AccessCoin_spec o c Hok) as (c2 & coin2 & E2 & _ & Hok2 & Hs). rewrite E in E2. by injection E2 as <- <-. Qed.

Lemma AccessUnspent_looks o c c' coin : AccessUnspent o c = Some (c', coin) -> looks c c'.
Proof.
  unfold AccessUnspent. destruct (AccessCoin o c) as [c2 k] eqn:E. destruct (IsSpent k); [done|]. intros [= <- <-]. by eapply AccessCoin_looks.
Qed.

Lemma P2SH_looks ins n c c' r : GetP2SHSigOpCount_loop ins n c = Some (c', r) -> looks c c'.
Proof.
  revert n c. induction ins as [|i ins IH]; intros n c; cbn [GetP2SHSigOpCount_loop]; [intros [= <- <-]; apply looks_refl|].
  destruct (AccessUnspent _ c) as [[c1 coin]|] eqn:E; [|done]. intros E2. eapply looks_trans; [by eapply AccessUnspent_looks|by eapply IH].
Qed.

Lemma WitnessSigOps_looks ins flags n c c' r : WitnessSigOps_loop ins flags n c = Some (c', r) -> looks c c'.
Proof.
  revert n c. induction ins as [|i ins IH]; intros n c; cbn [WitnessSigOps_loop]; [intros [= <- <-]; apply looks_refl|].
  destruct (AccessUnspent _ c) as [[c1 coin]|] eqn:E; [|done]. cbn [mbind option_bind]. destruct (CountWitnessSigOps _ _ _ _); [|done].
  intros E2. eapply looks_trans; [by eapply AccessUnspent_looks|by eapply IH].
Qed.

Lemma SigOpCost_looks tx flags c c' r : GetTransactionSigOpCost tx flags c = Some (c', r) -> looks c c'.
Proof.
  unfold GetTransactionSigOpCost, GetP2SHSigOpCount. destruct (IsCoinBase tx); [intros [= <- <-]; apply looks_refl|].
  destruct (has_flag flags SCRIPT_VERIFY_P2SH); cbn [mbind option_bind]; [|apply WitnessSigOps_looks].
  destruct (GetP2SHSigOpCount_loop _ _ c) as [[c1 n]|] eqn:E; [|done]. cbn [mbind option_bind]. intros E2.
  eapply looks_trans; [by eapply P2SH_looks|by eapply WitnessSigOps_looks].
Qed.

Lemma prev_heights_looks ins c c' hs : prev_heights ins c = (c', hs) -> looks c c'.
Proof.
  revert c hs. induction ins as [|i ins IH]; intros c hs; cbn [prev_heights]; [intros [= <- <-]; apply looks_refl|].
  destruct (AccessCoin _ c) as [c1 coin] eqn:E. destruct (prev_heights ins c1) as [c2 l] eqn:E2. intros [= <- <-].
  eapply looks_trans; [by eapply AccessCoin_looks|by eapply IH].
Qed.

Lemma HaveInputs_looks tx c c' b : HaveInputs tx c = (c', b) -> looks c c'.
Proof.
  unfold HaveInputs. destruct (IsCoinBase tx); cbn [negb]; [intros [= <- <-]; apply looks_refl|]. intros E Hok.
  destruct (HaveInputs_loop_spec (vin tx) c Hok) as (c2 & b2 & E2 & Hok2 & Hs & _). rewrite E in E2. by injection E2 as <- <-.
Qed.

Lemma locks_looks env tx c c' : ConnectTx_locks env tx c = Ok c' -> looks c c'.
Proof.
  unfold ConnectTx_locks. destruct (IsCoinBase tx); [intros [= <-]; apply looks_refl|].
  destruct (HaveInputs tx c) as [c1 have] eqn:E1. destruct have; cbn [negb]; [|done].
  destruct (prev_heights (vin tx) c1) as [c2 hs] eqn:E2. destruct (SequenceLocks _ _ _ _ _) as [[l ok]|]; [|done].
  cbn [crash_if_none mbind result_bind]. destruct ok; [|done]. intros [= <-].
  eapply looks_trans; [by eapply HaveInputs_looks|by eapply prev_heights_looks].
Qed.

(** The sum of the inputs is exact while it is an amount. *)
Lemma GetValueIn_loop_spec ins coins acc c : cache_ok c -> spends (cache_contents c) ins coins ->
  Forall (fun coin => value_ok (nValue (c_out coin))) coins -> 0 <= acc -> acc + coin_sum coins <= MAX_MONEY ->
  exists c', GetValueIn_loop ins acc c = (c', acc + coin_sum coins) /\ cache_ok c' /\ cache_same c c'.
Proof.
  revert coins acc c. induction ins as [|i ins IH]; intros coins acc c Hok Hs Hv Ha Hm; inversion Hs as [|? coin ? coins' Hi Hs']; subst.
  { exists c. split; [|done]. cbn [GetValueIn_loop]. f_equal. unfold coin_sum. cbn. lia. }
  cbn [GetValueIn_loop]. destruct (AccessCoin_spec (prevout i) c Hok) as (c1 & coin1 & -> & Hu & Hok1 & Hs1). rewrite Hi in Hu.
  apply unspent_Some in Hu as [<- _]. apply Forall_cons in Hv as [Hv1 Hv]. assert (0 <= coin_sum coins') as Hnn by (apply value_sum_nonneg; by apply Forall_fmap).
  assert (coin_sum (coin :: coins') = nValue (c_out coin) + coin_sum coins') as Es by done. rewrite Es in *. unfold value_ok in Hv1.
  rewrite value_ok_i64 by lia. destruct (IH coins' (acc + nValue (c_out coin)) c1 Hok1 (spends_same _ _ _ _ Hs1 Hs') Hv) as (c2 & -> & Hok2 & Hs2); [lia..|].
  exists c2. split; [f_equal; lia|]. split; [done|by eapply cache_same_trans].
Qed.

(** ** One transaction *)

Context (run_check : CScriptCheck -> option string) (SC : Type) (sc_contains : uint256 -> bool -> SC -> bool * SC)
  (sc_insert : uint256 -> SC -> SC) (nonce : uint256).

Lemma scripts_looks tx flags store queue i ins c c' checks :
  CheckInputs_scripts run_check tx flags store queue i ins c = Ok (c', checks) -> looks c c'.
Proof.
  revert i c c' checks. induction ins as [|txin ins IH]; intros i c c' checks; cbn [CheckInputs_scripts]; [intros [= <- <-]; apply looks_refl|].
  destruct (AccessUnspent _ c) as [[c1 coin]|] eqn:E; [|done]. cbn [crash_if_none mbind result_bind].
  destruct (if queue then _ else _) as [[]|]; [|done]. cbn [mbind result_bind].
  destruct (CheckInputs_scripts _ _ _ _ _ _ ins c1) as [[c2 l]|] eqn:E2; [|done]. cbn [mbind result_bind]. intros [= <- <-].
  eapply looks_trans; [by eapply AccessUnspent_looks|by eapply IH].
Qed.

(** A transaction that passes [CheckInputs] spends coins that exist, are mature and worth
    what it pays. *)
Lemma CheckInputs_valid m tx fsc flags s1 s2 queue h c c' sc sc' checks :
  CheckInputs run_check SC sc_contains sc_insert nonce m tx fsc flags s1 s2 queue c sc = Ok (c', sc', checks) ->
  cache_ok c -> IsCoinBase tx = false -> 0 <= h < 2 ^ 31 -> heights_ok (cache_contents c) ->
  Forall (fun o => value_ok (nValue o)) (vout tx) -> value_sum (vout tx) <= MAX_MONEY ->
  (exists nb, m !! cache_best c = Some nb /\ i32 (bi_nHeight nb + 1) = h) ->
  inputs_valid (cache_contents c) h tx /\ cache_ok c' /\ cache_same c c'.
Proof.
  intros E Hok Hcb Hh Hhs Hv Hsum (nb & Hnb & Eh). unfold CheckInputs in E. rewrite Hcb in E. unfold GetSpendHeight in E.
  destruct (GetBestBlock_spec c Hok) as (c1 & E1 & Hok1 & Hs1). rewrite E1, Hnb in E. cbn [mbind option_bind crash_if_none result_bind] in E.
  rewrite Eh in E. assert (heights_ok (cache_contents c1)) as Hhs1 by (intros o coin; rewrite (proj2 Hs1); apply Hhs).
  destruct (CheckTxInputs_spec c1 tx h Hok1 Hcb Hh Hhs1 Hv Hsum) as [[Hin (c2 & E2 & Hok2 & Hs2)]|[_ [r E2]]]; rewrite E2 in E; [|done].
  cbn [mbind result_bind] in E.
  assert (cache_ok c' /\ cache_same c1 c') as [Hok' Hs'].
  { destruct fsc; [|by injection E as <- <- <-]. destruct (script_cache_entry nonce tx flags) as [e|]; [|done]. cbn [crash_if_err mbind result_bind] in E.
    destruct (sc_contains e (negb s2) sc) as [[] sc1]; [by injection E as <- <- <-|].
    destruct (CheckInputs_scripts _ _ _ _ _ _ _ c2) as [[c3 l]|] eqn:E3; [|done]. injection E as <- <- <-.
    destruct (scripts_looks _ _ _ _ _ _ _ _ _ E3 Hok2) as [Hok3 Hs3]. split; [done|by eapply cache_same_trans]. }
  split; [|split; [done|by eapply cache_same_trans]].
  destruct Hin as (coins & Hc & Hg). exists coins. split; [|done]. eapply spends_same; [|done]. split; [|intros o]; symmetry; apply Hs1.
Qed.

Lemma coins_wf_heights M : coins_wf M -> heights_ok M.
Proof. intros Hwf o coin Ho. destruct (Hwf o coin Ho) as (Hh & _). lia. Qed.

Lemma vout_size tx version data : SerializeTransaction tx version = Ok data -> Zlength (vout tx) <= Zlength data.
Proof.
  unfold SerializeTransaction. destruct (SerializeExtData _) as [ext|]; [|done]. cbn [mbind result_bind]. intros E. apply Ok_inj in E as <-.
  unfold Serialize_vout, Serialize_vector. rewrite !Zlength_app.
  assert (Zlength (vout tx) <= Zlength (concat (map Serialize_txout (vout tx)))) as Hc.
  { induction (vout tx) as [|o outs IH]; [done|]. cbn [map concat]. rewrite Zlength_cons, Zlength_app. unfold Serialize_txout at 1. rewrite Zlength_app.
    assert (Zlength (ser_writedata64 (nValue o)) = 8) as -> by done. pose proof (Zlength_nonneg (Serialize_blob (scriptPubKey o))). lia. }
  nonneg_lengths. lia.
Qed.

(** The value of the fee of a transaction. *)
Definition tx_fee (tx : CTransaction) (coins : list Coin) : Z := if IsCoinBase tx then 0 else coin_sum coins - value_sum (vout tx).

(** What [ConnectTx] does when it succeeds. *)
Record tx_connected (env : connect_env) (first : bool) (tx : CTransactionRef) (coins : list Coin) (s s' : connected SC) : Prop := {
  tc_ok : cache_ok (cn_view _ s');
  tc_best : cache_best (cn_view _ s') = cache_best (cn_view _ s);
  tc_legal : tx_legal tx (bi_nHeight (ce_entry env)) (cache_contents (cn_view _ s)) coins;
  tc_contents : forall o, cache_contents (cn_view _ s') o = apply_tx tx (bi_nHeight (ce_entry env)) (cache_contents (cn_view _ s)) o;
  tc_undo : cn_vtxundo _ s' = if first then cn_vtxundo _ s else cn_vtxundo _ s ++ [coins];
  tc_fee : cn_nFees _ s' = if IsCoinBase (ref_tx tx) then cn_nFees _ s else i64 (cn_nFees _ s + tx_fee (ref_tx tx) coins);
  tc_fee_ok : 0 <= tx_fee (ref_tx tx) coins <= MAX_MONEY
}.

Definition best_at (env : connect_env) c : Prop :=
  exists nb, ce_index env !! cache_best c = Some nb /\ i32 (bi_nHeight nb + 1) = bi_nHeight (ce_entry env).

Lemma ConnectTx_inputs_spec env tx fees c sc c' sc' checks fees' :
  ConnectTx_inputs run_check SC sc_contains sc_insert nonce env tx fees c sc = Ok (c', sc', checks, fees') ->
  cache_ok c -> coins_wf (cache_contents c) -> 0 <= bi_nHeight (ce_entry env) < 2 ^ 31 -> best_at env c ->
  Forall (fun o => value_ok (nValue o)) (vout tx) -> value_sum (vout tx) <= MAX_MONEY ->
  cache_ok c' /\ cache_same c c' /\ exists coins,
    (if IsCoinBase tx then coins = [] else spends (cache_contents c) (vin tx) coins) /\
    fees' = (if IsCoinBase tx then fees else i64 (fees + tx_fee tx coins)) /\ 0 <= tx_fee tx coins <= MAX_MONEY.
Proof.
  intros E Hok Hwf Hh Hbest Hv Hsum. unfold ConnectTx_inputs in E. unfold tx_fee. destruct (IsCoinBase tx) eqn:Hcb.
  { injection E as <- <- <- <-. split; [done|]. split; [apply cache_same_refl|]. exists []. unfold MAX_MONEY, COIN. split_and!; (done || lia). }
  unfold GetValueIn in E. rewrite Hcb in E. destruct (GetValueIn_loop (vin tx) 0 c) as [c1 vin_sum] eqn:E1.
  rewrite (GetValueOut_spec tx Hv Hsum) in E. cbn [crash_if_none mbind result_bind] in E.
  destruct (CheckInputs _ _ _ _ _ _ _ _ _ _ _ _ c1 sc) as [[[c2 sc2] l]|] eqn:E2; [|done]. injection E as <- <- <- <-.
  assert (looks c c1) as Hl1.
  { clear -E1. revert c E1. generalize 0. induction (vin tx) as [|i ins IH]; intros z c; cbn [GetValueIn_loop]; [intros [= <- <-]; apply looks_refl|].
    destruct (AccessCoin _ c) as [c3 coin] eqn:E3. intros E1. eapply looks_trans; [by eapply AccessCoin_looks|by eapply IH]. }
  destruct (Hl1 Hok) as [Hok1 Hs1].
  destruct (CheckInputs_valid _ _ _ _ _ _ _ (bi_nHeight (ce_entry env)) _ _ _ _ _ E2 Hok1 Hcb Hh) as ((coins & Hc & Hg & Hle) & Hok2 & Hs2); try done.
  { apply coins_wf_heights. intros o coin. rewrite (proj2 Hs1). apply Hwf. }
  { rewrite (proj1 Hs1). exact Hbest. }
  assert (spends (cache_contents c) (vin tx) coins) as Hc0 by (eapply spends_same; [|done]; split; [|intros o]; symmetry; apply Hs1).
  destruct Hg as (_ & Hgv & Hgm).
  destruct (GetValueIn_loop_spec (vin tx) coins 0 c Hok Hc0 Hgv) as (c3 & E3 & _ & _); [lia..|]. rewrite E1 in E3. injection E3 as <- ->.
  split; [done|]. split; [by eapply cache_same_trans|]. exists coins. pose proof (value_sum_nonneg _ Hv). rewrite Z.add_0_l in *.
  split; [done|]. split; [|lia]. f_equal. f_equal. apply value_ok_i64. lia.
Qed.

Lemma ConnectTx_spec env first tx s s' :
  ConnectTx run_check SC sc_contains sc_insert nonce env first tx s = Ok s' ->
  cache_ok (cn_view _ s) -> coins_wf (cache_contents (cn_view _ s)) -> 0 < bi_nHeight (ce_entry env) < 2 ^ 31 -> best_at env (cn_view _ s) ->
  transaction_valid (ref_tx tx) false -> NoDup (prevout <$> vin (ref_tx tx)) ->
  (forall o, is_Some (created tx (bi_nHeight (ce_entry env)) o) -> cache_contents (cn_view _ s) o = None) ->
  exists coins, tx_connected env first tx coins s s'.
Proof.
  intros E Hok Hwf Hh Hbest (_ & _ & (data & Ed & Hd) & Hv & Hsum & _ & _) Hnd Hnew. unfold ConnectTx in E.
  destruct (ConnectTx_locks env (ref_tx tx) (cn_view _ s)) as [c1|] eqn:E1; [|done]. cbn [mbind result_bind] in E.
  destruct (GetTransactionSigOpCost _ _ c1) as [[c2 cost]|] eqn:E2; [|done]. cbn [crash_if_none mbind result_bind] in E.
  destruct (MAX_BLOCK_SIGOPS_COST <? _); [done|].
  destruct (ConnectTx_inputs _ _ _ _ _ _ _ _ c2 _) as [[[[c3 sc3] l3] fees3]|] eqn:E3; [|done]. cbn [mbind result_bind] in E.
  destruct (looks_trans _ _ _ (locks_looks _ _ _ _ E1) (SigOpCost_looks _ _ _ _ _ E2) Hok) as [Hok2 Hs2].
  assert (coins_wf (cache_contents c2)) as Hwf2 by (intros o coin; rewrite (proj2 Hs2); apply Hwf).
  assert (best_at env c2) as Hb2 by (unfold best_at; rewrite (proj1 Hs2); exact Hbest).
  destruct (ConnectTx_inputs_spec _ _ _ _ _ _ _ _ _ E3 Hok2 Hwf2 ltac:(lia) Hb2 Hv Hsum) as (Hok3 & Hs3 & coins & Hc & Hf & Hfee).
  pose proof (cache_same_trans _ _ _ Hs2 Hs3) as Hs. set (h := bi_nHeight (ce_entry env)) in *.
  assert (tx_legal tx h (cache_contents c3) coins) as Hleg.
  { split; [split; [done|]|split; [by intros o Ho; rewrite (proj2 Hs); apply Hnew|]].
    - apply vout_size in Ed. unfold WITNESS_SCALE_FACTOR, MAX_BLOCK_WEIGHT in *. lia.
    - destruct (IsCoinBase (ref_tx tx)); [done|]. split; [done|]. exact (spends_same _ _ _ _ Hs3 Hc). }
  assert (tx_legal tx h (cache_contents (cn_view _ s)) coins) as Hleg0.
  { destruct Hleg as (L1 & L2 & L3). split; [done|]. split; [done|]. destruct (IsCoinBase (ref_tx tx)); [done|]. split; [done|].
    destruct L3 as [_ L3]. eapply spends_same; [|exact L3]. split; [|intros o]; symmetry; apply Hs. }
  destruct (UpdateCoins_spec tx h coins c3 Hok3 Hleg) as (c4 & E4 & Hok4 & Hb4 & Hc4). rewrite E4 in E. cbn [crash_if_none mbind result_bind] in E.
  destruct (SerializeTransaction _ (ce_CLIENT_VERSION env)) as [d4|]; [|done]. cbn [crash_if_err mbind result_bind] in E. injection E as <-.
  exists coins. split; cbn [cn_view cn_vtxundo cn_nFees]; [done|by rewrite Hb4; apply Hs|done| |done|done|done].
  intros o. rewrite Hc4. apply apply_tx_ext. apply Hs.
Qed.

(** ** All transactions of a block *)

(** The fees collected, as the code adds them up. *)
Fixpoint collect_fees (txs : list CTransactionRef) (undos : list CTxUndo) (nFees : Z) : Z :=
  match txs, undos with
  | tx :: txs, u :: undos => collect_fees txs undos (if IsCoinBase (ref_tx tx) then nFees else i64 (nFees + tx_fee (ref_tx tx) u))
  | _, _ => nFees
  end.

Lemma created_hash tx h o : is_Some (created tx h o) -> op_hash o = ref_hash tx.
Proof.
  unfold created, created_from. destruct (bool_decide (op_hash o = ref_hash tx)) eqn:E; [by apply bool_decide_eq_true in E|]. by intros [? ?].
Qed.

Lemma tx_legal_ext tx h M M' coins : (forall o, M o = M' o) -> tx_legal tx h M coins -> tx_legal tx h M' coins.
Proof.
  intros E (L1 & L2 & L3). split; [done|]. split; [by intros o Ho; rewrite <- E; apply L2|]. destruct (IsCoinBase (ref_tx tx)); [done|].
  destruct L3 as [L3 L4]. split; [done|]. eapply Forall2_impl; [exact L4|]. intros i coin. cbn. by rewrite E.
Qed.

Lemma txs_legal_ext txs undos h M M' : (forall o, M o = M' o) -> txs_legal txs undos h M -> txs_legal txs undos h M'.
Proof.
  revert undos M M'. induction txs as [|tx txs IH]; intros [|u undos] M M' E; try done. intros [L1 L2]. split; [by eapply tx_legal_ext|].
  eapply IH; [|done]. intros o. by apply apply_tx_ext.
Qed.

Lemma apply_txs_ext txs h M M' o : (forall o, M o = M' o) -> apply_txs txs h M o = apply_txs txs h M' o.
Proof.
  revert M M'. induction txs as [|tx txs IH]; intros M M' E; cbn; [done|]. apply IH. intros o'. by apply apply_tx_ext.
Qed.

(** The outputs of a block are new: no unspent coin has their names, and the transactions
    have different ids. *)
Definition outputs_new (txs : list CTransactionRef) (h : Z) (M : utxos) : Prop :=
  NoDup (ref_hash <$> txs) /\ Forall (fun tx => forall o, is_Some (created tx h o) -> M o = None) txs.

Lemma outputs_new_step tx txs h M : outputs_new (tx :: txs) h M -> outputs_new txs h (apply_tx tx h M).
Proof.
  intros [Hnd Hn]. rewrite fmap_cons in Hnd. apply NoDup_cons in Hnd as [Hno Hnd]. apply Forall_cons in Hn as [_ Hn]. split; [done|].
  apply Forall_forall. intros tx' Hin o Ho. unfold apply_tx. destruct (created tx h o) as [coin|] eqn:Ec.
  - exfalso. apply Hno. assert (ref_hash tx = ref_hash tx') as -> by (rewrite <- (created_hash tx h o), <- (created_hash tx' h o); [done|done|by exists coin]).
    by apply list_elem_of_fmap_2.
  - case_decide; [done|]. rewrite Forall_forall in Hn. by apply (Hn tx' Hin).
Qed.

Lemma ConnectTxs_spec env first txs s s' :
  ConnectTxs run_check SC sc_contains sc_insert nonce env first txs s = Ok s' ->
  cache_ok (cn_view _ s) -> coins_wf (cache_contents (cn_view _ s)) -> 0 < bi_nHeight (ce_entry env) < 2 ^ 31 -> best_at env (cn_view _ s) ->
  Forall (fun tx => transaction_valid (ref_tx tx) false) txs -> Forall (fun tx => NoDup (prevout <$> vin (ref_tx tx))) txs ->
  outputs_new txs (bi_nHeight (ce_entry env)) (cache_contents (cn_view _ s)) ->
  exists undos, cache_ok (cn_view _ s') /\ cache_best (cn_view _ s') = cache_best (cn_view _ s) /\
    txs_legal txs undos (bi_nHeight (ce_entry env)) (cache_contents (cn_view _ s)) /\
    (forall o, cache_contents (cn_view _ s') o = apply_txs txs (bi_nHeight (ce_entry env)) (cache_contents (cn_view _ s)) o) /\
    cn_vtxundo _ s' = cn_vtxundo _ s ++ (if first then tail undos else undos) /\
    cn_nFees _ s' = collect_fees txs undos (cn_nFees _ s) /\
    Forall2 (fun tx u => 0 <= tx_fee (ref_tx tx) u <= MAX_MONEY) txs undos.
Proof.
  revert first s. induction txs as [|tx txs IH]; intros first s E Hok Hwf Hh Hbest Hval Hnd Hnew.
  { injection E as <-. exists []. split_and!; try done. destruct first; by rewrite app_nil_r. }
  cbn [ConnectTxs] in E. destruct (ConnectTx _ _ _ _ _ env first tx s) as [s1|] eqn:E1; [|done]. cbn [mbind result_bind] in E.
  apply Forall_cons in Hval as [Hv Hval]. apply Forall_cons in Hnd as [Hn Hnd].
  destruct (ConnectTx_spec env first tx s s1 E1 Hok Hwf Hh Hbest Hv Hn) as (coins & [C1 C2 C3 C4 C5 C6 C7]).
  { destruct Hnew as [_ Hf]. by apply Forall_cons in Hf as [Hf _]. }
  assert (outputs_new txs (bi_nHeight (ce_entry env)) (cache_contents (cn_view _ s1))) as Hnew1.
  { destruct (outputs_new_step _ _ _ _ Hnew) as [N1 N2]. split; [done|]. eapply Forall_impl; [exact N2|]. intros x Hx o Ho. cbn. rewrite C4. by apply Hx. }
  assert (coins_wf (cache_contents (cn_view _ s1))) as Hwf1.
  { intros o coin. rewrite C4. apply apply_tx_wf; [done|apply C3|done]. }
  assert (best_at env (cn_view _ s1)) as Hb1 by (unfold best_at; rewrite C2; exact Hbest).
  destruct (IH false s1 E C1 Hwf1 Hh Hb1 Hval Hnd Hnew1) as (undos & D1 & D2 & D3 & D4 & D5 & D6 & D7).
  exists (coins :: undos). split_and!; try done; [congruence| | | | |by constructor].
  - split; [done|]. by eapply txs_legal_ext.
  - intros o. rewrite D4. cbn. apply apply_txs_ext. done.
  - rewrite D5, C5. destruct first; [done|]. by rewrite <- app_assoc.
  - rewrite D6. cbn [collect_fees]. by rewrite C6.
Qed.

(** ** The block *)

Lemma BIP30_outputs_spec hash o outs c c' : BIP30_outputs hash o outs c = Ok c' -> cache_ok c -> 0 <= o -> o + Zlength outs <= 2 ^ 32 ->
  cache_ok c' /\ cache_same c c' /\ forall i, o <= i < o + Zlength outs -> cache_contents c (mkOutPoint hash i) = None.
Proof.
  revert o c. induction outs as [|out outs IH]; intros o c E Hok Ho Hl; cbn [BIP30_outputs] in E.
  { injection E as <-. split_and!; try done. intros i Hi. change (Zlength (@nil CTxOut)) with 0 in Hi. lia. }
  rewrite Zlength_cons in *. pose proof (Zlength_nonneg outs). rewrite wrapu_small in E by (unfold uint_range; lia).
  destruct (HaveCoin_spec (mkOutPoint hash o) c Hok) as (c1 & E1 & Hok1 & Hs1). rewrite E1 in E. case_bool_decide as Hc; [done|].
  destruct (IH (o + 1) c1 E Hok1) as (Hok2 & Hs2 & Hn); [lia..|]. split; [done|]. split; [by eapply cache_same_trans|].
  intros i Hi. destruct (Z.eq_dec i o) as [->|Hne]; [by apply eq_None_not_Some|]. rewrite <- (proj2 Hs1). apply Hn. lia.
Qed.

Lemma BIP30_check_spec txs h c c' : BIP30_check txs c = Ok c' -> cache_ok c -> Forall (fun tx => Zlength (vout (ref_tx tx)) <= 2 ^ 32) txs ->
  cache_ok c' /\ cache_same c c' /\ Forall (fun tx => forall o, is_Some (created tx h o) -> cache_contents c o = None) txs.
Proof.
  revert c. induction txs as [|tx txs IH]; intros c E Hok Hl; cbn [BIP30_check] in E; [injection E as <-; split_and!; try done; by constructor|].
  apply Forall_cons in Hl as [Hl1 Hl]. destruct (BIP30_outputs _ _ _ c) as [c1|] eqn:E1; [|done]. cbn [mbind result_bind] in E.
  destruct (BIP30_outputs_spec _ _ _ _ _ E1 Hok) as (Hok1 & Hs1 & Hn1); [lia..|]. destruct (IH c1 E Hok1 Hl) as (Hok2 & Hs2 & Hn).
  split; [done|]. split; [by eapply cache_same_trans|]. constructor.
  - intros [oh on] Ho. pose proof (created_hash _ _ _ Ho) as E2. cbn in E2. subst oh. apply Hn1.
    unfold created, created_from in Ho. cbn [op_n op_hash] in Ho. rewrite bool_decide_eq_true_2 in Ho by done. cbn [andb] in Ho.
    destruct (Z.leb_spec 0 on); [|by destruct Ho]. rewrite Z.sub_0_r in Ho.
    destruct (vout (ref_tx tx) !! Z.to_nat on) as [out|] eqn:El; [|by destruct Ho]. apply lookup_lt_Some in El. unfold Zlength. lia.
  - eapply Forall_impl; [exact Hn|]. intros x Hx o Ho. cbn. rewrite <- (proj2 Hs1). by apply Hx.
Qed.

(** What a connected block has done to the view [c]. *)
Record block_connected (env : node_env) (block : CBlock) (pindex : uint256) (n : CBlockIndex) (txs : list CTransactionRef)
    (undos : list CTxUndo) c (s : connected SC) : Prop := {
  bc_entry : ne_index env !! pindex = Some n;
  bc_txs : mapM MakeTransactionRef (vtx block) = Ok txs;
  bc_coinbase : exists first rest, txs = first :: rest /\ IsCoinBase (ref_tx first) = true /\ Forall (fun tx => IsCoinBase (ref_tx tx) = false) rest;
  bc_valid : Forall (fun tx => transaction_valid (ref_tx tx) false) txs;
  bc_best : bi_pprev n = Some (cache_best c);
  bc_ok : cache_ok (cn_view _ s);
  bc_same_best : cache_best (cn_view _ s) = cache_best c;
  bc_legal : txs_legal txs undos (bi_nHeight n) (cache_contents c);
  bc_contents : forall o, cache_contents (cn_view _ s) o = apply_txs txs (bi_nHeight n) (cache_contents c) o;
  bc_undo : cn_vtxundo _ s = tail undos;
  bc_fees : Forall2 (fun tx u => 0 <= tx_fee (ref_tx tx) u <= MAX_MONEY) txs undos;
  bc_reward : value_sum (vout (default (mkTx 0 [] [] 0 CExtData_default) (head (vtx block)))) <=
    i64 (collect_fees txs undos 0 + GetBlockSubsidy (bi_nHeight n) (ne_params env))
}.

(** What connecting relies on besides a well-formed view: a well-formed index, a flag [fChecked] that is set
    only on valid blocks, different transaction ids, outputs that are new where they are
    not checked to be, and no transaction that names an input twice. *)
Record may_connect (env : node_env) (block : CBlock) (pindex : uint256) (n : CBlockIndex) c : Prop := {
  mc_index : index_ok (ne_index env);
  mc_entry : ne_index env !! pindex = Some n;
  mc_height : 0 < bi_nHeight n < 2 ^ 31;
  mc_checked : fChecked block = true -> block_valid block (ne_params env) true true;
  mc_many : Zlength (vtx block) <= 2 ^ 31;
  mc_inputs : Forall (fun tx => NoDup (prevout <$> vin tx)) (vtx block);
  mc_ids : forall txs, mapM MakeTransactionRef (vtx block) = Ok txs -> NoDup (ref_hash <$> txs);
  mc_new : forall txs, mapM MakeTransactionRef (vtx block) = Ok txs -> EnforceBIP30 (ne_index env) (ne_params env) pindex n = Some false ->
    Forall (fun tx => forall o, is_Some (created tx (bi_nHeight n) o) -> cache_contents c o = None) txs
}.

Lemma MakeTransactionRef_all txs refs : mapM MakeTransactionRef txs = Ok refs -> ref_tx <$> refs = txs.
Proof.
  intros E. apply mapM_Ok_Forall2 in E. induction E as [|tx r txs rs Hr _ IH]; [done|]. rewrite fmap_cons, IH. f_equal.
  unfold MakeTransactionRef in Hr. destruct (ComputeHash tx); [|done]. by injection Hr as <-.
Qed.

Lemma CheckBlock_parts block params pow merkle b : CheckBlock block params pow merkle = Ok b ->
  (fChecked block = true -> block_valid block params true true) -> Zlength (vtx block) <= 2 ^ 31 ->
  vtx b = vtx block /\ Forall (fun tx => transaction_valid tx false) (vtx block) /\
  exists first rest, vtx block = first :: rest /\ IsCoinBase first = true /\ Forall (fun tx => IsCoinBase tx = false) rest.
Proof.
  intros E Hc Hl. destruct (fChecked block) eqn:Ec.
  - unfold CheckBlock in E. rewrite Ec in E. injection E as <-. destruct (Hc eq_refl). done.
  - destruct (CheckBlock_spec block params pow merkle Ec Hl) as [Hiff Hb]. cbn zeta in *. pose proof (Hb b E) as ->.
    apply Hiff in E as [_ _ _ E1 E2 _]. split; [by destruct (pow && merkle)|done].
Qed.

Lemma Forall_refs (P : CTransaction -> Prop) refs txs : ref_tx <$> refs = txs -> Forall P txs -> Forall (fun r => P (ref_tx r)) refs.
Proof. intros <-. by rewrite Forall_fmap. Qed.

(** The loop over the transactions of a valid block, from a view with the contents of [c]. *)
Lemma connect_txs_block env block pindex n ce txs c (s0 s : connected SC) first rest :
  ConnectTxs run_check SC sc_contains sc_insert nonce ce true txs s0 = Ok s ->
  ce_index ce = ne_index env -> ce_entry ce = n -> cn_nFees _ s0 = 0 -> cn_vtxundo _ s0 = [] ->
  cache_ok (cn_view _ s0) -> cache_same c (cn_view _ s0) -> coins_wf (cache_contents c) ->
  index_ok (ne_index env) -> ne_index env !! pindex = Some n -> 0 < bi_nHeight n < 2 ^ 31 ->
  default uint256_zero (bi_pprev n) = cache_best c ->
  mapM MakeTransactionRef (vtx block) = Ok txs ->
  vtx block = first :: rest -> IsCoinBase first = true -> Forall (fun tx => IsCoinBase tx = false) rest ->
  Forall (fun tx => transaction_valid tx false) (vtx block) -> Forall (fun tx => NoDup (prevout <$> vin tx)) (vtx block) ->
  outputs_new txs (bi_nHeight n) (cache_contents c) ->
  value_sum (vout first) <= i64 (cn_nFees _ s + GetBlockSubsidy (bi_nHeight n) (ne_params env)) ->
  exists undos, block_connected env block pindex n txs undos c s.
Proof.
  intros E Eidx Een Efee Eundo Hok [Hsb Hsc] Hwf Hidx Hn Hh Hbest Etx Evtx Hcb Hrest Hval Hin Hnew Hrew.
  pose proof (MakeTransactionRef_all _ _ Etx) as Eref.
  destruct (bi_pprev n) as [q|] eqn:Eq; [|by apply (root_height _ Hidx pindex n Hn) in Eq; lia]. cbn in Hbest. subst q.
  destruct (parent_ok _ Hidx pindex n _ Hn Eq) as (nq & Hq & Eh). rewrite <- Een in Hh.
  assert (best_at ce (cn_view _ s0)) as Hb0.
  { exists nq. rewrite Hsb, Eidx, Een. split; [done|]. rewrite <- Eh. rewrite Een in Hh. apply wraps_small; [lia|]. unfold sint_range. lia. }
  assert (coins_wf (cache_contents (cn_view _ s0))) as Hwf0 by (intros o coin; rewrite Hsc; apply Hwf).
  assert (outputs_new txs (bi_nHeight (ce_entry ce)) (cache_contents (cn_view _ s0))) as Hnew0.
  { rewrite Een. destruct Hnew as [N1 N2]. split; [done|]. eapply Forall_impl; [exact N2|]. intros x Hx o Ho. cbn. rewrite Hsc. by apply Hx. }
  destruct (ConnectTxs_spec ce true txs s0 s E Hok Hwf0 Hh Hb0 (Forall_refs _ _ _ Eref Hval) (Forall_refs _ _ _ Eref Hin) Hnew0)
    as (undos & D1 & D2 & D3 & D4 & D5 & D6 & D7). rewrite Een in *.
  exists undos. split; try done.
  - rewrite Evtx in Eref. destruct txs as [|r txs]; [done|]. injection Eref as E1 E2. exists r, txs. split_and!; [done|congruence|].
    by apply (Forall_refs (fun tx => IsCoinBase tx = false) txs rest E2).
  - by apply (Forall_refs (fun tx => transaction_valid tx false) _ _ Eref).
  - congruence.
  - by eapply txs_legal_ext; [|exact D3].
  - intros o. rewrite D4. by apply apply_txs_ext.
  - by rewrite D5, Eundo.
  - rewrite Evtx. cbn [head default]. by rewrite D6, Efee in Hrew.
Qed.

Lemma ConnectBlock_checks_spec env block pindex n just c sc caches caches' b c' s :
  ConnectBlock_checks run_check SC sc_contains sc_insert nonce env block pindex just c sc caches = Ok (caches', b, c', Some s) ->
  may_connect env block pindex n c -> cache_ok c -> coins_wf (cache_contents c) ->
  vtx b = vtx block /\ c' = cn_view _ s /\ exists txs undos, block_connected env block pindex n txs undos c s.
Proof.
  intros E [Hidx Hn Hh Hchk Hmany Hin Hids Hnew] Hok Hwf. unfold ConnectBlock_checks in E. rewrite Hn in E. cbn [crash_if_none mbind result_bind] in E.
  destruct (negb (bool_decide (pindex = _))); [done|].
  destruct (CheckBlock block _ _ _) as [b1|] eqn:Eb; [|done]. cbn [mbind result_bind] in E.
  destruct (CheckBlock_parts _ _ _ _ _ Eb Hchk Hmany) as (Ev & Hval & first & rest & Evtx & Hcb & Hrest).
  destruct (GetBestBlock_spec c Hok) as (c1 & E1 & Hok1 & Hs1). rewrite E1 in E.
  destruct (decide (default uint256_zero (bi_pprev n) = cache_best c)) as [Hbest|Hne]; [|by rewrite bool_decide_eq_false_2 in E].
  rewrite bool_decide_eq_true_2 in E by done. cbn [negb] in E. destruct (bool_decide (_ = hashGenesisBlock _)); [done|].
  destruct (CheckScripts _ _ _ _ _ _ _) as [fsc|]; [|done]. cbn [crash_if_none mbind result_bind] in E.
  destruct (EnforceBIP30 _ _ _ _) as [bip30|] eqn:E30; [|done]. cbn [crash_if_none mbind result_bind] in E.
  rewrite Ev in E. destruct (mapM MakeTransactionRef (vtx block)) as [txs|] eqn:Etx; [|done]. cbn [crash_if_err mbind result_bind] in E.
  pose proof (MakeTransactionRef_all _ _ Etx) as Eref. pose proof (Forall_refs _ _ _ Eref Hval) as Hvalr.
  destruct (if bip30 then BIP30_check txs c1 else Ok c1) as [c2|] eqn:E2; [|done]. cbn [mbind result_bind] in E.
  assert (cache_ok c2 /\ cache_same c c2 /\ Forall (fun tx => forall o, is_Some (created tx (bi_nHeight n) o) -> cache_contents c o = None) txs)
    as (Hok2 & Hs2 & Hfresh).
  { destruct bip30; [|injection E2 as <-; split_and!; try done; by apply Hnew].
    destruct (BIP30_check_spec txs (bi_nHeight n) _ _ E2 Hok1) as (K1 & K2 & K3).
    - eapply Forall_impl; [exact Hvalr|]. intros tx (_ & _ & (d & Ed & Hd) & _). apply vout_size in Ed. unfold WITNESS_SCALE_FACTOR, MAX_BLOCK_WEIGHT in Hd. lia.
    - split; [done|]. split; [by eapply cache_same_trans|]. eapply Forall_impl; [exact K3|]. intros x Hx o Ho. cbn. rewrite <- (proj2 Hs1). by apply Hx. }
  destruct (VersionBitsState _ _ _ _ _) as [[ca csv]|]; [|done]. cbn [crash_if_none mbind result_bind] in E.
  destruct (GetBlockScriptFlags _ _ _ _) as [[ca' flags]|]; [|done]. cbn [mbind result_bind] in E.
  set (ce := mkConnectEnv _ _ _ _ _ _ _ _ _) in E. set (s0 := mkConnected _ _ _ _ _ _ _ _ _ _) in E.
  destruct (ConnectTxs _ _ _ _ _ ce true txs s0) as [s1|] eqn:E3; [|done]. cbn [mbind result_bind] in E.
  rewrite Evtx in E. cbn [head crash_if_none mbind result_bind] in E.
  assert (transaction_valid first false) as (_ & _ & _ & Hv & Hsum & _) by (rewrite Evtx in Hval; by apply Forall_cons in Hval as [? _]).
  rewrite (GetValueOut_spec first Hv Hsum) in E. cbn [crash_if_none mbind result_bind] in E.
  destruct (Z.ltb_spec (i64 (cn_nFees _ s1 + GetBlockSubsidy (bi_nHeight n) (ne_params env))) (value_sum (vout first))) as [|Hrew]; [done|].
  destruct (negb (CheckQueue_Wait _ _)); [done|]. injection E as <- <- <- <-. split; [done|]. split; [done|].
  exists txs. apply (connect_txs_block env block pindex n ce txs c s0 s1 first rest); try done. split; [by apply Hids|done].
Qed.
End connect_spec.
