(* ===== verification/Supply.v ===== *)
(** * Supply: what connecting and disconnecting blocks do to the money

    The total value of the unspent coins grows by at most the subsidy of each connected
    block and so never exceeds [MAX_MONEY]; disconnecting a block restores the coins. Both
    rest on no transaction naming an input twice, which [CheckBlock] does not check: the
    last section shows a block transaction that does, and what follows. *)

From Stdlib Require Import Strings.String.
From S2P Require Import Prelude Serialize Sha256 Primitives ArithUint256 Chain MedianTime Versionbits Pow SubChainMeta FlatFile BlockFiles Merkle Script Coins TxVerify UpdateCoins BlockCheck ConnectBlock.

#[local] Open Scope Z_scope.

Definition coins_total (g : gmap COutPoint Coin) : Z := map_fold (fun _ coin z => nValue (c_out coin) + z) 0 g.

(** The set is finite and its coins are worth [v] in total. *)
Definition supply (M : utxos) (v : Z) : Prop := exists g : gmap COutPoint Coin, (forall o, M o = g !! o) /\ v = coins_total g.

Lemma coins_total_insert g o coin : g !! o = None -> coins_total (<[o := coin]> g) = nValue (c_out coin) + coins_total g.
Proof. intros Ho. unfold coins_total. rewrite map_fold_insert_L; [done| |done]. intros. lia. Qed.

Lemma coins_total_delete g o coin : g !! o = Some coin -> coins_total (delete o g) = coins_total g - nValue (c_out coin).
Proof.
  intros Ho. rewrite <- (insert_delete_id g o coin Ho) at 2. rewrite coins_total_insert by apply lookup_delete_eq. lia.
Qed.

Lemma supply_ext M M' v : (forall o, M o = M' o) -> supply M v -> supply M' v.
Proof. intros E (g & Hg & ->). exists g. split; [|done]. intros o. by rewrite <- E. Qed.

Lemma supply_fun M v v' : supply M v -> supply M v' -> v = v'.
Proof. intros (g & Hg & ->) (g' & Hg' & ->). f_equal. apply map_eq. intros o. by rewrite <- Hg, <- Hg'. Qed.

Lemma supply_nonneg M v : coins_wf M -> supply M v -> 0 <= v.
Proof.
  intros Hwf (g & Hg & ->). assert (map_Forall (fun _ coin => 0 <= nValue (c_out coin)) g) as Hall.
  { intros o coin Ho. rewrite <- Hg in Ho. destruct (Hwf o coin Ho) as (_ & Hv & _). unfold value_ok in Hv. lia. }
  clear Hg. revert Hall. unfold coins_total. induction g as [|o coin g Ho Hf IH] using map_first_key_ind; [done|]. intros Hall.
  apply map_Forall_insert in Hall as [H1 H2]; [|done]. fold (coins_total (<[o := coin]> g)). rewrite coins_total_insert by done.
  specialize (IH H2). unfold coins_total. lia.
Qed.

(** ** Transactions *)

Lemma supply_spend M v ins coins : supply M v -> NoDup (prevout <$> ins) -> spends M ins coins ->
  supply (fun o => if decide (o ∈ prevout <$> ins) then None else M o) (v - coin_sum coins).
Proof.
  revert M v coins. induction ins as [|i ins IH]; intros M v coins Hs Hnd Hsp; inversion Hsp as [|? coin ? coins' Hi Hsp']; subst.
  { replace (v - coin_sum []) with v by (unfold coin_sum; cbn; lia). by apply (supply_ext M). }
  rewrite fmap_cons in Hnd |- *. apply NoDup_cons in Hnd as [Hno Hnd]. destruct Hs as (g & Hg & ->).
  assert (supply (fun o => if decide (o = prevout i) then None else M o) (coins_total g - nValue (c_out coin))) as Hs1.
  { exists (delete (prevout i) g). split; [|rewrite (coins_total_delete g (prevout i) coin); [done|by rewrite <- Hg]]. intros o. case_decide as E.
    - subst o. by rewrite lookup_delete_eq.
    - by rewrite lookup_delete_ne. }
  assert (spends (fun o => if decide (o = prevout i) then None else M o) ins coins') as Hsp1.
  { apply Forall2_same_length_lookup in Hsp' as [Hl Hlk]. apply Forall2_same_length_lookup. split; [done|]. intros k j cj Hj Hcj.
    rewrite decide_False; [by apply (Hlk k)|]. intros E. apply Hno. rewrite <- E. apply list_elem_of_fmap_2. by eapply list_elem_of_lookup_2. }
  specialize (IH _ _ _ Hs1 Hnd Hsp1). replace (coins_total g - coin_sum (coin :: coins')) with (coins_total g - nValue (c_out coin) - coin_sum coins').
  - eapply supply_ext; [|exact IH]. intros o. cbn. destruct (decide (o ∈ prevout <$> ins)) as [Hin|Hin].
    + by rewrite decide_True by (by right).
    + destruct (decide (o = prevout i)) as [->|Hne]; [by rewrite decide_True by left|]. rewrite decide_False; [done|]. by rewrite elem_of_cons; intros [?|?].
  - assert (coin_sum (coin :: coins') = nValue (c_out coin) + coin_sum coins') as -> by done. lia.
Qed.

Lemma supply_create M v txid cb h i outs : 0 <= i -> supply M v -> Forall (fun o => value_ok (nValue o)) outs ->
  (forall o, is_Some (created_from txid cb h i outs o) -> M o = None) ->
  exists v', supply (fun o => match created_from txid cb h i outs o with Some coin => Some coin | None => M o end) v' /\
    v' <= v + value_sum outs.
Proof.
  intros Hi Hs. revert i Hi. induction outs as [|out outs IH]; intros i Hi Hv Hnew.
  { exists v. split; [|cbn; lia]. eapply supply_ext; [|exact Hs]. intros o. unfold created_from. by case_if. }
  apply Forall_cons in Hv as [Hv1 Hv]. destruct (IH (i + 1)) as (v' & (g & Hg & ->) & Hle); [lia|done|..].
  { intros o Ho. apply Hnew. rewrite created_from_cons by done. case_bool_decide as E; [|done]. subst o.
    rewrite created_from_below in Ho by lia. by destruct Ho. }
  cbn [value_sum foldr]. fold (value_sum outs). unfold value_ok in Hv1. destruct (IsUnspendable (scriptPubKey out)) eqn:Eu.
  - exists (coins_total g). split; [|lia]. exists g. split; [|done]. intros o. rewrite <- Hg, created_from_cons by done. case_bool_decide as E; [|done].
    subst o. by rewrite Eu, created_from_below by lia.
  - assert (g !! mkOutPoint txid i = None) as Hi0.
    { rewrite <- Hg, created_from_below by lia. apply Hnew. rewrite created_from_cons, bool_decide_eq_true_2, Eu by done. by eexists. }
    exists (nValue out + coins_total g). split; [|lia]. exists (<[mkOutPoint txid i := Coin_of out h cb]> g). rewrite coins_total_insert by done.
    split; [|done]. intros o. rewrite created_from_cons by done. case_bool_decide as E.
    + subst o. by rewrite Eu, lookup_insert_eq.
    + rewrite lookup_insert_ne by congruence. apply Hg.
Qed.

(** What a transaction adds to the supply at most: a coinbase what it pays, another one
    minus its fee. *)
Definition tx_delta (tx : CTransaction) (coins : list Coin) : Z := if IsCoinBase tx then value_sum (vout tx) else - tx_fee tx coins.

Lemma supply_apply_tx tx h M coins v : supply M v -> tx_legal tx h M coins ->
  exists v', supply (apply_tx tx h M) v' /\ v' <= v + tx_delta (ref_tx tx) coins.
Proof.
  intros Hs ([Hv _] & Hnew & Hin). unfold apply_tx, tx_delta, tx_fee.
  assert (exists v1, supply (fun o => if decide (spent_by (ref_tx tx) o) then None else M o) v1 /\
    v1 + value_sum (vout (ref_tx tx)) = v + (if IsCoinBase (ref_tx tx) then value_sum (vout (ref_tx tx)) else - (coin_sum coins - value_sum (vout (ref_tx tx)))))
    as (v1 & Hs1 & Ev1).
  { destruct (IsCoinBase (ref_tx tx)) eqn:Hcb.
    - exists v. split; [|done]. eapply supply_ext; [|exact Hs]. intros o. rewrite decide_False; [done|]. intros [? _]. congruence.
    - destruct Hin as [Hnd Hsp]. exists (v - coin_sum coins). split; [|lia]. eapply supply_ext; [|by apply supply_spend].
      intros o. cbn. destruct (decide (o ∈ prevout <$> vin (ref_tx tx))) as [Ho|Ho].
      + by rewrite decide_True by done.
      + rewrite decide_False; [done|]. by intros [_ ?]. }
  destruct (supply_create _ v1 (ref_hash tx) (IsCoinBase (ref_tx tx)) h 0 (vout (ref_tx tx)) ltac:(lia) Hs1 Hv) as (v' & Hs' & Hle).
  { intros o Ho. case_decide; [done|]. by apply Hnew. }
  exists v'. split; [exact Hs'|destruct (IsCoinBase (ref_tx tx)); lia].
Qed.

Definition txs_delta (txs : list CTransactionRef) (undos : list CTxUndo) : Z := sum_list (zip_with (fun tx u => tx_delta (ref_tx tx) u) txs undos).

Lemma supply_apply_txs txs undos h M v : supply M v -> txs_legal txs undos h M ->
  exists v', supply (apply_txs txs h M) v' /\ v' <= v + txs_delta txs undos.
Proof.
  revert undos M v. induction txs as [|tx txs IH]; intros [|u undos] M v Hs Hl; try done; [exists v; split; [done|unfold txs_delta; cbn; lia]|].
  destruct Hl as [Hl1 Hl]. destruct (supply_apply_tx tx h M u v Hs Hl1) as (v1 & Hs1 & Hle1).
  destruct (IH undos _ v1 Hs1 Hl) as (v2 & Hs2 & Hle2). exists v2. split; [done|]. unfold txs_delta, sum_list in *. cbn. lia.
Qed.

(** ** Fees *)

Definition fee_sum (txs : list CTransactionRef) (undos : list CTxUndo) : Z := sum_list (zip_with (fun tx u => tx_fee (ref_tx tx) u) txs undos).

Lemma fee_sum_nonneg txs undos : Forall2 (fun tx u => 0 <= tx_fee (ref_tx tx) u <= MAX_MONEY) txs undos -> 0 <= fee_sum txs undos.
Proof. unfold fee_sum, sum_list. induction 1; cbn in *; lia. Qed.

(** The 64-bit sum of the fees is exact while the total fits. *)
Lemma collect_fees_exact txs undos acc : Forall2 (fun tx u => 0 <= tx_fee (ref_tx tx) u <= MAX_MONEY) txs undos ->
  0 <= acc -> acc + fee_sum txs undos <= 2 * MAX_MONEY -> collect_fees txs undos acc = acc + fee_sum txs undos.
Proof.
  intros Hf. revert acc. induction Hf as [|tx u txs undos Hx Hf IH]; intros acc Ha Hs; cbn [collect_fees]; [unfold fee_sum; cbn; lia|].
  pose proof (fee_sum_nonneg _ _ Hf) as Hn. assert (fee_sum (tx :: txs) (u :: undos) = tx_fee (ref_tx tx) u + fee_sum txs undos) as E by done. rewrite E in *.
  destruct (IsCoinBase (ref_tx tx)) eqn:Hcb; [assert (tx_fee (ref_tx tx) u = 0) as Ez by (unfold tx_fee; by rewrite Hcb)|rewrite value_ok_i64 by lia]; rewrite IH; lia.
Qed.

Lemma txs_delta_block first rest u0 undos : IsCoinBase (ref_tx first) = true -> Forall (fun tx => IsCoinBase (ref_tx tx) = false) rest ->
  txs_delta (first :: rest) (u0 :: undos) = value_sum (vout (ref_tx first)) - fee_sum (first :: rest) (u0 :: undos).
Proof.
  intros Hcb Hr. unfold txs_delta, fee_sum, sum_list. cbn [zip_with foldr]. unfold tx_delta at 1, tx_fee at 2. rewrite Hcb.
  enough (foldr Z.add 0 (zip_with (fun tx u => tx_delta (ref_tx tx) u) rest undos) = - foldr Z.add 0 (zip_with (fun tx u => tx_fee (ref_tx tx) u) rest undos)) by lia.
  revert undos. induction Hr as [|tx rest Htx _ IH]; intros [|u undos]; try done. cbn [zip_with foldr]. rewrite IH. unfold tx_delta. rewrite Htx. lia.
Qed.

Lemma apply_txs_wf txs undos h M : 0 < h < 2 ^ 31 -> coins_wf M -> txs_legal txs undos h M -> coins_wf (apply_txs txs h M).
Proof.
  intros Hh. revert undos M. induction txs as [|tx txs IH]; intros [|u undos] M Hwf Hl; try done. destruct Hl as [Hl1 Hl].
  apply (IH undos); [|done]. apply apply_tx_wf; [done|apply Hl1|done].
Qed.

(** * Blocks *)

Section blocks.
Context {V : Type} `{CoinsViewSpec V}.
Abbreviation cache := (CCoinsViewCache V).
Context (run_check : CScriptCheck -> option string) (SC : Type) (sc_contains : uint256 -> bool -> SC -> bool * SC)
  (sc_insert : uint256 -> SC -> SC) (nonce : uint256).
Implicit Types c : cache.

Lemma connected_supply env block pindex n txs undos c (s : connected SC) v :
  block_connected SC env block pindex n txs undos c s -> coins_wf (cache_contents c) -> 0 < bi_nHeight n < 2 ^ 31 ->
  0 < nSubsidyHalvingInterval (ne_params env) -> supply (cache_contents c) v -> v <= MAX_MONEY ->
  exists v', supply (cache_contents (cn_view _ s)) v' /\ 0 <= v' <= v + GetBlockSubsidy (bi_nHeight n) (ne_params env).
Proof.
  intros [_ Etx (first & rest & Ef & Hcb & Hrest) Hval _ _ _ Hleg Hc _ Hfees Hrew] Hwf Hh Hi Hs Hv. subst txs.
  destruct undos as [|u0 undos]; [by inversion Hfees|].
  destruct (supply_apply_txs _ _ _ _ _ Hs Hleg) as (v' & Hs' & Hle).
  pose proof (supply_nonneg _ _ (apply_txs_wf _ _ _ _ Hh Hwf Hleg) Hs') as Hnn. rewrite (txs_delta_block first rest u0 undos Hcb Hrest) in Hle.
  apply Forall_cons in Hval as [(_ & _ & _ & _ & Hmax & _) _].
  pose proof (fee_sum_nonneg _ _ Hfees) as Hf0. pose proof (GetBlockSubsidy_bounds (bi_nHeight n) (ne_params env) ltac:(lia) Hi) as Hsub.
  rewrite (collect_fees_exact _ _ 0 Hfees) in Hrew by lia.
  assert (head (vtx block) = Some (ref_tx first)) as Eh by (by rewrite <- (MakeTransactionRef_all _ _ Etx)). rewrite Eh in Hrew.
  change (value_sum (vout (ref_tx first)) <= i64 (0 + fee_sum (first :: rest) (u0 :: undos) + GetBlockSubsidy (bi_nHeight n) (ne_params env))) in Hrew.
  rewrite Z.add_0_l in Hrew. unfold MAX_MONEY, COIN in *. rewrite wraps_small in Hrew by (unfold sint_range; lia).
  exists v'. split; [|lia]. eapply supply_ext; [|exact Hs']. intros o. by rewrite Hc.
Qed.

(** A chain of blocks connected one on the other, from the view after the first block,
    which has no coins. *)
Inductive chain (params : ConsensusParams) : nat -> cache -> Prop :=
| chain_start c : cache_ok c -> (forall o, cache_contents c o = None) -> chain params 0 c
| chain_step k c env block pindex n sc caches caches' b c' s :
    chain params k c -> ne_params env = params -> bi_nHeight n = Z.of_nat k + 1 -> may_connect env block pindex n c ->
    ConnectBlock_checks run_check SC sc_contains sc_insert nonce env block pindex false c sc caches = Ok (caches', b, c', Some s) ->
    chain params (S k) (SetBestBlock pindex c').

Lemma chain_supply params k c : 0 < nSubsidyHalvingInterval params <= 210000 -> chain params k c ->
  cache_ok c /\ coins_wf (cache_contents c) /\ exists v, supply (cache_contents c) v /\ 0 <= v <= total_subsidy params (S k).
Proof.
  intros Hi. induction 1 as [c Hok Hc|k c env block pindex n sc caches caches' b c' s Hch IH Ep Eh Hmay E].
  - split; [done|]. split; [intros o coin; by rewrite Hc|]. exists 0. split; [exists ∅; split; [|done]; intros o; by rewrite Hc, lookup_empty|].
    pose proof (total_subsidy_range params 1 Hi). lia.
  - destruct IH as (Hok & Hwf & v & Hs & Hv).
    destruct (ConnectBlock_checks_spec _ _ _ _ _ _ _ _ _ _ _ _ _ _ _ _ _ E Hmay Hok Hwf) as (_ & -> & txs & undos & Hb).
    pose proof (total_subsidy_range params (S k) Hi) as Hmax.
    destruct (connected_supply _ _ _ _ _ _ _ _ v Hb Hwf (mc_height _ _ _ _ _ Hmay)) as (v' & Hs' & Hv'); [rewrite Ep; lia|done|lia|].
    assert (forall o, cache_contents (SetBestBlock pindex (cn_view _ s)) o = cache_contents (cn_view _ s) o) as Eset by done.
    split; [exact (bc_ok _ _ _ _ _ _ _ _ _ Hb)|]. split.
    + intros o coin. rewrite Eset, (bc_contents _ _ _ _ _ _ _ _ _ Hb). apply (apply_txs_wf _ undos); [apply Hmay|done|apply Hb].
    + exists v'. split; [by eapply supply_ext|].
      change (total_subsidy params (S (S k))) with (total_subsidy params (S k) + GetBlockSubsidy (Z.of_nat (S k)) params).
      rewrite Ep, Eh in Hv'. replace (Z.of_nat (S k)) with (Z.of_nat k + 1) by lia. lia.
Qed.


Lemma zip_undos first rest u0 undos : IsCoinBase (ref_tx first) = true -> Forall (fun tx => IsCoinBase (ref_tx tx) = false) rest ->
  length rest = length undos ->
  zip_with (fun tx u => (tx, undo_of tx u)) (first :: rest) (u0 :: undos) = zip (first :: rest) (None :: map Some undos).
Proof.
  intros Hcb Hr Hl. cbn [zip_with]. unfold undo_of at 1. rewrite Hcb. f_equal. clear Hcb. revert undos Hl.
  induction Hr as [|tx rest Htx _ IH]; intros [|u undos] Hl; try done. cbn [zip_with map]. unfold undo_of at 1. rewrite Htx. f_equal. apply IH. cbn in Hl. lia.
Qed.

Lemma disconnect_restores_spec env block pindex n c sc caches caches' b c' s :
  ConnectBlock_checks run_check SC sc_contains sc_insert nonce env block pindex false c sc caches = Ok (caches', b, c', Some s) ->
  may_connect env block pindex n c -> cache_ok c -> coins_wf (cache_contents c) -> uint256_IsNull (cache_best c) = false ->
  exists txs c'', mapM MakeTransactionRef (vtx b) = Ok txs /\
    DisconnectBlock_coins txs (cn_vtxundo _ s) (bi_nHeight n) (cache_best c) (SetBestBlock pindex c') = Some (c'', DISCONNECT_OK) /\
    cache_best c'' = cache_best c /\ forall o, cache_contents c'' o = cache_contents c o.
Proof.
  intros E Hmay Hok Hwf Hnn. destruct (ConnectBlock_checks_spec _ _ _ _ _ _ _ _ _ _ _ _ _ _ _ _ _ E Hmay Hok Hwf) as (Ev & -> & txs & undos & Hb).
  destruct Hb as [_ Etx (first & rest & Ef & Hcb & Hrest) _ _ Hok' _ Hleg Hc Hundo Hfees _]. exists txs. subst txs.
  destruct undos as [|u0 undos]; [by inversion Hfees|]. pose proof (Forall2_length _ _ _ Hfees) as Hl. cbn [length] in Hl.
  assert (cache_ok (SetBestBlock pindex (cn_view _ s))) as Hok1 by exact Hok'.
  destruct (Disconnect_loop_spec (first :: rest) (u0 :: undos) (bi_nHeight n) (cache_contents c) (SetBestBlock pindex (cn_view _ s)) Hok1
    (mc_height _ _ _ _ _ Hmay) Hwf Hleg Hc) as (c2 & E2 & Hok2 & _ & Hc2).
  exists (SetBestBlock (cache_best c) c2). rewrite Ev. split; [done|]. unfold DisconnectBlock_coins. rewrite Hundo. cbn [tail length].
  rewrite (proj2 (Nat.eqb_eq _ _)) by lia. cbn [negb]. rewrite <- (zip_undos first rest u0 undos Hcb Hrest) by lia. rewrite E2.
  cbn [mbind option_bind]. split; [done|]. split; [|exact Hc2]. unfold cache_best at 1. cbn [cc_hashBlock SetBestBlock]. by rewrite Hnn.
Qed.

(** Disconnecting a block that was connected, with the undo data recorded for it,
    succeeds cleanly and gives back the coins and the best block there were before. *)
Theorem disconnect_restores env block pindex n c sc caches caches' b c' s :
  ConnectBlock_checks run_check SC sc_contains sc_insert nonce env block pindex false c sc caches = Ok (caches', b, c', Some s) ->
  may_connect env block pindex n c -> cache_ok c -> coins_wf (cache_contents c) -> uint256_IsNull (cache_best c) = false ->
  exists txs c'', mapM MakeTransactionRef (vtx b) = Ok txs /\
    DisconnectBlock_coins txs (cn_vtxundo _ s) (bi_nHeight n) (cache_best c) (SetBestBlock pindex c') = Some (c'', DISCONNECT_OK) /\
    cache_best c'' = cache_best c /\ forall o, cache_contents c'' o = cache_contents c o.
Proof. apply disconnect_restores_spec. Qed.
End blocks.

(** * Instances of the statements, and a block that inflates *)

Definition demo_parent : uint256 := replicate 32 x09.
Definition demo_out : COutPoint := mkOutPoint (replicate 32 x07) 0.
Definition demo_spend (ins : list COutPoint) (v : Z) : CTransaction :=
  mkTx 1 (map (fun o => mkTxIn o [] 0xffffffff []) ins) [mkTxOut v [x51]] 0 CExtData_default.
Definition demo_merkle (txs : list CTransaction) : uint256 :=
  match mapM ComputeHash txs with Ok l => match ComputeMerkleRoot l with Some (r, _) => r | None => [] end | Err _ => [] end.
Definition demo_connect (txs : list CTransaction) (nonce : Z) : CBlock :=
  mkBlock (mkHeader 4 demo_parent (demo_merkle txs) 1600 0x207fffff nonce) txs false.
Definition block_hash (block : CBlock) : uint256 := CBlockHeader_GetHash (block_header block).
Definition demo_node (block : CBlock) : CBlockIndex := set_prev (Some demo_parent) 1 (CBlockIndex_of_header (block_header block)).
Definition demo_env_of (node : CBlockIndex) (block : CBlock) : node_env :=
  mkNodeEnv (<[block_hash block := node]> (<[demo_parent := sample_node None None 0]> ∅)) None uint256_zero base_uint_zero demo_rules true 0.
Definition demo_env (block : CBlock) : node_env := demo_env_of (demo_node block) block.
Definition demo_view (coins : gmap COutPoint Coin) : CCoinsViewCache CCoinsViewDB :=
  mkCache (mkCoinsDB coins (Some demo_parent) None (fun _ => false)) uint256_zero ∅.
Definition demo_run (block : CBlock) (c : CCoinsViewCache CCoinsViewDB) :=
  ConnectBlock_checks (fun _ => None) unit (fun _ _ sc => (false, sc)) (fun _ sc => sc) (replicate 32 x00) (demo_env block) block (block_hash block)
    false c tt VersionBitsCache_Clear.

(** What can be computed of [may_connect]. *)
Definition demo_good_of (node : CBlockIndex) (block : CBlock) : bool :=
  match mapM MakeTransactionRef (vtx block) with Ok txs => bool_decide (NoDup (ref_hash <$> txs)) | Err _ => true end &&
  bool_decide (Forall (fun tx => NoDup (prevout <$> vin tx)) (vtx block)) && negb (fChecked block) && (Zlength (vtx block) <=? 2) &&
  bool_decide (EnforceBIP30 (ne_index (demo_env_of node block)) demo_rules (block_hash block) node = Some true) &&
  negb (bool_decide (block_hash block = demo_parent)).
Definition demo_good (block : CBlock) : bool := demo_good_of (demo_node block) block.

Lemma demo_may_connect_of node block c : demo_good_of node block = true ->
  bi_pprev node = Some demo_parent -> bi_nHeight node = 1 -> bi_pskip node = None ->
  may_connect (demo_env_of node block) block (block_hash block) node c.
Proof.
  unfold demo_good_of. rewrite !andb_true_iff, !negb_true_iff, !bool_decide_eq_true, bool_decide_eq_false.
  intros (((((Hids & Hin) & Hc) & Hl) & H30) & Hne) Hp Hh Hs. split.
  - unfold demo_env_of. cbn [ne_index]. apply index_ok_insert; [apply index_ok_insert; [by intros p n [=]|done|done|done]| |lia|].
    + rewrite lookup_insert_ne by congruence. done.
    + rewrite Hp. eexists. split; [apply lookup_insert_eq|]. split; [done|]. rewrite Hs. by intros s [=].
  - apply lookup_insert_eq.
  - lia.
  - congruence.
  - apply Z.leb_le in Hl. lia.
  - done.
  - intros txs E. rewrite E in Hids. by apply bool_decide_eq_true in Hids.
  - intros txs _ E. cbn [ne_params demo_env_of] in E. congruence.
Qed.

Lemma demo_may_connect block c : demo_good block = true -> may_connect (demo_env block) block (block_hash block) (demo_node block) c.
Proof. intros Hg. by apply demo_may_connect_of. Qed.

Lemma demo_view_ok coins : map_Forall (fun _ coin => IsSpent coin = false) coins -> cache_ok (demo_view coins).
Proof. intros Hc. split; [split; [done|exact Hc]|apply map_Forall_empty]. Qed.

Definition is_connected {A B C D} (r : result failure (A * B * C * option D)) : bool :=
  match r with Ok (_, _, _, Some _) => true | _ => false end.

Lemma is_connected_Ok {A B C D} (r : result failure (A * B * C * option D)) : is_connected r = true ->
  exists a b c d, r = Ok (a, b, c, Some d).
Proof. destruct r as [[[[a b] c] [d|]]|]; try done. by exists a, b, c, d. Qed.

Definition demo_first : CBlock := demo_connect [demo_coinbase] 0.

Lemma demo_good_first : demo_good demo_first = true.
Proof. vm_compute. reflexivity. Qed.

Lemma demo_first_connects : exists caches b c s, demo_run demo_first (demo_view ∅) = Ok (caches, b, c, Some s).
Proof. apply is_connected_Ok. vm_compute. reflexivity. Qed.


Definition demo_coins : gmap COutPoint Coin := {[ demo_out := mkCoin (mkTxOut (100 * COIN) [x51]) false 1 ]}.
Definition demo_second : CBlock := demo_connect [demo_coinbase; demo_spend [demo_out] (90 * COIN)] 2.

Lemma demo_coins_ok : cache_ok (demo_view demo_coins) /\ coins_wf (cache_contents (demo_view demo_coins)).
Proof.
  split; [apply demo_view_ok; apply map_Forall_singleton; reflexivity|]. intros o coin Ho. change (demo_coins !! o = Some coin) in Ho.
  unfold demo_coins in Ho. apply lookup_singleton_Some in Ho as [<- <-]. vm_compute. intuition congruence.
Qed.

Lemma demo_good_second : demo_good demo_second = true.
Proof. vm_compute. reflexivity. Qed.

Lemma demo_second_connects : exists caches b c s, demo_run demo_second (demo_view demo_coins) = Ok (caches, b, c, Some s).
Proof. apply is_connected_Ok. vm_compute. reflexivity. Qed.

Lemma disconnect_restores_witness : exists caches b c' s txs c'', demo_run demo_second (demo_view demo_coins) = Ok (caches, b, c', Some s) /\
  DisconnectBlock_coins txs (cn_vtxundo _ s) 1 demo_parent (SetBestBlock (block_hash demo_second) c') = Some (c'', DISCONNECT_OK) /\
  forall o, cache_contents c'' o = cache_contents (demo_view demo_coins) o.
Proof.
  destruct demo_second_connects as (caches & b & c' & s & E).
  destruct demo_coins_ok as [Hok Hwf]. pose proof E as Er. unfold demo_run in Er.
  destruct (disconnect_restores (fun _ => None) unit (fun _ _ sc => (false, sc)) (fun _ sc => sc) (replicate 32 x00) (demo_env demo_second) demo_second
    (block_hash demo_second) (demo_node demo_second) (demo_view demo_coins) tt VersionBitsCache_Clear caches b c' s Er
    (demo_may_connect _ _ demo_good_second) Hok Hwf eq_refl) as (txs & c'' & _ & Ed & _ & Hc).
  exists caches, b, c', s, txs, c''. split; [exact E|]. split; [exact Ed|exact Hc].
Defined.

(** The coins of a cache over the database. *)
Definition view_map (c : CCoinsViewCache CCoinsViewDB) : gmap COutPoint Coin :=
  merge (fun e b => match e with Some e => unspent (e_coin e) | None => b end) (cc_coins c) (db_coins (cc_base c)).

Lemma view_map_contents c o : cache_contents c o = view_map c !! o.
Proof.
  unfold cache_contents, entries_contents, view_map. cbn [contents db_view_spec]. rewrite lookup_merge.
  destruct (cc_coins c !! o), (db_coins (cc_base c) !! o); done.
Qed.

Definition demo_double : CBlock := demo_connect [demo_coinbase; demo_spend [demo_out; demo_out] (200 * COIN)] 0.

(** A valid block whose transaction names the same input twice is connected, and the
    supply grows by more than the subsidy: [CheckBlock] leaves the check out, the value of
    the coin is counted twice, and the assertion in [UpdateCoins] holds the second time
    too because the entry of the spent coin is still in the cache. *)
Theorem duplicate_inputs_inflate : exists caches b c' s v v',
  demo_run demo_double (demo_view demo_coins) = Ok (caches, b, c', Some s) /\
  supply (cache_contents (demo_view demo_coins)) v /\ supply (cache_contents c') v' /\ v + GetBlockSubsidy 1 demo_rules < v'.
Proof.
  assert (match demo_run demo_double (demo_view demo_coins) with
          | Ok (_, _, c', Some _) => coins_total demo_coins + GetBlockSubsidy 1 demo_rules <? coins_total (view_map c')
          | _ => false end = true) as Hv by (vm_compute; reflexivity).
  destruct (demo_run demo_double (demo_view demo_coins)) as [[[[caches b] c'] [s|]]|]; [|discriminate Hv..].
  exists caches, b, c', s, (coins_total demo_coins), (coins_total (view_map c')). split; [reflexivity|]. split.
  { exists demo_coins. split; [|reflexivity]. intros o. unfold cache_contents, entries_contents. cbn [cc_coins demo_view]. by rewrite lookup_empty. }
  split; [|by apply Z.ltb_lt]. exists (view_map c'). split; [intros o; apply view_map_contents|reflexivity].
Qed.
