(* ===== verification/FieldPrime.v ===== *)
(** The prime field of secp256k1: the number theory the field code relies on.

    [secp_p] is the modulus [2^256 - 2^32 - 977] that field_5x52_impl.h reduces
    by. The file proves it prime with a chain of Pocklington certificates that
    the kernel evaluates, so that the residues [Fp] form a field with Leibniz
    equality, [ring] and [field]; the values of field elements and of curve points
    are stated in [Fp]. *)
From stdpp Require Import base list list_numbers numbers zmap.
From Stdlib Require Import ZArith Zpow_facts Zmod Lia Field.
From S2P Require Import Prelude.

Local Open Scope Z_scope.

(** ** Modular exponentiation *)

Fixpoint powmod_pos (n a : Z) (e : positive) : Z :=
  match e with
  | xH => a mod n
  | xO e => let r := powmod_pos n a e in r * r mod n
  | xI e => let r := powmod_pos n a e in r * r * a mod n
  end.

Definition powmod (n a e : Z) : Z :=
  match e with Zpos e => powmod_pos n a e | _ => 1 mod n end.

Lemma powmod_pos_correct n a e : n <> 0 -> powmod_pos n a e = a ^ Zpos e mod n.
Proof.
  intros Hn. induction e as [e IH|e IH|]; cbn [powmod_pos]; cbv zeta.
  - rewrite IH, <- Z.mul_assoc, Zmult_mod_idemp_l, Z.mul_comm, <- Z.mul_assoc, Zmult_mod_idemp_l.
    f_equal. rewrite Pos2Z.inj_xI, Z.pow_add_r, (Z.mul_comm 2), Z.pow_mul_r by lia. lia.
  - rewrite IH, <- Zmult_mod. f_equal. rewrite Pos2Z.inj_xO, (Z.mul_comm 2), Z.pow_mul_r by lia. lia.
  - by rewrite Z.pow_1_r.
Qed.

Lemma powmod_correct n a e : n <> 0 -> 0 <= e -> powmod n a e = a ^ e mod n.
Proof. intros Hn He. destruct e as [|e|e]; [done|by apply powmod_pos_correct|lia]. Qed.

(** ** Divisibility and the exponents that give one *)

Lemma divide_mod_eq n a b : (n | a - b) <-> a mod n = b mod n.
Proof. by rewrite Z.cong_iff_ex. Qed.

Lemma pow_one_mul r a n k : 1 < r -> 0 <= n -> 0 <= k -> a ^ n mod r = 1 -> a ^ (n * k) mod r = 1.
Proof.
  intros Hr Hn Hk H. rewrite Z.pow_mul_r, Zpower_mod, H, Z.pow_1_l by lia. by apply Z.mod_small.
Qed.

Lemma pow_one_gcd r a m n :
  1 < r -> 0 <= m -> 0 <= n -> a ^ m mod r = 1 -> a ^ n mod r = 1 -> a ^ Z.gcd m n mod r = 1.
Proof.
  intros Hr. revert m. induction n as [n IH] using (well_founded_induction (Z.lt_wf 0)).
  intros m Hm Hn H1 H2. destruct (decide (n = 0)) as [->|].
  { by rewrite Z.gcd_0_r, Z.abs_eq. }
  rewrite Z.gcd_comm, <- Z.gcd_mod, Z.gcd_comm by lia. pose proof (Z.mod_pos_bound m n ltac:(lia)).
  apply IH; try done; try lia.
  rewrite (Z.div_mod m n) in H1 by lia. pose proof (Z.div_pos m n ltac:(lia) ltac:(lia)).
  rewrite Z.pow_add_r, Zmult_mod, pow_one_mul, Z.mul_1_l, Z.mod_mod in H1 by (done || nia || lia). done.
Qed.

(** ** Pocklington's criterion *)

Lemma prime_divisor n : 1 < n -> exists r, Z.prime r /\ (r | n).
Proof.
  induction n as [n IH] using (well_founded_induction (Z.lt_wf 0)). intros Hn.
  destruct (decide (Exists (fun d => n mod d = 0) (seqZ 2 (n - 2)))) as [Hex|Hno].
  - apply Exists_exists in Hex as (d & Hd%elem_of_seqZ & Hdn%Z.mod_divide); [|lia].
    destruct (IH d) as (r & Hr & Hrd); [lia|lia|]. exists r. split; [done|]. by etrans.
  - exists n. split; [|done]. split; [done|]. intros d Hd Hdn%Z.mod_divide; [|lia]. apply Hno, Exists_exists.
    exists d. rewrite elem_of_seqZ. split; [lia|done].
Qed.

(** The base [a] shows that [q] divides [r - 1] for every prime divisor [r] of [N]. *)
Definition pocklington_test (N a q : Z) : bool :=
  ((N - 1) mod q =? 0) && (Z.gcd (powmod N a ((N - 1) / q) - 1) N =? 1).

Lemma quotient_divides e M q : Z.prime q -> (e | M) -> (q | M) -> ~ (q | e) -> (e | M / q).
Proof.
  intros Hq [c ->] Hqm He. pose proof (Z.prime_ge_2 _ Hq).
  apply (Z.divide_prime_mul c e q Hq) in Hqm as [[d ->]|]; [|done].
  exists d. replace (d * q * e) with (d * e * q) by ring. by rewrite Z.div_mul by lia.
Qed.

Lemma pocklington_step N q a r :
  1 < N -> Z.prime q -> powmod N a (N - 1) = 1 -> pocklington_test N a q = true -> Z.prime r -> (r | N) -> (q | r - 1).
Proof.
  intros HN Hq H2 Ht Hr HrN. pose proof (Z.prime_ge_2 _ Hq). pose proof (Z.prime_ge_2 _ Hr).
  unfold pocklington_test in Ht. rewrite andb_true_iff, !Z.eqb_eq in Ht. destruct Ht as [H1 H3].
  assert (0 <= (N - 1) / q) by (apply Z.div_pos; lia). rewrite powmod_correct in H2 by lia. rewrite powmod_correct in H3 by lia.
  assert (a ^ (N - 1) mod r = 1) as Ha.
  { rewrite <- (Z.mod_mod_divide (a ^ (N - 1)) N r HrN), H2. apply Z.mod_small. lia. }
  assert (a mod r <> 0) as Hnz.
  { intros E. rewrite Zpower_mod, E, Z.pow_0_l in Ha by lia. by rewrite Z.mod_0_l in Ha by lia. }
  pose proof (pow_one_gcd r a (N - 1) (r - 1) ltac:(lia) ltac:(lia) ltac:(lia) Ha (Z.fermat_nz r a Hr Hnz)) as Hg.
  destruct (decide ((r - 1) mod q = 0)) as [E|E]; [by apply Z.mod_divide in E; [|lia]|].
  assert (~ (q | Z.gcd (N - 1) (r - 1))) as Hn.
  { intros Hd. apply E, Z.mod_divide; [lia|]. etrans; [apply Hd|apply Z.gcd_divide_r]. }
  apply quotient_divides with (M := N - 1) in Hn as [c Hc]; [|done|apply Z.gcd_divide_l|by apply Z.mod_divide; [lia|]].
  exfalso. assert ((r | 1)) as Hr1; [|apply Z.divide_1_r_nonneg in Hr1; lia].
  rewrite <- H3. apply Z.gcd_greatest; [|done].
  apply divide_mod_eq. rewrite Z.mod_mod_divide by done. rewrite (Z.mod_small 1 r) by lia.
  pose proof (Z.gcd_nonneg (N - 1) (r - 1)).
  rewrite Hc, Z.mul_comm. apply pow_one_mul; try lia. destruct (decide (Z.gcd (N - 1) (r - 1) = 0)) as [E0|]; [|nia].
  apply Z.gcd_eq_0_l in E0. lia.
Qed.

Definition primes_product (qs : list Z) : Z := foldr Z.mul 1 qs.

Definition pocklington_cert (N a : Z) (qs : list Z) : bool :=
  (powmod N a (N - 1) =? 1) && forallb (pocklington_test N a) qs && bool_decide (NoDup qs)
  && (N <? (primes_product qs + 1) * (primes_product qs + 1)).

Lemma primes_product_pos qs : Forall Z.prime qs -> 0 < primes_product qs.
Proof. 
  induction 1 as [|q qs Hq _ IH]; [done|]. cbn [primes_product foldr] in *. fold (primes_product qs).
  apply Z.prime_ge_2 in Hq. nia.
Qed.

Lemma prime_coprime_product q qs :
  Z.prime q -> Forall Z.prime qs -> q ∉ qs -> Z.coprime q (primes_product qs).
Proof.
  intros Hq. induction 1 as [|q' qs Hq' _ IH]; cbn [primes_product foldr]; intros Hnin; [apply Z.coprime_1_r|].
  rewrite not_elem_of_cons in Hnin. destruct Hnin as [Hne Hnin].
  apply Z.coprime_mul_r; [|by apply IH]. apply Z.coprime_prime_l; [done|].
  intros Hd%Z.divide_prime_prime; [|done..]. done.
Qed.

Lemma primes_product_divides qs n :
  Forall Z.prime qs -> NoDup qs -> Forall (fun q => (q | n)) qs -> (primes_product qs | n).
Proof.
  induction 1 as [|q qs Hq Hqs IH]; cbn [primes_product foldr]; [intros; apply Z.divide_1_l|].
  rewrite NoDup_cons. intros [Hnin Hnd] [[k ->] Hall]%Forall_cons.
  rewrite (Z.mul_comm k). apply Z.mul_divide_mono_l.
  apply (Z.gauss _ q); [rewrite Z.mul_comm; by apply IH|].
  rewrite Z.gcd_comm. by apply prime_coprime_product.
Qed.

Theorem pocklington N a qs :
  1 < N -> Forall Z.prime qs -> pocklington_cert N a qs = true -> Z.prime N.
Proof.
  intros HN Hqs Hc. unfold pocklington_cert in Hc. rewrite !andb_true_iff, forallb_True, bool_decide_eq_true, Z.ltb_lt, Z.eqb_eq in Hc.
  destruct Hc as [[[H1 Ht] Hnd] Hlt].
  assert (forall d, 1 < d -> (d | N) -> primes_product qs < d) as Hbig.
  { intros d Hd HdN. destruct (prime_divisor d Hd) as (r & Hr & Hrd). pose proof (Z.prime_ge_2 _ Hr).
    assert (primes_product qs | r - 1) as Hdiv.
    { apply primes_product_divides; [done..|]. rewrite Forall_forall in Ht, Hqs |- *. intros q Hin.
      apply (pocklington_step N q a r HN (Hqs _ Hin) H1 (Ht _ Hin) Hr). by etrans. }
    apply Z.divide_pos_le in Hdiv; [|lia]. apply Z.divide_pos_le in Hrd; lia. }
  split; [done|]. intros n Hn [k Hk].
  pose proof (Hbig n ltac:(lia) ltac:(by exists k)). pose proof (primes_product_pos qs Hqs).
  pose proof (Hbig k ltac:(nia) ltac:(exists n; lia)). nia.
Qed.

(** Trial division settles the small primes. *)
Fixpoint trial_from (fuel : nat) (d n : Z) : bool :=
  match fuel with
  | O => true
  | S fuel => negb (n mod d =? 0) && trial_from fuel (d + 1) n
  end.
Definition trial_division (n : Z) : bool := trial_from (Z.to_nat (Z.sqrt n - 1)) 2 n.

Lemma trial_from_spec fuel d n x :
  trial_from fuel d n = true -> d <= x < d + Z.of_nat fuel -> 0 < d -> ~ (x | n).
Proof.
  revert d. induction fuel as [|fuel IH]; intros d; [lia|]. cbn [trial_from]. intros [H1 H2]%andb_true_iff Hx Hd.
  destruct (decide (x = d)) as [->|]; [|apply (IH (d + 1)); [done|lia|lia]].
  intros E%Z.mod_divide; [|lia]. by rewrite E in H1.
Qed.

Lemma trial_division_prime n : 1 < n -> trial_division n = true -> Z.prime n.
Proof.
  intros Hn Ht. split; [done|]. assert (forall d, 1 < d -> d * d <= n -> ~ (d | n)) as Hsmall.
  { intros d Hd Hdd. apply (trial_from_spec _ 2 n d Ht); [|lia].
    pose proof (Z.sqrt_le_square n d ltac:(lia) ltac:(lia)) as [Hs _]. specialize (Hs Hdd). lia. }
  intros d Hd [k Hk]. destruct (decide (d * d <= n)).
  - by apply (Hsmall d); [lia|done|exists k].
  - apply (Hsmall k); [nia|nia|exists d; lia].
Qed.

(** Closed inequalities on big numbers, by evaluation. *)
Ltac nonneg := apply Z.leb_le; vm_compute; reflexivity.

(** ** The field prime *)

Definition secp_p : Z := 0xFFFFFFFFFFFFFFFFFFFFFFFFFFFFFFFFFFFFFFFFFFFFFFFFFFFFFFFEFFFFFC2F.

Definition secp_q1 : Z := 205115282021455665897114700593932402728804164701536103180137503955397371.
Definition secp_q2 : Z := 255515944373312847190720520512484175977.

Ltac small_prime := apply trial_division_prime; [done|vm_compute; reflexivity].

Lemma secp_q3_prime : Z.prime 107590001.
Proof.
  apply (pocklington 107590001 2 [53; 29; 7; 5]); [done| |vm_compute; reflexivity]. repeat constructor; small_prime.
Qed.

Lemma secp_q2_prime : Z.prime secp_q2.
Proof.
  apply (pocklington secp_q2 2 [107590001; 7240687; 96557; 41201]); [done| |vm_compute; reflexivity].
  repeat constructor; first [apply secp_q3_prime | small_prime].
Qed.

Lemma secp_q1_prime : Z.prime secp_q1.
Proof.
  apply (pocklington secp_q1 2 [secp_q2]); [done| |vm_compute; reflexivity].
  repeat constructor; apply secp_q2_prime.
Qed.

(** The modulus of the field code is a prime. *)
Theorem secp_p_prime : Z.prime secp_p.
Proof.
  apply (pocklington secp_p 2 [secp_q1]); [done| |vm_compute; reflexivity].
  repeat constructor; apply secp_q1_prime.
Qed.

(** ** The field of residues *)

Abbreviation Fp := (Zmod secp_p).
Abbreviation fp := (Zmod.of_Z secp_p).
Abbreviation to_Z := Zmod.unsigned.

Declare Scope fp_scope.
Delimit Scope fp_scope with F.
Bind Scope fp_scope with Zmod.
Infix "+" := (@Zmod.add secp_p) : fp_scope.
Infix "-" := (@Zmod.sub secp_p) : fp_scope.
Infix "*" := (@Zmod.mul secp_p) : fp_scope.
Infix "/" := (@Zmod.mdiv secp_p) : fp_scope.
Infix "^" := (@Zmod.pow secp_p) : fp_scope.
Notation "- x" := (@Zmod.opp secp_p x) : fp_scope.
Notation "0" := (@Zmod.zero secp_p) : fp_scope.
Notation "1" := (@Zmod.one secp_p) : fp_scope.

#[global] Instance Fp_eq_dec : EqDecision Fp.
Proof.
  intros x y. destruct (Z.eq_dec (to_Z x) (to_Z y)) as [E|E]; [left; by apply Zmod.unsigned_inj|right; congruence].
Defined.

Lemma secp_p_pos : 0 < secp_p.
Proof. done. Qed.

Lemma Fp_range (x : Fp) : 0 <= to_Z x < secp_p.
Proof. apply Zmod.unsigned_pos_bound, secp_p_pos. Qed.

Lemma fp_eq a b : fp a = fp b <-> (secp_p | a - b).
Proof. by rewrite Zmod.of_Z_inj, divide_mod_eq. Qed.

Lemma fp_eq_add a b k : a = b + secp_p * k -> fp a = fp b.
Proof. intros ->. apply fp_eq. exists k. ring. Qed.

(** [of_Z] is a homomorphism, so constants of the code are numerals for [field]. *)
Lemma Fp_morph :
  ring_morph 0%F 1%F Zmod.add Zmod.mul Zmod.sub Zmod.opp eq 0 1 Z.add Z.mul Z.sub Z.opp Z.eqb fp.
Proof.
  split; try done; intros; rewrite ?Zmod.of_Z_add, ?Zmod.of_Z_sub, ?Zmod.of_Z_mul, ?Zmod.of_Z_opp; try done.
  by apply Z.eqb_eq in H as ->.
Qed.

Ltac Fp_cst t := match t with fp ?z => match isZcst z with true => z | _ => NotConstant end | _ => NotConstant end.
Add Field Fp_field : (Zmod.field_theory secp_p secp_p_prime) (morphism Fp_morph, constants [Fp_cst]).
