(* ===== verification/Limbs.v ===== *)
(** Straight-line arithmetic on machine words.

    The C code of the secp256k1 field and scalar types is a sequence of
    assignments to uint64_t and uint128_t accumulators. The tactics here walk
    through such a sequence: [step x] introduces the next assigned variable,
    computes a bound of its value from the bounds of the variables it reads, and
    drops every wrap-around the bound shows cannot happen. *)
From stdpp Require Import base list numbers.
From Stdlib Require Import ZArith Lia.
From S2P Require Import Prelude.

Local Open Scope Z_scope.

Abbreviation u128 := (wrapu 128).

(** ** Bounds of expressions *)

(** [bnd x B]: the value is between zero and [B]; the bound of an expression is
    computed from the bounds of its parts. *)
Definition bnd (x B : Z) : Prop := 0 <= x <= B.

Lemma bnd_add x y B C : bnd x B -> bnd y C -> bnd (x + y) (B + C).
Proof. unfold bnd. lia. Qed.
Lemma bnd_mul x y B C : bnd x B -> bnd y C -> bnd (x * y) (B * C).
Proof. unfold bnd. nia. Qed.
Lemma bnd_shiftr x B n : bnd x B -> bnd (Z.shiftr x n) (Z.shiftr B n).
Proof.
  unfold bnd. intros [H1 H2]. split; [by apply Z.shiftr_nonneg|].
  destruct (decide (0 <= n)).
  - rewrite !Z.shiftr_div_pow2 by done. apply Z.div_le_mono; lia.
  - rewrite !Z.shiftr_mul_pow2 by lia. nia.
Qed.
Lemma bnd_shiftl x B n : 0 <= n -> bnd x B -> bnd (Z.shiftl x n) (Z.shiftl B n).
Proof. unfold bnd. intros Hn H. rewrite !Z.shiftl_mul_pow2 by done. nia. Qed.
Lemma bnd_land x B m : bnd x B -> 0 <= m -> bnd (Z.land x m) m.
Proof.
  unfold bnd. intros [H1 H2] Hm. split; [apply Z.land_nonneg; lia|].
  assert (Z.ldiff (Z.land x m) m = 0) as E.
  { apply Z.bits_inj'. intros i Hi. rewrite Z.ldiff_spec, Z.land_spec, Z.bits_0. by destruct (Z.testbit m i), (Z.testbit x i). }
  apply Z.sub_nocarry_ldiff in E. assert (0 <= Z.ldiff m (Z.land x m)) by (apply Z.ldiff_nonneg; lia). lia.
Qed.
Lemma bnd_const z : 0 <= z -> bnd z z.
Proof. unfold bnd. lia. Qed.
Lemma bnd_wrapu w x B : bnd x B -> (B <? 2 ^ w) = true -> wrapu w x = x.
Proof. intros [H1 H2] H%Z.ltb_lt. apply wrapu_small. unfold uint_range. lia. Qed.
Lemma bnd_wraps w x B : bnd x B -> (0 <? w) && (B <? 2 ^ (w - 1)) = true -> wraps w x = x.
Proof.
  intros [H1 H2] [Hw%Z.ltb_lt H%Z.ltb_lt]%andb_true_iff. apply wraps_small; [done|]. unfold sint_range.
  pose proof (Z.pow_nonneg 2 (w - 1)). lia.
Qed.

Lemma bnd_lor x y n B C : bnd x B -> bnd y C -> (0 <=? n) && (C <? 2 ^ n) = true -> Z.lor (Z.shiftl x n) y = x * 2 ^ n + y.
Proof. intros Hx [H1 H2] [Hn%Z.leb_le H%Z.ltb_lt]%andb_true_iff. apply lor_shiftl_add; lia. Qed.

Ltac bound :=
  lazymatch goal with
  | |- bnd (_ + _) _ => eapply bnd_add; bound
  | |- bnd (_ * _) _ => eapply bnd_mul; bound
  | |- bnd (Z.shiftr ?x _) _ => first [eassumption | eapply bnd_shiftr; bound]
  | |- bnd (Z.shiftl _ _) _ => eapply bnd_shiftl; [lia|bound]
  | |- bnd (Z.land _ _) _ => eapply bnd_land; [bound|done]
  | |- bnd ?x _ => first [eassumption | is_var x; fail 1 | apply bnd_const; done]
  end.

(** ** One assignment at a time *)

Lemma let_step {A B} (P : B -> Prop) (v : A) (body : A -> B) :
  (forall x, x = v -> P (body x)) -> P (let x := v in body x).
Proof. intros H. by apply (H v). Qed.

(** The arithmetic of an assignment does not wrap: its bound is below the width. *)
Ltac unwrap E :=
  repeat match type of E with
  | context [wrapu ?w ?e] => 
      let H := fresh in
      eassert (bnd e _) as H by bound;
      rewrite (bnd_wrapu w e _ H ltac:(vm_compute; reflexivity)) in E; clear H
  | context [wraps ?w ?e] => 
      let H := fresh in
      eassert (bnd e _) as H by bound;
      rewrite (bnd_wraps w e _ H ltac:(vm_compute; reflexivity)) in E; clear H
  | context [Z.lor (Z.shiftl ?x ?n) ?y] =>
      let H1 := fresh in let H2 := fresh in
      eassert (bnd x _) as H1 by bound; eassert (bnd y _) as H2 by bound;
      rewrite (bnd_lor x y n _ _ H1 H2 ltac:(vm_compute; reflexivity)) in E; clear H1 H2
  end.

Ltac assign x E :=
  match goal with
  | |- ?P (let y := ?v in @?b y) => refine (let_step P v b _); cbv beta; intros x E
  end.

Ltac step x :=
  let E := fresh "E" x in let B := fresh "B" x in
  assign x E;
  unwrap E;
  match type of E with _ = ?v => eassert (bnd x _) as B by (rewrite E; bound) end;
  match type of B with bnd _ ?v => let v' := eval vm_compute in v in change v with v' in B end.


(** A mask of the low bits subtracts what is above them. *)
Lemma land_low w m d : 0 <= w -> m = Z.ones w -> Z.land d m = d - Z.shiftr d w * 2 ^ w.
Proof. intros Hw ->. rewrite Z.land_ones, Z.shiftr_div_pow2, Z.mod_eq by lia. lia. Qed.

(** [unmask m w] turns the masks [m] of the low [w] bits into such subtractions. *)
Ltac unmask m w :=
  repeat match goal with
  | E : context [Z.land ?d m] |- _ => rewrite (land_low w m d ltac:(lia) ltac:(reflexivity)) in E
  | |- context [Z.land ?d m] => rewrite (land_low w m d ltac:(lia) ltac:(reflexivity))
  end.

(** The shifted parts stay as variables and all other variables are substituted. *)
Ltac unshift :=
  repeat match goal with E : ?x = Z.shiftr ?y ?n |- _ => rewrite <- ?E in *; clear E end; subst.

(** Forgets what is not an equation, before a call of [ring]. *)
Ltac only_equations :=
  repeat match goal with H : ?P |- _ => lazymatch P with
    | @eq Z _ _ => fail | _ => lazymatch type of P with Prop => clear H end end end.
