(* ===== verification/Field5x52.v ===== *)
(** The field elements of secp256k1 on five 52-bit limbs.

    Models secp256k1/src/field_5x52.h, field_5x52_impl.h and
    field_5x52_int128_impl.h: the element as its five uint64_t limbs, every
    operation with the wrap-around of its uint64_t and uint128_t arithmetic. The
    theorems say that inside the magnitudes the code documents no operation
    wraps, that each keeps the magnitude it announces, and that each computes the
    field operation on the residue the limbs stand for. *)
From stdpp Require Import base list numbers.
From Stdlib Require Import ZArith Zmod Lia.
From S2P Require Import Prelude Limbs FieldPrime.

Local Open Scope Z_scope.

Record secp256k1_fe := mkFe { fe_n0 : Z; fe_n1 : Z; fe_n2 : Z; fe_n3 : Z; fe_n4 : Z }.

#[global] Instance fe_eq_dec : EqDecision secp256k1_fe.
Proof. solve_decision. Defined.

(** ** Multiplication and squaring (field_5x52_int128_impl.h) *)

Definition fe_M : Z := 0xFFFFFFFFFFFFF.
Definition fe_R : Z := 0x1000003D10.

Definition secp256k1_fe_mul_inner (a b : secp256k1_fe) : secp256k1_fe :=
  let '(mkFe a0 a1 a2 a3 a4) := a in
  let '(mkFe b0 b1 b2 b3 b4) := b in
  let d := u128 (a0 * b3 + a1 * b2 + a2 * b1 + a3 * b0) in
  let c := u128 (a4 * b4) in
  let d := u128 (d + Z.land c fe_M * fe_R) in let c := Z.shiftr c 52 in
  let t3 := Z.land d fe_M in let d := Z.shiftr d 52 in
  let d := u128 (d + (a0 * b4 + a1 * b3 + a2 * b2 + a3 * b1 + a4 * b0)) in
  let d := u128 (d + c * fe_R) in
  let t4 := Z.land d fe_M in let d := Z.shiftr d 52 in
  let tx := Z.shiftr t4 48 in let t4 := Z.land t4 (Z.shiftr fe_M 4) in
  let c := u128 (a0 * b0) in
  let d := u128 (d + (a1 * b4 + a2 * b3 + a3 * b2 + a4 * b1)) in
  let u0 := Z.land d fe_M in let d := Z.shiftr d 52 in
  let u0 := Z.lor (u64 (Z.shiftl u0 4)) tx in
  let c := u128 (c + u0 * Z.shiftr fe_R 4) in
  let r0 := Z.land c fe_M in let c := Z.shiftr c 52 in
  let c := u128 (c + (a0 * b1 + a1 * b0)) in
  let d := u128 (d + (a2 * b4 + a3 * b3 + a4 * b2)) in
  let c := u128 (c + Z.land d fe_M * fe_R) in let d := Z.shiftr d 52 in
  let r1 := Z.land c fe_M in let c := Z.shiftr c 52 in
  let c := u128 (c + (a0 * b2 + a1 * b1 + a2 * b0)) in
  let d := u128 (d + (a3 * b4 + a4 * b3)) in
  let c := u128 (c + Z.land d fe_M * fe_R) in let d := Z.shiftr d 52 in
  let r2 := Z.land c fe_M in let c := Z.shiftr c 52 in
  let c := u128 (c + (d * fe_R + t3)) in
  let r3 := Z.land c fe_M in let c := Z.shiftr c 52 in
  let c := u128 (c + t4) in
  let r4 := u64 c in
  mkFe r0 r1 r2 r3 r4.

(** The squaring keeps its carries in [int64_t] and doubles limbs in place. *)
Definition secp256k1_fe_sqr_inner (a : secp256k1_fe) : secp256k1_fe :=
  let '(mkFe a0 a1 a2 a3 a4) := a in
  let d := u128 (u64 (a0 * 2) * a3 + u64 (a1 * 2) * a2) in
  let c := u128 (a4 * a4) in
  let d := u128 (d + Z.land c fe_M * fe_R) in let c := Z.shiftr c 52 in
  let t3 := i64 (Z.land d fe_M) in let d := Z.shiftr d 52 in
  let a4 := u64 (a4 * 2) in
  let d := u128 (d + (a0 * a4 + u64 (a1 * 2) * a3 + a2 * a2)) in
  let d := u128 (d + c * fe_R) in
  let t4 := i64 (Z.land d fe_M) in let d := Z.shiftr d 52 in
  let tx := Z.shiftr t4 48 in let t4 := i64 (Z.land t4 (Z.shiftr fe_M 4)) in
  let c := u128 (a0 * a0) in
  let d := u128 (d + (a1 * a4 + u64 (a2 * 2) * a3)) in
  let u0 := i64 (Z.land d fe_M) in let d := Z.shiftr d 52 in
  let u0 := Z.lor (i64 (Z.shiftl u0 4)) tx in
  let c := u128 (c + u128 u0 * Z.shiftr fe_R 4) in
  let r0 := Z.land c fe_M in let c := Z.shiftr c 52 in
  let a0 := u64 (a0 * 2) in
  let c := u128 (c + a0 * a1) in
  let d := u128 (d + (a2 * a4 + a3 * a3)) in
  let c := u128 (c + Z.land d fe_M * fe_R) in let d := Z.shiftr d 52 in
  let r1 := Z.land c fe_M in let c := Z.shiftr c 52 in
  let c := u128 (c + (a0 * a2 + a1 * a1)) in
  let d := u128 (d + a3 * a4) in
  let c := u128 (c + Z.land d fe_M * fe_R) in let d := Z.shiftr d 52 in
  let r2 := Z.land c fe_M in let c := Z.shiftr c 52 in
  let c := u128 (c + (d * fe_R + u128 t3)) in
  let r3 := Z.land c fe_M in let c := Z.shiftr c 52 in
  let c := u128 (c + u128 t4) in
  let r4 := u64 c in
  mkFe r0 r1 r2 r3 r4.

(** ** Reduction (field_5x52_impl.h) *)

(** The limb masks and the limbs of the modulus. *)
Definition fe_M48 : Z := 0x0FFFFFFFFFFFF.
Definition fe_P0 : Z := 0xFFFFEFFFFFC2F.
Definition fe_C : Z := 0x1000003D1.

(** The carry lines every pass of the reductions consists of. *)
Definition fe_carry (t0 t1 t2 t3 t4 : Z) : secp256k1_fe :=
  let t1 := u64 (t1 + Z.shiftr t0 52) in let t0 := Z.land t0 fe_M in
  let t2 := u64 (t2 + Z.shiftr t1 52) in let t1 := Z.land t1 fe_M in
  let t3 := u64 (t3 + Z.shiftr t2 52) in let t2 := Z.land t2 fe_M in
  let t4 := u64 (t4 + Z.shiftr t3 52) in let t3 := Z.land t3 fe_M in
  mkFe t0 t1 t2 t3 t4.

(** Reduces the top limb first, so that at most a single carry comes out. *)
Definition fe_first_pass (r : secp256k1_fe) : secp256k1_fe :=
  let x := Z.shiftr (fe_n4 r) 48 in
  let t4 := Z.land (fe_n4 r) fe_M48 in
  let t0 := u64 (fe_n0 r + x * fe_C) in
  fe_carry t0 (fe_n1 r) (fe_n2 r) (fe_n3 r) t4.

(** Whether the value is at or above the modulus after the first pass. *)
Definition fe_final_x (t : secp256k1_fe) : Z :=
  let '(mkFe t0 t1 t2 t3 t4) := t in
  let m := Z.land (Z.land t1 t2) t3 in
  Z.lor (Z.shiftr t4 48) (Z.land (Z.land (Z.b2z (t4 =? fe_M48)) (Z.b2z (m =? fe_M))) (Z.b2z (fe_P0 <=? t0))).

Definition fe_mask4 (t : secp256k1_fe) : secp256k1_fe :=
  mkFe (fe_n0 t) (fe_n1 t) (fe_n2 t) (fe_n3 t) (Z.land (fe_n4 t) fe_M48).

Definition secp256k1_fe_normalize (r : secp256k1_fe) : secp256k1_fe :=
  let t := fe_first_pass r in
  let x := fe_final_x t in
  fe_mask4 (fe_carry (u64 (fe_n0 t + x * fe_C)) (fe_n1 t) (fe_n2 t) (fe_n3 t) (fe_n4 t)).

Definition secp256k1_fe_normalize_weak (r : secp256k1_fe) : secp256k1_fe := fe_first_pass r.

Definition secp256k1_fe_normalize_var (r : secp256k1_fe) : secp256k1_fe :=
  let t := fe_first_pass r in
  let x := fe_final_x t in
  if x =? 0 then t
  else fe_mask4 (fe_carry (u64 (fe_n0 t + fe_C)) (fe_n1 t) (fe_n2 t) (fe_n3 t) (fe_n4 t)).

(** [z0] tracks a raw value of zero and [z1] one of the modulus. *)
Definition fe_zero_test (t : secp256k1_fe) : bool :=
  let '(mkFe t0 t1 t2 t3 t4) := t in
  let z0 := Z.lor (Z.lor (Z.lor (Z.lor t0 t1) t2) t3) t4 in
  let z1 := Z.land (Z.land (Z.land (Z.land (Z.lxor t0 0x1000003D0) t1) t2) t3) (Z.lxor t4 0xF000000000000) in
  (z0 =? 0) || (z1 =? fe_M).

Definition secp256k1_fe_normalizes_to_zero (r : secp256k1_fe) : bool := fe_zero_test (fe_first_pass r).

(** The variable-time test looks at the low limb before it carries. *)
Definition secp256k1_fe_normalizes_to_zero_var (r : secp256k1_fe) : bool :=
  let x := Z.shiftr (fe_n4 r) 48 in
  let t0 := u64 (fe_n0 r + x * fe_C) in
  let z0 := Z.land t0 fe_M in
  let z1 := Z.lxor z0 0x1000003D0 in
  if negb (z0 =? 0) && negb (z1 =? fe_M) then false
  else fe_zero_test (fe_carry t0 (fe_n1 r) (fe_n2 r) (fe_n3 r) (Z.land (fe_n4 r) fe_M48)).

(** ** Constants, tests and comparison *)

Definition secp256k1_fe_set_int (a : Z) : secp256k1_fe := mkFe (u64 a) 0 0 0 0.
Definition secp256k1_fe_clear : secp256k1_fe := mkFe 0 0 0 0 0.

Definition secp256k1_fe_is_zero (a : secp256k1_fe) : bool :=
  let '(mkFe t0 t1 t2 t3 t4) := a in Z.lor (Z.lor (Z.lor (Z.lor t0 t1) t2) t3) t4 =? 0.

Definition secp256k1_fe_is_odd (a : secp256k1_fe) : bool := negb (Z.land (fe_n0 a) 1 =? 0).

Fixpoint limbs_cmp (l : list (Z * Z)) : Z :=
  match l with
  | [] => 0
  | (a, b) :: l => if b <? a then 1 else if a <? b then -1 else limbs_cmp l
  end.

(** From the most significant limb down. *)
Definition secp256k1_fe_cmp_var (a b : secp256k1_fe) : Z :=
  limbs_cmp [(fe_n4 a, fe_n4 b); (fe_n3 a, fe_n3 b); (fe_n2 a, fe_n2 b); (fe_n1 a, fe_n1 b); (fe_n0 a, fe_n0 b)].

(** ** Conversion from and to 32 big-endian bytes *)

(** A limb is put together from parts shifted to their place, low part first. *)
Definition limb (parts : list (Z * Z)) : Z := fold_left (fun n p => Z.lor n (Z.shiftl p.1 p.2)) parts 0.

(** [None] for a value that is not below the modulus. *)
Definition secp256k1_fe_set_b32 (b : bytes) : option secp256k1_fe :=
  let a i := bval (nth i b x00) in
  let n0 := limb [(a 31%nat, 0); (a 30%nat, 8); (a 29%nat, 16); (a 28%nat, 24); (a 27%nat, 32); (a 26%nat, 40); (Z.land (a 25%nat) 0xF, 48)] in
  let n1 := limb [(Z.land (Z.shiftr (a 25%nat) 4) 0xF, 0); (a 24%nat, 4); (a 23%nat, 12); (a 22%nat, 20); (a 21%nat, 28); (a 20%nat, 36); (a 19%nat, 44)] in
  let n2 := limb [(a 18%nat, 0); (a 17%nat, 8); (a 16%nat, 16); (a 15%nat, 24); (a 14%nat, 32); (a 13%nat, 40); (Z.land (a 12%nat) 0xF, 48)] in
  let n3 := limb [(Z.land (Z.shiftr (a 12%nat) 4) 0xF, 0); (a 11%nat, 4); (a 10%nat, 12); (a 9%nat, 20); (a 8%nat, 28); (a 7%nat, 36); (a 6%nat, 44)] in
  let n4 := limb [(a 5%nat, 0); (a 4%nat, 8); (a 3%nat, 16); (a 2%nat, 24); (a 1%nat, 32); (a 0%nat, 40)] in
  if (n4 =? fe_M48) && (Z.land (Z.land n3 n2) n1 =? fe_M) && (fe_P0 <=? n0) then None
  else Some (mkFe n0 n1 n2 n3 n4).

Definition secp256k1_fe_get_b32 (a : secp256k1_fe) : bytes :=
  let '(mkFe n0 n1 n2 n3 n4) := a in
  byte_of <$> [
    Z.land (Z.shiftr n4 40) 0xFF; Z.land (Z.shiftr n4 32) 0xFF; Z.land (Z.shiftr n4 24) 0xFF; Z.land (Z.shiftr n4 16) 0xFF;
    Z.land (Z.shiftr n4 8) 0xFF; Z.land n4 0xFF; Z.land (Z.shiftr n3 44) 0xFF; Z.land (Z.shiftr n3 36) 0xFF;
    Z.land (Z.shiftr n3 28) 0xFF; Z.land (Z.shiftr n3 20) 0xFF; Z.land (Z.shiftr n3 12) 0xFF; Z.land (Z.shiftr n3 4) 0xFF;
    Z.lor (Z.land (Z.shiftr n2 48) 0xF) (Z.shiftl (Z.land n3 0xF) 4); Z.land (Z.shiftr n2 40) 0xFF; Z.land (Z.shiftr n2 32) 0xFF; Z.land (Z.shiftr n2 24) 0xFF;
    Z.land (Z.shiftr n2 16) 0xFF; Z.land (Z.shiftr n2 8) 0xFF; Z.land n2 0xFF; Z.land (Z.shiftr n1 44) 0xFF;
    Z.land (Z.shiftr n1 36) 0xFF; Z.land (Z.shiftr n1 28) 0xFF; Z.land (Z.shiftr n1 20) 0xFF; Z.land (Z.shiftr n1 12) 0xFF;
    Z.land (Z.shiftr n1 4) 0xFF; Z.lor (Z.land (Z.shiftr n0 48) 0xF) (Z.shiftl (Z.land n1 0xF) 4); Z.land (Z.shiftr n0 40) 0xFF; Z.land (Z.shiftr n0 32) 0xFF;
    Z.land (Z.shiftr n0 24) 0xFF; Z.land (Z.shiftr n0 16) 0xFF; Z.land (Z.shiftr n0 8) 0xFF; Z.land n0 0xFF].

(** ** Linear operations *)

Definition secp256k1_fe_negate (a : secp256k1_fe) (m : Z) : secp256k1_fe :=
  mkFe (u64 (fe_P0 * 2 * (m + 1) - fe_n0 a)) (u64 (fe_M * 2 * (m + 1) - fe_n1 a)) (u64 (fe_M * 2 * (m + 1) - fe_n2 a))
    (u64 (fe_M * 2 * (m + 1) - fe_n3 a)) (u64 (fe_M48 * 2 * (m + 1) - fe_n4 a)).

Definition secp256k1_fe_mul_int (r : secp256k1_fe) (a : Z) : secp256k1_fe :=
  mkFe (u64 (fe_n0 r * a)) (u64 (fe_n1 r * a)) (u64 (fe_n2 r * a)) (u64 (fe_n3 r * a)) (u64 (fe_n4 r * a)).

Definition secp256k1_fe_add (r a : secp256k1_fe) : secp256k1_fe :=
  mkFe (u64 (fe_n0 r + fe_n0 a)) (u64 (fe_n1 r + fe_n1 a)) (u64 (fe_n2 r + fe_n2 a)) (u64 (fe_n3 r + fe_n3 a))
    (u64 (fe_n4 r + fe_n4 a)).

Definition secp256k1_fe_mul (a b : secp256k1_fe) : secp256k1_fe := secp256k1_fe_mul_inner a b.
Definition secp256k1_fe_sqr (a : secp256k1_fe) : secp256k1_fe := secp256k1_fe_sqr_inner a.

(** ** Constant-time selection and storage *)

Definition cmov_word (flag r a : Z) : Z :=
  let mask0 := u64 (flag + (2 ^ 64 - 1)) in
  let mask1 := u64 (Z.lnot mask0) in
  Z.lor (Z.land r mask0) (Z.land a mask1).

Definition secp256k1_fe_cmov (r a : secp256k1_fe) (flag : Z) : secp256k1_fe :=
  mkFe (cmov_word flag (fe_n0 r) (fe_n0 a)) (cmov_word flag (fe_n1 r) (fe_n1 a)) (cmov_word flag (fe_n2 r) (fe_n2 a))
    (cmov_word flag (fe_n3 r) (fe_n3 a)) (cmov_word flag (fe_n4 r) (fe_n4 a)).

Record secp256k1_fe_storage := mkFeStorage { fs_n0 : Z; fs_n1 : Z; fs_n2 : Z; fs_n3 : Z }.

Definition secp256k1_fe_storage_cmov (r a : secp256k1_fe_storage) (flag : Z) : secp256k1_fe_storage :=
  mkFeStorage (cmov_word flag (fs_n0 r) (fs_n0 a)) (cmov_word flag (fs_n1 r) (fs_n1 a))
    (cmov_word flag (fs_n2 r) (fs_n2 a)) (cmov_word flag (fs_n3 r) (fs_n3 a)).

Definition secp256k1_fe_to_storage (a : secp256k1_fe) : secp256k1_fe_storage :=
  let '(mkFe n0 n1 n2 n3 n4) := a in
  mkFeStorage (Z.lor n0 (u64 (Z.shiftl n1 52))) (Z.lor (Z.shiftr n1 12) (u64 (Z.shiftl n2 40)))
    (Z.lor (Z.shiftr n2 24) (u64 (Z.shiftl n3 28))) (Z.lor (Z.shiftr n3 36) (u64 (Z.shiftl n4 16))).

Definition secp256k1_fe_from_storage (a : secp256k1_fe_storage) : secp256k1_fe :=
  let '(mkFeStorage n0 n1 n2 n3) := a in
  mkFe (Z.land n0 fe_M) (Z.lor (Z.shiftr n0 52) (Z.land (u64 (Z.shiftl n1 12)) fe_M))
    (Z.lor (Z.shiftr n1 40) (Z.land (u64 (Z.shiftl n2 24)) fe_M))
    (Z.lor (Z.shiftr n2 28) (Z.land (u64 (Z.shiftl n3 36)) fe_M)) (Z.shiftr n3 16).

(** The macro that unpacks eight 32-bit words into limbs. *)
Definition SECP256K1_FE_CONST (d7 d6 d5 d4 d3 d2 d1 d0 : Z) : secp256k1_fe :=
  mkFe (Z.lor d0 (Z.shiftl (Z.land d1 0xFFFFF) 32))
    (Z.lor (Z.lor (Z.shiftr d1 20) (Z.shiftl d2 12)) (Z.shiftl (Z.land d3 0xFF) 44))
    (Z.lor (Z.shiftr d3 8) (Z.shiftl (Z.land d4 0xFFFFFFF) 24))
    (Z.lor (Z.lor (Z.shiftr d4 28) (Z.shiftl d5 4)) (Z.shiftl (Z.land d6 0xFFFF) 36))
    (Z.lor (Z.shiftr d6 16) (Z.shiftl d7 16)).

(** ** Values and magnitudes *)

(** The integer the limbs stand for, and its residue. *)
Definition fe_raw (a : secp256k1_fe) : Z :=
  fe_n0 a + fe_n1 a * 2 ^ 52 + fe_n2 a * 2 ^ 104 + fe_n3 a * 2 ^ 156 + fe_n4 a * 2 ^ 208.

Definition fe_val (a : secp256k1_fe) : Fp := fp (fe_raw a).

(** [secp256k1_fe_verify] for an element of magnitude [m]. *)
Definition magnitude (m : Z) (a : secp256k1_fe) : Prop :=
  bnd (fe_n0 a) (2 * m * fe_M) /\ bnd (fe_n1 a) (2 * m * fe_M) /\ bnd (fe_n2 a) (2 * m * fe_M) /\
  bnd (fe_n3 a) (2 * m * fe_M) /\ bnd (fe_n4 a) (2 * m * fe_M48).

(** [secp256k1_fe_verify] for a normalized element: the limbs of a residue. *)
Definition normalized (a : secp256k1_fe) : Prop :=
  bnd (fe_n0 a) fe_M /\ bnd (fe_n1 a) fe_M /\ bnd (fe_n2 a) fe_M /\ bnd (fe_n3 a) fe_M /\ bnd (fe_n4 a) fe_M48 /\
  fe_raw a < secp_p.

Lemma magnitude_le m m' a : magnitude m a -> m <= m' -> magnitude m' a.
Proof. unfold magnitude, bnd, fe_M, fe_M48. lia. Qed.

Lemma normalized_magnitude a : normalized a -> magnitude 1 a.
Proof. unfold normalized, magnitude, bnd, fe_M, fe_M48. lia. Qed.

Ltac limbs := cbn [fe_n0 fe_n1 fe_n2 fe_n3 fe_n4] in *.

(** The result of a product: magnitude one and the product's residue. *)
Definition mul_post (ab : Z) (r : secp256k1_fe) : Prop :=
  magnitude 1 r /\ exists k, ab = fe_raw r + secp_p * k.

Lemma fe_mul_inner_post a b :
  magnitude 8 a -> magnitude 8 b -> mul_post (fe_raw a * fe_raw b) (secp256k1_fe_mul_inner a b).
Proof.
  destruct a as [a0 a1 a2 a3 a4], b as [b0 b1 b2 b3 b4]. unfold magnitude. limbs.
  intros (A0 & A1 & A2 & A3 & A4) (B0 & B1 & B2 & B3 & B4).
  cbv beta iota delta [secp256k1_fe_mul_inner].
  step d1. step c1. step d2. step c2. step t3. step d3. step d4. step d5. step t4. step d6. step tx. step t4'.
  step c3. step d7. step u0. step d8. step u0'. step c4. step r0. step c5. step c6. step d9. step c7. step d10.
  step r1. step c8. step c9. step d11. step c10. step d12. step r2. step c11. step c12. step r3. step c13. step c14. step r4.
  split.
  - unfold magnitude. limbs. unfold bnd, fe_M, fe_M48 in *. lia.
  - unfold fe_raw. limbs.
    exists (16 * (Z.land c1 fe_M * 2 ^ 156 + c2 * 2 ^ 208 + Z.land d9 fe_M * 2 ^ 52 + Z.land d11 fe_M * 2 ^ 104
                  + d12 * 2 ^ 156) + u0').
    only_equations. unmask fe_M 52. unmask (Z.shiftr fe_M 4) 48. unshift.
    change (Z.shiftr fe_R 4) with fe_C. unfold fe_R, fe_C, secp_p. ring.
Qed.

Lemma fe_sqr_inner_post a : magnitude 8 a -> mul_post (fe_raw a * fe_raw a) (secp256k1_fe_sqr_inner a).
Proof.
  destruct a as [a0 a1 a2 a3 a4]. unfold magnitude. limbs. intros (A0 & A1 & A2 & A3 & A4).
  cbv beta iota delta [secp256k1_fe_sqr_inner].
  step d1. step c1. step d2. step c2. step t3. step d3. step a4'. step d4. step d5. step t4. step d6. step tx. step t4'.
  step c3. step d7. step u0. step d8. step u0'. step c4. step r0. step c5. step a0'. step c6. step d9. step c7. step d10.
  step r1. step c8. step c9. step d11. step c10. step d12. step r2. step c11. step c12. step r3. step c13. step c14. step r4.
  split.
  - unfold magnitude. limbs. unfold bnd, fe_M, fe_M48 in *. lia.
  - unfold fe_raw. limbs.
    exists (16 * (Z.land c1 fe_M * 2 ^ 156 + c2 * 2 ^ 208 + Z.land d9 fe_M * 2 ^ 52 + Z.land d11 fe_M * 2 ^ 104
                  + d12 * 2 ^ 156) + u0').
    only_equations. unmask fe_M 52. unmask (Z.shiftr fe_M 4) 48. unshift.
    change (Z.shiftr fe_R 4) with fe_C. unfold fe_R, fe_C, secp_p. ring.
Qed.

Lemma mul_post_val a b r : mul_post (fe_raw a * fe_raw b) r -> magnitude 1 r /\ fe_val r = (fe_val a * fe_val b)%F.
Proof.
  intros [Hm [k Hk]]. split; [done|]. unfold fe_val. rewrite <- Zmod.of_Z_mul. symmetry. by apply (fp_eq_add _ _ k).
Qed.

Lemma fe_mul_spec a b : magnitude 8 a -> magnitude 8 b ->
  magnitude 1 (secp256k1_fe_mul a b) /\ fe_val (secp256k1_fe_mul a b) = (fe_val a * fe_val b)%F.
Proof. intros Ha Hb. by apply mul_post_val, fe_mul_inner_post. Qed.

Lemma fe_sqr_spec a : magnitude 8 a ->
  magnitude 1 (secp256k1_fe_sqr a) /\ fe_val (secp256k1_fe_sqr a) = (fe_val a * fe_val a)%F.
Proof. intros Ha. by apply mul_post_val, fe_sqr_inner_post. Qed.

(** ** The reductions *)

(** What a carry pass gives: the same integer, four limbs of 52 bits and a top
    limb that grew by less than [2^12]. *)
Definition carry_post (raw top : Z) (r : secp256k1_fe) : Prop :=
  bnd (fe_n0 r) fe_M /\ bnd (fe_n1 r) fe_M /\ bnd (fe_n2 r) fe_M /\ bnd (fe_n3 r) fe_M /\
  top <= fe_n4 r < top + 2 ^ 12 /\ fe_raw r = raw.

Lemma fe_carry_post t0 t1 t2 t3 t4 :
  bnd t0 (2 ^ 64 - 1) -> bnd t1 (2 ^ 64 - 2 ^ 12) -> bnd t2 (2 ^ 64 - 2 ^ 12) -> bnd t3 (2 ^ 64 - 2 ^ 12) -> bnd t4 (2 ^ 63) ->
  carry_post (fe_raw (mkFe t0 t1 t2 t3 t4)) t4 (fe_carry t0 t1 t2 t3 t4).
Proof.
  intros T0 T1 T2 T3 T4. cbv beta iota delta [fe_carry].
  step t1'. step t0'. step t2'. step t1''. step t3'. step t2''. step t4'. step t3''.
  assert (t4 <= t4' < t4 + 2 ^ 12) as Htop.
  { assert (bnd (Z.shiftr t3' 52) (2 ^ 12 - 1)) as H by (apply (bnd_shiftr _ _ 52) in Bt3'; done). unfold bnd in *. lia. }
  unfold carry_post. limbs. repeat split; try done; try apply Bt0'; try apply Bt1''; try apply Bt2''; try apply Bt3''; try lia.
  unfold fe_raw. limbs. only_equations. unmask fe_M 52. unshift. ring.
Qed.

(** The first pass keeps the residue and leaves less than twice the modulus. *)
Definition pass_post (a r : secp256k1_fe) : Prop :=
  bnd (fe_n0 r) fe_M /\ bnd (fe_n1 r) fe_M /\ bnd (fe_n2 r) fe_M /\ bnd (fe_n3 r) fe_M /\
  bnd (fe_n4 r) (fe_M48 + 2 ^ 12) /\ fe_val r = fe_val a.

Lemma fe_first_pass_post a : magnitude 2047 a -> pass_post a (fe_first_pass a).
Proof.
  destruct a as [a0 a1 a2 a3 a4]. unfold magnitude. limbs. intros (A0 & A1 & A2 & A3 & A4).
  cbv beta iota delta [fe_first_pass fe_n0 fe_n1 fe_n2 fe_n3 fe_n4]. step x. step t4. step t0.
  destruct (fe_carry_post t0 a1 a2 a3 t4) as (R0 & R1 & R2 & R3 & R4 & Hr); [unfold bnd, fe_M, fe_M48 in *; lia..|].
  repeat split; try apply R0; try apply R1; try apply R2; try apply R3; try (unfold bnd, fe_M48 in *; lia).
  unfold fe_val. rewrite Hr. symmetry. apply (fp_eq_add _ _ x). unfold fe_raw. limbs.
  only_equations. unmask fe_M48 48. unshift. unfold fe_C, secp_p. ring.
Qed.

Lemma fe_normalize_weak_spec m a : magnitude m a -> m <= 2047 ->
  magnitude 1 (secp256k1_fe_normalize_weak a) /\ fe_val (secp256k1_fe_normalize_weak a) = fe_val a.
Proof.
  intros Ha Hm. destruct (fe_first_pass_post a (magnitude_le _ _ _ Ha Hm)) as (R0 & R1 & R2 & R3 & R4 & Hr).
  split; [|done]. unfold secp256k1_fe_normalize_weak, magnitude, bnd, fe_M, fe_M48 in *. lia.
Qed.

Lemma land_M_all x y : bnd x fe_M -> bnd y fe_M -> Z.land x y = fe_M <-> x = fe_M /\ y = fe_M.
Proof.
  intros Hx Hy. split; [|by intros [-> ->]]. intros E.
  pose proof (bnd_land x _ y Hx (proj1 Hy)) as H1. pose proof (bnd_land y _ x Hy (proj1 Hx)) as H2.
  rewrite E in H1. rewrite Z.land_comm, E in H2. unfold bnd in *. lia.
Qed.

Lemma bnd_land_M x y : bnd x fe_M -> bnd y fe_M -> bnd (Z.land x y) fe_M.
Proof. intros Hx Hy. pose proof (bnd_land x _ y Hx (proj1 Hy)). unfold bnd in *. lia. Qed.

(** The reduction test is the comparison with the modulus. *)
Lemma fe_final_x_eq a r : pass_post a r -> fe_final_x r = Z.b2z (secp_p <=? fe_raw r).
Proof.
  destruct r as [t0 t1 t2 t3 t4]. intros (R0 & R1 & R2 & R3 & R4 & _). limbs. unfold fe_final_x, fe_raw. limbs.
  assert (Z.land (Z.land t1 t2) t3 = fe_M <-> t1 = fe_M /\ t2 = fe_M /\ t3 = fe_M) as Hm.
  { rewrite land_M_all; [rewrite land_M_all by done; tauto| |done].
    pose proof (bnd_land t1 _ t2 R1 (proj1 R2)). unfold bnd in *. lia. }
  assert (Z.shiftr t4 48 = Z.b2z (fe_M48 <? t4)) as Ex.
  { rewrite Z.shiftr_div_pow2 by lia. unfold bnd, fe_M48 in *. destruct (Z.ltb_spec 0x0FFFFFFFFFFFF t4); cbn [Z.b2z].
    - symmetry. apply (Z.div_unique _ _ _ (t4 - 2 ^ 48)); lia.
    - apply Z.div_small. lia. }
  rewrite Ex. clear Ex. unfold bnd, fe_M, fe_M48, fe_P0 in *.
  destruct (Z.leb_spec secp_p (t0 + t1 * 2 ^ 52 + t2 * 2 ^ 104 + t3 * 2 ^ 156 + t4 * 2 ^ 208)) as [Hp|Hp]; unfold secp_p in Hp.
  all: destruct (Z.ltb_spec 0x0FFFFFFFFFFFF t4), (Z.eqb_spec t4 0x0FFFFFFFFFFFF), (Z.leb_spec 0xFFFFEFFFFFC2F t0),
    (Z.eqb_spec (Z.land (Z.land t1 t2) t3) 0xFFFFFFFFFFFFF) as [E|E]; try reflexivity; exfalso;
    first [lia | apply Hm in E as (-> & -> & ->); lia | apply E, Hm; lia].
Qed.

Lemma normalize_last a r x :
  pass_post a r -> x = fe_final_x r ->
  let s := fe_mask4 (fe_carry (u64 (fe_n0 r + x * fe_C)) (fe_n1 r) (fe_n2 r) (fe_n3 r) (fe_n4 r)) in
  normalized s /\ fe_raw s = fe_raw r - secp_p * x.
Proof.
  intros Hr Ex. rewrite (fe_final_x_eq a r Hr) in Ex. destruct Hr as (R0 & R1 & R2 & R3 & R4 & _).
  assert (bnd x 1) as Bx by (rewrite Ex; destruct (_ <=? _); done).
  assert (bnd (fe_n0 r + x * fe_C) (fe_M + 1 * fe_C)) as B0 by (apply bnd_add; [done|]; by apply bnd_mul).
  rewrite (bnd_wrapu 64 _ _ B0 ltac:(vm_compute; reflexivity)).
  destruct (fe_carry_post (fe_n0 r + x * fe_C) (fe_n1 r) (fe_n2 r) (fe_n3 r) (fe_n4 r)) as (S0 & S1 & S2 & S3 & S4 & Hs);
    [unfold bnd, fe_M, fe_M48, fe_C in *; lia..|].
  set (t := fe_carry _ _ _ _ _) in *. clearbody t. intros s. subst s.
  assert (fe_n4 t = x * 2 ^ 48 + Z.land (fe_n4 t) fe_M48 /\ bnd (Z.land (fe_n4 t) fe_M48) fe_M48) as [H4 B4].
  { split; [|apply (bnd_land _ (fe_n4 t)); [unfold bnd in *; lia|done]].
    rewrite (land_low 48) by done. rewrite Z.shiftr_div_pow2 by lia.
    unfold fe_raw in *. limbs. unfold bnd, fe_M, fe_M48, fe_C in *.
    assert (fe_n4 t / 2 ^ 48 = x) as ->; [|lia]. symmetry. 
    apply (Z.div_unique _ _ _ (fe_n4 t - x * 2 ^ 48)); [|lia].
    destruct (Z.leb_spec secp_p (fe_n0 r + fe_n1 r * 2 ^ 52 + fe_n2 r * 2 ^ 104 + fe_n3 r * 2 ^ 156 + fe_n4 r * 2 ^ 208));
      unfold secp_p in *; cbn [Z.b2z] in Ex; lia. }
  assert (fe_raw (fe_mask4 t) = fe_raw r - secp_p * x) as Eraw.
  { unfold fe_raw, fe_mask4 in *. limbs. unfold fe_C, secp_p in *. lia. }
  split; [|done]. unfold normalized. repeat split; try apply S0; try apply S1; try apply S2; try apply S3; try apply B4.
  rewrite Eraw. destruct (Z.leb_spec secp_p (fe_raw r)); cbn [Z.b2z] in Ex; [|lia].
  unfold fe_raw, bnd, fe_M, fe_M48, secp_p in *. lia.
Qed.

Lemma normalized_val a : normalized a -> to_Z (fe_val a) = fe_raw a.
Proof.
  intros (A0 & A1 & A2 & A3 & A4 & Hp). apply Zmod.unsigned_of_Z_small. unfold fe_raw, bnd in *. lia.
Qed.

Lemma fe_normalize_spec m a : magnitude m a -> m <= 2047 ->
  normalized (secp256k1_fe_normalize a) /\ fe_val (secp256k1_fe_normalize a) = fe_val a.
Proof.
  intros Ha Hm. pose proof (fe_first_pass_post a (magnitude_le _ _ _ Ha Hm)) as Hp.
  destruct (normalize_last a _ _ Hp eq_refl) as [Hn E]. split; [done|].
  destruct Hp as (_ & _ & _ & _ & _ & <-). symmetry. unfold fe_val. apply (fp_eq_add _ _ (fe_final_x (fe_first_pass a))).
  unfold secp256k1_fe_normalize. cbv zeta. lia.
Qed.

(** The variable-time reduction computes the same limbs. *)
Lemma fe_normalize_var_eq m a : magnitude m a -> m <= 2047 -> secp256k1_fe_normalize_var a = secp256k1_fe_normalize a.
Proof.
  intros Ha Hm. pose proof (fe_first_pass_post a (magnitude_le _ _ _ Ha Hm)) as Hp.
  unfold secp256k1_fe_normalize_var, secp256k1_fe_normalize. cbv zeta. set (t := fe_first_pass a) in *. clearbody t.
  rewrite (fe_final_x_eq a t Hp). destruct (Z.leb_spec secp_p (fe_raw t)) as [|Hlt]; [done|]. cbn [Z.b2z Z.eqb].
  destruct Hp as (R0 & R1 & R2 & R3 & R4 & _).
  assert (forall x, bnd x fe_M -> Z.land x fe_M = x /\ Z.shiftr x 52 = 0) as Hsmall.
  { intros x [H1 H2]. unfold fe_M in H2. change fe_M with (Z.ones 52).
    rewrite Z.land_ones, Z.shiftr_div_pow2 by lia. split; [apply Z.mod_small|apply Z.div_small]; lia. }
  rewrite Z.add_0_r. unfold fe_carry, fe_mask4. cbv zeta. limbs.
  rewrite (bnd_wrapu 64 (fe_n0 t) _ R0 eq_refl). destruct (Hsmall _ R0) as [-> ->].
  rewrite Z.add_0_r, (bnd_wrapu 64 (fe_n1 t) _ R1 eq_refl). destruct (Hsmall _ R1) as [-> ->].
  rewrite Z.add_0_r, (bnd_wrapu 64 (fe_n2 t) _ R2 eq_refl). destruct (Hsmall _ R2) as [-> ->].
  rewrite Z.add_0_r, (bnd_wrapu 64 (fe_n3 t) _ R3 eq_refl). destruct (Hsmall _ R3) as [-> ->].
  rewrite Z.add_0_r, (bnd_wrapu 64 (fe_n4 t) _ R4 eq_refl).
  replace (Z.land (fe_n4 t) fe_M48) with (fe_n4 t); [by destruct t|].
  symmetry. change fe_M48 with (Z.ones 48). rewrite Z.land_ones by lia. apply Z.mod_small.
  unfold fe_raw, secp_p, bnd, fe_M, fe_M48 in *. lia.
Qed.

Lemma bnd_lxor_M x y : bnd x fe_M -> bnd y fe_M -> bnd (Z.lxor x y) fe_M.
Proof.
  intros Hx Hy. assert (Z.land (Z.lxor x y) fe_M = Z.lxor x y) as <-.
  { assert (forall z, bnd z fe_M -> Z.land z fe_M = z) as Hs.
    { intros z [H1 H2]. change fe_M with (Z.ones 52). rewrite Z.land_ones by lia. apply Z.mod_small. unfold fe_M in H2. lia. }
    rewrite <- (Hs x Hx), <- (Hs y Hy) at 1. apply Z.bits_inj'. intros i Hi.
    rewrite !Z.land_spec, !Z.lxor_spec, !Z.land_spec, <- (Hs x Hx), <- (Hs y Hy), !Z.land_spec.
    by destruct (Z.testbit x i), (Z.testbit y i), (Z.testbit fe_M i). }
  apply (bnd_land _ (Z.lxor x y)); [|done]. split; [|done]. apply Z.lxor_nonneg. unfold bnd in *. lia.
Qed.

Lemma lxor_eq_M x c d : Z.lxor fe_M c = d -> Z.lxor x c = fe_M <-> x = d.
Proof.
  intros <-. split; [intros <-|intros ->]; by rewrite Z.lxor_assoc, Z.lxor_nilpotent, Z.lxor_0_r.
Qed.

(** The zero test looks for the two raw values of zero below twice the modulus. *)
Lemma fe_zero_test_eq a r : pass_post a r -> fe_zero_test r = bool_decide (fe_val a = 0%F).
Proof.
  intros (R0 & R1 & R2 & R3 & R4 & <-). destruct r as [t0 t1 t2 t3 t4]. limbs. unfold fe_zero_test.
  assert (fe_val (mkFe t0 t1 t2 t3 t4) = 0%F <-> fe_raw (mkFe t0 t1 t2 t3 t4) = 0 \/ fe_raw (mkFe t0 t1 t2 t3 t4) = secp_p) as Hv.
  { unfold fe_val, Zmod.zero. rewrite fp_eq, Z.sub_0_r. split.
    - intros [k Hk]. unfold fe_raw, bnd, fe_M, fe_M48, secp_p in *. limbs. assert (k = 0 \/ k = 1) by lia. lia.
    - intros [->| ->]; [by exists 0|by exists 1]. }
  assert (bnd t4 fe_M) as R4' by (unfold bnd, fe_M, fe_M48 in *; lia).
  apply Bool.eq_iff_eq_true. rewrite bool_decide_eq_true, Hv, orb_true_iff, !Z.eqb_eq, !Z.lor_eq_0_iff.
  assert (bnd (Z.lxor t0 0x1000003D0) fe_M) by by apply bnd_lxor_M.
  assert (bnd (Z.lxor t4 0xF000000000000) fe_M) by by apply bnd_lxor_M.
  rewrite !land_M_all by auto using bnd_land_M.
  rewrite (lxor_eq_M t0 0x1000003D0 fe_P0 eq_refl), (lxor_eq_M t4 0xF000000000000 fe_M48 eq_refl).
  unfold fe_raw, bnd, fe_M, fe_M48, fe_P0, secp_p in *. limbs. lia.
Qed.

Lemma fe_normalizes_to_zero_spec m a : magnitude m a -> m <= 2047 ->
  secp256k1_fe_normalizes_to_zero a = bool_decide (fe_val a = 0%F).
Proof. intros Ha Hm. apply fe_zero_test_eq, fe_first_pass_post. by eapply magnitude_le. Qed.

Lemma fe_zero_test_low a r :
  pass_post a r -> fe_n0 r <> 0 -> Z.lxor (fe_n0 r) 0x1000003D0 <> fe_M -> fe_zero_test r = false.
Proof.
  intros (R0 & R1 & R2 & R3 & R4 & _) H0 H1. destruct r as [t0 t1 t2 t3 t4]. limbs. unfold fe_zero_test.
  assert (bnd t4 fe_M) as R4' by (unfold bnd, fe_M, fe_M48 in *; lia).
  assert (bnd (Z.lxor t0 0x1000003D0) fe_M) by by apply bnd_lxor_M.
  assert (bnd (Z.lxor t4 0xF000000000000) fe_M) by by apply bnd_lxor_M.
  apply orb_false_iff. rewrite !Z.eqb_neq, !Z.lor_eq_0_iff, !land_M_all by auto using bnd_land_M. tauto.
Qed.

(** The early exit of the variable-time test agrees with the full test. *)
Lemma fe_normalizes_to_zero_var_eq m a : magnitude m a -> m <= 2047 ->
  secp256k1_fe_normalizes_to_zero_var a = secp256k1_fe_normalizes_to_zero a.
Proof.
  intros Ha Hm. unfold secp256k1_fe_normalizes_to_zero_var, secp256k1_fe_normalizes_to_zero. cbv zeta.
  pose proof (fe_zero_test_low a _ (fe_first_pass_post a (magnitude_le _ _ _ Ha Hm))) as Hlow.
  unfold fe_first_pass in *. cbv zeta in *. set (t0 := u64 _) in *.
  change (fe_n0 (fe_carry t0 _ _ _ _)) with (Z.land t0 fe_M) in Hlow.
  destruct (Z.eqb_spec (Z.land t0 fe_M) 0) as [|H0]; [done|].
  destruct (Z.eqb_spec (Z.lxor (Z.land t0 fe_M) 0x1000003D0) fe_M) as [|H1]; [done|]. by rewrite Hlow.
Qed.

(** ** Tests on normalized elements *)

Lemma fe_is_zero_spec a : normalized a -> secp256k1_fe_is_zero a = bool_decide (fe_val a = 0%F).
Proof.
  intros Hn. apply Bool.eq_iff_eq_true. rewrite bool_decide_eq_true, <- Zmod.unsigned_0_iff, (normalized_val a Hn).
  destruct Hn as (A0 & A1 & A2 & A3 & A4 & _). destruct a as [a0 a1 a2 a3 a4].
  unfold secp256k1_fe_is_zero. rewrite Z.eqb_eq, !Z.lor_eq_0_iff. unfold fe_raw, bnd in *. limbs. lia.
Qed.

Lemma fe_is_odd_spec a : normalized a -> secp256k1_fe_is_odd a = Z.odd (to_Z (fe_val a)).
Proof.
  intros Hn. rewrite (normalized_val a Hn). unfold secp256k1_fe_is_odd. change 1 with (Z.ones 1).
  rewrite Z.land_ones, Z.pow_1_r by lia. unfold fe_raw.
  replace (fe_n0 a + fe_n1 a * 2 ^ 52 + fe_n2 a * 2 ^ 104 + fe_n3 a * 2 ^ 156 + fe_n4 a * 2 ^ 208)
    with (fe_n0 a + 2 * (fe_n1 a * 2 ^ 51 + fe_n2 a * 2 ^ 103 + fe_n3 a * 2 ^ 155 + fe_n4 a * 2 ^ 207)) by ring.
  rewrite Z.odd_add_mul_2, Zmod_odd. by destruct (Z.odd (fe_n0 a)).
Qed.

Lemma normalized_inj a b : normalized a -> normalized b -> fe_raw a = fe_raw b -> a = b.
Proof.
  destruct a as [a0 a1 a2 a3 a4], b as [b0 b1 b2 b3 b4].
  intros (A0 & A1 & A2 & A3 & A4 & _) (B0 & B1 & B2 & B3 & B4 & _). unfold fe_raw, bnd, fe_M in *. limbs. intros E.
  f_equal; lia.
Qed.

Lemma fe_cmp_var_spec a b : normalized a -> normalized b ->
  secp256k1_fe_cmp_var a b = Z.sgn (to_Z (fe_val a) - to_Z (fe_val b)).
Proof.
  intros Ha Hb. rewrite !normalized_val by done.
  destruct Ha as (A0 & A1 & A2 & A3 & A4 & _), Hb as (B0 & B1 & B2 & B3 & B4 & _).
  destruct a as [a0 a1 a2 a3 a4], b as [b0 b1 b2 b3 b4].
  unfold secp256k1_fe_cmp_var, limbs_cmp, fe_raw, bnd, fe_M, fe_M48 in *. limbs.
  repeat match goal with |- context [?x <? ?y] => destruct (Z.ltb_spec x y) end; lia.
Qed.

(** ** Linear operations *)

Lemma fe_set_int_spec a : 0 <= a <= 0x7FFFFFFF ->
  normalized (secp256k1_fe_set_int a) /\ fe_val (secp256k1_fe_set_int a) = fp a.
Proof.
  intros Ha. unfold secp256k1_fe_set_int. rewrite wrapu_small by (unfold uint_range; lia). split.
  - unfold normalized, fe_raw, bnd, fe_M, fe_M48, secp_p. limbs. lia.
  - unfold fe_val, fe_raw. limbs. f_equal. lia.
Qed.

(** Limbs that stay below [2^64] are not wrapped. *)
Ltac unwrap_goal :=
  repeat match goal with |- context [wrapu 64 ?e] => rewrite (wrapu_small 64 e) by (unfold uint_range, bnd, fe_M, fe_M48, fe_P0 in *; lia) end.

Lemma fe_negate_spec m a : magnitude m a -> 0 <= m <= 2046 ->
  magnitude (m + 1) (secp256k1_fe_negate a m) /\ fe_val (secp256k1_fe_negate a m) = (- fe_val a)%F.
Proof.
  intros (A0 & A1 & A2 & A3 & A4) Hm. unfold secp256k1_fe_negate. unwrap_goal. split.
  - unfold magnitude, bnd, fe_M, fe_M48, fe_P0 in *. limbs. lia.
  - unfold fe_val. rewrite <- Zmod.of_Z_opp. apply (fp_eq_add _ _ (2 * (m + 1))).
    unfold fe_raw, fe_M, fe_M48, fe_P0, secp_p. limbs. ring.
Qed.

Lemma fe_mul_int_spec m a k : magnitude m a -> 0 <= m -> 0 <= k -> m * k <= 2047 ->
  magnitude (m * k) (secp256k1_fe_mul_int a k) /\ fe_val (secp256k1_fe_mul_int a k) = (fp k * fe_val a)%F.
Proof.
  intros (A0 & A1 & A2 & A3 & A4) Hm Hk Hmk.
  assert (forall x c, bnd x (2 * m * c) -> 0 <= c <= fe_M -> bnd (x * k) (2 * (m * k) * c)) as Hb.
  { unfold bnd. intros x c H Hc. split; [lia|]. transitivity (2 * m * c * k); [nia|lia]. }
  assert (bnd fe_M fe_M /\ bnd fe_M48 fe_M) as [HM HM'] by done.
  pose proof (Hb _ _ A0 HM). pose proof (Hb _ _ A1 HM). pose proof (Hb _ _ A2 HM). pose proof (Hb _ _ A3 HM).
  pose proof (Hb _ _ A4 HM'). unfold secp256k1_fe_mul_int. unwrap_goal. split; [unfold magnitude; limbs; auto|].
  unfold fe_val. rewrite <- Zmod.of_Z_mul. f_equal. unfold fe_raw. limbs. ring.
Qed.

Lemma fe_add_spec m n a b : magnitude m a -> magnitude n b -> m + n <= 2047 ->
  magnitude (m + n) (secp256k1_fe_add a b) /\ fe_val (secp256k1_fe_add a b) = (fe_val a + fe_val b)%F.
Proof.
  intros (A0 & A1 & A2 & A3 & A4) (B0 & B1 & B2 & B3 & B4) Hm. unfold secp256k1_fe_add. unwrap_goal. split.
  - unfold magnitude, bnd, fe_M, fe_M48 in *. limbs. lia.
  - unfold fe_val. rewrite <- Zmod.of_Z_add. f_equal. unfold fe_raw. limbs. ring.
Qed.

(** ** Selection *)

Lemma cmov_word_spec b r a : uint_range 64 r -> uint_range 64 a -> cmov_word (Z.b2z b) r a = if b then a else r.
Proof.
  intros Hr Ha. unfold cmov_word. destruct b; cbn [Z.b2z].
  - change (u64 (1 + (2 ^ 64 - 1))) with 0. change (u64 (Z.lnot 0)) with (Z.ones 64).
    rewrite Z.land_0_r, Z.lor_0_l, Z.land_ones by lia. by apply Z.mod_small.
  - change (u64 (0 + (2 ^ 64 - 1))) with (Z.ones 64). change (u64 (Z.lnot (Z.ones 64))) with 0.
    rewrite Z.land_0_r, Z.lor_0_r, Z.land_ones by lia. by apply Z.mod_small.
Qed.

Lemma fe_cmov_spec m n r a b : magnitude m r -> magnitude n a -> m <= 2047 -> n <= 2047 ->
  secp256k1_fe_cmov r a (Z.b2z b) = if b then a else r.
Proof.
  intros (A0 & A1 & A2 & A3 & A4) (B0 & B1 & B2 & B3 & B4) Hm Hn. unfold secp256k1_fe_cmov.
  rewrite !cmov_word_spec by (unfold uint_range, bnd, fe_M, fe_M48 in *; lia). by destruct b, a, r.
Qed.

(** ** Bytes *)

Fixpoint limb_sum (parts : list (Z * Z)) : Z :=
  match parts with [] => 0 | (x, s) :: parts => x * 2 ^ s + limb_sum parts end.

(** The parts do not overlap: each starts at or above the end of the one before. *)
Fixpoint limb_fits (lo : Z) (widths : list Z) (parts : list (Z * Z)) : Prop :=
  match widths, parts with
  | [], [] => True
  | w :: widths, (x, s) :: parts => 0 <= w /\ lo <= s /\ 0 <= x < 2 ^ w /\ limb_fits (s + w) widths parts
  | _, _ => False
  end.

Lemma limb_eq_from lo widths parts n :
  0 <= lo -> limb_fits lo widths parts -> 0 <= n < 2 ^ lo ->
  fold_left (fun n p => Z.lor n (Z.shiftl p.1 p.2)) parts n = n + limb_sum parts.
Proof.
  revert lo widths n. induction parts as [|[x s] parts IH]; intros lo [|w widths] n Hlo; cbn [limb_fits]; try done.
  - intros _ Hn. cbn. lia.
  - intros (Hw & Hs & Hx & Hf) Hn. cbn [fold_left limb_sum fst snd].
    assert (2 ^ lo <= 2 ^ s) by (apply Z.pow_le_mono_r; lia).
    rewrite Z.lor_comm, lor_shiftl_add by lia. rewrite (IH (s + w) widths); [lia|lia|done|].
    rewrite Z.pow_add_r by lia. nia.
Qed.

Lemma limb_eq widths parts : limb_fits 0 widths parts -> limb parts = limb_sum parts.
Proof. intros H. unfold limb. rewrite (limb_eq_from 0 widths) by done. lia. Qed.

Lemma byte_nibbles b :
  bval b = Z.land (Z.shiftr (bval b) 4) 0xF * 16 + Z.land (bval b) 0xF /\
  0 <= Z.land (Z.shiftr (bval b) 4) 0xF < 2 ^ 4 /\ 0 <= Z.land (bval b) 0xF < 2 ^ 4.
Proof.
  pose proof (bval_range b). change 15 with (Z.ones 4). rewrite !Z.land_ones, Z.shiftr_div_pow2 by lia.
  pose proof (Z.div_lt_upper_bound (bval b) 16 16 ltac:(lia) ltac:(lia)).
  pose proof (Z.div_pos (bval b) 16 ltac:(lia) ltac:(lia)).
  rewrite (Z.mod_small (bval b / 2 ^ 4)) by (change (2 ^ 4) with 16; lia). change (2 ^ 4) with 16.
  pose proof (Z.mod_pos_bound (bval b) 16 ltac:(lia)). pose proof (Z.div_mod (bval b) 16 ltac:(lia)). lia.
Qed.

Definition fe_widths0 : list Z := [8; 8; 8; 8; 8; 8; 4].
Definition fe_widths1 : list Z := [4; 8; 8; 8; 8; 8; 8].
Definition fe_widths4 : list Z := [8; 8; 8; 8; 8; 8].

Lemma fe_overflow_test n0 n1 n2 n3 n4 :
  bnd n0 fe_M -> bnd n1 fe_M -> bnd n2 fe_M -> bnd n3 fe_M -> bnd n4 fe_M48 ->
  (n4 =? fe_M48) && (Z.land (Z.land n3 n2) n1 =? fe_M) && (fe_P0 <=? n0) = (secp_p <=? fe_raw (mkFe n0 n1 n2 n3 n4)).
Proof.
  intros B0 B1 B2 B3 B4. apply Bool.eq_iff_eq_true.
  rewrite !andb_true_iff, !Z.eqb_eq, !Z.leb_le, !land_M_all by auto using bnd_land_M.
  unfold fe_raw, bnd, fe_M, fe_M48, fe_P0, secp_p in *. limbs. lia.
Qed.

Ltac byte_facts :=
  repeat match goal with b : byte |- _ =>
    lazymatch goal with
    | _ : 0 <= bval b < 256 |- _ => fail
    | _ => pose proof (bval_range b); pose proof (byte_nibbles b)
    end
  end.

Ltac fits := cbn [limb_fits fe_widths0 fe_widths1 fe_widths4]; repeat split; lia.

Lemma fe_set_b32_post b :
  length b = 32%nat ->
  match secp256k1_fe_set_b32 b with
  | Some r => normalized r /\ fe_raw r = be_val b
  | None => secp_p <= be_val b
  end.
Proof.
  intros Hl. do 32 (destruct b as [|? b]; [done|]). destruct b; [|done]. clear Hl.
  unfold secp256k1_fe_set_b32. cbn [nth]. byte_facts.
  rewrite (limb_eq fe_widths4), (limb_eq fe_widths1), (limb_eq fe_widths0), (limb_eq fe_widths1), (limb_eq fe_widths0) by fits.
  unfold be_val. cbn [rev app le_val limb_sum].
  match goal with |- context [mkFe ?x0 ?x1 ?x2 ?x3 ?x4] =>
    assert (bnd x0 fe_M /\ bnd x1 fe_M /\ bnd x2 fe_M /\ bnd x3 fe_M /\ bnd x4 fe_M48) as (B0 & B1 & B2 & B3 & B4)
      by (unfold bnd, fe_M, fe_M48; lia);
    rewrite (fe_overflow_test x0 x1 x2 x3 x4) by done
  end.
  match goal with |- context [_ = ?v] => match goal with |- context [secp_p <=? ?r] => assert (r = v) as Eraw end end.
  { unfold fe_raw. limbs. lia. }
  match goal with |- context [secp_p <=? ?r] => destruct (Z.leb_spec secp_p r) as [Hge|Hlt] end; [by rewrite <- Eraw|].
  split; [|done]. repeat split; try apply B0; try apply B1; try apply B2; try apply B3; try apply B4. done.
Qed.

Lemma bval_masked n m : 0 <= n -> 0 <= m <= 255 -> bval (byte_of (Z.land n m)) = Z.land n m.
Proof.
  intros Hn Hm. apply bval_byte_of_small. pose proof (bnd_land n n m ltac:(unfold bnd; lia) ltac:(lia)). unfold bnd in *. lia.
Qed.

Lemma bval_split_byte x y : 0 <= x -> 0 <= y ->
  bval (byte_of (Z.lor (Z.land x 0xF) (Z.shiftl (Z.land y 0xF) 4))) = Z.land x 0xF + Z.land y 0xF * 16.
Proof.
  intros Hx Hy. pose proof (bnd_land x x 0xF ltac:(unfold bnd; lia) ltac:(done)) as [B1 B2].
  pose proof (bnd_land y y 0xF ltac:(unfold bnd; lia) ltac:(done)) as [B3 B4].
  rewrite Z.lor_comm, lor_shiftl_add by lia. rewrite bval_byte_of_small by lia. lia.
Qed.

Lemma fe_get_b32_post a : normalized a ->
  length (secp256k1_fe_get_b32 a) = 32%nat /\ be_val (secp256k1_fe_get_b32 a) = fe_raw a.
Proof.
  destruct a as [n0 n1 n2 n3 n4]. intros (A0 & A1 & A2 & A3 & A4 & _). limbs. split; [done|].
  unfold be_val, secp256k1_fe_get_b32. cbn [fmap list_fmap rev app le_val].
  assert (forall n k, 0 <= n -> 0 <= Z.shiftr n k) as Hs by (intros; by apply Z.shiftr_nonneg).
  assert (0 <= n0 /\ 0 <= n1 /\ 0 <= n2 /\ 0 <= n3 /\ 0 <= n4) as (P0 & P1 & P2 & P3 & P4) by (unfold bnd in *; lia).
  assert (Z.shiftr n0 52 = 0 /\ Z.shiftr n1 52 = 0 /\ Z.shiftr n2 52 = 0 /\ Z.shiftr n3 52 = 0 /\ Z.shiftr n4 48 = 0)
    as (Z0 & Z1 & Z2 & Z3 & Z4).
  { rewrite !Z.shiftr_div_pow2 by lia. unfold bnd, fe_M, fe_M48 in *. rewrite !Z.div_small by lia. done. }
  rewrite !bval_split_byte by auto. rewrite !bval_masked by (auto || lia).
  rewrite !(land_low 8 0xFF), !(land_low 4 0xF), !Z.shiftr_shiftr by done.
  repeat match goal with |- context [Z.shiftr _ (?a + ?b)] => let c := eval compute in (a + b) in change (a + b) with c end.
  unfold fe_raw. limbs. rewrite Z0, Z1, Z2, Z3, Z4. ring.
Qed.

Lemma fe_set_b32_spec b : length b = 32%nat ->
  match secp256k1_fe_set_b32 b with
  | Some r => be_val b < secp_p /\ normalized r /\ fe_val r = fp (be_val b)
  | None => secp_p <= be_val b
  end.
Proof.
  intros Hl. pose proof (fe_set_b32_post b Hl) as H. destruct (secp256k1_fe_set_b32 b) as [r|]; [|done].
  destruct H as [Hn E]. unfold fe_val. rewrite <- E. split; [|done]. by destruct Hn as (_ & _ & _ & _ & _ & ?).
Qed.

(** Reading the bytes of a normalized element gives it back. *)
Lemma fe_b32_roundtrip a : normalized a -> secp256k1_fe_set_b32 (secp256k1_fe_get_b32 a) = Some a.
Proof.
  intros Hn. destruct (fe_get_b32_post a Hn) as [Hl E]. pose proof (fe_set_b32_post _ Hl) as H. rewrite E in H.
  destruct (secp256k1_fe_set_b32 _) as [r|].
  - destruct H as [Hr Er]. f_equal. by apply normalized_inj.
  - destruct Hn as (_ & _ & _ & _ & _ & ?). lia.
Qed.

(** ** Storage *)

(** A word of the storage: [k] low bits and what fits above them. *)
Lemma pack_word k x y : 0 <= k <= 64 -> 0 <= x < 2 ^ k -> Z.lor x (u64 (Z.shiftl y k)) = x + (y mod 2 ^ (64 - k)) * 2 ^ k.
Proof.
  intros Hk Hx. assert (u64 (Z.shiftl y k) = Z.shiftl (y mod 2 ^ (64 - k)) k) as ->.
  { unfold wrapu. rewrite !Z.shiftl_mul_pow2 by lia. replace (2 ^ 64) with (2 ^ (64 - k) * 2 ^ k).
    - rewrite Z.mul_mod_distr_r by lia. done.
    - rewrite <- Z.pow_add_r by lia. f_equal. lia. }
  rewrite Z.lor_comm, lor_shiftl_add by lia. lia.
Qed.

Lemma unpack_high k q r : 0 <= k -> 0 <= q < 2 ^ k -> Z.shiftr (q + r * 2 ^ k) k = r.
Proof. intros Hk Hq. rewrite Z.shiftr_div_pow2 by lia. rewrite Z.div_add by lia. rewrite Z.div_small by lia. lia. Qed.

Lemma unpack_low k q r : 0 <= k <= 52 -> 0 <= q < 2 ^ (52 - k) ->
  Z.land (u64 (Z.shiftl (q + r * 2 ^ (52 - k)) k)) fe_M = Z.shiftl q k.
Proof.
  intros Hk Hq. change fe_M with (Z.ones 52). rewrite Z.land_ones by lia. unfold wrapu.
  rewrite Z.mod_mod_divide by (exists (2 ^ 12); rewrite <- Z.pow_add_r by lia; f_equal; lia).
  rewrite !Z.shiftl_mul_pow2 by lia. replace (2 ^ 52) with (2 ^ (52 - k) * 2 ^ k) by (rewrite <- Z.pow_add_r by lia; f_equal; lia).
  rewrite Z.mul_mod_distr_r by lia. rewrite Z.mod_add, Z.mod_small by lia. done.
Qed.

(** The stored words of a limb pair: quotient and remainder at a bit position. *)
Lemma limb_split52 n k : 0 <= k <= 52 -> bnd n fe_M ->
  n = Z.shiftr n k * 2 ^ k + n mod 2 ^ k /\ 0 <= n mod 2 ^ k < 2 ^ k /\ 0 <= Z.shiftr n k < 2 ^ (52 - k).
Proof.
  intros Hk [H1 H2]. rewrite Z.shiftr_div_pow2 by lia. pose proof (Z.div_mod n (2 ^ k) ltac:(lia)).
  pose proof (Z.mod_pos_bound n (2 ^ k) ltac:(lia)). pose proof (Z.div_pos n (2 ^ k) H1 ltac:(lia)).
  assert (n / 2 ^ k < 2 ^ (52 - k)); [|lia].
  apply Z.div_lt_upper_bound; [lia|]. rewrite <- Z.pow_add_r by lia. replace (k + (52 - k)) with 52 by lia. unfold fe_M in H2. lia.
Qed.

Lemma fe_storage_roundtrip a : normalized a -> secp256k1_fe_from_storage (secp256k1_fe_to_storage a) = a.
Proof.
  destruct a as [n0 n1 n2 n3 n4]. intros (A0 & A1 & A2 & A3 & A4 & _). limbs.
  destruct (limb_split52 n1 12 ltac:(lia) A1) as (E1 & R1 & Q1).
  destruct (limb_split52 n2 24 ltac:(lia) A2) as (E2 & R2 & Q2).
  destruct (limb_split52 n3 36 ltac:(lia) A3) as (E3 & R3 & Q3).
  unfold secp256k1_fe_to_storage, secp256k1_fe_from_storage.
  rewrite (pack_word 52 n0), (pack_word 40), (pack_word 28), (pack_word 16) by (unfold bnd, fe_M in *; lia).
  change (64 - 52) with 12. change (64 - 40) with 24. change (64 - 28) with 36. change (64 - 16) with 48.
  rewrite (Z.mod_small n4) by (unfold bnd, fe_M48 in *; lia).
  pose proof (unpack_low 12 (Z.shiftr n1 12) (n2 mod 2 ^ 24) ltac:(lia) Q1) as U1.
  pose proof (unpack_low 24 (Z.shiftr n2 24) (n3 mod 2 ^ 36) ltac:(lia) Q2) as U2.
  pose proof (unpack_low 36 (Z.shiftr n3 36) n4 ltac:(lia) Q3) as U3.
  change (52 - 12) with 40 in *. change (52 - 24) with 28 in *. change (52 - 36) with 16 in *.
  rewrite U1, U2, U3, !unpack_high by (unfold bnd, fe_M in *; lia).
  rewrite !(Z.lor_comm (_ mod _)), !lor_shiftl_add by lia. f_equal; try lia.
  change fe_M with (Z.ones 52). rewrite Z.land_ones by lia. unfold bnd, fe_M in A0.
  rewrite Z.mod_add by lia. apply Z.mod_small. lia.
Qed.

(** ** The arithmetic as a whole *)

(** C16: on limbs within their magnitudes the arithmetic of 64-bit and 128-bit words never
    loses a carry: products, squares, sums, negations and reductions are those of the field
    of [secp_p] elements, each with the magnitude field.h promises, and the reduction gives
    the one representation of the residue. *)
Theorem field_arithmetic_correct m n a b : magnitude m a -> magnitude n b -> 0 <= m <= 8 -> 0 <= n <= 8 ->
  (magnitude 1 (secp256k1_fe_mul a b) /\ fe_val (secp256k1_fe_mul a b) = (fe_val a * fe_val b)%F) /\
  (magnitude 1 (secp256k1_fe_sqr a) /\ fe_val (secp256k1_fe_sqr a) = (fe_val a * fe_val a)%F) /\
  (magnitude (m + n) (secp256k1_fe_add a b) /\ fe_val (secp256k1_fe_add a b) = (fe_val a + fe_val b)%F) /\
  (magnitude (m + 1) (secp256k1_fe_negate a m) /\ fe_val (secp256k1_fe_negate a m) = (- fe_val a)%F) /\
  normalized (secp256k1_fe_normalize a) /\ fe_raw (secp256k1_fe_normalize a) = to_Z (fe_val a).
Proof.
  intros Ha Hb Hm Hn. pose proof (magnitude_le m 8 a Ha ltac:(lia)) as Ha8. pose proof (magnitude_le n 8 b Hb ltac:(lia)) as Hb8.
  split; [by apply fe_mul_spec|]. split; [by apply fe_sqr_spec|]. split; [apply fe_add_spec; [done..|lia]|].
  split; [apply fe_negate_spec; [done|lia]|]. destruct (fe_normalize_spec m a Ha ltac:(lia)) as [Hs Ev]. split; [done|].
  by rewrite <- (normalized_val _ Hs), Ev.
Qed.

(** The largest limbs of magnitude 8, and a small element. *)
Definition limbs_8 : secp256k1_fe := mkFe (16 * fe_M) (16 * fe_M) (16 * fe_M) (16 * fe_M) (16 * fe_M48).

Lemma field_arithmetic_correct_witness :
  magnitude 1 (secp256k1_fe_mul limbs_8 limbs_8) /\ fe_val (secp256k1_fe_mul limbs_8 limbs_8) = (fe_val limbs_8 * fe_val limbs_8)%F.
Proof.
  assert (magnitude 8 limbs_8) as H8 by (vm_compute; intuition congruence).
  exact (proj1 (field_arithmetic_correct 8 8 limbs_8 limbs_8 H8 H8 ltac:(lia) ltac:(lia))).
Defined.
