(* ===== verification/FieldImpl.v ===== *)
(** The field interface of secp256k1 and the routines built on it.

    field.h declares the operations every field representation provides and
    documents their magnitudes; a build selects field_5x52 or field_10x26. The
    class [FieldOps] is that list of operations and [FieldLaws] what the header
    promises of them; the routines of field_impl.h (equality, square root,
    inverse, batch inverse) are written and proved against the class. *)
From stdpp Require Import base list numbers.
From Stdlib Require Import ZArith Zmod Lia Field.
From S2P Require Import Prelude Limbs FieldPrime Field5x52.

Local Open Scope Z_scope.

(** ** The interface *)

Class FieldOps (fe : Type) := {
  fe_normalize : fe -> fe;
  fe_normalize_weak : fe -> fe;
  fe_normalize_var : fe -> fe;
  fe_normalizes_to_zero : fe -> bool;
  fe_normalizes_to_zero_var : fe -> bool;
  fe_set_int : Z -> fe;
  fe_clear : fe;
  fe_is_zero : fe -> bool;
  fe_is_odd : fe -> bool;
  fe_cmp_var : fe -> fe -> Z;
  fe_set_b32 : bytes -> option fe;
  fe_get_b32 : fe -> bytes;
  fe_negate : fe -> Z -> fe;
  fe_mul_int : fe -> Z -> fe;
  fe_add : fe -> fe -> fe;
  fe_mul : fe -> fe -> fe;
  fe_sqr : fe -> fe;
  fe_cmov : fe -> fe -> Z -> fe
}.

(** The residue, the magnitude and the normalized elements of a representation,
    and the contract of each operation. *)
Class FieldLaws (fe : Type) `{FieldOps fe} := {
  fval : fe -> Fp;
  fmag : Z -> fe -> Prop;
  fnorm : fe -> Prop;
  mag_le m m' a : fmag m a -> m <= m' -> fmag m' a;
  norm_mag a : fnorm a -> fmag 1 a;
  norm_inj a b : fnorm a -> fnorm b -> fval a = fval b -> a = b;
  normalize_law m a : fmag m a -> m <= 32 -> fnorm (fe_normalize a) /\ fval (fe_normalize a) = fval a;
  normalize_weak_law m a : fmag m a -> m <= 32 -> fmag 1 (fe_normalize_weak a) /\ fval (fe_normalize_weak a) = fval a;
  normalize_var_law m a : fmag m a -> m <= 32 -> fnorm (fe_normalize_var a) /\ fval (fe_normalize_var a) = fval a;
  to_zero_law m a : fmag m a -> m <= 32 -> fe_normalizes_to_zero a = bool_decide (fval a = 0%F);
  to_zero_var_law m a : fmag m a -> m <= 32 -> fe_normalizes_to_zero_var a = bool_decide (fval a = 0%F);
  set_int_law a : 0 <= a <= 0x3FFFFFF -> fnorm (fe_set_int a) /\ fval (fe_set_int a) = fp a;
  clear_law : fnorm fe_clear /\ fval fe_clear = 0%F;
  is_zero_law a : fnorm a -> fe_is_zero a = bool_decide (fval a = 0%F);
  is_odd_law a : fnorm a -> fe_is_odd a = Z.odd (to_Z (fval a));
  cmp_var_law a b : fnorm a -> fnorm b -> fe_cmp_var a b = Z.sgn (to_Z (fval a) - to_Z (fval b));
  set_b32_law b : length b = 32%nat ->
    match fe_set_b32 b with
    | Some r => be_val b < secp_p /\ fnorm r /\ fval r = fp (be_val b)
    | None => secp_p <= be_val b
    end;
  get_b32_law a : fnorm a -> length (fe_get_b32 a) = 32%nat /\ be_val (fe_get_b32 a) = to_Z (fval a);
  negate_law m a : fmag m a -> 0 <= m <= 31 -> fmag (m + 1) (fe_negate a m) /\ fval (fe_negate a m) = (- fval a)%F;
  mul_int_law m a k : fmag m a -> 0 <= m -> 0 <= k -> m * k <= 32 ->
    fmag (m * k) (fe_mul_int a k) /\ fval (fe_mul_int a k) = (fp k * fval a)%F;
  add_law m n a b : fmag m a -> fmag n b -> m + n <= 32 -> fmag (m + n) (fe_add a b) /\ fval (fe_add a b) = (fval a + fval b)%F;
  mul_law a b : fmag 8 a -> fmag 8 b -> fmag 1 (fe_mul a b) /\ fval (fe_mul a b) = (fval a * fval b)%F;
  sqr_law a : fmag 8 a -> fmag 1 (fe_sqr a) /\ fval (fe_sqr a) = (fval a * fval a)%F;
  cmov_law m n r a b : fmag m r -> fmag n a -> m <= 32 -> n <= 32 -> fe_cmov r a (Z.b2z b) = if b then a else r
}.

(** ** The 5x52 representation implements it *)

#[global] Instance fe5x52_ops : FieldOps secp256k1_fe := {
  fe_normalize := secp256k1_fe_normalize;
  fe_normalize_weak := secp256k1_fe_normalize_weak;
  fe_normalize_var := secp256k1_fe_normalize_var;
  fe_normalizes_to_zero := secp256k1_fe_normalizes_to_zero;
  fe_normalizes_to_zero_var := secp256k1_fe_normalizes_to_zero_var;
  fe_set_int := secp256k1_fe_set_int;
  fe_clear := secp256k1_fe_clear;
  fe_is_zero := secp256k1_fe_is_zero;
  fe_is_odd := secp256k1_fe_is_odd;
  fe_cmp_var := secp256k1_fe_cmp_var;
  fe_set_b32 := secp256k1_fe_set_b32;
  fe_get_b32 := secp256k1_fe_get_b32;
  fe_negate := secp256k1_fe_negate;
  fe_mul_int := secp256k1_fe_mul_int;
  fe_add := secp256k1_fe_add;
  fe_mul := secp256k1_fe_mul;
  fe_sqr := secp256k1_fe_sqr;
  fe_cmov := secp256k1_fe_cmov
}.

#[global] Instance fe5x52_laws : FieldLaws secp256k1_fe.
Proof.
  refine {| fval := fe_val; fmag := magnitude; fnorm := normalized |}.
  - apply magnitude_le.
  - apply normalized_magnitude.
  - intros a b Ha Hb E. apply normalized_inj; [done..|]. by rewrite <- !normalized_val, E by done.
  - intros m a Ha Hm. apply (fe_normalize_spec m); [done|lia].
  - intros m a Ha Hm. apply (fe_normalize_weak_spec m); [done|lia].
  - intros m a Ha Hm. cbn. rewrite (fe_normalize_var_eq m) by (done || lia). apply (fe_normalize_spec m); [done|lia].
  - intros m a Ha Hm. apply (fe_normalizes_to_zero_spec m); [done|lia].
  - intros m a Ha Hm. cbn. rewrite (fe_normalizes_to_zero_var_eq m) by (done || lia).
    apply (fe_normalizes_to_zero_spec m); [done|lia].
  - intros a Ha. apply fe_set_int_spec. lia.
  - split; [|done]. unfold normalized, bnd. done.
  - apply fe_is_zero_spec.
  - apply fe_is_odd_spec.
  - apply fe_cmp_var_spec.
  - apply fe_set_b32_spec.
  - intros a Ha. rewrite (normalized_val a Ha). by apply fe_get_b32_post.
  - intros m a Ha Hm. apply fe_negate_spec; [done|lia].
  - intros m a k Ha Hm Hk Hmk. apply fe_mul_int_spec; done || lia.
  - intros m n a b Ha Hb Hm. apply fe_add_spec; done || lia.
  - apply fe_mul_spec.
  - apply fe_sqr_spec.
  - intros m n r a b Hr Ha Hm Hn. apply (fe_cmov_spec m n); done || lia.
Defined.

(** ** Routines of field_impl.h *)

Section field_impl.
Context {fe : Type} `{FieldLaws fe}.

Definition fe_equal (a b : fe) : bool := fe_normalizes_to_zero (fe_add (fe_negate a 1) b).
Definition fe_equal_var (a b : fe) : bool := fe_normalizes_to_zero_var (fe_add (fe_negate a 1) b).

(** [for (j = 0; j < n; j++) sqr(x, x)] *)
Definition fe_sqr_times (n : nat) (x : fe) : fe := Nat.iter n fe_sqr x.

(** The blocks of ones that the square root and the inverse share:
    [x2], [x22] and [x223]. *)
Definition fe_ones_blocks (a : fe) : fe * fe * fe :=
  let x_2 := fe_mul (fe_sqr a) a in
  let x_3 := fe_mul (fe_sqr x_2) a in
  let x_6 := fe_mul (fe_sqr_times 3 x_3) x_3 in
  let x_9 := fe_mul (fe_sqr_times 3 x_6) x_3 in
  let x_11 := fe_mul (fe_sqr_times 2 x_9) x_2 in
  let x_22 := fe_mul (fe_sqr_times 11 x_11) x_11 in
  let x_44 := fe_mul (fe_sqr_times 22 x_22) x_22 in
  let x_88 := fe_mul (fe_sqr_times 44 x_44) x_44 in
  let x_176 := fe_mul (fe_sqr_times 88 x_88) x_88 in
  let x_220 := fe_mul (fe_sqr_times 44 x_176) x_44 in
  let x_223 := fe_mul (fe_sqr_times 3 x_220) x_3 in
  (x_2, x_22, x_223).

Definition fe_sqrt (a : fe) : fe * bool :=
  let '(x_2, x_22, x_223) := fe_ones_blocks a in
  let t1 := fe_mul (fe_sqr_times 23 x_223) x_22 in
  let t1 := fe_mul (fe_sqr_times 6 t1) x_2 in
  let r := fe_sqr (fe_sqr t1) in
  let t1 := fe_sqr r in
  (r, fe_equal t1 a).

Definition fe_inv (a : fe) : fe :=
  let '(x_2, x_22, x_223) := fe_ones_blocks a in
  let t1 := fe_mul (fe_sqr_times 23 x_223) x_22 in
  let t1 := fe_mul (fe_sqr_times 5 t1) a in
  let t1 := fe_mul (fe_sqr_times 3 t1) x_2 in
  let t1 := fe_sqr_times 2 t1 in
  fe_mul a t1.

(** With the built-in inverse the variable-time one is the same. *)
Definition fe_inv_var (a : fe) : fe := fe_inv a.

(** The running products: [r[i] = r[i - 1] * a[i]]. *)
Fixpoint inv_all_products (r : fe) (a : list fe) : list fe :=
  match a with
  | [] => []
  | x :: a => let r' := fe_mul r x in r' :: inv_all_products r' a
  end.

(** The way back, on the products and the inputs from the end: each output is the
    product before it times the inverse of everything up to it. *)
Fixpoint inv_all_back (u : fe) (rs a : list fe) : list fe :=
  match rs, a with
  | r :: rs, x :: a => fe_mul r u :: inv_all_back (fe_mul u x) rs a
  | _, _ => [u]
  end.

Definition fe_inv_all_var (a : list fe) : list fe :=
  match a with
  | [] => []
  | a0 :: rest =>
      let rs := a0 :: inv_all_products a0 rest in
      let u := fe_inv_var (List.last rs a0) in
      rev (inv_all_back u (List.tail (rev rs)) (rev rest))
  end.

Definition fe_is_quad_var (a : fe) : bool := (fe_sqrt a).2.

(** ** Equality *)

Lemma fe_equal_spec m a b : fmag 1 a -> fmag m b -> 0 <= m <= 30 -> fe_equal a b = bool_decide (fval a = fval b).
Proof.
  intros Ha Hb Hm. unfold fe_equal. destruct (negate_law 1 a Ha ltac:(lia)) as [Hn En].
  destruct (add_law _ m _ b Hn Hb ltac:(lia)) as [Hs Es].
  rewrite (to_zero_law _ _ Hs ltac:(lia)), Es, En. apply bool_decide_ext.
  split; intros E; [|rewrite E; ring]. transitivity (fval a + (- fval a + fval b))%F; [rewrite E|]; ring.
Qed.

Lemma fe_equal_var_spec m a b : fmag 1 a -> fmag m b -> 0 <= m <= 30 -> fe_equal_var a b = bool_decide (fval a = fval b).
Proof.
  intros Ha Hb Hm. rewrite <- (fe_equal_spec m) by done. unfold fe_equal, fe_equal_var.
  destruct (negate_law 1 a Ha ltac:(lia)) as [Hn En]. destruct (add_law _ m _ b Hn Hb ltac:(lia)) as [Hs Es].
  by rewrite (to_zero_law _ _ Hs ltac:(lia)), (to_zero_var_law _ _ Hs ltac:(lia)).
Qed.

(** ** Powers *)

(** [x] is the [e]-th power of [a], with magnitude one. *)
Definition is_power (a : fe) (e : Z) (x : fe) : Prop := fmag 1 x /\ 0 <= e /\ fval x = (fval a ^ e)%F.

Lemma power_mul a e f x y : is_power a e x -> is_power a f y -> is_power a (e + f) (fe_mul x y).
Proof.
  intros (Hx & He & Ex) (Hy & Hf & Ey). destruct (mul_law x y) as [Hm Em]; [by eapply mag_le..|].
  split; [done|]. split; [lia|]. by rewrite Em, Ex, Ey, Zmod.pow_add_r_nonneg by done.
Qed.

Lemma power_sqr a e x : is_power a e x -> is_power a (2 * e) (fe_sqr x).
Proof.
  intros (Hx & He & Ex). destruct (sqr_law x) as [Hm Em]; [by eapply mag_le|].
  split; [done|]. split; [lia|]. rewrite Em, Ex, <- Zmod.pow_add_r_nonneg by done. f_equal. lia.
Qed.

Lemma power_sqr_times a n e x : is_power a e x -> is_power a (e * 2 ^ Z.of_nat n) (fe_sqr_times n x).
Proof.
  intros Hx. induction n as [|n IH]; [by rewrite Z.mul_1_r|].
  rewrite Nat2Z.inj_succ, Z.pow_succ_r by lia. unfold fe_sqr_times. cbn [Nat.iter nat_rect].
  apply power_sqr in IH. by replace (e * (2 * 2 ^ Z.of_nat n)) with (2 * (e * 2 ^ Z.of_nat n)) by ring.
Qed.

Lemma power_start a : fmag 8 a -> is_power a 2 (fe_sqr a) /\ is_power a 3 (fe_mul (fe_sqr a) a).
Proof.
  intros Ha. destruct (sqr_law a Ha) as [Hm Em]. destruct (mul_law (fe_sqr a) a) as [Hm' Em']; [by eapply mag_le|done|].
  split; (split; [done|]; split; [lia|]).
  - by rewrite Em, Zmod.pow_2_r.
  - rewrite Em', Em. change 3 with (Z.succ 2). rewrite Zmod.pow_succ_nonneg_r, Zmod.pow_2_r by lia. ring.
Qed.

Lemma power_mul_base a e x : fmag 8 a -> is_power a e x -> is_power a (e + 1) (fe_mul x a) /\ is_power a (1 + e) (fe_mul a x).
Proof.
  intros Ha (Hx & He & Ex). apply (mag_le _ 8) in Hx; [|lia]. destruct (mul_law x a Hx Ha) as [H1 E1].
  destruct (mul_law a x Ha Hx) as [H2 E2].
  split; (split; [done|]; split; [lia|]); rewrite ?E1, ?E2, Ex, Zmod.pow_add_r_nonneg, Zmod.pow_1_r by done; ring.
Qed.

(** The addition chain of the shared blocks. *)
Definition blocks_post (a : fe) (x : fe * fe * fe) : Prop :=
  is_power a (2 ^ 2 - 1) x.1.1 /\ is_power a (2 ^ 22 - 1) x.1.2 /\ is_power a (2 ^ 223 - 1) x.2.

Lemma power_block a n m e f x y z : z = fe_mul (fe_sqr_times n x) y ->
  is_power a e x -> is_power a f y -> e * 2 ^ Z.of_nat n + f = m -> is_power a m z.
Proof. intros -> Hx Hy <-. apply power_mul; [by apply power_sqr_times|done]. Qed.

Lemma power_eq a e m x : is_power a e x -> (e =? m) = true -> is_power a m x.
Proof. by intros H1 ->%Z.eqb_eq. Qed.

Lemma ones_blocks_power a : fmag 8 a -> blocks_post a (fe_ones_blocks a).
Proof.
  intros Ha. destruct (power_start a Ha) as [_ P2]. cbv beta delta [fe_ones_blocks].
  assign x_2 E. rewrite <- E in P2. clear E.
  assign x_3 E. pose proof (proj1 (power_mul_base a _ _ Ha (power_sqr a _ _ P2))) as P3. rewrite <- E in P3. clear E.
  assign x_6 E. pose proof (power_block a _ (2 ^ 6 - 1) _ _ _ _ _ E P3 P3 eq_refl) as P6. clear E.
  assign x_9 E. pose proof (power_block a _ (2 ^ 9 - 1) _ _ _ _ _ E P6 P3 eq_refl) as P9. clear E.
  assign x_11 E. pose proof (power_block a _ (2 ^ 11 - 1) _ _ _ _ _ E P9 P2 eq_refl) as P11. clear E.
  assign x_22 E. pose proof (power_block a _ (2 ^ 22 - 1) _ _ _ _ _ E P11 P11 eq_refl) as P22. clear E.
  assign x_44 E. pose proof (power_block a _ (2 ^ 44 - 1) _ _ _ _ _ E P22 P22 eq_refl) as P44. clear E.
  assign x_88 E. pose proof (power_block a _ (2 ^ 88 - 1) _ _ _ _ _ E P44 P44 eq_refl) as P88. clear E.
  assign x_176 E. pose proof (power_block a _ (2 ^ 176 - 1) _ _ _ _ _ E P88 P88 eq_refl) as P176. clear E.
  assign x_220 E. pose proof (power_block a _ (2 ^ 220 - 1) _ _ _ _ _ E P176 P44 eq_refl) as P220. clear E.
  assign x_223 E. pose proof (power_block a _ (2 ^ 223 - 1) _ _ _ _ _ E P220 P3 eq_refl) as P223. clear E.
  split; [exact (power_eq _ _ (2 ^ 2 - 1) _ P2 eq_refl)|]. split; [exact P22|exact P223].
Qed.

(** The root is the power [(p + 1) / 4] and the inverse the power [p - 2]. *)
Lemma fe_sqrt_power a : fmag 8 a -> is_power a ((secp_p + 1) / 4) (fe_sqrt a).1.
Proof.
  intros Ha. pose proof (ones_blocks_power a Ha) as HB. unfold fe_sqrt. destruct (fe_ones_blocks a) as [[x_2 x_22] x_223].
  destruct HB as (P2 & P22 & P223). cbn [fst snd] in *.
  pose proof (power_block a 23 _ _ _ _ _ _ eq_refl P223 P22 eq_refl) as P'.
  pose proof (power_block a 6 _ _ _ _ _ _ eq_refl P' P2 eq_refl) as P.
  apply power_sqr, power_sqr in P. refine (power_eq _ _ _ _ P _). vm_compute. reflexivity.
Qed.

Lemma fe_inv_power a : fmag 8 a -> is_power a (secp_p - 2) (fe_inv a).
Proof.
  intros Ha. pose proof (ones_blocks_power a Ha) as HB. unfold fe_inv. destruct (fe_ones_blocks a) as [[x_2 x_22] x_223].
  destruct HB as (P2 & P22 & P223). cbn [fst snd] in *.
  pose proof (power_block a 23 _ _ _ _ _ _ eq_refl P223 P22 eq_refl) as P.
  pose proof (proj1 (power_mul_base a _ _ Ha (power_sqr_times a 5 _ _ P))) as P'.
  pose proof (power_block a 3 _ _ _ _ _ _ eq_refl P' P2 eq_refl) as P''.
  refine (power_eq _ _ _ _ (proj2 (power_mul_base a _ _ Ha (power_sqr_times a 2 _ _ P''))) _). vm_compute. reflexivity.
Qed.

Lemma fe_inv_spec a : fmag 8 a -> fmag 1 (fe_inv a) /\ fval (fe_inv a) = Zmod.inv (fval a).
Proof.
  intros Ha. destruct (fe_inv_power a Ha) as (Hm & _ & ->). split; [done|].
  destruct (decide (fval a = 0%F)) as [->|Hnz]; [|by apply Zmod.fermat_inv, secp_p_prime].
  rewrite Zmod.inv_0. by apply Zmod.pow_0_l.
Qed.

(** Euler's criterion, for the values the root is taken of. *)
Lemma euler_sign (v : Fp) : v <> 0%F -> (v ^ ((secp_p - 1) / 2) = 1 \/ v ^ ((secp_p - 1) / 2) = - (1))%F.
Proof.
  intros Hv. apply (Zmod.square_roots_1_prime secp_p_prime). rewrite <- Zmod.pow_mul_r_nonneg by nonneg.
  replace ((secp_p - 1) / 2 * 2) with (Z.pred secp_p) by (vm_compute; reflexivity). by apply Zmod.fermat_nz, secp_p_prime.
Qed.

Lemma sqrt_squared (v : Fp) : (v ^ ((secp_p + 1) / 4) * v ^ ((secp_p + 1) / 4) = v * v ^ ((secp_p - 1) / 2))%F.
Proof.
  rewrite <- Zmod.pow_add_r_nonneg by nonneg. rewrite <- (Zmod.pow_succ_nonneg_r v) by nonneg.
  by replace ((secp_p + 1) / 4 + (secp_p + 1) / 4) with (Z.succ ((secp_p - 1) / 2)) by (vm_compute; reflexivity).
Qed.

Lemma square_euler (y : Fp) : y <> 0%F -> ((y * y) ^ ((secp_p - 1) / 2) = 1)%F.
Proof.
  intros Hy. rewrite <- Zmod.pow_2_r, <- Zmod.pow_mul_r_nonneg by nonneg.
  replace (2 * ((secp_p - 1) / 2)) with (Z.pred secp_p) by (vm_compute; reflexivity). by apply Zmod.fermat_nz, secp_p_prime.
Qed.

Lemma two_nonzero : fp 2 <> 0%F.
Proof. intros E. apply (f_equal to_Z) in E. by vm_compute in E. Qed.

Lemma opp_same (v : Fp) : v = (- v)%F -> v = 0%F.
Proof.
  intros E. assert (fp 2 * v = 0)%F as E2.
  { transitivity (v - - v)%F; [ring|]. rewrite <- E. ring. }
  apply (Zmod.mul_0_iff_prime secp_p_prime) in E2 as [E2|E2]; [by apply two_nonzero in E2|done].
Qed.

(** What field.h says of the square root: a root when there is one, a root of the
    negation otherwise; the result is itself a square. *)
Lemma fe_sqrt_spec a : fmag 8 a ->
  let r := (fe_sqrt a).1 in let b := (fe_sqrt a).2 in
  fmag 1 r /\ (b = true <-> exists y, y * y = fval a)%F /\ (fval r * fval r = if b then fval a else - fval a)%F
  /\ (exists y, fval r = y * y)%F.
Proof.
  intros Ha. destruct (fe_sqrt_power a Ha) as (Hm & _ & Er). cbv zeta.
  destruct (sqr_law (fe_sqrt a).1) as [Hs Es]; [by eapply mag_le|].
  assert ((fe_sqrt a).2 = fe_equal (fe_sqr (fe_sqrt a).1) a) as Eb.
  { unfold fe_sqrt. by destruct (fe_ones_blocks a) as [[? ?] ?]. }
  rewrite (fe_equal_spec 8 _ _ Hs Ha ltac:(lia)), Es, Er, sqrt_squared in Eb. rewrite Eb, Er, sqrt_squared. set (v := fval a) in *.
  split; [done|]. split_and!.
  - rewrite bool_decide_eq_true. destruct (decide (v = 0%F)) as [->|Hv].
    { split; [exists 0%F; ring|intros _; ring]. }
    split.
    + intros E. exists (v ^ ((secp_p + 1) / 4))%F. by rewrite sqrt_squared.
    + intros [y Hy]. rewrite <- Hy at 2. rewrite square_euler; [ring|]. intros ->. apply Hv. rewrite <- Hy. ring.
  - destruct (decide (v = 0%F)) as [->|Hv]; [case_bool_decide; ring|].
    destruct (euler_sign v Hv) as [->| ->].
    + rewrite bool_decide_eq_true_2 by ring. ring.
    + rewrite bool_decide_eq_false_2; [ring|]. intros E. apply Hv, opp_same. rewrite <- E at 1. ring.
  - exists (v ^ ((secp_p + 1) / 8))%F. rewrite <- Zmod.pow_add_r_nonneg by nonneg.
    by replace ((secp_p + 1) / 8 + (secp_p + 1) / 8) with ((secp_p + 1) / 4) by (vm_compute; reflexivity).
Qed.

(** ** Batch inversion *)

Definition field_product (a : list fe) : Fp := foldr (fun x v => fval x * v)%F 1%F a.

Lemma inv_all_products_snoc r a x : inv_all_products r (a ++ [x]) = inv_all_products r a ++ [fe_mul (fold_left fe_mul a r) x].
Proof. revert r. induction a as [|y a IH]; intros r; [done|]. cbn [inv_all_products app fold_left]. by rewrite IH. Qed.

Lemma inv_all_products_last r a : List.last (r :: inv_all_products r a) r = fold_left fe_mul a r.
Proof.
  induction a as [|x a _] using rev_ind; [done|].
  rewrite inv_all_products_snoc, fold_left_app, app_comm_cons. apply last_last.
Qed.

Lemma fold_mul_spec r a : fmag 8 r -> Forall (fmag 8) a ->
  fmag 8 (fold_left fe_mul a r) /\ fval (fold_left fe_mul a r) = (fval r * field_product a)%F.
Proof.
  intros Hr Ha. revert r Hr. induction Ha as [|x a Hx Ha IH]; intros r Hr; cbn [fold_left field_product foldr].
  - split; [done|ring].
  - destruct (mul_law r x Hr Hx) as [Hm Em]. destruct (IH (fe_mul r x)) as [H1 E1]; [by eapply mag_le|].
    split; [done|]. rewrite E1, Em. unfold field_product. ring.
Qed.

(** [y] is an inverse of [x] with magnitude one. *)
Definition inverse_of (x y : fe) : Prop := fmag 1 y /\ (fval x * fval y = 1)%F.

Lemma inv_all_back_spec a0 rest u :
  fmag 8 a0 -> Forall (fmag 8) rest -> fmag 1 u -> (fval a0 * field_product rest * fval u = 1)%F ->
  Forall2 inverse_of (a0 :: rest) (rev (inv_all_back u (List.tail (rev (a0 :: inv_all_products a0 rest))) (rev rest))).
Proof.
  intros Ha0. revert u. induction rest as [|x rest IH] using rev_ind; intros u Hrest Hu E.
  { constructor; [|constructor]. split; [done|]. rewrite <- E. unfold field_product. cbn [foldr]. ring. }
  apply Forall_app in Hrest as [Hrest Hx]. apply Forall_cons in Hx as [Hx _].
  assert (field_product (rest ++ [x]) = field_product rest * fval x)%F as Ep.
  { unfold field_product. rewrite foldr_app. cbn [foldr]. clear. induction rest as [|y rest IH]; cbn [foldr]; [ring|rewrite IH; ring]. }
  rewrite inv_all_products_snoc. cbn [rev]. rewrite !rev_app_distr. cbn [rev app List.tail].
  destruct (fold_mul_spec a0 rest Ha0 Hrest) as [Hf Ef].
  destruct (rev (inv_all_products a0 rest) ++ [a0]) as [|r rs] eqn:Er; [by apply app_nil in Er as [_ ?]|].
  assert (r = fold_left fe_mul rest a0) as ->.
  { rewrite <- inv_all_products_last. rewrite <- (rev_involutive (a0 :: _)). cbn [rev]. rewrite Er. cbn [rev].
    by rewrite last_last. }
  cbn [inv_all_back rev]. rewrite app_comm_cons. apply Forall2_app; [|constructor; [|constructor]].
  - destruct (mul_law u x) as [Hm Em]; [by eapply mag_le|done|].
    specialize (IH (fe_mul u x) Hrest Hm). cbn [rev] in IH. rewrite Er in IH. cbn [List.tail] in IH. apply IH.
    rewrite Em. rewrite <- E, Ep. ring.
  - destruct (mul_law (fold_left fe_mul rest a0) u Hf) as [Hm Em]; [by eapply mag_le|].
    split; [done|]. rewrite Em, Ef, <- E, Ep. ring.
Qed.

Lemma field_product_nonzero a : Forall (fun x => fval x <> 0%F) a -> field_product a <> 0%F.
Proof.
  induction 1 as [|x a Hx _ IH]; cbn [field_product foldr]; [by apply Zmod.one_neq_zero|].
  intros [|]%(Zmod.mul_0_iff_prime secp_p_prime); done.
Qed.

Lemma fe_inv_all_var_spec a : Forall (fmag 8) a -> Forall (fun x => fval x <> 0%F) a ->
  Forall2 inverse_of a (fe_inv_all_var a).
Proof.
  intros Hm Hnz. destruct a as [|a0 rest]; [constructor|]. unfold fe_inv_all_var. cbv zeta.
  rewrite inv_all_products_last. pose proof (field_product_nonzero _ Hnz) as Hp.
  apply Forall_cons in Hm as [Ha0 Hrest]. destruct (fold_mul_spec a0 rest Ha0 Hrest) as [Hf Ef].
  destruct (fe_inv_spec _ Hf) as [Hi Ei]. apply inv_all_back_spec; [done..|].
  unfold fe_inv_var. rewrite Ei, Ef. by apply Zmod.mul_inv_same_r_prime; [apply secp_p_prime|].
Qed.
End field_impl.
