(* ===== verification/Group.v ===== *)
(** The group of the secp256k1 curve in affine and Jacobian coordinates.

    Models secp256k1/src/group_impl.h over any field representation of
    [FieldImpl]: one definition per routine, with the destination as an argument
    where the code leaves some of its fields unwritten. The specification is the
    chord-and-tangent law on the points of [y^2 = x^3 + 7] over [Fp]; each addition
    and doubling routine is proved to compute it, with the magnitudes it
    documents, and the two parsers of public keys to accept exactly the points of
    the curve. *)
From stdpp Require Import base list numbers.
From Stdlib Require Import ZArith Zmod Lia Field.
From S2P Require Import Prelude Limbs FieldPrime Field5x52 FieldImpl.

Local Open Scope Z_scope.

Section group.
Context {fe : Type} `{FieldLaws fe}.

Record secp256k1_ge := mkGe { ge_x : fe; ge_y : fe; ge_infinity : bool }.
Record secp256k1_gej := mkGej { gej_x : fe; gej_y : fe; gej_z : fe; gej_infinity : bool }.

Definition CURVE_B : Z := 7.

(** ** Conversions *)

Definition ge_set_gej_zinv (a : secp256k1_gej) (zi : fe) : secp256k1_ge :=
  let zi2 := fe_sqr zi in
  let zi3 := fe_mul zi2 zi in
  mkGe (fe_mul (gej_x a) zi2) (fe_mul (gej_y a) zi3) (gej_infinity a).

Definition ge_set_xy (x y : fe) : secp256k1_ge := mkGe x y false.
Definition ge_is_infinity (a : secp256k1_ge) : bool := ge_infinity a.

Definition ge_neg (a : secp256k1_ge) : secp256k1_ge :=
  mkGe (ge_x a) (fe_negate (fe_normalize_weak (ge_y a)) 1) (ge_infinity a).

(** The routine also rescales its argument to [z = 1]: the second result. *)
Definition ge_set_gej (a : secp256k1_gej) : secp256k1_ge * secp256k1_gej :=
  let z := fe_inv (gej_z a) in
  let z2 := fe_sqr z in
  let z3 := fe_mul z z2 in
  let x := fe_mul (gej_x a) z2 in
  let y := fe_mul (gej_y a) z3 in
  (mkGe x y (gej_infinity a), mkGej x y (fe_set_int 1) (gej_infinity a)).

Definition ge_set_gej_var (r : secp256k1_ge) (a : secp256k1_gej) : secp256k1_ge * secp256k1_gej :=
  if gej_infinity a then (mkGe (ge_x r) (ge_y r) true, a)
  else
    let z := fe_inv_var (gej_z a) in
    let z2 := fe_sqr z in
    let z3 := fe_mul z z2 in
    let x := fe_mul (gej_x a) z2 in
    let y := fe_mul (gej_y a) z3 in
    (mkGe x y false, mkGej x y (fe_set_int 1) false).

(** One inverse for all finite points; [azi] is consumed in order. *)
Fixpoint set_all_gej_loop (r : list secp256k1_ge) (a : list secp256k1_gej) (azi : list fe) : list secp256k1_ge :=
  match r, a with
  | r0 :: r, a0 :: a =>
      if gej_infinity a0 then mkGe (ge_x r0) (ge_y r0) true :: set_all_gej_loop r a azi
      else match azi with
           | zi :: azi => ge_set_gej_zinv a0 zi :: set_all_gej_loop r a azi
           | [] => r0 :: r
           end
  | _, _ => []
  end.

Definition finite_z (a : list secp256k1_gej) : list fe := gej_z <$> List.filter (fun p => negb (gej_infinity p)) a.

Definition ge_set_all_gej_var (r : list secp256k1_ge) (a : list secp256k1_gej) : list secp256k1_ge :=
  set_all_gej_loop r a (fe_inv_all_var (finite_z a)).

(** From the last entry back, scaling the inverse by the z-ratios. *)
Fixpoint set_table_back (zi : fe) (a : list secp256k1_gej) (zr : list fe) : list secp256k1_ge :=
  match a, zr with
  | a0 :: a, z :: zr => let zi := fe_mul zi z in ge_set_gej_zinv a0 zi :: set_table_back zi a zr
  | _, _ => []
  end.

Definition ge_set_table_gej_var (a : list secp256k1_gej) (zr : list fe) : list secp256k1_ge :=
  match rev a with
  | [] => []
  | al :: rest =>
      let zi := fe_inv (gej_z al) in
      rev (ge_set_gej_zinv al zi :: set_table_back zi rest (rev zr))
  end.

Definition gej_set_infinity : secp256k1_gej := mkGej fe_clear fe_clear fe_clear true.
Definition gej_clear : secp256k1_gej := mkGej fe_clear fe_clear fe_clear false.
Definition ge_clear : secp256k1_ge := mkGe fe_clear fe_clear false.

(** The point with the given [x] and a [y] that is a square, if there is one. *)
Definition ge_set_xquad (x : fe) : secp256k1_ge * bool :=
  let x2 := fe_sqr x in
  let x3 := fe_mul x x2 in
  let c := fe_add (fe_set_int CURVE_B) x3 in
  let '(y, ok) := fe_sqrt c in
  (mkGe x y false, ok).

Definition ge_set_xo_var (x : fe) (odd : bool) : option secp256k1_ge :=
  let '(r, ok) := ge_set_xquad x in
  if negb ok then None
  else
    let y := fe_normalize_var (ge_y r) in
    Some (mkGe x (if negb (Bool.eqb (fe_is_odd y) odd) then fe_negate y 1 else y) false).

Definition gej_set_ge (a : secp256k1_ge) : secp256k1_gej := mkGej (ge_x a) (ge_y a) (fe_set_int 1) (ge_infinity a).

Definition gej_eq_x_var (x : fe) (a : secp256k1_gej) : bool :=
  let r := fe_mul (fe_sqr (gej_z a)) x in
  fe_equal_var r (fe_normalize_weak (gej_x a)).

Definition gej_neg (a : secp256k1_gej) : secp256k1_gej :=
  mkGej (gej_x a) (fe_negate (fe_normalize_weak (gej_y a)) 1) (gej_z a) (gej_infinity a).

Definition gej_is_infinity (a : secp256k1_gej) : bool := gej_infinity a.

Definition gej_is_valid_var (a : secp256k1_gej) : bool :=
  if gej_infinity a then false
  else
    let y2 := fe_sqr (gej_y a) in
    let x3 := fe_mul (fe_sqr (gej_x a)) (gej_x a) in
    let z2 := fe_sqr (gej_z a) in
    let z6 := fe_mul (fe_sqr z2) z2 in
    let z6 := fe_mul_int z6 CURVE_B in
    let x3 := fe_normalize_weak (fe_add x3 z6) in
    fe_equal_var y2 x3.

Definition ge_is_valid_var (a : secp256k1_ge) : bool :=
  if ge_infinity a then false
  else
    let y2 := fe_sqr (ge_y a) in
    let x3 := fe_mul (fe_sqr (ge_x a)) (ge_x a) in
    let c := fe_set_int CURVE_B in
    let x3 := fe_normalize_weak (fe_add x3 c) in
    fe_equal_var y2 x3.

(** The table of points with a common denominator, and that denominator. *)
Fixpoint globalz_back (zs : fe) (a : list secp256k1_gej) (zr : list fe) : list secp256k1_ge :=
  match a, zr with
  | a0 :: a, z :: zr => ge_set_gej_zinv a0 zs :: globalz_back (fe_mul zs z) a zr
  | a0 :: _, [] => [ge_set_gej_zinv a0 zs]
  | [], _ => []
  end.

Definition ge_globalz_set_table_gej (a : list secp256k1_gej) (zr : list fe) : list secp256k1_ge * option fe :=
  match rev a, rev zr with
  | al :: rest, zs :: zr =>
      (rev (mkGe (gej_x al) (gej_y al) false :: globalz_back zs rest zr), Some (gej_z al))
  | _, _ => ([], None)
  end.

(** ** Doubling and additions *)

(** The second result is what is stored through [rzr] when it is not null. *)
Definition gej_double_var (r a : secp256k1_gej) : secp256k1_gej * fe :=
  if gej_infinity a then (mkGej (gej_x r) (gej_y r) (gej_z r) true, fe_set_int 1)
  else
    let rzr := fe_mul_int (fe_normalize_weak (gej_y a)) 2 in
    let rz := fe_mul_int (fe_mul (gej_z a) (gej_y a)) 2 in
    let t1 := fe_mul_int (fe_sqr (gej_x a)) 3 in
    let t2 := fe_sqr t1 in
    let t3 := fe_mul_int (fe_sqr (gej_y a)) 2 in
    let t4 := fe_mul_int (fe_sqr t3) 2 in
    let t3 := fe_mul t3 (gej_x a) in
    let rx := fe_mul_int t3 4 in
    let rx := fe_negate rx 4 in
    let rx := fe_add rx t2 in
    let t2 := fe_negate t2 1 in
    let t3 := fe_mul_int t3 6 in
    let t3 := fe_add t3 t2 in
    let ry := fe_mul t1 t3 in
    let t2 := fe_negate t4 2 in
    let ry := fe_add ry t2 in
    (mkGej rx ry rz false, rzr).

Definition gej_double_nonzero (r a : secp256k1_gej) : secp256k1_gej * fe := gej_double_var r a.

(** The end of the three variable-time additions, from [u1], [s1], [h] and [i]:
    the new [x] and [y]. *)
Definition add_finish (u1 s1 h i : fe) : fe * fe :=
  let i2 := fe_sqr i in
  let h2 := fe_sqr h in
  let h3 := fe_mul h h2 in
  let t := fe_mul u1 h2 in
  let rx := fe_mul_int t 2 in
  let rx := fe_add rx h3 in
  let rx := fe_negate rx 3 in
  let rx := fe_add rx i2 in
  let ry := fe_negate rx 5 in
  let ry := fe_add ry t in
  let ry := fe_mul ry i in
  let h3 := fe_mul h3 s1 in
  let h3 := fe_negate h3 1 in
  let ry := fe_add ry h3 in
  (rx, ry).

Definition gej_add_var (r a b : secp256k1_gej) : secp256k1_gej * option fe :=
  if gej_infinity a then (b, None)
  else if gej_infinity b then (a, Some (fe_set_int 1))
  else
    let z22 := fe_sqr (gej_z b) in
    let z12 := fe_sqr (gej_z a) in
    let u1 := fe_mul (gej_x a) z22 in
    let u2 := fe_mul (gej_x b) z12 in
    let s1 := fe_mul (fe_mul (gej_y a) z22) (gej_z b) in
    let s2 := fe_mul (fe_mul (gej_y b) z12) (gej_z a) in
    let h := fe_add (fe_negate u1 1) u2 in
    let i := fe_add (fe_negate s1 1) s2 in
    if fe_normalizes_to_zero_var h then
      if fe_normalizes_to_zero_var i then let '(d, rzr) := gej_double_var r a in (d, Some rzr)
      else (mkGej (gej_x r) (gej_y r) (gej_z r) true, Some (fe_set_int 0))
    else
      let '(rx, ry) := add_finish u1 s1 h i in
      let h := fe_mul h (gej_z b) in
      (mkGej rx ry (fe_mul (gej_z a) h) false, Some h).

Definition gej_add_ge_var (r a : secp256k1_gej) (b : secp256k1_ge) : secp256k1_gej * option fe :=
  if gej_infinity a then (gej_set_ge b, None)
  else if ge_infinity b then (a, Some (fe_set_int 1))
  else
    let z12 := fe_sqr (gej_z a) in
    let u1 := fe_normalize_weak (gej_x a) in
    let u2 := fe_mul (ge_x b) z12 in
    let s1 := fe_normalize_weak (gej_y a) in
    let s2 := fe_mul (fe_mul (ge_y b) z12) (gej_z a) in
    let h := fe_add (fe_negate u1 1) u2 in
    let i := fe_add (fe_negate s1 1) s2 in
    if fe_normalizes_to_zero_var h then
      if fe_normalizes_to_zero_var i then let '(d, rzr) := gej_double_var r a in (d, Some rzr)
      else (mkGej (gej_x r) (gej_y r) (gej_z r) true, Some (fe_set_int 0))
    else
      let '(rx, ry) := add_finish u1 s1 h i in
      (mkGej rx ry (fe_mul (gej_z a) h) false, Some h).

(** [b] is given with the inverse of its [z]. *)
Definition gej_add_zinv_var (r a : secp256k1_gej) (b : secp256k1_ge) (bzinv : fe) : secp256k1_gej :=
  if ge_infinity b then a
  else if gej_infinity a then
    let bzinv2 := fe_sqr bzinv in
    let bzinv3 := fe_mul bzinv2 bzinv in
    mkGej (fe_mul (ge_x b) bzinv2) (fe_mul (ge_y b) bzinv3) (fe_set_int 1) (ge_infinity b)
  else
    let az := fe_mul (gej_z a) bzinv in
    let z12 := fe_sqr az in
    let u1 := fe_normalize_weak (gej_x a) in
    let u2 := fe_mul (ge_x b) z12 in
    let s1 := fe_normalize_weak (gej_y a) in
    let s2 := fe_mul (fe_mul (ge_y b) z12) az in
    let h := fe_add (fe_negate u1 1) u2 in
    let i := fe_add (fe_negate s1 1) s2 in
    if fe_normalizes_to_zero_var h then
      if fe_normalizes_to_zero_var i then (gej_double_var r a).1
      else mkGej (gej_x r) (gej_y r) (gej_z r) true
    else
      let '(rx, ry) := add_finish u1 s1 h i in
      mkGej rx ry (fe_mul (gej_z a) h) false.

(** The constant-time addition: the unified formula of Brier and Joye, with the
    alternate slope where it is indeterminate. *)
Definition gej_add_ge (a : secp256k1_gej) (b : secp256k1_ge) : secp256k1_gej :=
  let zz := fe_sqr (gej_z a) in
  let u1 := fe_normalize_weak (gej_x a) in
  let u2 := fe_mul (ge_x b) zz in
  let s1 := fe_normalize_weak (gej_y a) in
  let s2 := fe_mul (ge_y b) zz in
  let s2 := fe_mul s2 (gej_z a) in
  let t := fe_add u1 u2 in
  let m := fe_add s1 s2 in
  let rr := fe_sqr t in
  let m_alt := fe_negate u2 1 in
  let tt := fe_mul u1 m_alt in
  let rr := fe_add rr tt in
  let degenerate := fe_normalizes_to_zero m && fe_normalizes_to_zero rr in
  let rr_alt := fe_mul_int s1 2 in
  let m_alt := fe_add m_alt u1 in
  let rr_alt := fe_cmov rr_alt rr (Z.b2z (negb degenerate)) in
  let m_alt := fe_cmov m_alt m (Z.b2z (negb degenerate)) in
  let n := fe_sqr m_alt in
  let q := fe_mul n t in
  let n := fe_sqr n in
  let n := fe_cmov n m (Z.b2z degenerate) in
  let t := fe_sqr rr_alt in
  let rz := fe_mul (gej_z a) m_alt in
  let infinity := fe_normalizes_to_zero rz && negb (gej_infinity a) in
  let rz := fe_mul_int rz 2 in
  let q := fe_negate q 1 in
  let t := fe_add t q in
  let t := fe_normalize_weak t in
  let rx := t in
  let t := fe_mul_int t 2 in
  let t := fe_add t q in
  let t := fe_mul t rr_alt in
  let t := fe_add t n in
  let ry := fe_negate t 3 in
  let ry := fe_normalize_weak ry in
  let rx := fe_mul_int rx 4 in
  let ry := fe_mul_int ry 4 in
  let rx := fe_cmov rx (ge_x b) (Z.b2z (gej_infinity a)) in
  let ry := fe_cmov ry (ge_y b) (Z.b2z (gej_infinity a)) in
  let rz := fe_cmov rz (fe_set_int 1) (Z.b2z (gej_infinity a)) in
  mkGej rx ry rz infinity.

Definition gej_rescale (r : secp256k1_gej) (s : fe) : secp256k1_gej :=
  let zz := fe_sqr s in
  mkGej (fe_mul (gej_x r) zz) (fe_mul (fe_mul (gej_y r) zz) s) (fe_mul (gej_z r) s) (gej_infinity r).

Definition gej_has_quad_y_var (a : secp256k1_gej) : bool :=
  if gej_infinity a then false
  else fe_is_quad_var (fe_mul (gej_y a) (gej_z a)).
End group.

Arguments secp256k1_ge : clear implicits.
Arguments secp256k1_gej : clear implicits.

(** ** The curve *)

Inductive point := Inf | Aff (x y : Fp).

#[global] Instance point_eq_dec : EqDecision point.
Proof. solve_decision. Defined.

Definition on_curve (P : point) : Prop :=
  match P with Inf => True | Aff x y => (y * y = x * x * x + fp 7)%F end.

#[global] Instance on_curve_dec P : Decision (on_curve P).
Proof. destruct P; apply _. Defined.

Definition pneg (P : point) : point := match P with Inf => Inf | Aff x y => Aff x (- y)%F end.

(** The point on the line of slope [l] through the first point. *)
Definition chord (l x1 y1 x2 : Fp) : point :=
  let x3 := (l * l - x1 - x2)%F in Aff x3 (l * (x1 - x3) - y1)%F.

Definition padd (P Q : point) : point :=
  match P, Q with
  | Inf, _ => Q
  | _, Inf => P
  | Aff x1 y1, Aff x2 y2 =>
      if decide (x1 = x2) then
        if decide (y1 = - y2)%F then Inf
        else chord ((fp 3 * x1 * x1) / (fp 2 * y1)) x1 y1 x2
      else chord ((y2 - y1) / (x2 - x1)) x1 y1 x2
  end.

Lemma minus_seven_not_cube : powmod secp_p (- 7) ((secp_p - 1) / 3) <> 1.
Proof. apply Z.eqb_neq. vm_compute. reflexivity. Qed.

(** No point of the curve has [y = 0], since [-7] is not a cube. *)
Lemma curve_y_nonzero x y : on_curve (Aff x y) -> y <> 0%F.
Proof.
  intros Hc ->. cbn in Hc. assert (x ^ 3 = - fp 7)%F as E.
  { change 3 with (Z.succ 2). rewrite Zmod.pow_succ_nonneg_r, Zmod.pow_2_r by lia.
    transitivity (x * x * x + fp 7 - fp 7)%F; [ring|]. rewrite <- Hc. ring. }
  destruct (decide (x = 0%F)) as [->|Hx].
  { apply (f_equal to_Z) in E. by vm_compute in E. }
  assert (x ^ Z.pred secp_p = 1)%F as Hf by by apply Zmod.fermat_nz, secp_p_prime.
  replace (Z.pred secp_p) with (3 * ((secp_p - 1) / 3)) in Hf by (vm_compute; reflexivity).
  rewrite Zmod.pow_mul_r_nonneg, E in Hf by nonneg. apply (f_equal to_Z) in Hf.
  rewrite <- Zmod.of_Z_opp, <- Zmod.of_Z_pow, Zmod.unsigned_of_Z, <- powmod_correct in Hf by (nonneg || done).
  by apply minus_seven_not_cube.
Qed.

(** The two roots have different parities. *)
Lemma odd_opp (y : Fp) : y <> 0%F -> Z.odd (to_Z (- y)%F) = negb (Z.odd (to_Z y)).
Proof.
  intros Hy. assert (to_Z y <> 0) as Hnz by (intros E0; apply Hy, Zmod.unsigned_inj; by rewrite E0).
  pose proof (Fp_range y). rewrite Zmod.unsigned_opp.
  rewrite <- (Z.mod_add _ 1), Z.mod_small by lia. rewrite Z.mul_1_l, Z.odd_add, Z.odd_opp.
  change (Z.odd secp_p) with true. by destruct (Z.odd (to_Z y)).
Qed.

(** A coordinate and a parity determine the point. *)
Lemma odd_determines x y y' :
  on_curve (Aff x y) -> on_curve (Aff x y') -> Z.odd (to_Z y) = Z.odd (to_Z y') -> y = y'.
Proof.
  intros E E' Ho. pose proof (curve_y_nonzero _ _ E') as Hy. cbn in E, E'. rewrite <- E' in E. rewrite <- !Zmod.pow_2_r in E.
  apply (Zmod.square_roots_opp_prime secp_p_prime) in E as [->| ->]; [done|].
  rewrite odd_opp in Ho by done. by destruct (Z.odd (to_Z y')).
Qed.

Lemma seven_not_square : powmod secp_p 7 ((secp_p - 1) / 2) <> 1.
Proof. apply Z.eqb_neq. vm_compute. reflexivity. Qed.

(** No point of the curve has [x = 0], since [7] is not a square. *)
Lemma curve_x_nonzero x y : on_curve (Aff x y) -> x <> 0%F.
Proof.
  intros Hc ->. pose proof (curve_y_nonzero _ _ Hc) as Hy. cbn in Hc. assert (y ^ 2 = fp 7)%F as E.
  { rewrite Zmod.pow_2_r, Hc. ring. }
  assert (y ^ Z.pred secp_p = 1)%F as Hf by by apply Zmod.fermat_nz, secp_p_prime.
  replace (Z.pred secp_p) with (2 * ((secp_p - 1) / 2)) in Hf by (vm_compute; reflexivity).
  rewrite Zmod.pow_mul_r_nonneg, E in Hf by nonneg. apply (f_equal to_Z) in Hf.
  rewrite <- Zmod.of_Z_pow, Zmod.unsigned_of_Z, <- powmod_correct in Hf by (nonneg || done).
  by apply seven_not_square.
Qed.

Lemma Fp_sub_0 (u v : Fp) : (u - v = 0)%F -> u = v.
Proof. intros E. transitivity (u - v + v)%F; [ring|rewrite E; ring]. Qed.

(** ** The law stays on the curve *)

(** [l] is the slope of the line through the first point that meets the curve at
    [x2] once more. *)
Lemma chord_on_curve (l x1 y1 x2 : Fp) : on_curve (Aff x1 y1) ->
  (l * (fp 2 * y1 + l * (x2 - x1)) = x2 * x2 + x1 * x2 + x1 * x1)%F -> on_curve (chord l x1 y1 x2).
Proof.
  cbn [on_curve chord]. intros Hc K. apply Fp_sub_0. set (x3 := (l * l - x1 - x2)%F).
  transitivity ((y1 * y1 - (x1 * x1 * x1 + fp 7))
    + (x3 - x1) * (l * (fp 2 * y1 + l * (x2 - x1)) - (x2 * x2 + x1 * x2 + x1 * x1)))%F; [unfold x3; ring|].
  rewrite K, Hc. ring.
Qed.

Lemma padd_on_curve P Q : on_curve P -> on_curve Q -> on_curve (padd P Q).
Proof.
  destruct P as [|x1 y1], Q as [|x2 y2]; try done. intros HP HQ. unfold padd. pose proof two_nonzero.
  destruct (decide (x1 = x2)) as [<-|Hx]; [destruct (decide _) as [|Hy]; [done|]|]; apply chord_on_curve; try done.
  - pose proof (curve_y_nonzero _ _ HP). field. done.
  - assert (x2 - x1 <> 0)%F as Hne by by intros E%Fp_sub_0.
    transitivity ((y2 * y2 - y1 * y1) / (x2 - x1))%F; [field; done|]. cbn [on_curve] in HP, HQ. rewrite HP, HQ. field. done.
Qed.

Lemma padd_comm P Q : on_curve P -> on_curve Q -> padd P Q = padd Q P.
Proof.
  destruct P as [|x1 y1], Q as [|x2 y2]; try done. intros HP HQ. unfold padd.
  destruct (decide (x1 = x2)) as [<-|Hx].
  - rewrite (decide_True _ _ eq_refl). cbn [on_curve] in HP, HQ. rewrite <- HQ, <- !Zmod.pow_2_r in HP.
    apply (Zmod.square_roots_opp_prime secp_p_prime) in HP as [->| ->]; [done|].
    by rewrite !decide_True by ring.
  - rewrite decide_False by congruence. assert (x2 - x1 <> 0)%F as H1 by by intros E%Fp_sub_0.
    assert (x1 - x2 <> 0)%F as H2 by by intros E%Fp_sub_0.
    unfold chord. f_equal; field; done.
Qed.

Lemma padd_neg P : on_curve P -> padd P (pneg P) = Inf.
Proof. destruct P as [|x y]; [done|]. intros _. cbn. by rewrite !decide_True by (done || ring). Qed.

(** ** Facts about field elements *)

Section facts.
Context {fe : Type} `{FieldLaws fe}.

(** An element of known magnitude and value; the laws compute the facts of the
    expressions the routines assign. *)
Definition fact (x : fe) (m : Z) (v : Fp) : Prop := fmag m x /\ fval x = v.

Lemma mul_fact a b m n u v : fact a m u -> fact b n v -> (m <=? 8) && (n <=? 8) = true -> fact (fe_mul a b) 1 (u * v)%F.
Proof.
  intros [Ha <-] [Hb <-] [Hm%Z.leb_le Hn%Z.leb_le]%andb_true_iff. apply mul_law; by eapply mag_le.
Qed.
Lemma sqr_fact a m u : fact a m u -> (m <=? 8) = true -> fact (fe_sqr a) 1 (u * u)%F.
Proof. intros [Ha <-] Hm%Z.leb_le. apply sqr_law. by eapply mag_le. Qed.
Lemma add_fact a b m n u v : fact a m u -> fact b n v -> (m + n <=? 32) = true -> fact (fe_add a b) (m + n) (u + v)%F.
Proof. intros [Ha <-] [Hb <-] Hm%Z.leb_le. by apply add_law. Qed.
Lemma negate_fact a m u k : fact a m u -> (m <=? k) && (0 <=? k) && (k <=? 31) = true -> fact (fe_negate a k) (k + 1) (- u)%F.
Proof.
  intros [Ha <-] [[Hm%Z.leb_le Hk%Z.leb_le]%andb_true_iff Hk'%Z.leb_le]%andb_true_iff.
  apply negate_law; [by eapply mag_le|done].
Qed.
Lemma mul_int_fact a m u k : fact a m u -> (0 <=? m) && (0 <=? k) && (m * k <=? 32) = true -> fact (fe_mul_int a k) (m * k) (fp k * u)%F.
Proof.
  intros [Ha <-] [[Hm%Z.leb_le Hk%Z.leb_le]%andb_true_iff Hk'%Z.leb_le]%andb_true_iff. by apply mul_int_law.
Qed.
Lemma weak_fact a m u : fact a m u -> (m <=? 32) = true -> fact (fe_normalize_weak a) 1 u.
Proof. intros [Ha <-] Hm%Z.leb_le. by apply (normalize_weak_law m). Qed.
Lemma set_int_fact k : (0 <=? k) && (k <=? 0x3FFFFFF) = true -> fact (fe_set_int k) 1 (fp k).
Proof.
  intros [Hm%Z.leb_le Hk%Z.leb_le]%andb_true_iff. destruct (set_int_law k) as [Hn E]; [done|].
  split; [by apply norm_mag|done].
Qed.
Lemma zero_fact a m u : fact a m u -> (m <=? 32) = true -> fe_normalizes_to_zero a = bool_decide (u = 0%F).
Proof. intros [Ha <-] Hm%Z.leb_le. by apply (to_zero_law m). Qed.
Lemma zero_var_fact a m u : fact a m u -> (m <=? 32) = true -> fe_normalizes_to_zero_var a = bool_decide (u = 0%F).
Proof. intros [Ha <-] Hm%Z.leb_le. by apply (to_zero_var_law m). Qed.
Lemma cmov_fact r a m n u v b : fact r m u -> fact a n v -> (m <=? 32) && (n <=? 32) = true ->
  fact (fe_cmov r a (Z.b2z b)) (Z.max m n) (if b then v else u).
Proof.
  intros [Hr <-] [Ha <-] [Hm%Z.leb_le Hn%Z.leb_le]%andb_true_iff. rewrite (cmov_law m n) by done.
  destruct b; (split; [eapply mag_le; [done|lia]|done]).
Qed.
Lemma fact_le a m n u : fact a m u -> (m <=? n) = true -> fact a n u.
Proof. intros [Ha <-] Hm%Z.leb_le. split; [by eapply mag_le|done]. Qed.
End facts.

Ltac fe_fact e :=
  lazymatch e with
  | fe_mul ?a ?b => let A := fe_fact a in let B := fe_fact b in constr:(mul_fact _ _ _ _ _ _ A B eq_refl)
  | fe_sqr ?a => let A := fe_fact a in constr:(sqr_fact _ _ _ A eq_refl)
  | fe_add ?a ?b => let A := fe_fact a in let B := fe_fact b in constr:(add_fact _ _ _ _ _ _ A B eq_refl)
  | fe_negate ?a ?k => let A := fe_fact a in constr:(negate_fact _ _ _ k A eq_refl)
  | fe_mul_int ?a ?k => let A := fe_fact a in constr:(mul_int_fact _ _ _ k A eq_refl)
  | fe_normalize_weak ?a => let A := fe_fact a in constr:(weak_fact _ _ _ A eq_refl)
  | fe_set_int ?k => constr:(set_int_fact k eq_refl)
  | fe_cmov ?r ?a (Z.b2z ?b) => let R := fe_fact r in let A := fe_fact a in constr:(cmov_fact _ _ _ _ _ _ b R A eq_refl)
  | _ => match goal with F : fact e _ _ |- _ => constr:(F) end
  end.

Ltac norm_fact F :=
  match type of F with fact _ ?m _ => let m' := eval vm_compute in m in change m with m' in F end.

(** The next assignment, with the fact about the variable it assigns. *)
Ltac fstep x :=
  let E := fresh "E" in let F := fresh "F" x in
  assign x E;
  match type of E with _ = ?e => let T := fe_fact e in pose proof T as F end;
  rewrite <- E in F; norm_fact F; clear E.

(** ** Jacobian points *)

Section jacobian.
Context {fe : Type} `{FieldLaws fe}.

Definition gej_ok (a : secp256k1_gej fe) : Prop := fmag 8 (gej_x a) /\ fmag 8 (gej_y a) /\ fmag 8 (gej_z a).
Definition ge_ok (a : secp256k1_ge fe) : Prop := fmag 8 (ge_x a) /\ fmag 8 (ge_y a).

(** The point a pair or a triple of field elements stands for. *)
Definition ge_rep (a : secp256k1_ge fe) (P : point) : Prop :=
  if ge_infinity a then P = Inf else ge_ok a /\ P = Aff (fval (ge_x a)) (fval (ge_y a)).

Definition jac (X Y Z : Fp) : point := Aff (X / (Z * Z))%F (Y / (Z * Z * Z))%F.

Definition gej_rep (a : secp256k1_gej fe) (P : point) : Prop :=
  if gej_infinity a then P = Inf
  else gej_ok a /\ fval (gej_z a) <> 0%F /\ P = jac (fval (gej_x a)) (fval (gej_y a)) (fval (gej_z a)).

Lemma fact_eq (x : fe) m u v : fact x m u -> u = v -> fact x m v.
Proof. by intros ? <-. Qed.

Lemma fact_refl x m : fmag m x -> fact x m (fval x).
Proof. done. Qed.

Lemma mul_nonzero (u v : Fp) : u <> 0%F -> v <> 0%F -> (u * v)%F <> 0%F.
Proof. intros Hu Hv [|]%(Zmod.mul_0_iff_prime secp_p_prime); done. Qed.

Lemma double_alg X Y Z : on_curve (jac X Y Z) -> Z <> 0%F -> Y <> 0%F ->
  padd (jac X Y Z) (jac X Y Z)
  = jac (- (fp 4 * (fp 2 * (Y * Y) * X)) + fp 3 * (X * X) * (fp 3 * (X * X)))
        (fp 3 * (X * X) * (fp 6 * (fp 2 * (Y * Y) * X) + - (fp 3 * (X * X) * (fp 3 * (X * X))))
         + - (fp 2 * (fp 2 * (Y * Y) * (fp 2 * (Y * Y)))))
        (fp 2 * (Z * Y)).
Proof.
  intros Hc HZ HY. unfold padd, jac. rewrite decide_True by done.
  rewrite decide_False by (intros E%opp_same; by apply curve_y_nonzero in Hc).
  unfold chord. pose proof two_nonzero. f_equal; field; auto.
Qed.

(** A finite result with its coordinates' facts. *)
Lemma gej_rep_intro x y z mx my mz X Y Z P :
  fact x mx X -> fact y my Y -> fact z mz Z -> (mx <=? 8) && (my <=? 8) && (mz <=? 8) = true ->
  Z <> 0%F -> P = jac X Y Z -> gej_rep (mkGej x y z false) P.
Proof.
  intros [Hx <-] [Hy <-] [Hz <-] [[H1%Z.leb_le H2%Z.leb_le]%andb_true_iff H3%Z.leb_le]%andb_true_iff Hnz ->.
  unfold gej_rep. cbn [gej_infinity gej_x gej_y gej_z]. split; [|done].
  by repeat split; cbn [gej_x gej_y gej_z]; eapply mag_le.
Qed.

Definition double_post (P : point) (d : secp256k1_gej fe * fe) : Prop := gej_rep d.1 (padd P P).

Lemma gej_double_var_spec r a P : gej_rep a P -> on_curve P -> double_post P (gej_double_var r a).
Proof.
  intros Ha Hc. unfold gej_rep in Ha. cbv beta delta [gej_double_var]. destruct (gej_infinity a); [by subst P|].
  destruct Ha as ((Hx & Hy & Hz) & Hnz & ->).
  apply fact_refl in Hx, Hy, Hz. set (X := fval (gej_x a)) in *. set (Y := fval (gej_y a)) in *. set (Z := fval (gej_z a)) in *.
  clearbody X Y Z.
  assert (Y <> 0%F) as HY.
  { intros ->. apply curve_y_nonzero in Hc. apply Hc. field. auto. }
  fstep rzr. fstep rz. fstep t1. fstep t2. fstep t3. fstep t4. fstep t3a. fstep rx1. fstep rx2. fstep rx3. fstep t2a.
  fstep t3b. fstep t3c. fstep ry1. fstep t2b. fstep ry2.
  eapply (gej_rep_intro _ _ _ _ _ _ _ _ _ _ Frx3 Fry2 Frz eq_refl); [by auto using mul_nonzero, two_nonzero|].
  by apply double_alg.
Qed.

(** ** The additions *)

Lemma jac_scale X Y Z k : k <> 0%F -> Z <> 0%F -> jac X Y Z = jac (X * (k * k))%F (Y * (k * k) * k)%F (Z * k)%F.
Proof. intros Hk HZ. unfold jac. f_equal; field; auto. Qed.

Lemma add_same (W u1 s1 u2 s2 : Fp) : (- u1 + u2 = 0)%F -> (- s1 + s2 = 0)%F -> jac u1 s1 W = jac u2 s2 W.
Proof.
  intros E1 E2. assert (u1 = u2) as -> by (transitivity (u2 - (- u1 + u2))%F; [ring|rewrite E1; ring]).
  by assert (s1 = s2) as -> by (transitivity (s2 - (- s1 + s2))%F; [ring|rewrite E2; ring]).
Qed.

(** Two points with the common denominator [W]: what [h] and [i] decide. *)
Section common.
Context (W u1 s1 u2 s2 : Fp) (HW : W <> 0%F).
Context (Hc1 : on_curve (jac u1 s1 W)) (Hc2 : on_curve (jac u2 s2 W)).

Lemma jac_x_eq : (u1 / (W * W) = u2 / (W * W))%F <-> (- u1 + u2 = 0)%F.
Proof.
  split; intros E.
  - transitivity ((u2 / (W * W) - u1 / (W * W)) * (W * W))%F; [field; auto|]. rewrite E. ring.
  - assert (u1 = u2) as ->; [|done]. transitivity (u2 - (- u1 + u2))%F; [ring|rewrite E; ring].
Qed.

Lemma add_opposite : (- u1 + u2 = 0)%F -> (- s1 + s2 <> 0)%F -> padd (jac u1 s1 W) (jac u2 s2 W) = Inf.
Proof.
  intros E1 E2. unfold padd, jac. rewrite decide_True by by apply jac_x_eq. rewrite decide_True; [done|].
  pose proof Hc1 as C1. pose proof Hc2 as C2. cbn [on_curve jac] in C1, C2.
  rewrite (proj2 jac_x_eq E1), <- C2 in C1. set (y1 := (s1 / (W * W * W))%F) in *. set (y2 := (s2 / (W * W * W))%F) in *.
  rewrite <- !Zmod.pow_2_r in C1. apply (Zmod.square_roots_opp_prime secp_p_prime) in C1 as [C1|C1]; [|done].
  exfalso. apply E2. transitivity ((y2 - y1) * (W * W * W))%F; [unfold y1, y2; field; auto|]. rewrite C1. ring.
Qed.

Lemma add_distinct : (- u1 + u2 <> 0)%F ->
  let h := (- u1 + u2)%F in let i := (- s1 + s2)%F in let t := (u1 * (h * h))%F in
  let rx := (- (fp 2 * t + h * (h * h)) + i * i)%F in
  padd (jac u1 s1 W) (jac u2 s2 W) = jac rx ((- rx + t) * i + - (h * (h * h) * s1))%F (W * h)%F.
Proof.
  intros Hh. cbv zeta. unfold jac at 1 2. unfold padd. rewrite decide_False by by rewrite jac_x_eq.
  unfold chord, jac. assert (u2 - u1 <> 0)%F by (intros E; apply Hh; rewrite <- E; ring).
  f_equal; field; split_and!; try done; intros E; apply Hh; rewrite <- E; ring.
Qed.
End common.

Definition finish_post (u1 s1 h i : Fp) (r : fe * fe) : Prop :=
  let t := (u1 * (h * h))%F in
  let rx := (- (fp 2 * t + h * (h * h)) + i * i)%F in
  fact r.1 5 rx /\ fact r.2 3 ((- rx + t) * i + - (h * (h * h) * s1))%F.

Lemma add_finish_post u1 s1 h i U1 S1 H' I :
  fact u1 1 U1 -> fact s1 1 S1 -> fact h 3 H' -> fact i 3 I -> finish_post U1 S1 H' I (add_finish u1 s1 h i).
Proof.
  intros Fu1 Fs1 Fh Fi. cbv beta delta [add_finish].
  fstep i2. fstep h2. fstep h3. fstep t. fstep rx1. fstep rx2. fstep rx3. fstep rx4. fstep ry1. fstep ry2. fstep ry3.
  fstep h3a. fstep h3b. fstep ry4. done.
Qed.

(** The end of each addition: [h] and [i] decide between the doubling, the point at
    infinity and the chord. *)
Lemma add_cases (r a : secp256k1_gej fe) P Q W U1 S1 U2 S2 u1 s1 h i (d : secp256k1_gej fe) z :
  gej_rep a P -> on_curve P -> on_curve Q -> W <> 0%F -> P = jac U1 S1 W -> Q = jac U2 S2 W ->
  fact u1 1 U1 -> fact s1 1 S1 -> fact h 3 (- U1 + U2)%F -> fact i 3 (- S1 + S2)%F ->
  ((- U1 + U2 <> 0)%F -> fact z 1 (W * (- U1 + U2))%F) ->
  d = (if fe_normalizes_to_zero_var h then
         if fe_normalizes_to_zero_var i then (gej_double_var r a).1 else mkGej (gej_x r) (gej_y r) (gej_z r) true
       else mkGej (add_finish u1 s1 h i).1 (add_finish u1 s1 h i).2 z false) ->
  gej_rep d (padd P Q).
Proof.
  intros Ha HcP HcQ HW EP EQ Fu1 Fs1 Fh Fi Fz ->.
  rewrite (zero_var_fact _ _ _ Fh eq_refl), (zero_var_fact _ _ _ Fi eq_refl).
  case_bool_decide as Eh; [case_bool_decide as Ei|].
  - rewrite EQ, <- (add_same _ _ _ _ _ Eh Ei), <- EP. by apply gej_double_var_spec.
  - rewrite EP, EQ in *. by rewrite add_opposite.
  - destruct (add_finish_post _ _ _ _ _ _ _ _ Fu1 Fs1 Fh Fi) as [Fx Fy]. specialize (Fz Eh).
    eapply (gej_rep_intro _ _ _ _ _ _ _ _ _ _ Fx Fy Fz eq_refl); [by apply mul_nonzero|].
    rewrite EP, EQ in *. by rewrite add_distinct.
Qed.

Ltac solve_fact :=
  match goal with |- fact ?e _ _ => let T := fe_fact e in first [exact T | eapply fact_eq; [exact T|ring]] end.

Ltac add_branches r a :=
  destruct (fe_normalizes_to_zero_var _); [destruct (fe_normalizes_to_zero_var _); [by destruct (gej_double_var r a)|done]|];
  by destruct (add_finish _ _ _ _).

(** The facts of the coordinates of finite points. *)
Lemma gej_finite a P : gej_rep a P -> gej_infinity a = false ->
  exists X Y Z, fact (gej_x a) 8 X /\ fact (gej_y a) 8 Y /\ fact (gej_z a) 8 Z /\ Z <> 0%F /\ P = jac X Y Z.
Proof. unfold gej_rep. intros Ha E. rewrite E in Ha. destruct Ha as ((Hx & Hy & Hz) & HZ & EP). by do 3 eexists. Qed.

Lemma ge_finite b Q : ge_rep b Q -> ge_infinity b = false ->
  exists X Y, fact (ge_x b) 8 X /\ fact (ge_y b) 8 Y /\ Q = Aff X Y.
Proof. unfold ge_rep. intros Hb E. rewrite E in Hb. destruct Hb as ((Hx & Hy) & EQ). by do 2 eexists. Qed.

Lemma gej_rep_inf a P : gej_rep a P -> gej_infinity a = true -> P = Inf.
Proof. unfold gej_rep. intros Ha E. by rewrite E in Ha. Qed.
Lemma ge_rep_inf b Q : ge_rep b Q -> ge_infinity b = true -> Q = Inf.
Proof. unfold ge_rep. intros Ha E. by rewrite E in Ha. Qed.

Lemma padd_inf_r P : padd P Inf = P.
Proof. by destruct P. Qed.

Lemma gej_set_ge_spec b Q : ge_rep b Q -> gej_rep (gej_set_ge b) Q.
Proof.
  intros Hb. destruct (ge_infinity b) eqn:Ib.
  { rewrite (ge_rep_inf _ _ Hb Ib). unfold gej_rep, gej_set_ge. cbn [gej_infinity]. by rewrite Ib. }
  destruct (ge_finite _ _ Hb Ib) as (X & Y & Fx & Fy & ->). unfold gej_set_ge. rewrite Ib.
  eapply (gej_rep_intro _ _ _ _ _ _ _ _ _ _ Fx Fy (set_int_fact 1 eq_refl) eq_refl); [by apply Zmod.one_neq_zero|].
  unfold jac. f_equal; field; by apply Zmod.one_neq_zero.
Qed.

Lemma gej_add_var_spec r a b P Q : gej_rep a P -> gej_rep b Q -> on_curve P -> on_curve Q ->
  gej_rep (gej_add_var r a b).1 (padd P Q).
Proof.
  intros Ha Hb HcP HcQ. destruct (gej_infinity a) eqn:Ia.
  { rewrite (gej_rep_inf _ _ Ha Ia). unfold gej_add_var. by rewrite Ia. }
  destruct (gej_infinity b) eqn:Ib.
  { rewrite (gej_rep_inf _ _ Hb Ib), padd_inf_r. unfold gej_add_var. by rewrite Ia, Ib. }
  destruct (gej_finite _ _ Ha Ia) as (X1 & Y1 & Z1 & Fx1 & Fy1 & Fz1 & HZ1 & EP).
  destruct (gej_finite _ _ Hb Ib) as (X2 & Y2 & Z2 & Fx2 & Fy2 & Fz2 & HZ2 & EQ).
  eapply (add_cases r a P Q (Z1 * Z2) (X1 * (Z2 * Z2)) (Y1 * (Z2 * Z2) * Z2) (X2 * (Z1 * Z1)) (Y2 * (Z1 * Z1) * Z1)
    (fe_mul (gej_x a) (fe_sqr (gej_z b))) (fe_mul (fe_mul (gej_y a) (fe_sqr (gej_z b))) (gej_z b))
    (fe_add (fe_negate (fe_mul (gej_x a) (fe_sqr (gej_z b))) 1) (fe_mul (gej_x b) (fe_sqr (gej_z a))))
    (fe_add (fe_negate (fe_mul (fe_mul (gej_y a) (fe_sqr (gej_z b))) (gej_z b)) 1)
       (fe_mul (fe_mul (gej_y b) (fe_sqr (gej_z a))) (gej_z a))) _
    (fe_mul (gej_z a) (fe_mul (fe_add (fe_negate (fe_mul (gej_x a) (fe_sqr (gej_z b))) 1) (fe_mul (gej_x b) (fe_sqr (gej_z a)))) (gej_z b)))); try done.
  all: try solve_fact.
  - by apply mul_nonzero.
  - rewrite EP. by apply jac_scale.
  - rewrite EQ, (Zmod.mul_comm Z1 Z2). by apply jac_scale.
  - intros _. solve_fact.
  - unfold gej_add_var. rewrite Ia, Ib. cbv zeta. 
    add_branches r a.
Qed.

Lemma gej_add_ge_var_spec r a b P Q : gej_rep a P -> ge_rep b Q -> on_curve P -> on_curve Q ->
  gej_rep (gej_add_ge_var r a b).1 (padd P Q).
Proof.
  intros Ha Hb HcP HcQ. destruct (gej_infinity a) eqn:Ia.
  { rewrite (gej_rep_inf _ _ Ha Ia). unfold gej_add_ge_var. rewrite Ia. by apply gej_set_ge_spec. }
  destruct (ge_infinity b) eqn:Ib.
  { rewrite (ge_rep_inf _ _ Hb Ib), padd_inf_r. unfold gej_add_ge_var. by rewrite Ia, Ib. }
  destruct (gej_finite _ _ Ha Ia) as (X1 & Y1 & Z1 & Fx1 & Fy1 & Fz1 & HZ1 & EP).
  destruct (ge_finite _ _ Hb Ib) as (X2 & Y2 & Fx2 & Fy2 & EQ).
  eapply (add_cases r a P Q Z1 X1 Y1 (X2 * (Z1 * Z1)) (Y2 * (Z1 * Z1) * Z1)
    (fe_normalize_weak (gej_x a)) (fe_normalize_weak (gej_y a))
    (fe_add (fe_negate (fe_normalize_weak (gej_x a)) 1) (fe_mul (ge_x b) (fe_sqr (gej_z a))))
    (fe_add (fe_negate (fe_normalize_weak (gej_y a)) 1) (fe_mul (fe_mul (ge_y b) (fe_sqr (gej_z a))) (gej_z a))) _
    (fe_mul (gej_z a) (fe_add (fe_negate (fe_normalize_weak (gej_x a)) 1) (fe_mul (ge_x b) (fe_sqr (gej_z a)))))); try done.
  all: try solve_fact.
  - rewrite EQ. unfold jac. f_equal; field; done.
  - intros _. solve_fact.
  - unfold gej_add_ge_var. rewrite Ia, Ib. cbv zeta. add_branches r a.
Qed.

(** [b] together with the inverse of its denominator. *)
Definition ge_zinv_rep (b : secp256k1_ge fe) (bzinv : fe) (Q : point) : Prop :=
  fmag 8 bzinv /\
  if ge_infinity b then Q = Inf
  else ge_ok b /\ Q = Aff (fval (ge_x b) * (fval bzinv * fval bzinv))%F (fval (ge_y b) * (fval bzinv * fval bzinv * fval bzinv))%F.

Lemma gej_add_zinv_var_spec r a b bzinv P Q :
  gej_rep a P -> ge_zinv_rep b bzinv Q -> on_curve P -> on_curve Q -> gej_rep (gej_add_zinv_var r a b bzinv) (padd P Q).
Proof.
  intros Ha [Fi Hb] HcP HcQ. apply fact_refl in Fi. unfold gej_add_zinv_var. destruct (ge_infinity b) eqn:Ib.
  { by rewrite Hb, padd_inf_r. }
  destruct Hb as ((Fx2%fact_refl & Fy2%fact_refl) & EQ).
  set (X2 := fval (ge_x b)) in *. set (Y2 := fval (ge_y b)) in *. set (B := fval bzinv) in *. clearbody X2 Y2 B.
  destruct (gej_infinity a) eqn:Ia.
  { rewrite (gej_rep_inf _ _ Ha Ia). cbv zeta.
    eapply (gej_rep_intro _ _ _ 1 1 1 (X2 * (B * B)) (Y2 * (B * B * B)) (fp 1));
      try solve_fact; [done|by apply Zmod.one_neq_zero|].
    rewrite EQ. unfold jac. cbn [padd]. f_equal; field; by apply Zmod.one_neq_zero. }
  destruct (gej_finite _ _ Ha Ia) as (X1 & Y1 & Z1 & Fx1 & Fy1 & Fz1 & HZ1 & EP). cbv zeta.
  eapply (add_cases r a P Q Z1 X1 Y1 (X2 * (Z1 * B * (Z1 * B))) (Y2 * (Z1 * B * (Z1 * B)) * (Z1 * B))
    (fe_normalize_weak (gej_x a)) (fe_normalize_weak (gej_y a))
    (fe_add (fe_negate (fe_normalize_weak (gej_x a)) 1) (fe_mul (ge_x b) (fe_sqr (fe_mul (gej_z a) bzinv))))
    (fe_add (fe_negate (fe_normalize_weak (gej_y a)) 1)
       (fe_mul (fe_mul (ge_y b) (fe_sqr (fe_mul (gej_z a) bzinv))) (fe_mul (gej_z a) bzinv))) _
    (fe_mul (gej_z a) (fe_add (fe_negate (fe_normalize_weak (gej_x a)) 1)
       (fe_mul (ge_x b) (fe_sqr (fe_mul (gej_z a) bzinv)))))); try done.
  all: try solve_fact.
  - rewrite EQ. unfold jac. f_equal; field; done.
  - intros _. solve_fact.
Qed.

(** ** The constant-time addition *)

(** The line of slope [ralt / (malt * W)] through both points. *)
Lemma unified_chord W U1 S1 U2 S2 ralt malt :
  W <> 0%F -> malt <> 0%F -> (ralt * (U1 - U2) = malt * (S1 - S2))%F ->
  let T := (U1 + U2)%F in let Q := (malt * malt * T)%F in let x3 := (ralt * ralt + - Q)%F in
  chord (ralt / (malt * W)) (U1 / (W * W)) (S1 / (W * W * W)) (U2 / (W * W))
  = jac (fp 4 * x3) (fp 4 * - ((fp 2 * x3 + - Q) * ralt + malt * malt * malt * (S1 + S2))) (fp 2 * (W * malt)).
Proof.
  intros HW Hm E. cbv zeta. pose proof two_nonzero.
  assert (S1 = S2 + ralt * (U1 - U2) / malt)%F as ->.
  { transitivity (S2 + malt * (S1 - S2) / malt)%F; [field; done|]. by rewrite E. }
  unfold chord, jac. f_equal; field; auto.
Qed.

Lemma jac_on_curve W U S : W <> 0%F -> on_curve (jac U S W) -> (S * S = U * U * U + fp 7 * (W * W * W * (W * W * W)))%F.
Proof.
  intros HW Hc. cbn in Hc. transitivity (S / (W * W * W) * (S / (W * W * W)) * (W * W * W * (W * W * W)))%F; [field; done|].
  rewrite Hc. field. done.
Qed.

Section unified.
Context (W U1 S1 U2 S2 : Fp) (HW : W <> 0%F).
Context (Hc1 : on_curve (jac U1 S1 W)) (Hc2 : on_curve (jac U2 S2 W)).

Let R := ((U1 + U2) * (U1 + U2) + U1 * - U2)%F.
Let M := (S1 + S2)%F.

Lemma slope_relation : (R * (U1 - U2) = M * (S1 - S2))%F.
Proof.
  pose proof (jac_on_curve _ _ _ HW Hc1) as E1. pose proof (jac_on_curve _ _ _ HW Hc2) as E2. unfold R, M.
  transitivity (S1 * S1 - S2 * S2)%F; [rewrite E1, E2|]; ring.
Qed.

(** Opposite points are where both slopes have no denominator. *)
Lemma unified_inf : (M = 0%F /\ R <> 0%F) \/ (M = 0%F /\ U1 = U2) -> padd (jac U1 S1 W) (jac U2 S2 W) = Inf.
Proof.
  intros HM. assert (M = 0%F /\ U1 = U2) as [EM ->].
  { destruct HM as [[EM HR]|]; [|done]. split; [done|]. pose proof slope_relation as E. rewrite EM in E.
    assert (R * (U1 - U2) = 0)%F as E' by (rewrite E; ring).
    apply (Zmod.mul_0_iff_prime secp_p_prime) in E' as [|E']; [done|by apply Fp_sub_0]. }
  unfold padd, jac. rewrite decide_True by done. rewrite decide_True; [done|].
  assert (S1 = - S2)%F as -> by (apply Fp_sub_0; rewrite <- EM; unfold M; ring). field. done.
Qed.

Lemma padd_same_x : U1 = U2 -> M <> 0%F -> S1 = S2.
Proof.
  intros E HM. pose proof slope_relation as Hs. apply Fp_sub_0.
  assert (M * (S1 - S2) = 0)%F as E' by (rewrite <- Hs, E; ring).
  by apply (Zmod.mul_0_iff_prime secp_p_prime) in E' as [|].
Qed.

Lemma quot_cancel (u v : Fp) : (u / (W * W) = v / (W * W))%F -> u = v.
Proof.
  intros E. transitivity (u / (W * W) * (W * W))%F; [field; done|]. rewrite E. field. done.
Qed.

(** The unified slope, where it is defined. *)
Lemma padd_unified : M <> 0%F ->
  padd (jac U1 S1 W) (jac U2 S2 W) = chord (R / (M * W)) (U1 / (W * W)) (S1 / (W * W * W)) (U2 / (W * W)).
Proof.
  intros HM. pose proof two_nonzero. unfold padd, jac. destruct (decide _) as [Ex%quot_cancel|Ex].
  - pose proof (padd_same_x Ex HM) as Es. rewrite decide_False.
    + unfold chord. assert (S2 <> 0%F) by (intros E0; apply HM; unfold M; rewrite Es, E0; ring).
      assert (R / (M * W) = fp 3 * (U1 / (W * W)) * (U1 / (W * W)) / (fp 2 * (S1 / (W * W * W))))%F as ->; [|done].
      unfold R, M. rewrite Ex, Es. field. split_and!; try done.
      intros E0. apply HM. unfold M. rewrite Es, <- E0. ring.
    + intros Ey%(f_equal (fun y => y * (W * W * W))%F). apply HM. unfold M.
      transitivity (S1 / (W * W * W) * (W * W * W) + S2)%F; [field; done|]. rewrite Ey. field. done.
  - assert (U1 - U2 <> 0)%F as Hne by (intros E0%Fp_sub_0; by rewrite E0 in Ex).
    assert ((S2 / (W * W * W) - S1 / (W * W * W)) / (U2 / (W * W) - U1 / (W * W)) = R / (M * W))%F as ->; [|done].
    assert (R = M * (S1 - S2) / (U1 - U2))%F as ER.
    { rewrite <- slope_relation. field. done. }
    rewrite ER. field. split_and!; try done. intros E0. apply Hne. transitivity (- (U2 - U1))%F; [ring|]. rewrite E0. ring.
Qed.

(** The alternate slope. *)
Lemma padd_alternate : M = 0%F -> U1 <> U2 ->
  padd (jac U1 S1 W) (jac U2 S2 W)
  = chord (fp 2 * S1 / ((- U2 + U1) * W)) (U1 / (W * W)) (S1 / (W * W * W)) (U2 / (W * W)).
Proof.
  intros HM HU. unfold padd, jac. rewrite decide_False by by intros ?%quot_cancel.
  assert (S2 = - S1)%F as -> by (apply Fp_sub_0; rewrite <- HM; unfold M; ring).
  assert (U1 - U2 <> 0)%F as Hne by by intros E0%Fp_sub_0.
  assert ((- S1 / (W * W * W) - S1 / (W * W * W)) / (U2 / (W * W) - U1 / (W * W)) = fp 2 * S1 / ((- U2 + U1) * W))%F as ->; [|done].
  assert (U2 - U1 <> 0 /\ - U2 + U1 <> 0)%F as [H1 H2].
  { split; intros E0; apply Hne; [transitivity (- (U2 - U1))%F; [ring|]; rewrite E0; ring|rewrite <- E0; ring]. }
  field. done.
Qed.
End unified.

(** What the straight-line part computes: the coordinates with [ralt] and [malt]
    chosen by [deg], and the flag. *)
Definition add_ge_post (inf : bool) (X2 Y2 W U1 S1 U2 S2 : Fp) (r : secp256k1_gej fe) : Prop :=
  let R := ((U1 + U2) * (U1 + U2) + U1 * - U2)%F in let M := (S1 + S2)%F in
  let deg := bool_decide (M = 0%F) && bool_decide (R = 0%F) in
  let ralt := if negb deg then R else (fp 2 * S1)%F in
  let malt := if negb deg then M else (- U2 + U1)%F in
  let Q := (malt * malt * (U1 + U2))%F in
  let n := if deg then M else (malt * malt * (malt * malt))%F in
  let x3 := (ralt * ralt + - Q)%F in
  fact (gej_x r) 8 (if inf then X2 else fp 4 * x3)%F /\
  fact (gej_y r) 8 (if inf then Y2 else fp 4 * - ((fp 2 * x3 + - Q) * ralt + n))%F /\
  fact (gej_z r) 2 (if inf then fp 1 else fp 2 * (W * malt))%F /\
  gej_infinity r = bool_decide (W * malt = 0)%F && negb inf.

Lemma gej_add_ge_post a b X1 Y1 Z1 X2 Y2 :
  fact (gej_x a) 8 X1 -> fact (gej_y a) 8 Y1 -> fact (gej_z a) 8 Z1 -> fact (ge_x b) 8 X2 -> fact (ge_y b) 8 Y2 ->
  add_ge_post (gej_infinity a) X2 Y2 Z1 X1 Y1 (X2 * (Z1 * Z1)) (Y2 * (Z1 * Z1) * Z1) (gej_add_ge a b).
Proof.
  intros Fx1 Fy1 Fz1 Fx2 Fy2. cbv beta delta [gej_add_ge].
  fstep zz. fstep u1. fstep u2. fstep s1. fstep s2. fstep s2a. fstep t. fstep m. fstep rr. fstep malt0. fstep tt0. fstep rr1.
  assign deg E. rewrite (zero_fact _ _ _ Fm eq_refl), (zero_fact _ _ _ Frr1 eq_refl) in E.
  fstep ralt0. fstep malt1. fstep ralt. fstep malt. fstep n. fstep q. fstep n1. fstep n2. fstep t1. fstep rz.
  assign inf E'. rewrite (zero_fact _ _ _ Frz eq_refl) in E'.
  fstep rz1. fstep q1. fstep t2. fstep t3. assign rx E''. subst rx.
  fstep t4. fstep t5. fstep t6. fstep t7. fstep ry. fstep ry1. fstep rx1. fstep ry2. fstep rx2. fstep ry3. fstep rz2.
  unfold add_ge_post. cbv zeta. rewrite <- E. cbn [gej_x gej_y gej_z gej_infinity]. rewrite E'. split_and!; done.
Qed.

Lemma gej_rep_facts r P mx my mz X Y Z :
  fact (gej_x r) mx X -> fact (gej_y r) my Y -> fact (gej_z r) mz Z -> (mx <=? 8) && (my <=? 8) && (mz <=? 8) = true ->
  gej_infinity r = false -> Z <> 0%F -> P = jac X Y Z -> gej_rep r P.
Proof.
  intros Fx Fy Fz Hm Ei HZ EP. replace r with (mkGej (gej_x r) (gej_y r) (gej_z r) false) by (destruct r; cbn in *; congruence).
  by eapply (gej_rep_intro _ _ _ _ _ _ _ _ _ _ Fx Fy Fz Hm).
Qed.

Lemma gej_add_ge_spec a b P Q : gej_ok a -> gej_rep a P -> ge_rep b Q -> ge_infinity b = false -> on_curve P -> on_curve Q ->
  gej_rep (gej_add_ge a b) (padd P Q).
Proof.
  intros (Hx & Hy & Hz) Ha Hb Ib HcP HcQ. destruct (ge_finite _ _ Hb Ib) as (X2 & Y2 & Fx2 & Fy2 & EQ).
  pose proof (gej_add_ge_post a b _ _ _ _ _ (fact_refl _ _ Hx) (fact_refl _ _ Hy) (fact_refl _ _ Hz) Fx2 Fy2) as Hp.
  set (X1 := fval (gej_x a)) in *. set (Y1 := fval (gej_y a)) in *. set (Z1 := fval (gej_z a)) in *.
  destruct Hp as (Fx & Fy & Fz & Ei). destruct (gej_infinity a) eqn:Ia.
  { rewrite (gej_rep_inf _ _ Ha Ia), EQ. rewrite andb_false_r in Ei.
    eapply (gej_rep_facts _ _ _ _ _ _ _ _ Fx Fy Fz eq_refl Ei); [by apply Zmod.one_neq_zero|].
    unfold jac. cbn [padd]. f_equal; field; by apply Zmod.one_neq_zero. }
  unfold gej_rep in Ha. rewrite Ia in Ha. destruct Ha as (_ & HZ & EP). fold X1 Y1 Z1 in EP, HZ.
  assert (Q = jac (X2 * (Z1 * Z1)) (Y2 * (Z1 * Z1) * Z1) Z1) as EQ' by (rewrite EQ; unfold jac; f_equal; field; done).
  set (U2 := (X2 * (Z1 * Z1))%F) in *. set (S2 := (Y2 * (Z1 * Z1) * Z1)%F) in *. clearbody X1 Y1 Z1 U2 S2.
  subst P. rewrite EQ' in *. clear EQ EQ' Fx2 Fy2. rewrite andb_true_r in Ei. pose proof two_nonzero.
  set (R := ((X1 + U2) * (X1 + U2) + X1 * - U2)%F) in *. set (M := (Y1 + S2)%F) in *.
  revert Fx Fy Fz Ei. destruct (bool_decide_reflect (M = 0%F)) as [EM|EM]; [destruct (bool_decide_reflect (R = 0%F)) as [ER|ER]|];
    cbn [andb negb]; intros Fx Fy Fz Ei.
  - destruct (decide (X1 = U2)) as [EU|NU].
    { rewrite (unified_inf Z1 X1 Y1 U2 S2) by (auto). unfold gej_rep. rewrite Ei, bool_decide_eq_true_2; [done|]. rewrite EU. ring. }
    assert (- U2 + X1 <> 0)%F as Hm by (intros E0; apply NU, Fp_sub_0; rewrite <- E0; ring).
    rewrite bool_decide_eq_false_2 in Ei by by apply mul_nonzero.
    eapply (gej_rep_facts _ _ _ _ _ _ _ _ Fx Fy Fz eq_refl Ei); [by auto using mul_nonzero|].
    rewrite (padd_alternate Z1 X1 Y1 U2 S2) by done. rewrite (unified_chord Z1 X1 Y1 U2 S2); [|done|done|].
    + cbv zeta. fold M. rewrite EM. f_equal; ring.
    + assert (S2 = - Y1)%F as -> by (apply Fp_sub_0; rewrite <- EM; unfold M; ring). ring.
  - rewrite (unified_inf Z1 X1 Y1 U2 S2) by auto. unfold gej_rep. rewrite Ei, bool_decide_eq_true_2; [done|]. rewrite EM. ring.
  - rewrite bool_decide_eq_false_2 in Ei by by apply mul_nonzero.
    eapply (gej_rep_facts _ _ _ _ _ _ _ _ Fx Fy Fz eq_refl Ei); [by auto using mul_nonzero|].
    rewrite (padd_unified Z1 X1 Y1 U2 S2) by done. rewrite (unified_chord Z1 X1 Y1 U2 S2); [|done|done|by apply (slope_relation Z1)].
    cbv zeta. unfold M, R. f_equal; ring.
Qed.

(** ** Negation, rescaling and the conversions *)

Lemma gej_neg_spec a P : gej_rep a P -> gej_rep (gej_neg a) (pneg P).
Proof.
  intros Ha. destruct (gej_infinity a) eqn:Ia.
  { rewrite (gej_rep_inf _ _ Ha Ia). unfold gej_rep, gej_neg. cbn [gej_infinity]. by rewrite Ia. }
  destruct (gej_finite _ _ Ha Ia) as (X & Y & Z & Fx & Fy & Fz & HZ & ->). unfold gej_neg. rewrite Ia.
  eapply (gej_rep_intro _ _ _ 8 2 8 X (- Y) Z); try done; try solve_fact.
  unfold jac. cbn [pneg]. f_equal. field. done.
Qed.

Lemma ge_neg_spec b Q : ge_rep b Q -> ge_rep (ge_neg b) (pneg Q).
Proof.
  intros Hb. destruct (ge_infinity b) eqn:Ib.
  { rewrite (ge_rep_inf _ _ Hb Ib). unfold ge_rep, ge_neg. cbn [ge_infinity]. by rewrite Ib. }
  destruct (ge_finite _ _ Hb Ib) as (X & Y & Fx & Fy & ->). unfold ge_rep, ge_neg. cbn [ge_infinity]. rewrite Ib.
  assert (fact (fe_negate (fe_normalize_weak (ge_y b)) 1) 2 (- Y)%F) as [Hy Ey] by solve_fact. destruct Fx as [Hx Ex].
  split; [split; [done|by eapply mag_le]|]. cbn [ge_x ge_y pneg]. by rewrite Ex, Ey.
Qed.

Lemma gej_rescale_spec a k P : gej_rep a P -> fmag 8 k -> fval k <> 0%F -> gej_rep (gej_rescale a k) P.
Proof.
  intros Ha Fk%fact_refl Hk. destruct (gej_infinity a) eqn:Ia.
  { rewrite (gej_rep_inf _ _ Ha Ia). unfold gej_rep, gej_rescale. cbn [gej_infinity]. by rewrite Ia. }
  destruct (gej_finite _ _ Ha Ia) as (X & Y & Z & Fx & Fy & Fz & HZ & ->). unfold gej_rescale. rewrite Ia.
  set (K := fval k) in *. clearbody K.
  eapply (gej_rep_intro _ _ _ 1 1 1 (X * (K * K)) (Y * (K * K) * K) (Z * K)); try done; try solve_fact.
  - by apply mul_nonzero.
  - by apply jac_scale.
Qed.

(** Affine coordinates from the inverse of the denominator. *)
Lemma ge_set_gej_zinv_spec a zi P :
  gej_rep a P -> gej_infinity a = false -> inverse_of (gej_z a) zi -> ge_rep (ge_set_gej_zinv a zi) P.
Proof.
  intros Ha Ia [Hi Ei]. destruct (gej_finite _ _ Ha Ia) as (X & Y & Z & Fx & Fy & Fz & HZ & ->).
  unfold ge_rep, ge_set_gej_zinv. cbn [ge_infinity]. rewrite Ia. apply fact_refl in Hi. set (I := fval zi) in *. clearbody I.
  destruct Fz as [_ Ez]. rewrite Ez in Ei.
  assert (fact (fe_mul (gej_x a) (fe_sqr zi)) 1 (X * (I * I))%F) as [Hx Ex] by solve_fact.
  assert (fact (fe_mul (gej_y a) (fe_mul (fe_sqr zi) zi)) 1 (Y * (I * I * I))%F) as [Hy Ey] by solve_fact.
  split; [by split; eapply mag_le|]. cbn [ge_x ge_y]. rewrite Ex, Ey.
  assert (I = 1 / Z)%F as -> by (transitivity (Z * I / Z)%F; [field; done|by rewrite Ei]).
  unfold jac. f_equal; field; done.
Qed.

Lemma ge_set_gej_spec a P : gej_rep a P -> ge_rep (ge_set_gej a).1 P /\ (gej_infinity a = false -> gej_rep (ge_set_gej a).2 P).
Proof.
  intros Ha. destruct (gej_infinity a) eqn:Ia.
  { rewrite (gej_rep_inf _ _ Ha Ia). unfold ge_rep, ge_set_gej. cbn. by rewrite Ia. }
  destruct (gej_finite _ _ Ha Ia) as (X & Y & Z & Fx & Fy & Fz & HZ & EP).
  destruct (fe_inv_spec (gej_z a)) as [Fi%fact_refl Ei]; [by destruct Fz|].
  unfold ge_set_gej. cbv zeta. cbn [fst snd]. rewrite Ia. set (zi := fe_inv (gej_z a)) in *. set (I := fval zi) in *.
  clearbody I. clearbody zi.
  assert (fact (fe_mul (gej_x a) (fe_sqr zi)) 1 (X * (I * I))%F) as Fx' by solve_fact.
  assert (fact (fe_mul (gej_y a) (fe_mul zi (fe_sqr zi))) 1 (Y * (I * (I * I)))%F) as Fy' by solve_fact.
  assert (I = 1 / Z)%F as -> by (rewrite Ei; destruct Fz as [_ ->]; field; done).
  split.
  - destruct Fx' as [Hx Ex], Fy' as [Hy Ey]. split; [by split; eapply mag_le|]. cbn [ge_x ge_y]. rewrite Ex, Ey, EP.
    unfold jac. f_equal; field; done.
  - intros _. eapply (gej_rep_intro _ _ _ _ _ _ _ _ _ _ Fx' Fy' (set_int_fact 1 eq_refl) eq_refl); [by apply Zmod.one_neq_zero|].
    rewrite EP. unfold jac. f_equal; field; split; try done; by apply Zmod.one_neq_zero.
Qed.

Lemma ge_set_gej_var_spec r a P : gej_rep a P -> ge_rep (ge_set_gej_var r a).1 P /\ gej_rep (ge_set_gej_var r a).2 P.
Proof.
  intros Ha. destruct (gej_infinity a) eqn:Ia.
  { rewrite (gej_rep_inf _ _ Ha Ia). unfold ge_set_gej_var. rewrite Ia. split; [done|]. unfold gej_rep. cbn. by rewrite Ia. }
  destruct (ge_set_gej_spec a P Ha) as [H1 H2]. unfold ge_set_gej_var, ge_set_gej, fe_inv_var in *. rewrite Ia in *. auto.
Qed.

(** ** Validity and the points of a given coordinate *)

Lemma equal_var_fact a b m u v : fact a 1 u -> fact b m v -> (0 <=? m) && (m <=? 30) = true -> fe_equal_var a b = bool_decide (u = v).
Proof. intros [Ha <-] [Hb <-] [Hm%Z.leb_le Hm'%Z.leb_le]%andb_true_iff. by apply (fe_equal_var_spec m). Qed.

Lemma ge_is_valid_var_spec b Q : ge_rep b Q -> ge_is_valid_var b = bool_decide (Q <> Inf /\ on_curve Q).
Proof.
  intros Hb. unfold ge_is_valid_var. destruct (ge_infinity b) eqn:Ib.
  { rewrite (ge_rep_inf _ _ Hb Ib). symmetry. apply bool_decide_eq_false_2. naive_solver. }
  destruct (ge_finite _ _ Hb Ib) as (X & Y & Fx & Fy & ->). cbv zeta.
  let T1 := fe_fact (fe_sqr (ge_y b)) in
  let T2 := fe_fact (fe_normalize_weak (fe_add (fe_mul (fe_sqr (ge_x b)) (ge_x b)) (fe_set_int CURVE_B))) in
  rewrite (equal_var_fact _ _ _ _ _ T1 T2 eq_refl).
  apply bool_decide_ext. cbn [on_curve]. naive_solver.
Qed.

Lemma gej_is_valid_var_spec a P : gej_rep a P -> gej_is_valid_var a = bool_decide (P <> Inf /\ on_curve P).
Proof.
  intros Ha. unfold gej_is_valid_var. destruct (gej_infinity a) eqn:Ia.
  { rewrite (gej_rep_inf _ _ Ha Ia). symmetry. apply bool_decide_eq_false_2. naive_solver. }
  destruct (gej_finite _ _ Ha Ia) as (X & Y & Z & Fx & Fy & Fz & HZ & ->). cbv zeta.
  let T1 := fe_fact (fe_sqr (gej_y a)) in
  let T2 := fe_fact (fe_normalize_weak (fe_add (fe_mul (fe_sqr (gej_x a)) (gej_x a))
    (fe_mul_int (fe_mul (fe_sqr (fe_sqr (gej_z a))) (fe_sqr (gej_z a))) CURVE_B))) in
  rewrite (equal_var_fact _ _ _ _ _ T1 T2 eq_refl).
  apply bool_decide_ext. split.
  - intros E. split; [done|]. cbn [on_curve jac].
    transitivity (Y * Y / (Z * Z * Z * (Z * Z * Z)))%F; [field; done|]. rewrite E. unfold CURVE_B. field. done.
  - intros [_ Hc%jac_on_curve]; [|done]. rewrite Hc. unfold CURVE_B. ring.
Qed.

Lemma gej_eq_x_var_spec x a X1 Y1 : fmag 8 x -> gej_rep a (Aff X1 Y1) -> gej_eq_x_var x a = bool_decide (fval x = X1).
Proof.
  intros Fx0%fact_refl Ha. unfold gej_rep in Ha. destruct (gej_infinity a) eqn:Ia; [done|].
  destruct Ha as ((Fx%fact_refl & _ & Fz%fact_refl) & HZ & E). unfold jac in E. injection E as -> _.
  unfold gej_eq_x_var. cbv zeta. set (X := fval (gej_x a)) in *. set (Z := fval (gej_z a)) in *. set (V := fval x) in *.
  clearbody X Z V.
  let T1 := fe_fact (fe_mul (fe_sqr (gej_z a)) x) in let T2 := fe_fact (fe_normalize_weak (gej_x a)) in
  rewrite (equal_var_fact _ _ _ _ _ T1 T2 eq_refl).
  apply bool_decide_ext. split; [intros <-|intros ->]; field; done.
Qed.

(** Every [x] has the points with it as coordinate found, and no other is. *)
Lemma ge_set_xquad_spec x : fmag 8 x ->
  let r := (ge_set_xquad x).1 in let ok := (ge_set_xquad x).2 in
  (ok = true <-> exists y, on_curve (Aff (fval x) y)) /\
  (ok = true -> ge_ok r /\ fmag 1 (ge_y r) /\ ge_x r = x /\ ge_infinity r = false /\ on_curve (Aff (fval x) (fval (ge_y r)))).
Proof.
  intros Fx%fact_refl. unfold ge_set_xquad. cbv zeta. pose proof Fx as [Hx _]. set (X := fval x) in *. clearbody X.
  assert (fact (fe_add (fe_set_int CURVE_B) (fe_mul x (fe_sqr x))) 2 (X * X * X + fp 7)%F) as [Hc Ec] by (unfold CURVE_B; solve_fact).
  destruct (fe_sqrt_spec _ (mag_le _ 8 _ Hc ltac:(lia))) as (Hm & Hok & Hr & _). rewrite Ec in *.
  destruct (fe_sqrt _) as [y ok]. cbn [fst snd ge_x ge_y ge_infinity] in *. split; [done|].
  intros ->. repeat split; try done. by eapply mag_le.
Qed.

Lemma ge_set_xo_var_spec x odd : fmag 8 x ->
  match ge_set_xo_var x odd with
  | Some r => exists y, ge_rep r (Aff (fval x) y) /\ on_curve (Aff (fval x) y) /\ Z.odd (to_Z y) = odd
  | None => forall y, ~ on_curve (Aff (fval x) y)
  end.
Proof.
  intros Hx. destruct (ge_set_xquad_spec x Hx) as [Hok Hr]. unfold ge_set_xo_var. destruct (ge_set_xquad x) as [r ok].
  cbn [fst snd] in *. destruct ok; cbn [negb].
  - destruct Hr as (_ & Hy & _ & _ & Hc); [done|].
    destruct (normalize_var_law 1 (ge_y r) Hy ltac:(lia)) as [Hn En]. rewrite <- En in Hc.
    set (y := fe_normalize_var (ge_y r)) in *. clearbody y. rewrite (is_odd_law y Hn).
    destruct (Bool.eqb_spec (Z.odd (to_Z (fval y))) odd) as [E|E]; cbn [negb].
    + exists (fval y). split_and!; [|done|done]. split; [|done]. split; [done|]. by eapply mag_le; [apply norm_mag|lia].
    + destruct (negate_law 1 y (norm_mag _ Hn) ltac:(lia)) as [Hm Em]. exists (- fval y)%F.
      split_and!; [split; [split; [done|by eapply mag_le]|cbn [ge_x ge_y]; by rewrite Em]| |].
      * cbn [on_curve] in *. rewrite <- Hc. ring.
      * rewrite odd_opp by by apply (curve_y_nonzero _ _ Hc). revert E. by destruct (Z.odd (to_Z (fval y))), odd.
  - intros y Hc. assert (false = true) as Hf; [|done]. apply Hok. by exists y.
Qed.

(** ** Batches and tables *)

Lemma set_all_loop_spec r a azi Ps :
  length r = length a -> Forall2 gej_rep a Ps -> Forall2 inverse_of (finite_z a) azi -> Forall2 ge_rep (set_all_gej_loop r a azi) Ps.
Proof.
  intros Hl Ha. revert r azi Hl. induction Ha as [|a0 P a Ps Ha0 Ha IH]; intros [|r0 r] azi Hl Hi; try done.
  cbn [set_all_gej_loop]. unfold finite_z in Hi. cbn [List.filter] in Hi. injection Hl as Hl. destruct (gej_infinity a0) eqn:Ia; cbn [negb] in Hi.
  - constructor; [unfold ge_rep; cbn; by rewrite (gej_rep_inf _ _ Ha0 Ia)|]. by apply IH.
  - rewrite fmap_cons in Hi. apply Forall2_cons_inv_l in Hi as (zi & azi' & Hz & Hi & ->).
    constructor; [by apply ge_set_gej_zinv_spec|by apply IH].
Qed.

Lemma finite_z_ok a Ps : Forall2 gej_rep a Ps -> Forall (fmag 8) (finite_z a) /\ Forall (fun z => fval z <> 0%F) (finite_z a).
Proof.
  induction 1 as [|a0 P a Ps Ha0 _ [IH1 IH2]]; [done|]. unfold finite_z, gej_rep in *. cbn [List.filter].
  destruct (gej_infinity a0); [done|]. cbn [negb]. rewrite fmap_cons. destruct Ha0 as ((_ & _ & Hz) & HZ & _). by split; constructor.
Qed.

Lemma ge_set_all_gej_var_spec r a Ps :
  length r = length a -> Forall2 gej_rep a Ps -> Forall2 ge_rep (ge_set_all_gej_var r a) Ps.
Proof.
  intros Hl Ha. destruct (finite_z_ok a Ps Ha) as [H1 H2]. apply set_all_loop_spec; [done..|]. by apply fe_inv_all_var_spec.
Qed.

(** [zr] holds the quotients of the denominators of neighbours, here from the last
    entry back. *)
Inductive z_ratios : secp256k1_gej fe -> list (secp256k1_gej fe) -> list fe -> Prop :=
| ratios_nil a zr : z_ratios a [] zr
| ratios_cons a b rest z zr :
    fmag 8 z -> gej_infinity b = false -> (fval (gej_z b) * fval z = fval (gej_z a))%F -> z_ratios b rest zr ->
    z_ratios a (b :: rest) (z :: zr).

Lemma inverse_step a b zi z : inverse_of (gej_z a) zi -> fmag 8 z -> (fval (gej_z b) * fval z = fval (gej_z a))%F ->
  inverse_of (gej_z b) (fe_mul zi z).
Proof.
  intros [Hi Ei] Hz E. destruct (mul_law zi z) as [Hm Em]; [by eapply mag_le|done|]. split; [done|].
  rewrite Em, <- Ei, <- E. ring.
Qed.

Lemma set_table_back_spec a rest zr zi Ps :
  z_ratios a rest zr -> inverse_of (gej_z a) zi -> Forall2 gej_rep rest Ps -> Forall2 ge_rep (set_table_back zi rest zr) Ps.
Proof.
  intros Hr. revert zi Ps. induction Hr as [a zr|a b rest z zr Hz Ib E Hr IH]; intros zi Ps Hi HP.
  - apply Forall2_nil_inv_l in HP as ->. constructor.
  - apply Forall2_cons_inv_l in HP as (P & Ps' & HP & HPs & ->). cbn [set_table_back].
    pose proof (inverse_step _ _ _ _ Hi Hz E). constructor; [by apply ge_set_gej_zinv_spec|by apply IH].
Qed.

Lemma ge_set_table_gej_var_spec a al zr Ps Pl :
  gej_infinity al = false -> z_ratios al (rev a) (rev zr) -> Forall2 gej_rep (a ++ [al]) (Ps ++ [Pl]) ->
  Forall2 ge_rep (ge_set_table_gej_var (a ++ [al]) zr) (Ps ++ [Pl]).
Proof.
  intros Ial Hr HP. assert (length a = length Ps) as Hl by (apply Forall2_length in HP; rewrite !length_app in HP; cbn in HP; lia).
  apply Forall2_app_inv in HP as [HP Hl']; [|done]. apply Forall2_cons in Hl' as [Hl' _].
  unfold ge_set_table_gej_var. rewrite rev_app_distr. cbn [rev app]. destruct (gej_finite _ _ Hl' Ial) as (X & Y & Z & _ & _ & Fz & HZ & _).
  assert (inverse_of (gej_z al) (fe_inv (gej_z al))) as Hi.
  { destruct Fz as [Hz Ez]. destruct (fe_inv_spec _ Hz) as [Hm Em]. split; [done|]. rewrite Em, Ez.
    by apply Zmod.mul_inv_same_r_prime; [apply secp_p_prime|]. }
  apply Forall2_app; [|constructor; [by apply ge_set_gej_zinv_spec|constructor]].
  rewrite <- (reverse_involutive Ps), rev_reverse. apply Forall2_reverse.
  eapply set_table_back_spec; [done|done|]. rewrite rev_reverse. by apply Forall2_reverse.
Qed.

(** An entry of a table with the common denominator [Z]. *)
Definition ge_common_rep (Z : Fp) (g : secp256k1_ge fe) (P : point) : Prop :=
  ge_ok g /\ ge_infinity g = false /\ P = jac (fval (ge_x g)) (fval (ge_y g)) Z.

Lemma globalz_back_spec (Z : Fp) b rest zs zr Ps :
  Z <> 0%F -> fmag 8 zs -> gej_infinity b = false -> (fval (gej_z b) * fval zs = Z)%F -> z_ratios b rest zr ->
  Forall2 gej_rep (b :: rest) Ps -> Forall2 (ge_common_rep Z) (globalz_back zs (b :: rest) zr) Ps.
Proof.
  intros HZ Hs Ib E Hr. revert zs Ps Hs E Ib. induction Hr as [b zr|b c rest z zr Hz Ic E' Hr IH]; intros zs Ps Hs E Ib HP.
  all: apply Forall2_cons_inv_l in HP as (P & Ps' & HP & HPs & ->).
  all: assert (ge_common_rep Z (ge_set_gej_zinv b zs) P) as Hrep.
  1,3: destruct (gej_finite _ _ HP Ib) as (X & Y & Zb & Fx & Fy & [_ Ez] & HZb & ->); rewrite Ez in E; apply fact_refl in Hs;
    set (K := fval zs) in *; clearbody K;
    assert (fact (fe_mul (gej_x b) (fe_sqr zs)) 1 (X * (K * K))%F) as [Hx Ex] by solve_fact;
    assert (fact (fe_mul (gej_y b) (fe_mul (fe_sqr zs) zs)) 1 (Y * (K * K) * K)%F) as [Hy Ey] by solve_fact;
    split; [by split; eapply mag_le|]; split; [done|]; cbn [ge_set_gej_zinv ge_x ge_y]; rewrite Ex, Ey, <- E; apply jac_scale; [|done];
    intros ->; apply HZ; rewrite <- E; ring.
  - apply Forall2_nil_inv_l in HPs as ->. destruct zr; cbn [globalz_back]; (constructor; [done|constructor]).
  - cbn [globalz_back]. constructor; [done|].
    destruct (mul_law zs z Hs Hz) as [Hm Em]. apply (IH (fe_mul zs z) Ps'); try done; [by eapply mag_le|].
    rewrite Em, <- E, <- E'. ring.
Qed.

Lemma ge_globalz_set_table_gej_spec a al zr Ps Pl :
  gej_infinity al = false -> z_ratios al (rev a) (rev zr) -> length zr = S (length a) -> Forall2 gej_rep (a ++ [al]) (Ps ++ [Pl]) ->
  exists r, ge_globalz_set_table_gej (a ++ [al]) zr = (r, Some (gej_z al)) /\
            Forall2 (ge_common_rep (fval (gej_z al))) r (Ps ++ [Pl]).
Proof.
  intros Ial Hr Hlen HP. assert (length a = length Ps) as Hl by (apply Forall2_length in HP; rewrite !length_app in HP; cbn in HP; lia).
  apply Forall2_app_inv in HP as [HP Hl']; [|done]. apply Forall2_cons in Hl' as [Hl' _].
  unfold ge_globalz_set_table_gej. rewrite rev_app_distr. cbn [rev app].
  assert (length (rev zr) = S (length (rev a))) as Hlen' by by rewrite !length_rev.
  destruct (rev zr) as [|zs zr'] eqn:Ezr; [done|]. injection Hlen' as Hlen'. eexists. split; [done|].
  unfold gej_rep in Hl'. rewrite Ial in Hl'. destruct Hl' as ((Hx & Hy & Hz) & HZ & ->).
  cbn [rev]. apply Forall2_app; [|by repeat constructor].
  rewrite <- (reverse_involutive Ps), rev_reverse. apply Forall2_reverse.
  assert (Forall2 gej_rep (rev a) (reverse Ps)) as HPr by (rewrite rev_reverse; by apply Forall2_reverse).
  destruct (rev a) as [|b rest]; [apply Forall2_nil_inv_l in HPr as ->; destruct zr'; constructor|].
  inversion Hr; subst. by apply globalz_back_spec.
Qed.

(** The Jacobi symbol of [y / z^3] is that of [y * z]. *)
Lemma gej_has_quad_y_var_spec a X Y : gej_rep a (Aff X Y) -> (gej_has_quad_y_var a = true <-> exists w, w * w = Y)%F.
Proof.
  intros Ha. unfold gej_rep in Ha. destruct (gej_infinity a) eqn:Ia; [done|].
  destruct Ha as ((_ & Hy & Hz) & HZ & E). unfold jac in E. injection E as _ ->.
  unfold gej_has_quad_y_var, fe_is_quad_var. rewrite Ia. destruct (mul_law _ _ Hy Hz) as [Hm Em].
  destruct (fe_sqrt_spec _ (mag_le _ 8 _ Hm ltac:(lia))) as (_ & -> & _). rewrite Em.
  set (V := fval (gej_y a)). set (Z := fval (gej_z a)) in *. clearbody V Z. split; intros [w Hw].
  - exists (w / (Z * Z))%F. transitivity (w * w / (Z * Z * (Z * Z)))%F; [field; done|]. rewrite Hw. field. done.
  - exists (w * (Z * Z))%F. transitivity (w * w * (Z * Z * (Z * Z)))%F; [ring|]. rewrite Hw. field. done.
Qed.

End jacobian.

(** ** The generator *)

Definition secp256k1_ge_const_g : secp256k1_ge secp256k1_fe :=
  mkGe (SECP256K1_FE_CONST 0x79BE667E 0xF9DCBBAC 0x55A06295 0xCE870B07 0x029BFCDB 0x2DCE28D9 0x59F2815B 0x16F81798)
    (SECP256K1_FE_CONST 0x483ADA77 0x26A3C465 0x5DA4FBFC 0x0E1108A8 0xFD17B448 0xA6855419 0x9C47D08F 0xFB10D4B8) false.

Definition generator : point := Aff (fval (ge_x secp256k1_ge_const_g)) (fval (ge_y secp256k1_ge_const_g)).

Lemma generator_rep : ge_rep secp256k1_ge_const_g generator.
Proof. split; [|done]. split; vm_compute; intuition congruence. Qed.

Lemma generator_on_curve : on_curve generator.
Proof. apply (bool_decide_eq_true_1 _). vm_compute. reflexivity. Qed.

