(* ===== verification/Pubkey.v ===== *)
(** Public keys: their encodings, parsing and decompression.

    Models secp256k1_eckey_pubkey_parse and _serialize (eckey_impl.h),
    secp256k1_pubkey_save, _load, secp256k1_ec_pubkey_parse and _serialize
    (secp256k1.c), and CPubKey with Set, IsFullyValid and Decompress (pubkey.h,
    pubkey.cpp). The theorems say that the parsers accept exactly the encodings of
    points of the curve, that a parsed key always loads again, and that
    decompressing the compressed form of a key gives the key back. *)
From stdpp Require Import base list numbers.
From Stdlib Require Import ZArith Zmod Lia Field.
From S2P Require Import Prelude Serialize Limbs FieldPrime Field5x52 FieldImpl Group.

Local Open Scope Z_scope.

(** ** Encodings of points (eckey_impl.h) *)

Section eckey.
Context {fe : Type} `{FieldLaws fe}.

Definition eckey_pubkey_parse (pub : bytes) : option (secp256k1_ge fe) :=
  let size := Zlength pub in
  if (size =? 33) && ((byte_at pub 0 =? 0x02) || (byte_at pub 0 =? 0x03)) then
    x ← fe_set_b32 (slice pub 1 32);
    ge_set_xo_var x (byte_at pub 0 =? 0x03)
  else if (size =? 65) && ((byte_at pub 0 =? 0x04) || (byte_at pub 0 =? 0x06) || (byte_at pub 0 =? 0x07)) then
    x ← fe_set_b32 (slice pub 1 32);
    y ← fe_set_b32 (slice pub 33 32);
    let elem := ge_set_xy x y in
    if ((byte_at pub 0 =? 0x06) || (byte_at pub 0 =? 0x07)) && negb (Bool.eqb (fe_is_odd y) (byte_at pub 0 =? 0x07)) then None
    else if ge_is_valid_var elem then Some elem else None
  else None.

Definition eckey_pubkey_serialize (elem : secp256k1_ge fe) (compressed : bool) : option bytes :=
  if ge_is_infinity elem then None
  else
    let x := fe_normalize_var (ge_x elem) in
    let y := fe_normalize_var (ge_y elem) in
    if compressed then Some (byte_of (Z.lor 0x02 (Z.b2z (fe_is_odd y))) :: fe_get_b32 x)
    else Some (byte_of 0x04 :: fe_get_b32 x ++ fe_get_b32 y).

(** ** What the encodings mean *)

(** The point an encoding names: a coordinate and a parity, or two coordinates. *)
Definition encodes (pub : bytes) (x y : Fp) : Prop :=
  (Zlength pub = 33 /\ (byte_at pub 0 = 2 \/ byte_at pub 0 = 3) /\ be_val (slice pub 1 32) = to_Z x
   /\ Z.odd (to_Z y) = (byte_at pub 0 =? 3)) \/
  (Zlength pub = 65 /\ be_val (slice pub 1 32) = to_Z x /\ be_val (slice pub 33 32) = to_Z y
   /\ (byte_at pub 0 = 4 \/ (byte_at pub 0 = 6 /\ Z.odd (to_Z y) = false) \/ (byte_at pub 0 = 7 /\ Z.odd (to_Z y) = true))).

(** A coordinate is read when its bytes are below the modulus. *)
Lemma set_b32_value b (x : Fp) : length b = 32%nat -> be_val b = to_Z x -> exists r, fe_set_b32 b = Some r /\ fnorm r /\ fval r = x.
Proof.
  intros Hl E. pose proof (set_b32_law b Hl) as Hb. destruct (fe_set_b32 b) as [r|].
  - destruct Hb as (_ & Hn & Ev). exists r. split_and!; [done..|]. by rewrite Ev, E, Zmod.of_Z_unsigned.
  - pose proof (Fp_range x). lia.
Qed.

Lemma set_b32_some b r : length b = 32%nat -> fe_set_b32 b = Some r -> fnorm r /\ be_val b = to_Z (fval r).
Proof.
  intros Hl E. pose proof (set_b32_law b Hl) as Hb. rewrite E in Hb. destruct Hb as (Hlt & Hn & ->). split; [done|].
  rewrite Zmod.unsigned_of_Z_small; [done|]. split; [|done]. unfold be_val. apply le_val_range.
Qed.

Lemma norm_mag8 (r : fe) : fnorm r -> fmag 8 r.
Proof. intros Hr. eapply mag_le; [by apply norm_mag|lia]. Qed.

Lemma parse_compressed_spec pub : Zlength pub = 33 -> byte_at pub 0 = 2 \/ byte_at pub 0 = 3 ->
  match x ← fe_set_b32 (slice pub 1 32); ge_set_xo_var x (byte_at pub 0 =? 0x03) with
  | Some g => exists x y, ge_rep g (Aff x y) /\ on_curve (Aff x y) /\ encodes pub x y
  | None => forall x y, encodes pub x y -> ~ on_curve (Aff x y)
  end.
Proof.
  intros Hl Hf. assert (length (slice pub 1 32) = 32%nat) as Hs by (apply slice_length; unfold Zlength in Hl; lia).
  destruct (fe_set_b32 (slice pub 1 32)) as [x|] eqn:Ex; cbn [mbind option_bind].
  - destruct (set_b32_some _ _ Hs Ex) as [Hn Ev].
    pose proof (ge_set_xo_var_spec x (byte_at pub 0 =? 3) (norm_mag8 _ Hn)) as Hx.
    destruct (ge_set_xo_var x _) as [g|].
    + destruct Hx as (y & Hg & Hc & Ho). exists (fval x), y. split_and!; [done..|]. by left.
    + intros x' y' [(_ & _ & E & _)|(E & _)]; [|lia]. rewrite Ev in E. apply Zmod.unsigned_inj in E as <-. apply Hx.
  - intros x y [(_ & _ & E & _)|(E & _)]; [|lia]. destruct (set_b32_value _ x Hs E) as (r & Er & _). congruence.
Qed.

(** The headers of the long form and what each asks of the parity. *)
Definition long_header (h : Z) : bool := (h =? 4) || (h =? 6) || (h =? 7).
Definition bad_parity (h : Z) (odd : bool) : bool := ((h =? 6) || (h =? 7)) && negb (Bool.eqb odd (h =? 7)).

Lemma long_header_spec h odd :
  long_header h && negb (bad_parity h odd) = true <-> h = 4 \/ (h = 6 /\ odd = false) \/ (h = 7 /\ odd = true).
Proof.
  unfold long_header, bad_parity. destruct (Z.eqb_spec h 4), (Z.eqb_spec h 6), (Z.eqb_spec h 7), odd; cbn;
    split; intros Ht; try done; try lia; naive_solver lia.
Qed.

Lemma parse_long_spec pub : Zlength pub = 65 -> long_header (byte_at pub 0) = true ->
  match
    x ← fe_set_b32 (slice pub 1 32);
    y ← fe_set_b32 (slice pub 33 32);
    if bad_parity (byte_at pub 0) (fe_is_odd y) then None
    else if ge_is_valid_var (ge_set_xy x y) then Some (ge_set_xy x y) else None
  with
  | Some g => exists x y, ge_rep g (Aff x y) /\ on_curve (Aff x y) /\ encodes pub x y
  | None => forall x y, encodes pub x y -> ~ on_curve (Aff x y)
  end.
Proof.
  intros Hl Hf. unfold Zlength in Hl.
  assert (length (slice pub 1 32) = 32%nat) as Hs by (apply slice_length; lia).
  assert (length (slice pub 33 32) = 32%nat) as Hs' by (apply slice_length; lia).
  destruct (fe_set_b32 (slice pub 1 32)) as [x|] eqn:Ex; cbn [mbind option_bind]; cycle 1.
  { intros x y [(E & _)|(_ & E & _)]; [unfold Zlength in E; lia|].
    destruct (set_b32_value _ x Hs E) as (r & Er & _). congruence. }
  destruct (fe_set_b32 (slice pub 33 32)) as [y|] eqn:Ey; cbn [mbind option_bind]; cycle 1.
  { intros x' y [(E & _)|(_ & _ & E & _)]; [unfold Zlength in E; lia|].
    destruct (set_b32_value _ y Hs' E) as (r & Er & _). congruence. }
  destruct (set_b32_some _ _ Hs Ex) as [Hn Ev], (set_b32_some _ _ Hs' Ey) as [Hn' Ev']. rewrite (is_odd_law y Hn').
  assert (ge_rep (ge_set_xy x y) (Aff (fval x) (fval y))) as Hg by (split; [split; by apply norm_mag8|done]).
  rewrite (ge_is_valid_var_spec _ _ Hg).
  pose proof (long_header_spec (byte_at pub 0) (Z.odd (to_Z (fval y)))) as Hh. rewrite Hf in Hh. cbn [andb] in Hh.
  assert (forall x' y', encodes pub x' y' -> x' = fval x /\ y' = fval y /\ bad_parity (byte_at pub 0) (Z.odd (to_Z (fval y))) = false) as Hinv.
  { intros x' y' [(E & _)|(_ & E & E' & Hd)]; [unfold Zlength in E; lia|].
    rewrite Ev in E. rewrite Ev' in E'. apply Zmod.unsigned_inj in E as <-. apply Zmod.unsigned_inj in E' as <-.
    apply Hh in Hd. by destruct (bad_parity _ _). }
  destruct (bad_parity _ _) eqn:Eb; [by intros x' y' (_ & _ & ?)%Hinv|].
  destruct (bool_decide_reflect (Aff (fval x) (fval y) <> Inf /\ on_curve (Aff (fval x) (fval y)))) as [[_ Hc]|Hc].
  - exists (fval x), (fval y). split_and!; [done..|]. right. unfold Zlength. split_and!; [lia|done..|]. by apply Hh.
  - intros x' y' (-> & -> & _)%Hinv Hoc. by apply Hc.
Qed.

(** The parser accepts exactly the encodings of points of the curve. *)
Lemma eckey_pubkey_parse_spec pub :
  match eckey_pubkey_parse pub with
  | Some g => exists x y, ge_rep g (Aff x y) /\ on_curve (Aff x y) /\ encodes pub x y
  | None => forall x y, encodes pub x y -> ~ on_curve (Aff x y)
  end.
Proof.
  unfold eckey_pubkey_parse. cbv zeta. fold (long_header (byte_at pub 0)).
  destruct (Z.eqb_spec (Zlength pub) 33) as [L33|N33]; cbn [andb].
  - rewrite (proj2 (Z.eqb_neq (Zlength pub) 65)) by lia. cbn [andb].
    destruct (Z.eqb_spec (byte_at pub 0) 2) as [H2|H2]; cbn [orb]; [by apply parse_compressed_spec; auto|].
    destruct (Z.eqb_spec (byte_at pub 0) 3) as [H3|H3]; cbn [orb].
    + rewrite <- (proj2 (Z.eqb_eq (byte_at pub 0) 3)) by done. by apply parse_compressed_spec; auto.
    + intros x y [(_ & [?|?] & _)|(? & _)]; lia.
  - destruct (Z.eqb_spec (Zlength pub) 65) as [L65|N65]; cbn [andb].
    + destruct (long_header _) eqn:Eh; [by apply parse_long_spec|]. intros x y [(? & _)|(_ & _ & _ & Hd)]; [lia|].
      apply long_header_spec in Hd. by rewrite Eh in Hd.
    + intros x y [(? & _)|(? & _)]; lia.
Qed.

(** Serializing a point writes the encoding that names it. *)
Definition encode (x y : Fp) (compressed : bool) : bytes :=
  if compressed then byte_of (2 + Z.b2z (Z.odd (to_Z y))) :: rev (le_bytes 32 (to_Z x))
  else byte_of 4 :: rev (le_bytes 32 (to_Z x)) ++ rev (le_bytes 32 (to_Z y)).

Lemma get_b32_bytes (a : fe) : fnorm a -> fe_get_b32 a = rev (le_bytes 32 (to_Z (fval a))).
Proof.
  intros Ha. destruct (get_b32_law a Ha) as [Hl Ev]. apply be_val_inj; [by rewrite length_rev, length_le_bytes|].
  rewrite Ev. unfold be_val. rewrite rev_involutive, le_val_bytes. symmetry. apply Z.mod_small.
  pose proof (Fp_range (fval a)). split; [lia|]. transitivity secp_p; [lia|]. vm_compute. reflexivity.
Qed.

Lemma eckey_pubkey_serialize_spec g x y c : ge_rep g (Aff x y) -> eckey_pubkey_serialize g c = Some (encode x y c).
Proof.
  unfold ge_rep, eckey_pubkey_serialize, ge_is_infinity. destruct (ge_infinity g); [done|].
  intros [[Hx Hy] [= -> ->]]. cbv zeta.
  destruct (normalize_var_law 8 (ge_x g)) as [Nx Ex]; [by eapply mag_le|lia|].
  destruct (normalize_var_law 8 (ge_y g)) as [Ny Ey]; [by eapply mag_le|lia|].
  rewrite !get_b32_bytes, is_odd_law, Ex, Ey by done. unfold encode. destruct c; [|done]. by destruct (Z.odd _).
Qed.

End eckey.

(** ** The opaque key of the library (secp256k1.c), on the 5x52 field *)

Record secp256k1_ge_storage := mkGeStorage { gs_x : secp256k1_fe_storage; gs_y : secp256k1_fe_storage }.

Definition secp256k1_ge_to_storage (a : secp256k1_ge secp256k1_fe) : secp256k1_ge_storage :=
  let x := secp256k1_fe_normalize (ge_x a) in
  let y := secp256k1_fe_normalize (ge_y a) in
  mkGeStorage (secp256k1_fe_to_storage x) (secp256k1_fe_to_storage y).

Definition secp256k1_ge_from_storage (a : secp256k1_ge_storage) : secp256k1_ge secp256k1_fe :=
  mkGe (secp256k1_fe_from_storage (gs_x a)) (secp256k1_fe_from_storage (gs_y a)) false.

(** A [secp256k1_ge_storage] has 64 bytes and is the representation inside the
    opaque [secp256k1_pubkey]. [None] is a failed [ARG_CHECK], whose callback
    aborts the program. *)
Definition secp256k1_pubkey : Type := secp256k1_ge_storage.

Definition secp256k1_pubkey_load (pubkey : secp256k1_pubkey) : option (secp256k1_ge secp256k1_fe) :=
  let ge := secp256k1_ge_from_storage pubkey in
  if secp256k1_fe_is_zero (ge_x ge) then None else Some ge.

Definition secp256k1_pubkey_save (ge : secp256k1_ge secp256k1_fe) : secp256k1_pubkey := secp256k1_ge_to_storage ge.

Definition secp256k1_ec_pubkey_parse (input : bytes) : option secp256k1_pubkey :=
  Q ← eckey_pubkey_parse input; Some (secp256k1_pubkey_save Q).

Definition SECP256K1_FLAGS_TYPE_MASK : Z := Z.shiftl 1 8 - 1.
Definition SECP256K1_FLAGS_TYPE_COMPRESSION : Z := Z.shiftl 1 1.
Definition SECP256K1_FLAGS_BIT_COMPRESSION : Z := Z.shiftl 1 8.
Definition SECP256K1_EC_COMPRESSED : Z := Z.lor SECP256K1_FLAGS_TYPE_COMPRESSION SECP256K1_FLAGS_BIT_COMPRESSION.
Definition SECP256K1_EC_UNCOMPRESSED : Z := SECP256K1_FLAGS_TYPE_COMPRESSION.

(** The outer [None] is a failed [ARG_CHECK], the inner one the return value 0. *)
Definition secp256k1_ec_pubkey_serialize (outputlen : Z) (pubkey : secp256k1_pubkey) (flags : Z) : option (option bytes) :=
  let compressed := negb (Z.land flags SECP256K1_FLAGS_BIT_COMPRESSION =? 0) in
  if outputlen <? (if compressed then 33 else 65) then None
  else if negb (Z.land flags SECP256K1_FLAGS_TYPE_MASK =? SECP256K1_FLAGS_TYPE_COMPRESSION) then None
  else
    Q ← secp256k1_pubkey_load pubkey;
    Some (eckey_pubkey_serialize Q compressed).

(** ** CPubKey (pubkey.h, pubkey.cpp) *)

(** The array has 65 bytes; the first one says how many of them are the key. *)
Record CPubKey := mkPubKey { pk_vch : bytes }.

Definition PubKey_GetLen (chHeader : Z) : Z :=
  if (chHeader =? 2) || (chHeader =? 3) then 33
  else if (chHeader =? 4) || (chHeader =? 6) || (chHeader =? 7) then 65
  else 0.

(** [memcpy] to the start of the array. *)
Definition overwrite (vch data : bytes) : bytes := data ++ drop (length data) vch.

Definition PubKey_Invalidate (k : CPubKey) : CPubKey := mkPubKey (overwrite (pk_vch k) [byte_of 0xFF]).

(** The constructor; the bytes behind the header are indeterminate, and none is
    read: [size] is 0. *)
Definition CPubKey_new : CPubKey := mkPubKey (byte_of 0xFF :: replicate 64 x00).

Definition PubKey_Set (k : CPubKey) (data : bytes) : CPubKey :=
  let len := match data with [] => 0 | b :: _ => PubKey_GetLen (bval b) end in
  if negb (len =? 0) && (len =? Zlength data) then mkPubKey (overwrite (pk_vch k) data)
  else PubKey_Invalidate k.

Definition PubKey_size (k : CPubKey) : Z := PubKey_GetLen (byte_at (pk_vch k) 0).
Definition PubKey_data (k : CPubKey) : bytes := take (Z.to_nat (PubKey_size k)) (pk_vch k).
Definition PubKey_IsValid (k : CPubKey) : bool := 0 <? PubKey_size k.
Definition PubKey_IsCompressed (k : CPubKey) : bool := PubKey_size k =? 33.

Definition PubKey_eqb (a b : CPubKey) : bool :=
  (byte_at (pk_vch a) 0 =? byte_at (pk_vch b) 0)
  && bool_decide (take (Z.to_nat (PubKey_size a)) (pk_vch a) = take (Z.to_nat (PubKey_size a)) (pk_vch b)).

Definition PubKey_Serialize (k : CPubKey) : bytes :=
  let len := PubKey_size k in
  WriteCompactSize len ++ PubKey_data k.

Definition PubKey_Unserialize (k : CPubKey) : reader CPubKey :=
  len ← ReadCompactSize;
  if len <=? 65 then
    data ← stream_read len;
    mret (mkPubKey (overwrite (pk_vch k) data))
  else
    _ ← stream_read len;
    mret (PubKey_Invalidate k).

Definition PubKey_IsFullyValid (k : CPubKey) : bool :=
  if negb (PubKey_IsValid k) then false
  else match secp256k1_ec_pubkey_parse (PubKey_data k) with Some _ => true | None => false end.

(** [None] is the abort of a failed [ARG_CHECK]. When serialization returned 0,
    [publen] is 0 and [Set] is called on an empty range. *)
Definition PubKey_Decompress (k : CPubKey) : option (bool * CPubKey) :=
  if negb (PubKey_IsValid k) then Some (false, k)
  else
    match secp256k1_ec_pubkey_parse (PubKey_data k) with
    | None => Some (false, k)
    | Some pubkey =>
        out ← secp256k1_ec_pubkey_serialize 65 pubkey SECP256K1_EC_UNCOMPRESSED;
        Some (true, PubKey_Set k (default [] out))
    end.

(** ** The encodings and the points they name *)

Lemma be_bytes_val (x : Fp) : be_val (rev (le_bytes 32 (to_Z x))) = to_Z x.
Proof.
  unfold be_val. rewrite rev_involutive, le_val_bytes. apply Z.mod_small.
  pose proof (Fp_range x). split; [lia|]. transitivity secp_p; [lia|]. vm_compute. reflexivity.
Qed.

Lemma be_bytes_length z : length (rev (le_bytes 32 z)) = 32%nat.
Proof. by rewrite length_rev, length_le_bytes. Qed.

Lemma encode_head x y c :
  byte_at (encode x y c) 0 = if c then 2 + Z.b2z (Z.odd (to_Z y)) else 4.
Proof.
  unfold byte_at, encode. destruct c; cbn [nth]; apply bval_byte_of_small; [|lia]. destruct (Z.odd _); cbn; lia.
Qed.

Lemma encode_length x y c : length (encode x y c) = if c then 33%nat else 65%nat.
Proof.
  unfold encode. destruct c; cbn [length].
  { by rewrite be_bytes_length. }
  rewrite (length_app (rev (le_bytes 32 (to_Z x)))). by rewrite !be_bytes_length.
Qed.

Lemma encode_encodes x y c : encodes (encode x y c) x y.
Proof.
  destruct c; [left|right]; unfold Zlength; rewrite encode_head, encode_length.
  - split_and!; [done|destruct (Z.odd _); cbn; lia| |by destruct (Z.odd _)].
    unfold slice, encode. rewrite skipn_cons, drop_0, take_ge by by rewrite be_bytes_length. apply be_bytes_val.
  - unfold slice, encode. split_and!; [done| | |by left]; rewrite skipn_cons.
    + rewrite drop_0, take_app_length'; [apply be_bytes_val|by rewrite be_bytes_length].
    + rewrite drop_app_length' by by rewrite be_bytes_length.
      rewrite take_ge by by rewrite be_bytes_length. apply be_bytes_val.
Qed.

(** An encoding names at most one point of the curve. *)
Lemma encodes_unique pub x y x' y' :
  encodes pub x y -> encodes pub x' y' -> on_curve (Aff x y) -> on_curve (Aff x' y') -> x = x' /\ y = y'.
Proof.
  intros [(L & _ & Ex & Eo)|(L & Ex & Ey & _)] [(L' & _ & Ex' & Eo')|(L' & Ex' & Ey' & _)] Hc Hc'; try lia.
  - rewrite Ex in Ex'. apply Zmod.unsigned_inj in Ex' as <-. split; [done|]. eapply odd_determines; [done..|congruence].
  - rewrite Ex in Ex'. rewrite Ey in Ey'. by apply Zmod.unsigned_inj in Ex', Ey'.
Qed.

(** The long encoding with header 4 is the one the serializer writes. *)
Lemma encodes_long pub x y : encodes pub x y -> byte_at pub 0 = 4 -> pub = encode x y false.
Proof.
  intros [(L & Hh & _)|(L & Ex & Ey & _)] H4; [lia|]. unfold Zlength in L. unfold slice in Ex, Ey.
  destruct pub as [|b pub]; [done|]. cbn [length] in L. change (bval b = 4) in H4. unfold encode. f_equal.
  - apply bval_inj. rewrite H4. by rewrite bval_byte_of_small.
  - rewrite skipn_cons in Ex, Ey. rewrite drop_0 in Ex. rewrite <- (take_drop 32 pub). f_equal; apply be_val_inj.
    + rewrite be_bytes_length, length_take. lia.
    + by rewrite be_bytes_val, <- Ex.
    + rewrite be_bytes_length, length_drop. lia.
    + rewrite be_bytes_val, <- Ey, take_ge; [done|]. rewrite length_drop. lia.
Qed.

(** ** Saving and loading *)

(** A saved point of the curve always loads: its [x] is not zero. *)
Lemma pubkey_load_save g x y : ge_rep g (Aff x y) -> on_curve (Aff x y) ->
  exists g', secp256k1_pubkey_load (secp256k1_pubkey_save g) = Some g' /\ ge_rep g' (Aff x y).
Proof.
  unfold ge_rep at 1. destruct (ge_infinity g) eqn:Ei; [done|]. intros [[Hx Hy] [= -> ->]] Hc.
  destruct (fe_normalize_spec 8 (ge_x g) Hx ltac:(lia)) as [Nx Ex].
  destruct (fe_normalize_spec 8 (ge_y g) Hy ltac:(lia)) as [Ny Ey].
  unfold secp256k1_pubkey_load, secp256k1_pubkey_save, secp256k1_ge_to_storage, secp256k1_ge_from_storage.
  cbn [gs_x gs_y ge_x]. rewrite !fe_storage_roundtrip by done. rewrite fe_is_zero_spec by done.
  rewrite Ex, bool_decide_false by by apply (curve_x_nonzero _ _ Hc). eexists. split; [done|]. unfold ge_rep. cbn [ge_infinity].
  split; [split; cbn [ge_x ge_y]; by apply norm_mag8|]. cbn [ge_x ge_y]. cbn in *. by rewrite Ex, Ey.
Qed.

Lemma ec_pubkey_parse_spec pub :
  match secp256k1_ec_pubkey_parse pub with
  | Some pk => exists x y g, secp256k1_pubkey_load pk = Some g /\ ge_rep g (Aff x y) /\ on_curve (Aff x y) /\ encodes pub x y
  | None => forall x y, encodes pub x y -> ~ on_curve (Aff x y)
  end.
Proof.
  pose proof (eckey_pubkey_parse_spec (fe := secp256k1_fe) pub) as Hp. unfold secp256k1_ec_pubkey_parse.
  destruct (eckey_pubkey_parse pub) as [Q|]; cbn [mbind option_bind]; [|done].
  destruct Hp as (x & y & Hg & Hc & He). destruct (pubkey_load_save Q x y Hg Hc) as (g & Eg & Hg'). by exists x, y, g.
Qed.

Definition encode_flags (c : bool) : Z := if c then SECP256K1_EC_COMPRESSED else SECP256K1_EC_UNCOMPRESSED.

Lemma ec_pubkey_serialize_spec pk g x y c :
  secp256k1_pubkey_load pk = Some g -> ge_rep g (Aff x y) ->
  secp256k1_ec_pubkey_serialize 65 pk (encode_flags c) = Some (Some (encode x y c)).
Proof.
  intros El Hg. unfold secp256k1_ec_pubkey_serialize. rewrite El. cbn [mbind option_bind].
  rewrite (eckey_pubkey_serialize_spec g x y) by done. by destruct c.
Qed.

(** ** Keys *)

Definition pubkey_wf (k : CPubKey) : Prop := length (pk_vch k) = 65%nat.

Lemma overwrite_length vch data : (length data <= length vch)%nat -> length (overwrite vch data) = length vch.
Proof. intros Hl. unfold overwrite. rewrite length_app, length_drop. lia. Qed.

Lemma GetLen_values h : PubKey_GetLen h = 0 \/ PubKey_GetLen h = 33 \/ PubKey_GetLen h = 65.
Proof. unfold PubKey_GetLen. repeat case_match; auto. Qed.

Lemma Set_wf k data : pubkey_wf k -> pubkey_wf (PubKey_Set k data).
Proof.
  unfold pubkey_wf, PubKey_Set. intros Hk. cbv zeta. set (len := match data with [] => 0 | b :: _ => _ end).
  assert (len = 0 \/ len = 33 \/ len = 65) as Hlen by (unfold len; destruct data; [auto|apply GetLen_values]).
  destruct (negb _ && _) eqn:E; cbn [pk_vch PubKey_Invalidate]; rewrite overwrite_length; [done| |done|cbn; lia].
  apply andb_prop in E as [_ E%Z.eqb_eq]. unfold Zlength in E. lia.
Qed.

(** A range whose header announces its length is taken over. *)
Lemma Set_data k b data : PubKey_GetLen (bval b) = Zlength (b :: data) -> PubKey_data (PubKey_Set k (b :: data)) = b :: data.
Proof.
  intros E. unfold PubKey_Set. rewrite E, Z.eqb_refl.
  rewrite (proj2 (Z.eqb_neq _ 0)) by (unfold Zlength; cbn [length]; lia). cbn [negb andb].
  unfold PubKey_data, PubKey_size, overwrite. cbn [pk_vch]. change (byte_at ((b :: data) ++ ?r) 0) with (bval b).
  rewrite E. unfold Zlength. rewrite Nat2Z.id. apply take_app_length.
Qed.

Lemma Set_encode k x y c : PubKey_data (PubKey_Set k (encode x y c)) = encode x y c.
Proof.
  pose proof (encode_head x y c) as Hh. pose proof (encode_length x y c) as Hl.
  destruct (encode x y c) as [|b data]; [by destruct c|]. apply Set_data. change (byte_at (b :: data) 0) with (bval b) in Hh. rewrite Hh. unfold Zlength. rewrite Hl.
  destruct c; [|done]. by destruct (Z.odd _).
Qed.

Lemma data_encodes_valid k x y : encodes (PubKey_data k) x y -> PubKey_IsValid k = true.
Proof.
  unfold PubKey_IsValid, PubKey_data. intros He. apply Z.ltb_lt.
  destruct (GetLen_values (byte_at (pk_vch k) 0)) as [E|[E|E]]; fold (PubKey_size k) in E; rewrite E in *; [|lia..].
  by destruct He as [(L & _)|(L & _)].
Qed.

Lemma IsFullyValid_spec k :
  PubKey_IsFullyValid k = true <-> exists x y, on_curve (Aff x y) /\ encodes (PubKey_data k) x y.
Proof.
  unfold PubKey_IsFullyValid. pose proof (ec_pubkey_parse_spec (PubKey_data k)) as Hp. split.
  - destruct (PubKey_IsValid k); [cbn [negb]|done]. destruct (secp256k1_ec_pubkey_parse _); [|done].
    destruct Hp as (x & y & _ & _ & _ & Hc & He). eauto.
  - intros (x & y & Hc & He). rewrite (data_encodes_valid k x y He). cbn [negb].
    destruct (secp256k1_ec_pubkey_parse _); [done|]. by apply Hp in He.
Qed.

Lemma Decompress_spec k :
  match PubKey_Decompress k with
  | Some (true, k') => exists x y, on_curve (Aff x y) /\ encodes (PubKey_data k) x y /\ k' = PubKey_Set k (encode x y false)
  | Some (false, k') => k' = k /\ PubKey_IsFullyValid k = false
  | None => False
  end.
Proof.
  unfold PubKey_Decompress, PubKey_IsFullyValid. pose proof (ec_pubkey_parse_spec (PubKey_data k)) as Hp.
  destruct (PubKey_IsValid k); cbn [negb]; [|done]. destruct (secp256k1_ec_pubkey_parse _) as [pk|]; [|done].
  destruct Hp as (x & y & g & El & Hg & Hc & He).
  change SECP256K1_EC_UNCOMPRESSED with (encode_flags false).
  rewrite (ec_pubkey_serialize_spec pk g x y false El Hg). cbn [mbind option_bind default]. by exists x, y.
Qed.

(** A key in the long form, header included, is what its point is written as. *)
Lemma data_long k x y : encodes (PubKey_data k) x y -> byte_at (pk_vch k) 0 = 4 -> PubKey_data k = encode x y false.
Proof.
  intros He H4. apply encodes_long; [done|]. pose proof (data_encodes_valid _ _ _ He) as Hv. unfold PubKey_IsValid in Hv.
  revert H4. unfold PubKey_data. destruct (pk_vch k) as [|b vch]; [done|]. apply Z.ltb_lt in Hv.
  by destruct (Z.to_nat (PubKey_size k)) eqn:E; [lia|].
Qed.

(** Compressing a key of the long form and decompressing it gives the key back,
    whatever the array held before. *)
Lemma decompress_compress_spec k k0 pk :
  byte_at (pk_vch k) 0 = 4 -> secp256k1_ec_pubkey_parse (PubKey_data k) = Some pk ->
  exists out k', secp256k1_ec_pubkey_serialize 65 pk SECP256K1_EC_COMPRESSED = Some (Some out) /\ length out = 33%nat
    /\ PubKey_Decompress (PubKey_Set k0 out) = Some (true, k') /\ PubKey_data k' = PubKey_data k.
Proof.
  intros H4 Ep. pose proof (ec_pubkey_parse_spec (PubKey_data k)) as Hp. rewrite Ep in Hp.
  destruct Hp as (x & y & g & El & Hg & Hc & He). change SECP256K1_EC_COMPRESSED with (encode_flags true).
  rewrite (ec_pubkey_serialize_spec pk g x y true El Hg). exists (encode x y true).
  pose proof (Decompress_spec (PubKey_Set k0 (encode x y true))) as Hd.
  destruct (PubKey_Decompress _) as [[[] k']|] eqn:Ed; [..|done].
  - destruct Hd as (x' & y' & Hc' & He' & ->). eexists. split_and!; [done|by rewrite encode_length|done|].
    rewrite Set_encode in *. rewrite (data_long k x y) by done.
    by destruct (encodes_unique _ _ _ _ _ He' (encode_encodes x y true) Hc' Hc) as [-> ->].
  - destruct Hd as [_ Hf]. exfalso. eapply not_true_iff_false; [exact Hf|]. apply IsFullyValid_spec.
    exists x, y. split; [done|]. rewrite Set_encode. apply encode_encodes.
Qed.

(** Reading a valid key back gives an equal key, whatever the array held before. *)
Lemma PubKey_roundtrip_spec k k0 rest :
  pubkey_wf k -> PubKey_IsValid k = true ->
  exists k', PubKey_Unserialize k0 (PubKey_Serialize k ++ rest) = Ok (k', rest) /\ PubKey_eqb k' k = true.
Proof.
  intros Hw Hv. apply Z.ltb_lt in Hv. unfold pubkey_wf in Hw.
  assert (0 < PubKey_size k <= 65) as Hs by (destruct (GetLen_values (byte_at (pk_vch k) 0)) as [E|[E|E]]; unfold PubKey_size in *; lia).
  assert (Zlength (PubKey_data k) = PubKey_size k) as El by (unfold Zlength, PubKey_data; rewrite length_take; lia).
  unfold PubKey_Unserialize, PubKey_Serialize. cbv zeta. rewrite <- (assoc_L (++)), codec_step by (unfold compact_range, MAX_SIZE; lia).
  rewrite (proj2 (Z.leb_le _ _)) by lia. unfold mbind, reader_bind.
  assert (stream_read (PubKey_size k) (PubKey_data k ++ rest) = Ok (PubKey_data k, rest)) as -> by (rewrite <- El; apply stream_read_app).
  eexists. split; [done|]. unfold PubKey_eqb.
  assert (byte_at (PubKey_data k ++ drop (length (PubKey_data k)) (pk_vch k0)) 0 = byte_at (pk_vch k) 0) as Eh.
  { unfold PubKey_data, byte_at. destruct (pk_vch k); [done|]. by destruct (Z.to_nat (PubKey_size k)) eqn:E; [lia|]. }
  apply andb_true_intro. split; [by apply Z.eqb_eq|]. apply bool_decide_eq_true_2. unfold PubKey_size, overwrite. cbn [pk_vch].
  rewrite Eh. fold (PubKey_size k). rewrite take_app_length'; [done|]. unfold Zlength in El. lia.
Qed.

(** C17: a public key is fully valid exactly when its bytes are one of the encodings of a
    point of the curve (33 bytes with the parity, or 65 with both coordinates below the
    modulus); decompressing succeeds on exactly these and gives the long encoding of the
    same point, and leaves every other key alone; no assertion fails. *)
Theorem pubkey_decompress_correct k :
  (PubKey_IsFullyValid k = true <-> exists x y, on_curve (Aff x y) /\ encodes (PubKey_data k) x y) /\
  exists ok k', PubKey_Decompress k = Some (ok, k') /\ ok = PubKey_IsFullyValid k /\
    (ok = false -> k' = k) /\
    (forall x y, on_curve (Aff x y) -> encodes (PubKey_data k) x y -> PubKey_data k' = encode x y false).
Proof.
  split; [apply IsFullyValid_spec|]. pose proof (Decompress_spec k) as Hd.
  destruct (PubKey_Decompress k) as [[[] k']|]; [..|done].
  - destruct Hd as (x & y & Hc & He & ->). exists true, (PubKey_Set k (encode x y false)). split; [done|].
    split; [symmetry; apply IsFullyValid_spec; eauto|]. split; [done|]. intros x' y' Hc' He'.
    destruct (encodes_unique _ _ _ _ _ He He' Hc Hc') as [-> ->]. apply Set_encode.
  - destruct Hd as [-> Hf]. exists false, k. split_and!; try done. intros x y Hc He.
    assert (PubKey_IsFullyValid k = true) by (apply IsFullyValid_spec; eauto). congruence.
Qed.
