(* ===== verification/Compressor.v ===== *)
(** The compact form of outputs (compressor.h, compressor.cpp).

    Amounts are written without their trailing decimal zeros, and the three common
    output scripts by a tag and the hash or coordinate in them. The theorems say that
    both are read back exactly: amounts in the whole range of money, and scripts up to
    the size limit, the decompression of public keys included. *)
From stdpp Require Import base list numbers.
From S2P Require Import Prelude Serialize Primitives Script FieldPrime Group Pubkey.

Local Open Scope Z_scope.

(** ** Amounts *)

(** The loop of CompressAmount; [room] is [9 - e]. *)
Fixpoint strip_zeros (room : nat) (n e : Z) : Z * Z :=
  match room with
  | O => (n, e)
  | S room => if n mod 10 =? 0 then strip_zeros room (n / 10) (e + 1) else (n, e)
  end.

(** [None] is a failed assertion. *)
Definition CompressAmount (n : Z) : option Z :=
  if n =? 0 then Some 0
  else
    let '(n, e) := strip_zeros 9 n 0 in
    if e <? 9 then
      let d := n mod 10 in
      if (1 <=? d) && (d <=? 9) then
        let n := n / 10 in
        Some (u64 (1 + (n * 9 + d - 1) * 10 + e))
      else None
    else Some (u64 (1 + (n - 1) * 10 + 9)).

Definition DecompressAmount (x : Z) : Z :=
  if x =? 0 then 0
  else
    let x := x - 1 in
    let e := x mod 10 in
    let x := x / 10 in
    let n := if e <? 9 then let d := x mod 9 + 1 in u64 (x / 9 * 10 + d) else u64 (x + 1) in
    Nat.iter (Z.to_nat e) (fun n => u64 (n * 10)) n.

(** ** Scripts *)

Definition IsToKeyID (script : CScript) : option bytes :=
  if (Zlength script =? 25) && (byte_at script 0 =? OP_DUP) && (byte_at script 1 =? OP_HASH160)
     && (byte_at script 2 =? 20) && (byte_at script 23 =? OP_EQUALVERIFY) && (byte_at script 24 =? OP_CHECKSIG)
  then Some (slice script 3 20) else None.

Definition IsToScriptID (script : CScript) : option bytes :=
  if (Zlength script =? 23) && (byte_at script 0 =? OP_HASH160) && (byte_at script 1 =? 20) && (byte_at script 22 =? OP_EQUAL)
  then Some (slice script 2 20) else None.

Definition IsToPubKey (pubkey : CPubKey) (script : CScript) : option CPubKey :=
  if (Zlength script =? 35) && (byte_at script 0 =? 33) && (byte_at script 34 =? OP_CHECKSIG)
     && ((byte_at script 1 =? 0x02) || (byte_at script 1 =? 0x03))
  then Some (PubKey_Set pubkey (slice script 1 33))
  else if (Zlength script =? 67) && (byte_at script 0 =? 65) && (byte_at script 66 =? OP_CHECKSIG) && (byte_at script 1 =? 0x04)
  then
    let pubkey := PubKey_Set pubkey (slice script 1 65) in
    if PubKey_IsFullyValid pubkey then Some pubkey else None
  else None.

Definition Compress (script : CScript) : option bytes :=
  match IsToKeyID script with
  | Some keyID => Some (byte_of 0x00 :: keyID)
  | None =>
      match IsToScriptID script with
      | Some scriptID => Some (byte_of 0x01 :: scriptID)
      | None =>
          pubkey ← IsToPubKey CPubKey_new script;
          let head := byte_at (pk_vch pubkey) 0 in
          let rest := slice (pk_vch pubkey) 1 32 in
          if (head =? 0x02) || (head =? 0x03) then Some (byte_of head :: rest)
          else if head =? 0x04 then Some (byte_of (Z.lor 0x04 (Z.land (byte_at (pk_vch pubkey) 64) 0x01)) :: rest)
          else None
      end
  end.

Definition GetSpecialSize (nSize : Z) : Z :=
  if (nSize =? 0) || (nSize =? 1) then 20
  else if (nSize =? 2) || (nSize =? 3) || (nSize =? 4) || (nSize =? 5) then 32
  else 0.

(** The script written, with false when the tag has no meaning or the key does not
    decompress; [None] is a failed assertion. *)
Definition Decompress (nSize : Z) (input : bytes) (script : CScript) : option (bool * CScript) :=
  if nSize =? 0x00 then
    Some (true, (byte_of <$> [OP_DUP; OP_HASH160; 20]) ++ take 20 input ++ (byte_of <$> [OP_EQUALVERIFY; OP_CHECKSIG]))
  else if nSize =? 0x01 then
    Some (true, (byte_of <$> [OP_HASH160; 20]) ++ take 20 input ++ (byte_of <$> [OP_EQUAL]))
  else if (nSize =? 0x02) || (nSize =? 0x03) then
    Some (true, (byte_of <$> [33; nSize]) ++ take 32 input ++ (byte_of <$> [OP_CHECKSIG]))
  else if (nSize =? 0x04) || (nSize =? 0x05) then
    '(ok, pubkey) ← PubKey_Decompress (PubKey_Set CPubKey_new (byte_of (nSize - 2) :: take 32 input));
    if negb ok then Some (false, script)
    else if PubKey_size pubkey =? 65 then
      Some (true, (byte_of <$> [65]) ++ PubKey_data pubkey ++ (byte_of <$> [OP_CHECKSIG]))
    else None
  else Some (false, script).

Definition nSpecialScripts : Z := 6.

(** [None] is a value [WriteVarInt] has no room for. *)
Definition Serialize_script_compressed (script : CScript) : option bytes :=
  match Compress script with
  | Some compr => Some compr
  | None =>
      let nSize := u32 (Zlength script + nSpecialScripts) in
      size ← WriteVarInt 32 nSize;
      Some (size ++ script)
  end.

(** [ignore] of the streams: the bytes are there and are dropped, or an exception. *)
Definition stream_ignore (nSize : Z) : reader unit := _ ← stream_read nSize; mret tt.

(** Reading into [script], which the result of Decompress does not tell about. *)
Definition Unserialize_script_compressed (script : CScript) : reader CScript :=
  nSize ← ReadVarInt (2 ^ 32 - 1);
  if nSize <? nSpecialScripts then
    vch ← stream_read (GetSpecialSize nSize);
    match Decompress nSize vch script with
    | Some (_, script) => mret script
    | None => throw Aborted
    end
  else
    let nSize := nSize - nSpecialScripts in
    if MAX_SCRIPT_SIZE <? nSize then
      let script := script ++ [byte_of OP_RETURN] in
      _ ← stream_ignore nSize; mret script
    else stream_read nSize.

(** ** Outputs *)

Definition Serialize_txout_compressed (txout : CTxOut) : option bytes :=
  nVal ← CompressAmount (u64 (nValue txout));
  amount ← WriteVarInt 64 nVal;
  script ← Serialize_script_compressed (scriptPubKey txout);
  Some (amount ++ script).

Definition Unserialize_txout_compressed (txout : CTxOut) : reader CTxOut :=
  nVal ← ReadVarInt (2 ^ 64 - 1);
  script ← Unserialize_script_compressed (scriptPubKey txout);
  mret (mkTxOut (i64 (DecompressAmount nVal)) script).

(** ** Amounts are read back *)

Lemma strip_zeros_spec room n e : 0 < n ->
  let '(n', e') := strip_zeros room n e in
  n = n' * 10 ^ (e' - e) /\ 0 < n' /\ e <= e' <= e + Z.of_nat room /\ (e' < e + Z.of_nat room -> n' mod 10 <> 0).
Proof.
  revert n e. induction room as [|room IH]; intros n e Hn; cbn [strip_zeros].
  { rewrite Z.sub_diag. lia. }
  destruct (Z.eqb_spec (n mod 10) 0) as [E|E].
  - specialize (IH (n / 10) (e + 1)). destruct (strip_zeros room (n / 10) (e + 1)) as [n' e'].
    destruct IH as (E1 & H1 & H2 & H3); [apply Z.div_str_pos; pose proof (Z.div_mod n 10); lia|].
    split_and!; [|done|lia..|intros ?; apply H3; lia].
    replace (e' - e) with (Z.succ (e' - (e + 1))) by lia. rewrite Z.pow_succ_r by lia.
    pose proof (Z.div_mod n 10 ltac:(lia)). lia.
  - rewrite Z.sub_diag. split_and!; lia.
Qed.

Lemma times_ten k n : 0 <= n -> n * 10 ^ Z.of_nat k < 2 ^ 64 -> Nat.iter k (fun n => u64 (n * 10)) n = n * 10 ^ Z.of_nat k.
Proof.
  intros Hn. induction k as [|k IH]; intros Hb; [cbn; lia|]. rewrite Nat2Z.inj_succ, Z.pow_succ_r in * by lia.
  change (u64 (Nat.iter k (fun n => u64 (n * 10)) n * 10) = n * (10 * 10 ^ Z.of_nat k)).
  pose proof (Z.pow_pos_nonneg 10 (Z.of_nat k) ltac:(lia) ltac:(lia)). rewrite IH by nia.
  replace (n * (10 * 10 ^ Z.of_nat k)) with (n * 10 ^ Z.of_nat k * 10) in * by ring. apply wrapu_small. split; nia.
Qed.

(** The amount a compressed amount stands for, as an integer. *)
Definition amount_of (x : Z) : Z :=
  if x =? 0 then 0
  else
    let m := (x - 1) / 10 in let e := (x - 1) mod 10 in
    (if e <? 9 then m / 9 * 10 + m mod 9 + 1 else m + 1) * 10 ^ e.

Lemma DecompressAmount_eq x : 0 <= x -> amount_of x < 2 ^ 64 -> DecompressAmount x = amount_of x.
Proof.
  unfold DecompressAmount, amount_of. destruct (Z.eqb_spec x 0); [done|]. cbv zeta. intros Hx Hb.
  pose proof (Z.mod_pos_bound (x - 1) 10 ltac:(lia)) as He. pose proof (Z.div_pos (x - 1) 10 ltac:(lia) ltac:(lia)).
  set (m := (x - 1) / 10) in *. set (e := (x - 1) mod 10) in *.
  pose proof (Z.mod_pos_bound m 9 ltac:(lia)). pose proof (Z.div_pos m 9 ltac:(lia) ltac:(lia)).
  assert (1 <= 10 ^ e) as Hp by (pose proof (Z.pow_pos_nonneg 10 e); lia).
  destruct (e <? 9); rewrite wrapu_small by (split; nia); rewrite times_ten, ?Z2Nat.id; rewrite ?Z2Nat.id; lia.
Qed.

(** Compression is the inverse: it writes the number of the amount. *)
Lemma CompressAmount_spec n : 0 <= n < 2 ^ 60 ->
  exists x, CompressAmount n = Some x /\ 0 <= x < 2 ^ 64 /\ amount_of x = n.
Proof.
  intros Hn. unfold CompressAmount. destruct (Z.eqb_spec n 0) as [->|Hnz]; [by exists 0|].
  pose proof (strip_zeros_spec 9 n 0 ltac:(lia)) as Hs. destruct (strip_zeros 9 n 0) as [q e].
  destruct Hs as (En & Hq & He & Hd). rewrite Z.sub_0_r in En. cbn in He.
  assert (1 <= 10 ^ e) as H1 by (pose proof (Z.pow_pos_nonneg 10 e); lia). assert (q <= n) as Hqn by nia.
  pose proof (Z.div_mod q 10 ltac:(lia)) as Eq. pose proof (Z.mod_pos_bound q 10 ltac:(lia)) as Hm.
  destruct (Z.ltb_spec e 9).
  - specialize (Hd ltac:(lia)). cbv zeta. rewrite (proj2 (Z.leb_le 1 _)), (proj2 (Z.leb_le _ 9)) by lia. cbn [andb].
    eexists. split; [done|]. set (d := q mod 10) in *. set (h := q / 10) in *.
    rewrite wrapu_small by (split; lia). split; [lia|]. unfold amount_of. rewrite (proj2 (Z.eqb_neq _ 0)) by lia. cbv zeta.
    replace (1 + (h * 9 + d - 1) * 10 + e - 1) with (e + (h * 9 + d - 1) * 10) by lia.
    rewrite Z.mod_add, Z.div_add, (Z.mod_small e), (Z.div_small e) by lia. rewrite (proj2 (Z.ltb_lt e 9)) by lia.
    replace (0 + (h * 9 + d - 1)) with (d - 1 + h * 9) by lia.
    rewrite Z.mod_add, Z.div_add, (Z.mod_small (d - 1)), (Z.div_small (d - 1)) by lia. rewrite En. f_equal. lia.
  - replace e with 9 in * by lia. eexists. split; [done|]. rewrite wrapu_small by (split; lia). split; [lia|].
    unfold amount_of. rewrite (proj2 (Z.eqb_neq _ 0)) by lia. cbv zeta.
    replace (1 + (q - 1) * 10 + 9 - 1) with (9 + (q - 1) * 10) by lia.
    rewrite Z.mod_add, Z.div_add by lia. change (9 mod 10) with 9. change (9 / 10) with 0.
    change (9 <? 9) with false. cbv iota. rewrite En. f_equal. lia.
Qed.

Lemma amount_roundtrip_spec n : 0 <= n < 2 ^ 60 -> exists x, CompressAmount n = Some x /\ 0 <= x < 2 ^ 64 /\ DecompressAmount x = n.
Proof.
  intros Hn. destruct (CompressAmount_spec n Hn) as (x & Ex & Hx & Ea). exists x. split_and!; [done|lia..|].
  rewrite DecompressAmount_eq; [done|lia|rewrite Ea; lia].
Qed.

(** ** Scripts are read back *)

Lemma ReadVarInt_byte imax b s : 0 <= imax -> bval b < 128 -> ReadVarInt imax (b :: s) = Ok (bval b, s).
Proof.
  intros Hi Hb. unfold ReadVarInt. rewrite ReadVarInt_step. pose proof (Z.div_pos imax 128 Hi ltac:(lia)).
  rewrite (proj2 (Z.ltb_ge _ _)) by lia. cbv zeta. rewrite (proj2 (Z.ltb_lt (bval b) 128)) by lia.
  pose proof (bval_range b). by rewrite Z.mod_small by lia.
Qed.

(** What a compressed script is: a tag below 6 and the bytes its size announces, from
    which the script is rebuilt whatever stood in its place. *)
Definition rebuilds (out : bytes) (script : CScript) : Prop :=
  exists b data, out = b :: data /\ bval b < nSpecialScripts /\ Zlength data = GetSpecialSize (bval b)
    /\ forall old, Decompress (bval b) data old = Some (true, script).

Ltac known_bytes :=
  repeat match goal with
    | H : andb _ _ = true |- _ => apply andb_prop in H as [? ?]
    | H : Z.eqb _ _ = true |- _ => apply Z.eqb_eq in H
    end.

Lemma IsToKeyID_rebuilds script h : IsToKeyID script = Some h -> rebuilds (byte_of 0x00 :: h) script.
Proof.
  unfold IsToKeyID. destruct (_ && _) eqn:E; [|done]. intros [= <-]. known_bytes. unfold Zlength in *.
  exists (byte_of 0), (slice script 3 20). rewrite bval_byte_of_small by lia.
  split_and!; [done..|by unfold Zlength; rewrite slice_length by lia|]. intros old. unfold Decompress. cbn [Z.eqb].
  rewrite take_ge by (rewrite slice_length; lia). do 2 f_equal. symmetry.
  rewrite <- (drop_0 script) at 1. do 3 (erewrite drop_byte; [|lia|eassumption]). cbn [fmap list_fmap app].
  rewrite (drop_slice script 3 20). do 2 (erewrite (drop_byte script); [|lia|eassumption]).
  by rewrite (drop_ge script) by lia.
Qed.

Lemma IsToScriptID_rebuilds script h : IsToScriptID script = Some h -> rebuilds (byte_of 0x01 :: h) script.
Proof.
  unfold IsToScriptID. destruct (_ && _) eqn:E; [|done]. intros [= <-]. known_bytes. unfold Zlength in *.
  exists (byte_of 1), (slice script 2 20). rewrite bval_byte_of_small by lia.
  split_and!; [done..|by unfold Zlength; rewrite slice_length by lia|]. intros old. unfold Decompress. cbn [Z.eqb Pos.eqb].
  rewrite take_ge by (rewrite slice_length; lia). do 2 f_equal. symmetry.
  rewrite <- (drop_0 script) at 1. do 2 (erewrite drop_byte; [|lia|eassumption]). cbn [fmap list_fmap app].
  rewrite (drop_slice script 2 20). erewrite (drop_byte script); [|lia|eassumption].
  by rewrite (drop_ge script) by lia.
Qed.

(** A key taken over from a range of its own length. *)
Lemma Set_vch k data : pubkey_wf k -> (0 < length data)%nat -> PubKey_GetLen (byte_at data 0) = Zlength data ->
  pk_vch (PubKey_Set k data) = overwrite (pk_vch k) data /\ PubKey_data (PubKey_Set k data) = data.
Proof.
  intros Hk Hl E. destruct data as [|b data]; [cbn in Hl; lia|]. change (byte_at (b :: data) 0) with (bval b) in E.
  split; [|by apply Set_data]. unfold PubKey_Set. rewrite E, Z.eqb_refl.
  rewrite (proj2 (Z.eqb_neq _ 0)) by (unfold Zlength; cbn [length]; lia). done.
Qed.

Lemma IsToPubKey_short script (h : Z) :
  Zlength script = 35 -> byte_at script 0 = 33 -> byte_at script 34 = OP_CHECKSIG -> byte_at script 1 = h ->
  h = 2 \/ h = 3 -> rebuilds (byte_of h :: slice script 2 32) script.
Proof.
  intros Hl H0 H34 H1 Hh. unfold Zlength in Hl. exists (byte_of h), (slice script 2 32).
  rewrite bval_byte_of_small by lia. assert (length (slice script 2 32) = 32%nat) as Hs by (apply slice_length; lia).
  split_and!; [done|unfold nSpecialScripts; lia|unfold Zlength; rewrite Hs; by destruct Hh as [->| ->]|].
  intros old. unfold Decompress. rewrite !(proj2 (Z.eqb_neq h _)) by lia.
  assert ((h =? 2) || (h =? 3) = true) as -> by (destruct Hh as [->| ->]; done).
  rewrite take_ge by lia. do 2 f_equal. symmetry.
  rewrite <- (drop_0 script) at 1. do 2 (erewrite drop_byte; [|lia|eassumption]). cbn [fmap list_fmap app].
  rewrite (drop_slice script 2 32). erewrite (drop_byte script); [|lia|eassumption].
  by rewrite (drop_ge script) by lia.
Qed.

(** The last byte of the long form has the parity of [y]. *)
Lemma encode_parity x y : Z.land (byte_at (encode x y false) 64) 1 = Z.b2z (Z.odd (to_Z y)).
Proof.
  unfold encode, byte_at. cbn [nth]. rewrite app_nth2 by (rewrite be_bytes_length; lia). rewrite be_bytes_length.
  rewrite rev_nth by (rewrite length_le_bytes; lia). rewrite length_le_bytes. cbn [Nat.sub nth le_bytes].
  rewrite bval_byte_of. change 256 with (2 ^ 8). rewrite <- Z.land_ones by lia. rewrite <- Z.land_assoc.
  change (Z.land (Z.ones 8) 1) with (Z.ones 1). rewrite Z.land_ones by lia. change (2 ^ 1) with 2. by rewrite Zmod_odd; destruct (Z.odd _).
Qed.

Lemma encode_x x y c : slice (encode x y c) 1 32 = rev (le_bytes 32 (to_Z x)).
Proof.
  unfold encode, slice. destruct c; rewrite skipn_cons, drop_0; [by rewrite take_ge by by rewrite be_bytes_length|].
  by rewrite take_app_length' by by rewrite be_bytes_length.
Qed.

(** Decompressing the short form of a point of the curve. *)
Lemma Decompress_encode k x y : on_curve (Aff x y) ->
  PubKey_Decompress (PubKey_Set k (encode x y true)) = Some (true, PubKey_Set (PubKey_Set k (encode x y true)) (encode x y false)).
Proof.
  intros Hc. pose proof (Decompress_spec (PubKey_Set k (encode x y true))) as Hd.
  destruct (PubKey_Decompress _) as [[[] k']|] eqn:Ed; [..|done].
  - destruct Hd as (x' & y' & Hc' & He' & ->). rewrite Set_encode in He'.
    by destruct (encodes_unique _ _ _ _ _ He' (encode_encodes x y true) Hc' Hc) as [-> ->].
  - destruct Hd as [_ Hf]. exfalso. eapply not_true_iff_false; [exact Hf|]. apply IsFullyValid_spec.
    exists x, y. split; [done|]. rewrite Set_encode. apply encode_encodes.
Qed.

Lemma PubKey_size_data k : length (PubKey_data k) = 65%nat -> PubKey_size k = 65.
Proof.
  unfold PubKey_data. rewrite length_take. unfold PubKey_size at 2.
  destruct (GetLen_values (byte_at (pk_vch k) 0)) as [E|[E|E]]; unfold PubKey_size; rewrite E; lia.
Qed.

Lemma IsToPubKey_long script x y :
  Zlength script = 67 -> byte_at script 0 = 65 -> byte_at script 66 = OP_CHECKSIG -> slice script 1 65 = encode x y false ->
  on_curve (Aff x y) ->
  rebuilds (byte_of (Z.lor 4 (Z.b2z (Z.odd (to_Z y)))) :: rev (le_bytes 32 (to_Z x))) script.
Proof.
  intros Hl H0 H66 Es Hc. unfold Zlength in Hl.
  assert (Z.lor 4 (Z.b2z (Z.odd (to_Z y))) = 4 + Z.b2z (Z.odd (to_Z y))) as -> by by destruct (Z.odd _).
  set (h := 4 + Z.b2z (Z.odd (to_Z y))). assert (4 <= h <= 5) as Hh by (unfold h; destruct (Z.odd _); cbn; lia).
  exists (byte_of h), (rev (le_bytes 32 (to_Z x))). rewrite bval_byte_of_small by lia.
  split_and!; [done|unfold nSpecialScripts; lia| |].
  { unfold Zlength. rewrite be_bytes_length. unfold GetSpecialSize.
    rewrite !(proj2 (Z.eqb_neq h _)) by lia. assert ((h =? 4) || (h =? 5) = true) as Ho by (unfold h; by destruct (Z.odd _)).
    cbn [orb]. by rewrite Ho. }
  intros old. unfold Decompress. rewrite !(proj2 (Z.eqb_neq h _)) by lia. cbn [orb].
  assert ((h =? 4) || (h =? 5) = true) as -> by (unfold h; by destruct (Z.odd _)).
  rewrite take_ge by by rewrite be_bytes_length.
  replace (byte_of (h - 2) :: rev (le_bytes 32 (to_Z x))) with (encode x y true) by (unfold encode, h; do 2 f_equal; lia).
  rewrite Decompress_encode by done. cbn [mbind option_bind negb]. rewrite PubKey_size_data by by rewrite Set_encode, encode_length.
  rewrite Set_encode, <- Es. cbn [Z.eqb Pos.eqb]. do 2 f_equal. symmetry.
  rewrite <- (drop_0 script) at 1. erewrite drop_byte; [|lia|eassumption]. cbn [fmap list_fmap app].
  rewrite (drop_slice script 1 65). erewrite (drop_byte script); [|lia|eassumption].
  by rewrite (drop_ge script) by lia.
Qed.

Lemma CPubKey_new_wf : pubkey_wf CPubKey_new.
Proof. done. Qed.

Lemma IsToPubKey_rebuilds script k :
  IsToPubKey CPubKey_new script = Some k ->
  exists b, rebuilds (b :: slice (pk_vch k) 1 32) script /\
    ((byte_at (pk_vch k) 0 = 2 \/ byte_at (pk_vch k) 0 = 3) /\ b = byte_of (byte_at (pk_vch k) 0) \/
     byte_at (pk_vch k) 0 = 4 /\ b = byte_of (Z.lor 4 (Z.land (byte_at (pk_vch k) 64) 1))).
Proof.
  unfold IsToPubKey. destruct (_ && ((_ =? 2) || (_ =? 3))) eqn:E.
  - intros [= <-]. apply andb_prop in E as [E Hh]. known_bytes. apply orb_true_iff in Hh. rewrite !Z.eqb_eq in Hh.
    unfold Zlength in *. assert (length (slice script 1 33) = 33%nat) as Hs by (apply slice_length; lia).
    assert (byte_at (slice script 1 33) 0 = byte_at script 1) as E0 by by rewrite byte_at_slice by lia.
    destruct (Set_vch CPubKey_new (slice script 1 33) CPubKey_new_wf) as [Ev _]; [lia| |].
    { rewrite E0. unfold Zlength. rewrite Hs. by destruct Hh as [->| ->]. }
    rewrite Ev. unfold overwrite. rewrite byte_at_app, slice_app, slice_slice, E0 by lia.
    exists (byte_of (byte_at script 1)). split; [by apply IsToPubKey_short|by left].
  - clear E. destruct (_ && (_ =? 4)) eqn:E; [|done]. known_bytes. cbv zeta. unfold Zlength in *.
    assert (length (slice script 1 65) = 65%nat) as Hs by (apply slice_length; lia).
    assert (byte_at (slice script 1 65) 0 = 4) as E0 by by rewrite byte_at_slice by lia.
    destruct (Set_vch CPubKey_new (slice script 1 65) CPubKey_new_wf) as [Ev Ed]; [lia| |].
    { rewrite E0. unfold Zlength. by rewrite Hs. }
    destruct (PubKey_IsFullyValid _) eqn:Ef; [|done]. intros [= <-].
    apply IsFullyValid_spec in Ef as (x & y & Hc & He). assert (byte_at (pk_vch (PubKey_Set CPubKey_new (slice script 1 65))) 0 = 4) as H4.
    { rewrite Ev. unfold overwrite. by rewrite byte_at_app by lia. }
    pose proof (data_long _ _ _ He H4) as El. rewrite Ed in El.
    rewrite Ev. unfold overwrite. rewrite !byte_at_app, slice_app, El, encode_x, encode_parity by lia.
    eexists. split; [by apply (IsToPubKey_long script x y); [unfold Zlength; lia|..]|]. right. by rewrite encode_head.
Qed.

Lemma Compress_rebuilds script out : Compress script = Some out -> rebuilds out script.
Proof.
  unfold Compress. destruct (IsToKeyID script) as [h|] eqn:E1; [intros [= <-]; by apply IsToKeyID_rebuilds|].
  destruct (IsToScriptID script) as [h|] eqn:E2; [intros [= <-]; by apply IsToScriptID_rebuilds|].
  destruct (IsToPubKey CPubKey_new script) as [k|] eqn:E3; cbn [mbind option_bind]; [|done]. cbv zeta.
  apply IsToPubKey_rebuilds in E3 as (b & Hr & [[Hh ->]|[Hh ->]]).
  - assert ((byte_at (pk_vch k) 0 =? 2) || (byte_at (pk_vch k) 0 =? 3) = true) as -> by (destruct Hh as [->| ->]; done).
    intros [= <-]. done.
  - rewrite Hh. cbn [Z.eqb Pos.eqb orb]. intros [= <-]. done.
Qed.

(** A script up to the size limit is read back, whatever stood in its place. *)
Lemma script_compressed_roundtrip_spec script old rest :
  Zlength script <= MAX_SCRIPT_SIZE ->
  exists b, Serialize_script_compressed script = Some b /\ Unserialize_script_compressed old (b ++ rest) = Ok (script, rest).
Proof.
  intros Hl. unfold Serialize_script_compressed, MAX_SCRIPT_SIZE in *. pose proof (Zlength_nonneg script) as Hn.
  destruct (Compress script) as [out|] eqn:Ec.
  - apply Compress_rebuilds in Ec as (b & data & -> & Hb & Hd & Hr). eexists. split; [done|].
    unfold Unserialize_script_compressed. unfold nSpecialScripts in *. unfold mbind, reader_bind at 1. cbn [app].
    rewrite ReadVarInt_byte by lia. rewrite (proj2 (Z.ltb_lt _ _)) by done. rewrite <- Hd.
    unfold reader_bind. by rewrite stream_read_app, Hr.
  - unfold nSpecialScripts in *. rewrite wrapu_small by (split; lia). cbv zeta.
    destruct (varint_step 32 (Zlength script + 6)) as (size & Es & Hs); [lia|split; lia|].
    rewrite Es. cbn [mbind option_bind]. eexists. split; [done|].
    unfold Unserialize_script_compressed. rewrite <- (assoc_L (++)), Hs. unfold nSpecialScripts, MAX_SCRIPT_SIZE.
    rewrite !(proj2 (Z.ltb_ge _ _)) by lia. cbv zeta. replace (Zlength script + 6 - 6) with (Zlength script) by lia.
    apply stream_read_app.
Qed.

(** An output that can be money with a script that can be spent. *)
Definition compressible (o : CTxOut) : Prop := 0 <= nValue o <= MAX_MONEY /\ Zlength (scriptPubKey o) <= MAX_SCRIPT_SIZE.

Lemma txout_compressed_roundtrip_spec o old : compressible o ->
  exists b, Serialize_txout_compressed o = Some b /\ forall rest, Unserialize_txout_compressed old (b ++ rest) = Ok (o, rest).
Proof.
  intros [Hv Hs]. assert (0 <= nValue o < 2 ^ 60) as Hv' by (assert (MAX_MONEY < 2 ^ 60) by done; lia).
  destruct (amount_roundtrip_spec (nValue o) Hv') as (x & Ex & Hx & Ed).
  destruct (varint_step 64 x) as (amount & Ea & Ra); [lia|split; lia|].
  unfold Serialize_txout_compressed. rewrite wrapu_small by (split; lia). rewrite Ex. cbn [mbind option_bind]. rewrite Ea. cbn [mbind option_bind].
  destruct (script_compressed_roundtrip_spec (scriptPubKey o) (scriptPubKey old) [] Hs) as (b & Eb & _). rewrite Eb. cbn [mbind option_bind].
  eexists. split; [done|]. intros rest. unfold Unserialize_txout_compressed. rewrite <- (assoc_L (++)), Ra.
  destruct (script_compressed_roundtrip_spec (scriptPubKey o) (scriptPubKey old) rest Hs) as (b' & Eb' & Hr).
  assert (b' = b) as -> by congruence. unfold mbind, reader_bind. rewrite Hr, Ed. rewrite wraps_small by (split; lia). by destruct o.
Qed.
