(* ===== verification/Undo.v ===== *)
(** Undo data (undo.h, coins.h, validation.cpp).

    The serialization of coins in the database and in undo records, the undo records of
    transactions and blocks, and their way to the undo files and back. The theorems say
    that all of them are read back, and that undo data written at the position
    FindUndoPos returns passes its checksum and equals what was written, without
    disturbing anything stored before. *)
From Stdlib Require Import Strings.String.
From S2P Require Import Prelude Serialize Sha256 Primitives ArithUint256 Chain Pow FlatFile BlockFiles Script Coins TxVerify UpdateCoins Compressor.

#[local] Open Scope Z_scope.

(** ** Coins in the database (coins.h) *)

(** [nHeight * 2 + fCoinBase]; the bit-field has 31 bits and promotes to [int], and an
    overflow has no meaning. *)
Definition coin_code (coin : Coin) : option Z :=
  let code := c_nHeight coin * 2 + Z.b2z (c_fCoinBase coin) in
  if code <? 2 ^ 31 then Some code else None.

Definition Serialize_coin (coin : Coin) : option bytes :=
  if IsSpent coin then None
  else
    code ← coin_code coin;
    n ← WriteVarInt 32 code;
    out ← Serialize_txout_compressed (c_out coin);
    Some (n ++ out).

Definition Unserialize_coin (coin : Coin) : reader Coin :=
  code ← ReadVarInt (2 ^ 32 - 1);
  out ← Unserialize_txout_compressed (c_out coin);
  mret (mkCoin out (Z.odd code) (Z.shiftr code 1)).

(** ** Undo records (undo.h) *)

Definition Serialize_txinundo (coin : Coin) : option bytes :=
  code ← coin_code coin;
  n ← WriteVarInt 32 code;
  let dummy := if 0 <? c_nHeight coin then ser_writedata8 0 else [] in
  out ← Serialize_txout_compressed (c_out coin);
  Some (n ++ dummy ++ out).

(** The dummy is an [int]. *)
Definition Unserialize_txinundo (coin : Coin) : reader Coin :=
  nCode ← ReadVarInt (2 ^ 32 - 1);
  let nHeight := nCode / 2 in
  _ ← (if 0 <? nHeight then ReadVarInt (2 ^ 31 - 1) else mret 0);
  out ← Unserialize_txout_compressed (c_out coin);
  mret (mkCoin out (Z.odd nCode) nHeight).

Definition MIN_TRANSACTION_INPUT_WEIGHT : Z :=
  WITNESS_SCALE_FACTOR * Zlength (Serialize_txin (mkTxIn (mkOutPoint uint256_zero (2 ^ 32 - 1)) [] SEQUENCE_FINAL [])).
Definition MAX_INPUTS_PER_BLOCK : Z := MAX_BLOCK_WEIGHT / MIN_TRANSACTION_INPUT_WEIGHT.

Definition Serialize_txundo (vprevout : CTxUndo) : option bytes :=
  items ← mapM Serialize_txinundo vprevout;
  Some (WriteCompactSize (Zlength vprevout) ++ concat items).

(** [resize] fills the vector with default coins, which the records are read into. *)
Definition Unserialize_txundo : reader CTxUndo :=
  count ← ReadCompactSize;
  if MAX_INPUTS_PER_BLOCK <? count then throw TooManyUndoRecords
  else Unserialize_items (Unserialize_txinundo Coin_Clear) (Z.to_nat count).

(** [CBlockUndo] is the vector of the records, of 24 bytes each in memory. *)
Definition Serialize_blockundo (vtxundo : list CTxUndo) : option bytes :=
  items ← mapM Serialize_txundo vtxundo;
  Some (WriteCompactSize (Zlength vtxundo) ++ concat items).

Definition Unserialize_blockundo : reader (list CTxUndo) := Unserialize_vector Unserialize_txundo 24.

(** ** Undo files (validation.cpp) *)

Section disk.
Variable os : os_env.

(** The checksum follows the data in the file and is not part of the size. The outer
    [None] is a failure of the serializer, which has no meaning in the code. *)
Definition UndoWriteToDisk (blockundo : list CTxUndo) (pos : CDiskBlockPos) (hashBlock messageStart : bytes) (st : files)
  : option (files * option CDiskBlockPos) :=
  data ← Serialize_blockundo blockundo;
  let nSize := u32 (Zlength data) in
  let checksum := Hash2 hashBlock data in
  Some (write_framed os pre_rev (messageStart ++ ser_writedata32 nSize) (data ++ checksum) pos st).

(** The bytes a reader consumed, which [CHashVerifier] hashes as they are read. *)
Definition consumed (s rest : bytes) : bytes := take (length s - length rest) s.

Definition UndoReadFromDisk (pos : CDiskBlockPos) (hashBlock : uint256) (st : files) : option (list CTxUndo) :=
  d ← OpenDiskFile os (fs_disk st) pos pre_rev true;
  let s := fstream d pre_rev pos in
  match Unserialize_blockundo s with
  | Err _ => None
  | Ok (blockundo, rest) =>
      match Unserialize_base_blob 32 rest with
      | Err _ => None
      | Ok (hashChecksum, _) =>
          if bool_decide (hashChecksum = Hash2 hashBlock (consumed s rest)) then Some blockundo else None
      end
  end.
End disk.

(** ** Coins are read back *)

Definition coin_storable (coin : Coin) : Prop := 0 <= c_nHeight coin < 2 ^ 30 /\ compressible (c_out coin).

Lemma coin_code_spec coin : 0 <= c_nHeight coin < 2 ^ 30 ->
  exists code, coin_code coin = Some code /\ 0 <= code < 2 ^ 31 /\ Z.odd code = c_fCoinBase coin /\ code / 2 = c_nHeight coin.
Proof.
  intros Hh. unfold coin_code. cbv zeta. exists (c_nHeight coin * 2 + Z.b2z (c_fCoinBase coin)).
  assert (0 <= Z.b2z (c_fCoinBase coin) < 2) as Hb by (destruct (c_fCoinBase coin); cbn; lia).
  rewrite (proj2 (Z.ltb_lt _ _)) by lia. split_and!; [done|lia..| |].
  - rewrite Z.odd_add, Z.odd_mul, andb_false_r, xorb_false_l. by destruct (c_fCoinBase coin).
  - rewrite Z.add_comm, Z.div_add, Z.div_small by lia. lia.
Qed.

Lemma coin_roundtrip_spec coin old : coin_storable coin ->
  exists b, Serialize_coin coin = Some b /\ forall rest, Unserialize_coin old (b ++ rest) = Ok (coin, rest).
Proof.
  intros [Hh Hc]. destruct (coin_code_spec coin Hh) as (code & Ec & Hr & Eo & Ed).
  destruct (varint_step 32 code) as (n & En & Rn); [lia|split; lia|].
  destruct (txout_compressed_roundtrip_spec (c_out coin) (c_out old) Hc) as (b & Eb & Rb).
  unfold Serialize_coin. assert (IsSpent coin = false) as ->.
  { unfold IsSpent, CTxOut_IsNull. apply Z.eqb_neq. destruct Hc as [Hv _]. lia. }
  rewrite Ec. cbn [mbind option_bind]. rewrite En. cbn [mbind option_bind]. rewrite Eb. cbn [mbind option_bind].
  eexists. split; [done|]. intros rest. unfold Unserialize_coin. rewrite <- (assoc_L (++)), Rn. unfold mbind, reader_bind.
  rewrite Rb, Eo, Z.shiftr_div_pow2 by lia. change (2 ^ 1) with 2. rewrite Ed. by destruct coin.
Qed.

Lemma txinundo_roundtrip coin old : coin_storable coin ->
  exists b, Serialize_txinundo coin = Some b /\ forall rest, Unserialize_txinundo old (b ++ rest) = Ok (coin, rest).
Proof.
  intros [Hh Hc]. destruct (coin_code_spec coin Hh) as (code & Ec & Hr & Eo & Ed).
  destruct (varint_step 32 code) as (n & En & Rn); [lia|split; lia|].
  destruct (txout_compressed_roundtrip_spec (c_out coin) (c_out old) Hc) as (b & Eb & Rb).
  unfold Serialize_txinundo. rewrite Ec. cbn [mbind option_bind]. rewrite En. cbn [mbind option_bind]. rewrite Eb. cbn [mbind option_bind].
  eexists. split; [done|]. intros rest. unfold Unserialize_txinundo. rewrite <- (assoc_L (++)), Rn. cbv zeta. rewrite Ed, Eo.
  unfold mbind, reader_bind. destruct (0 <? c_nHeight coin).
  - rewrite <- (assoc_L (++)). change (ser_writedata8 0) with [byte_of 0]. cbn [app].
    rewrite ReadVarInt_byte by done. rewrite Rb. by destruct coin.
  - cbn [app]. unfold mret at 1, reader_ret. rewrite Rb. by destruct coin.
Qed.

(** ** Records are read back *)

Section mapped.
Context {A : Type} (ser : A -> option bytes) (unser : reader A) (wf : A -> Prop).
Hypothesis ser_ok : forall a, wf a -> exists b, ser a = Some b /\ forall rest, unser (b ++ rest) = Ok (a, rest).

Definition ser_of (a : A) : bytes := default [] (ser a).

Lemma ser_of_roundtrip a rest : wf a -> unser (ser_of a ++ rest) = Ok (a, rest).
Proof. intros Ha. destruct (ser_ok a Ha) as (b & Eb & R). unfold ser_of. by rewrite Eb. Qed.

Lemma mapM_ser_of l : Forall wf l -> mapM ser l = Some (map ser_of l).
Proof.
  induction 1 as [|a l Ha _ IH]; [done|]. destruct (ser_ok a Ha) as (b & Eb & _). cbn. unfold ser_of at 1. rewrite Eb. cbn.
  by rewrite IH.
Qed.

Lemma items_roundtrip l rest : Forall wf l -> Unserialize_items unser (length l) (concat (map ser_of l) ++ rest) = Ok (l, rest).
Proof.
  induction 1 as [|a l Ha _ IH]; [done|]. cbn [length Unserialize_items map concat]. unfold mbind, reader_bind in *.
  by rewrite <- (assoc_L (++)), ser_of_roundtrip, IH.
Qed.
End mapped.

Definition txundo_storable (u : CTxUndo) : Prop := Zlength u <= MAX_INPUTS_PER_BLOCK /\ Forall coin_storable u.
Definition blockundo_storable (us : list CTxUndo) : Prop := Zlength us <= MAX_SIZE /\ Forall txundo_storable us.

Lemma txundo_roundtrip u : txundo_storable u ->
  exists b, Serialize_txundo u = Some b /\ forall rest, Unserialize_txundo (b ++ rest) = Ok (u, rest).
Proof.
  intros [Hl Hu]. pose proof (fun c => txinundo_roundtrip c Coin_Clear) as Hrt.
  unfold Serialize_txundo. rewrite (mapM_ser_of _ _ _ Hrt u Hu). cbn [mbind option_bind]. eexists. split; [done|]. intros rest.
  unfold Unserialize_txundo. assert (MAX_INPUTS_PER_BLOCK <= MAX_SIZE) as Hm by (vm_compute; congruence).
  pose proof (Zlength_nonneg u). rewrite <- (assoc_L (++)), codec_step by (split; lia).
  rewrite (proj2 (Z.ltb_ge _ _)) by lia. unfold Zlength. rewrite Nat2Z.id. by apply (items_roundtrip _ _ _ Hrt).
Qed.

Lemma blockundo_roundtrip_spec us : blockundo_storable us ->
  exists b, Serialize_blockundo us = Some b /\ forall rest, Unserialize_blockundo (b ++ rest) = Ok (us, rest).
Proof.
  intros [Hl Hu]. pose proof txundo_roundtrip as Hrt. unfold Serialize_blockundo.
  rewrite (mapM_ser_of _ _ _ Hrt us Hu). cbn [mbind option_bind]. eexists. split; [done|]. intros rest.
  apply (Unserialize_vector_ser (ser_of Serialize_txundo) txundo_storable); [|lia|done].
  intros u r Hw. by apply (ser_of_roundtrip _ _ _ Hrt).
Qed.

(** ** Undo files *)

#[local] Opaque Hash2.

Lemma consumed_app data rest : consumed (data ++ rest) rest = data.
Proof. unfold consumed. rewrite length_app. apply take_app_length'. lia. Qed.

(** What a place of the undo files holds for a block. *)
Definition undo_kept (us : list CTxUndo) (hashBlock : uint256) (k : nat) (nPos : Z) (st : files) : Prop :=
  exists data, Serialize_blockundo us = Some data /\
    kept (mkPlace pre_rev k (Z.to_nat nPos) (data ++ Hash2 hashBlock data)) st.

Lemma undo_kept_read os us hashBlock k nPos st :
  undo_kept us hashBlock k nPos st -> 0 <= nPos -> blockundo_storable us -> os_can_open os pre_rev (Z.of_nat k) = true ->
  UndoReadFromDisk os (mkDiskPos (Z.of_nat k) nPos) hashBlock st = Some us.
Proof.
  intros (data & Ed & Hk) Hn Hu Ho. destruct (kept_stream os pre_rev k nPos _ st Hn Hk Ho) as [Hop [rest Hst]].
  unfold UndoReadFromDisk. rewrite Hop. cbn [mbind option_bind]. cbv zeta. rewrite Hst, <- (assoc_L (++)).
  destruct (blockundo_roundtrip_spec us Hu) as (b & Eb & R). assert (b = data) as -> by congruence. rewrite R.
  unfold Unserialize_base_blob. replace 32 with (Zlength (Hash2 hashBlock data)) by (unfold Zlength; by rewrite length_Hash2).
  rewrite stream_read_app, consumed_app. by rewrite bool_decide_eq_true_2.
Qed.

Lemma undo_kept_mono us hashBlock k nPos st st' : keeps st st' -> undo_kept us hashBlock k nPos st -> undo_kept us hashBlock k nPos st'.
Proof. intros Hk (data & Ed & H). exists data. split; [done|by apply Hk]. Qed.

(** Writing at the place FindUndoPos returned. *)
Lemma undo_write_spec os (k : nat) us data hashBlock messageStart st st1 pos i :
  fam_vinfo (fs_block st) !! k = Some i -> 0 <= fi_nUndoSize i -> Serialize_blockundo us = Some data ->
  fi_nUndoSize i + (Zlength data + 40) + UNDOFILE_CHUNK_SIZE < 2 ^ 32 -> length messageStart = 4%nat ->
  FindUndoPos os (Z.of_nat k) (Zlength data + 40) st = Some (st1, Some pos) -> os_can_open os pre_rev (Z.of_nat k) = true ->
  exists st2 nPos, UndoWriteToDisk os us pos hashBlock messageStart st1 = Some (st2, Some (mkDiskPos (Z.of_nat k) nPos)) /\
    0 <= nPos /\ undo_kept us hashBlock k nPos st2 /\ keeps st st2 /\ same_stats st1 st2.
Proof.
  intros Hi H0 Ed Hb Hm Ef Ho. pose proof (Zlength_nonneg data) as Hd.
  destruct (FindUndoPos_correct os k (Zlength data + 40) st i) as (st1' & r & Ef' & Hk & (i' & Hi' & Hu & _) & _ & Hpos); [done|lia..|].
  rewrite Ef in Ef'. injection Ef' as <- <-. destruct (Hpos pos eq_refl) as [-> Hfree]. unfold UNDOFILE_CHUNK_SIZE in *.
  unfold UndoWriteToDisk. rewrite Ed. cbn [mbind option_bind]. cbv zeta.
  destruct (write_framed_spec os pre_rev (messageStart ++ ser_writedata32 (u32 (Zlength data))) (data ++ Hash2 hashBlock data) k (fi_nUndoSize i) st1)
    as (st2 & Hw & [Hs1 Hs2] & (f & Hf & Hst) & Hrest); [done|lia..|by apply record_header|].
  exists st2, (fi_nUndoSize i + 8). rewrite Hw. split_and!; [done|lia| | |done].
  - exists data. split; [done|]. split.
    + exists f. split; [done|]. cbn. by replace (Z.to_nat (fi_nUndoSize i + 8)) with (Z.to_nat (fi_nUndoSize i) + 8)%nat by lia.
    + exists i'. cbn [pl_prefix pl_nFile fam_of]. rewrite Hs1. split; [done|]. unfold pl_end. cbn [pl_pos pl_data used].
      rewrite Zlength_app. unfold Zlength at 2. rewrite length_Hash2. lia.
  - intros x Hx. apply Hrest; [by apply Hk|]. intros Ex. by apply Hfree.
Qed.

(** A file that was opened can be opened. *)
Lemma UndoWriteToDisk_open os us pos hashBlock messageStart st st' pos' :
  UndoWriteToDisk os us pos hashBlock messageStart st = Some (st', Some pos') -> os_can_open os pre_rev (dp_nFile pos) = true.
Proof.
  unfold UndoWriteToDisk, write_framed, OpenDiskFile. destruct (Serialize_blockundo us); [|done]. cbn [mbind option_bind].
  destruct (CDiskBlockPos_IsNull pos); [done|]. by destruct (os_can_open os pre_rev (dp_nFile pos)).
Qed.

(** What undoes a block is read back from its compressed form: amounts, scripts of all
    the special forms, heights and the coinbase mark, for every block within the limits. *)
Theorem blockundo_roundtrip us : blockundo_storable us ->
  exists b, Serialize_blockundo us = Some b /\ forall rest, Unserialize_blockundo (b ++ rest) = Ok (us, rest).
Proof. apply blockundo_roundtrip_spec. Qed.

Definition demo_undo : list CTxUndo :=
  [[mkCoin (mkTxOut 5000000000 ([byte_of 0x76; byte_of 0xa9; byte_of 20] ++ replicate 20 x03 ++ [byte_of 0x88; byte_of 0xac])) true 7; mkCoin (mkTxOut 1 [x51; x52]) false 0]; []].

Lemma blockundo_roundtrip_witness : exists b, Serialize_blockundo demo_undo = Some b /\ forall rest, Unserialize_blockundo (b ++ rest) = Ok (demo_undo, rest).
Proof.
  apply (blockundo_roundtrip demo_undo). unfold blockundo_storable, txundo_storable, demo_undo.
  split; [vm_compute; congruence|]. repeat constructor; vm_compute; congruence.
Defined.
