(* ===== verification/ConnectStore.v ===== *)
(** Connecting and disconnecting blocks with their data on disk (validation.cpp, txdb.cpp,
    txmempool.cpp).

    [ConnectBlock] as a whole: the checks, the undo data with its place in the block index,
    the index of transactions and that of sub-chain metadata; [DisconnectBlock] with the
    undo data it reads back; the two readers that follow a position of these indices into a
    block file. The theorems say that a block connected and disconnected through the disk
    leaves the coins as they were, and that the recorded positions lead [GetTransaction] to
    the transactions; the last section shows that they do not lead LoadSubChainMetaData
    there, which counts the offset from another point. *)
From Stdlib Require Import Strings.String.
From S2P Require Import Prelude Serialize Sha256 Primitives ArithUint256 Chain MedianTime Versionbits Pow SubChainMeta FlatFile BlockFiles Merkle Script Coins TxVerify UpdateCoins BlockCheck ConnectBlock Supply Compressor Undo.

#[local] Open Scope Z_scope.

(** ** What connecting a block writes to *)

Definition tx_index := gmap uint256 CDiskTxPos.

Record store := mkStore {
  so_files : files;
  so_index : BlockMap;                (** mapBlockIndex *)
  so_dirty : gset uint256;            (** setDirtyBlockIndex *)
  so_txindex : tx_index;              (** pblocktree *)
  so_meta : tx_index                  (** psubchainmeta *)
}.

Definition set_undo (nUndoPos : Z) (n : CBlockIndex) : CBlockIndex :=
  mkBlockIndex (bi_pprev n) (bi_pskip n) (bi_nHeight n) (bi_nFile n) (bi_nDataPos n) nUndoPos (bi_nChainWork n)
    (bi_nTx n) (bi_nChainTx n) (Z.lor (bi_nStatus n) BLOCK_HAVE_UNDO) (bi_nVersion n) (bi_hashMerkleRoot n) (bi_nTime n)
    (bi_nBits n) (bi_nNonce n) (bi_nSequenceId n) (bi_nTimeMax n).

(** One batch; a later record of the same transaction replaces an earlier one. *)
Definition WriteTxIndex (vect : list (uint256 * CDiskTxPos)) (db : tx_index) : tx_index :=
  fold_left (fun db '(txid, pos) => <[txid := pos]> db) vect db.

Section connect.
Context {V : Type} `{CoinsView V}.
Abbreviation cache := (CCoinsViewCache V).
Variable run_check : CScriptCheck -> option string.
Variable SC : Type.
Variable sc_contains : uint256 -> bool -> SC -> bool * SC.
Variable sc_insert : uint256 -> SC -> SC.
Variable scriptExecutionCacheNonce : uint256.
Variable os : os_env.
Variable messageStart : bytes.

(** The undo data of a block that has none yet. *)
Definition WriteUndoData (us : list CTxUndo) (n : CBlockIndex) (fs : files) : result failure (files * CBlockIndex) :=
  data ← crash_if_none (Serialize_blockundo us);
  '(fs, _pos) ← crash_if_none (FindUndoPos os (bi_nFile n) (Zlength data + 40) fs);
  match _pos with
  | None => Err (RunError "out of disk space")
  | Some _pos =>
      hashPrev ← crash_if_none (bi_pprev n);
      '(fs, _pos) ← crash_if_none (UndoWriteToDisk os us _pos hashPrev messageStart fs);
      match _pos with
      | None => Err (RunError "Failed to write undo data")
      | Some _pos => Ok (fs, set_undo (dp_nPos _pos) n)
      end
  end.

Definition ConnectBlock_undo (us : list CTxUndo) (pindex : uint256) (st : store) : result failure store :=
  n ← crash_if_none (so_index st !! pindex);
  valid ← crash_if_none (IsValid BLOCK_VALID_SCRIPTS n);
  if CDiskBlockPos_IsNull (GetUndoPos n) || negb valid then
    '(fs, n) ← (if CDiskBlockPos_IsNull (GetUndoPos n) then WriteUndoData us n (so_files st) else Ok (so_files st, n));
    '(n, _) ← crash_if_none (RaiseValidity BLOCK_VALID_SCRIPTS n);
    Ok (mkStore fs (<[pindex := n]> (so_index st)) ({[pindex]} ∪ so_dirty st) (so_txindex st) (so_meta st))
  else Ok st.

(** [ConnectBlock]; the index the checks read is that of the store. *)
Definition ConnectBlock (fTxIndex : bool) (env : node_env) (block : CBlock) (pindex : uint256) (fJustCheck : bool) (c : cache) (sc : SC)
    (caches : VersionBitsCache) (st : store) : result failure (VersionBitsCache * CBlock * cache * option (connected SC) * store) :=
  r ← ConnectBlock_checks run_check SC sc_contains sc_insert scriptExecutionCacheNonce env block pindex fJustCheck c sc caches;
  match r with
  | (caches, block, c, None) => Ok (caches, block, c, None, st)
  | (caches, block, c, Some s) =>
      if fJustCheck then Ok (caches, block, c, Some s, st)
      else
        st ← ConnectBlock_undo (cn_vtxundo SC s) pindex st;
        let txindex := if fTxIndex then WriteTxIndex (cn_vPos SC s) (so_txindex st) else so_txindex st in
        let meta := WriteTxIndex (cn_vPosForSubChain SC s) (so_meta st) in
        Ok (caches, block, SetBestBlock pindex c, Some s, mkStore (so_files st) (so_index st) (so_dirty st) txindex meta)
  end.

(** [DisconnectBlock]: the transactions are those of the block with their hashes. *)
Definition DisconnectBlock (txs : list CTransactionRef) (n : CBlockIndex) (fs : files) (c : cache) : option (cache * DisconnectResult) :=
  let pos := GetUndoPos n in
  if CDiskBlockPos_IsNull pos then Some (c, DISCONNECT_FAILED)
  else
    hashPrev ← bi_pprev n;
    match UndoReadFromDisk os pos hashPrev fs with
    | None => Some (c, DISCONNECT_FAILED)
    | Some vtxundo => DisconnectBlock_coins txs vtxundo (bi_nHeight n) hashPrev c
    end.

(** ** Following a recorded position *)

(** [fseek] from the current position; going past the end does not fail. *)
Definition stream_seek (nOffset : Z) : reader unit := fun s => Ok (tt, drop (Z.to_nat nOffset) s).

(** The transaction and the header before it, as [GetTransaction] reads them. *)
Definition GetTransaction_read (CLIENT_VERSION : Z) (postx : CDiskTxPos) (fs : files) : option (CBlockHeader * CTransaction) :=
  let pos := mkDiskPos (tp_nFile postx) (tp_nPos postx) in
  d ← OpenDiskFile os (fs_disk fs) pos pre_blk true;
  match (header ← Unserialize_header; _ ← stream_seek (tp_nTxOffset postx); tx ← UnserializeTransaction CLIENT_VERSION; mret (header, tx))
          (fstream d pre_blk pos) with
  | Ok (r, _) => Some r
  | Err _ => None
  end.

(** [GetTransaction] with the index of transactions, once the memory pool does not have
    the transaction. *)
Definition GetTransaction_indexed (CLIENT_VERSION : Z) (hash : uint256) (st : store) : option (CTransaction * uint256) :=
  postx ← so_txindex st !! hash;
  '(header, tx) ← GetTransaction_read CLIENT_VERSION postx (so_files st);
  match ComputeHash tx with
  | Ok h => if bool_decide (h = hash) then Some (tx, CBlockHeader_GetHash header) else None
  | Err _ => None
  end.

(** The reader of LoadSubChainMetaData. *)
Definition LoadSubChainMetaData_read (CLIENT_VERSION : Z) (fs : files) (postx : CDiskTxPos) : file_read :=
  let pos := mkDiskPos (tp_nFile postx) (tp_nPos postx) in
  match OpenDiskFile os (fs_disk fs) pos pre_blk true with
  | None => FileNull
  | Some d =>
      match (_ ← stream_seek (tp_nTxOffset postx); UnserializeTransaction CLIENT_VERSION) (fstream d pre_blk pos) with
      | Err _ => ReadThrows
      | Ok (tx, _) => match MakeTransactionRef tx with Ok ptx => ReadTx ptx | Err _ => ReadThrows end
      end
  end.
End connect.

(** * Undo data that can be stored *)

Lemma vin_size tx version data : Forall (fun i => uint256_wf (op_hash (prevout i))) (vin tx) ->
  SerializeTransaction tx version = Ok data -> 41 * Zlength (vin tx) <= Zlength data.
Proof.
  intros Hh. unfold SerializeTransaction. destruct (SerializeExtData _) as [ext|]; [|done]. cbn [mbind result_bind]. intros E. apply Ok_inj in E as <-.
  unfold Serialize_vin, Serialize_vector. rewrite !Zlength_app.
  assert (41 * Zlength (vin tx) <= Zlength (concat (map Serialize_txin (vin tx)))) as Hc.
  { induction Hh as [|i ins Hi _ IH]; [done|]. cbn [map concat]. rewrite Zlength_cons, Zlength_app. unfold Serialize_txin at 1, Serialize_outpoint.
    rewrite !Zlength_app. assert (Zlength (ser_writedata32 (op_n (prevout i))) = 4) as -> by done.
    assert (Zlength (ser_writedata32 (nSequence i)) = 4) as -> by done. unfold uint256_wf, base_blob_wf in Hi. unfold Serialize_base_blob. rewrite Hi.
    unfold Serialize_blob. rewrite Zlength_app. pose proof (length_WriteCompactSize (Zlength (scriptSig i))) as Hw.
    assert (1 <= GetSizeOfCompactSize (Zlength (scriptSig i))) by (unfold GetSizeOfCompactSize; repeat case_match; lia).
    pose proof (Zlength_nonneg (scriptSig i)). lia. }
  nonneg_lengths. lia.
Qed.

(** Heights that undo records can hold. *)
Definition low_heights (M : utxos) : Prop := forall o coin, M o = Some coin -> c_nHeight coin < 2 ^ 30.

Lemma apply_tx_low tx h M : 0 < h < 2 ^ 30 -> low_heights M -> low_heights (apply_tx tx h M).
Proof.
  intros Hh Hl o coin. unfold apply_tx, created, created_from.
  destruct (_ && _).
  - destruct (vout (ref_tx tx) !! _) as [out|]; cbn [mbind option_bind]; [|case_decide; [done|apply Hl]].
    destruct (IsUnspendable _); [case_decide; [done|apply Hl]|]. intros [= <-]. cbn. rewrite wrapu_small by (split; lia). lia.
  - case_decide; [done|apply Hl].
Qed.

Lemma coin_wf_storable M o coin : coins_wf M -> low_heights M -> M o = Some coin -> coin_storable coin.
Proof.
  intros Hwf Hl Ho. destruct (Hwf o coin Ho) as (Hh & Hv & Hs). specialize (Hl o coin Ho). split; [lia|]. split; [done|].
  unfold IsUnspendable in Hs. apply orb_false_iff in Hs as [_ Hs]. by apply Z.ltb_ge in Hs.
Qed.

Lemma spends_storable M ins coins : coins_wf M -> low_heights M -> spends M ins coins -> Forall coin_storable coins /\ length coins = length ins.
Proof.
  intros Hwf Hl Hs. split; [|by rewrite (Forall2_length _ _ _ Hs)]. induction Hs as [|i coin ins coins Hi _ IH]; constructor; [|done].
  by eapply coin_wf_storable.
Qed.

Definition hashes_wf (tx : CTransaction) : Prop := Forall (fun i => uint256_wf (op_hash (prevout i))) (vin tx).

(** The coins a valid block spends fit the records, by the limit on its size. *)
Lemma legal_storable txs undos h M : 0 < h < 2 ^ 30 -> coins_wf M -> low_heights M -> txs_legal txs undos h M ->
  Forall (fun tx => transaction_valid (ref_tx tx) false /\ hashes_wf (ref_tx tx)) txs -> Forall txundo_storable undos.
Proof.
  intros Hh. revert undos M. induction txs as [|tx txs IH]; intros [|u undos] M Hwf Hlow Hleg Hval; try done.
  destruct Hleg as [Hl1 Hl]. apply Forall_cons in Hval as [[Hv Hw] Hval]. constructor.
  - destruct Hl1 as (_ & _ & Hin). destruct Hv as (_ & _ & (data & Ed & Hsz) & _). apply vin_size in Ed; [|done].
    assert (24390 <= MAX_INPUTS_PER_BLOCK) as Hmax by (vm_compute; congruence). unfold WITNESS_SCALE_FACTOR, MAX_BLOCK_WEIGHT in Hsz.
    destruct (IsCoinBase (ref_tx tx)); [subst u; split; [change (0 <= MAX_INPUTS_PER_BLOCK); lia|constructor]|]. destruct Hin as [_ Hsp].
    destruct (spends_storable _ _ _ Hwf Hlow Hsp) as [Hf El]. split; [|done]. unfold Zlength in *. lia.
  - apply (IH undos (apply_tx tx h M)); [|by apply apply_tx_low|done|done]. apply apply_tx_wf; [lia|apply Hl1|done].
Qed.

(** * The index entry of a connected block *)

Lemma land_pow2_testbit x k : 0 <= k -> negb (Z.land x (2 ^ k) =? 0) = Z.testbit x k.
Proof.
  intros Hk. assert (Z.land x (2 ^ k) = if Z.testbit x k then 2 ^ k else 0) as ->.
  { apply Z.bits_inj'. intros i Hi. rewrite Z.land_spec, Z.pow2_bits_eqb by done. destruct (Z.eqb_spec k i) as [->|Hne].
    - destruct (Z.testbit x i) eqn:E; [by rewrite Z.pow2_bits_true by done|by rewrite Z.bits_0].
    - rewrite andb_false_r. destruct (Z.testbit x k); [by rewrite Z.pow2_bits_false|by rewrite Z.bits_0]. }
  destruct (Z.testbit x k); [|done]. apply negb_true_iff, Z.eqb_neq. pose proof (Z.pow_pos_nonneg 2 k ltac:(lia) Hk). lia.
Qed.

Lemma GetUndoPos_bit n : GetUndoPos n = if Z.testbit (bi_nStatus n) 4 then mkDiskPos (bi_nFile n) (bi_nUndoPos n) else CDiskBlockPos_SetNull.
Proof. unfold GetUndoPos. by rewrite (land_pow2_testbit _ 4). Qed.

(** The fields of an entry that connecting its block leaves alone. *)
Definition same_place (n n' : CBlockIndex) : Prop :=
  bi_pprev n' = bi_pprev n /\ bi_pskip n' = bi_pskip n /\ bi_nHeight n' = bi_nHeight n /\ bi_nFile n' = bi_nFile n /\
  bi_nDataPos n' = bi_nDataPos n /\ bi_nChainWork n' = bi_nChainWork n.

Lemma RaiseValidity_keeps n n' b : RaiseValidity BLOCK_VALID_SCRIPTS n = Some (n', b) ->
  same_place n n' /\ bi_nUndoPos n' = bi_nUndoPos n /\ forall k, 3 <= k -> Z.testbit (bi_nStatus n') k = Z.testbit (bi_nStatus n) k.
Proof.
  unfold RaiseValidity. change (Z.land BLOCK_VALID_SCRIPTS (Z.lnot BLOCK_VALID_MASK)) with 0. cbn [Z.eqb negb].
  destruct (negb _); [by intros [= <- <-]|]. destruct (_ <? _); [|by intros [= <- <-]]. intros [= <- <-].
  split; [done|]. split; [done|]. intros k Hk. cbn [bi_nStatus set_status].
  rewrite Z.lor_spec, Z.land_spec, Z.lnot_spec by lia. change BLOCK_VALID_MASK with 7. change BLOCK_VALID_SCRIPTS with 5.
  rewrite (Z.bits_above_log2 7 k), (Z.bits_above_log2 5 k) by (cbn; lia). by rewrite andb_true_r, orb_false_r.
Qed.

Lemma RaiseValidity_total n : is_Some (RaiseValidity BLOCK_VALID_SCRIPTS n).
Proof. unfold RaiseValidity. cbn [Z.eqb negb]. repeat case_match; done || by eexists. Qed.

Lemma set_undo_pos nPos n : GetUndoPos (set_undo nPos n) = mkDiskPos (bi_nFile n) nPos.
Proof. rewrite GetUndoPos_bit. cbn [bi_nStatus bi_nFile bi_nUndoPos set_undo]. by rewrite Z.lor_spec, orb_true_r. Qed.

Section undo.
Context (os : os_env) (messageStart : bytes).

(** Room for the undo data in the file of the block. *)
Definition undo_room (us : list CTxUndo) (n : CBlockIndex) (fs : files) : Prop :=
  length messageStart = 4%nat /\ 0 <= bi_nFile n /\
  exists i, fam_vinfo (fs_block fs) !! Z.to_nat (bi_nFile n) = Some i /\ 0 <= fi_nUndoSize i /\
    forall data, Serialize_blockundo us = Some data -> fi_nUndoSize i + (Zlength data + 40) + UNDOFILE_CHUNK_SIZE < 2 ^ 32.

Lemma WriteUndoData_spec us n fs fs' n' hashPrev :
  WriteUndoData os messageStart us n fs = Ok (fs', n') -> undo_room us n fs -> bi_pprev n = Some hashPrev ->
  exists nPos, n' = set_undo nPos n /\ 0 <= nPos /\ undo_kept us hashPrev (Z.to_nat (bi_nFile n)) nPos fs' /\ keeps fs fs' /\
    os_can_open os pre_rev (bi_nFile n) = true.
Proof.
  unfold WriteUndoData. intros E (Hm & Hn & i & Hi & H0 & Hroom) Hp. rewrite <- (Z2Nat.id (bi_nFile n)) in E |- * by done.
  set (k := Z.to_nat (bi_nFile n)) in *. destruct (Serialize_blockundo us) as [data|] eqn:Ed; [|done]. cbn [crash_if_none mbind result_bind] in E.
  specialize (Hroom data eq_refl).
  destruct (FindUndoPos os (Z.of_nat k) _ fs) as [[fs1 [pos|]]|] eqn:Ef; [|done..]. cbn [crash_if_none mbind result_bind] in E.
  rewrite Hp in E. cbn [crash_if_none mbind result_bind] in E.
  destruct (UndoWriteToDisk os us pos hashPrev messageStart fs1) as [[fs2 [pos'|]]|] eqn:Ew; [|done..]. cbn [crash_if_none mbind result_bind] in E.
  apply Ok_inj in E as [= <- <-]. pose proof (UndoWriteToDisk_open _ _ _ _ _ _ _ _ Ew) as Ho.
  assert (dp_nFile pos = Z.of_nat k) as Ek.
  { revert Ef. unfold FindUndoPos. destruct (vinfo_at _ _); [|done]. cbn [mbind option_bind]. destruct (preallocate _ _ _ _ _ _) as [? []]; [|done].
    by intros [= _ <-]. }
  rewrite Ek in Ho. destruct (undo_write_spec os k us data hashPrev messageStart fs fs1 pos i) as (fs2' & nPos & Ew' & Hnn & Huk & Hke & _); [done..|].
  rewrite Ew in Ew'. injection Ew' as <- ->. exists nPos. by rewrite Nat2Z.id.
Qed.

(** The entry of a block whose undo data was written leads to it. *)
Lemma ConnectBlock_undo_spec us pindex st st' n hashPrev :
  ConnectBlock_undo os messageStart us pindex st = Ok st' -> so_index st !! pindex = Some n ->
  CDiskBlockPos_IsNull (GetUndoPos n) = true -> undo_room us n (so_files st) -> bi_pprev n = Some hashPrev ->
  exists n' nPos, so_index st' = <[pindex := n']> (so_index st) /\ same_place n n' /\
    GetUndoPos n' = mkDiskPos (bi_nFile n) nPos /\ 0 <= nPos /\ undo_kept us hashPrev (Z.to_nat (bi_nFile n)) nPos (so_files st') /\
    keeps (so_files st) (so_files st') /\ os_can_open os pre_rev (bi_nFile n) = true /\ pindex ∈ so_dirty st' /\
    so_txindex st' = so_txindex st /\ so_meta st' = so_meta st.
Proof.
  unfold ConnectBlock_undo. intros E Hn Hnull Hroom Hp. rewrite Hn in E. cbn [crash_if_none mbind result_bind] in E.
  destruct (IsValid _ n) as [valid|]; [|done]. cbn [crash_if_none mbind result_bind] in E. rewrite Hnull in E. cbn [orb] in E.
  destruct (WriteUndoData os messageStart us n (so_files st)) as [[fs n1]|] eqn:Ew; [|done]. cbn [mbind result_bind] in E.
  destruct (WriteUndoData_spec _ _ _ _ _ _ Ew Hroom Hp) as (nPos & -> & H0 & Hk & Hkeep & Ho).
  destruct (RaiseValidity _ _) as [[n' b]|] eqn:Er; [|done]. cbn [crash_if_none mbind result_bind] in E. apply Ok_inj in E as <-.
  apply RaiseValidity_keeps in Er as (Hs & Hup & Hbits). exists n', nPos. cbn [so_index so_files so_dirty so_txindex so_meta].
  pose proof Hs as (_ & _ & _ & Hfile & _). split_and!; try done; [|set_solver].
  rewrite GetUndoPos_bit, Hbits by lia. pose proof (set_undo_pos nPos n) as Hpos. rewrite GetUndoPos_bit in Hpos.
  cbn [bi_nStatus set_undo] in Hpos |- *. rewrite Z.lor_spec, orb_true_r in *. by rewrite Hfile, Hup.
Qed.
End undo.

(** * Connecting and disconnecting *)

Section blocks.
Context {V : Type} `{CoinsViewSpec V}.
Abbreviation cache := (CCoinsViewCache V).
Context (run_check : CScriptCheck -> option string) (SC : Type) (sc_contains : uint256 -> bool -> SC -> bool * SC)
  (sc_insert : uint256 -> SC -> SC) (nonce : uint256) (os : os_env) (messageStart : bytes).
Implicit Types c : cache.

(** What connecting through the disk relies on besides [may_connect]: the coins are well
    formed, heights fit undo records, and the file of the block has room. *)
Record may_store (env : node_env) (block : CBlock) (pindex : uint256) (n : CBlockIndex) c (us : list CTxUndo) (st : store) : Prop := {
  ms_connect : may_connect env block pindex n c;
  ms_index : so_index st = ne_index env;
  ms_height : bi_nHeight n < 2 ^ 30;
  ms_ok : cache_ok c;
  ms_coins : coins_wf (cache_contents c);
  ms_low : low_heights (cache_contents c);
  ms_best : uint256_IsNull (cache_best c) = false;
  ms_hashes : Forall hashes_wf (vtx block);
  ms_count : Zlength (vtx block) <= MAX_SIZE;
  ms_new : CDiskBlockPos_IsNull (GetUndoPos n) = true;
  ms_room : undo_room messageStart us n (so_files st)
}.

Lemma ConnectBlock_parts ftx env block pindex c sc caches st caches' b c' s st' :
  ConnectBlock run_check SC sc_contains sc_insert nonce os messageStart ftx env block pindex false c sc caches st
    = Ok (caches', b, c', Some s, st') ->
  exists c1 st1, ConnectBlock_checks run_check SC sc_contains sc_insert nonce env block pindex false c sc caches = Ok (caches', b, c1, Some s) /\
    c' = SetBestBlock pindex c1 /\ ConnectBlock_undo os messageStart (cn_vtxundo _ s) pindex st = Ok st1 /\
    st' = mkStore (so_files st1) (so_index st1) (so_dirty st1)
      (if ftx then WriteTxIndex (cn_vPos _ s) (so_txindex st1) else so_txindex st1) (WriteTxIndex (cn_vPosForSubChain _ s) (so_meta st1)).
Proof.
  unfold ConnectBlock. destruct (ConnectBlock_checks _ _ _ _ _ _ _ _ _ _ _ _) as [[[[ca b1] c1] [s1|]]|]; cbn [mbind result_bind]; [|done..].
  destruct (ConnectBlock_undo _ _ _ _ _) as [st1|] eqn:Eu; cbn [mbind result_bind]; [|done]. intros E. apply Ok_inj in E as [= <- <- <- <- <-].
  by exists c1, st1.
Qed.

Lemma store_disconnect_spec ftx env block pindex n c sc caches st caches' b c' s st' fs :
  ConnectBlock run_check SC sc_contains sc_insert nonce os messageStart ftx env block pindex false c sc caches st
    = Ok (caches', b, c', Some s, st') ->
  may_store env block pindex n c (cn_vtxundo _ s) st -> keeps (so_files st') fs ->
  keeps (so_files st) (so_files st') /\
  exists n' txs c'', so_index st' = <[pindex := n']> (so_index st) /\ same_place n n' /\ mapM MakeTransactionRef (vtx b) = Ok txs /\
    DisconnectBlock os txs n' fs c' = Some (c'', DISCONNECT_OK) /\
    cache_best c'' = cache_best c /\ forall o, cache_contents c'' o = cache_contents c o.
Proof.
  intros E [Hmay Hidx Hh Hok Hwf Hlow Hbest Hhash Hcount Hnull Hroom] Hfs.
  apply ConnectBlock_parts in E as (c1 & st1 & Ec & -> & Eu & ->). cbn [so_files so_index] in *.
  destruct (ConnectBlock_checks_spec _ _ _ _ _ _ _ _ _ _ _ _ _ _ _ _ _ Ec Hmay Hok Hwf) as (Ev & -> & txs & undos & Hb).
  pose proof Hb as [Hn Etx (first & rest & Ef & Hcb & Hrest) Hval Hprev Hok' _ Hleg Hc Hundo Hfees _].
  destruct (ConnectBlock_undo_spec os messageStart _ _ _ _ n (cache_best c) Eu) as (n' & nPos & Ei & Hs & Hpos & Hp0 & Hk & Hkeep & Ho & _);
    [by rewrite Hidx|done..|]. split; [done|]. exists n', txs.
  destruct (disconnect_restores_spec run_check SC sc_contains sc_insert nonce env block pindex n c sc caches caches' b _ s Ec Hmay Hok Hwf Hbest)
    as (txs' & c'' & Etx' & Ed & Hb'' & Hc''). rewrite Ev in *. assert (txs' = txs) as -> by congruence.
  exists c''. split_and!; try done. unfold DisconnectBlock. rewrite Hpos. unfold CDiskBlockPos_IsNull. cbn [dp_nFile].
  destruct Hroom as (_ & Hfile & _). rewrite (proj2 (Z.eqb_neq _ _)) by lia.
  destruct Hs as (Hpp & _ & Hhh & _). rewrite Hpp, Hprev. cbn [mbind option_bind].
  rewrite <- (Z2Nat.id (bi_nFile n)) by done. rewrite (undo_kept_read os (cn_vtxundo _ s)); [by rewrite Hhh| |done| |by rewrite Z2Nat.id].
  - by eapply undo_kept_mono.
  - rewrite Hundo. pose proof (MakeTransactionRef_all _ _ Etx) as Eref.
    assert (Forall txundo_storable undos) as Hst.
    { eapply (legal_storable txs); [|exact Hwf|exact Hlow|exact Hleg|]; [pose proof (mc_height _ _ _ _ _ Hmay); lia|].
      apply Forall_and. split; [done|]. by apply (Forall_refs hashes_wf _ (vtx block)). }
    split; [|by apply Forall_tail]. pose proof (Forall2_length _ _ _ Hfees) as Hl.
    assert (length (vtx block) = length txs) as El by (rewrite <- Eref; apply length_fmap).
    pose proof (length_tl undos). unfold Zlength in *. lia.
Qed.
(** ** Where the transactions are *)

(** What the loop records for the transactions it connected: their places in the
    concatenation of their serializations, from the offset [off] on. *)
Fixpoint tx_positions (bp : CDiskBlockPos) (off : Z) (txs : list CTransactionRef) (datas : list bytes) : list (uint256 * CDiskTxPos) :=
  match txs, datas with
  | tx :: txs, d :: datas => (ref_hash tx, mkDiskTxPos (dp_nFile bp) (dp_nPos bp) off) :: tx_positions bp (u32 (off + Zlength d)) txs datas
  | _, _ => []
  end.

Definition serialized (version : Z) (tx : CTransactionRef) (d : bytes) : Prop := SerializeTransaction (ref_tx tx) version = Ok d.

Lemma ConnectTx_positions env first tx (s s' : connected SC) :
  ConnectTx run_check SC sc_contains sc_insert nonce env first tx s = Ok s' ->
  exists d, serialized (ce_CLIENT_VERSION env) tx d /\ cn_nTxOffset _ s' = u32 (cn_nTxOffset _ s + Zlength d) /\
    let pos := mkDiskTxPos (dp_nFile (GetBlockPos (ce_entry env))) (dp_nPos (GetBlockPos (ce_entry env))) (cn_nTxOffset _ s) in
    cn_vPos _ s' = cn_vPos _ s ++ [(ref_hash tx, pos)] /\
    cn_vPosForSubChain _ s' = cn_vPosForSubChain _ s ++ (if NeedsToSaveMeta (extData (ref_tx tx)) then [(ref_hash tx, pos)] else []).
Proof.
  unfold ConnectTx. destruct (ConnectTx_locks _ _ _) as [c1|]; cbn [mbind result_bind]; [|done].
  destruct (GetTransactionSigOpCost _ _ _) as [[c2 cost]|]; cbn [crash_if_none mbind result_bind]; [|done].
  destruct (_ <? _); [done|]. destruct (ConnectTx_inputs _ _ _ _ _ _ _ _ _ _) as [[[[c3 sc] checks] fees]|]; cbn [mbind result_bind]; [|done].
  destruct (UpdateCoins _ _ _) as [[c4 undo]|]; cbn [crash_if_none mbind result_bind]; [|done].
  destruct (SerializeTransaction _ _) as [d|] eqn:Ed; cbn [crash_if_err mbind result_bind]; [|done].
  intros E. apply Ok_inj in E as <-. exists d. cbn [cn_nTxOffset cn_vPos cn_vPosForSubChain]. split_and!; [done..|].
  destruct (NeedsToSaveMeta _); [done|by rewrite app_nil_r].
Qed.

Lemma ConnectTxs_positions env first txs (s s' : connected SC) :
  ConnectTxs run_check SC sc_contains sc_insert nonce env first txs s = Ok s' ->
  exists datas, Forall2 (serialized (ce_CLIENT_VERSION env)) txs datas /\
    cn_vPos _ s' = cn_vPos _ s ++ tx_positions (GetBlockPos (ce_entry env)) (cn_nTxOffset _ s) txs datas /\
    cn_vPosForSubChain _ s' = cn_vPosForSubChain _ s ++
      (zip txs (tx_positions (GetBlockPos (ce_entry env)) (cn_nTxOffset _ s) txs datas) ≫= fun '(tx, p) => if NeedsToSaveMeta (extData (ref_tx tx)) then [p] else []).
Proof.
  revert first s. induction txs as [|tx txs IH]; intros first s E.
  { apply Ok_inj in E as <-. exists []. split; [done|]. by rewrite !app_nil_r. }
  cbn [ConnectTxs] in E. destruct (ConnectTx _ _ _ _ _ env first tx s) as [s1|] eqn:E1; [|done]. cbn [mbind result_bind] in E.
  apply ConnectTx_positions in E1 as (d & Hd & Eo & Ep & Em). apply IH in E as (datas & Hds & Ep' & Em'). exists (d :: datas). split; [by constructor|].
  cbn [tx_positions zip]. rewrite Ep', Em', Eo, Ep, Em. split; [by rewrite <- app_assoc|]. rewrite <- app_assoc. cbn. by destruct (NeedsToSaveMeta _).
Qed.

Lemma ConnectBlock_checks_run env block pindex n c sc caches caches' b c' s :
  ConnectBlock_checks run_check SC sc_contains sc_insert nonce env block pindex false c sc caches = Ok (caches', b, c', Some s) ->
  ne_index env !! pindex = Some n -> vtx b = vtx block ->
  pindex = CBlockHeader_GetHash (block_header block) /\
  exists ce s0 txs, ConnectTxs run_check SC sc_contains sc_insert nonce ce true txs s0 = Ok s /\ mapM MakeTransactionRef (vtx block) = Ok txs /\
    ce_entry ce = n /\ ce_CLIENT_VERSION ce = ne_CLIENT_VERSION env /\
    cn_nTxOffset _ s0 = GetSizeOfCompactSize (Zlength (vtx block)) /\ cn_vPos _ s0 = [] /\ cn_vPosForSubChain _ s0 = [].
Proof.
  unfold ConnectBlock_checks. intros E Hn Ev. rewrite Hn in E. cbn [crash_if_none mbind result_bind] in E.
  destruct (decide (pindex = CBlockHeader_GetHash (block_header block))) as [Hp|Hp]; [|by rewrite bool_decide_eq_false_2 in E].
  split; [done|]. rewrite bool_decide_eq_true_2 in E by done. cbn [negb] in E.
  destruct (CheckBlock block _ _ _) as [b1|]; [|done]. cbn [mbind result_bind] in E. destruct (GetBestBlock c) as [c1 best].
  destruct (negb (bool_decide _)); [done|]. destruct (bool_decide (_ = hashGenesisBlock _)); [done|].
  destruct (CheckScripts _ _ _ _ _ _ _) as [fsc|]; [|done]. cbn [crash_if_none mbind result_bind] in E.
  destruct (EnforceBIP30 _ _ _ _) as [bip30|]; [|done]. cbn [crash_if_none mbind result_bind] in E.
  destruct (mapM MakeTransactionRef (vtx b1)) as [txs|] eqn:Etx; [|done]. cbn [crash_if_err mbind result_bind] in E.
  destruct (if bip30 then BIP30_check txs c1 else Ok c1) as [c2|]; [|done]. cbn [mbind result_bind] in E.
  destruct (VersionBitsState _ _ _ _ _) as [[ca csv]|]; [|done]. cbn [crash_if_none mbind result_bind] in E.
  destruct (GetBlockScriptFlags _ _ _ _) as [[ca' flags]|]; [|done]. cbn [mbind result_bind] in E.
  set (ce := mkConnectEnv _ _ _ _ _ _ _ _ _) in E. set (s0 := mkConnected _ _ _ _ _ _ _ _ _ _) in E.
  destruct (ConnectTxs _ _ _ _ _ ce true txs s0) as [s1|] eqn:E3; [|done]. cbn [mbind result_bind] in E.
  destruct (head (vtx b1)); [|done]. cbn [crash_if_none mbind result_bind] in E. destruct (GetValueOut _); [|done]. cbn [crash_if_none mbind result_bind] in E.
  destruct (_ <? _); [done|]. destruct (negb (CheckQueue_Wait _ _)); [done|]. apply Ok_inj in E as [= <- <- <- <-].
  exists ce, s0, txs. by rewrite <- Ev.
Qed.

Lemma tx_positions_lookup bp off txs datas i tx d : length datas = length txs -> txs !! i = Some tx -> datas !! i = Some d ->
  0 <= off -> off + Zlength (concat datas) < 2 ^ 32 ->
  tx_positions bp off txs datas !! i = Some (ref_hash tx, mkDiskTxPos (dp_nFile bp) (dp_nPos bp) (off + Zlength (concat (take i datas)))).
Proof.
  revert off datas i. induction txs as [|tx0 txs IH]; intros off [|d0 datas] [|i] Hl Ht Hd Ho Hb; try done; cbn [tx_positions].
  - injection Ht as ->. cbn. by rewrite Z.add_0_r.
  - cbn [lookup list_lookup] in *. cbn [concat] in Hb. rewrite Zlength_app in Hb. pose proof (Zlength_nonneg d0). pose proof (Zlength_nonneg (concat datas)).
    rewrite wrapu_small by (split; lia). cbn in Hl. rewrite IH by (done || lia). cbn [take concat]. rewrite Zlength_app. do 3 f_equal. lia.
Qed.

Lemma tx_positions_keys bp off txs datas : length datas = length txs -> (tx_positions bp off txs datas).*1 = ref_hash <$> txs.
Proof.
  revert off datas. induction txs as [|tx txs IH]; intros off [|d datas] Hl; try done. cbn [tx_positions]. rewrite !fmap_cons, IH by (cbn in Hl; lia). done.
Qed.

Lemma WriteTxIndex_other vect db txid : txid ∉ vect.*1 -> WriteTxIndex vect db !! txid = db !! txid.
Proof.
  revert db. induction vect as [|[h p] vect IH]; intros db Hn; [done|]. rewrite fmap_cons, not_elem_of_cons in Hn. destruct Hn as [Hne Hn].
  change (WriteTxIndex vect (<[h := p]> db) !! txid = db !! txid). rewrite IH by done. by apply lookup_insert_ne.
Qed.

Lemma WriteTxIndex_lookup vect db txid pos : NoDup vect.*1 -> (txid, pos) ∈ vect -> WriteTxIndex vect db !! txid = Some pos.
Proof.
  revert db. induction vect as [|[h p] vect IH]; intros db Hnd Hin; [by apply not_elem_of_nil in Hin|].
  cbn in Hnd. apply NoDup_cons in Hnd as [Hno Hnd]. apply elem_of_cons in Hin as [[= -> ->]|Hin]; [|by apply (IH (<[h := p]> db))].
  change (WriteTxIndex vect (<[h := p]> db) !! h = Some p). rewrite WriteTxIndex_other by done. apply lookup_insert_eq.
Qed.

Lemma Serialize_block_datas version block data txs datas :
  Serialize_block block version = Ok data -> vtx block = ref_tx <$> txs -> Forall2 (serialized version) txs datas ->
  data = Serialize_header (block_header block) ++ WriteCompactSize (Zlength (vtx block)) ++ concat datas.
Proof.
  intros Eser Ev Hds. assert (mapM (fun tx => SerializeTransaction tx version) (vtx block) = Ok datas) as Em.
  { rewrite Ev. clear -Hds. induction Hds as [|t e txs datas Hx _ IH]; [done|]. rewrite fmap_cons. cbn. unfold serialized in Hx. rewrite Hx. cbn. by rewrite IH. }
  unfold Serialize_block in Eser. rewrite Em in Eser. cbn [mbind result_bind] in Eser. by apply Ok_inj in Eser as <-.
Qed.

(** The transaction at a recorded position of a block that is on disk. *)
Lemma GetTransaction_read_kept version block data txs datas i tx d (k : nat) nPos fs :
  0 <= nPos -> kept (mkPlace pre_blk k (Z.to_nat nPos) data) fs -> os_can_open os pre_blk (Z.of_nat k) = true ->
  header_wf (block_header block) -> Serialize_block block version = Ok data -> vtx block = ref_tx <$> txs ->
  Forall2 (serialized version) txs datas -> txs !! i = Some tx -> datas !! i = Some d ->
  tx_wf (ref_tx tx) -> wire_ok version (ref_tx tx) -> decoded version (ref_tx tx) = ref_tx tx ->
  GetTransaction_read os version
    (mkDiskTxPos (Z.of_nat k) nPos (GetSizeOfCompactSize (Zlength (vtx block)) + Zlength (concat (take i datas)))) fs
  = Some (block_header block, ref_tx tx).
Proof.
  intros Hn Hk Ho Hh Eser Ev Hds Ht Hd Hwf Hwire Hdec. destruct (kept_stream os pre_blk k nPos data fs Hn Hk Ho) as [Hop [rest Hst]].
  unfold GetTransaction_read. cbn [tp_nFile tp_nPos tp_nTxOffset]. rewrite Hop. cbn [mbind option_bind]. rewrite Hst.
  rewrite (Serialize_block_datas version block data txs datas) by done.
  rewrite <- !(assoc_L (++)), codec_step by done. unfold mbind, reader_bind at 1 2, stream_seek.
  rewrite <- (take_drop_middle datas i d Hd) at 2. rewrite concat_app. cbn [concat].
  pose proof (length_WriteCompactSize (Zlength (vtx block))) as Hc.
  replace (Z.to_nat (GetSizeOfCompactSize (Zlength (vtx block)) + Zlength (concat (take i datas))))
    with (length (WriteCompactSize (Zlength (vtx block)) ++ concat (take i datas))) by (rewrite length_app; unfold Zlength in *; lia).
  rewrite <- !(assoc_L (++)), (assoc_L (++) (WriteCompactSize _)), drop_app_length.
  assert (d = ok_bytes (SerializeTransaction (ref_tx tx) version)) as ->.
  { assert (serialized version tx d) as Hs by (by eapply Forall2_lookup_lr). unfold serialized in Hs. by rewrite Hs. }
  rewrite tx_decode by done. by rewrite Hdec.
Qed.

Lemma txindex_spec env block pindex n c sc caches st caches' b c' s st' data fs tx txid :
  ConnectBlock run_check SC sc_contains sc_insert nonce os messageStart true env block pindex false c sc caches st
    = Ok (caches', b, c', Some s, st') ->
  may_store env block pindex n c (cn_vtxundo _ s) st -> block_wf (ne_CLIENT_VERSION env) block ->
  Serialize_block block (ne_CLIENT_VERSION env) = Ok data -> Zlength data < 2 ^ 32 ->
  GetBlockPos n = mkDiskPos (bi_nFile n) (bi_nDataPos n) -> 0 <= bi_nDataPos n -> os_can_open os pre_blk (bi_nFile n) = true ->
  kept (mkPlace pre_blk (Z.to_nat (bi_nFile n)) (Z.to_nat (bi_nDataPos n)) data) (so_files st) -> keeps (so_files st') fs ->
  tx ∈ vtx block -> ComputeHash tx = Ok txid ->
  GetTransaction_indexed os (ne_CLIENT_VERSION env) txid (mkStore fs (so_index st') (so_dirty st') (so_txindex st') (so_meta st')) = Some (tx, pindex).
Proof.
  intros E Hms [Hhw [_ Hwf]] Eser Hsize Hpos Hdp Ho Hkept Hfs Hin Hid.
  destruct (store_disconnect_spec _ _ _ _ _ _ _ _ _ _ _ _ _ _ fs E Hms Hfs) as [Hkeep _].
  destruct Hms as [Hmay Hidx Hh Hok Hcw Hlow Hbest Hhash Hcount Hnull Hroom].
  apply ConnectBlock_parts in E as (c1 & st1 & Ec & -> & Eu & ->). cbn [so_files so_index so_txindex] in *.
  destruct (ConnectBlock_checks_spec _ _ _ _ _ _ _ _ _ _ _ _ _ _ _ _ _ Ec Hmay Hok Hcw) as (Ev & _ & _).
  destruct (ConnectBlock_checks_run _ _ _ n _ _ _ _ _ _ _ Ec (mc_entry _ _ _ _ _ Hmay) Ev) as (Hp & ce & s0 & txs & Er & Etx & Een & Ever & Eoff & Ev0 & _).
  apply ConnectTxs_positions in Er as (datas & Hds & Evp & _). rewrite Ev0, Een, Eoff, Ever in *. cbn [app] in Evp.
  pose proof (MakeTransactionRef_all _ _ Etx) as Eref. pose proof (Forall2_length _ _ _ Hds) as Hl.
  apply list_elem_of_lookup in Hin as [i Hi]. rewrite <- Eref, list_lookup_fmap in Hi. destruct (txs !! i) as [r|] eqn:Ei; [|done]. injection Hi as <-.
  destruct (lookup_lt_is_Some_2 datas i) as [d Hd]; [rewrite <- Hl; by eapply lookup_lt_Some|].
  assert (ref_hash r = txid) as <-.
  { apply mapM_Ok_Forall2 in Etx. destruct (Forall2_lookup_r _ _ _ _ _ Etx Ei) as (t & _ & Hr). revert Hr. unfold MakeTransactionRef.
    destruct (ComputeHash t) as [h|] eqn:Eh; [|done]. cbn. intros Hr%Ok_inj. subst r. cbn in *. congruence. }
  pose proof (Serialize_block_datas _ _ _ _ _ Eser (eq_sym Eref) Hds) as Edata. rewrite Edata, !Zlength_app in Hsize.
  pose proof (length_WriteCompactSize (Zlength (vtx block))). pose proof (Zlength_nonneg (Serialize_header (block_header block))).
  pose proof (Zlength_nonneg (WriteCompactSize (Zlength (vtx block)))).
  unfold GetTransaction_indexed. cbn [so_txindex so_files]. rewrite Evp.
  erewrite WriteTxIndex_lookup; [|rewrite tx_positions_keys by done; by apply (mc_ids _ _ _ _ _ Hmay)
    |eapply list_elem_of_lookup_2, (tx_positions_lookup _ _ _ _ i r d); [done..|lia|lia]].
  cbn [mbind option_bind]. rewrite Hpos. cbn [dp_nFile dp_nPos]. destruct Hroom as (_ & Hfile & _). rewrite <- (Z2Nat.id (bi_nFile n)) by done.
  assert (Forall (fun x => tx_wf (ref_tx x) /\ wire_ok (ne_CLIENT_VERSION env) (ref_tx x) /\ decoded (ne_CLIENT_VERSION env) (ref_tx x) = ref_tx x) txs)
    as Hwfr by (by apply (Forall_refs (fun t => tx_wf t /\ wire_ok (ne_CLIENT_VERSION env) t /\ decoded (ne_CLIENT_VERSION env) t = t) _ (vtx block))).
  destruct (Forall_lookup_1 _ _ _ _ Hwfr Ei) as (W1 & W2 & W3).
  erewrite (GetTransaction_read_kept (ne_CLIENT_VERSION env) block data txs datas i r d);
    [|done|by apply Hfs, Hkeep|by rewrite Z2Nat.id|done..]. cbn [mbind option_bind]. rewrite Hid, bool_decide_eq_true_2 by done. by rewrite <- Hp.
Qed.


(** C40: after a block was connected, the index of transactions leads [GetTransaction] to
    every transaction of the block, with the hash of the block, as long as what is on disk
    is kept. *)
Theorem txindex_correct env block pindex n c sc caches st caches' b c' s st' data fs tx txid :
  ConnectBlock run_check SC sc_contains sc_insert nonce os messageStart true env block pindex false c sc caches st
    = Ok (caches', b, c', Some s, st') ->
  may_store env block pindex n c (cn_vtxundo _ s) st -> block_wf (ne_CLIENT_VERSION env) block ->
  Serialize_block block (ne_CLIENT_VERSION env) = Ok data -> Zlength data < 2 ^ 32 ->
  GetBlockPos n = mkDiskPos (bi_nFile n) (bi_nDataPos n) -> 0 <= bi_nDataPos n -> os_can_open os pre_blk (bi_nFile n) = true ->
  kept (mkPlace pre_blk (Z.to_nat (bi_nFile n)) (Z.to_nat (bi_nDataPos n)) data) (so_files st) -> keeps (so_files st') fs ->
  tx ∈ vtx block -> ComputeHash tx = Ok txid ->
  GetTransaction_indexed os (ne_CLIENT_VERSION env) txid (mkStore fs (so_index st') (so_dirty st') (so_txindex st') (so_meta st')) = Some (tx, pindex).
Proof. apply txindex_spec. Qed.
End blocks.

(** * Instances of the statements, and the reader that misses its transaction *)

Definition demo_create_ext : CExtData :=
  mkExtData EXTDATA_CREATESUBCHAIN (AnyCreate (mkCreateExt (replicate 32 x05) (replicate 32 x06) [] [] [] [])).
Definition demo_create : CTransaction := mkTx 1 [mkTxIn demo_out [] 0xffffffff []] [mkTxOut (90 * COIN) [x51]] 0 demo_create_ext.
Definition demo_meta : CBlock := demo_connect [demo_coinbase; demo_create] 2.

(** The block is in file 0 behind a record header, and the undo file has a record already. *)
Definition disk_node (block : CBlock) : CBlockIndex :=
  mkBlockIndex (Some demo_parent) None 1 0 8 0 base_uint_zero 2 0 BLOCK_HAVE_DATA 4 (hashMerkleRoot (block_header block)) 1600 0x207fffff 0 0 0.
Definition block_data (block : CBlock) : bytes := match Serialize_block block 0 with Ok d => d | Err _ => [] end.
Definition disk_files (block : CBlock) : files :=
  mkFiles (<[(pre_blk, 0) := replicate 8 x00 ++ block_data block]> {[ (pre_rev, 0) := replicate 8 x00 ]})
    (mkFamily [mkFileInfo 1 (8 + Zlength (block_data block)) 8 1 1 1600 1600] 0 ∅) (mkFamily [] 0 ∅) false false.
Definition disk_store (block : CBlock) : store :=
  mkStore (disk_files block) (ne_index (demo_env_of (disk_node block) block)) ∅ ∅ ∅.
Definition disk_run (block : CBlock) :=
  ConnectBlock (fun _ => None) unit (fun _ _ sc => (false, sc)) (fun _ sc => sc) (replicate 32 x00) sample_os (replicate 4 x0a) true
    (demo_env_of (disk_node block) block) block (block_hash block) false (demo_view demo_coins) tt VersionBitsCache_Clear (disk_store block).

Definition small_undo (us : list CTxUndo) : bool :=
  match Serialize_blockundo us with Some data => Zlength data <? 1000 | None => true end.

Lemma disk_runs : exists caches b c s st, disk_run demo_meta = Ok (caches, b, c, Some s, st) /\ small_undo (cn_vtxundo _ s) = true.
Proof.
  assert (match disk_run demo_meta with Ok (_, _, _, Some s, _) => small_undo (cn_vtxundo _ s) | _ => false end = true) as Ht by (vm_compute; reflexivity).
  destruct (disk_run demo_meta) as [[[[[caches b] c] [s|]] st]|]; [|discriminate Ht..]. by exists caches, b, c, s, st.
Qed.

Lemma disk_good : demo_good_of (disk_node demo_meta) demo_meta = true.
Proof. vm_compute. reflexivity. Qed.

Lemma disk_may_store us : small_undo us = true ->
  may_store (replicate 4 x0a) (demo_env_of (disk_node demo_meta) demo_meta) demo_meta (block_hash demo_meta) (disk_node demo_meta)
    (demo_view demo_coins) us (disk_store demo_meta).
Proof.
  intros Hs. destruct demo_coins_ok as [Hok Hwf]. split.
  - apply demo_may_connect_of; [exact disk_good|reflexivity..].
  - reflexivity.
  - cbn. lia.
  - exact Hok.
  - exact Hwf.
  - intros o coin Ho. change (demo_coins !! o = Some coin) in Ho. unfold demo_coins in Ho. apply lookup_singleton_Some in Ho as [<- <-]. cbn. lia.
  - reflexivity.
  - repeat constructor.
  - vm_compute. discriminate.
  - reflexivity.
  - split; [reflexivity|]. split; [cbn; lia|]. exists (mkFileInfo 1 (8 + Zlength (block_data demo_meta)) 8 1 1 1600 1600).
    split; [reflexivity|]. cbn [fi_nUndoSize]. split; [lia|]. intros data E. unfold small_undo in Hs. rewrite E in Hs. apply Z.ltb_lt in Hs.
    unfold UNDOFILE_CHUNK_SIZE. lia.
Qed.


Lemma demo_header_wf : header_wf (block_header demo_meta).
Proof. split_and!; vm_compute; (reflexivity || (split; congruence)). Qed.

Lemma demo_meta_wf : block_wf 0 demo_meta.
Proof.
  split; [exact demo_header_wf|]. split; [vm_compute; congruence|].
  constructor; [|constructor; [|constructor]]; (split; [wf_compute|split; vm_compute; congruence]).
Qed.

Lemma demo_meta_data : Serialize_block demo_meta 0 = Ok (block_data demo_meta) /\ Zlength (block_data demo_meta) < 2 ^ 32.
Proof.
  unfold block_data. assert (match Serialize_block demo_meta 0 with Ok d => Zlength d <? 2 ^ 32 | Err _ => false end = true) as Ht by (vm_compute; reflexivity).
  destruct (Serialize_block demo_meta 0) as [d|]; [|discriminate Ht]. split; [reflexivity|by apply Z.ltb_lt].
Qed.

Lemma demo_meta_kept : kept (mkPlace pre_blk 0 8 (block_data demo_meta)) (so_files (disk_store demo_meta)).
Proof.
  split.
  - exists (replicate 8 x00 ++ block_data demo_meta). split; [apply lookup_insert_eq|]. exists (replicate 8 x00), []. by rewrite app_nil_r.
  - eexists. split; [reflexivity|]. unfold pl_end. cbn [pl_pos pl_data pl_prefix used fi_nSize]. lia.
Qed.

Lemma demo_create_hashes : exists txid, ComputeHash demo_create = Ok txid.
Proof.
  assert (match ComputeHash demo_create with Ok _ => true | Err _ => false end = true) as Ht by (vm_compute; reflexivity).
  destruct (ComputeHash demo_create) as [h|]; [by exists h|discriminate Ht].
Qed.

Lemma demo_meta_places : GetBlockPos (disk_node demo_meta) = mkDiskPos (bi_nFile (disk_node demo_meta)) (bi_nDataPos (disk_node demo_meta)) /\
  0 <= bi_nDataPos (disk_node demo_meta) /\ os_can_open sample_os pre_blk (bi_nFile (disk_node demo_meta)) = true /\ demo_create ∈ vtx demo_meta.
Proof. split; [reflexivity|]. split; [change (0 <= 8); lia|]. split; [reflexivity|]. right. left. Qed.

Lemma txindex_correct_witness : exists caches b c' s st' txid, disk_run demo_meta = Ok (caches, b, c', Some s, st') /\
  ComputeHash demo_create = Ok txid /\ GetTransaction_indexed sample_os 0 txid st' = Some (demo_create, block_hash demo_meta).
Proof.
  destruct disk_runs as (caches & b & c' & s & st' & E & Hs). pose proof E as Er. unfold disk_run in Er.
  destruct demo_create_hashes as [txid Hid]. destruct demo_meta_data as [Hd Hl]. destruct demo_meta_places as (Hpos & Hdp & Ho & Hin).
  assert (keeps (so_files st') (so_files st')) as Hk by reflexivity.
  pose proof (txindex_correct (fun _ => None) unit (fun _ _ sc => (false, sc)) (fun _ sc => sc) (replicate 32 x00) sample_os (replicate 4 x0a)
    (demo_env_of (disk_node demo_meta) demo_meta) demo_meta (block_hash demo_meta) (disk_node demo_meta) (demo_view demo_coins) tt VersionBitsCache_Clear
    (disk_store demo_meta) caches b c' s st' (block_data demo_meta) (so_files st') demo_create txid Er (disk_may_store _ Hs) demo_meta_wf Hd Hl
    Hpos Hdp Ho demo_meta_kept Hk Hin Hid) as Hg.
  exists caches, b, c', s, st', txid. split; [exact E|]. split; [exact Hid|]. destruct st'. exact Hg.
Defined.

(** The position recorded for the creation of a sub-chain leads [GetTransaction] to the
    transaction, but the loader of the metadata, which counts the offset from the start of
    the block instead of from the end of its header, fails on it and gives up. *)
Theorem subchain_meta_not_reloaded : exists caches b c' s st' txid pos,
  disk_run demo_meta = Ok (caches, b, c', Some s, st') /\ ComputeHash demo_create = Ok txid /\ so_meta st' !! txid = Some pos /\
  GetTransaction_indexed sample_os 0 txid st' = Some (demo_create, block_hash demo_meta) /\
  LoadSubChainMetaData (LoadSubChainMetaData_read sample_os 0 (so_files st')) [mkMetaRecord (Some (DB_TXINDEX, txid)) (Some pos)] MetaPool_empty
    = (MetaPool_empty, false).
Proof.
  assert (match disk_run demo_meta, ComputeHash demo_create with
          | Ok (_, _, _, Some s, st'), Ok txid =>
              match so_meta st' !! txid with
              | Some pos => small_undo (cn_vtxundo _ s) &&
                  match LoadSubChainMetaData_read sample_os 0 (so_files st') pos with ReadThrows => true | _ => false end
              | None => false
              end
          | _, _ => false end = true) as Ht by (vm_compute; reflexivity).
  destruct (disk_run demo_meta) as [[[[[caches b] c'] [s|]] st']|] eqn:E; [|discriminate Ht..].
  destruct (ComputeHash demo_create) as [txid|] eqn:Hid; [|discriminate Ht]. destruct (so_meta st' !! txid) as [pos|] eqn:Em; [|discriminate Ht].
  apply andb_prop in Ht as [Hs Ht]. exists caches, b, c', s, st', txid, pos. split; [reflexivity|]. split; [reflexivity|]. split; [exact Em|]. split.
  - unfold disk_run in E. destruct demo_meta_data as [Hd Hl]. destruct demo_meta_places as (Hpos & Hdp & Ho & Hin).
    assert (keeps (so_files st') (so_files st')) as Hk by reflexivity.
    pose proof (txindex_spec (fun _ => None) unit (fun _ _ sc => (false, sc)) (fun _ sc => sc) (replicate 32 x00) sample_os (replicate 4 x0a)
      (demo_env_of (disk_node demo_meta) demo_meta) demo_meta (block_hash demo_meta) (disk_node demo_meta) (demo_view demo_coins) tt VersionBitsCache_Clear
      (disk_store demo_meta) caches b c' s st' (block_data demo_meta) (so_files st') demo_create txid E (disk_may_store _ Hs) demo_meta_wf Hd Hl
      Hpos Hdp Ho demo_meta_kept Hk Hin Hid) as Hg.
    destruct st'. exact Hg.
  - cbn [LoadSubChainMetaData mr_key mr_value]. rewrite bool_decide_eq_true_2 by reflexivity.
    destruct (LoadSubChainMetaData_read sample_os 0 (so_files st') pos); [discriminate Ht|reflexivity|discriminate Ht].
Qed.
