(* ===== verification/CheckTotal.v ===== *)
(** * The checks of a block never crash (topchain/src/validation.cpp, tx_verify.cpp)

    On a block that came over the wire and an index in order, [CheckBlock],
    [ContextualCheckBlock] and [IsWitnessEnabled] fail no assertion, follow no dangling
    pointer and throw nothing: they accept or reject. *)

From Stdlib Require Import Strings.String.
From S2P Require Import Prelude Serialize Sha256 Primitives ArithUint256 Chain MedianTime Versionbits Pow Merkle Script Coins TxVerify BlockCheck Headers.

#[local] Open Scope Z_scope.

Definition safe {A} (r : result failure A) : Prop := r <> Err Crash.

Lemma safe_bind {A B} (r : result failure A) (f : A -> result failure B) :
  safe r -> (forall a, r = Ok a -> safe (f a)) -> safe (a ← r; f a).
Proof. intros Hr Hf. destruct r as [a|e]; [by apply Hf|]. intros E. apply Hr. cbn in E. congruence. Qed.

Lemma safe_if {A} (b : bool) (x y : result failure A) : safe x -> safe y -> safe (if b then x else y).
Proof. by destruct b. Qed.

Lemma safe_Ok {A} (a : A) : safe (Ok a).
Proof. done. Qed.

Lemma safe_DoS {A} level code reason : safe (@DoS A level code reason).
Proof. done. Qed.

Lemma safe_DoS_corrupt {A} level code reason : safe (@DoS_corrupt A level code reason).
Proof. done. Qed.

Create HintDb safe.
#[export] Hint Resolve safe_if safe_Ok safe_DoS safe_DoS_corrupt : safe.

(** ** Serialization *)

Definition is_Ok {E A} (r : result E A) : Prop := exists a, r = Ok a.

Definition txs_wf (block : CBlock) : Prop := Forall tx_wf (vtx block) /\ Zlength (vtx block) <= 2 ^ 31.

Lemma ComputeHash_ok tx : tx_wf tx -> is_Ok (ComputeHash tx).
Proof. intros H. unfold ComputeHash. rewrite (tx_wf_Serialize tx _ H). by eexists. Qed.

Lemma GetWitnessHash_ok tx : tx_wf tx -> is_Ok (GetWitnessHash tx).
Proof.
  intros H. unfold GetWitnessHash. destruct (negb _); [by apply ComputeHash_ok|]. rewrite (tx_wf_Serialize tx _ H). by eexists.
Qed.

Lemma mapM_is_Ok {E A B} (f : A -> result E B) l : Forall (fun x => is_Ok (f x)) l -> is_Ok (mapM f l).
Proof.
  induction 1 as [|x l [y Hy] Hl [ys Hys]]; [by eexists|]. exists (y :: ys). cbn. rewrite Hy. cbn. by rewrite Hys.
Qed.

Lemma Serialize_block_ok block version : Forall tx_wf (vtx block) -> is_Ok (Serialize_block block version).
Proof.
  intros H. unfold Serialize_block. destruct (mapM_is_Ok (fun tx => SerializeTransaction tx version) (vtx block)) as [txs ->]; [|by eexists].
  eapply Forall_impl; [exact H|]. intros tx Htx. eexists. by apply tx_wf_Serialize.
Qed.

Lemma crash_if_err_ok {E A} (r : result E A) : is_Ok r -> safe (crash_if_err r).
Proof. intros [a ->]. done. Qed.

Lemma crash_if_none_some {A} (x : option A) : is_Some x -> safe (crash_if_none x).
Proof. intros [a ->]. done. Qed.

Lemma merkle_total leaves : Z.of_nat (length leaves) <= 2 ^ 31 -> is_Some (ComputeMerkleRoot leaves).
Proof. intros H. destruct (ComputeMerkleRoot_spec leaves H) as (mu & -> & _). by eexists. Qed.

(** ** [CheckBlock] *)

Lemma CheckTransaction_outputs_safe outs v : safe (CheckTransaction_outputs outs v).
Proof. revert v. induction outs as [|o outs IH]; intros v; cbn; [done|]. repeat (apply safe_if; [done|]). apply IH. Qed.

Lemma CheckTransaction_safe tx : tx_wf tx -> safe (CheckTransaction tx false).
Proof.
  intros H. unfold CheckTransaction. destruct (vin tx); [done|]. destruct (vout tx) eqn:Eo; [done|]. rewrite <- Eo.
  apply safe_bind; [apply crash_if_err_ok; eexists; by apply tx_wf_Serialize|]. intros data _.
  apply safe_if; [done|]. apply safe_bind; [apply CheckTransaction_outputs_safe|]. intros _ _. cbn.
  destruct (IsCoinBase tx); auto with safe.
Qed.

Lemma CheckBlock_txs_safe txs : Forall tx_wf txs -> safe (CheckBlock_txs txs).
Proof.
  induction 1 as [|tx txs Htx Htxs IH]; cbn [CheckBlock_txs]; [done|]. apply safe_bind; [by apply CheckTransaction_safe|done].
Qed.

Lemma CheckBlock_merkle_safe block : txs_wf block -> safe (CheckBlock_merkle block).
Proof.
  intros [Htx Hl]. unfold CheckBlock_merkle, BlockMerkleRoot.
  destruct (mapM_is_Ok ComputeHash (vtx block)) as [leaves E]; [eapply Forall_impl; [exact Htx|apply ComputeHash_ok]|]. rewrite E.
  cbn [mbind result_bind crash_if_err]. destruct (merkle_total leaves) as [[h mu] ->].
  { rewrite <- (Forall2_length _ _ _ (mapM_Ok_Forall2 _ _ _ E)). exact Hl. }
  cbn. auto with safe.
Qed.

Lemma CheckBlock_safe block params pow merkle : txs_wf block -> safe (CheckBlock block params pow merkle).
Proof.
  intros Hwf. unfold CheckBlock. destruct (fChecked block); [done|].
  apply safe_bind; [unfold CheckBlockHeader; auto with safe|]. intros _ _.
  apply safe_bind; [apply safe_if; [by apply CheckBlock_merkle_safe|done]|]. intros _ _. pose proof Hwf as [Htx _].
  destruct (vtx block) as [|first rest] eqn:Ev; [done|]. apply safe_if; [done|]. rewrite <- Ev in *.
  apply safe_bind; [by apply crash_if_err_ok, Serialize_block_ok|]. intros data _.
  repeat (apply safe_if; [done|]). apply safe_bind; [by apply CheckBlock_txs_safe|]. intros _ _. auto with safe.
Qed.

(** ** The deployments *)

Record deployments_ok (params : DeploymentParams) : Prop := {
  dpo_period : 0 < i32 (nMinerConfirmationWindow params);
  dpo_times : forall pos, nStartTime (vDeployments params pos) <= nTimeout (vDeployments params pos)
}.

Definition caches_sound (m : BlockMap) (params : DeploymentParams) (caches : VersionBitsCache) : Prop :=
  forall pos, cache_sound m (VersionBitsConditionChecker params pos) (caches pos).

Record times_sound (m : BlockMap) : Prop := {
  tso_index : index_ok m;
  tso_times : times_ok m;
  tso_increase : times_increase m
}.

Lemma VersionBitsState_total m pindexPrev params pos caches :
  times_sound m -> deployments_ok params -> caches_sound m params caches ->
  match pindexPrev with Some p => is_Some (m !! p) | None => True end ->
  exists caches' s, VersionBitsState m pindexPrev params pos caches = Some (caches', s) /\ caches_sound m params caches' /\
    deployment_state m (VersionBitsConditionChecker params pos) pindexPrev = Some s.
Proof.
  intros [H1 H2 H3] [D1 D2] Hc Hp. unfold VersionBitsState.
  destruct (GetStateFor_spec m (VersionBitsConditionChecker params pos) H1 H2 H3 D1 (D2 pos) pindexPrev (caches pos) (Hc pos) Hp)
    as (c & s & -> & Hd & Hc'). cbn [mbind option_bind]. eexists _, _. split; [done|]. split; [|done]. intros pos'. unfold set_cache.
  destruct (bool_decide_reflect (pos' = pos)) as [->|]; [done|apply Hc].
Qed.

Lemma caches_sound_includes m m' params caches : includes m m' -> caches_sound m params caches -> caches_sound m' params caches.
Proof. intros Hi Hc pos. by apply (includes_cache_sound m). Qed.

Lemma IsWitnessEnabled_total m pindexPrev params caches :
  times_sound m -> deployments_ok (cp_deployments params) -> caches_sound m (cp_deployments params) caches ->
  match pindexPrev with Some p => is_Some (m !! p) | None => True end ->
  exists caches' b, IsWitnessEnabled m pindexPrev params caches = Ok (caches', b) /\ caches_sound m (cp_deployments params) caches'.
Proof.
  intros Hm Hd Hc Hp. unfold IsWitnessEnabled.
  destruct (VersionBitsState_total m pindexPrev _ DEPLOYMENT_SEGWIT caches Hm Hd Hc Hp) as (c & s & -> & Hc' & _). by eexists _, _.
Qed.

(** ** [ContextualCheckBlock] *)

(** A block with a coinbase in front. *)
Definition has_coinbase (block : CBlock) : Prop := exists first rest i, vtx block = first :: rest /\ vin first = [i].

Lemma coinbase_input tx : IsCoinBase tx = true -> exists i, vin tx = [i].
Proof. unfold IsCoinBase. destruct (vin tx) as [|i [|? ?]]; try done. by exists i. Qed.

Lemma ContextualCheck_final_safe block params nHeight cutoff : has_coinbase block -> safe (ContextualCheck_final block params nHeight cutoff).
Proof.
  intros (first & rest & i & Ev & Ei). unfold ContextualCheck_final. rewrite Ev. cbn [head]. apply safe_if; [done|].
  destruct (BIP34Height params <=? nHeight); [|done]. cbn [crash_if_none mbind result_bind]. rewrite Ei. cbn. auto with safe.
Qed.

Lemma commitment_loop_bound outs : forall o pos, 0 <= o -> o + Zlength outs < 2 ^ 31 -> commitment_loop o pos outs <> pos ->
  o <= commitment_loop o pos outs < o + Zlength outs.
Proof.
  induction outs as [|out outs IH]; intros o pos Ho Hl; cbn [commitment_loop]; [done|]. rewrite Zlength_cons in *.
  pose proof (Zlength_nonneg outs). destruct (is_commitment _).
  - intros _. rewrite (wraps_small 32 o) by (split; lia). destruct (decide (commitment_loop (o + 1) o outs = o)) as [->|Hne]; [lia|].
    specialize (IH (o + 1) o ltac:(lia) ltac:(lia) Hne). lia.
  - intros Hne. specialize (IH (o + 1) pos ltac:(lia) ltac:(lia) Hne). lia.
Qed.

Lemma commitment_output block first rest :
  vtx block = first :: rest -> Zlength (vout first) < 2 ^ 31 -> GetWitnessCommitmentIndex block <> -1 ->
  is_Some (vout first !! Z.to_nat (GetWitnessCommitmentIndex block)).
Proof.
  intros Ev Hl. unfold GetWitnessCommitmentIndex. rewrite Ev. intros Hne.
  pose proof (commitment_loop_bound (vout first) 0 (-1) ltac:(lia) ltac:(lia) Hne). apply lookup_lt_is_Some. unfold Zlength in *. lia.
Qed.

Lemma CheckWitnessCommitment_safe block : txs_wf block -> has_coinbase block -> safe (CheckWitnessCommitment block).
Proof.
  intros [Htx Hl] (first & rest & i & Ev & Ei). unfold CheckWitnessCommitment.
  destruct (Z.eqb_spec (GetWitnessCommitmentIndex block) (-1)) as [E|E]; cbn [negb]; [done|].
  unfold BlockWitnessMerkleRoot. rewrite Ev in Htx, Hl. apply Forall_cons in Htx as [Hf Hr].
  destruct (mapM_is_Ok GetWitnessHash rest) as [leaves El]; [eapply Forall_impl; [exact Hr|apply GetWitnessHash_ok]|].
  destruct (merkle_total (uint256_zero :: leaves)) as [[h mu] Em].
  { cbn [length]. rewrite <- (Forall2_length _ _ _ (mapM_Ok_Forall2 _ _ _ El)). rewrite Zlength_cons in Hl. unfold Zlength in Hl. lia. }
  destruct (commitment_output block first rest Ev) as [out Eo]; [|done|].
  { destruct Hf as (_ & _ & _ & [Ho _] & _). unfold MAX_SIZE in Ho. lia. }
  rewrite Ev, El. cbn [mbind result_bind crash_if_err head]. rewrite Em. cbn [mbind result_bind crash_if_none]. rewrite Ei.
  cbn [head mbind result_bind crash_if_none]. destruct (scriptWitness i) as [|nonce [|? ?]]; try done.
  apply safe_if; [done|]. rewrite Eo. cbn. auto with safe.
Qed.

Lemma ContextualCheck_witness_safe block enabled : txs_wf block -> has_coinbase block -> safe (ContextualCheck_witness block enabled).
Proof.
  intros Hwf Hcb. unfold ContextualCheck_witness. apply safe_bind; [apply safe_if; [by apply CheckWitnessCommitment_safe|done]|].
  intros b _. apply safe_if; [done|]. apply safe_bind; [|intros w _; auto with safe]. apply crash_if_err_ok. unfold GetBlockWeight.
  destruct Hwf as [Htx _]. destruct (Serialize_block_ok block SERIALIZE_TRANSACTION_NO_WITNESS Htx) as [b0 ->].
  destruct (Serialize_block_ok block 0 Htx) as [b1 ->]. by eexists.
Qed.

Lemma ContextualCheckBlock_total m block params pindexPrev caches caches' r :
  times_sound m -> deployments_ok (cp_deployments params) -> caches_sound m (cp_deployments params) caches ->
  match pindexPrev with Some p => is_Some (m !! p) | None => True end -> txs_wf block -> has_coinbase block ->
  ContextualCheckBlock m block params pindexPrev caches = (caches', r) ->
  caches_sound m (cp_deployments params) caches' /\ safe r.
Proof.
  intros Hm Hd Hc Hp Hwf Hcb. unfold ContextualCheckBlock.
  destruct (VersionBitsState_total m pindexPrev _ DEPLOYMENT_CSV caches Hm Hd Hc Hp) as (c1 & s & -> & Hc1 & Hs).
  set (final := nHeight ← _; _). assert (safe final) as Hf.
  { apply safe_bind.
    - destruct pindexPrev as [p|]; [|done]. destruct Hp as [n ->]. done.
    - intros nHeight _. apply safe_bind; [|intros; by apply ContextualCheck_final_safe].
      destruct (is_active s) eqn:Ea; [|done]. apply crash_if_none_some. destruct pindexPrev as [p|].
      + destruct Hp as [n Hn]. cbn [mbind option_bind].
        destruct (GetMedianTimePast_spec m p n (tso_index m Hm) (tso_times m Hm) Hn) as (t & -> & _). by eexists.
      + cbn in Hs. injection Hs as <-. done. }
  destruct final as [[]|e]; [|intros [= <- <-]; split; [done|]; intros [= ->]; by apply Hf].
  destruct (VersionBitsState_total m pindexPrev _ DEPLOYMENT_SEGWIT c1 Hm Hd Hc1 Hp) as (c2 & s2 & -> & Hc2 & _).
  intros [= <- <-]. split; [done|]. by apply ContextualCheck_witness_safe.
Qed.

