(* ===== verification/ChainState.v ===== *)
(** * Choosing the active chain (topchain/src/validation.cpp)

    The set of candidate tips and its order, [FindMostWorkChain],
    [PruneBlockIndexCandidates], [ConnectTip], [DisconnectTip],
    [ActivateBestChainStep] and [ActivateBestChain].

    What connecting and disconnecting a block does to the coins and the files is an
    interface, [BlockEffects]; its laws are [BlockRules]. [std::set] ordered by
    [CBlockIndexWorkComparator] is a finite set read through its maximum; the last
    tie-breaker of the order, the address of the entry, is the parameter [addr].
    The memory pool, the notifications and the fork warnings are left out: no
    decision here reads them. [None] is a failed assertion or a dangling pointer. *)

From S2P Require Import Prelude Serialize Sha256 Primitives ArithUint256 Chain.

(** ** The interface to the coins and the files *)

(** How [ConnectTip] ends before the tip moves: connected, refused by a rule (with
    [CorruptionPossible]), or a system error. *)
Inductive tip_result :=
  | TipConnected
  | TipInvalid (corruption : bool)
  | TipError.

(** [connect_block]: reading the block unless it is given, [ConnectBlock] on a
    fresh view, the flush of the view and [FlushStateToDisk]; the entry of the
    block may change. [disconnect_block]: the same for [DisconnectBlock]. *)
Class BlockEffects (X : Type) := {
  connect_block : BlockMap -> X -> uint256 -> option CBlock -> BlockMap * X * tip_result;
  disconnect_block : BlockMap -> X -> uint256 -> option X
}.

(** The globals of validation.cpp that chain selection works on. *)
Record chainstate (X : Type) := mkChainState {
  cs_index : BlockMap;
  cs_active : CChain;
  cs_candidates : gset (list byte);
  cs_unlinked : list (option uint256 * uint256);
  cs_best_invalid : option uint256;
  cs_failed : gset (list byte);
  cs_dirty : gset (list byte);
  cs_sequence : Z;
  cs_reverse_sequence : Z;
  cs_precious_work : base_uint;
  cs_effects : X
}.
Arguments mkChainState {X}.
Arguments cs_index {X}.
Arguments cs_active {X}.
Arguments cs_candidates {X}.
Arguments cs_unlinked {X}.
Arguments cs_best_invalid {X}.
Arguments cs_failed {X}.
Arguments cs_dirty {X}.
Arguments cs_sequence {X}.
Arguments cs_reverse_sequence {X}.
Arguments cs_precious_work {X}.
Arguments cs_effects {X}.

Section setters.
Context {X : Type} (cs : chainstate X).

Definition with_index (m : BlockMap) : chainstate X :=
  mkChainState m (cs_active cs) (cs_candidates cs) (cs_unlinked cs) (cs_best_invalid cs) (cs_failed cs)
    (cs_dirty cs) (cs_sequence cs) (cs_reverse_sequence cs) (cs_precious_work cs) (cs_effects cs).
Definition with_active (c : CChain) : chainstate X :=
  mkChainState (cs_index cs) c (cs_candidates cs) (cs_unlinked cs) (cs_best_invalid cs) (cs_failed cs)
    (cs_dirty cs) (cs_sequence cs) (cs_reverse_sequence cs) (cs_precious_work cs) (cs_effects cs).
Definition with_candidates (s : gset (list byte)) : chainstate X :=
  mkChainState (cs_index cs) (cs_active cs) s (cs_unlinked cs) (cs_best_invalid cs) (cs_failed cs)
    (cs_dirty cs) (cs_sequence cs) (cs_reverse_sequence cs) (cs_precious_work cs) (cs_effects cs).
Definition with_unlinked (l : list (option uint256 * uint256)) : chainstate X :=
  mkChainState (cs_index cs) (cs_active cs) (cs_candidates cs) l (cs_best_invalid cs) (cs_failed cs)
    (cs_dirty cs) (cs_sequence cs) (cs_reverse_sequence cs) (cs_precious_work cs) (cs_effects cs).
Definition with_best_invalid (b : option uint256) : chainstate X :=
  mkChainState (cs_index cs) (cs_active cs) (cs_candidates cs) (cs_unlinked cs) b (cs_failed cs)
    (cs_dirty cs) (cs_sequence cs) (cs_reverse_sequence cs) (cs_precious_work cs) (cs_effects cs).
Definition with_failed (f : gset (list byte)) : chainstate X :=
  mkChainState (cs_index cs) (cs_active cs) (cs_candidates cs) (cs_unlinked cs) (cs_best_invalid cs) f
    (cs_dirty cs) (cs_sequence cs) (cs_reverse_sequence cs) (cs_precious_work cs) (cs_effects cs).
Definition with_dirty (d : gset (list byte)) : chainstate X :=
  mkChainState (cs_index cs) (cs_active cs) (cs_candidates cs) (cs_unlinked cs) (cs_best_invalid cs) (cs_failed cs)
    d (cs_sequence cs) (cs_reverse_sequence cs) (cs_precious_work cs) (cs_effects cs).
Definition with_sequence (s r : Z) (w : base_uint) : chainstate X :=
  mkChainState (cs_index cs) (cs_active cs) (cs_candidates cs) (cs_unlinked cs) (cs_best_invalid cs) (cs_failed cs)
    (cs_dirty cs) s r w (cs_effects cs).
Definition with_effects (x : X) : chainstate X :=
  mkChainState (cs_index cs) (cs_active cs) (cs_candidates cs) (cs_unlinked cs) (cs_best_invalid cs) (cs_failed cs)
    (cs_dirty cs) (cs_sequence cs) (cs_reverse_sequence cs) (cs_precious_work cs) x.

(** [pindex->nStatus |= bits] *)
Definition or_status (bits : Z) (p : uint256) : option (chainstate X) :=
  n ← cs_index cs !! p;
  Some (with_index (<[p := set_status (Z.lor (bi_nStatus n) bits) n]> (cs_index cs))).

Definition erase_candidate (p : uint256) : chainstate X := with_candidates (cs_candidates cs ∖ {[p]}).
Definition mark_dirty (p : uint256) : chainstate X := with_dirty ({[p]} ∪ cs_dirty cs).

End setters.

(** ** The order of the candidates *)

Section order.
Context (addr : uint256 -> Z).

(** [CBlockIndexWorkComparator]: is [pa] worse than [pb]? *)
Definition CBlockIndexWorkComparator (pa : uint256) (na : CBlockIndex) (pb : uint256) (nb : CBlockIndex) : bool :=
  if CompareTo (bi_nChainWork na) (bi_nChainWork nb) >? 0 then false
  else if CompareTo (bi_nChainWork na) (bi_nChainWork nb) <? 0 then true
  else if bi_nSequenceId na <? bi_nSequenceId nb then false
  else if bi_nSequenceId na >? bi_nSequenceId nb then true
  else if addr pa <? addr pb then false
  else if addr pa >? addr pb then true
  else false.

(** The same on pointers. *)
Definition worse (m : BlockMap) (pa pb : uint256) : option bool :=
  na ← m !! pa; nb ← m !! pb; Some (CBlockIndexWorkComparator pa na pb nb).

(** [*rbegin()]: the element no other is better than. *)
Fixpoint best_of (m : BlockMap) (b : uint256) (l : list uint256) : option uint256 :=
  match l with
  | [] => Some b
  | p :: l => w ← worse m b p; best_of m (if w : bool then p else b) l
  end.

Definition rbegin (m : BlockMap) (s : gset (list byte)) : option (option uint256) :=
  match elements s with
  | [] => Some None
  | p :: l => b ← best_of m p l; Some (Some b)
  end.

(** [CompareTo] on [nChainWork]: more work than? *)
Definition more_work (m : BlockMap) (pa pb : uint256) : option bool :=
  na ← m !! pa; nb ← m !! pb; Some (CompareTo (bi_nChainWork na) (bi_nChainWork nb) >? 0).

(** ** Finding the chain with the most work *)

(** Walking from the candidate to the active chain: the first entry that is marked
    failed or whose data is missing, with [fFailedChain]. *)
Fixpoint test_candidate (fuel : nat) (m : BlockMap) (c : CChain) (pindexTest : option uint256)
  : option (option (uint256 * bool)) :=
  match fuel, pindexTest with
  | _, None => Some None
  | O, Some _ => None
  | S fuel, Some p =>
      b ← CChain_Contains m c p;
      if b : bool then Some None
      else
        n ← m !! p;
        if (bi_nChainTx n =? 0) && negb (bi_nHeight n =? 0) then None
        else
          let fFailedChain := negb (Z.land (bi_nStatus n) BLOCK_FAILED_MASK =? 0) in
          let fMissingData := Z.land (bi_nStatus n) BLOCK_HAVE_DATA =? 0 in
          if fFailedChain || fMissingData then Some (Some (p, fFailedChain))
          else test_candidate fuel m c (bi_pprev n)
  end.

Context {X : Type}.

(** [if (!pindexBestInvalid || pindex->nChainWork > pindexBestInvalid->nChainWork)] *)
Definition update_best_invalid (cs : chainstate X) (p : uint256) : option (chainstate X) :=
  match cs_best_invalid cs with
  | None => Some (with_best_invalid cs (Some p))
  | Some q => b ← more_work (cs_index cs) p q; Some (if b : bool then with_best_invalid cs (Some p) else cs)
  end.

(** Removing the branch between the candidate and the unusable entry. *)
Fixpoint remove_branch (fuel : nat) (cs : chainstate X) (pindexTest : uint256) (fFailedChain : bool)
  (pindexFailed : uint256) : option (chainstate X) :=
  if bool_decide (pindexTest = pindexFailed) then Some (erase_candidate cs pindexTest)
  else
    match fuel with
    | O => None
    | S fuel =>
        n ← cs_index cs !! pindexFailed;
        cs ← (if fFailedChain then or_status cs BLOCK_FAILED_CHILD pindexFailed
              else Some (with_unlinked cs (cs_unlinked cs ++ [(bi_pprev n, pindexFailed)])));
        pprev ← bi_pprev n;
        remove_branch fuel (erase_candidate cs pindexFailed) pindexTest fFailedChain pprev
    end.

Fixpoint FindMostWorkChain_loop (fuel : nat) (cs : chainstate X) : option (chainstate X * option uint256) :=
  match fuel with
  | O => None
  | S fuel =>
      it ← rbegin (cs_index cs) (cs_candidates cs);
      match it with
      | None => Some (cs, None)
      | Some pindexNew =>
          n ← cs_index cs !! pindexNew;
          let steps := S (S (Z.to_nat (bi_nHeight n))) in
          t ← test_candidate steps (cs_index cs) (cs_active cs) (Some pindexNew);
          match t with
          | None => Some (cs, Some pindexNew)
          | Some (pindexTest, fFailedChain) =>
              cs ← (if fFailedChain then update_best_invalid cs pindexNew else Some cs);
              cs ← remove_branch steps cs pindexTest fFailedChain pindexNew;
              FindMostWorkChain_loop fuel cs
          end
      end
  end.

(** Each round that does not return removes a candidate. *)
Definition FindMostWorkChain (cs : chainstate X) : option (chainstate X * option uint256) :=
  FindMostWorkChain_loop (S (size (cs_candidates cs))) cs.

(** The set is ordered, so erasing from [begin()] while the element is worse than
    the tip erases exactly the elements worse than it. *)
Definition PruneBlockIndexCandidates (cs : chainstate X) : option (chainstate X) :=
  tip ← CChain_Tip (cs_active cs);
  nt ← cs_index cs !! tip;
  let s := filter (fun p => default false (worse (cs_index cs) p tip) = false) (cs_candidates cs) in
  if bool_decide (s = ∅) then None else Some (with_candidates cs s).

(** ** Moving the tip *)

(** [InvalidChainFound]; it asserts that there is a tip. *)
Definition InvalidChainFound (cs : chainstate X) (pindexNew : uint256) : option (chainstate X) :=
  cs ← update_best_invalid cs pindexNew;
  _ ← CChain_Tip (cs_active cs);
  Some cs.

Definition InvalidBlockFound (cs : chainstate X) (pindex : uint256) (corruption : bool) : option (chainstate X) :=
  if corruption then Some cs
  else
    cs ← or_status cs BLOCK_FAILED_VALID pindex;
    let cs := with_failed cs ({[pindex]} ∪ cs_failed cs) in
    InvalidChainFound (erase_candidate (mark_dirty cs pindex) pindex) pindex.

Context `{BlockEffects X}.

(** [DisconnectTip]; the flag is its result. *)
Definition DisconnectTip (cs : chainstate X) : option (chainstate X * bool) :=
  pindexDelete ← CChain_Tip (cs_active cs);
  n ← cs_index cs !! pindexDelete;
  match disconnect_block (cs_index cs) (cs_effects cs) pindexDelete with
  | None => Some (cs, false)
  | Some x =>
      c ← CChain_SetTip (cs_index cs) (cs_active cs) (bi_pprev n);
      Some (with_active (with_effects cs x) c, true)
  end.

Definition ConnectTip (cs : chainstate X) (pindexNew : uint256) (pblock : option CBlock)
  : option (chainstate X * tip_result) :=
  n ← cs_index cs !! pindexNew;
  if negb (bool_decide (bi_pprev n = CChain_Tip (cs_active cs))) then None
  else
    let '(m, x, r) := connect_block (cs_index cs) (cs_effects cs) pindexNew pblock in
    let cs := with_effects (with_index cs m) x in
    match r with
    | TipConnected =>
        c ← CChain_SetTip (cs_index cs) (cs_active cs) (Some pindexNew);
        Some (with_active cs c, r)
    | TipInvalid corruption => cs ← InvalidBlockFound cs pindexNew corruption; Some (cs, r)
    | TipError => Some (cs, r)
    end.

(** ** One step towards the best chain *)

(** [while (chainActive.Tip() && chainActive.Tip() != pindexFork)] *)
Fixpoint disconnect_to (fuel : nat) (cs : chainstate X) (pindexFork : option uint256) : option (chainstate X * bool) :=
  match CChain_Tip (cs_active cs) with
  | None => Some (cs, true)
  | Some tip =>
      if bool_decide (Some tip = pindexFork) then Some (cs, true)
      else
        match fuel with
        | O => None
        | S fuel =>
            '(cs, ok) ← DisconnectTip cs;
            if ok : bool then disconnect_to fuel cs pindexFork else Some (cs, false)
        end
  end.

(** [vpindexToConnect]: from the target height down to [nHeight], excluded. *)
Fixpoint to_connect (fuel : nat) (m : BlockMap) (pindexIter : option uint256) (nHeight : Z) : option (list uint256) :=
  match fuel, pindexIter with
  | _, None => Some []
  | O, Some _ => None
  | S fuel, Some p =>
      n ← m !! p;
      if bi_nHeight n =? nHeight then Some []
      else l ← to_connect fuel m (bi_pprev n) nHeight; Some (p :: l)
  end.

(** How the loop over one batch ends. *)
Inductive batch_result :=
  | BatchDone
  | BatchBetter
  | BatchInvalid
  | BatchError.
#[export] Instance batch_result_eq_dec : EqDecision batch_result.
Proof. solve_decision. Defined.

Fixpoint connect_batch (cs : chainstate X) (pindexOldTip : option uint256) (pindexMostWork : uint256)
  (pblock : option CBlock) (back : uint256) (l : list uint256) : option (chainstate X * batch_result) :=
  match l with
  | [] => Some (cs, BatchDone)
  | pindexConnect :: l =>
      '(cs, r) ← ConnectTip cs pindexConnect (if bool_decide (pindexConnect = pindexMostWork) then pblock else None);
      match r with
      | TipInvalid corruption =>
          cs ← (if corruption then Some cs else InvalidChainFound cs back);
          Some (cs, BatchInvalid)
      | TipError => Some (cs, BatchError)
      | TipConnected =>
          cs ← PruneBlockIndexCandidates cs;
          better ← match pindexOldTip with
                   | None => Some true
                   | Some old => tip ← CChain_Tip (cs_active cs); more_work (cs_index cs) tip old
                   end;
          if better : bool then Some (cs, BatchBetter)
          else connect_batch cs pindexOldTip pindexMostWork pblock back l
      end
  end.

(** [while (fContinue && nHeight != pindexMostWork->nHeight)], 32 blocks at a time. *)
Fixpoint connect_batches (fuel : nat) (cs : chainstate X) (pindexOldTip : option uint256) (pindexMostWork : uint256)
  (pblock : option CBlock) (nHeight : Z) : option (chainstate X * batch_result) :=
  n ← cs_index cs !! pindexMostWork;
  if nHeight =? bi_nHeight n then Some (cs, BatchDone)
  else
    match fuel with
    | O => None
    | S fuel =>
        let nTargetHeight := Z.min (nHeight + 32) (bi_nHeight n) in
        pindexIter ← GetAncestor (cs_index cs) pindexMostWork nTargetHeight;
        vpindexToConnect ← to_connect 33 (cs_index cs) pindexIter nHeight;
        match last vpindexToConnect with
        | None => connect_batches fuel cs pindexOldTip pindexMostWork pblock nTargetHeight
        | Some back =>
            '(cs, r) ← connect_batch cs pindexOldTip pindexMostWork pblock back (rev vpindexToConnect);
            match r with
            | BatchDone => connect_batches fuel cs pindexOldTip pindexMostWork pblock nTargetHeight
            | _ => Some (cs, r)
            end
        end
    end.

(** The result is [BatchError] when the source returns [false], and [BatchInvalid]
    when it sets [fInvalidFound]. *)
Definition ActivateBestChainStep (cs : chainstate X) (pindexMostWork : uint256) (pblock : option CBlock)
  : option (chainstate X * batch_result) :=
  let pindexOldTip := CChain_Tip (cs_active cs) in
  pindexFork ← CChain_FindFork (cs_index cs) (cs_active cs) (Some pindexMostWork);
  '(cs, ok) ← disconnect_to (length (cs_active cs)) cs pindexFork;
  if negb ok then Some (cs, BatchError)
  else
    nHeight ← match pindexFork with None => Some (-1) | Some f => n ← cs_index cs !! f; Some (bi_nHeight n) end;
    n ← cs_index cs !! pindexMostWork;
    connect_batches (S (Z.to_nat (bi_nHeight n))) cs pindexOldTip pindexMostWork pblock nHeight.

(** The loop of [ActivateBestChain]; the flag is its result. *)
Fixpoint ActivateBestChain_loop (fuel : nat) (cs : chainstate X) (pindexMostWork : option uint256)
  (pblock : option CBlock) : option (chainstate X * bool) :=
  match fuel with
  | O => None
  | S fuel =>
      '(cs, pindexMostWork) ← match pindexMostWork with
                              | None => FindMostWorkChain cs
                              | Some p => Some (cs, Some p)
                              end;
      match pindexMostWork with
      | None => Some (cs, true)
      | Some p =>
          if bool_decide (Some p = CChain_Tip (cs_active cs)) then Some (cs, true)
          else
            let block := b ← pblock; if bool_decide (CBlockHeader_GetHash (block_header b) = p) then Some b else None in
            '(cs, r) ← ActivateBestChainStep cs p block;
            match r with
            | BatchError => Some (cs, false)
            | BatchInvalid =>
                match CChain_Tip (cs_active cs) with
                | None => Some (cs, true)
                | Some _ => ActivateBestChain_loop fuel cs None pblock
                end
            | _ =>
                if bool_decide (CChain_Tip (cs_active cs) = Some p) then Some (cs, true)
                else ActivateBestChain_loop fuel cs (Some p) pblock
            end
      end
  end.

(** A round either marks an entry failed or moves the tip to more work, so the
    square of the number of entries bounds the rounds. *)
Definition rounds (m : BlockMap) : nat := (S (size m) * S (size m) + 1)%nat.

Definition ActivateBestChain (cs : chainstate X) (pblock : option CBlock) : option (chainstate X * bool) :=
  ActivateBestChain_loop (rounds (cs_index cs)) cs None pblock.

End order.

(** * What the index keeps *)

(** Everything of an entry but its status, the place of its undo data and the order
    of its arrival. *)
Definition skeleton (n : CBlockIndex) : CBlockIndex :=
  mkBlockIndex (bi_pprev n) (bi_pskip n) (bi_nHeight n) (bi_nFile n) (bi_nDataPos n) 0 (bi_nChainWork n)
    (bi_nTx n) (bi_nChainTx n) 0 (bi_nVersion n) (bi_hashMerkleRoot n) (bi_nTime n) (bi_nBits n)
    (bi_nNonce n) 0 (bi_nTimeMax n).

Definition failed (n : CBlockIndex) : bool := negb (Z.land (bi_nStatus n) BLOCK_FAILED_MASK =? 0).
Definition has_data (n : CBlockIndex) : bool := negb (Z.land (bi_nStatus n) BLOCK_HAVE_DATA =? 0).
Definition has_undo (n : CBlockIndex) : bool := negb (Z.land (bi_nStatus n) BLOCK_HAVE_UNDO =? 0).
Definition level (n : CBlockIndex) : Z := Z.land (bi_nStatus n) BLOCK_VALID_MASK.
Definition invalid (n : CBlockIndex) : bool := negb (Z.land (bi_nStatus n) BLOCK_FAILED_VALID =? 0).

(** The entry still describes the same block, with its data and its undo data, at least
    as far validated, and still marked if it was. *)
Record same_block (n n' : CBlockIndex) : Prop := {
  sb_skeleton : skeleton n' = skeleton n;
  sb_data : has_data n' = has_data n;
  sb_undo : has_undo n = true -> has_undo n' = true /\ bi_nUndoPos n' = bi_nUndoPos n;
  sb_level : level n <= level n';
  sb_invalid : invalid n = true -> invalid n' = true;
  sb_failed : failed n = true -> failed n' = true
}.

(** What chain selection and the connection of blocks leave of an entry. *)
Record same_entry (n n' : CBlockIndex) : Prop := {
  se_block : same_block n n';
  se_sequence : bi_nSequenceId n' = bi_nSequenceId n
}.

Lemma se_data n n' : same_entry n n' -> has_data n' = has_data n.
Proof. intros [H _]. apply H. Qed.

Definition same_tree (m m' : BlockMap) : Prop :=
  forall p, match m !! p, m' !! p with
            | Some n, Some n' => same_entry n n'
            | None, None => True
            | _, _ => False
            end.

Lemma same_block_refl n : same_block n n.
Proof. by split. Qed.

Lemma same_block_trans a b c : same_block a b -> same_block b c -> same_block a c.
Proof.
  intros [A1 A2 A3 A4 A5 A6] [B1 B2 B3 B4 B5 B6]. split; [congruence|congruence| |lia|auto|auto]. intros Ha. destruct (A3 Ha) as [Hb E].
  destruct (B3 Hb) as [Hc E']. split; congruence.
Qed.

Lemma same_entry_refl n : same_entry n n.
Proof. split; [apply same_block_refl|done]. Qed.

Lemma same_entry_trans a b c : same_entry a b -> same_entry b c -> same_entry a c.
Proof. intros [A1 A2] [B1 B2]. split; [by eapply same_block_trans|congruence]. Qed.

Lemma same_tree_refl m : same_tree m m.
Proof. intros p. destruct (m !! p); [apply same_entry_refl|done]. Qed.

Lemma same_tree_trans a b c : same_tree a b -> same_tree b c -> same_tree a c.
Proof.
  intros H1 H2 p. specialize (H1 p). specialize (H2 p).
  destruct (a !! p), (b !! p), (c !! p); try done. by eapply same_entry_trans.
Qed.

Lemma same_tree_lookup m m' p n : same_tree m m' -> m !! p = Some n -> exists n', m' !! p = Some n' /\ same_entry n n'.
Proof. intros H Hp. specialize (H p). rewrite Hp in H. destruct (m' !! p) as [n'|]; [by exists n'|done]. Qed.

Lemma same_tree_lookup_r m m' p n' : same_tree m m' -> m' !! p = Some n' -> exists n, m !! p = Some n /\ same_entry n n'.
Proof. intros H Hp. specialize (H p). rewrite Hp in H. destruct (m !! p) as [n|]; [by exists n|done]. Qed.

Lemma same_block_fields n n' : same_block n n' ->
  bi_pprev n' = bi_pprev n /\ bi_pskip n' = bi_pskip n /\ bi_nHeight n' = bi_nHeight n /\
  bi_nChainWork n' = bi_nChainWork n /\ bi_nChainTx n' = bi_nChainTx n.
Proof. intros [H _ _ _ _ _]. split_and!; [apply (f_equal bi_pprev) in H|apply (f_equal bi_pskip) in H|
  apply (f_equal bi_nHeight) in H|apply (f_equal bi_nChainWork) in H|apply (f_equal bi_nChainTx) in H]; exact H. Qed.

Lemma same_entry_fields n n' : same_entry n n' ->
  bi_pprev n' = bi_pprev n /\ bi_pskip n' = bi_pskip n /\ bi_nHeight n' = bi_nHeight n /\
  bi_nChainWork n' = bi_nChainWork n /\ bi_nChainTx n' = bi_nChainTx n /\ bi_nSequenceId n' = bi_nSequenceId n.
Proof. intros [H E]. apply same_block_fields in H. tauto. Qed.

(** The place of an entry in the tree. *)
Record same_place (n n' : CBlockIndex) : Prop := {
  sp_pprev : bi_pprev n' = bi_pprev n;
  sp_pskip : bi_pskip n' = bi_pskip n;
  sp_height : bi_nHeight n' = bi_nHeight n;
  sp_work : bi_nChainWork n' = bi_nChainWork n
}.

Definition same_places (m m' : BlockMap) : Prop :=
  forall p, match m !! p, m' !! p with
            | Some n, Some n' => same_place n n'
            | None, None => True
            | _, _ => False
            end.

Lemma same_entry_place n n' : same_entry n n' -> same_place n n'.
Proof. intros H. apply same_entry_fields in H as (H1 & H2 & H3 & H4 & _). by split. Qed.

Lemma same_tree_places m m' : same_tree m m' -> same_places m m'.
Proof. intros H p. specialize (H p). destruct (m !! p), (m' !! p); try done. by apply same_entry_place. Qed.

Lemma same_places_lookup m m' p n : same_places m m' -> m !! p = Some n -> exists n', m' !! p = Some n' /\ same_place n n'.
Proof. intros H Hp. specialize (H p). rewrite Hp in H. destruct (m' !! p) as [n'|]; [by exists n'|done]. Qed.

Lemma same_places_lookup_r m m' p n' : same_places m m' -> m' !! p = Some n' -> exists n, m !! p = Some n /\ same_place n n'.
Proof. intros H Hp. specialize (H p). rewrite Hp in H. destruct (m !! p) as [n|]; [by exists n|done]. Qed.

Lemma same_places_ancestor m m' k p : same_places m m' -> ancestor m' k p = ancestor m k p.
Proof.
  intros H. revert p. induction k as [|k IH]; intros p; [done|]. cbn [ancestor]. specialize (H p).
  destruct (m !! p) as [n|], (m' !! p) as [n'|]; try done. cbn [mbind option_bind].
  rewrite (sp_pprev _ _ H). destruct (bi_pprev n); [apply IH|done].
Qed.

Lemma same_places_index m m' : same_places m m' -> index_ok m -> index_ok m'.
Proof.
  intros H Hok p n' Hp. destruct (same_places_lookup_r m m' p n' H Hp) as (n & Hn & [E1 E2 E3 _]).
  destruct (Hok p n Hn) as [H0 H1]. unfold node_ok. rewrite E1, E2, E3. split; [done|]. destruct (bi_pprev n) as [q|]; [|done].
  destruct H1 as [(nq & Hq & Eh) Hs]. split.
  - destruct (same_places_lookup m m' q nq H Hq) as (nq' & Hq' & E'). exists nq'. by rewrite (sp_height _ _ E').
  - intros s Es. rewrite (same_places_ancestor m m' _ p H). by apply Hs.
Qed.

Lemma same_places_branch m m' p n n' : same_places m m' -> same_place n n' -> branch m' p n' = branch m p n.
Proof.
  intros H E. unfold branch. rewrite (sp_height _ _ E).
  apply map_ext. intros i. unfold at_height. rewrite (sp_height _ _ E). apply same_places_ancestor, H.
Qed.

Lemma same_places_chain m m' c : same_places m m' -> chain_ok m c -> chain_ok m' c.
Proof.
  intros H [->|(t & nt & Ht & ->)]; [by left|right]. destruct (same_places_lookup m m' t nt H Ht) as (nt' & Ht' & E).
  exists t, nt'. split; [done|]. symmetry. by apply same_places_branch.
Qed.

Lemma same_tree_ancestor m m' k p : same_tree m m' -> ancestor m' k p = ancestor m k p.
Proof. intros H. by apply same_places_ancestor, same_tree_places. Qed.

Lemma same_tree_index m m' : same_tree m m' -> index_ok m -> index_ok m'.
Proof. intros H. by apply same_places_index, same_tree_places. Qed.

Lemma same_tree_chain m m' c : same_tree m m' -> chain_ok m c -> chain_ok m' c.
Proof. intros H. by apply same_places_chain, same_tree_places. Qed.

Lemma same_tree_insert m p n n' : m !! p = Some n -> same_entry n n' -> same_tree m (<[p := n']> m).
Proof.
  intros Hp E q. destruct (decide (q = p)) as [->|Hne].
  - by rewrite lookup_insert_eq, Hp.
  - rewrite lookup_insert_ne by done. apply same_tree_refl.
Qed.

(** ** Ancestors *)

Definition anc (m : BlockMap) (p q : uint256) : Prop := exists k, ancestor m k p = Some q.

Lemma anc_refl m p : anc m p p.
Proof. by exists O. Qed.

Lemma anc_trans m p q r : anc m p q -> anc m q r -> anc m p r.
Proof. intros [a Ha] [b Hb]. exists (a + b)%nat. by rewrite ancestor_add, Ha. Qed.

Lemma anc_step m p n q r : m !! p = Some n -> bi_pprev n = Some q -> anc m q r -> anc m p r.
Proof. intros Hp Hq [k Hk]. exists (S k). cbn [ancestor]. rewrite Hp. cbn [mbind option_bind]. by rewrite Hq. Qed.

Lemma anc_parent m p n q : m !! p = Some n -> bi_pprev n = Some q -> anc m p q.
Proof. intros Hp Hq. apply (anc_step m p n q q Hp Hq), anc_refl. Qed.

Lemma anc_inv m p n r : m !! p = Some n -> anc m p r -> r = p \/ exists q, bi_pprev n = Some q /\ anc m q r.
Proof.
  intros Hp [[|k] Hk]; [left; by injection Hk|right]. cbn [ancestor] in Hk. rewrite Hp in Hk. cbn [mbind option_bind] in Hk.
  destruct (bi_pprev n) as [q|]; [|done]. exists q. split; [done|]. by exists k.
Qed.

Lemma anc_places m m' p q : same_places m m' -> anc m' p q <-> anc m p q.
Proof. intros H. split; intros [k Hk]; exists k; by rewrite (same_places_ancestor m m') in *. Qed.

Lemma anc_same m m' p q : same_tree m m' -> anc m' p q <-> anc m p q.
Proof. intros H. by apply anc_places, same_tree_places. Qed.

Lemma anc_in m p n q : index_ok m -> m !! p = Some n -> anc m p q -> exists nq, m !! q = Some nq /\ bi_nHeight nq <= bi_nHeight n.
Proof.
  intros Hok Hp [k Hk]. destruct (ancestor_inv m Hok k p n q Hp Hk) as (nq & Hq & E). exists nq. split; [done|lia].
Qed.

(** Two ancestors of a block: the higher has the lower as an ancestor. *)
Lemma anc_linear m p n a na b nb :
  index_ok m -> m !! p = Some n -> m !! a = Some na -> m !! b = Some nb -> anc m p a -> anc m p b ->
  bi_nHeight nb <= bi_nHeight na -> anc m a b.
Proof.
  intros Hok Hp Ha Hb [i Hi] [j Hj] Hle.
  destruct (ancestor_inv m Hok i p n a Hp Hi) as (na' & Ha' & E1).
  destruct (ancestor_inv m Hok j p n b Hp Hj) as (nb' & Hb' & E2). simplify_eq.
  exists (j - i)%nat. replace j with (i + (j - i))%nat in Hj by lia. rewrite ancestor_add, Hi in Hj. done.
Qed.

Lemma anc_height m p n q nq :
  index_ok m -> m !! p = Some n -> m !! q = Some nq -> anc m p q -> bi_nHeight nq = bi_nHeight n -> q = p.
Proof.
  intros Hok Hp Hq [k Hk] E. destruct (ancestor_inv m Hok k p n q Hp Hk) as (nq' & Hq' & E'). simplify_eq.
  assert (k = O) as -> by lia. by injection Hk.
Qed.

(** ** The active chain as the ancestors of its tip *)

Lemma Tip_branch m p n : m !! p = Some n -> CChain_Tip (branch m p n) = Some p.
Proof.
  intros Hp. unfold CChain_Tip. rewrite last_lookup, length_branch. cbn [Nat.pred].
  rewrite branch_lookup by lia. cbn [mjoin option_join]. by apply at_height_self.
Qed.

Lemma chain_ok_tip m c : chain_ok m c ->
  match CChain_Tip c with
  | None => c = []
  | Some t => exists nt, m !! t = Some nt /\ c = branch m t nt
  end.
Proof. intros [->|(t & nt & Ht & ->)]; [done|]. rewrite (Tip_branch m t nt Ht). by exists nt. Qed.

Lemma Contains_branch m t nt p n :
  index_ok m -> m !! t = Some nt -> m !! p = Some n ->
  exists b, CChain_Contains m (branch m t nt) p = Some b /\ (b = true <-> anc m t p).
Proof.
  intros Hok Ht Hp. unfold CChain_Contains. rewrite Hp. cbn [mbind option_bind]. eexists. split; [done|].
  pose proof (height_nonneg m Hok p n Hp). pose proof (height_nonneg m Hok t nt Ht).
  rewrite bool_decide_eq_true. unfold CChain_at, Zlength. rewrite length_branch.
  rewrite (proj2 (Z.ltb_ge _ 0)) by lia. cbn [orb].
  destruct (Z.geb_spec (bi_nHeight n) (Z.of_nat (S (Z.to_nat (bi_nHeight nt))))) as [Hh|Hh].
  - split; [done|]. intros Ha. destruct (anc_in m t nt p Hok Ht Ha) as (n' & Hn' & Hle). simplify_eq. lia.
  - rewrite branch_lookup by lia. cbn [mjoin option_join]. unfold at_height. split; [intros E; by eexists|].
    intros [k Hk]. destruct (ancestor_inv m Hok k t nt p Ht Hk) as (n' & Hn' & E). simplify_eq.
    rewrite <- Hk. f_equal. lia.
Qed.

Definition in_chain (m : BlockMap) (c : CChain) (p : uint256) : Prop := exists t, CChain_Tip c = Some t /\ anc m t p.

Lemma Contains_spec m c p n :
  index_ok m -> chain_ok m c -> m !! p = Some n ->
  exists b, CChain_Contains m c p = Some b /\ (b = true <-> in_chain m c p).
Proof.
  intros Hok Hc Hp. pose proof (chain_ok_tip m c Hc) as Ht. unfold in_chain.
  destruct (CChain_Tip c) as [t|].
  - destruct Ht as (nt & Ht & ->). destruct (Contains_branch m t nt p n Hok Ht Hp) as (b & Hb & E).
    exists b. split; [done|]. rewrite E. split; [by exists t|]. by intros (? & [= <-] & ?).
  - subst c. exists false. split; [|split; [done|by intros (? & ? & ?)]].
    unfold CChain_Contains. rewrite Hp. cbn [mbind option_bind]. f_equal. apply bool_decide_eq_false.
    unfold CChain_at. by destruct (_ || _).
Qed.

Lemma in_chain_anc m c p q : in_chain m c p -> anc m p q -> in_chain m c q.
Proof. intros (t & Ht & H) Hq. exists t. split; [done|]. by eapply anc_trans. Qed.

Lemma in_chain_same m m' c p : same_tree m m' -> in_chain m' c p <-> in_chain m c p.
Proof. intros H. unfold in_chain. by setoid_rewrite (anc_same m m' _ p H). Qed.

(** * The order of the candidates *)

Section order_facts.
Context (addr : uint256 -> Z) (Haddr : forall p q, addr p = addr q -> p = q).

(** The comparator as a lexicographic order. *)
Definition below (pa : uint256) (na : CBlockIndex) (pb : uint256) (nb : CBlockIndex) : Prop :=
  uval (bi_nChainWork na) < uval (bi_nChainWork nb) \/
  uval (bi_nChainWork na) = uval (bi_nChainWork nb) /\
  (bi_nSequenceId nb < bi_nSequenceId na \/ bi_nSequenceId na = bi_nSequenceId nb /\ addr pb < addr pa).

Lemma comparator_spec pa na pb nb :
  wf256 (bi_nChainWork na) -> wf256 (bi_nChainWork nb) ->
  CBlockIndexWorkComparator addr pa na pb nb = true <-> below pa na pb nb.
Proof.
  intros Ha Hb. unfold CBlockIndexWorkComparator, below, wf256 in *.
  rewrite CompareTo_spec by (apply Ha || apply Hb || (destruct Ha, Hb; congruence)). unfold compare_sign.
  destruct (Z.compare_spec (uval (bi_nChainWork na)) (uval (bi_nChainWork nb))); cbn [Z.gtb Z.ltb Z.compare];
    repeat case_match; zbool; split; intros; (done || lia).
Qed.

Definition less (m : BlockMap) (p q : uint256) : Prop :=
  exists np nq, m !! p = Some np /\ m !! q = Some nq /\ below p np q nq.

Definition works (m : BlockMap) : Prop := forall p n, m !! p = Some n -> wf256 (bi_nChainWork n).

Lemma worse_spec m p np q nq :
  works m -> m !! p = Some np -> m !! q = Some nq ->
  exists b, worse addr m p q = Some b /\ (b = true <-> less m p q).
Proof.
  intros Hw Hp Hq. unfold worse. rewrite Hp, Hq. cbn [mbind option_bind]. eexists. split; [done|].
  rewrite comparator_spec by (eapply Hw; done). unfold less. rewrite Hp, Hq. split; [eauto|].
  by intros (? & ? & [= <-] & [= <-] & ?).
Qed.

Lemma less_irrefl m p : ~ less m p p.
Proof. intros (np & nq & H1 & H2 & H3). simplify_eq. unfold below in H3. lia. Qed.

Lemma less_trans m p q r : less m p q -> less m q r -> less m p r.
Proof.
  intros (np & nq & H1 & H2 & H3) (nq' & nr & H4 & H5 & H6). simplify_eq. exists np, nr. split_and!; [done..|].
  unfold below in *. lia.
Qed.

Lemma less_total m p np q nq : m !! p = Some np -> m !! q = Some nq -> p = q \/ less m p q \/ less m q p.
Proof.
  intros Hp Hq. destruct (decide (p = q)) as [->|Hne]; [by left|]. assert (addr p <> addr q) by (intros E; by apply Hne, Haddr).
  assert (below p np q nq \/ below q nq p np) as [|] by (unfold below; lia); right; [left|right]; unfold less; eauto 10.
Qed.

Lemma less_same m m' p q : same_tree m m' -> less m' p q <-> less m p q.
Proof.
  intros H. unfold less. split.
  - intros (np & nq & H1 & H2 & H3). destruct (same_tree_lookup_r _ _ _ _ H H1) as (xp & E1 & S1).
    destruct (same_tree_lookup_r _ _ _ _ H H2) as (xq & E2 & S2). exists xp, xq. split_and!; [done..|].
    apply same_entry_fields in S1 as (_ & _ & _ & W1 & _ & Q1). apply same_entry_fields in S2 as (_ & _ & _ & W2 & _ & Q2).
    unfold below in *. by rewrite W1, W2, Q1, Q2 in H3.
  - intros (np & nq & H1 & H2 & H3). destruct (same_tree_lookup _ _ _ _ H H1) as (xp & E1 & S1).
    destruct (same_tree_lookup _ _ _ _ H H2) as (xq & E2 & S2). exists xp, xq. split_and!; [done..|].
    apply same_entry_fields in S1 as (_ & _ & _ & W1 & _ & Q1). apply same_entry_fields in S2 as (_ & _ & _ & W2 & _ & Q2).
    unfold below in *. by rewrite W1, W2, Q1, Q2.
Qed.

Lemma same_tree_works m m' : same_tree m m' -> works m -> works m'.
Proof.
  intros H Hw p n' Hp. destruct (same_tree_lookup_r m m' p n' H Hp) as (n & Hn & E).
  apply same_entry_fields in E as (_ & _ & _ & -> & _). by apply (Hw p).
Qed.

(** [at_most]: equal to, or worse than. *)
Definition at_most (m : BlockMap) (p q : uint256) : Prop := p = q \/ less m p q.

Lemma at_most_trans m p q r : at_most m p q -> at_most m q r -> at_most m p r.
Proof. intros [->|H1] [->|H2]; unfold at_most; eauto using less_trans. Qed.

Lemma less_at_most m p q r : less m p q -> at_most m q r -> less m p r.
Proof. intros H [<-|H']; [done|]. by eapply less_trans. Qed.

Lemma at_most_not_less m p q : at_most m p q -> ~ less m q p.
Proof. intros [->|H] H'; [by apply (less_irrefl m q)|]. by apply (less_irrefl m p), (less_trans m p q p). Qed.

Lemma at_most_same m m' p q : same_tree m m' -> at_most m' p q <-> at_most m p q.
Proof. intros H. unfold at_most. by rewrite (less_same m m' p q H). Qed.

Lemma best_of_spec m b l :
  works m -> is_Some (m !! b) -> Forall (fun p => is_Some (m !! p)) l ->
  exists r, best_of addr m b l = Some r /\ (r = b \/ r ∈ l) /\ at_most m b r /\ forall p, p ∈ l -> at_most m p r.
Proof.
  intros Hw. revert b. induction l as [|p l IH]; intros b [nb Hb] Hl.
  { exists b. split_and!; [done|by left..|]. intros p Hp. by apply elem_of_nil in Hp. }
  apply Forall_cons in Hl as [[np Hp] Hl]. cbn [best_of].
  destruct (worse_spec m b nb p np Hw Hb Hp) as (w & -> & Ew). cbn [mbind option_bind].
  assert (at_most m b (if w then p else b) /\ at_most m p (if w then p else b)) as [Hbm Hpm].
  { destruct w; [split; [right; by apply Ew|by left]|split; [by left|]].
    destruct (less_total m b nb p np Hb Hp) as [->|[Hl'|Hl']]; [by left| |by right]. by apply Ew in Hl'. }
  destruct (IH (if w then p else b)) as (r & -> & H1 & H2 & H3); [destruct w; by eexists|done|].
  exists r. split_and!; [done| | |].
  - destruct w; set_solver.
  - by eapply at_most_trans.
  - intros q [->|Hq]%elem_of_cons; [by eapply at_most_trans|by apply H3].
Qed.

(** The reverse iterator of the set points to its maximum. *)
Lemma rbegin_spec m s :
  works m -> (forall p, p ∈ s -> is_Some (m !! p)) ->
  (s = ∅ /\ rbegin addr m s = Some None) \/
  exists b, rbegin addr m s = Some (Some b) /\ b ∈ s /\ forall p, p ∈ s -> at_most m p b.
Proof.
  intros Hw Hs. unfold rbegin. destruct (elements s) as [|b l] eqn:E.
  - left. split; [|done]. by apply elements_empty_inv, leibniz_equiv in E.
  - right. assert (forall p, p ∈ s <-> p = b \/ p ∈ l) as Hel.
    { intros p. rewrite <- elem_of_elements, E. apply elem_of_cons. }
    destruct (best_of_spec m b l Hw) as (r & -> & H1 & H2 & H3).
    { apply Hs, Hel. by left. }
    { apply Forall_forall. intros p Hp. apply Hs, Hel. by right. }
    exists r. split_and!; [done|by apply Hel|]. intros p [->|Hp]%Hel; [done|by apply H3].
Qed.

(** * Finding the chain with the most work *)

(** A block whose transactions are all there has parents whose transactions are. *)
Definition linked (m : BlockMap) : Prop :=
  forall p n q nq, m !! p = Some n -> bi_nChainTx n <> 0 -> bi_pprev n = Some q -> m !! q = Some nq -> bi_nChainTx nq <> 0.

(** Every block between [p] and the active chain is unmarked and has its data. *)
Definition usable (m : BlockMap) (c : CChain) (p : uint256) : Prop :=
  forall q nq, anc m p q -> m !! q = Some nq -> ~ in_chain m c q -> failed nq = false /\ has_data nq = true.

Lemma usable_in_chain m c p : in_chain m c p -> usable m c p.
Proof. intros Hp q nq Hq _ Hn. by destruct (Hn (in_chain_anc m c p q Hp Hq)). Qed.

Lemma test_candidate_spec m c fuel p n :
  index_ok m -> chain_ok m c -> linked m -> m !! p = Some n -> bi_nChainTx n <> 0 -> bi_nHeight n + 1 < Z.of_nat fuel ->
  exists r, test_candidate fuel m c (Some p) = Some r /\
    match r with
    | None => usable m c p
    | Some (q, f) => exists k nq, ancestor m k p = Some q /\ (Z.of_nat k <= bi_nHeight n) /\ m !! q = Some nq /\ ~ in_chain m c q /\
        failed nq = f /\ (f = false -> has_data nq = false) /\ bi_nChainTx nq <> 0
    end.
Proof.
  intros Hok Hc Hl. revert p n. induction fuel as [|fuel IH]; intros p n Hp Htx Hf.
  { pose proof (height_nonneg m Hok p n Hp). lia. }
  pose proof (height_nonneg m Hok p n Hp).
  cbn [test_candidate]. destruct (Contains_spec m c p n Hok Hc Hp) as (b & -> & Eb). cbn [mbind option_bind].
  destruct b. { exists None. split; [done|]. by apply usable_in_chain, Eb. }
  rewrite Hp. cbn [mbind option_bind]. rewrite (proj2 (Z.eqb_neq _ 0) Htx). cbn [andb].
  assert (~ in_chain m c p) as Hout by (intros Hin; by apply Eb in Hin).
  destruct (negb (Z.land (bi_nStatus n) BLOCK_FAILED_MASK =? 0)) eqn:Ef; cbn [orb].
  { exists (Some (p, true)). split; [done|]. exists O, n. split_and!; [done|lia|done..]. }
  destruct (Z.land (bi_nStatus n) BLOCK_HAVE_DATA =? 0) eqn:Ed.
  { exists (Some (p, false)). split; [done|]. exists O, n. split_and!; try (done || lia). intros _. unfold has_data. by rewrite Ed. }
  assert (failed n = false /\ has_data n = true) as Hn by (unfold failed, has_data; by rewrite Ef, Ed).
  destruct (bi_pprev n) as [q|] eqn:Eq.
  - destruct (parent_ok m Hok p n q Hp Eq) as (nq & Hq & Eh).
    destruct (IH q nq Hq (Hl p n q nq Hp Htx Eq Hq) ltac:(lia)) as (r & -> & Hr). exists r. split; [done|].
    destruct r as [[x f]|].
    + destruct Hr as (k & nx & H1 & H2 & H3). exists (S k), nx. split; [|split; [lia|done]]. cbn [ancestor]. rewrite Hp. cbn [mbind option_bind]. by rewrite Eq.
    + intros x nx Hx Hnx Hox. destruct (anc_inv m p n x Hp Hx) as [->|(q' & Eq' & Hq')]; simplify_eq; [done|]. by apply (Hr x nx).
  - exists None. split; [by destruct fuel|]. intros x nx Hx Hnx _.
    destruct (anc_inv m p n x Hp Hx) as [->|(q' & Eq' & Hq')]; simplify_eq. done.
Qed.

(** ** Marking a branch *)

Lemma land_lor_ne0 x b k : 0 <= k -> Z.land x k <> 0 -> Z.land (Z.lor x b) k <> 0.
Proof.
  intros Hk Hx E. apply Hx. apply Z.bits_inj'. intros i Hi. apply (f_equal (fun z => Z.testbit z i)) in E.
  rewrite Z.land_spec, Z.lor_spec, Z.bits_0 in *. destruct (Z.testbit x i), (Z.testbit k i); try done.
Qed.

Lemma land_lor_other x b k : Z.land b k = 0 -> Z.land (Z.lor x b) k = Z.land x k.
Proof. intros E. by rewrite Z.land_lor_distr_l, E, Z.lor_0_r. Qed.

(** Setting a failure bit changes nothing else of the entry, and marks it. *)
Lemma mark_entry b n :
  b = BLOCK_FAILED_CHILD \/ b = BLOCK_FAILED_VALID ->
  same_entry n (set_status (Z.lor (bi_nStatus n) b) n) /\ failed (set_status (Z.lor (bi_nStatus n) b) n) = true.
Proof.
  intros Hb. split.
  - split; [|done]. split; [done|unfold has_data|unfold has_undo; cbn [bi_nStatus bi_nUndoPos set_status]|unfold level|unfold invalid|unfold failed].
    4, 5: rewrite !negb_true_iff, !Z.eqb_neq; by apply land_lor_ne0.
    all: destruct Hb as [-> | ->]; cbn [bi_nStatus set_status]; rewrite land_lor_other; done.
  - unfold failed. cbn [bi_nStatus set_status]. apply negb_true_iff, Z.eqb_neq.
    rewrite Z.lor_comm. by destruct Hb as [-> | ->]; apply land_lor_ne0.
Qed.

Definition failed_in (m : BlockMap) (q : uint256) : Prop := exists n, m !! q = Some n /\ failed n = true.

(** A block that is marked failed, or one of whose ancestors is. *)
Definition bad (m : BlockMap) (p : uint256) : Prop := exists q, anc m p q /\ failed_in m q.

(** What the marking of failures may do: entries keep all else, marks are not
    removed, and every new mark [P] explains. *)
Record marks (P : uint256 -> Prop) (m m' : BlockMap) : Prop := {
  mk_tree : same_tree m m';
  mk_kept : forall q, failed_in m q -> failed_in m' q;
  mk_new : forall q, failed_in m' q -> failed_in m q \/ P q
}.

Lemma marks_refl P m : marks P m m.
Proof. split; [apply same_tree_refl|done|by left]. Qed.

Lemma marks_trans P a b c : marks P a b -> marks P b c -> marks P a c.
Proof.
  intros [A1 A2 A3] [B1 B2 B3]. split; [by eapply same_tree_trans|by eauto|].
  intros q [Hq|Hq]%B3; [by apply A3|by right].
Qed.

Lemma marks_impl (P Q : uint256 -> Prop) a b : (forall q, P q -> Q q) -> marks P a b -> marks Q a b.
Proof. intros H [A1 A2 A3]. split; [done..|]. intros q [Hq|Hq]%A3; [by left|right; by apply H]. Qed.

Lemma bad_kept P m m' p : marks P m m' -> bad m p -> bad m' p.
Proof. intros [H1 H2 _] (q & Hq & Hf). exists q. split; [by apply (anc_same m m')|by apply H2]. Qed.

Lemma mark_marks (P : uint256 -> Prop) b m p n :
  b = BLOCK_FAILED_CHILD \/ b = BLOCK_FAILED_VALID -> m !! p = Some n -> P p ->
  marks P m (<[p := set_status (Z.lor (bi_nStatus n) b) n]> m).
Proof.
  intros Hb Hp HP. destruct (mark_entry b n Hb) as [H1 H2]. split.
  - by apply (same_tree_insert m p n).
  - intros q (nq & Hq & Hf). destruct (decide (q = p)) as [->|Hne].
    + eexists. by rewrite lookup_insert_eq.
    + exists nq. by rewrite lookup_insert_ne.
  - intros q (nq & Hq & Hf). destruct (decide (q = p)) as [->|Hne]; [by right|].
    rewrite lookup_insert_ne in Hq by done. left. by exists nq.
Qed.

Context {X : Type}.

(** The parts of the state that looking for the best chain leaves alone. *)
Record same_rest (cs cs' : chainstate X) : Prop := {
  sr_active : cs_active cs' = cs_active cs;
  sr_failed : cs_failed cs' = cs_failed cs;
  sr_dirty : cs_dirty cs' = cs_dirty cs;
  sr_effects : cs_effects cs' = cs_effects cs
}.

Lemma same_rest_trans a b c : same_rest a b -> same_rest b c -> same_rest a c.
Proof. intros [] []. split; congruence. Qed.

Definition best_ok (cs : chainstate X) : Prop := forall q, cs_best_invalid cs = Some q -> is_Some (cs_index cs !! q).

Lemma update_best_invalid_spec (cs : chainstate X) p n :
  best_ok cs -> cs_index cs !! p = Some n ->
  exists b, update_best_invalid cs p = Some (with_best_invalid cs b) /\ best_ok (with_best_invalid cs b).
Proof.
  intros Hb Hp. assert (best_ok (with_best_invalid cs (Some p))) as Hs by (intros q [= <-]; by eexists).
  unfold update_best_invalid, more_work. destruct (cs_best_invalid cs) as [q|] eqn:E; [|by eexists].
  destruct (Hb q E) as [nq Hq]. rewrite Hp, Hq. cbn [mbind option_bind].
  destruct (_ >? 0); [by eexists|]. exists (Some q). split; [|by intros ? [= <-]; eexists]. f_equal. rewrite <- E. by destruct cs.
Qed.

Lemma or_status_index b (cs : chainstate X) p n :
  cs_index cs !! p = Some n ->
  or_status cs b p = Some (with_index cs (<[p := set_status (Z.lor (bi_nStatus n) b) n]> (cs_index cs))).
Proof. intros Hp. unfold or_status. by rewrite Hp. Qed.

Lemma ancestor_S m k p n q : m !! p = Some n -> bi_pprev n = Some q -> ancestor m (S k) p = ancestor m k q.
Proof. intros Hp Hq. cbn [ancestor]. rewrite Hp. cbn [mbind option_bind]. by rewrite Hq. Qed.

(** The first [k + 1] blocks of a branch. *)
Definition among (m : BlockMap) (k : nat) (p x : uint256) : Prop := exists j, (j <= k)%nat /\ ancestor m j p = Some x.

Lemma among_S m k p n q x : m !! p = Some n -> bi_pprev n = Some q -> among m (S k) p x <-> x = p \/ among m k q x.
Proof.
  intros Hp Hq. split.
  - intros ([|j] & Hj & E); [left; by injection E|right]. exists j. split; [lia|]. by rewrite (ancestor_S m j p n q) in E.
  - intros [->|(j & Hj & E)]; [exists O; split; [lia|done]|]. exists (S j). split; [lia|]. by rewrite (ancestor_S m j p n q).
Qed.

Lemma among_same m m' k p x : same_tree m m' -> among m' k p x <-> among m k p x.
Proof. intros H. unfold among. by setoid_rewrite (fun j => same_tree_ancestor m m' j p H). Qed.

(** One round of the loop: the entry is marked, or its block is to be fetched again. *)
Lemma remove_one_spec (P : uint256 -> Prop) f (cs : chainstate X) p n :
  cs_index cs !! p = Some n -> (f = true -> P p) -> best_ok cs ->
  exists cs1, (if f : bool then or_status cs BLOCK_FAILED_CHILD p
               else Some (with_unlinked cs (cs_unlinked cs ++ [(bi_pprev n, p)]))) = Some cs1 /\
    marks P (cs_index cs) (cs_index cs1) /\ same_rest cs (erase_candidate cs1 p) /\ best_ok (erase_candidate cs1 p) /\
    (f = true -> cs_unlinked cs1 = cs_unlinked cs) /\
    forall x, x ∈ cs_candidates (erase_candidate cs1 p) <-> x ∈ cs_candidates cs /\ x <> p.
Proof.
  intros Hp HP Hb. destruct f.
  - rewrite (or_status_index _ cs p n Hp). eexists. split; [done|].
    assert (marks P (cs_index cs) (<[p := set_status (Z.lor (bi_nStatus n) BLOCK_FAILED_CHILD) n]> (cs_index cs))) as M
      by (apply mark_marks; [by left|done|by apply HP]).
    split_and!; [done|done| |done|intros x; cbn; set_solver]. intros y Hy. destruct (Hb y Hy) as [ny Hny].
    destruct (same_tree_lookup _ _ y ny (mk_tree _ _ _ M) Hny) as (ny' & ? & _). by eexists.
  - eexists. split_and!; [done|apply marks_refl|done|exact Hb|done|intros x; cbn; set_solver].
Qed.

(** What [remove_branch] does to the entries from [p] down to its [k]-th ancestor. *)
Lemma remove_branch_spec (P : uint256 -> Prop) f fuel (cs : chainstate X) p n k q :
  index_ok (cs_index cs) -> cs_index cs !! p = Some n -> ancestor (cs_index cs) k p = Some q -> (k <= fuel)%nat ->
  (f = true -> forall x, among (cs_index cs) k p x -> P x) -> best_ok cs ->
  exists cs', remove_branch fuel cs q f p = Some cs' /\ marks P (cs_index cs) (cs_index cs') /\ same_rest cs cs' /\ best_ok cs' /\
    (f = true -> cs_unlinked cs' = cs_unlinked cs) /\
    forall x, x ∈ cs_candidates cs' <-> x ∈ cs_candidates cs /\ ~ among (cs_index cs) k p x.
Proof.
  revert fuel cs p n. induction k as [|k IH]; intros fuel cs p n Hok Hp Hk Hf HP Hb.
  { injection Hk as <-. exists (erase_candidate cs p). split.
    { destruct fuel; cbn [remove_branch]; by rewrite bool_decide_eq_true_2. }
    split_and!; [apply marks_refl|done|done|done|]. intros x. cbn [erase_candidate with_candidates cs_candidates].
    assert (among (cs_index cs) 0 p x <-> x = p) as ->; [|set_solver]. split.
    - intros (j & Hj & Ej). assert (j = O) as -> by lia. by injection Ej.
    - intros ->. by exists O. }
  destruct fuel as [|fuel]; [lia|]. cbn [remove_branch].
  destruct (ancestor_inv _ Hok (S k) p n q Hp Hk) as (nq & Hq & Eh).
  rewrite bool_decide_eq_false_2 by (intros ->; simplify_eq; lia). rewrite Hp. cbn [mbind option_bind].
  destruct (remove_one_spec P f cs p n Hp) as (cs1 & -> & M1 & R1 & B1 & U1 & C1); [|done|].
  { intros Et. apply (HP Et). exists O. split; [lia|done]. }
  cbn [mbind option_bind]. destruct (bi_pprev n) as [r|] eqn:Er.
  2: { cbn [ancestor] in Hk. rewrite Hp in Hk. cbn [mbind option_bind] in Hk. by rewrite Er in Hk. }
  cbn [mbind option_bind]. rewrite (ancestor_S _ k p n r Hp Er) in Hk. pose proof (mk_tree _ _ _ M1) as T1.
  destruct (parent_ok _ Hok p n r Hp Er) as (nr & Hr & _). destruct (same_tree_lookup _ _ r nr T1 Hr) as (nr' & Hr' & _).
  destruct (IH fuel (erase_candidate cs1 p) r nr') as (cs' & -> & M2 & R2 & B2 & U2 & C2); cbn [cs_index erase_candidate with_candidates];
    [by apply (same_tree_index (cs_index cs))|done|by rewrite (same_tree_ancestor (cs_index cs))|lia| |done|].
  { intros Et x Hx. apply (HP Et). apply (among_S _ k p n r x Hp Er). right. by apply (among_same _ _ k r x T1). }
  exists cs'. split; [done|]. split; [by eapply marks_trans|]. split; [by eapply same_rest_trans|]. split; [done|].
  split; [intros Ef; by rewrite (U2 Ef), <- (U1 Ef)|]. intros x. rewrite C2, C1, (among_S _ k p n r x Hp Er), <- (among_same _ _ k r x T1).
  cbn [cs_index erase_candidate with_candidates]. tauto.
Qed.

Record search_ok (cs : chainstate X) : Prop := {
  so_index : index_ok (cs_index cs);
  so_works : works (cs_index cs);
  so_linked : linked (cs_index cs);
  so_chain : chain_ok (cs_index cs) (cs_active cs);
  so_candidates : forall p, p ∈ cs_candidates cs -> exists n, cs_index cs !! p = Some n /\ bi_nChainTx n <> 0;
  so_best : best_ok cs
}.

(** The blocks the search may mark: a block on the way to the active chain already is. *)
Definition condemned (m : BlockMap) (c : CChain) (x : uint256) : Prop := bad m x /\ ~ usable m c x.

Lemma usable_anc m c p q : usable m c p -> anc m p q -> usable m c q.
Proof. intros H Hq x nx Hx. apply H. by eapply anc_trans. Qed.

Lemma bad_anc m p q : anc m p q -> bad m q -> bad m p.
Proof. intros Hq (x & Hx & Hf). exists x. split; [by eapply anc_trans|done]. Qed.

Lemma marks_linked P m m' : marks P m m' -> linked m -> linked m'.
Proof.
  intros [T _ _] Hl p n q nq Hp Htx Eq Hq. destruct (same_tree_lookup_r _ _ p n T Hp) as (n0 & H0 & S0).
  destruct (same_tree_lookup_r _ _ q nq T Hq) as (q0 & Hq0 & Sq0).
  apply same_entry_fields in S0 as (E1 & _ & _ & _ & E2 & _). apply same_entry_fields in Sq0 as (_ & _ & _ & _ & E3 & _).
  rewrite E3. apply (Hl p n0 q q0); congruence.
Qed.

Lemma bad_back P m m' x : (forall q, P q -> bad m q) -> marks P m m' -> bad m' x -> bad m x.
Proof.
  intros HP [T _ HN] (q & Hq & Hf). apply (anc_same m m' x q T) in Hq.
  destruct (HN q Hf) as [Hf'|Hp]; [by exists q|]. apply (bad_anc m x q Hq), HP, Hp.
Qed.

(** Marking condemned blocks condemns no others. *)
Lemma usable_marks c m m' x : marks (condemned m c) m m' -> usable m' c x <-> usable m c x.
Proof.
  intros [T HK HN]. split; intros H q nq Hq Hn Hout.
  - destruct (same_tree_lookup _ _ q nq T Hn) as (n' & Hn' & E).
    destruct (H q n') as [H1 H2]; [by apply (anc_same m m')|done|by rewrite (in_chain_same m m')|].
    rewrite (se_data _ _ E) in H2. split; [|done]. apply not_true_iff_false. intros Hf.
    destruct (HK q) as (n'' & Hn'' & Hf''); [by exists nq|]. simplify_eq. congruence.
  - apply (anc_same m m' x q T) in Hq. rewrite (in_chain_same m m' c q T) in Hout.
    destruct (same_tree_lookup_r _ _ q nq T Hn) as (n0 & Hn0 & E). destruct (H q n0 Hq Hn0 Hout) as [H1 H2].
    rewrite (se_data _ _ E). split; [|done]. apply not_true_iff_false. intros Hf.
    destruct (HN q) as [(n'' & Hn'' & Hf'')|[_ Hu]]; [by exists nq|simplify_eq; congruence|].
    by apply Hu, (usable_anc m c x q).
Qed.

Lemma condemned_marks c m m' x : marks (condemned m c) m m' -> condemned m' c x -> condemned m c x.
Proof.
  intros HM [Hb Hu]. split; [|by rewrite <- (usable_marks c m m' x HM)].
  by apply (bad_back (condemned m c) m m'); [intros q []|..].
Qed.

Lemma search_ok_step P (cs cs' : chainstate X) :
  search_ok cs -> marks P (cs_index cs) (cs_index cs') -> same_rest cs cs' -> best_ok cs' ->
  cs_candidates cs' ⊆ cs_candidates cs -> search_ok cs'.
Proof.
  intros [H1 H2 H3 H4 H5 H6] HM HR HB HC. pose proof (mk_tree _ _ _ HM) as T. split.
  - by apply (same_tree_index (cs_index cs)).
  - by apply (same_tree_works (cs_index cs)).
  - by apply (marks_linked P (cs_index cs)).
  - rewrite (sr_active _ _ HR). by apply (same_tree_chain (cs_index cs)).
  - intros p Hp. destruct (H5 p (HC p Hp)) as (n & Hn & Htx). destruct (same_tree_lookup _ _ p n T Hn) as (n' & Hn' & E).
    exists n'. split; [done|]. apply same_entry_fields in E as (_ & _ & _ & _ & -> & _). done.
  - done.
Qed.

(** On a node that does not prune, linked blocks have their data. *)
Definition data_ok (m : BlockMap) : Prop := forall p n, m !! p = Some n -> bi_nChainTx n <> 0 -> has_data n = true.

Lemma data_ok_tree m m' : same_tree m m' -> data_ok m -> data_ok m'.
Proof.
  intros T Hd p n' Hp Htx. destruct (same_tree_lookup_r _ _ p n' T Hp) as (n & Hn & E). rewrite (se_data _ _ E).
  apply (Hd p n Hn). by apply same_entry_fields in E as (_ & _ & _ & _ & <- & _).
Qed.

(** The outcome of the search. *)
Record search_result (cs cs' : chainstate X) (r : option uint256) : Prop := {
  sr_marks : marks (condemned (cs_index cs) (cs_active cs)) (cs_index cs) (cs_index cs');
  sr_rest : same_rest cs cs';
  sr_best : best_ok cs';
  sr_sub : cs_candidates cs' ⊆ cs_candidates cs;
  sr_unlinked : data_ok (cs_index cs) -> cs_unlinked cs' = cs_unlinked cs;
  sr_removed : forall x, x ∈ cs_candidates cs -> x ∉ cs_candidates cs' -> ~ usable (cs_index cs) (cs_active cs) x;
  sr_found : match r with
             | None => cs_candidates cs' = ∅
             | Some p => p ∈ cs_candidates cs' /\ usable (cs_index cs) (cs_active cs) p /\
                         forall q, q ∈ cs_candidates cs' -> at_most (cs_index cs) q p
             end
}.

Lemma search_result_trans (cs cs1 cs' : chainstate X) r :
  marks (condemned (cs_index cs) (cs_active cs)) (cs_index cs) (cs_index cs1) -> same_rest cs cs1 ->
  cs_candidates cs1 ⊆ cs_candidates cs ->
  (data_ok (cs_index cs) -> cs_unlinked cs1 = cs_unlinked cs) ->
  (forall x, x ∈ cs_candidates cs -> x ∉ cs_candidates cs1 -> ~ usable (cs_index cs) (cs_active cs) x) ->
  search_result cs1 cs' r -> search_result cs cs' r.
Proof.
  intros HM HR HC HU HX [A1 A2 A3 A4 AU A5 A6]. rewrite (sr_active _ _ HR) in A1, A5, A6. split.
  - eapply marks_trans; [done|]. eapply marks_impl; [|done]. intros q. by apply condemned_marks.
  - by eapply same_rest_trans.
  - done.
  - set_solver.
  - intros Hd. rewrite AU; [by apply HU|]. by apply (data_ok_tree (cs_index cs)); [apply HM|].
  - intros x Hx Hn. destruct (decide (x ∈ cs_candidates cs1)) as [Hi|Hi]; [|by apply HX].
    rewrite <- (usable_marks _ _ _ x HM). by apply A5.
  - destruct r as [p|]; [|done]. destruct A6 as (B1 & B2 & B3). split_and!; [done|by apply (usable_marks _ _ _ p HM)|].
    intros q Hq. apply (at_most_same _ _ q p (mk_tree _ _ _ HM)). by apply B3.
Qed.

(** A round that finds an unusable candidate. *)
Lemma search_round (cs : chainstate X) p n k q nq fuel f :
  search_ok cs -> cs_index cs !! p = Some n -> p ∈ cs_candidates cs -> ancestor (cs_index cs) k p = Some q ->
  cs_index cs !! q = Some nq -> ~ in_chain (cs_index cs) (cs_active cs) q -> failed nq = f -> (f = false -> has_data nq = false) -> bi_nChainTx nq <> 0 ->
  (k <= fuel)%nat ->
  exists cs1, (cs0 ← (if f then update_best_invalid cs p else Some cs); remove_branch fuel cs0 q f p) = Some cs1 /\
    marks (condemned (cs_index cs) (cs_active cs)) (cs_index cs) (cs_index cs1) /\ same_rest cs cs1 /\ best_ok cs1 /\
    cs_candidates cs1 ⊂ cs_candidates cs /\ (data_ok (cs_index cs) -> cs_unlinked cs1 = cs_unlinked cs) /\
    (forall x, x ∈ cs_candidates cs -> x ∉ cs_candidates cs1 -> ~ usable (cs_index cs) (cs_active cs) x).
Proof.
  intros [H1 H2 H3 H4 H5 H6] Hp Hc Hk Hq Hout Hf Hd Htx Hfuel.
  assert (exists b, (if f then update_best_invalid cs p else Some cs) = Some (with_best_invalid cs b) /\ best_ok (with_best_invalid cs b))
    as (b & -> & Hb).
  { destruct f; [by apply (update_best_invalid_spec cs p n)|]. exists (cs_best_invalid cs). split; [by destruct cs|done]. }
  cbn [mbind option_bind].
  assert (forall x, among (cs_index cs) k p x -> anc (cs_index cs) x q) as Hanc.
  { intros x (j & Hj & Ej). exists (k - j)%nat. replace k with (j + (k - j))%nat in Hk by lia. by rewrite ancestor_add, Ej in Hk. }
  assert (forall x, among (cs_index cs) k p x -> ~ usable (cs_index cs) (cs_active cs) x) as Hun.
  { intros x Hx Hu. destruct (Hu q nq (Hanc x Hx) Hq Hout) as [E1 E2]. destruct f; [congruence|]. rewrite Hd in E2; done. }
  destruct (remove_branch_spec (condemned (cs_index cs) (cs_active cs)) f fuel (with_best_invalid cs b) p n k q)
    as (cs1 & -> & M & R & B & U & C); try done.
  { intros -> x Hx. split; [|by apply Hun]. exists q. split; [by apply Hanc|by exists nq]. }
  exists cs1. split_and!; [done|done|by destruct R|done| | |].
  - split; [intros x Hx; by apply C in Hx as [? _]|]. intros Hs. apply Hs, C in Hc as [_ Hn]. apply Hn. by exists O; split; [lia|].
  - intros Hdata. apply U. destruct f; [done|]. specialize (Hdata q nq Hq Htx). rewrite Hd in Hdata; done.
  - intros x Hx Hn Hu. apply Hn, C. split; [done|]. intros Ha. by apply (Hun x Ha).
Qed.

Lemma FindMostWorkChain_loop_spec fuel (cs : chainstate X) :
  search_ok cs -> (size (cs_candidates cs) < fuel)%nat ->
  exists cs' r, FindMostWorkChain_loop addr fuel cs = Some (cs', r) /\ search_result cs cs' r.
Proof.
  revert cs. induction fuel as [|fuel IH]; intros cs Hok Hf; [lia|]. pose proof Hok as [H1 H2 H3 H4 H5 H6].
  cbn [FindMostWorkChain_loop]. destruct (rbegin_spec (cs_index cs) (cs_candidates cs) H2) as [[He ->]|(p & -> & Hp & Hmax)].
  { intros p Hp. destruct (H5 p Hp) as (n & Hn & _). by eexists. }
  { exists cs, None. split; [done|]. split; [apply marks_refl|done..]. }
  cbn [mbind option_bind]. destruct (H5 p Hp) as (n & Hn & Htx). rewrite Hn. cbn [mbind option_bind].
  pose proof (height_nonneg _ H1 p n Hn).
  destruct (test_candidate_spec (cs_index cs) (cs_active cs) (S (S (Z.to_nat (bi_nHeight n)))) p n) as (r & -> & Hr);
    [done..|lia|]. cbn [mbind option_bind]. destruct r as [[q f]|].
  2: { exists cs, (Some p). split; [done|]. split; [apply marks_refl|done..]. }
  destruct Hr as (k & nq & Hk & Hkh & Hq & Hout & Hff & Hd & Htxq).
  destruct (search_round cs p n k q nq (S (S (Z.to_nat (bi_nHeight n)))) f) as (cs1 & E & M & R & B & C & U & D); try done; [lia|].
  destruct (if f then update_best_invalid cs p else Some cs) as [cs0|]; [|done]. cbn [mbind option_bind] in E |- *. rewrite E.
  cbn [mbind option_bind]. destruct (IH cs1) as (cs' & r & -> & HR).
  { by apply (search_ok_step (condemned (cs_index cs) (cs_active cs)) cs); try done; apply C. }
  { apply subset_size in C. lia. }
  exists cs', r. split; [done|]. apply (search_result_trans cs cs1); try done. apply C.
Qed.

Lemma FindMostWorkChain_spec (cs : chainstate X) :
  search_ok cs -> exists cs' r, FindMostWorkChain addr cs = Some (cs', r) /\ search_result cs cs' r.
Proof. intros H. apply FindMostWorkChain_loop_spec; [done|lia]. Qed.

(** C9: the search for the chain of most work comes to an end and fails no assertion. It
    returns a candidate with all blocks down to the active chain stored and unmarked, such
    that no remaining candidate is better; the candidates it drops are not of that kind,
    blocks are marked only for a failed ancestor, and the chain and the coins do not move. *)
Theorem FindMostWorkChain_correct (cs : chainstate X) :
  search_ok cs -> exists cs' r, FindMostWorkChain addr cs = Some (cs', r) /\ search_result cs cs' r.
Proof. apply FindMostWorkChain_spec. Qed.
End order_facts.
