(* ===== verification/Activation.v ===== *)
(** * The activation of the best chain (topchain/src/validation.cpp)

    [ActivateBestChain] on effects that keep the laws [BlockRules]: it terminates
    without failing an assertion, and the tip it leaves is the best block of all those
    the node could switch to. *)

From S2P Require Import Prelude Serialize Sha256 Primitives ArithUint256 Chain ChainState.

(** * What the effects promise *)

(** How far the checks of a block have gone: its data is only kept after those of the
    whole block, unless it failed them. *)
Definition level_ok (n : CBlockIndex) : Prop :=
  BLOCK_VALID_TREE <= level n /\ (has_data n = true -> failed n = false -> BLOCK_VALID_TRANSACTIONS <= level n).

(** A well-formed index of a node that does not prune: work grows along the
    branches, a block counted with its ancestors' transactions has its data, there is
    one root, and every entry got its place in the tree. *)
Record tree_ok (m : BlockMap) : Prop := {
  to_index : index_ok m;
  to_works : works m;
  to_linked : linked m;
  to_grows : forall p n q nq, m !! p = Some n -> bi_pprev n = Some q -> m !! q = Some nq ->
    uval (bi_nChainWork nq) < uval (bi_nChainWork n);
  to_data : forall p n, m !! p = Some n -> bi_nChainTx n <> 0 -> has_data n = true;
  to_root : forall p n q nq, m !! p = Some n -> bi_pprev n = None -> m !! q = Some nq -> bi_pprev nq = None -> p = q;
  to_level : forall p n, m !! p = Some n -> level_ok n
}.

Lemma tree_ok_same m m' : same_tree m m' -> tree_ok m -> tree_ok m'.
Proof.
  intros T [H1 H2 H3 H4 H5 H6 H7]. split.
  - by apply (same_tree_index m).
  - by apply (same_tree_works m).
  - intros p n q nq Hp Htx Eq Hq. destruct (same_tree_lookup_r _ _ p n T Hp) as (n0 & H0 & S0).
    destruct (same_tree_lookup_r _ _ q nq T Hq) as (q0 & Hq0 & Sq0).
    apply same_entry_fields in S0 as (E1 & _ & _ & _ & E2 & _). apply same_entry_fields in Sq0 as (_ & _ & _ & _ & E3 & _).
    rewrite E3. apply (H3 p n0 q q0); congruence.
  - intros p n q nq Hp Eq Hq. destruct (same_tree_lookup_r _ _ p n T Hp) as (n0 & H0 & S0).
    destruct (same_tree_lookup_r _ _ q nq T Hq) as (q0 & Hq0 & Sq0).
    apply same_entry_fields in S0 as (E1 & _ & _ & E2 & _). apply same_entry_fields in Sq0 as (_ & _ & _ & E3 & _).
    rewrite E2, E3. apply (H4 p n0 q q0); congruence.
  - intros p n Hp Htx. destruct (same_tree_lookup_r _ _ p n T Hp) as (n0 & H0 & S0). rewrite (se_data _ _ S0).
    apply same_entry_fields in S0 as (_ & _ & _ & _ & E2 & _). apply (H5 p n0); congruence.
  - intros p n q nq Hp Ep Hq Eq. destruct (same_tree_lookup_r _ _ p n T Hp) as (n0 & H0 & S0).
    destruct (same_tree_lookup_r _ _ q nq T Hq) as (q0 & Hq0 & Sq0).
    apply same_entry_fields in S0 as (E1 & _). apply same_entry_fields in Sq0 as (E2 & _).
    apply (H6 p n0 q q0); congruence.
  - intros p n Hp. destruct (same_tree_lookup_r _ _ p n T Hp) as (n0 & H0 & [S0 _]). pose proof (sb_level _ _ S0).
    destruct (H7 p n0 H0) as [L1 L2]. split; [lia|]. rewrite (sb_data _ _ S0). intros Hd Hf.
    enough (failed n0 = false) by (specialize (L2 Hd ltac:(done)); lia). apply not_true_iff_false. intros Hf0.
    by rewrite (sb_failed _ _ S0 Hf0) in Hf.
Qed.

(** The entries of the chain that ends in [t] still describe the same blocks. *)
Definition same_chain (m m' : BlockMap) (t : option uint256) : Prop :=
  forall p q, t = Some p -> anc m p q ->
    match m !! q, m' !! q with
    | Some n, Some n' => same_block n n'
    | None, None => True
    | _, _ => False
    end.

Lemma same_tree_same_chain m m' t : same_tree m m' -> same_chain m m' t.
Proof. intros T p q _ _. specialize (T q). destruct (m !! q), (m' !! q); try done. apply T. Qed.

(** No entry claims data at a place where it was not. *)
Definition same_store (m m' : BlockMap) : Prop :=
  forall p n', m' !! p = Some n' -> has_data n' = true ->
    exists n, m !! p = Some n /\ has_data n = true /\ bi_nFile n' = bi_nFile n /\ bi_nDataPos n' = bi_nDataPos n.

Lemma same_tree_same_store m m' : same_tree m m' -> same_store m m'.
Proof.
  intros T p n' Hp Hd. destruct (same_tree_lookup_r _ _ p n' T Hp) as (n & Hn & E). exists n. rewrite <- (se_data _ _ E).
  destruct E as [[E _ _ _ _ _] _]. split_and!; [done..|exact (f_equal bi_nFile E)|exact (f_equal bi_nDataPos E)].
Qed.

(** The laws of the interface. [matches m t x]: the coins and files [x] are those of
    the chain that ends in [t]. In such a state a block with its data connects or is
    refused by the rules, always with the same verdict [block_ok]; what was
    connected can be disconnected. No system error and no corruption: those are the
    other results of the interface. *)
Class BlockRules (X : Type) `{BlockEffects X} := {
  block_ok : uint256 -> bool;
  given_ok : uint256 -> CBlock -> Prop;
  matches : BlockMap -> option uint256 -> X -> Prop;
  matches_same : forall m m' t x, same_chain m m' t -> same_store m m' -> matches m t x -> matches m' t x;
  connect_law : forall m x p n pblock m' x' r,
    tree_ok m -> m !! p = Some n -> has_data n = true -> matches m (bi_pprev n) x ->
    (forall b, pblock = Some b -> given_ok p b) -> connect_block m x p pblock = (m', x', r) ->
    same_tree m m' /\ (forall q, failed_in m' q <-> failed_in m q) /\
    r = (if block_ok p then TipConnected else TipInvalid false) /\
    matches m' (if block_ok p then Some p else bi_pprev n) x';
  disconnect_law : forall m x p n q,
    tree_ok m -> m !! p = Some n -> bi_pprev n = Some q -> matches m (Some p) x ->
    exists x', disconnect_block m x p = Some x' /\ matches m (Some q) x'
}.

Lemma matches_tree {X} `{BlockRules X} m m' t x : same_tree m m' -> matches m t x -> matches m' t x.
Proof. intros T. apply matches_same; [by apply same_tree_same_chain|by apply same_tree_same_store]. Qed.

Section activate.
Context (addr : uint256 -> Z) (Haddr : forall p q, addr p = addr q -> p = q).
Context {X : Type} `{HR : BlockRules X}.

(** A block the node has verified: its data is there, nothing below it is marked
    failed, and every block below it passes the rules. *)
Record sound (m : BlockMap) (t : uint256) : Prop := {
  sd_entry : exists n, m !! t = Some n /\ bi_nChainTx n <> 0;
  sd_good : ~ bad m t;
  sd_rules : forall q, anc m t q -> block_ok q = true
}.

(** [g_failed_blocks] lists blocks that were found invalid. *)
Definition failed_ok (cs : chainstate X) : Prop :=
  forall q, q ∈ cs_failed cs -> exists n, cs_index cs !! q = Some n /\ invalid n = true.

Lemma failed_ok_tree (cs cs' : chainstate X) :
  same_tree (cs_index cs) (cs_index cs') -> cs_failed cs' = cs_failed cs -> failed_ok cs -> failed_ok cs'.
Proof.
  intros T E Hf q Hq. rewrite E in Hq. destruct (Hf q Hq) as (n & Hn & Hi).
  destruct (same_tree_lookup _ _ q n T Hn) as (n' & Hn' & [S _]). exists n'. split; [done|]. by apply (sb_invalid _ _ S).
Qed.

(** The invariant of the chain state. [w] is the best tip the node has had: every
    block with its data that is not behind a failure is a candidate or worse than it. *)
Record chain_inv (w : option uint256) (cs : chainstate X) : Prop := {
  iv_tree : tree_ok (cs_index cs);
  iv_root : forall p n, cs_index cs !! p = Some n -> bi_pprev n = None -> block_ok p = true;
  iv_chain : chain_ok (cs_index cs) (cs_active cs);
  iv_candidates : forall p, p ∈ cs_candidates cs -> exists n, cs_index cs !! p = Some n /\ bi_nChainTx n <> 0;
  iv_best : best_ok cs;
  iv_failed : failed_ok cs;
  iv_match : matches (cs_index cs) (CChain_Tip (cs_active cs)) (cs_effects cs);
  iv_tip : forall t, CChain_Tip (cs_active cs) = Some t -> sound (cs_index cs) t;
  iv_mark : forall t, w = Some t -> sound (cs_index cs) t;
  iv_complete : forall p n, cs_index cs !! p = Some n -> bi_nChainTx n <> 0 -> ~ bad (cs_index cs) p ->
    p ∈ cs_candidates cs \/ exists t, w = Some t /\ less addr (cs_index cs) p t
}.

Lemma chain_inv_search w cs : chain_inv w cs -> search_ok cs.
Proof. intros [[]]. by split. Qed.

(** Blocks are marked only for a reason. *)
Definition refused (q : uint256) : Prop := block_ok q = false.

Lemma linked_anc m p n q nq : tree_ok m -> m !! p = Some n -> bi_nChainTx n <> 0 -> anc m p q -> m !! q = Some nq -> bi_nChainTx nq <> 0.
Proof.
  intros [H1 _ H3 _ _ _ _] Hp Htx [k Hk] Hq. revert p n Hp Htx Hk. induction k as [|k IH]; intros p n Hp Htx Hk.
  - injection Hk as <-. by simplify_eq.
  - cbn [ancestor] in Hk. rewrite Hp in Hk. cbn [mbind option_bind] in Hk. destruct (bi_pprev n) as [r|] eqn:Er; [|done].
    destruct (parent_ok m H1 p n r Hp Er) as (nr & Hr & _). apply (IH r nr Hr); [|done]. by apply (H3 p n r nr).
Qed.

(** A block behind a failure, refused by the rules, or not all of whose branch is there
    is no ancestor of a sound block. *)
Definition unsound (m : BlockMap) (q : uint256) : Prop :=
  bad m q \/ refused q \/ exists n, m !! q = Some n /\ bi_nChainTx n = 0.

Lemma sound_not_unsound m t q : tree_ok m -> sound m t -> anc m t q -> ~ unsound m q.
Proof.
  intros HT [(n & Hn & Htx) Hg Hr] Ha [Hb|[Hb|(nq & Hq & E)]].
  - by apply Hg, (bad_anc m t q).
  - specialize (Hr q Ha). unfold refused in Hb. congruence.
  - by apply (linked_anc m t n q nq).
Qed.

Lemma sound_marks P m m' t :
  tree_ok m -> (forall q, P q -> unsound m q) -> marks P m m' -> sound m t -> sound m' t.
Proof.
  intros HT HP [T HK HN] Hs. pose proof Hs as [(n & Hn & Htx) Hg Hr]. split.
  - destruct (same_tree_lookup _ _ t n T Hn) as (n' & Hn' & E). exists n'. split; [done|].
    apply same_entry_fields in E as (_ & _ & _ & _ & -> & _). done.
  - intros (q & Hq & Hf). apply (anc_same m m' t q T) in Hq.
    destruct (HN q Hf) as [Hf'|Hq']; [apply Hg; by exists q|]. by apply (sound_not_unsound m t q), HP.
  - intros q Hq. by apply Hr, (anc_same m m').
Qed.

Lemma good_usable m c p n : tree_ok m -> m !! p = Some n -> bi_nChainTx n <> 0 -> ~ bad m p -> usable m c p.
Proof.
  intros HT Hp Htx Hg q nq Hq Hn _. split.
  - apply not_true_iff_false. intros Hf. apply Hg. exists q. split; [done|by exists nq].
  - apply (to_data m HT q nq Hn). by apply (linked_anc m p n q nq).
Qed.

(** An ancestor is not better. *)
Lemma anc_at_most m p n q : tree_ok m -> m !! p = Some n -> anc m p q -> at_most addr m q p.
Proof.
  intros [H1 _ _ H4 _ _ _] Hp [k Hk]. revert p n Hp Hk. induction k as [|k IH]; intros p n Hp Hk.
  - injection Hk as <-. by left.
  - cbn [ancestor] in Hk. rewrite Hp in Hk. cbn [mbind option_bind] in Hk. destruct (bi_pprev n) as [r|] eqn:Er; [|done].
    destruct (parent_ok m H1 p n r Hp Er) as (nr & Hr & _). apply (at_most_trans addr m q r p); [by apply (IH r nr)|].
    right. exists nr, n. split_and!; [done..|]. left. by apply (H4 p n r nr).
Qed.

(** The invariant survives the marking of blocks that are behind a failure or that
    the rules refuse, and the loss of candidates behind a failure. *)
Lemma chain_inv_marks P w cs cs' :
  chain_inv w cs -> (forall q, P q -> unsound (cs_index cs) q) -> marks P (cs_index cs) (cs_index cs') ->
  cs_active cs' = cs_active cs -> matches (cs_index cs') (CChain_Tip (cs_active cs)) (cs_effects cs') -> best_ok cs' -> failed_ok cs' ->
  cs_candidates cs' ⊆ cs_candidates cs ->
  (forall q n, cs_index cs !! q = Some n -> bi_nChainTx n <> 0 -> q ∈ cs_candidates cs -> q ∉ cs_candidates cs' -> ~ ~ bad (cs_index cs') q) ->
  chain_inv w cs'.
Proof.
  intros [H1 H2 H3 H4 H5 H5' H6 H7 H8 H9] HP M EA Hm HB HFO HC HX. pose proof (mk_tree _ _ _ M) as T.
  assert (forall t, sound (cs_index cs) t -> sound (cs_index cs') t) as HS by (intros t; by apply (sound_marks P)).
  split; rewrite ?EA; try done.
  - by apply (tree_ok_same (cs_index cs)).
  - intros p n Hp Ep. destruct (same_tree_lookup_r _ _ p n T Hp) as (n0 & H0 & S0).
    apply same_entry_fields in S0 as (E1 & _). apply (H2 p n0); congruence.
  - by apply (same_tree_chain (cs_index cs)).
  - intros p Hp. destruct (H4 p (HC p Hp)) as (n & Hn & Htx). destruct (same_tree_lookup _ _ p n T Hn) as (n' & Hn' & E).
    exists n'. split; [done|]. apply same_entry_fields in E as (_ & _ & _ & _ & -> & _). done.
  - intros t Ht. by apply HS, H7.
  - intros t Ht. by apply HS, H8.
  - intros p n' Hp Htx Hg. destruct (same_tree_lookup_r _ _ p n' T Hp) as (n & Hn & E).
    assert (bi_nChainTx n <> 0) as Htx0 by (apply same_entry_fields in E as (_ & _ & _ & _ & E & _); congruence).
    destruct (H9 p n Hn Htx0) as [Hc|(t & Ht & Hl)]; [intros Hb; by apply Hg, (bad_kept _ _ _ p M)| |].
    + destruct (decide (p ∈ cs_candidates cs')) as [|Hc']; [by left|]. by destruct (HX p n Hn Htx0 Hc Hc').
    + right. exists t. split; [done|]. by apply (less_same addr (cs_index cs)).
Qed.

Lemma chain_inv_found w cs cs' r : chain_inv w cs -> search_result addr cs cs' r -> chain_inv w cs'.
Proof.
  intros HI [A1 A2 A3 A4 _ A5 _]. apply (chain_inv_marks (condemned (cs_index cs) (cs_active cs)) w cs); try done.
  - intros q [Hb _]. by left.
  - apply (sr_active _ _ A2).
  - rewrite (sr_effects _ _ A2). apply (matches_tree (cs_index cs)); [apply A1|apply HI].
  - apply (failed_ok_tree cs); [apply A1|apply A2|apply HI].
  - intros q n Hq Htx Hc Hc' Hg. apply (A5 q Hc Hc'). apply (good_usable _ _ q n); [apply HI|done..|].
    intros Hb. by apply Hg, (bad_kept _ _ _ q A1).
Qed.

(** ** Disconnecting down to the fork *)

Lemma sound_anc m t q : tree_ok m -> sound m t -> anc m t q -> sound m q.
Proof.
  intros HT [(n & Hn & Htx) Hg Hr] Hq. destruct (anc_in m t n q (to_index m HT) Hn Hq) as (nq & Hnq & _). split.
  - exists nq. split; [done|]. by apply (linked_anc m t n q nq).
  - intros Hb. by apply Hg, (bad_anc m t q).
  - intros x Hx. apply Hr. by eapply anc_trans.
Qed.

Lemma chain_inv_tip w cs : chain_inv w cs ->
  match CChain_Tip (cs_active cs) with
  | None => cs_active cs = []
  | Some t => exists nt, cs_index cs !! t = Some nt /\ cs_active cs = branch (cs_index cs) t nt
  end.
Proof. intros HI. apply chain_ok_tip, (iv_chain _ _ HI). Qed.

(** The tip moved to another sound block, the effects with it. *)
Lemma chain_inv_move w cs t nt x :
  chain_inv w cs -> cs_index cs !! t = Some nt -> sound (cs_index cs) t -> matches (cs_index cs) (Some t) x ->
  chain_inv w (with_active (with_effects cs x) (branch (cs_index cs) t nt)).
Proof.
  intros [H1 H2 H3 H4 H5 H5' H6 H7 H8 H9] Ht Hs Hm. split; try done; cbn [cs_index cs_active cs_effects with_active with_effects].
  - right. by exists t, nt.
  - by rewrite (Tip_branch _ t nt Ht).
  - intros t'. rewrite (Tip_branch _ t nt Ht). by intros [= <-].
Qed.

Lemma DisconnectTip_spec w cs t nt q :
  chain_inv w cs -> CChain_Tip (cs_active cs) = Some t -> cs_index cs !! t = Some nt -> bi_pprev nt = Some q ->
  exists nq x, cs_index cs !! q = Some nq /\
    DisconnectTip cs = Some (with_active (with_effects cs x) (branch (cs_index cs) q nq), true) /\
    chain_inv w (with_active (with_effects cs x) (branch (cs_index cs) q nq)).
Proof.
  intros HI Ht Hn Eq. pose proof (iv_tree _ _ HI) as HT. pose proof (iv_match _ _ HI) as Hm. rewrite Ht in Hm.
  destruct (disconnect_law (cs_index cs) (cs_effects cs) t nt q HT Hn Eq Hm) as (x & Hx & Hmx).
  destruct (parent_ok _ (to_index _ HT) t nt q Hn Eq) as (nq & Hq & _). exists nq, x. split; [done|]. split.
  - unfold DisconnectTip. rewrite Ht. cbn [mbind option_bind]. rewrite Hn. cbn [mbind option_bind]. rewrite Hx, Eq.
    rewrite (SetTip_spec _ (to_index _ HT) _ q nq (iv_chain _ _ HI) Hq). done.
  - apply chain_inv_move; try done. apply (sound_anc _ t q HT); [by apply (iv_tip _ _ HI)|by apply (anc_parent _ t nt)].
Qed.

(** What disconnecting leaves alone. *)
Definition moved (cs cs' : chainstate X) : Prop :=
  cs' = with_active (with_effects cs (cs_effects cs')) (cs_active cs').

Lemma disconnect_to_spec w fuel cs t nt f :
  chain_inv w cs -> CChain_Tip (cs_active cs) = Some t -> cs_index cs !! t = Some nt -> anc (cs_index cs) t f ->
  bi_nHeight nt < Z.of_nat fuel ->
  exists cs', disconnect_to fuel cs (Some f) = Some (cs', true) /\ chain_inv w cs' /\ CChain_Tip (cs_active cs') = Some f /\ moved cs cs'.
Proof.
  revert cs t nt. induction fuel as [|fuel IH]; intros cs t nt HI Ht Hn Hf Hfuel;
    pose proof (to_index _ (iv_tree _ _ HI)) as Hok; pose proof (height_nonneg _ Hok t nt Hn); [lia|].
  cbn [disconnect_to]. rewrite Ht. destruct (decide (t = f)) as [->|Hne].
  { rewrite bool_decide_eq_true_2 by done. exists cs. split_and!; [done..|]. by destruct cs. }
  rewrite bool_decide_eq_false_2 by congruence. destruct (anc_inv _ t nt f Hn Hf) as [->|(q & Eq & Hq)]; [done|].
  destruct (DisconnectTip_spec w cs t nt q HI Ht Hn Eq) as (nq & x & Hnq & -> & HI'). cbn [mbind option_bind].
  destruct (parent_ok _ Hok t nt q Hn Eq) as (nq' & Hnq' & Eh). simplify_eq.
  destruct (IH _ q nq HI') as (cs' & -> & HI'' & Ht' & Hm); [by apply Tip_branch|done|done|lia|].
  exists cs'. split_and!; [done..|]. unfold moved in *. by rewrite Hm at 1.
Qed.

(** ** The fork with a chain of the same tree *)

Lemma root_of m p n : index_ok m -> m !! p = Some n -> exists r nr, anc m p r /\ m !! r = Some nr /\ bi_pprev nr = None.
Proof.
  intros Hok Hp. pose proof (height_nonneg m Hok p n Hp).
  destruct (ancestor_height m Hok (Z.to_nat (bi_nHeight n)) p n Hp ltac:(lia)) as (r & nr & Hr & Hnr & Eh).
  exists r, nr. split_and!; [by eexists|done|]. apply (root_height m Hok r nr Hnr). lia.
Qed.

Lemma fork_spec m c p n :
  tree_ok m -> chain_ok m c -> m !! p = Some n ->
  exists r, CChain_FindFork m c (Some p) = Some r /\
    match r with
    | None => c = []
    | Some f => exists t, CChain_Tip c = Some t /\ anc m t f /\ anc m p f
    end.
Proof.
  intros HT Hc Hp. pose proof (to_index m HT) as Hok. destruct (FindFork_spec m Hok c p n Hp) as (r & Hr & Hf). exists r.
  split; [done|]. destruct r as [f|].
  - destruct Hf as (k & Hk & Hcon & _). destruct (ancestor_inv m Hok k p n f Hp Hk) as (nf & Hnf & _).
    destruct (Contains_spec m c f nf Hok Hc Hnf) as (b & Hb & Eb). rewrite Hcon in Hb. injection Hb as <-.
    destruct (proj1 Eb eq_refl) as (t & Ht & Ha). exists t. split_and!; [done..|by exists k].
  - pose proof (chain_ok_tip m c Hc) as Ht. destruct (CChain_Tip c) as [t|] eqn:Et; [|done].
    destruct Ht as (nt & Hnt & _). destruct (root_of m p n Hok Hp) as (a & na & Ha & Hna & Ea).
    destruct (root_of m t nt Hok Hnt) as (b & nb & Hb & Hnb & Eb).
    rewrite (to_root m HT a na b nb Hna Ea Hnb Eb) in Ha. destruct Ha as [k Hk]. specialize (Hf k b Hk).
    destruct (Contains_spec m c b nb Hok Hc Hnb) as (x & Hx & Ex). rewrite Hf in Hx. injection Hx as <-.
    assert (in_chain m c b) as Hin by (by exists t). by apply Ex in Hin.
Qed.

(** ** Connecting one block *)

Lemma prune_filter (m : BlockMap) (s : gset (list byte)) t nt x n :
  works m -> m !! t = Some nt -> m !! x = Some n ->
  x ∈ filter (fun p => default false (worse addr m p t) = false) s <-> x ∈ s /\ ~ less addr m x t.
Proof.
  intros Hw Ht Hx. rewrite elem_of_filter. destruct (worse_spec addr m x n t nt Hw Hx Ht) as (b & -> & Eb).
  cbn [default]. rewrite <- Eb, not_true_iff_false. tauto.
Qed.

(** The better of the old mark and the new tip. *)
Lemma raise_mark (m : BlockMap) w t nt :
  (forall v, w = Some v -> is_Some (m !! v)) -> m !! t = Some nt ->
  exists v, (v = t \/ w = Some v) /\ at_most addr m t v /\ (forall u, w = Some u -> at_most addr m u v).
Proof.
  intros Hw Ht. destruct w as [u|]; [|exists t; split_and!; [by left..|done]].
  destruct (Hw u eq_refl) as [nu Hu]. destruct (less_total addr Haddr m t nt u nu Ht Hu) as [->|[Hl|Hl]].
  - exists u. split_and!; [by left..|]. intros ? [= <-]. by left.
  - exists u. split_and!; [by right..|]. intros ? [= <-]. by left.
  - exists t. split_and!; [by left..|]. intros ? [= <-]. by right.
Qed.

(** Pruning behind the tip keeps the candidate the node works towards, and raises
    the mark to the tip if the tip is better. *)
Lemma Prune_spec w cs t p n :
  chain_inv w cs -> CChain_Tip (cs_active cs) = Some t -> p ∈ cs_candidates cs -> cs_index cs !! p = Some n ->
  anc (cs_index cs) p t ->
  exists s w', PruneBlockIndexCandidates addr cs = Some (with_candidates cs s) /\ p ∈ s /\ s ⊆ cs_candidates cs /\
    chain_inv w' (with_candidates cs s).
Proof.
  intros HI Ht Hp Hn Ha. pose proof (chain_inv_tip w cs HI) as Hc. rewrite Ht in Hc. destruct Hc as (nt & Hnt & Ec).
  destruct HI as [H1 H2 H3 H4 H5 H5' H6 H7 H8 H9]. pose proof (to_works _ H1) as Hw.
  set (s := filter (fun p => default false (worse addr (cs_index cs) p t) = false) (cs_candidates cs)).
  assert (forall x, x ∈ cs_candidates cs -> x ∈ s <-> ~ less addr (cs_index cs) x t) as Hs.
  { intros x Hx. destruct (H4 x Hx) as (nx & Hnx & _). unfold s. rewrite (prune_filter _ _ t nt x nx Hw Hnt Hnx). tauto. }
  assert (s ⊆ cs_candidates cs) as Hsub by (intros x Hx; by apply elem_of_filter in Hx as [_ ?]).
  assert (p ∈ s) as Hps by (apply Hs, (at_most_not_less addr), (anc_at_most _ p n); done).
  destruct (raise_mark (cs_index cs) w t nt) as (v & Hv & Htv & Hwv); [|done|].
  { intros v Hv. destruct (sd_entry _ _ (H8 v Hv)) as (nv & ? & _). by eexists. }
  exists s, (Some v). split_and!; [|done|done|].
  - unfold PruneBlockIndexCandidates. rewrite Ht. cbn [mbind option_bind]. rewrite Hnt. cbn [mbind option_bind]. fold s.
    rewrite bool_decide_eq_false_2; [done|]. set_solver.
  - split; try done; cbn [cs_candidates with_candidates cs_index].
    + intros x Hx. by apply H4, Hsub.
    + intros u [= <-]. destruct Hv as [->|Hv]; [by apply H7|by apply H8].
    + intros x nx Hx Htx Hg. destruct (H9 x nx Hx Htx Hg) as [Hc|(u & Hu & Hl)].
      * destruct (decide (x ∈ s)) as [|Hx']; [by left|right]. exists v. split; [done|].
        destruct (worse_spec addr _ x nx t nt Hw Hx Hnt) as ([] & _ & Eb).
        -- apply (less_at_most addr _ x t v); [by apply Eb|done].
        -- destruct Hx'. apply Hs; [done|]. intros Hl. by apply Eb in Hl.
      * right. exists v. split; [done|]. apply (less_at_most addr _ x u v Hl). by apply Hwv.
Qed.

(** The index and the effects after [connect_block], before anything else moves. *)
Lemma chain_inv_effects w cs m x :
  chain_inv w cs -> same_tree (cs_index cs) m -> (forall q, failed_in m q <-> failed_in (cs_index cs) q) ->
  matches m (CChain_Tip (cs_active cs)) x -> chain_inv w (with_effects (with_index cs m) x).
Proof.
  intros HI T HF Hm. apply (chain_inv_marks refused w cs); try done.
  - intros q Hq. right. by left.
  - split; [done|intros; by apply HF|intros q Hq; left; by apply HF].
  - intros q Hq. destruct (iv_best _ _ HI q Hq) as [nq Hnq]. destruct (same_tree_lookup _ _ q nq T Hnq) as (n' & Hn' & _).
    by eexists.
  - by apply (failed_ok_tree cs); [..|apply HI].
Qed.

(** A refused block is marked and no candidate any more. *)
Lemma InvalidBlockFound_spec w cs p n :
  chain_inv w cs -> cs_index cs !! p = Some n -> refused p -> CChain_Tip (cs_active cs) <> None ->
  exists cs', InvalidBlockFound cs p false = Some cs' /\ chain_inv w cs' /\ cs_active cs' = cs_active cs /\
    marks refused (cs_index cs) (cs_index cs') /\ failed_in (cs_index cs') p /\ cs_candidates cs' ⊆ cs_candidates cs /\
    cs_unlinked cs' = cs_unlinked cs.
Proof.
  intros HI Hp Hr Ht. unfold InvalidBlockFound, InvalidChainFound. rewrite (or_status_index _ cs p n Hp). cbn [mbind option_bind].
  set (m := <[p := set_status (Z.lor (bi_nStatus n) BLOCK_FAILED_VALID) n]> (cs_index cs)).
  assert (marks refused (cs_index cs) m) as M by (apply mark_marks; [by right|done..]).
  set (cs0 := erase_candidate _ p). assert (failed_in m p) as Hfp.
  { eexists. split; [unfold m; by rewrite lookup_insert_eq|]. apply mark_entry. by right. }
  assert (best_ok cs0) as Hb0.
  { intros q Hq. destruct (iv_best _ _ HI q Hq) as [nq Hnq].
    destruct (same_tree_lookup _ _ q nq (mk_tree _ _ _ M) Hnq) as (n' & Hn' & _). by eexists. }
  destruct (update_best_invalid_spec cs0 p (set_status (Z.lor (bi_nStatus n) BLOCK_FAILED_VALID) n)) as (b & -> & Hb);
    [done|by apply lookup_insert_eq|]. cbn [mbind option_bind].
  change (cs_active (with_best_invalid cs0 b)) with (cs_active cs).
  destruct (CChain_Tip (cs_active cs)) as [tip|] eqn:Et; [|done]. cbn [mbind option_bind]. eexists. split; [done|].
  split_and!; [|done|done|done|cbn; set_solver|done]. apply (chain_inv_marks refused w cs); try done.
  - intros q Hq. right. by left.
  - apply (matches_tree (cs_index cs)); [apply M|apply HI].
  - intros q Hq. change (q ∈ {[p]} ∪ cs_failed cs) in Hq. apply elem_of_union in Hq as [->%elem_of_singleton|Hq].
    + eexists. split; [by apply lookup_insert_eq|]. unfold invalid. cbn [bi_nStatus set_status]. rewrite Z.lor_comm.
      apply negb_true_iff, Z.eqb_neq. by apply land_lor_ne0.
    + apply (failed_ok_tree cs (with_index cs m)); [apply M|done|apply HI|done].
  - cbn; set_solver.
  - intros q nq Hq _ Hc Hc' Hg. apply Hg. exists p. assert (q = p) as ->; [|split; [apply anc_refl|done]].
    apply dec_stable. intros Hne. apply Hc'. cbn. set_solver.
Qed.

(** The block the node works towards. *)
Record target (cs : chainstate X) (p : uint256) : Prop := {
  tg_candidate : p ∈ cs_candidates cs;
  tg_good : ~ bad (cs_index cs) p
}.

Lemma bad_iff m m' p : same_tree m m' -> (forall q, failed_in m' q <-> failed_in m q) -> bad m' p <-> bad m p.
Proof. intros T HF. unfold bad. setoid_rewrite HF. by setoid_rewrite (fun q => anc_same m m' p q T). Qed.

Lemma sound_next w cs m q n :
  chain_inv w cs -> same_tree (cs_index cs) m -> (forall x, failed_in m x <-> failed_in (cs_index cs) x) ->
  cs_index cs !! q = Some n -> bi_nChainTx n <> 0 -> ~ bad (cs_index cs) q -> bi_pprev n = CChain_Tip (cs_active cs) ->
  block_ok q = true -> sound m q.
Proof.
  intros HI T HF Hq Htx Hg Eq Eb. destruct (same_tree_lookup _ _ q n T Hq) as (n' & Hq' & En).
  destruct (same_entry_fields _ _ En) as (_ & _ & _ & _ & Etx & _). split.
  - exists n'. split; congruence.
  - by rewrite (bad_iff _ m q T HF).
  - intros y Hy%(anc_same _ m q y T). destruct (anc_inv _ q n y Hq Hy) as [->|(t & Et & Hty)]; [done|].
    apply (sd_rules (cs_index cs) t); [apply (iv_tip _ _ HI); congruence|done].
Qed.

(** The tip moved up, the index changed with the effects. *)
Lemma chain_inv_connected w cs m x q n' :
  chain_inv w cs -> same_tree (cs_index cs) m -> (forall y, failed_in m y <-> failed_in (cs_index cs) y) ->
  m !! q = Some n' -> sound m q -> matches m (Some q) x ->
  chain_inv w (with_active (with_effects (with_index cs m) x) (branch m q n')).
Proof.
  intros HI T HF Hq Hs Hm. pose proof (matches_tree _ m _ _ T (iv_match _ _ HI)) as Hm0.
  pose proof (chain_inv_effects w cs m _ HI T HF Hm0) as HI'.
  exact (chain_inv_move w (with_effects (with_index cs m) (cs_effects cs)) q n' x HI' Hq Hs Hm).
Qed.

(** [ConnectTip] on the next block below the target: connected, or refused and marked. *)
Lemma ConnectTip_spec w cs p q n pblock :
  chain_inv w cs -> target cs p -> anc (cs_index cs) p q -> cs_index cs !! q = Some n ->
  bi_pprev n = CChain_Tip (cs_active cs) -> (forall b, pblock = Some b -> given_ok q b) ->
  if block_ok q then
    exists cs', ConnectTip cs q pblock = Some (cs', TipConnected) /\ chain_inv w cs' /\
      CChain_Tip (cs_active cs') = Some q /\ same_tree (cs_index cs) (cs_index cs') /\
      (forall x, failed_in (cs_index cs') x <-> failed_in (cs_index cs) x) /\ cs_candidates cs' = cs_candidates cs /\
      cs_unlinked cs' = cs_unlinked cs
  else
    exists cs', ConnectTip cs q pblock = Some (cs', TipInvalid false) /\ chain_inv w cs' /\ cs_active cs' = cs_active cs /\
      CChain_Tip (cs_active cs) <> None /\ marks refused (cs_index cs) (cs_index cs') /\
      failed_in (cs_index cs') q /\ ~ failed_in (cs_index cs) q /\ cs_candidates cs' ⊆ cs_candidates cs /\
      cs_unlinked cs' = cs_unlinked cs.
Proof.
  intros HI [Hc Hg] Ha Hq Eq Hgiven. pose proof (iv_tree _ _ HI) as HT. destruct (iv_candidates _ _ HI p Hc) as (np & Hp & Htx).
  assert (bi_nChainTx n <> 0) as Htxq by (by apply (linked_anc (cs_index cs) p np q n)).
  pose proof (iv_match _ _ HI) as Hm. rewrite <- Eq in Hm. unfold ConnectTip. rewrite Hq. cbn [mbind option_bind].
  rewrite bool_decide_eq_true_2 by done. cbn [negb].
  destruct (connect_block (cs_index cs) (cs_effects cs) q pblock) as [[m x] r] eqn:Ec.
  destruct (connect_law _ _ q n pblock m x r HT Hq (to_data _ HT q n Hq Htxq) Hm Hgiven Ec) as (T & HF & -> & Hmx).
  destruct (same_tree_lookup _ _ q n T Hq) as (n' & Hq' & En). destruct (block_ok q) eqn:Eb.
  - assert (sound m q) as Hs.
    { apply (sound_next w cs m q n); try done. intros Hb. by apply Hg, (bad_anc _ p q). }
    change (cs_index (with_effects (with_index cs m) x)) with m. change (cs_active (with_effects (with_index cs m) x)) with (cs_active cs).
    rewrite (SetTip_spec m (same_tree_index _ m T (to_index _ HT)) _ q n' (same_tree_chain _ m _ T (iv_chain _ _ HI)) Hq').
    eexists. split; [done|]. split; [by apply chain_inv_connected|]. by split; [apply Tip_branch|].
  - assert (CChain_Tip (cs_active cs) <> None) as Hnt.
    { intros E. rewrite E in Eq. rewrite (iv_root _ _ HI q n Hq Eq) in Eb. done. }
    rewrite Eq in Hmx. pose proof (chain_inv_effects w cs m x HI T HF Hmx) as HI'.
    destruct (InvalidBlockFound_spec w (with_effects (with_index cs m) x) q n' HI' Hq' Eb Hnt) as (cs' & -> & A1 & A2 & A3 & A4 & A5 & A6).
    cbn [mbind option_bind]. exists cs'. split_and!; try done; [|intros Hf; apply Hg; by exists q].
    eapply marks_trans; [|exact A3]. split; [done|intros y; by apply HF|intros y Hy; left; by apply HF].
Qed.

(** ** Connecting the blocks up to the target *)

(** A list of blocks each on top of the one before, starting on [t]. *)
Fixpoint path (m : BlockMap) (t : option uint256) (l : list uint256) : Prop :=
  match l with
  | [] => True
  | q :: l => (exists n, m !! q = Some n /\ bi_pprev n = t) /\ path m (Some q) l
  end.

Lemma path_same m m' t l : same_tree m m' -> path m t l -> path m' t l.
Proof.
  intros T. revert t. induction l as [|q l IH]; intros t; [done|]. cbn [path]. intros [(n & Hq & E) Hl]. split; [|by apply IH].
  destruct (same_tree_lookup _ _ q n T Hq) as (n' & Hq' & En). exists n'. split; [done|].
  apply same_entry_fields in En as (-> & _). done.
Qed.

Definition heavier (m : BlockMap) (old : option uint256) (t : uint256) : Prop :=
  forall o no nt, old = Some o -> m !! o = Some no -> m !! t = Some nt -> uval (bi_nChainWork no) < uval (bi_nChainWork nt).

(** What a batch, a sequence of batches or a step of the activation achieves. *)
Record progress (cs cs' : chainstate X) (p : uint256) (old : option uint256) (r : batch_result) : Prop := {
  pr_inv : exists w, chain_inv w cs';
  pr_marks : marks refused (cs_index cs) (cs_index cs');
  pr_sub : cs_candidates cs' ⊆ cs_candidates cs;
  pr_unlinked : cs_unlinked cs' = cs_unlinked cs;
  pr_result :
    match r with
    | BatchDone => target cs' p /\ (forall q, failed_in (cs_index cs') q -> failed_in (cs_index cs) q)
    | BatchBetter => target cs' p /\ (forall q, failed_in (cs_index cs') q -> failed_in (cs_index cs) q) /\
        exists t, CChain_Tip (cs_active cs') = Some t /\ heavier (cs_index cs') old t
    | BatchInvalid => CChain_Tip (cs_active cs') <> None /\ exists q, failed_in (cs_index cs') q /\ ~ failed_in (cs_index cs) q
    | BatchError => False
    end
}.

Lemma progress_trans cs cs1 cs' p old r :
  marks refused (cs_index cs) (cs_index cs1) -> (forall q, failed_in (cs_index cs1) q -> failed_in (cs_index cs) q) ->
  cs_candidates cs1 ⊆ cs_candidates cs -> cs_unlinked cs1 = cs_unlinked cs -> progress cs1 cs' p old r -> progress cs cs' p old r.
Proof.
  intros M HF HC HU [A1 A2 A3 AU A4]. split; [done|by eapply marks_trans|set_solver|congruence|]. destruct r; [| | |done].
  - destruct A4 as [B1 B2]. split; [done|]. intros q Hq. by apply HF, B2.
  - destruct A4 as (B1 & B2 & B3). split_and!; [done| |done]. intros q Hq. by apply HF, B2.
  - destruct A4 as [B1 (q & B2 & B3)]. split; [done|]. exists q. split; [done|]. intros Hf. apply B3. by apply (mk_kept _ _ _ M).
Qed.

Lemma more_work_spec m p np q nq :
  works m -> m !! p = Some np -> m !! q = Some nq ->
  more_work m p q = Some (uval (bi_nChainWork nq) <? uval (bi_nChainWork np)).
Proof.
  intros Hw Hp Hq. unfold more_work. rewrite Hp, Hq. cbn [mbind option_bind].
  destruct (Hw p np Hp) as [? ?], (Hw q nq Hq) as [? ?]. rewrite CompareTo_spec by congruence. unfold compare_sign.
  f_equal. destruct (Z.compare_spec (uval (bi_nChainWork np)) (uval (bi_nChainWork nq))); zbool; lia.
Qed.

Lemma InvalidChainFound_spec w cs p n :
  chain_inv w cs -> cs_index cs !! p = Some n -> CChain_Tip (cs_active cs) <> None ->
  exists b, InvalidChainFound cs p = Some (with_best_invalid cs b) /\ chain_inv w (with_best_invalid cs b).
Proof.
  intros HI Hp Ht. destruct (update_best_invalid_spec cs p n (iv_best _ _ HI) Hp) as (b & Hu & Hb). exists b. split.
  - unfold InvalidChainFound. rewrite Hu. cbn [mbind option_bind]. change (cs_active (with_best_invalid cs b)) with (cs_active cs).
    by destruct (CChain_Tip (cs_active cs)).
  - destruct HI. by split.
Qed.

(** One connected block of a batch: the tip is the block, the target still is one,
    and the node is in a better position or goes on. *)
Lemma connected_spec w cs p np q old :
  chain_inv w cs -> target cs p -> cs_index cs !! p = Some np -> anc (cs_index cs) p q -> CChain_Tip (cs_active cs) = Some q ->
  (forall o, old = Some o -> is_Some (cs_index cs !! o)) ->
  exists s w' b, PruneBlockIndexCandidates addr cs = Some (with_candidates cs s) /\ chain_inv w' (with_candidates cs s) /\
    target (with_candidates cs s) p /\ s ⊆ cs_candidates cs /\
    match old with
    | None => Some true
    | Some o => tip ← CChain_Tip (cs_active cs); more_work (cs_index cs) tip o
    end = Some b /\ (b = true -> heavier (cs_index cs) old q).
Proof.
  intros HI [Hc Hg] Hp Ha Ht Hold. pose proof (iv_tree _ _ HI) as HT.
  destruct (Prune_spec w cs q p np HI Ht Hc Hp Ha) as (s & w' & H1 & H2 & H3 & H4).
  assert (exists b, match old with None => Some true | Some o => tip ← CChain_Tip (cs_active cs); more_work (cs_index cs) tip o end = Some b
          /\ (b = true -> heavier (cs_index cs) old q)) as (b & E & Hb).
  { destruct old as [o|]; [|exists true; split; [done|]; by intros _ ? ? ? [=]].
    destruct (Hold o eq_refl) as [no Ho]. destruct (sd_entry _ _ (iv_tip _ _ HI q Ht)) as (nq & Hq & _).
    rewrite Ht. cbn [mbind option_bind]. rewrite (more_work_spec _ q nq o no (to_works _ HT) Hq Ho). eexists. split; [done|].
    intros Hl ? ? ? [= <-] ? ?. simplify_eq. zbool. done. }
  exists s, w', b. split_and!; try done.
Qed.

Lemma connect_batch_spec l : forall w cs p old pblock back nb,
  chain_inv w cs -> target cs p -> path (cs_index cs) (CChain_Tip (cs_active cs)) l -> Forall (anc (cs_index cs) p) l ->
  cs_index cs !! back = Some nb -> (forall o, old = Some o -> is_Some (cs_index cs !! o)) ->
  (forall b, pblock = Some b -> given_ok p b) ->
  exists cs' r, connect_batch addr cs old p pblock back l = Some (cs', r) /\ progress cs cs' p old r /\
    (r = BatchDone -> CChain_Tip (cs_active cs') = from_option Some (CChain_Tip (cs_active cs)) (last l)).
Proof.
  induction l as [|q l IH]; intros w cs p old pblock back nb HI HT Hpath Hanc Hback Hold Hgiven.
  { exists cs, BatchDone. split; [done|]. split; [|done]. split; [by exists w|apply marks_refl|done..]. }
  apply Forall_cons in Hanc as [Ha Hanc]. destruct Hpath as [(n & Hq & Eq) Hpath]. cbn [connect_batch].
  destruct (iv_candidates _ _ HI p (tg_candidate _ _ HT)) as (np & Hp & _).
  set (pb := if bool_decide (q = p) then pblock else None).
  assert (forall b, pb = Some b -> given_ok q b) as Hpb.
  { intros b Hb. unfold pb in Hb. destruct (bool_decide_reflect (q = p)) as [->|]; [by apply Hgiven|done]. }
  pose proof (ConnectTip_spec w cs p q n pb HI HT Ha Hq Eq Hpb) as HC. destruct (block_ok q).
  - destruct HC as (cs1 & -> & HI1 & Ht1 & T1 & HF1 & C1 & U1). cbn [mbind option_bind].
    assert (target cs1 p) as HT1 by (destruct HT as [Hc Hg]; split; [by rewrite C1|by rewrite (bad_iff _ _ p T1 HF1)]).
    assert (forall x, is_Some (cs_index cs !! x) -> is_Some (cs_index cs1 !! x)) as Hdom.
    { intros x [nx Hx]. destruct (same_tree_lookup _ _ x nx T1 Hx) as (n' & Hn' & _). by eexists. }
    assert (marks refused (cs_index cs) (cs_index cs1)) as M1 by (split; [done|intros x; by apply HF1|intros x Hx; left; by apply HF1]).
    destruct (same_tree_lookup _ _ p np T1 Hp) as (np1 & Hp1 & _). destruct (same_tree_lookup _ _ back nb T1 Hback) as (nb1 & Hback1 & _).
    destruct (connected_spec w cs1 p np1 q old HI1 HT1 Hp1) as (s & w' & b & -> & HI2 & HT2 & C2 & E & Hb);
      [by apply (anc_same _ _ p q T1)|done|intros o Ho; by apply Hdom, Hold|].
    cbn [mbind option_bind]. change (cs_active (with_candidates cs1 s)) with (cs_active cs1).
    change (cs_index (with_candidates cs1 s)) with (cs_index cs1). rewrite E. cbn [mbind option_bind]. destruct b.
    + eexists _, BatchBetter. split; [done|]. split; [|done]. split; [by exists w'|done|cbn; set_solver|done|].
      split_and!; [done|intros x; by apply HF1|]. exists q. split; [done|]. by apply Hb.
    + destruct (IH w' (with_candidates cs1 s) p old pblock back nb1) as (cs' & r & -> & HP & Hlast); try done.
      * change (path (cs_index cs1) (CChain_Tip (cs_active cs1)) l). rewrite Ht1. by apply (path_same (cs_index cs)).
      * eapply Forall_impl; [exact Hanc|]. intros x Hx. by apply (anc_same _ _ p x T1).
      * intros o Ho. by apply Hdom, Hold.
      * exists cs', r. split; [done|]. split.
        -- apply (progress_trans cs (with_candidates cs1 s)); try done; [intros x; by apply HF1|cbn; set_solver].
        -- intros Hr. rewrite (Hlast Hr). change (cs_active (with_candidates cs1 s)) with (cs_active cs1). rewrite Ht1.
           rewrite last_cons. by destruct (last l).
  - destruct HC as (cs1 & -> & HI1 & EA & Hnt & M1 & Hf1 & Hnf & C1 & U1). cbn [mbind option_bind].
    destruct (same_tree_lookup _ _ back nb (mk_tree _ _ _ M1) Hback) as (nb1 & Hback1 & _).
    destruct (InvalidChainFound_spec w cs1 back nb1 HI1 Hback1) as (b & -> & HI2); [by rewrite EA|]. cbn [mbind option_bind].
    eexists _, BatchInvalid. split; [done|]. split; [|done]. split; [by exists w|done..|]. split; [by rewrite <- EA in Hnt|by exists q].
Qed.

(** The block (or null) at height [h] below [x]. *)
Definition stands_at (m : BlockMap) (x : uint256) (t : option uint256) (h : Z) : Prop :=
  match t with
  | None => h = -1
  | Some f => exists nf, m !! f = Some nf /\ bi_nHeight nf = h /\ anc m x f
  end.

Lemma path_snoc m t l x n :
  path m t l -> m !! x = Some n -> bi_pprev n = from_option Some t (last l) -> path m t (l ++ [x]).
Proof.
  revert t. induction l as [|q l IH]; intros t; cbn [path app].
  - intros _ Hx E. split; [by exists n|done].
  - intros [Hq Hl] Hx E. split; [done|]. apply IH; [done..|]. rewrite E, last_cons. by destruct (last l).
Qed.

Lemma to_connect_spec m t h k : index_ok m -> forall fuel x nx,
  m !! x = Some nx -> bi_nHeight nx = h + Z.of_nat k -> (k < fuel)%nat -> stands_at m x t h ->
  exists l, to_connect fuel m (Some x) h = Some l /\ path m t (rev l) /\ Forall (anc m x) (rev l) /\
    from_option Some t (last (rev l)) = Some x /\ length l = k.
Proof.
  intros Hok. induction k as [|k IH]; intros [|fuel] x nx Hx Hh Hf Ht; try lia; cbn [to_connect]; rewrite Hx; cbn [mbind option_bind];
    pose proof (height_nonneg m Hok x nx Hx).
  { rewrite (proj2 (Z.eqb_eq _ _)) by lia. exists []. split_and!; [done..|constructor| |done]. cbn.
    destruct t as [f|]; cbn in Ht; [|lia]. destruct Ht as (nf & Hnf & Enf & Ha). f_equal.
    apply (anc_height m x nx f nf); (done || lia). }
  rewrite (proj2 (Z.eqb_neq _ _)) by lia. destruct (bi_pprev nx) as [y|] eqn:Ey.
  - destruct (parent_ok m Hok x nx y Hx Ey) as (ny & Hy & Eh).
    assert (stands_at m y t h) as Hty.
    { destruct t as [f|]; [|done]. destruct Ht as (nf & Hnf & Enf & Ha). exists nf. split_and!; [done..|].
      destruct (anc_inv m x nx f Hx Ha) as [->|(y' & Ey' & Hy')]; simplify_eq; [lia|done]. }
    destruct (IH fuel y ny Hy ltac:(lia) ltac:(lia) Hty) as (l & -> & H1 & H2 & H3 & H4). cbn [mbind option_bind].
    exists (x :: l). cbn [rev]. split_and!; [done| | | |cbn; lia].
    + apply (path_snoc m t (rev l) x nx); congruence.
    + apply Forall_app. split; [|by constructor; [apply anc_refl|]]. eapply Forall_impl; [exact H2|].
      intros z Hz. by apply (anc_step m x nx y).
    + by rewrite last_snoc.
  - assert (bi_nHeight nx = 0) as E0 by (by apply (root_height m Hok x nx)).
    destruct t as [f|]; cbn in Ht.
    { destruct Ht as (nf & Hnf & Enf & Ha). pose proof (height_nonneg m Hok f nf Hnf). lia. }
    assert (to_connect fuel m None h = Some []) as -> by (by destruct fuel). cbn [mbind option_bind]. exists [x].
    split_and!; [done| |constructor; [apply anc_refl|done]|done|cbn; lia]. cbn. split; [by exists nx|done].
Qed.

Lemma connect_batches_spec fuel : forall w cs p np old pblock h,
  chain_inv w cs -> target cs p -> cs_index cs !! p = Some np -> stands_at (cs_index cs) p (CChain_Tip (cs_active cs)) h ->
  -1 <= h <= bi_nHeight np -> bi_nHeight np - h <= Z.of_nat fuel ->
  (forall o, old = Some o -> is_Some (cs_index cs !! o)) -> (forall b, pblock = Some b -> given_ok p b) ->
  exists cs' r, connect_batches addr fuel cs old p pblock h = Some (cs', r) /\ progress cs cs' p old r /\
    (r = BatchDone -> CChain_Tip (cs_active cs') = Some p).
Proof.
  induction fuel as [|fuel IH]; intros w cs p np old pblock h HI HT Hp Ht Hh Hf Hold Hgiven;
    pose proof (to_index _ (iv_tree _ _ HI)) as Hok; cbn [connect_batches]; rewrite Hp; cbn [mbind option_bind];
    pose proof (height_nonneg _ Hok p np Hp);
    destruct (Z.eqb_spec h (bi_nHeight np)) as [E|E]; try lia.
  1, 2: exists cs, BatchDone; split; [done|]; (split; [split; [by exists w|apply marks_refl|done..]|]); intros _;
    destruct (CChain_Tip (cs_active cs)) as [f|]; cbn in Ht; [|lia]; destruct Ht as (nf & Hnf & Enf & Ha); f_equal;
    apply (anc_height _ p np f nf Hok); (done || lia).
  set (h' := Z.min (h + 32) (bi_nHeight np)).
  rewrite (GetAncestor_spec _ Hok p np h' Hp), (proj2 (Z.leb_le 0 h')), (proj2 (Z.leb_le h' _)) by lia. cbn [andb mbind option_bind].
  destruct (ancestor_height _ Hok (Z.to_nat (bi_nHeight np - h')) p np Hp ltac:(lia)) as (x & nx & Hax & Hx & Ehx).
  rewrite Hax. assert (anc (cs_index cs) p x) as Hpx by (by eexists).
  assert (stands_at (cs_index cs) x (CChain_Tip (cs_active cs)) h) as Htx.
  { destruct (CChain_Tip (cs_active cs)) as [f|]; [|done]. destruct Ht as (nf & Hnf & Enf & Ha). exists nf. split_and!; [done..|].
    apply (anc_linear _ p np x nx f nf); (done || lia). }
  destruct (to_connect_spec _ _ h (Z.to_nat (h' - h)) Hok 33 x nx Hx ltac:(lia) ltac:(lia) Htx) as (l & -> & H1 & H2 & H3 & H4).
  cbn [mbind option_bind]. destruct (last l) as [back|] eqn:El.
  2: { apply last_None in El. subst l. cbn in H4. lia. }
  assert (is_Some (cs_index cs !! back)) as [nb Hb].
  { apply last_Some_elem_of in El. rewrite Forall_forall in H2. destruct (H2 back) as [k Hk].
    { apply list_elem_of_In, in_rev. rewrite rev_involutive. by apply list_elem_of_In. }
    destruct (ancestor_inv _ Hok k x nx back Hx Hk) as (nb & ? & _). by eexists. }
  destruct (connect_batch_spec (rev l) w cs p old pblock back nb HI HT H1) as (cs1 & r & -> & HP & Hdone); try done.
  { eapply Forall_impl; [exact H2|]. intros z Hz. by eapply anc_trans. }
  cbn [mbind option_bind]. rewrite H3 in Hdone. destruct r;
    [|by exists cs1, BatchBetter|by exists cs1, BatchInvalid|by destruct (pr_result _ _ _ _ _ HP)].
  destruct HP as [[w1 HI1] M1 C1 U1 [HT1 HF1]]. specialize (Hdone eq_refl). pose proof (mk_tree _ _ _ M1) as T1.
  destruct (same_tree_lookup _ _ p np T1 Hp) as (np1 & Hp1 & Ep1). destruct (same_tree_lookup _ _ x nx T1 Hx) as (nx1 & Hx1 & Ex1).
  apply same_entry_fields in Ep1 as (_ & _ & Eh1 & _). apply same_entry_fields in Ex1 as (_ & _ & Ehx1 & _).
  destruct (IH w1 cs1 p np1 old pblock h' HI1 HT1 Hp1) as (cs' & r & -> & HP' & Hd').
  - rewrite Hdone. exists nx1. split_and!; [done|lia|by apply (anc_same _ _ p x T1)].
  - lia.
  - lia.
  - intros o Ho. destruct (Hold o Ho) as [no Hno]. destruct (same_tree_lookup _ _ o no T1 Hno) as (n' & ? & _). by eexists.
  - done.
  - exists cs', r. split; [done|]. split; [by apply (progress_trans cs cs1)|done].
Qed.

(** ** One step of the activation *)

Lemma ActivateBestChainStep_spec w cs p np pblock :
  chain_inv w cs -> target cs p -> cs_index cs !! p = Some np -> (forall b, pblock = Some b -> given_ok p b) ->
  exists cs' r, ActivateBestChainStep addr cs p pblock = Some (cs', r) /\ progress cs cs' p (CChain_Tip (cs_active cs)) r /\
    (r = BatchDone -> CChain_Tip (cs_active cs') = Some p).
Proof.
  intros HI HT Hp Hgiven. unfold ActivateBestChainStep. pose proof (iv_tree _ _ HI) as Htree.
  pose proof (to_index _ Htree) as Hok. pose proof (height_nonneg _ Hok p np Hp).
  destruct (fork_spec _ _ p np Htree (iv_chain _ _ HI) Hp) as (r & -> & Hr). cbn [mbind option_bind].
  assert (exists cs1 h, disconnect_to (length (cs_active cs)) cs r = Some (cs1, true) /\ chain_inv w cs1 /\ moved cs cs1 /\
    match r with None => Some (-1) | Some f => n ← cs_index cs1 !! f; Some (bi_nHeight n) end = Some h /\
    stands_at (cs_index cs1) p (CChain_Tip (cs_active cs1)) h /\ -1 <= h <= bi_nHeight np)
    as (cs1 & h & -> & HI1 & Hmv & Eh & Hst & Hh).
  { destruct r as [f|].
    - destruct Hr as (t & Ht & Htf & Hpf). pose proof (chain_inv_tip w cs HI) as Hc. rewrite Ht in Hc.
      destruct Hc as (nt & Hnt & Ec). destruct (anc_in _ p np f Hok Hp Hpf) as (nf & Hnf & Hle).
      pose proof (height_nonneg _ Hok t nt Hnt). pose proof (height_nonneg _ Hok f nf Hnf).
      destruct (disconnect_to_spec w (length (cs_active cs)) cs t nt f HI Ht Hnt Htf) as (cs1 & E & HI1 & Ht1 & Hmv).
      { rewrite Ec, length_branch. lia. }
      assert (cs_index cs1 = cs_index cs) as Ei by (by rewrite Hmv). exists cs1, (bi_nHeight nf). rewrite Ei, Hnf, Ht1.
      split_and!; try done; try lia. by exists nf.
    - assert (CChain_Tip (cs_active cs) = None) as Et by (by rewrite Hr). exists cs, (-1). rewrite Et.
      split_and!; try done; try lia; [|by destruct cs]. destruct (length _); cbn [disconnect_to]; by rewrite Et. }
  cbn [mbind option_bind negb]. rewrite Eh. cbn [mbind option_bind].
  assert (cs_index cs1 = cs_index cs) as Ei by (by rewrite Hmv). assert (cs_candidates cs1 = cs_candidates cs) as Ec by (by rewrite Hmv).
  rewrite Ei, Hp. cbn [mbind option_bind].
  destruct (connect_batches_spec (S (Z.to_nat (bi_nHeight np))) w cs1 p np (CChain_Tip (cs_active cs)) pblock h) as (cs' & r' & -> & HP & Hd);
    try done; try lia.
  - destruct HT. split; by rewrite ?Ec, ?Ei.
  - by rewrite Ei.
  - intros o Ho. rewrite Ei. destruct (sd_entry _ _ (iv_tip _ _ HI o Ho)) as (no & ? & _). by eexists.
  - exists cs', r'. split; [done|]. split; [|done]. destruct HP as [A1 A2 A3 AU A4]. rewrite Ei in A2, A4. rewrite Ec in A3.
    assert (cs_unlinked cs1 = cs_unlinked cs) as Eu by (by rewrite Hmv). rewrite Eu in AU. by split.
Qed.

(** ** The measure of the activation *)

Definition entries (f : CBlockIndex -> bool) (m : BlockMap) : gset (list byte) :=
  filter (fun p => match m !! p with Some n => f n | None => false end = true) (dom m).

Lemma elem_of_entries f m p : p ∈ entries f m <-> exists n, m !! p = Some n /\ f n = true.
Proof.
  unfold entries. rewrite elem_of_filter, elem_of_dom. split.
  - intros [E [n Hn]]. rewrite Hn in E. by exists n.
  - intros (n & Hn & E). rewrite Hn. split; [done|by eexists].
Qed.

Lemma size_entries f m : (size (entries f m) <= size m)%nat.
Proof. rewrite <- size_dom. apply subseteq_size. intros p. rewrite elem_of_entries, elem_of_dom. intros (n & Hn & _). by eexists. Qed.

(** The entries not marked failed, and those with more work than the tip. *)
Definition unfailed (m : BlockMap) : gset (list byte) := entries (fun n => negb (failed n)) m.
Definition tip_work (m : BlockMap) (t : option uint256) : Z :=
  from_option (fun p => from_option (fun n => uval (bi_nChainWork n)) (-1) (m !! p)) (-1) t.
Definition ahead (m : BlockMap) (t : option uint256) : gset (list byte) :=
  entries (fun n => tip_work m t <? uval (bi_nChainWork n)) m.

Lemma elem_of_unfailed m p : p ∈ unfailed m <-> is_Some (m !! p) /\ ~ failed_in m p.
Proof.
  unfold unfailed. rewrite elem_of_entries. split.
  - intros (n & Hn & E%negb_true_iff). split; [by eexists|]. intros (n' & Hn' & E'). simplify_eq. congruence.
  - intros [[n Hn] Hf]. exists n. split; [done|]. apply negb_true_iff, not_true_iff_false. intros E. apply Hf. by exists n.
Qed.

Lemma unfailed_marks P m m' : marks P m m' -> unfailed m' ⊆ unfailed m.
Proof.
  intros [T HK _] p. rewrite !elem_of_unfailed. intros [[n' Hn'] Hf]. split.
  - destruct (same_tree_lookup_r _ _ p n' T Hn') as (n & Hn & _). by eexists.
  - intros H'. by apply Hf, HK.
Qed.

Lemma tip_work_same m m' t : same_tree m m' -> tip_work m' t = tip_work m t.
Proof.
  intros T. destruct t as [p|]; [|done]. cbn. specialize (T p). destruct (m !! p) as [n|], (m' !! p) as [n'|]; try done.
  cbn. by apply same_entry_fields in T as (_ & _ & _ & -> & _).
Qed.

Lemma ahead_same m m' t : same_tree m m' -> ahead m' t = ahead m t.
Proof.
  intros T. apply leibniz_equiv. intros p. unfold ahead. rewrite !elem_of_entries, (tip_work_same m m' t T). split.
  - intros (n' & Hn' & E). destruct (same_tree_lookup_r _ _ p n' T Hn') as (n & Hn & S). exists n. split; [done|].
    by apply same_entry_fields in S as (_ & _ & _ & <- & _).
  - intros (n & Hn & E). destruct (same_tree_lookup _ _ p n T Hn) as (n' & Hn' & S). exists n'. split; [done|].
    by apply same_entry_fields in S as (_ & _ & _ & -> & _).
Qed.

(** A tip with more work leaves fewer entries ahead. *)
Lemma ahead_better m old t nt :
  works m -> (forall o, old = Some o -> is_Some (m !! o)) -> m !! t = Some nt -> heavier m old t -> ahead m (Some t) ⊂ ahead m old.
Proof.
  intros Hw Hold Ht Hh. assert (tip_work m (Some t) = uval (bi_nChainWork nt)) as Et by (cbn; by rewrite Ht).
  assert (tip_work m old < uval (bi_nChainWork nt)) as Hlt.
  { destruct old as [o|].
    - destruct (Hold o eq_refl) as [no Ho]. cbn. rewrite Ho. cbn. by apply (Hh o no nt).
    - cbn. pose proof (wf256_range _ (Hw t nt Ht)). lia. }
  unfold ahead. split.
  - intros p. rewrite !elem_of_entries, Et. intros (n & Hn & E). exists n. split; [done|]. zbool. lia.
  - intros Hs. assert (t ∈ entries (fun n => tip_work m (Some t) <? uval (bi_nChainWork n)) m) as Hin.
    { apply Hs, elem_of_entries. exists nt. split; [done|]. zbool. lia. }
    apply elem_of_entries in Hin as (n & Hn & E). simplify_eq. zbool. lia.
Qed.

(** ** The activation *)

(** The block is behind a failure, or behind a block the rules refuse. *)
Definition explained (m : BlockMap) (q : uint256) : Prop := bad m q \/ exists x, anc m q x /\ refused x.

Lemma explained_anc m p q : anc m p q -> explained m q -> explained m p.
Proof.
  intros Ha [Hb|(x & Hx & Hr)]; [left; by apply (bad_anc m p q)|right]. exists x. split; [by eapply anc_trans|done].
Qed.

Lemma explained_marks m m' q : marks (explained m) m m' -> explained m' q -> explained m q.
Proof.
  intros [T HK HN] [(x & Hx & Hf)|(x & Hx & Hr)]; apply (anc_same m m' q x T) in Hx.
  - destruct (HN x Hf) as [Hf'|He]; [left; by exists x|]. by apply (explained_anc m q x).
  - right. by exists x.
Qed.

Lemma marks_explained P a b c :
  marks (explained a) a b -> (forall q, P q -> explained b q) -> marks P b c -> marks (explained a) a c.
Proof.
  intros M HP M'. eapply marks_trans; [exact M|]. eapply marks_impl; [|exact M']. intros q Hq. by apply (explained_marks a b), HP.
Qed.

Record activated (cs cs' : chainstate X) : Prop := {
  ac_inv : chain_inv (CChain_Tip (cs_active cs')) cs';
  ac_marks : marks (explained (cs_index cs)) (cs_index cs) (cs_index cs');
  ac_unlinked : cs_unlinked cs' = cs_unlinked cs;
  ac_best : forall p n, cs_index cs' !! p = Some n -> bi_nChainTx n <> 0 -> ~ bad (cs_index cs') p ->
    exists t, CChain_Tip (cs_active cs') = Some t /\ at_most addr (cs_index cs') p t
}.

Lemma activated_trans cs cs1 cs' :
  marks (explained (cs_index cs)) (cs_index cs) (cs_index cs1) -> cs_unlinked cs1 = cs_unlinked cs ->
  activated cs1 cs' -> activated cs cs'.
Proof. intros M U [A1 A2 A3 A4]. split; [done|by eapply marks_explained|congruence|done]. Qed.

(** The tip is the best candidate, or there is no candidate: the tip is the best of
    all blocks the node could switch to. *)
Lemma activated_done w cs :
  chain_inv w cs ->
  (cs_candidates cs = ∅ \/ exists p, CChain_Tip (cs_active cs) = Some p /\ forall q, q ∈ cs_candidates cs -> at_most addr (cs_index cs) q p) ->
  activated cs cs.
Proof.
  intros HI Hend. assert (forall p n, cs_index cs !! p = Some n -> bi_nChainTx n <> 0 -> ~ bad (cs_index cs) p ->
    exists t, CChain_Tip (cs_active cs) = Some t /\ at_most addr (cs_index cs) p t) as Hbest.
  { assert (forall v, w = Some v -> v ∈ cs_candidates cs) as Hw.
    { intros v Ev. destruct (iv_mark _ _ HI v Ev) as [(nv & Hv & Htx) Hg _].
      destruct (iv_complete _ _ HI v nv Hv Htx Hg) as [|(t & Et & Hl)]; [done|]. assert (t = v) as -> by congruence.
      by destruct (less_irrefl addr _ v Hl). }
    intros p n Hp Htx Hg. destruct Hend as [He|(t & Ht & Hmax)].
    - destruct (iv_complete _ _ HI p n Hp Htx Hg) as [Hc|(v & Ev & _)]; [set_solver|]. specialize (Hw v Ev). set_solver.
    - exists t. split; [done|]. destruct (iv_complete _ _ HI p n Hp Htx Hg) as [Hc|(v & Ev & Hl)]; [by apply Hmax|].
      right. apply (less_at_most addr _ p v t Hl), Hmax, Hw, Ev. }
  split; [|apply marks_refl|done..]. pose proof HI as [H1 H2 H3 H4 H5 H5' H6 H7 H8 H9]. split; try done.
  intros p n Hp Htx Hg. destruct (Hbest p n Hp Htx Hg) as (t & Ht & [->|Hl]); [|right; by exists t].
  destruct (H9 t n Hp Htx Hg) as [|(v & Ev & Hl)]; [by left|]. destruct (H8 v Ev) as [(nv & Hv & Htxv) Hgv _].
  destruct (Hbest v nv Hv Htxv Hgv) as (t' & Et' & Hle). assert (t' = t) as -> by congruence.
  by destruct (less_irrefl addr (cs_index cs) t (less_at_most addr _ t v t Hl Hle)).
Qed.

(** A target that no candidate beats. *)
Definition best_target (cs : chainstate X) (mw : option uint256) : Prop :=
  forall p, mw = Some p -> target cs p /\ forall q, q ∈ cs_candidates cs -> at_most addr (cs_index cs) q p.

(** Getting a target, from the last round or by a search. *)
Lemma choose_target w cs mw :
  chain_inv w cs -> best_target cs mw ->
  exists cs1 r, match mw with None => FindMostWorkChain addr cs | Some p => Some (cs, Some p) end = Some (cs1, r) /\
    chain_inv w cs1 /\ best_target cs1 r /\ (r = None -> cs_candidates cs1 = ∅) /\ cs_active cs1 = cs_active cs /\
    marks (explained (cs_index cs)) (cs_index cs) (cs_index cs1) /\ cs_unlinked cs1 = cs_unlinked cs.
Proof.
  intros HI Hbt. destruct mw as [p|].
  { exists cs, (Some p). split_and!; try done. apply marks_refl. }
  destruct (FindMostWorkChain_spec addr Haddr cs (chain_inv_search _ _ HI)) as (cs1 & r & -> & HS).
  exists cs1, r. pose proof (chain_inv_found w cs cs1 r HI HS) as HI1. destruct HS as [A1 A2 A3 A4 AU A5 A6].
  split; [done|]. split; [done|]. split; [|split; [by intros ->|]].
  - intros p ->. destruct A6 as (B1 & B2 & B3). split; [|intros q Hq; by apply (at_most_same addr _ _ q p (mk_tree _ _ _ A1)), B3].
    split; [done|]. intros Hb. apply (bad_back (condemned (cs_index cs) (cs_active cs)) (cs_index cs) (cs_index cs1)) in Hb as (x & Hx & Hf); [|by intros q []|done].
    destruct Hf as (nx & Hnx & Hf). destruct (Contains_spec _ (cs_active cs) x nx (to_index _ (iv_tree _ _ HI)) (iv_chain _ _ HI) Hnx) as ([] & _ & Eb).
    + destruct (proj1 Eb eq_refl) as (t & Ht & Hat). apply (sd_good _ _ (iv_tip _ _ HI t Ht)). exists x. split; [done|by exists nx].
    + destruct (B2 x nx Hx Hnx) as [E _]; [intros Hin; by apply Eb in Hin|congruence].
  - split; [apply (sr_active _ _ A2)|]. split; [|exact (AU (to_data _ (iv_tree _ _ HI)))].
    eapply marks_impl; [|exact A1]. intros q [Hb _]. by left.
Qed.

Definition measure (cs : chainstate X) : nat :=
  (size (unfailed (cs_index cs)) * S (size (cs_index cs)) + size (ahead (cs_index cs) (CChain_Tip (cs_active cs))))%nat.

Lemma size_same m m' : same_tree m m' -> size m' = size m.
Proof.
  intros T. rewrite <- !size_dom. f_equal. apply leibniz_equiv. intros p. rewrite !elem_of_dom. specialize (T p).
  destruct (m !! p), (m' !! p); (done || split; intros [? ?]; done).
Qed.

Lemma measure_search P (cs cs1 : chainstate X) :
  marks P (cs_index cs) (cs_index cs1) -> cs_active cs1 = cs_active cs -> (measure cs1 <= measure cs)%nat.
Proof.
  intros M E. unfold measure. rewrite E, (size_same _ _ (mk_tree _ _ _ M)), (ahead_same _ _ _ (mk_tree _ _ _ M)).
  pose proof (subseteq_size _ _ (unfailed_marks _ _ _ M)). nia.
Qed.

(** A step that does not reach the target makes the measure smaller. *)
Lemma measure_step w cs cs' p r :
  chain_inv w cs -> progress cs cs' p (CChain_Tip (cs_active cs)) r -> r <> BatchDone -> (measure cs' < measure cs)%nat.
Proof.
  intros HI [[w' HI'] M C _ HP] Hr. pose proof (mk_tree _ _ _ M) as T. unfold measure.
  pose proof (size_entries (fun n => tip_work (cs_index cs') (CChain_Tip (cs_active cs')) <? uval (bi_nChainWork n)) (cs_index cs')) as Hs.
  fold (ahead (cs_index cs') (CChain_Tip (cs_active cs'))) in Hs. rewrite (size_same _ _ T) in *.
  pose proof (subseteq_size _ _ (unfailed_marks _ _ _ M)). destruct r; [done| | |done].
  - destruct HP as (_ & _ & t & Ht & Hh). rewrite Ht in *. destruct (sd_entry _ _ (iv_tip _ _ HI' t Ht)) as (nt & Hnt & _).
    assert (ahead (cs_index cs') (Some t) ⊂ ahead (cs_index cs) (CChain_Tip (cs_active cs))) as Ha%subset_size; [|nia].
    rewrite <- (ahead_same _ _ _ T). apply (ahead_better _ _ t nt (to_works _ (iv_tree _ _ HI'))); try done.
    intros o Ho. destruct (sd_entry _ _ (iv_tip _ _ HI o Ho)) as (no & Hno & _).
    destruct (same_tree_lookup _ _ o no T Hno) as (n' & ? & _). by eexists.
  - destruct HP as (_ & q & Hq & Hnq).
    assert (unfailed (cs_index cs') ⊂ unfailed (cs_index cs)) as Ha%subset_size; [|nia].
    split; [by apply (unfailed_marks refused)|]. intros Hsub. pose proof Hq as (n' & Hn' & _).
    destruct (same_tree_lookup_r _ _ q n' T Hn') as (n & Hn & _).
    assert (q ∈ unfailed (cs_index cs')) as [_ Hf]%elem_of_unfailed; [|done]. apply Hsub, elem_of_unfailed. split; [by eexists|done].
Qed.

Lemma marks_refused m m' : marks refused m m' -> marks (explained m) m m'.
Proof. apply marks_impl. intros q Hq. right. exists q. split; [apply anc_refl|done]. Qed.

Lemma ActivateBestChain_loop_spec pblock fuel : forall w cs mw,
  (forall b, pblock = Some b -> given_ok (CBlockHeader_GetHash (block_header b)) b) ->
  chain_inv w cs -> best_target cs mw -> (measure cs < fuel)%nat ->
  exists cs', ActivateBestChain_loop addr fuel cs mw pblock = Some (cs', true) /\ activated cs cs'.
Proof.
  induction fuel as [|fuel IH]; intros w cs mw Hgiven HI Hbt Hf; [lia|]. cbn [ActivateBestChain_loop].
  destruct (choose_target w cs mw HI Hbt) as (cs1 & r & -> & HI1 & Hbt1 & Hnone & EA & M1 & U1). cbn [mbind option_bind].
  assert (measure cs1 <= measure cs)%nat as Hm1 by (by apply (measure_search (explained (cs_index cs)))).
  destruct r as [p|]; [|exists cs1; split; [done|]; apply (activated_trans cs cs1); [done..|apply (activated_done w); auto]].
  destruct (Hbt1 p eq_refl) as [HT Hmax]. destruct (bool_decide_reflect (Some p = CChain_Tip (cs_active cs1))) as [Et|Et].
  { exists cs1. split; [done|]. apply (activated_trans cs cs1); [done..|]. apply (activated_done w); [done|]. right. by exists p. }
  destruct (iv_candidates _ _ HI1 p (tg_candidate _ _ HT)) as (np & Hp & _).
  set (pb := b ← pblock; if bool_decide _ then Some b else None).
  assert (forall b, pb = Some b -> given_ok p b) as Hpb.
  { intros b Hb. unfold pb in Hb. destruct pblock as [b0|]; [|done]. cbn [mbind option_bind] in Hb.
    destruct (bool_decide_reflect (CBlockHeader_GetHash (block_header b0) = p)) as [<-|]; [|done]. injection Hb as <-. by apply Hgiven. }
  destruct (ActivateBestChainStep_spec w cs1 p np pb HI1 HT Hp Hpb) as (cs2 & r & -> & HP & Hdone). cbn [mbind option_bind].
  pose proof HP as [[w2 HI2] M2 C2 U2 R2]. pose proof (mk_tree _ _ _ M2) as T2.
  assert (marks (explained (cs_index cs)) (cs_index cs) (cs_index cs2)) as M
    by (eapply marks_explained; [exact M1|done|by apply marks_refused]).
  assert (forall q, q ∈ cs_candidates cs2 -> at_most addr (cs_index cs2) q p) as Hmax2.
  { intros q Hq. apply (at_most_same addr _ _ q p T2), Hmax. by apply C2. }
  destruct (decide (r = BatchDone)) as [->|Hr].
  { rewrite bool_decide_eq_true_2 by (by apply Hdone). exists cs2. split; [done|]. apply (activated_trans cs cs2 cs2 M); [congruence|].
    apply (activated_done w2); [done|]. right. exists p. split; [by apply Hdone|done]. }
  pose proof (measure_step w cs1 cs2 p r HI1 HP Hr) as Hm2. destruct r; [done| | |done].
  - destruct (bool_decide_reflect (CChain_Tip (cs_active cs2) = Some p)) as [E|E].
    { exists cs2. split; [done|]. apply (activated_trans cs cs2 cs2 M); [congruence|]. apply (activated_done w2); [done|]. right. by exists p. }
    destruct (IH w2 cs2 (Some p) Hgiven HI2) as (cs' & -> & HA); [|lia|].
    { intros ? [= <-]. split; [apply R2|done]. }
    exists cs'. split; [done|]. apply (activated_trans cs cs2); [done|congruence|done].
  - destruct R2 as [Hnt _]. destruct (CChain_Tip (cs_active cs2)); [|done].
    destruct (IH w2 cs2 None Hgiven HI2) as (cs' & -> & HA); [by intros ?|lia|].
    exists cs'. split; [done|]. apply (activated_trans cs cs2); [done|congruence|done].
Qed.

Lemma ActivateBestChain_spec w cs pblock :
  (forall b, pblock = Some b -> given_ok (CBlockHeader_GetHash (block_header b)) b) -> chain_inv w cs ->
  exists cs', ActivateBestChain addr cs pblock = Some (cs', true) /\ activated cs cs'.
Proof.
  intros Hgiven HI. apply (ActivateBestChain_loop_spec pblock _ w); [done..|by intros ?|]. unfold rounds, measure.
  pose proof (size_entries (fun n => negb (failed n)) (cs_index cs)). pose proof (size_entries (fun n => tip_work (cs_index cs) (CChain_Tip (cs_active cs)) <? uval (bi_nChainWork n)) (cs_index cs)).
  fold (unfailed (cs_index cs)) in *. fold (ahead (cs_index cs) (CChain_Tip (cs_active cs))) in *. nia.
Qed.

End activate.

(** * A block that is damaged on disk *)

(** [ConnectBlock] answers with [CorruptionPossible] for a block whose transactions no
    longer match its header. Nothing is marked then, and the search finds the block again:
    however many rounds are made, [ActivateBestChain] does not come to an end. *)
Section corruption.
Context (addr : uint256 -> Z) {X : Type} `{BlockEffects X}.
Context (cs : chainstate X) (t p : uint256) (nt n : CBlockIndex).
Context (HT : tree_ok (cs_index cs)) (Hc : chain_ok (cs_index cs) (cs_active cs)) (Ht : CChain_Tip (cs_active cs) = Some t)
  (Hnt : cs_index cs !! t = Some nt) (Hp : cs_index cs !! p = Some n) (Eq : bi_pprev n = Some t).
Context (Hfind : FindMostWorkChain addr cs = Some (cs, Some p))
  (Hbad : forall pblock, connect_block (cs_index cs) (cs_effects cs) p pblock = (cs_index cs, cs_effects cs, TipInvalid true)).

Lemma corrupt_height : bi_nHeight n = bi_nHeight nt + 1.
Proof using HT Hnt Hp Eq. destruct (parent_ok _ (to_index _ HT) p n t Hp Eq) as (n' & Hn' & E). by simplify_eq. Qed.

Lemma corrupt_fork : CChain_FindFork (cs_index cs) (cs_active cs) (Some p) = Some (Some t).
Proof using HT Hc Ht Hnt Hp Eq.
  pose proof (to_index _ HT) as Hok. pose proof corrupt_height as Eh.
  assert (CChain_Contains (cs_index cs) (cs_active cs) p = Some false) as Cp.
  { destruct (Contains_spec _ _ p n Hok Hc Hp) as (b & -> & Hb). destruct b; [|done]. destruct (proj1 Hb eq_refl) as (t' & Ht' & Ha).
    assert (t' = t) as -> by congruence. destruct (anc_in _ t nt p Hok Hnt Ha) as (n' & Hn' & Hle). simplify_eq. lia. }
  assert (CChain_Contains (cs_index cs) (cs_active cs) t = Some true) as Ct.
  { destruct (Contains_spec _ _ t nt Hok Hc Hnt) as (b & -> & Hb). f_equal. apply Hb. exists t. split; [done|apply anc_refl]. }
  assert (ancestor (cs_index cs) 1 p = Some t) as A1 by (cbn [ancestor]; rewrite Hp; cbn [mbind option_bind]; by rewrite Eq).
  destruct (FindFork_spec _ Hok (cs_active cs) p n Hp) as (r & -> & Hf). destruct r as [f|].
  - destruct Hf as (k & Hk & Cf & Hmin). destruct k as [|[|k]]; [injection Hk as <-; congruence|congruence|].
    specialize (Hmin 1%nat t ltac:(lia) A1). congruence.
  - specialize (Hf 1%nat t A1). congruence.
Qed.

Lemma corrupt_step pblock : ActivateBestChainStep addr cs p pblock = Some (cs, BatchInvalid).
Proof using HT Hc Ht Hnt Hp Eq Hbad.
  pose proof (to_index _ HT) as Hok. pose proof corrupt_height as Eh. pose proof (height_nonneg _ Hok t nt Hnt).
  unfold ActivateBestChainStep. rewrite corrupt_fork. cbn [mbind option_bind].
  assert (disconnect_to (length (cs_active cs)) cs (Some t) = Some (cs, true)) as ->
    by (destruct (length (cs_active cs)); cbn [disconnect_to]; rewrite Ht; by rewrite bool_decide_eq_true_2).
  cbn [mbind option_bind negb]. rewrite Hnt. cbn [mbind option_bind]. rewrite Hp. cbn [mbind option_bind connect_batches]. rewrite Hp.
  cbn [mbind option_bind]. rewrite (proj2 (Z.eqb_neq _ _)) by lia. rewrite Z.min_r by lia.
  rewrite (GetAncestor_spec _ Hok p n) by done. rewrite (proj2 (Z.leb_le 0 _)), Z.leb_refl by lia. cbn [andb]. rewrite Z.sub_diag.
  assert (to_connect 33 (cs_index cs) (Some p) (bi_nHeight nt) = Some [p]) as Etc.
  { change 33%nat with (S (S 31)). cbn [to_connect]. rewrite Hp. cbn [mbind option_bind]. rewrite (proj2 (Z.eqb_neq _ _)) by lia.
    rewrite Eq, Hnt. cbn [mbind option_bind]. by rewrite Z.eqb_refl. }
  change (ancestor (cs_index cs) (Z.to_nat 0) p) with (Some p). cbn [mbind option_bind]. rewrite Etc.
  cbn [mbind option_bind last rev app connect_batch]. unfold ConnectTip. rewrite Hp. cbn [mbind option_bind].
  rewrite Eq, Ht, bool_decide_eq_true_2 by done. cbn [negb]. rewrite Hbad. unfold InvalidBlockFound. cbn [mbind option_bind].
  clear Hfind. by destruct cs.
Qed.

Theorem corruption_never_ends fuel pblock : ActivateBestChain_loop addr fuel cs None pblock = None.
Proof using HT Hc Ht Hnt Hp Eq Hfind Hbad.
  induction fuel as [|fuel IH]; [done|]. cbn [ActivateBestChain_loop]. rewrite Hfind. cbn [mbind option_bind].
  pose proof corrupt_height as Eh. assert (p <> t) as Hne by (intros E; rewrite E in Hp; assert (n = nt) as En by congruence; rewrite En in Eh; lia).
  rewrite bool_decide_eq_false_2 by congruence. rewrite corrupt_step. cbn [mbind option_bind]. rewrite Ht. exact IH.
Qed.
End corruption.
