(* ===== verification/NewBlock.v ===== *)
(** * A new block (topchain/src/validation.cpp)

    [ReceivedBlockTransactions], [AcceptBlock] and [ProcessNewBlock]: from the bytes of
    a peer to the active chain. The node is the chain state, the best header and the
    caches of the deployments; writing the block to its file is the interface
    [BlockStore]. The theorems compose the acceptance of the header, the bookkeeping of
    blocks whose parents have not arrived, and the activation of the best chain. *)

From Stdlib Require Import Strings.String.
From S2P Require Import Prelude Serialize Sha256 Primitives ArithUint256 Chain MedianTime Versionbits Pow FlatFile Script Coins TxVerify BlockCheck Headers CheckTotal ChainState Activation.

#[local] Open Scope Z_scope.

(** ** The transactions of a block have arrived *)

(** [FindBlockPos] and [WriteBlockToDisk] as [AcceptBlock] calls them: the block is in its
    file, or its place is reserved but the write failed, or no place was found, or an
    exception was thrown. *)
Inductive store_result :=
  | Stored (pos : CDiskBlockPos)
  | Unwritten (pos : CDiskBlockPos)
  | NotStored
  | StoreThrew.

Class BlockStore (X : Type) := {
  store_block : X -> CBlock -> Z -> option CDiskBlockPos -> X * store_result
}.

(** The entry of a block whose data is at [pos]. *)
Definition set_received (nTx : Z) (pos : CDiskBlockPos) (witness : bool) (n : CBlockIndex) : CBlockIndex :=
  let nStatus := Z.lor (bi_nStatus n) BLOCK_HAVE_DATA in
  mkBlockIndex (bi_pprev n) (bi_pskip n) (bi_nHeight n) (dp_nFile pos) (dp_nPos pos) 0 (bi_nChainWork n)
    nTx 0 (if witness then Z.lor nStatus BLOCK_OPT_WITNESS else nStatus) (bi_nVersion n) (bi_hashMerkleRoot n)
    (bi_nTime n) (bi_nBits n) (bi_nNonce n) (bi_nSequenceId n) (bi_nTimeMax n).

Definition set_linked (nChainTx nSequenceId : Z) (n : CBlockIndex) : CBlockIndex :=
  mkBlockIndex (bi_pprev n) (bi_pskip n) (bi_nHeight n) (bi_nFile n) (bi_nDataPos n) (bi_nUndoPos n) (bi_nChainWork n)
    (bi_nTx n) nChainTx (bi_nStatus n) (bi_nVersion n) (bi_hashMerkleRoot n) (bi_nTime n) (bi_nBits n)
    (bi_nNonce n) nSequenceId (bi_nTimeMax n).

Section received.
Context (addr : uint256 -> Z) {X : Type}.

(** The blocks that waited for [p], and the others. *)
Definition waiting (p : uint256) (l : list (option uint256 * uint256)) : list uint256 :=
  (filter (fun e => e.1 = Some p) l).*2.
Definition not_waiting (p : uint256) (l : list (option uint256 * uint256)) : list (option uint256 * uint256) :=
  filter (fun e => e.1 <> Some p) l.

(** The block at the front of the queue joins the candidates; the increment of
    [nBlockSequenceId] past the largest [int32_t] is undefined. *)
Definition link_block (cs : chainstate X) (p : uint256) : option (chainstate X) :=
  n ← cs_index cs !! p;
  base ← match bi_pprev n with None => Some 0 | Some q => nq ← cs_index cs !! q; Some (bi_nChainTx nq) end;
  if cs_sequence cs =? 2 ^ 31 - 1 then None
  else
    let cs := with_index cs (<[p := set_linked (u32 (base + bi_nTx n)) (cs_sequence cs) n]> (cs_index cs)) in
    let cs := with_sequence cs (cs_sequence cs + 1) (cs_reverse_sequence cs) (cs_precious_work cs) in
    insert ← match CChain_Tip (cs_active cs) with
             | None => Some true
             | Some tip => w ← worse addr (cs_index cs) p tip; Some (negb w)
             end;
    Some (if insert : bool then with_candidates cs ({[p]} ∪ cs_candidates cs) else cs).

(** Each round takes a block from the queue; a block enters it by leaving [mapBlocksUnlinked]. *)
Fixpoint link_queue (fuel : nat) (cs : chainstate X) (queue : list uint256) : option (chainstate X) :=
  match queue with
  | [] => Some cs
  | p :: queue =>
      match fuel with
      | O => None
      | S fuel =>
          cs ← link_block cs p;
          link_queue fuel (with_unlinked cs (not_waiting p (cs_unlinked cs))) (queue ++ waiting p (cs_unlinked cs))
      end
  end.

(** [witness]: the answer of [IsWitnessEnabled] for the parent. *)
Definition ReceivedBlockTransactions (cs : chainstate X) (block : CBlock) (pindexNew : uint256) (pos : CDiskBlockPos)
    (witness : bool) : option (chainstate X) :=
  n ← cs_index cs !! pindexNew;
  '(n, _) ← RaiseValidity BLOCK_VALID_TRANSACTIONS (set_received (u32 (Zlength (vtx block))) pos witness n);
  let cs := mark_dirty (with_index cs (<[pindexNew := n]> (cs_index cs))) pindexNew in
  nprev ← match bi_pprev n with None => Some None | Some q => nq ← cs_index cs !! q; Some (Some nq) end;
  match nprev with
  | None => link_queue (S (length (cs_unlinked cs))) cs [pindexNew]
  | Some nq =>
      if negb (bi_nChainTx nq =? 0) then link_queue (S (length (cs_unlinked cs))) cs [pindexNew]
      else
        valid ← IsValid BLOCK_VALID_TREE nq;
        Some (if valid : bool then with_unlinked cs (cs_unlinked cs ++ [(bi_pprev n, pindexNew)]) else cs)
  end.

End received.

(** ** Accepting a block *)

Definition MIN_BLOCKS_TO_KEEP : Z := 288.

Record node (X : Type) := mkNode {
  nd_cs : chainstate X;
  nd_best_header : option uint256;
  nd_caches : VersionBitsCache
}.
Arguments mkNode {X}.
Arguments nd_cs {X}.
Arguments nd_best_header {X}.
Arguments nd_caches {X}.

Section accept.
Context (addr : uint256 -> Z) {X : Type} `{BlockStore X} (params : ConsensusParams) (rev_checkpoints : list (Z * uint256))
  (nMinimumChainWork : base_uint).

(** The part of the node [AcceptBlockHeader] works on. *)
Definition index_of (nd : node X) : index_state :=
  mkIndexState (cs_index (nd_cs nd)) (nd_best_header nd) (cs_dirty (nd_cs nd)).
Definition with_headers (nd : node X) (st : index_state) : node X :=
  mkNode (with_dirty (with_index (nd_cs nd) (mapBlockIndex st)) (setDirtyBlockIndex st)) (pindexBestHeader st) (nd_caches nd).
Definition with_cs (nd : node X) (cs : chainstate X) : node X := mkNode cs (nd_best_header nd) (nd_caches nd).

(** Why a block that was not asked for is not processed. *)
Definition skip_unrequested (nd : node X) (n : CBlockIndex) : option bool :=
  more ← match CChain_Tip (cs_active (nd_cs nd)) with
         | None => Some true
         | Some tip => nt ← cs_index (nd_cs nd) !! tip; Some (CompareTo (bi_nChainWork n) (bi_nChainWork nt) >=? 0)
         end;
  let fTooFarAhead := bi_nHeight n >? i32 (u32 (CChain_Height (cs_active (nd_cs nd)) + MIN_BLOCKS_TO_KEEP)) in
  Some (negb (bi_nTx n =? 0) || negb more || fTooFarAhead || (CompareTo (bi_nChainWork n) nMinimumChainWork <? 0)).

(** A block that breaks a rule is marked, unless its data may have been corrupted. *)
Definition mark_rejected (e : failure) (pindex : uint256) (nd : node X) : option (node X) :=
  match e with
  | Rejected r =>
      if rj_corruptionPossible r then Some nd
      else cs ← or_status (nd_cs nd) BLOCK_FAILED_VALID pindex; Some (with_cs nd (mark_dirty cs pindex))
  | _ => Some nd
  end.

(** The node, the block with [fChecked], [fNewBlock] and the result. *)
Abbreviation accept_out := (node X * CBlock * bool * result failure uint256)%type (only parsing).

Definition reject_block (nd : node X) (block : CBlock) (pindex : uint256) (e : failure) : accept_out :=
  match mark_rejected e pindex nd with
  | None => (nd, block, true, Err Crash)
  | Some nd => (nd, block, true, Err e)
  end.

(** The block passed its checks: it is written and its transactions are recorded. *)
Definition AcceptBlock_store (nd : node X) (block : CBlock) (pindex : uint256) (n : CBlockIndex) (dbp : option CDiskBlockPos)
  : accept_out :=
  let '(x, r) := store_block (cs_effects (nd_cs nd)) block (bi_nHeight n) dbp in
  let nd := with_cs nd (with_effects (nd_cs nd) x) in
  match r with
  | NotStored => (nd, block, true, Err (RunError "AcceptBlock(): FindBlockPos failed"))
  | StoreThrew => (nd, block, true, Err (RunError "System error"))
  | Stored pos | Unwritten pos =>
      match IsWitnessEnabled (cs_index (nd_cs nd)) (bi_pprev n) params (nd_caches nd) with
      | Err e => (nd, block, true, Err e)
      | Ok (caches, witness) =>
          match ReceivedBlockTransactions addr (nd_cs nd) block pindex pos witness with
          | None => (nd, block, true, Err Crash)
          | Some cs => (mkNode cs (nd_best_header nd) caches, block, true, Ok pindex)
          end
      end
  end.

Definition AcceptBlock (nd : node X) (block : CBlock) (fRequested : bool) (dbp : option CDiskBlockPos) (nAdjustedTime : Z) : accept_out :=
  match AcceptBlockHeader (index_of nd) (elements (cs_failed (nd_cs nd))) (block_header block) params rev_checkpoints nAdjustedTime with
  | (st, Err e) => (with_headers nd st, block, false, Err e)
  | (st, Ok pindex) =>
      let nd := with_headers nd st in
      match mapBlockIndex st !! pindex with
      | None => (nd, block, false, Err Crash)
      | Some n =>
          match (if has_data n then Some true else if fRequested then Some false else skip_unrequested nd n) with
          | None => (nd, block, false, Err Crash)
          | Some true => (nd, block, false, Ok pindex)
          | Some false =>
              match CheckBlock block params true true with
              | Err e => reject_block nd block pindex e
              | Ok block =>
                  match ContextualCheckBlock (mapBlockIndex st) block params (bi_pprev n) (nd_caches nd) with
                  | (caches, Err e) => reject_block (mkNode (nd_cs nd) (nd_best_header nd) caches) block pindex e
                  | (caches, Ok _) => AcceptBlock_store (mkNode (nd_cs nd) (nd_best_header nd) caches) block pindex n dbp
                  end
              end
          end
      end
  end.

(** [ProcessNewBlock]; [RunError] is the failed activation. *)
Definition ProcessNewBlock `{BlockEffects X} (nd : node X) (block : CBlock) (fForceProcessing : bool) (nAdjustedTime : Z)
  : node X * bool * result failure unit :=
  match CheckBlock block params true true with
  | Err e => (nd, false, Err e)
  | Ok block =>
      match AcceptBlock nd block fForceProcessing None nAdjustedTime with
      | (nd, _, fNewBlock, Err e) => (nd, fNewBlock, Err e)
      | (nd, block, fNewBlock, Ok _) =>
          match ActivateBestChain addr (nd_cs nd) (Some block) with
          | None => (nd, fNewBlock, Err Crash)
          | Some (cs, true) => (with_cs nd cs, fNewBlock, Ok tt)
          | Some (cs, false) => (with_cs nd cs, fNewBlock, Err (RunError "ActivateBestChain failed"))
          end
      end
  end.

End accept.

(** * Growing the index under the chain state *)

Section grow.
Context (addr : uint256 -> Z) (Haddr : forall p q, addr p = addr q -> p = q).
Context {X : Type} `{HR : BlockRules X}.

(** A block with all transactions of its branch. *)
Definition linked_in (m : BlockMap) (p : uint256) : Prop := exists n, m !! p = Some n /\ bi_nChainTx n <> 0.

(** The linked blocks keep their entries. *)
Definition keeps_linked (m m' : BlockMap) : Prop :=
  forall p n, m !! p = Some n -> bi_nChainTx n <> 0 -> exists n', m' !! p = Some n' /\ same_entry n n' /\ failed n' = failed n.

Lemma ancestor_linked m k p q : tree_ok m -> linked_in m p -> ancestor m k p = Some q -> linked_in m q.
Proof.
  intros HT (n & Hp & Htx) Hk. destruct (ancestor_inv m (to_index m HT) k p n q Hp Hk) as (nq & Hq & _).
  exists nq. split; [done|]. apply (linked_anc m p n q nq HT Hp Htx); [by exists k|done].
Qed.

Lemma ancestor_grow m m' k p : tree_ok m -> keeps_linked m m' -> linked_in m p -> ancestor m' k p = ancestor m k p.
Proof.
  intros HT HK. revert p. induction k as [|k IH]; intros p (n & Hp & Htx); [done|]. cbn [ancestor].
  destruct (HK p n Hp Htx) as (n' & Hp' & E & _). rewrite Hp, Hp'. cbn [mbind option_bind].
  apply same_entry_fields in E as (-> & _). destruct (bi_pprev n) as [q|] eqn:Eq; [|done]. apply IH.
  apply (ancestor_linked m 1 p q HT); [by exists n|]. cbn [ancestor]. rewrite Hp. cbn [mbind option_bind]. by rewrite Eq.
Qed.

Lemma anc_grow m m' p q : tree_ok m -> keeps_linked m m' -> linked_in m p -> anc m' p q <-> anc m p q.
Proof. intros HT HK Hp. unfold anc. by setoid_rewrite (fun k => ancestor_grow m m' k p HT HK Hp). Qed.

Lemma bad_grow m m' p : tree_ok m -> keeps_linked m m' -> linked_in m p -> bad m' p <-> bad m p.
Proof.
  intros HT HK Hp. unfold bad, failed_in. split; intros (q & Ha & n & Hn & Hf).
  - apply (anc_grow m m' p q HT HK Hp) in Ha. pose proof Ha as [k Hk].
    destruct (ancestor_linked m k p q HT Hp Hk) as (nq & Hq & Htx). destruct (HK q nq Hq Htx) as (n' & Hn' & _ & Ef).
    exists q. split; [done|]. exists nq. split; [done|]. congruence.
  - pose proof Ha as [k Hk]. destruct (ancestor_linked m k p q HT Hp Hk) as (nq & Hq & Htx). assert (nq = n) as -> by congruence.
    destruct (HK q n Hq Htx) as (n' & Hn' & _ & Ef). exists q. split; [by apply (anc_grow m m' p q HT HK Hp)|].
    exists n'. split; [done|congruence].
Qed.

Lemma less_grow m m' p q : keeps_linked m m' -> linked_in m p -> linked_in m q -> less addr m p q -> less addr m' p q.
Proof.
  intros HK (np & Hp & Tp) (nq & Hq & Tq) (xp & xq & E1 & E2 & Hb).
  assert (xp = np) as -> by congruence. assert (xq = nq) as -> by congruence.
  destruct (HK p np Hp Tp) as (np' & Hp' & Ep & _). destruct (HK q nq Hq Tq) as (nq' & Hq' & Eq & _).
  exists np', nq'. split_and!; [done..|]. apply same_entry_fields in Ep as (_ & _ & _ & W1 & _ & Q1).
  apply same_entry_fields in Eq as (_ & _ & _ & W2 & _ & Q2). unfold below in *. by rewrite W1, W2, Q1, Q2.
Qed.

Lemma sound_grow m m' t : tree_ok m -> keeps_linked m m' -> sound m t -> sound m' t.
Proof.
  intros HT HK [(n & Ht & Htx) Hg Hr]. assert (linked_in m t) as Hl by (by exists n).
  destruct (HK t n Ht Htx) as (n' & Ht' & E & _). split.
  - exists n'. split; [done|]. apply same_entry_fields in E as (_ & _ & _ & _ & -> & _). done.
  - by rewrite (bad_grow m m' t HT HK Hl).
  - intros q Hq. by apply Hr, (anc_grow m m' t q HT HK Hl).
Qed.

Lemma branch_grow m m' t nt nt' :
  tree_ok m -> keeps_linked m m' -> linked_in m t -> same_entry nt nt' -> branch m' t nt' = branch m t nt.
Proof.
  intros HT HK Hl E. apply same_entry_fields in E as (_ & _ & Eh & _). unfold branch. rewrite Eh.
  apply map_ext. intros i. unfold at_height. rewrite Eh. by apply ancestor_grow.
Qed.

(** The index may grow and unlinked entries may change: the invariant stays if the blocks
    that become linked are candidates, or worse than the mark. *)
Lemma chain_inv_grow w cs cs' :
  chain_inv addr w cs -> tree_ok (cs_index cs') -> keeps_linked (cs_index cs) (cs_index cs') ->
  (forall p n, cs_index cs' !! p = Some n -> bi_pprev n = None -> is_Some (cs_index cs !! p) /\
     forall n0, cs_index cs !! p = Some n0 -> bi_pprev n0 = None) ->
  (forall p, is_Some (cs_index cs !! p) -> is_Some (cs_index cs' !! p)) ->
  cs_active cs' = cs_active cs -> cs_best_invalid cs' = cs_best_invalid cs -> failed_ok cs' ->
  matches (cs_index cs') (CChain_Tip (cs_active cs)) (cs_effects cs') ->
  cs_candidates cs ⊆ cs_candidates cs' -> (forall p, p ∈ cs_candidates cs' -> linked_in (cs_index cs') p) ->
  (forall p, linked_in (cs_index cs') p -> linked_in (cs_index cs) p \/ p ∈ cs_candidates cs' \/
     exists t, w = Some t /\ less addr (cs_index cs') p t) ->
  chain_inv addr w cs'.
Proof.
  intros [H1 H2 H3 H4 H5 H5' H6 H7 H8 H9] HT HK Hroot Hdom EA EB HFO Hm HC HL Hnew.
  assert (forall t, sound (cs_index cs) t -> sound (cs_index cs') t) as HS by (intros t; by apply sound_grow).
  split; rewrite ?EA; try done.
  - intros p n Hp Ep. destruct (Hroot p n Hp Ep) as [[n0 Hn0] Hr0]. apply (H2 p n0); auto.
  - destruct (H3) as [->|(t & nt & Ht & Ec)]; [by left|right].
    assert (linked_in (cs_index cs) t) as Hlt by (apply sd_entry, H7; rewrite Ec; by apply Tip_branch).
    destruct Hlt as (n0 & Hn0 & Htx). assert (n0 = nt) as -> by congruence. destruct (HK t nt Ht Htx) as (nt' & Ht' & E & _).
    exists t, nt'. split; [done|]. rewrite Ec. symmetry. apply branch_grow; try done. by exists nt.
  - intros q Hq. rewrite EB in Hq. by apply Hdom, H5.
  - intros t Ht. by apply HS, H7.
  - intros t Ht. by apply HS, H8.
  - intros p n Hp Htx Hg. destruct (Hnew p ltac:(by exists n)) as [Hl|Hd]; [|done].
    pose proof Hl as (n0 & Hn0 & Htx0). rewrite (bad_grow _ _ p H1 HK Hl) in Hg.
    destruct (H9 p n0 Hn0 Htx0 Hg) as [Hc|(t & Ht & Hless)]; [left; by apply HC|right].
    exists t. split; [done|]. apply (less_grow (cs_index cs)); try done. by apply sd_entry, H8.
Qed.

(** One entry changes: not its place in the tree, and it was not linked. *)
Lemma same_places_insert m p n n' : m !! p = Some n -> same_place n n' -> same_places m (<[p := n']> m).
Proof.
  intros Hp E q. destruct (decide (q = p)) as [->|Hne].
  - by rewrite lookup_insert_eq, Hp.
  - rewrite lookup_insert_ne by done. destruct (m !! q); [by split|done].
Qed.

Lemma keeps_linked_insert m p n n' : m !! p = Some n -> bi_nChainTx n = 0 -> keeps_linked m (<[p := n']> m).
Proof.
  intros Hp E q nq Hq Htx. exists nq. rewrite lookup_insert_ne by (intros <-; congruence).
  split_and!; [done|apply same_entry_refl|done].
Qed.

Lemma tree_ok_update m p n n' :
  tree_ok m -> m !! p = Some n -> same_place n n' -> bi_nChainTx n = 0 -> level_ok n' ->
  (bi_nChainTx n' <> 0 -> has_data n' = true /\ forall q nq, bi_pprev n = Some q -> m !! q = Some nq -> bi_nChainTx nq <> 0) ->
  tree_ok (<[p := n']> m).
Proof.
  intros HT Hp Esp E0 Hlv Hl. pose proof HT as [H1 H2 H3 H4 H5 H6 H7]. pose proof (same_places_insert m p n n' Hp Esp) as SP. split.
  - by apply (same_places_index m).
  - intros q nq Hq. destruct (same_places_lookup_r _ _ q nq SP Hq) as (n0 & Hn0 & E). rewrite (sp_work _ _ E). by apply (H2 q).
  - intros q nq r nr Hq Htx Er Hr. destruct (decide (q = p)) as [->|Hqp].
    + rewrite lookup_insert_eq in Hq. injection Hq as <-. destruct (Hl Htx) as [_ Hpar].
      rewrite (sp_pprev _ _ Esp) in Er. destruct (parent_ok m H1 p n r Hp Er) as (nr0 & Hr0 & Eh).
      rewrite lookup_insert_ne in Hr by (intros <-; simplify_eq; lia). by apply (Hpar r).
    + rewrite lookup_insert_ne in Hq by done. destruct (decide (r = p)) as [->|Hrp].
      * by destruct (H3 q nq p n Hq Htx Er Hp).
      * rewrite lookup_insert_ne in Hr by done. by apply (H3 q nq r nr).
  - intros q nq r nr Hq Er Hr. destruct (same_places_lookup_r _ _ q nq SP Hq) as (n0 & Hn0 & E).
    destruct (same_places_lookup_r _ _ r nr SP Hr) as (r0 & Hr0 & E'). rewrite (sp_work _ _ E), (sp_work _ _ E').
    apply (H4 q n0 r r0); try done. by rewrite <- (sp_pprev _ _ E).
  - intros q nq Hq Htx. destruct (decide (q = p)) as [->|Hqp].
    + rewrite lookup_insert_eq in Hq. injection Hq as <-. by apply Hl.
    + rewrite lookup_insert_ne in Hq by done. by apply (H5 q).
  - intros q nq r nr Hq Eq Hr Er. destruct (same_places_lookup_r _ _ q nq SP Hq) as (n0 & Hn0 & E).
    destruct (same_places_lookup_r _ _ r nr SP Hr) as (r0 & Hr0 & E').
    apply (H6 q n0 r r0); try done; [by rewrite <- (sp_pprev _ _ E)|by rewrite <- (sp_pprev _ _ E')].
  - intros q nq Hq. destruct (decide (q = p)) as [->|Hqp].
    + rewrite lookup_insert_eq in Hq. by injection Hq as <-.
    + rewrite lookup_insert_ne in Hq by done. by apply (H7 q).
Qed.

Lemma failed_ok_update (cs cs' : chainstate X) p n n' :
  cs_index cs !! p = Some n -> (invalid n = true -> invalid n' = true) -> cs_index cs' = <[p := n']> (cs_index cs) ->
  cs_failed cs' = cs_failed cs -> failed_ok cs -> failed_ok cs'.
Proof.
  intros Hp Hi Ei Ef Hf q Hq. rewrite Ef in Hq. destruct (Hf q Hq) as (nq & Hnq & Hiq). rewrite Ei.
  destruct (decide (q = p)) as [->|Hne]; [|rewrite lookup_insert_ne by done; by exists nq].
  exists n'. rewrite lookup_insert_eq. split; [done|]. apply Hi. congruence.
Qed.

(** ** Counting transactions *)

(** The transactions of [p] and the [k - 1] blocks below it. *)
Fixpoint sum_tx (m : BlockMap) (k : nat) (p : uint256) : Z :=
  match k with
  | O => 0
  | S k =>
      match m !! p with
      | None => 0
      | Some n => bi_nTx n + match bi_pprev n with None => 0 | Some q => sum_tx m k q end
      end
  end.
Definition branch_tx (m : BlockMap) (p : uint256) (n : CBlockIndex) : Z := sum_tx m (S (Z.to_nat (bi_nHeight n))) p.

(** Every block with data has transactions, and [nChainTx] of a linked block counts those
    of its branch; the total of no branch reaches [2^32]. *)
Record counts_ok (m : BlockMap) : Prop := {
  ct_nonneg : forall p n, m !! p = Some n -> 0 <= bi_nTx n;
  ct_data : forall p n, m !! p = Some n -> has_data n = true -> 0 < bi_nTx n;
  ct_linked : forall p n, m !! p = Some n -> bi_nChainTx n <> 0 -> bi_nChainTx n = branch_tx m p n
}.
Definition counts_fit (m : BlockMap) : Prop := forall p n, m !! p = Some n -> branch_tx m p n < 2 ^ 32.

Lemma sum_tx_eq m m' k p :
  (forall q n, anc m p q -> m !! q = Some n -> exists n', m' !! q = Some n' /\ bi_pprev n' = bi_pprev n /\ bi_nTx n' = bi_nTx n) ->
  is_Some (m !! p) -> index_ok m -> sum_tx m' k p = sum_tx m k p.
Proof.
  intros Hs [n Hp] Hok. revert p n Hp Hs. induction k as [|k IH]; intros p n Hp Hs; [done|]. cbn [sum_tx].
  destruct (Hs p n (anc_refl m p) Hp) as (n' & Hp' & E1 & E2). rewrite Hp, Hp', E1, E2. destruct (bi_pprev n) as [q|] eqn:Eq; [|done].
  f_equal. destruct (parent_ok m Hok p n q Hp Eq) as (nq & Hq & _). apply (IH q nq Hq). intros r nr Hr. apply Hs. by apply (anc_step m p n q).
Qed.

Lemma sum_tx_nonneg m k p : counts_ok m -> 0 <= sum_tx m k p.
Proof.
  intros HC. revert p. induction k as [|k IH]; intros p; cbn [sum_tx]; [lia|]. destruct (m !! p) as [n|] eqn:Hp; [|lia].
  pose proof (ct_nonneg m HC p n Hp). destruct (bi_pprev n) as [q|]; [specialize (IH q)|]; lia.
Qed.

Lemma sum_tx_S m k p n q : m !! p = Some n -> bi_pprev n = Some q -> sum_tx m (S k) p = bi_nTx n + sum_tx m k q.
Proof. intros Hp Eq. cbn [sum_tx]. by rewrite Hp, Eq. Qed.

Lemma branch_tx_parent m p n q nq :
  index_ok m -> m !! p = Some n -> bi_pprev n = Some q -> m !! q = Some nq -> branch_tx m p n = bi_nTx n + branch_tx m q nq.
Proof.
  intros Hok Hp Eq Hq. destruct (parent_ok m Hok p n q Hp Eq) as (nq' & Hq' & Eh). assert (nq' = nq) as -> by congruence.
  pose proof (height_nonneg m Hok q nq Hq). unfold branch_tx. rewrite (sum_tx_S m _ p n q Hp Eq). f_equal.
  replace (Z.to_nat (bi_nHeight n)) with (S (Z.to_nat (bi_nHeight nq))) by lia. done.
Qed.

Lemma branch_tx_root m p n : m !! p = Some n -> bi_pprev n = None -> branch_tx m p n = bi_nTx n.
Proof. intros Hp Eq. unfold branch_tx. cbn [sum_tx]. rewrite Hp, Eq. lia. Qed.

(** ** Linking a block *)

(** Ready to be linked: the block has its data and its parent is linked. *)
Definition ready (m : BlockMap) (p : uint256) (n : CBlockIndex) : Prop :=
  m !! p = Some n /\ has_data n = true /\ bi_nChainTx n = 0 /\ forall q nq, bi_pprev n = Some q -> m !! q = Some nq -> bi_nChainTx nq <> 0.

(** The entry that linking leaves. *)
Definition linked_entry (cs : chainstate X) (p : uint256) (n : CBlockIndex) : CBlockIndex :=
  set_linked (branch_tx (cs_index cs) p n) (cs_sequence cs) n.

Lemma linked_base m p n :
  tree_ok m -> counts_ok m -> counts_fit m -> ready m p n ->
  exists base, match bi_pprev n with None => Some 0 | Some q => nq ← m !! q; Some (bi_nChainTx nq) end = Some base /\
    u32 (base + bi_nTx n) = branch_tx m p n /\ branch_tx m p n <> 0.
Proof.
  intros HT HC HF (Hp & Hd & H0 & Hpar). pose proof (to_index m HT) as Hok. pose proof (ct_data m HC p n Hp Hd). specialize (HF p n Hp).
  destruct (bi_pprev n) as [q|] eqn:Eq.
  - destruct (parent_ok m Hok p n q Hp Eq) as (nq & Hq & _). rewrite Hq. exists (bi_nChainTx nq). split; [done|].
    specialize (Hpar q nq eq_refl Hq). pose proof (ct_linked m HC q nq Hq Hpar) as Ec. rewrite (branch_tx_parent m p n q nq Hok Hp Eq Hq) in *.
    pose proof (sum_tx_nonneg m (S (Z.to_nat (bi_nHeight nq))) q HC) as Hn. fold (branch_tx m q nq) in Hn. rewrite Ec.
    split; [|lia]. rewrite wrapu_small by (split; lia). lia.
  - exists 0. rewrite (branch_tx_root m p n Hp Eq) in *. split; [done|]. split; [|lia]. rewrite wrapu_small by (split; lia). lia.
Qed.

Lemma counts_ok_link cs p n :
  tree_ok (cs_index cs) -> counts_ok (cs_index cs) -> ready (cs_index cs) p n ->
  counts_ok (<[p := linked_entry cs p n]> (cs_index cs)) /\
  forall q nq, <[p := linked_entry cs p n]> (cs_index cs) !! q = Some nq ->
    exists n0, cs_index cs !! q = Some n0 /\ branch_tx (<[p := linked_entry cs p n]> (cs_index cs)) q nq = branch_tx (cs_index cs) q n0.
Proof.
  intros HT HC (Hp & Hd & H0 & Hpar). set (m' := <[p := linked_entry cs p n]> (cs_index cs)).
  assert (forall q nq, m' !! q = Some nq -> exists n0, cs_index cs !! q = Some n0 /\ bi_nTx nq = bi_nTx n0 /\ has_data nq = has_data n0 /\
    bi_nHeight nq = bi_nHeight n0 /\ (nq = n0 \/ q = p /\ nq = linked_entry cs p n)) as Hback.
  { intros q nq Hq. unfold m' in Hq. destruct (decide (q = p)) as [->|Hne].
    - rewrite lookup_insert_eq in Hq. injection Hq as <-. exists n. split_and!; try done. by right.
    - rewrite lookup_insert_ne in Hq by done. exists nq. split_and!; try done. by left. }
  assert (forall k q, is_Some (cs_index cs !! q) -> sum_tx m' k q = sum_tx (cs_index cs) k q) as Hsum.
  { intros k q Hq. apply sum_tx_eq; [|done|apply HT]. intros r nr _ Hr. unfold m'. destruct (decide (r = p)) as [->|Hne].
    - rewrite lookup_insert_eq. eexists. split; [done|]. by assert (nr = n) as -> by congruence.
    - rewrite lookup_insert_ne by done. by exists nr. }
  assert (forall q nq, m' !! q = Some nq -> exists n0, cs_index cs !! q = Some n0 /\ branch_tx m' q nq = branch_tx (cs_index cs) q n0) as Hbr.
  { intros q nq Hq. destruct (Hback q nq Hq) as (n0 & Hn0 & _ & _ & Eh & _). exists n0. split; [done|]. unfold branch_tx. rewrite Eh.
    apply Hsum. by eexists. }
  split; [|done]. split.
  - intros q nq Hq. destruct (Hback q nq Hq) as (n0 & Hn0 & -> & _). by apply (ct_nonneg _ HC q).
  - intros q nq Hq. destruct (Hback q nq Hq) as (n0 & Hn0 & -> & -> & _). by apply (ct_data _ HC q).
  - intros q nq Hq Htx. destruct (Hback q nq Hq) as (n0 & Hn0 & _ & _ & _ & E). destruct (Hbr q nq Hq) as (n1 & Hn1 & ->).
    assert (n1 = n0) as -> by congruence. destruct E as [->|[-> ->]]; [by apply (ct_linked _ HC q)|]. by assert (n0 = n) as -> by congruence.
Qed.

(** A chain entry is linked, so it is none of the entries that change. *)
Lemma matches_update w cs p n n' :
  chain_inv addr w cs -> cs_index cs !! p = Some n -> bi_nChainTx n = 0 ->
  (has_data n' = true -> has_data n = true /\ bi_nFile n' = bi_nFile n /\ bi_nDataPos n' = bi_nDataPos n) ->
  matches (<[p := n']> (cs_index cs)) (CChain_Tip (cs_active cs)) (cs_effects cs).
Proof.
  intros HI Hp H0 Hd. apply (matches_same (cs_index cs)); [| |apply HI].
  - intros t q Ht Ha. destruct (sd_entry _ _ (iv_tip _ _ _ HI t Ht)) as (nt & Hnt & Htx).
    destruct (anc_in _ t nt q (to_index _ (iv_tree _ _ _ HI)) Hnt Ha) as (nq & Hq & _).
    rewrite lookup_insert_ne, Hq; [apply same_block_refl|]. intros <-. assert (nq = n) as -> by congruence.
    by apply (linked_anc _ t nt p n (iv_tree _ _ _ HI) Hnt Htx).
  - intros q nq Hq Hdq. destruct (decide (q = p)) as [->|Hne].
    + rewrite lookup_insert_eq in Hq. injection Hq as <-. destruct (Hd Hdq) as (H1 & H2 & H3). by exists n.
    + rewrite lookup_insert_ne in Hq by done. by exists nq.
Qed.

Lemma root_update (m : BlockMap) p n n' : m !! p = Some n -> bi_pprev n' = bi_pprev n ->
  forall q nq, <[p := n']> m !! q = Some nq -> bi_pprev nq = None -> is_Some (m !! q) /\ forall n0, m !! q = Some n0 -> bi_pprev n0 = None.
Proof.
  intros Hp E q nq Hq Eq. destruct (decide (q = p)) as [->|Hne].
  - rewrite lookup_insert_eq in Hq. injection Hq as <-. split; [by eexists|]. intros n0 Hn0. congruence.
  - rewrite lookup_insert_ne in Hq by done. split; [by eexists|]. intros n0 Hn0. congruence.
Qed.

Lemma dom_update (m : BlockMap) p (n' : CBlockIndex) q : is_Some (m !! q) -> is_Some (<[p := n']> m !! q).
Proof. destruct (decide (q = p)) as [->|Hne]; [by rewrite lookup_insert_eq|by rewrite lookup_insert_ne]. Qed.

Lemma linked_update (m : BlockMap) p n' q : linked_in (<[p := n']> m) q -> q = p \/ linked_in m q.
Proof.
  intros (nq & Hq & Htx). destruct (decide (q = p)) as [->|Hne]; [by left|right].
  rewrite lookup_insert_ne in Hq by done. by exists nq.
Qed.

(** Linking a ready block: it is a candidate unless it is worse than the tip. *)
Lemma link_block_spec cs p n :
  chain_inv addr (CChain_Tip (cs_active cs)) cs -> counts_ok (cs_index cs) -> counts_fit (cs_index cs) ->
  ready (cs_index cs) p n -> cs_sequence cs < 2 ^ 31 - 1 ->
  exists cs', link_block addr cs p = Some cs' /\ cs_index cs' = <[p := linked_entry cs p n]> (cs_index cs) /\
    chain_inv addr (CChain_Tip (cs_active cs')) cs' /\ counts_ok (cs_index cs') /\ counts_fit (cs_index cs') /\
    branch_tx (cs_index cs) p n <> 0 /\ cs_active cs' = cs_active cs /\ cs_effects cs' = cs_effects cs /\
    cs_unlinked cs' = cs_unlinked cs /\ cs_sequence cs' = cs_sequence cs + 1 /\ cs_failed cs' = cs_failed cs.
Proof.
  intros HI HC HF Hr Hseq. pose proof (iv_tree _ _ _ HI) as HT. pose proof Hr as (Hp & Hd & H0 & Hpar).
  destruct (linked_base (cs_index cs) p n HT HC HF Hr) as (base & Eb & Eu & Hne).
  destruct (counts_ok_link cs p n HT HC Hr) as [HC' HB].
  set (n' := linked_entry cs p n) in *. set (m' := <[p := n']> (cs_index cs)) in *.
  assert (tree_ok m') as HT' by (apply (tree_ok_update _ p n); try done; by apply (to_level _ HT p n)).
  assert (m' !! p = Some n') as Hp' by apply lookup_insert_eq.
  assert (matches m' (CChain_Tip (cs_active cs)) (cs_effects cs)) as Hm by (by apply (matches_update (CChain_Tip (cs_active cs)) cs p n)).
  unfold link_block. rewrite Hp. cbn [mbind option_bind]. rewrite Eb. cbn [mbind option_bind].
  rewrite (proj2 (Z.eqb_neq _ _)) by lia. rewrite Eu. fold n'. change (set_linked (branch_tx (cs_index cs) p n) (cs_sequence cs) n) with n'. fold m'.
  cbn [cs_active cs_index with_sequence with_index].
  assert (exists b : bool, match CChain_Tip (cs_active cs) with None => Some true
             | Some tip => w ← worse addr m' p tip; Some (negb w) end = Some b /\
     (b = false -> exists t, CChain_Tip (cs_active cs) = Some t /\ less addr m' p t)) as (b & -> & Hb).
  { destruct (CChain_Tip (cs_active cs)) as [t|] eqn:Et; [|by exists true].
    destruct (sd_entry _ _ (iv_tip _ _ _ HI t Et)) as (nt & Ht & Htx). assert (t <> p) by (intros ->; congruence).
    destruct (worse_spec addr m' p n' t nt (to_works _ HT') Hp') as (w & -> & Ew); [unfold m'; by rewrite lookup_insert_ne|].
    exists (negb w). split; [done|]. intros E%negb_false_iff. exists t. split; [done|]. by apply Ew. }
  cbn [mbind option_bind]. eexists. split; [done|]. split; [by destruct b|].
  split; [|by split_and!; try (by destruct b); [destruct b; intros q nq Hq; destruct (HB q nq Hq) as (n0 & Hn0 & E); cbn in E |- *; rewrite E; by apply HF|..]].
  assert (forall s, s = cs_candidates cs \/ s = {[p]} ∪ cs_candidates cs -> (b = true -> p ∈ s) ->
    chain_inv addr (CChain_Tip (cs_active cs))
      (with_candidates (with_sequence (with_index cs m') (cs_sequence cs + 1) (cs_reverse_sequence cs) (cs_precious_work cs)) s)) as Hinv.
  { intros s Hs Hbs. apply (chain_inv_grow (CChain_Tip (cs_active cs)) cs); try done.
    - by apply (keeps_linked_insert _ p n).
    - by apply (root_update _ p n).
    - intros q. apply dom_update.
    - by apply (failed_ok_update cs _ p n n'); [..|apply HI].
    - cbn. destruct Hs as [-> | ->]; set_solver.
    - intros q Hq. assert (q = p \/ q ∈ cs_candidates cs) as [->|Hqc] by (cbn in Hq; destruct Hs as [-> | ->]; set_solver).
      + by exists n'.
      + destruct (iv_candidates _ _ _ HI q Hqc) as (nq & Hnq & Htx). exists nq. split; [|done]. cbn. unfold m'.
        rewrite lookup_insert_ne by (intros <-; congruence). done.
    - intros q Hq. destruct (linked_update (cs_index cs) p n' q Hq) as [->|Hl]; [right|by left]. destruct b; [left; by apply Hbs|right; by apply Hb]. }
  destruct b; [apply Hinv; [by right|set_solver]|]. specialize (Hinv (cs_candidates cs) (or_introl eq_refl) ltac:(done)). exact Hinv.
Qed.

(** ** The blocks whose parents have not arrived *)

(** [mapBlocksUnlinked] holds the blocks with data whose parent is not linked, [queue]
    those that are ready; none is missing but those behind a failure. *)
Record unlinked_ok (cs : chainstate X) (queue : list uint256) : Prop := {
  ul_entry : forall k p, (k, p) ∈ cs_unlinked cs ->
    exists q n nq, k = Some q /\ cs_index cs !! p = Some n /\ bi_pprev n = Some q /\ has_data n = true /\ bi_nChainTx n = 0 /\
      cs_index cs !! q = Some nq /\ bi_nChainTx nq = 0;
  ul_queue : forall p, p ∈ queue -> exists n, ready (cs_index cs) p n;
  ul_nodup : NoDup (queue ++ (cs_unlinked cs).*2);
  ul_complete : forall p n, cs_index cs !! p = Some n -> has_data n = true -> bi_nChainTx n = 0 -> ~ bad (cs_index cs) p ->
    p ∈ queue \/ exists q, bi_pprev n = Some q /\ (Some q, p) ∈ cs_unlinked cs
}.

Lemma elem_of_waiting p l c : c ∈ waiting p l <-> (Some p, c) ∈ l.
Proof.
  unfold waiting. rewrite list_elem_of_fmap. split.
  - intros ([k x] & -> & Hin%list_elem_of_filter). destruct Hin as [E Hin]. cbn in *. by subst k.
  - intros Hin. exists (Some p, c). split; [done|]. by apply list_elem_of_filter.
Qed.

Lemma elem_of_not_waiting p l k c : (k, c) ∈ not_waiting p l <-> (k, c) ∈ l /\ k <> Some p.
Proof. unfold not_waiting. rewrite list_elem_of_filter. cbn. tauto. Qed.

Lemma waiting_split p l : waiting p l ++ (not_waiting p l).*2 ≡ₚ l.*2.
Proof.
  unfold waiting, not_waiting. induction l as [|[k c] l IH]; [done|]. rewrite !filter_cons. cbn [fst].
  destruct (decide (k = Some p)) as [E|E].
  - rewrite decide_False by (intros Hn; by apply Hn). cbn. by rewrite IH.
  - rewrite decide_True by done. cbn. rewrite <- Permutation_middle. by rewrite IH.
Qed.

Lemma bad_places m m' p :
  same_places m m' -> (forall q, failed_in m' q <-> failed_in m q) -> bad m' p <-> bad m p.
Proof. intros SP HF. unfold bad. setoid_rewrite HF. by setoid_rewrite (fun q => anc_places m m' p q SP). Qed.

Lemma failed_update (m : BlockMap) p n n' :
  m !! p = Some n -> failed n' = failed n -> forall q, failed_in (<[p := n']> m) q <-> failed_in m q.
Proof.
  intros Hp E q. unfold failed_in. destruct (decide (q = p)) as [->|Hne]; [|by rewrite lookup_insert_ne].
  rewrite lookup_insert_eq, Hp. split; intros (x & [= <-] & Hf); eexists; (split; [done|congruence]).
Qed.

(** One round of the queue. *)
Lemma unlinked_round cs cs1 p n queue :
  unlinked_ok cs (p :: queue) -> ready (cs_index cs) p n -> branch_tx (cs_index cs) p n <> 0 ->
  cs_index cs1 = <[p := linked_entry cs p n]> (cs_index cs) -> cs_unlinked cs1 = cs_unlinked cs ->
  unlinked_ok (with_unlinked cs1 (not_waiting p (cs_unlinked cs1))) (queue ++ waiting p (cs_unlinked cs1)).
Proof.
  intros [U1 U2 U3 U4] (Hp & Hd & H0 & Hpar) Hne Ei Eu. rewrite Eu. cbn [app] in U3. apply NoDup_cons in U3 as [Hfresh Hnd].
  set (n' := linked_entry cs p n) in *. assert (bi_nChainTx n' <> 0) as Hn' by exact Hne.
  assert (forall c, c ∈ queue \/ c ∈ (cs_unlinked cs).*2 -> c <> p) as Hcp.
  { intros c Hc ->. apply Hfresh. by apply elem_of_app. }
  assert (forall q nq, q <> p -> cs_index cs !! q = Some nq -> cs_index cs1 !! q = Some nq) as Hkeep.
  { intros q nq Hq Hnq. rewrite Ei. by rewrite lookup_insert_ne. }
  split; cbn [cs_unlinked with_unlinked cs_index].
  - intros k c [Hin Hk]%elem_of_not_waiting. destruct (U1 k c Hin) as (q & nc & nq & -> & Hc & Eq & Hdc & H0c & Hq & H0q).
    assert (c <> p) by (apply Hcp; right; apply list_elem_of_fmap; by exists (Some q, c)).
    exists q, nc, nq. split_and!; try done; apply Hkeep; (done || congruence).
  - intros c [Hc|Hc]%elem_of_app.
    + destruct (U2 c) as (nc & Hnc & Hdc & H0c & Hparc); [by apply elem_of_cons; right|]. exists nc.
      split_and!; [apply Hkeep; [by apply Hcp; left|done]|done..|]. intros q nq Eq Hq. rewrite Ei in Hq.
      destruct (decide (q = p)) as [->|Hqp]; [rewrite lookup_insert_eq in Hq; congruence|].
      rewrite lookup_insert_ne in Hq by done. by apply (Hparc q).
    + apply elem_of_waiting in Hc. destruct (U1 _ c Hc) as (q & nc & nq & [= <-] & Hnc & Eq & Hdc & H0c & _).
      assert (c <> p) by (apply Hcp; right; apply list_elem_of_fmap; by exists (Some p, c)).
      exists nc. split_and!; [by apply Hkeep|done..|]. intros q' nq' Eq' Hq'. assert (q' = p) as -> by congruence.
      rewrite Ei, lookup_insert_eq in Hq'. congruence.
  - rewrite <- (assoc_L (++)), waiting_split. done.
  - intros c nc Hc Hdc H0c Hg. assert (c <> p) as Hcne by (intros ->; rewrite Ei, lookup_insert_eq in Hc; congruence).
    rewrite Ei, lookup_insert_ne in Hc by done.
    assert (~ bad (cs_index cs) c) as Hg0.
    { intros Hb. apply Hg. rewrite Ei. apply (bad_places (cs_index cs)); [by apply (same_places_insert _ p n)|by apply (failed_update _ p n)|done]. }
    destruct (U4 c nc Hc Hdc H0c Hg0) as [[->|Hq]%elem_of_cons|(q & Eq & Hin)]; [done|left; apply elem_of_app; by left|].
    destruct (decide (q = p)) as [->|Hqp]; [left; apply elem_of_app; right; by apply elem_of_waiting|right].
    exists q. split; [done|]. apply elem_of_not_waiting. split; [done|congruence].
Qed.


(** What the bookkeeping of received blocks leaves of an entry, and of the state. *)
Record kept (n n' : CBlockIndex) : Prop := {
  kp_header : same_header n n';
  kp_failed : failed n' = failed n;
  kp_invalid : invalid n = true -> invalid n' = true;
  kp_data : has_data n = true -> has_data n' = true
}.

Record bookkept (cs cs' : chainstate X) : Prop := {
  bk_kept : forall p n, cs_index cs !! p = Some n -> exists n', cs_index cs' !! p = Some n' /\ kept n n';
  bk_dom : forall p, is_Some (cs_index cs' !! p) -> is_Some (cs_index cs !! p);
  bk_active : cs_active cs' = cs_active cs;
  bk_failed : cs_failed cs' = cs_failed cs
}.

Lemma kept_refl n : kept n n.
Proof. by repeat split. Qed.

Lemma kept_trans a b c : kept a b -> kept b c -> kept a c.
Proof. intros [[] E1 I1 D1] [[] E2 I2 D2]. split; [split; congruence|congruence|auto..]. Qed.

Lemma bookkept_refl cs : bookkept cs cs.
Proof. split; try done. intros p n Hp. exists n. split; [done|apply kept_refl]. Qed.

Lemma bookkept_trans a b c : bookkept a b -> bookkept b c -> bookkept a c.
Proof.
  intros [A1 A2 A3 A4] [B1 B2 B3 B4]. split; [|auto|congruence..]. intros p n Hp. destruct (A1 p n Hp) as (n1 & H1 & K1).
  destruct (B1 p n1 H1) as (n2 & H2 & K2). exists n2. split; [done|by eapply kept_trans].
Qed.

Lemma bookkept_update cs cs' p n n' :
  cs_index cs !! p = Some n -> kept n n' -> cs_index cs' = <[p := n']> (cs_index cs) ->
  cs_active cs' = cs_active cs -> cs_failed cs' = cs_failed cs -> bookkept cs cs'.
Proof.
  intros Hp K Ei EA EF. split; try done; rewrite Ei.
  - intros q nq Hq. destruct (decide (q = p)) as [->|Hne].
    + exists n'. rewrite lookup_insert_eq. split; [done|]. by assert (nq = n) as -> by congruence.
    + exists nq. rewrite lookup_insert_ne by done. split; [done|apply kept_refl].
  - intros q. destruct (decide (q = p)) as [->|Hne]; [by rewrite Hp|by rewrite lookup_insert_ne].
Qed.

Lemma link_queue_spec fuel : forall cs queue,
  chain_inv addr (CChain_Tip (cs_active cs)) cs -> counts_ok (cs_index cs) -> counts_fit (cs_index cs) -> unlinked_ok cs queue ->
  (length queue + length (cs_unlinked cs) <= fuel)%nat -> cs_sequence cs + Z.of_nat fuel < 2 ^ 31 ->
  exists cs', link_queue addr fuel cs queue = Some cs' /\ chain_inv addr (CChain_Tip (cs_active cs')) cs' /\
    counts_ok (cs_index cs') /\ unlinked_ok cs' [] /\ bookkept cs cs'.
Proof.
  induction fuel as [|fuel IH]; intros cs [|p queue] HI HC HF HU Hf Hs; try (exists cs; by split_and!; [..|apply bookkept_refl]);
    cbn [length] in Hf; [lia|].
  destruct (ul_queue _ _ HU p ltac:(by left)) as (n & Hr).
  destruct (link_block_spec cs p n HI HC HF Hr ltac:(lia)) as (cs1 & E1 & Ei & HI1 & HC1 & HF1 & Hne & EA & EE & EU & ES & EF).
  cbn [link_queue]. rewrite E1. cbn [mbind option_bind].
  pose proof (unlinked_round cs cs1 p n queue HU Hr Hne Ei EU) as HU1.
  set (cs2 := with_unlinked cs1 (not_waiting p (cs_unlinked cs1))) in *.
  assert (chain_inv addr (CChain_Tip (cs_active cs2)) cs2) as HI2 by (destruct HI1; by split).
  destruct (IH cs2 (queue ++ waiting p (cs_unlinked cs1)) HI2 HC1 HF1 HU1) as (cs' & -> & HI' & HC' & HU' & HB').
  - rewrite EU. unfold cs2. cbn [cs_unlinked with_unlinked]. rewrite EU. pose proof (Permutation_length (waiting_split p (cs_unlinked cs))) as Hl.
    rewrite length_app, !length_fmap in Hl. rewrite length_app. lia.
  - unfold cs2. cbn [cs_sequence with_unlinked]. lia.
  - exists cs'. split_and!; try done. apply (bookkept_trans cs cs2); [|done].
    apply (bookkept_update cs cs2 p n (linked_entry cs p n)); [apply Hr|by repeat split|done..].
Qed.

(** ** A block's transactions arrive *)

Lemma land_raised x v k : Z.land (Z.lnot BLOCK_VALID_MASK) k = k -> Z.land v k = 0 ->
  Z.land (Z.lor (Z.land x (Z.lnot BLOCK_VALID_MASK)) v) k = Z.land x k.
Proof. intros E Ev. rewrite land_lor_other by done. by rewrite <- Z.land_assoc, E. Qed.

(** The entry [ReceivedBlockTransactions] leaves. *)
Record received (nTx : Z) (pos : CDiskBlockPos) (n n' : CBlockIndex) : Prop := {
  rc_kept : kept n n';
  rc_place : same_place n n';
  rc_data : has_data n' = true;
  rc_nTx : bi_nTx n' = nTx;
  rc_chain : bi_nChainTx n' = 0;
  rc_pos : bi_nFile n' = dp_nFile pos /\ bi_nDataPos n' = dp_nPos pos;
  rc_level : level n <= level n'
}.

Lemma set_received_spec nTx pos witness n : received nTx pos n (set_received nTx pos witness n).
Proof.
  assert (has_data (set_received nTx pos witness n) = true) as Hd.
  { unfold has_data. cbn [bi_nStatus set_received]. apply negb_true_iff, Z.eqb_neq.
    assert (Z.land (Z.lor (bi_nStatus n) BLOCK_HAVE_DATA) BLOCK_HAVE_DATA <> 0) as Hb
      by (rewrite Z.lor_comm; by apply land_lor_ne0). destruct witness; [by apply land_lor_ne0|done]. }
  split; try done; [split; [done|..]|..]; unfold failed, invalid, level; cbn [bi_nStatus set_received].
  - destruct witness; by rewrite !land_lor_other.
  - destruct witness; by rewrite !land_lor_other.
  - intros _. exact Hd.
  - destruct witness; by rewrite !land_lor_other.
Qed.

Lemma raise_received nTx pos n n1 :
  received nTx pos n n1 -> exists n2 b, RaiseValidity BLOCK_VALID_TRANSACTIONS n1 = Some (n2, b) /\ received nTx pos n n2 /\
    (failed n2 = false -> BLOCK_VALID_TRANSACTIONS <= level n2).
Proof.
  intros Hr. unfold RaiseValidity. change (negb (Z.land BLOCK_VALID_TRANSACTIONS (Z.lnot BLOCK_VALID_MASK) =? 0)) with false. cbn [negb].
  destruct (negb (Z.land (bi_nStatus n1) BLOCK_FAILED_MASK =? 0)) eqn:Ef.
  { eexists _, _. split; [done|]. split; [done|]. unfold failed. by rewrite Ef. }
  destruct (Z.ltb_spec (Z.land (bi_nStatus n1) BLOCK_VALID_MASK) BLOCK_VALID_TRANSACTIONS) as [Hl|Hl]; [|by eexists _, _].
  eexists _, _. split; [done|]. set (n2 := set_status _ n1). assert (level n2 = BLOCK_VALID_TRANSACTIONS) as Hlv2.
  { unfold level, n2. cbn [bi_nStatus set_status]. rewrite Z.land_lor_distr_l, <- Z.land_assoc.
    change (Z.land (Z.lnot BLOCK_VALID_MASK) BLOCK_VALID_MASK) with 0. by rewrite Z.land_0_r, Z.lor_0_l. }
  split; [|by rewrite Hlv2]. unfold n2 in *. clear n2. destruct Hr as [[Kh Kf Ki Kd] Hp Hd Ht Hc Hpos Hlv]. unfold failed, invalid, has_data, level in *.
  split; unfold failed, invalid, has_data, level; cbn [bi_nStatus bi_nTx bi_nChainTx bi_nFile bi_nDataPos set_status]; try done.
  - split; unfold failed, invalid, has_data; cbn [bi_nStatus set_status].
    + destruct Kh. by split.
    + rewrite land_raised by done. done.
    + rewrite land_raised by done. done.
    + intros _. rewrite land_raised by done. done.
  - destruct Hp. by split.
  - rewrite land_raised by done. done.
  - cbn [bi_nStatus set_status] in Hlv2. rewrite Hlv2. lia.
Qed.

Section arrival.
Context (cs : chainstate X) (x : X) (p : uint256) (n n2 : CBlockIndex) (nTx : Z) (pos : CDiskBlockPos).
Context (HI : chain_inv addr (CChain_Tip (cs_active cs)) cs) (HC : counts_ok (cs_index cs)) (HU : unlinked_ok cs []).
Context (Hp : cs_index cs !! p = Some n) (Hnd : has_data n = false) (Hr : received nTx pos n n2)
  (Hv : failed n2 = false -> BLOCK_VALID_TRANSACTIONS <= level n2) (Hpos : 0 < nTx).
Context (Hm : matches (<[p := n2]> (cs_index cs)) (CChain_Tip (cs_active cs)) x).

(** The state in which the entry has been updated. *)
Let m2 : BlockMap := <[p := n2]> (cs_index cs).
Let cs2 : chainstate X := mark_dirty (with_index (with_effects cs x) m2) p.

Lemma arrival_unlinked : bi_nChainTx n = 0.
Proof using HI Hp Hnd.
  apply dec_stable. intros Hne. rewrite (to_data _ (iv_tree _ _ _ HI) p n Hp Hne) in Hnd. done.
Qed.

Lemma arrival_bad q : bad m2 q <-> bad (cs_index cs) q.
Proof using Hp Hr.
  apply bad_places; [apply (same_places_insert _ p n); [done|apply Hr]|]. apply (failed_update _ p n); [done|apply Hr].
Qed.

Lemma arrival_chain : chain_inv addr (CChain_Tip (cs_active cs)) cs2.
Proof using HI Hp Hnd Hr Hv Hm.
  pose proof arrival_unlinked as H0. pose proof (iv_tree _ _ _ HI) as HT. apply (chain_inv_grow (CChain_Tip (cs_active cs)) cs); try done.
  - apply (tree_ok_update _ p n); try done; [apply Hr| |by rewrite (rc_chain _ _ _ _ Hr)].
    destruct (to_level _ HT p n Hp). pose proof (rc_level _ _ _ _ Hr). split; [lia|done].
  - by apply (keeps_linked_insert _ p n).
  - apply (root_update _ p n); [done|apply Hr].
  - intros q. apply dom_update.
  - apply (failed_ok_update cs _ p n n2); [done|apply Hr|done..|apply HI].
  - intros q Hq. destruct (iv_candidates _ _ _ HI q Hq) as (nq & Hnq & Htx). exists nq. split; [|done].
    cbn. unfold m2. rewrite lookup_insert_ne by (intros <-; congruence). done.
  - intros q (nq & Hq & Htx). left. cbn in Hq. unfold m2 in Hq. destruct (decide (q = p)) as [->|Hne].
    + rewrite lookup_insert_eq in Hq. injection Hq as <-. by rewrite (rc_chain _ _ _ _ Hr) in Htx.
    + rewrite lookup_insert_ne in Hq by done. by exists nq.
Qed.

Lemma arrival_counts : counts_ok m2.
Proof using HI HC Hp Hnd Hr Hpos.
  pose proof arrival_unlinked as H0. pose proof (iv_tree _ _ _ HI) as HT. unfold m2. split.
  - intros q nq Hq. destruct (decide (q = p)) as [->|Hne]; [rewrite lookup_insert_eq in Hq; injection Hq as <-|
      rewrite lookup_insert_ne in Hq by done; by apply (ct_nonneg _ HC q)]. rewrite (rc_nTx _ _ _ _ Hr). lia.
  - intros q nq Hq. destruct (decide (q = p)) as [->|Hne]; [rewrite lookup_insert_eq in Hq; injection Hq as <-|
      rewrite lookup_insert_ne in Hq by done; by apply (ct_data _ HC q)]. by rewrite (rc_nTx _ _ _ _ Hr).
  - intros q nq Hq Htx. destruct (decide (q = p)) as [->|Hne].
    { rewrite lookup_insert_eq in Hq. injection Hq as <-. by rewrite (rc_chain _ _ _ _ Hr) in Htx. }
    rewrite lookup_insert_ne in Hq by done. rewrite (ct_linked _ HC q nq Hq Htx). symmetry. apply sum_tx_eq; [|by eexists|apply HT].
    intros r nr Ha Hnr. exists nr. rewrite lookup_insert_ne; [done|]. intros <-. assert (nr = n) as -> by congruence.
    by apply (linked_anc _ q nq p n HT Hq Htx).
Qed.

(** What the unlinked blocks are when the new one has joined them or the queue. *)
Lemma arrival_unlinked_ok cs3 queue :
  cs_index cs3 = m2 -> (forall k c, (k, c) ∈ cs_unlinked cs3 -> (k, c) ∈ cs_unlinked cs \/ c = p /\ k = bi_pprev n /\
     exists q nq, k = Some q /\ cs_index cs !! q = Some nq /\ bi_nChainTx nq = 0) ->
  (forall k c, (k, c) ∈ cs_unlinked cs -> (k, c) ∈ cs_unlinked cs3) -> NoDup (queue ++ (cs_unlinked cs3).*2) ->
  (forall c, c ∈ queue -> c = p /\ ready m2 p n2) ->
  (bad (cs_index cs) p \/ p ∈ queue \/ exists q, bi_pprev n = Some q /\ (Some q, p) ∈ cs_unlinked cs3) ->
  unlinked_ok cs3 queue.
Proof using HI HU Hp Hnd Hr.
  intros Ei H1 H2 H3 H4 H5. destruct HU as [U1 U2 U3 U4]. pose proof arrival_unlinked as H0. split; rewrite ?Ei; [|intros c Hc|done|].
  - intros k c Hin. destruct (H1 k c Hin) as [Hin'|(-> & -> & q & nq & Eq & Hq & H0q)].
    + destruct (U1 k c Hin') as (q & nc & nq & -> & Hc & Eq & Hdc & H0c & Hq & H0q). assert (c <> p) as Hcp by (intros ->; congruence).
      unfold m2. rewrite lookup_insert_ne by done. destruct (decide (q = p)) as [->|Hqp].
      * exists p, nc, n2. rewrite lookup_insert_eq. split_and!; try done. apply (rc_chain _ _ _ _ Hr).
      * exists q, nc, nq. rewrite lookup_insert_ne by done. done.
    + exists q, n2, nq. unfold m2. rewrite lookup_insert_eq. pose proof (iv_tree _ _ _ HI) as HT.
      destruct (parent_ok _ (to_index _ HT) p n q Hp Eq) as (nq' & Hq' & Eh).
      rewrite lookup_insert_ne by (intros <-; simplify_eq; lia). rewrite (sp_pprev _ _ (rc_place _ _ _ _ Hr)).
      split_and!; try done; [apply (rc_data _ _ _ _ Hr)|apply (rc_chain _ _ _ _ Hr)].
  - destruct (H4 c Hc) as [-> Hrd]. by exists n2.
  - intros c nc Hc Hdc H0c Hg. rewrite arrival_bad in Hg. destruct (decide (c = p)) as [->|Hcp].
    + unfold m2 in Hc. rewrite lookup_insert_eq in Hc. injection Hc as <-. rewrite (sp_pprev _ _ (rc_place _ _ _ _ Hr)).
      destruct H5 as [|[|]]; [done|by left|by right].
    + unfold m2 in Hc. rewrite lookup_insert_ne in Hc by done. destruct (U4 c nc Hc Hdc H0c Hg) as [Hin|(q & Eq & Hin)].
      * by apply elem_of_nil in Hin.
      * right. exists q. split; [done|]. by apply H2.
Qed.

Lemma arrival_fresh : NoDup ([p] ++ (cs_unlinked cs).*2).
Proof using HU Hp Hnd.
  clear Hm Hr cs2 m2. cbn. apply NoDup_cons. split; [|apply (ul_nodup _ _ HU)]. intros Hin. apply list_elem_of_fmap in Hin as ([k c] & -> & Hin).
  destruct (ul_entry _ _ HU k c Hin) as (q & nc & nq & _ & Hc & _ & Hd & _). cbn in Hp. congruence.
Qed.

End arrival.

Lemma IsValid_tree n : BLOCK_VALID_TREE <= level n -> IsValid BLOCK_VALID_TREE n = Some (negb (failed n)).
Proof.
  intros Hl. unfold IsValid, failed, level in *. change (negb (Z.land BLOCK_VALID_TREE (Z.lnot BLOCK_VALID_MASK) =? 0)) with false. cbn [negb].
  destruct (Z.land (bi_nStatus n) BLOCK_FAILED_MASK =? 0); cbn [negb]; [|done]. f_equal. zbool. lia.
Qed.

Lemma ReceivedBlockTransactions_spec cs x block p n pos witness :
  chain_inv addr (CChain_Tip (cs_active cs)) cs -> counts_ok (cs_index cs) -> unlinked_ok cs [] ->
  cs_index cs !! p = Some n -> has_data n = false -> 0 < u32 (Zlength (vtx block)) ->
  (forall n2, received (u32 (Zlength (vtx block))) pos n n2 ->
     matches (<[p := n2]> (cs_index cs)) (CChain_Tip (cs_active cs)) x /\ counts_fit (<[p := n2]> (cs_index cs))) ->
  cs_sequence cs + Z.of_nat (S (length (cs_unlinked cs))) < 2 ^ 31 ->
  exists cs', ReceivedBlockTransactions addr (with_effects cs x) block p pos witness = Some cs' /\
    chain_inv addr (CChain_Tip (cs_active cs')) cs' /\ counts_ok (cs_index cs') /\ unlinked_ok cs' [] /\ bookkept cs cs' /\
    exists n', cs_index cs' !! p = Some n' /\ has_data n' = true.
Proof.
  intros HI HC HU Hp Hnd Hpos Hm Hseq. pose proof (iv_tree _ _ _ HI) as HT. unfold ReceivedBlockTransactions.
  change (cs_index (with_effects cs x)) with (cs_index cs). rewrite Hp. cbn [mbind option_bind].
  destruct (raise_received _ _ _ _ (set_received_spec (u32 (Zlength (vtx block))) pos witness n)) as (n2 & b & -> & Hr & Hv).
  cbn [mbind option_bind]. destruct (Hm n2 Hr) as [Hm2 Hfit]. set (m2 := <[p := n2]> (cs_index cs)) in *.
  change (mark_dirty (with_index (with_effects cs x) (<[p:=n2]> (cs_index cs))) p) with (mark_dirty (with_index (with_effects cs x) m2) p).
  set (cs2 := mark_dirty (with_index (with_effects cs x) m2) p).
  pose proof (arrival_chain cs x p n n2 _ pos HI Hp Hnd Hr Hv Hm2) as HI2. pose proof (arrival_counts cs p n n2 _ pos HI HC Hp Hnd Hr Hpos) as HC2.
  fold m2 in HI2, HC2. fold cs2 in HI2.
  assert (bookkept cs cs2) as HB by (apply (bookkept_update cs cs2 p n n2); [done|apply Hr|done..]).
  pose proof (arrival_fresh cs p n HU Hp Hnd) as Hfresh. rewrite (sp_pprev _ _ (rc_place _ _ _ _ Hr)).
  assert (forall nq0, (forall q, bi_pprev n = Some q -> cs_index cs2 !! q = Some nq0 -> bi_nChainTx nq0 <> 0) ->
    (forall q nq, bi_pprev n = Some q -> cs_index cs2 !! q = Some nq -> nq = nq0) ->
    exists cs', link_queue addr (S (length (cs_unlinked cs2))) cs2 [p] = Some cs' /\
    chain_inv addr (CChain_Tip (cs_active cs')) cs' /\ counts_ok (cs_index cs') /\ unlinked_ok cs' [] /\ bookkept cs cs' /\
    exists n', cs_index cs' !! p = Some n' /\ has_data n' = true) as Hlink.
  { intros nq0 Hl Heq. destruct (link_queue_spec (S (length (cs_unlinked cs2))) cs2 [p] HI2 HC2 Hfit) as (cs' & -> & A1 & A2 & A3 & A4);
      [|cbn; lia|done|].
    2: { exists cs'. split_and!; try done; [by apply (bookkept_trans cs cs2)|].
      destruct (bk_kept _ _ A4 p n2) as (n' & Hn' & K); [apply lookup_insert_eq|]. exists n'. split; [done|]. by apply (kp_data _ _ K), (rc_data _ _ _ _ Hr). }
    apply (arrival_unlinked_ok cs p n n2 (u32 (Zlength (vtx block))) pos HI HU Hp Hnd Hr cs2 [p]); try done.
    - intros k c Hin. by left.
    - intros c ->%list_elem_of_singleton. split; [done|]. split_and!; [apply lookup_insert_eq|apply (rc_data _ _ _ _ Hr)|apply (rc_chain _ _ _ _ Hr)|].
      intros q nq Eq Hq. rewrite (sp_pprev _ _ (rc_place _ _ _ _ Hr)) in Eq. rewrite (Heq q nq Eq Hq). apply (Hl q Eq). by rewrite <- (Heq q nq Eq Hq).
    - right. left. by apply list_elem_of_singleton. }
  destruct (bi_pprev n) as [q|] eqn:Eq.
  2: { cbn [mbind option_bind]. apply (Hlink n); [by intros ?|by intros ? ?]. }
  destruct (parent_ok _ (to_index _ HT) p n q Hp Eq) as (nq & Hq & Eh).
  assert (cs_index cs2 !! q = Some nq) as Hq2 by (cbn; unfold m2; by rewrite lookup_insert_ne by (intros <-; simplify_eq; lia)).
  rewrite Hq2. cbn [mbind option_bind]. destruct (Z.eqb_spec (bi_nChainTx nq) 0) as [E0|E0]; cbn [negb].
  2: { apply (Hlink nq); [by intros ? _ _|]. intros ? ? [= <-] Hx. congruence. }
  rewrite (IsValid_tree nq) by (by apply (to_level _ HT q)). cbn [mbind option_bind]. eexists. split; [done|].
  destruct (failed nq) eqn:Ef; cbn [negb].
  - split; [exact HI2|]. split; [exact HC2|]. split; [|split; [exact HB|exists n2; split; [apply lookup_insert_eq|apply (rc_data _ _ _ _ Hr)]]].
    apply (arrival_unlinked_ok cs p n n2 (u32 (Zlength (vtx block))) pos HI HU Hp Hnd Hr cs2 []); try done.
    + intros k c Hin. by left.
    + apply (ul_nodup _ _ HU).
    + by intros c Hc%elem_of_nil.
    + left. exists q. split; [by apply (anc_parent _ p n)|by exists nq].
  - split; [destruct HI2; by split|]. split; [exact HC2|]. split; [|split; [destruct HB; by split|exists n2; split; [apply lookup_insert_eq|apply (rc_data _ _ _ _ Hr)]]].
    apply (arrival_unlinked_ok cs p n n2 (u32 (Zlength (vtx block))) pos HI HU Hp Hnd Hr _ []); try done; cbn [cs_unlinked with_unlinked].
    + intros k c [Hin|Hin]%elem_of_app; [by left|right]. apply list_elem_of_singleton in Hin as [= -> ->]. split_and!; [done..|]. by exists q, nq.
    + intros k c Hin. apply elem_of_app. by left.
    + cbn [app]. rewrite fmap_app. cbn. rewrite Permutation_app_comm. exact Hfresh.
    + by intros c Hc%elem_of_nil.
    + right. right. exists q. split; [done|]. apply elem_of_app. right. by apply list_elem_of_singleton.
Qed.

(** * Accepting the header *)

Lemma mark_failed_children_marks (P : uint256 -> Prop) k : forall fuel st f p n,
  (k < fuel)%nat -> index_ok (mapBlockIndex st) -> mapBlockIndex st !! p = Some n -> ancestor (mapBlockIndex st) k p = Some f ->
  (forall x, among (mapBlockIndex st) k p x -> P x) ->
  exists st', mark_failed_children fuel f p st = Some st' /\ marks P (mapBlockIndex st) (mapBlockIndex st').
Proof.
  induction k as [|k IH]; intros [|fuel] st f p n Hf Hok Hp Ha HP; try lia; cbn [mark_failed_children].
  { injection Ha as ->. rewrite bool_decide_eq_true_2 by done. exists st. split; [done|apply marks_refl]. }
  destruct (ancestor_inv _ Hok (S k) p n f Hp Ha) as (nf & Hnf & Eh).
  rewrite bool_decide_eq_false_2 by (intros ->; simplify_eq; lia). rewrite Hp. cbn [mbind option_bind].
  destruct (bi_pprev n) as [r|] eqn:Er.
  2: { cbn [ancestor] in Ha. rewrite Hp in Ha. cbn [mbind option_bind] in Ha. by rewrite Er in Ha. }
  cbn [mbind option_bind]. rewrite (ancestor_S _ k p n r Hp Er) in Ha.
  set (st1 := mkIndexState _ _ _). assert (marks P (mapBlockIndex st) (mapBlockIndex st1)) as M.
  { apply mark_marks; [by left|done|]. apply HP. exists O. split; [lia|done]. }
  pose proof (mk_tree _ _ _ M) as T. destruct (parent_ok _ Hok p n r Hp Er) as (nr & Hr & _).
  destruct (same_tree_lookup _ _ r nr T Hr) as (nr' & Hr' & _).
  destruct (IH fuel st1 f r nr') as (st' & -> & M'); [lia|by apply (same_tree_index (mapBlockIndex st))|done|
    by rewrite (same_tree_ancestor (mapBlockIndex st))| |].
  { intros x Hx. apply HP. apply (among_S _ k p n r x Hp Er). right. by apply (among_same _ _ k r x T). }
  exists st'. split; [done|]. by eapply marks_trans.
Qed.

Lemma check_failed_blocks_marks fs st p prev st' r :
  index_ok (mapBlockIndex st) -> mapBlockIndex st !! p = Some prev ->
  Forall (fun f => exists n, mapBlockIndex st !! f = Some n /\ Z.land (bi_nStatus n) BLOCK_FAILED_VALID <> 0) fs ->
  check_failed_blocks st fs p prev = (st', r) -> marks (bad (mapBlockIndex st)) (mapBlockIndex st) (mapBlockIndex st').
Proof.
  intros Hok Hp Hf. unfold check_failed_blocks. destruct (IsValid BLOCK_VALID_SCRIPTS prev) as [[]|]; try (intros [= <- _]; apply marks_refl).
  destruct (find_failed_ancestor_spec _ fs p prev Hok Hp Hf) as ([f|] & -> & Hr); [|intros [= <- _]; apply marks_refl].
  destruct Hr as [Hin [k Hk]]. destruct (ancestor_inv _ Hok k p prev f Hp Hk) as (nf & Hnf & Eh). pose proof (height_nonneg _ Hok f nf Hnf).
  destruct (mark_failed_children_marks (bad (mapBlockIndex st)) k (S (Z.to_nat (bi_nHeight prev))) st f p prev) as (st1 & -> & M);
    try done; [lia| |intros [= <- _]; done].
  intros x (j & Hj & Ej). exists f. split.
  - exists (k - j)%nat. replace k with (j + (k - j))%nat in Hk by lia. by rewrite ancestor_add, Ej in Hk.
  - exists nf. split; [done|]. rewrite Forall_forall in Hf. destruct (Hf f Hin) as (n' & Hn' & Hs). assert (n' = nf) as -> by congruence.
    unfold failed. apply negb_true_iff, Z.eqb_neq. intros E. apply Hs. unfold BLOCK_FAILED_MASK in E.
    rewrite Z.land_lor_distr_r in E. by apply Z.lor_eq_0_iff in E as [? _].
Qed.

Lemma same_entry_nTx n n' : same_entry n n' -> bi_nTx n' = bi_nTx n.
Proof. intros [[E _ _ _ _] _]. exact (f_equal bi_nTx E). Qed.

Lemma counts_ok_tree m m' : index_ok m -> same_tree m m' -> counts_ok m -> counts_ok m'.
Proof.
  intros Hok T HC. split.
  - intros p n' Hp. destruct (same_tree_lookup_r _ _ p n' T Hp) as (n & Hn & E). rewrite (same_entry_nTx _ _ E). by apply (ct_nonneg m HC p).
  - intros p n' Hp. destruct (same_tree_lookup_r _ _ p n' T Hp) as (n & Hn & E). rewrite (same_entry_nTx _ _ E), (se_data _ _ E).
    by apply (ct_data m HC p).
  - intros p n' Hp Htx. destruct (same_tree_lookup_r _ _ p n' T Hp) as (n & Hn & E).
    destruct (same_entry_fields _ _ E) as (_ & _ & Eh & _ & Ec & _). rewrite Ec in Htx |- *. rewrite (ct_linked m HC p n Hn Htx).
    unfold branch_tx. rewrite Eh. symmetry. apply sum_tx_eq; [|by eexists|done]. intros q nq _ Hq.
    destruct (same_tree_lookup _ _ q nq T Hq) as (nq' & Hq' & Eq). exists nq'. split; [done|].
    rewrite (same_entry_nTx _ _ Eq). by apply same_entry_fields in Eq as (-> & _).
Qed.

Lemma unlinked_ok_marks P cs cs' :
  marks P (cs_index cs) (cs_index cs') -> cs_unlinked cs' = cs_unlinked cs -> unlinked_ok cs [] -> unlinked_ok cs' [].
Proof.
  intros M EU [U1 U2 U3 U4]. pose proof (mk_tree _ _ _ M) as T. split; rewrite ?EU; try done.
  - intros k p Hin. destruct (U1 k p Hin) as (q & n & nq & -> & Hn & Eq & Hd & H0 & Hq & H0q).
    destruct (same_tree_lookup _ _ p n T Hn) as (n' & Hn' & E). destruct (same_tree_lookup _ _ q nq T Hq) as (nq' & Hq' & E').
    destruct (same_entry_fields _ _ E) as (E1 & _ & _ & _ & E5 & _). destruct (same_entry_fields _ _ E') as (_ & _ & _ & _ & F5 & _).
    exists q, n', nq'. rewrite (se_data _ _ E), E1, E5, F5. done.
  - by intros p Hp%elem_of_nil.
  - intros p n' Hp Hd H0 Hg. destruct (same_tree_lookup_r _ _ p n' T Hp) as (n & Hn & E).
    destruct (same_entry_fields _ _ E) as (E1 & _ & _ & _ & E5 & _). rewrite E1. apply U4; [done|by rewrite <- (se_data _ _ E)|congruence|].
    intros Hb. by apply Hg, (bad_kept P (cs_index cs)).
Qed.

Lemma same_tree_includes m m' : same_tree m m' -> includes m m'.
Proof.
  intros T p n Hp. destruct (same_tree_lookup _ _ p n T Hp) as (n' & Hp' & [[E _ _ _ _] _]). exists n'. split; [done|].
  split; [exact (f_equal bi_pprev E)|exact (f_equal bi_pskip E)|exact (f_equal bi_nHeight E)|exact (f_equal bi_nChainWork E)|
    exact (f_equal bi_nTime E)|exact (f_equal bi_nBits E)|exact (f_equal bi_nVersion E)].
Qed.

(** ** The invariant of the node *)

Context (params : ConsensusParams).

Record node_inv (nd : node X) : Prop := {
  ni_chain : chain_inv addr (CChain_Tip (cs_active (nd_cs nd))) (nd_cs nd);
  ni_headers : headers_ok params (elements (cs_failed (nd_cs nd))) (index_of nd);
  ni_counts : counts_ok (cs_index (nd_cs nd));
  ni_unlinked : unlinked_ok (nd_cs nd) [];
  ni_genesis : is_Some (cs_index (nd_cs nd) !! hashGenesisBlock params);
  ni_caches : caches_sound (cs_index (nd_cs nd)) (cp_deployments params) (nd_caches nd)
}.

Lemma node_inv_marks nd st :
  node_inv nd -> marks (bad (cs_index (nd_cs nd))) (cs_index (nd_cs nd)) (mapBlockIndex st) ->
  headers_ok params (elements (cs_failed (nd_cs nd))) st -> node_inv (with_headers nd st).
Proof.
  intros [HI HH HC HU HG HV] M Hh. pose proof (mk_tree _ _ _ M) as T. split; try done; cbn.
  - apply (chain_inv_marks addr (bad (cs_index (nd_cs nd))) _ (nd_cs nd)); try done.
    + by left.
    + apply (matches_tree (cs_index (nd_cs nd))); [done|apply HI].
    + intros q Hq. destruct (iv_best _ _ _ HI q Hq) as [nq Hnq]. destruct (same_tree_lookup _ _ q nq T Hnq) as (n' & ? & _). by eexists.
    + by apply (failed_ok_tree (nd_cs nd)); [..|apply HI].
  - by destruct st.
  - apply (counts_ok_tree (cs_index (nd_cs nd))); [apply HI|done..].
  - by apply (unlinked_ok_marks (bad (cs_index (nd_cs nd))) (nd_cs nd)).
  - destruct HG as [ng Hg]. destruct (same_tree_lookup _ _ _ ng T Hg) as (n' & ? & _). by eexists.
  - by apply (caches_sound_includes (cs_index (nd_cs nd))), HV; apply same_tree_includes.
Qed.

(** A new header: a leaf without data on a known parent. *)
Lemma tree_ok_insert m h n prev q :
  tree_ok m -> index_ok (<[h := n]> m) -> m !! h = None -> m !! q = Some prev -> bi_pprev n = Some q -> bi_nChainTx n = 0 ->
  wf256 (bi_nChainWork n) -> uval (bi_nChainWork prev) < uval (bi_nChainWork n) -> level_ok n -> tree_ok (<[h := n]> m).
Proof.
  intros [H1 H2 H3 H4 H5 H6 H7] Hok Hh Hq Eq H0 Hw Hlt Hlv.
  assert (forall p np, <[h := n]> m !! p = Some np -> (p = h /\ np = n) \/ (p <> h /\ m !! p = Some np)) as Hcase.
  { intros p np Hp. destruct (decide (p = h)) as [->|Hne]; [left; rewrite lookup_insert_eq in Hp; by injection Hp|right].
    by rewrite lookup_insert_ne in Hp. }
  assert (forall p np r, m !! p = Some np -> bi_pprev np = Some r -> r <> h) as Hpar.
  { intros p np r Hp Er ->. destruct (parent_ok m H1 p np h Hp Er) as (nh & Hnh & _). congruence. }
  split; [done|..].
  - intros p np Hp. destruct (Hcase p np Hp) as [[-> ->]|[_ Hp']]; [done|by apply (H2 p)].
  - intros p np r nr Hp Htx Er Hr. destruct (Hcase p np Hp) as [[-> ->]|[_ Hp']]; [done|].
    rewrite lookup_insert_ne in Hr by (symmetry; by apply (Hpar p np)). by apply (H3 p np r).
  - intros p np r nr Hp Er Hr. destruct (Hcase p np Hp) as [[-> ->]|[_ Hp']].
    + rewrite Eq in Er. injection Er as <-. rewrite lookup_insert_ne in Hr by congruence. by simplify_eq.
    + rewrite lookup_insert_ne in Hr by (symmetry; by apply (Hpar p np)). by apply (H4 p np r).
  - intros p np Hp Htx. destruct (Hcase p np Hp) as [[-> ->]|[_ Hp']]; [done|by apply (H5 p)].
  - intros p np r nr Hp Ep Hr Er. destruct (Hcase p np Hp) as [[-> ->]|[_ Hp']]; [congruence|].
    destruct (Hcase r nr Hr) as [[-> ->]|[_ Hr']]; [congruence|]. by apply (H6 p np r nr).
  - intros p np Hp. destruct (Hcase p np Hp) as [[-> ->]|[_ Hp']]; [done|by apply (H7 p)].
Qed.

Lemma keeps_linked_new (m : BlockMap) h n : m !! h = None -> keeps_linked m (<[h := n]> m).
Proof.
  intros Hh q nq Hq Htx. exists nq. rewrite lookup_insert_ne by congruence. split_and!; [done|apply same_entry_refl|done].
Qed.

Lemma bad_new m h n p np : index_ok m -> m !! h = None -> m !! p = Some np -> failed n = false -> bad (<[h := n]> m) p -> bad m p.
Proof.
  intros Hok Hh Hp Hf (q & [k Hk] & nq & Hq & Hfq). rewrite (ancestor_insert m h n k p np Hok Hh Hp) in Hk.
  exists q. split; [by exists k|]. destruct (decide (q = h)) as [->|Hne].
  - rewrite lookup_insert_eq in Hq. congruence.
  - rewrite lookup_insert_ne in Hq by done. by exists nq.
Qed.

Lemma counts_ok_new m h n : index_ok m -> m !! h = None -> bi_nTx n = 0 -> bi_nChainTx n = 0 -> has_data n = false ->
  counts_ok m -> counts_ok (<[h := n]> m).
Proof.
  intros Hok Hh Ht H0 Hd HC. split.
  - intros p np Hp. destruct (decide (p = h)) as [->|Hne]; [rewrite lookup_insert_eq in Hp; injection Hp as <-; lia|].
    rewrite lookup_insert_ne in Hp by done. by apply (ct_nonneg m HC p).
  - intros p np Hp Hdp. destruct (decide (p = h)) as [->|Hne]; [rewrite lookup_insert_eq in Hp; injection Hp as <-; congruence|].
    rewrite lookup_insert_ne in Hp by done. by apply (ct_data m HC p).
  - intros p np Hp Htx. destruct (decide (p = h)) as [->|Hne]; [rewrite lookup_insert_eq in Hp; injection Hp as <-; congruence|].
    rewrite lookup_insert_ne in Hp by done. rewrite (ct_linked m HC p np Hp Htx). symmetry. apply sum_tx_eq; [|by eexists|done].
    intros q nq _ Hq. exists nq. rewrite lookup_insert_ne by congruence. done.
Qed.

Lemma unlinked_ok_new cs cs' h n :
  index_ok (cs_index cs) -> cs_index cs !! h = None -> has_data n = false -> failed n = false ->
  cs_index cs' = <[h := n]> (cs_index cs) -> cs_unlinked cs' = cs_unlinked cs -> unlinked_ok cs [] -> unlinked_ok cs' [].
Proof.
  intros Hok Hh Hd Hf Ei EU [U1 U2 U3 U4]. split; rewrite ?EU; try done; rewrite Ei.
  - intros k p Hin. destruct (U1 k p Hin) as (q & np & nq & -> & Hp & Eq & Hdp & H0 & Hq & H0q). exists q, np, nq.
    rewrite !lookup_insert_ne by congruence. done.
  - by intros p Hp%elem_of_nil.
  - intros p np Hp Hdp H0 Hg. destruct (decide (p = h)) as [->|Hne]; [rewrite lookup_insert_eq in Hp; congruence|].
    rewrite lookup_insert_ne in Hp by done. apply U4; try done. intros (q & [k Hk] & nq & Hq & Hfq). apply Hg.
    exists q. split; [exists k; by rewrite (ancestor_insert _ h n k p np Hok Hh Hp)|]. exists nq. by rewrite lookup_insert_ne by congruence.
Qed.

(** The entry of a header that fits into the work. *)
Definition work_fits (m : BlockMap) (block : CBlockHeader) : Prop :=
  forall prev, m !! hashPrevBlock block = Some prev -> uval (bi_nChainWork prev) + proof_of (hdr_nBits block) < 2 ^ 256.

Lemma node_inv_new nd st block n prev :
  node_inv nd -> headers_ok params (elements (cs_failed (nd_cs nd))) st ->
  cs_index (nd_cs nd) !! CBlockHeader_GetHash block = None -> cs_index (nd_cs nd) !! hashPrevBlock block = Some prev ->
  mapBlockIndex st = <[CBlockHeader_GetHash block := n]> (cs_index (nd_cs nd)) -> entry_spec (cs_index (nd_cs nd)) block n ->
  0 < proof_of (hdr_nBits block) -> work_fits (cs_index (nd_cs nd)) block -> node_inv (with_headers nd st).
Proof.
  intros [HI HH HC HU HG HV] Hh Hnew Hprev Em (_ & _ & _ & _ & _ & _ & Etx & Ect & Est & Hs) Hw Hfit. rewrite Hprev in Hs.
  destruct Hs as (Epp & Eh & _ & Ew). specialize (Hfit prev Hprev). pose proof (iv_tree _ _ _ HI) as HT.
  pose proof (inv_index _ (ho_inv _ _ _ Hh)) as Hok'. rewrite Em in Hok'.
  assert (wf256 (bi_nChainWork n)) as Wn.
  { apply (inv_work _ (ho_inv _ _ _ Hh) (CBlockHeader_GetHash block)). rewrite Em. apply lookup_insert_eq. }
  assert (has_data n = false /\ failed n = false /\ level n = BLOCK_VALID_TREE) as (Hd & Hf & Hl).
  { unfold has_data, failed, level. by rewrite Est. }
  pose proof (wf256_range _ (to_works _ HT _ _ Hprev)).
  assert (tree_ok (<[CBlockHeader_GetHash block := n]> (cs_index (nd_cs nd)))) as HT'.
  { apply (tree_ok_insert _ _ n prev (hashPrevBlock block)); try done; [|split; rewrite ?Hl, ?Hd; done]. rewrite Ew, Z.mod_small by lia. lia. }
  assert (forall p, is_Some (cs_index (nd_cs nd) !! p) -> is_Some (mapBlockIndex st !! p)) as Hdom.
  { intros p [np Hp]. rewrite Em, lookup_insert_ne by congruence. by eexists. }
  split; try done; cbn.
  - apply (chain_inv_grow _ (nd_cs nd)); try done; cbn; rewrite ?Em; try done.
    + by apply keeps_linked_new.
    + intros p np Hp Ep. destruct (decide (p = CBlockHeader_GetHash block)) as [->|Hne].
      * rewrite lookup_insert_eq in Hp. congruence.
      * rewrite lookup_insert_ne in Hp by done. split; [by eexists|]. congruence.
    + intros q Hq. destruct (iv_failed _ _ _ HI q Hq) as (nq & Hnq & Hi). exists nq. cbn. rewrite lookup_insert_ne by congruence. done.
    + apply (matches_same (cs_index (nd_cs nd))); [| |apply HI].
      * intros t q Ht Ha. destruct (sd_entry _ _ (iv_tip _ _ _ HI t Ht)) as (nt & Hnt & _).
        destruct (anc_in _ t nt q (to_index _ HT) Hnt Ha) as (nq & Hq & _). rewrite lookup_insert_ne, Hq by congruence. apply same_block_refl.
      * intros p np Hp Hdp. destruct (decide (p = CBlockHeader_GetHash block)) as [->|Hne].
        -- rewrite lookup_insert_eq in Hp. congruence.
        -- rewrite lookup_insert_ne in Hp by done. by exists np.
    + intros p Hp. destruct (iv_candidates _ _ _ HI p Hp) as (np & Hnp & Htx). exists np. rewrite lookup_insert_ne by congruence. done.
    + intros p Hp. destruct (linked_update _ _ _ _ Hp) as [->|Hl']; [|by left].
      destruct Hp as (np & Hp & Htx). rewrite lookup_insert_eq in Hp. congruence.
  - by destruct st.
  - rewrite Em. apply counts_ok_new; try done. apply HT.
  - apply (unlinked_ok_new (nd_cs nd) _ (CBlockHeader_GetHash block) n); try done. apply HT.
  - by apply Hdom.
  - apply (caches_sound_includes (cs_index (nd_cs nd))), HV. rewrite Em. by apply extends_includes, extends_insert.
Qed.

(** The transactions counted for a block. *)
Definition tx_at (m : BlockMap) (p : uint256) : Z := match m !! p with Some n => bi_nTx n | None => 0 end.

Lemma tx_at_tree m m' p : same_tree m m' -> tx_at m' p = tx_at m p.
Proof.
  intros T. unfold tx_at. specialize (T p). destruct (m !! p) as [n|], (m' !! p) as [n'|]; try done.
  destruct T as [[E _ _ _ _ _] _]. by apply (f_equal bi_nTx) in E.
Qed.

Lemma accept_header_node nd block cps adj st r :
  node_inv nd -> params_ok (cp_pow params) -> header_wf block -> hashPrevBlock block <> CBlockHeader_GetHash block ->
  (CBlockHeader_GetHash block = hashGenesisBlock params -> cs_index (nd_cs nd) !! hashPrevBlock block = None) ->
  work_fits (cs_index (nd_cs nd)) block ->
  AcceptBlockHeader (index_of nd) (elements (cs_failed (nd_cs nd))) block params cps adj = (st, r) ->
  (node_inv (with_headers nd st) /\ forall q, tx_at (mapBlockIndex st) q = tx_at (cs_index (nd_cs nd)) q) /\ r <> Err Crash /\
  forall p, r = Ok p -> p = CBlockHeader_GetHash block /\ is_Some (mapBlockIndex st !! p).
Proof.
  intros HN Hpar Hwf Hne Hgen Hfit E. pose proof HN as [HI HH HC HU HG HV].
  pose proof (AcceptBlockHeader_spec (index_of nd) _ block params cps adj HH Hpar Hwf Hne Hgen) as HA. rewrite E in HA.
  destruct HA as (HH' & Hcr & _ & _ & Hdom). cbn [fst snd] in *. split; [|split; [done|]].
  2: { intros p ->. destruct Hdom as [-> Hd]. split; [done|]. apply elem_of_dom. rewrite Hd. set_solver. }
  assert (forall st0, marks (bad (cs_index (nd_cs nd))) (cs_index (nd_cs nd)) (mapBlockIndex st0) -> st = st0 ->
    node_inv (with_headers nd st) /\ forall q, tx_at (mapBlockIndex st) q = tx_at (cs_index (nd_cs nd)) q) as Hmarks.
  { intros st0 M <-. split; [by apply node_inv_marks|]. intros q. by apply tx_at_tree, (mk_tree _ _ _ M). }
  assert (st = index_of nd -> node_inv (with_headers nd st) /\ forall q, tx_at (mapBlockIndex st) q = tx_at (cs_index (nd_cs nd)) q) as Hsame.
  { intros E0. apply (Hmarks (index_of nd)); [|done]. apply marks_refl. }
  revert E. unfold AcceptBlockHeader. change (mapBlockIndex (index_of nd)) with (cs_index (nd_cs nd)). case_bool_decide as Eg.
  { unfold AddHeader, AddToBlockIndex. change (mapBlockIndex (index_of nd)) with (cs_index (nd_cs nd)). rewrite <- Eg in HG. destruct HG as [ng ->].
    intros [= <- _]. by apply Hsame. }
  destruct (cs_index (nd_cs nd) !! CBlockHeader_GetHash block) as [n|] eqn:Hn.
  { destruct (negb _); intros [= <- _]; by apply Hsame. }
  unfold CheckBlockHeader. cbn [andb]. destruct (CheckProofOfWork (CBlockHeader_GetHash block) _ _) eqn:Epow; cbn [negb];
    [|intros [= <- _]; by apply Hsame].
  destruct (cs_index (nd_cs nd) !! hashPrevBlock block) as [prev|] eqn:Hp; [|intros [= <- _]; by apply Hsame].
  destruct (negb (Z.land (bi_nStatus prev) BLOCK_FAILED_MASK =? 0)) eqn:Ef; [intros [= <- _]; by apply Hsame|].
  destruct (ContextualCheckBlockHeader _ _ _ _ _ _) as [[]|e]; [|intros [= <- _]; by apply Hsame].
  destruct (check_failed_blocks (index_of nd) _ _ prev) as [st1 r1] eqn:Ec.
  pose proof (check_failed_blocks_marks _ (index_of nd) _ prev st1 r1 (to_index _ (iv_tree _ _ _ HI)) Hp (ho_failed _ _ _ HH) Ec) as M.
  destruct (check_failed_blocks_spec params _ (index_of nd) _ prev HH Hp) as (st1' & r1' & Ec' & _ & _ & _ & _ & _ & Hst).
  { by apply negb_false_iff, Z.eqb_eq in Ef. }
  rewrite Ec in Ec'. injection Ec' as <- <-. destruct r1 as [[]|e].
  2: { intros [= <- _]. by apply (Hmarks st1). }
  specialize (Hst eq_refl) as ->. unfold AddHeader.
  destruct (AddToBlockIndex_new (index_of nd) block (ho_inv _ _ _ HH) Hwf Hne Hn) as (st' & n & -> & _ & Em & Hspec & _).
  intros [= <- _]. split.
  2: { intros q. rewrite Em. unfold tx_at. destruct (decide (q = CBlockHeader_GetHash block)) as [->|Hq].
       - rewrite lookup_insert_eq, Hn. apply Hspec.
       - by rewrite lookup_insert_ne by congruence. }
  apply (node_inv_new nd st' block n prev); try done.
  apply (CheckProofOfWork_work (CBlockHeader_GetHash block) _ (cp_pow params)); [apply Hwf|done].
Qed.
End grow.
