(* ===== verification/ProcessBlock.v ===== *)
(** * From a peer's block to the best chain (topchain/src/validation.cpp)

    [AcceptBlock] and [ProcessNewBlock] keep the invariant of the node whatever the block,
    crash on none that came over the wire, and leave the chain of most work active. *)

From Stdlib Require Import Strings.String.
From S2P Require Import Prelude Serialize Sha256 Primitives ArithUint256 Chain MedianTime Versionbits Pow FlatFile Script Coins TxVerify BlockCheck Headers CheckTotal ChainState Activation NewBlock.

#[local] Open Scope Z_scope.

(** What writing a block promises: it gets a place, and the state with the block at that
    place still matches the chain. *)
Class BlockStoreRules (X : Type) `{BlockRules X} `{BlockStore X} := {
  store_law : forall m t x block nHeight dbp p n x' r,
    tree_ok m -> m !! p = Some n -> has_data n = false -> given_ok p block -> matches m t x ->
    store_block x block nHeight dbp = (x', r) ->
    exists pos, r = Stored pos /\ forall n2, received (u32 (Zlength (vtx block))) pos n n2 -> matches (<[p := n2]> m) t x'
}.

Section process.
Context (addr : uint256 -> Z) (Haddr : forall p q, addr p = addr q -> p = q).
Context {X : Type} `{HS : BlockStoreRules X}.
Context (params : ConsensusParams) (rev_checkpoints : list (Z * uint256)) (nMinimumChainWork : base_uint).
Context (Hpar : params_ok (cp_pow params)) (Hdep : deployments_ok (cp_deployments params)).

(** ** The invariant through changes of the chain state *)

Lemma index_inv_same st st' :
  index_inv st -> includes (mapBlockIndex st) (mapBlockIndex st') ->
  (forall p, is_Some (mapBlockIndex st' !! p) -> is_Some (mapBlockIndex st !! p)) ->
  pindexBestHeader st' = pindexBestHeader st -> index_ok (mapBlockIndex st') -> index_inv st'.
Proof.
  intros [Hok Hw Hb] Hi Hd Eb Hok'.
  assert (forall p n', mapBlockIndex st' !! p = Some n' -> exists n, mapBlockIndex st !! p = Some n /\ same_header n n') as Hback.
  { intros p n' Hp. destruct (Hd p ltac:(by eexists)) as [n Hn]. destruct (Hi p n Hn) as (n0 & Hn0 & E).
    exists n. split; [done|]. by assert (n' = n0) as -> by congruence. }
  split; [done|..].
  - intros p n' Hp. destruct (Hback p n' Hp) as (n & Hn & E). rewrite (sh_work _ _ E). by apply (Hw p).
  - rewrite Eb. destruct (pindexBestHeader st) as [b|].
    + destruct Hb as (nb & Hnb & Hmax). destruct (Hi b nb Hnb) as (nb' & Hnb' & Eb'). exists nb'. split; [done|].
      intros p n' Hp. destruct (Hback p n' Hp) as (n & Hn & E). rewrite (sh_work _ _ E), (sh_work _ _ Eb'). by apply (Hmax p).
    + apply map_empty. intros p. apply eq_None_not_Some. intros [n' Hp]. destruct (Hback p n' Hp) as (n & Hn & _). by rewrite Hb in Hn.
Qed.

Lemma headers_ok_chain nd cs' w :
  headers_ok params (elements (cs_failed (nd_cs nd))) (index_of nd) -> includes (cs_index (nd_cs nd)) (cs_index cs') ->
  (forall p, is_Some (cs_index cs' !! p) -> is_Some (cs_index (nd_cs nd) !! p)) -> chain_inv addr w cs' ->
  headers_ok params (elements (cs_failed cs')) (index_of (with_cs nd cs')).
Proof.
  intros Hh Hi Hd HI. apply (headers_ok_same params (elements (cs_failed (nd_cs nd))) _ (index_of nd)); try done.
  - apply (index_inv_same (index_of nd)); try done; [apply Hh|]. apply (to_index _ (iv_tree _ _ _ HI)).
  - apply Forall_forall. intros f Hf%elem_of_elements. destruct (iv_failed _ _ _ HI f Hf) as (n & Hn & Hv). exists n. split; [done|].
    unfold invalid in Hv. by apply negb_true_iff, Z.eqb_neq in Hv.
Qed.

Lemma node_inv_caches nd caches :
  node_inv addr params nd -> caches_sound (cs_index (nd_cs nd)) (cp_deployments params) caches ->
  node_inv addr params (mkNode (nd_cs nd) (nd_best_header nd) caches).
Proof. intros [A1 A2 A3 A4 A5 A6] Hc. by split. Qed.

Lemma node_times nd : node_inv addr params nd -> times_sound (cs_index (nd_cs nd)).
Proof. intros HN. destruct (ni_headers _ _ _ HN). split; [apply ho_inv|done..]. Qed.

(** Bookkeeping of a received block. *)
Lemma node_inv_bookkept nd cs' caches :
  node_inv addr params nd -> bookkept (nd_cs nd) cs' -> chain_inv addr (CChain_Tip (cs_active cs')) cs' ->
  counts_ok (cs_index cs') -> unlinked_ok cs' [] -> caches_sound (cs_index (nd_cs nd)) (cp_deployments params) caches ->
  node_inv addr params (mkNode cs' (nd_best_header nd) caches).
Proof.
  intros [HI HH HC HU HG HV] [B1 B2 B3 B4] HI' HC' HU' Hca.
  assert (includes (cs_index (nd_cs nd)) (cs_index cs')) as Hinc.
  { intros p n Hp. destruct (B1 p n Hp) as (n' & Hp' & K). exists n'. split; [done|apply K]. }
  split; try done; cbn.
  - by apply (headers_ok_chain nd cs' (CChain_Tip (cs_active cs'))).
  - destruct HG as [ng Hg]. destruct (B1 _ ng Hg) as (n' & ? & _). by eexists.
  - by apply (caches_sound_includes (cs_index (nd_cs nd))).
Qed.

(** Marking of blocks and a change of the active chain. *)
Lemma node_inv_change P nd cs' :
  node_inv addr params nd -> chain_inv addr (CChain_Tip (cs_active cs')) cs' -> marks P (cs_index (nd_cs nd)) (cs_index cs') ->
  cs_unlinked cs' = cs_unlinked (nd_cs nd) -> node_inv addr params (with_cs nd cs').
Proof.
  intros [HI HH HC HU HG HV] A1 A2 A3. pose proof (mk_tree _ _ _ A2) as T. pose proof (same_tree_includes _ _ T) as Hinc.
  split; cbn; try done.
  - apply (headers_ok_chain nd cs' (CChain_Tip (cs_active cs'))); try done. intros p [n' Hp].
    destruct (same_tree_lookup_r _ _ p n' T Hp) as (n & ? & _). by eexists.
  - apply (counts_ok_tree (cs_index (nd_cs nd))); [apply HI|done..].
  - by apply (unlinked_ok_marks P (nd_cs nd)).
  - destruct HG as [ng Hg]. destruct (same_tree_lookup _ _ _ ng T Hg) as (n' & ? & _). by eexists.
  - by apply (caches_sound_includes (cs_index (nd_cs nd))).
Qed.

Lemma node_inv_activated nd cs' :
  node_inv addr params nd -> activated addr (nd_cs nd) cs' -> node_inv addr params (with_cs nd cs').
Proof. intros HN [A1 A2 A3 A4]. by apply (node_inv_change (explained (cs_index (nd_cs nd)))). Qed.

(** A block that breaks a rule is marked. *)
Lemma reject_block_spec nd block p n e :
  node_inv addr params nd -> cs_index (nd_cs nd) !! p = Some n -> has_data n = false ->
  exists nd', reject_block nd block p e = (nd', block, true, Err e) /\ node_inv addr params nd'.
Proof.
  intros HN Hp Hd. unfold reject_block, mark_rejected. destruct e as [r| |]; [|by exists nd..].
  destruct (rj_corruptionPossible r); [by exists nd|]. rewrite (or_status_index _ (nd_cs nd) p n Hp). cbn [mbind option_bind].
  eexists. split; [done|]. destruct HN as [HI HH HC HU HG HV]. pose proof (iv_tree _ _ _ HI) as HT.
  set (m := <[p := set_status (Z.lor (bi_nStatus n) BLOCK_FAILED_VALID) n]> (cs_index (nd_cs nd))).
  assert (marks (fun q => q = p) (cs_index (nd_cs nd)) m) as M by (apply mark_marks; [by right|done..]).
  pose proof (mk_tree _ _ _ M) as T. pose proof (same_tree_includes _ _ T) as Hinc.
  assert (bi_nChainTx n = 0) as Hz by (apply dec_stable; intros Hne; rewrite (to_data _ HT p n Hp Hne) in Hd; done).
  set (cs' := mark_dirty (with_index (nd_cs nd) m) p).
  assert (chain_inv addr (CChain_Tip (cs_active cs')) cs') as HI'.
  { apply (chain_inv_marks addr (fun q => q = p) _ (nd_cs nd)); try done.
    - intros q ->. right. right. by exists n.
    - apply (matches_tree (cs_index (nd_cs nd))); [done|apply HI].
    - intros q Hq. destruct (iv_best _ _ _ HI q Hq) as [nq Hnq]. destruct (same_tree_lookup _ _ q nq T Hnq) as (n' & ? & _). by eexists.
    - by apply (failed_ok_tree (nd_cs nd)); [..|apply HI]. }
  split; try done.
  - apply (headers_ok_chain nd cs' (CChain_Tip (cs_active cs'))); try done. intros q [n' Hq].
    destruct (same_tree_lookup_r _ _ q n' T Hq) as (n0 & ? & _). by eexists.
  - apply (counts_ok_tree (cs_index (nd_cs nd))); [apply HT|done..].
  - by apply (unlinked_ok_marks (fun q => q = p) (nd_cs nd)).
  - destruct HG as [ng Hg]. destruct (same_tree_lookup _ _ _ ng T Hg) as (n' & ? & _). by eexists.
  - by apply (caches_sound_includes (cs_index (nd_cs nd))).
Qed.

(** ** Room for the counts *)

(** The transactions of all entries together. *)
Definition total_tx (m : BlockMap) : Z := map_fold (fun _ n acc => bi_nTx n + acc) 0 m.

Lemma total_tx_delete m p n : m !! p = Some n -> total_tx m = bi_nTx n + total_tx (delete p m).
Proof. intros Hp. unfold total_tx. rewrite (map_fold_delete_L _ _ p n m); [done| |done]. intros. lia. Qed.

Lemma total_tx_insert m p n : m !! p = None -> total_tx (<[p := n]> m) = bi_nTx n + total_tx m.
Proof. intros Hp. unfold total_tx. rewrite map_fold_insert_L; [done| |done]. intros. lia. Qed.

Lemma total_tx_update m p n n2 : m !! p = Some n -> total_tx (<[p := n2]> m) = total_tx m - bi_nTx n + bi_nTx n2.
Proof.
  intros Hp. rewrite <- insert_delete_eq, total_tx_insert by apply lookup_delete_eq. rewrite (total_tx_delete m p n Hp). lia.
Qed.

Lemma total_tx_nonneg m : (forall p n, m !! p = Some n -> 0 <= bi_nTx n) -> 0 <= total_tx m.
Proof.
  induction m as [|p n m Hp IH] using map_ind; intros Hn; [done|]. rewrite total_tx_insert by done.
  assert (0 <= bi_nTx n) by (apply (Hn p); by rewrite lookup_insert_eq).
  enough (0 <= total_tx m) by lia. apply IH. intros q nq Hq. apply (Hn q). rewrite lookup_insert_ne by congruence. done.
Qed.

(** A branch visits no entry twice. *)
Lemma sum_tx_total m : index_ok m -> counts_ok m -> forall k m' p n, m !! p = Some n ->
  (forall q nq, m' !! q = Some nq -> m !! q = Some nq) ->
  (forall q nq, m !! q = Some nq -> bi_nHeight nq <= bi_nHeight n -> m' !! q = Some nq) -> sum_tx m k p <= total_tx m'.
Proof.
  intros Hok HC. induction k as [|k IH]; intros m' p n Hp Hsub Hall; cbn [sum_tx].
  { apply total_tx_nonneg. intros q nq Hq. apply (ct_nonneg m HC q). by apply Hsub. }
  rewrite Hp, (total_tx_delete m' p n) by (apply Hall; [done|lia]). apply Z.add_le_mono_l.
  destruct (bi_pprev n) as [q|] eqn:Eq.
  - destruct (parent_ok m Hok p n q Hp Eq) as (nq & Hq & Eh). apply (IH _ q nq Hq).
    + intros r nr Hr. apply lookup_delete_Some in Hr as [_ Hr]. by apply Hsub.
    + intros r nr Hr Hle. rewrite lookup_delete_ne by (intros <-; simplify_eq; lia). apply Hall; [done|lia].
  - apply total_tx_nonneg. intros q nq Hq. apply lookup_delete_Some in Hq as [_ Hq]. apply (ct_nonneg m HC q). by apply Hsub.
Qed.

Lemma counts_fit_total m : index_ok m -> counts_ok m -> total_tx m < 2 ^ 32 -> counts_fit m.
Proof.
  intros Hok HC Ht p n Hp. unfold branch_tx. pose proof (sum_tx_total m Hok HC (S (Z.to_nat (bi_nHeight n))) m p n Hp ltac:(done) ltac:(done)). lia.
Qed.

(** ** [AcceptBlock] *)

(** A block as it comes over the wire, with room for it in the counters of the node, and
    the same block for its hash as everywhere else. *)
Record offered (nd : node X) (block : CBlock) : Prop := {
  of_header : header_wf (block_header block);
  of_txs : txs_wf block;
  of_prev : hashPrevBlock (block_header block) <> CBlockHeader_GetHash (block_header block);
  of_genesis : CBlockHeader_GetHash (block_header block) = hashGenesisBlock params ->
    cs_index (nd_cs nd) !! hashPrevBlock (block_header block) = None;
  of_work : work_fits (cs_index (nd_cs nd)) (block_header block);
  of_room : total_tx (cs_index (nd_cs nd)) + Zlength (vtx block) < 2 ^ 32;
  of_sequence : cs_sequence (nd_cs nd) + Z.of_nat (S (length (cs_unlinked (nd_cs nd)))) < 2 ^ 31;
  of_given : forall b, block_header b = block_header block -> vtx b = vtx block ->
    given_ok (CBlockHeader_GetHash (block_header block)) b
}.

(** [CheckBlock] returns the block itself, and only one with a coinbase. *)
Definition checks (block : CBlock) : Prop :=
  forall b, CheckBlock block params true true = Ok b -> block_header b = block_header block /\ vtx b = vtx block /\ has_coinbase block.

Lemma checks_fresh block : fChecked block = false -> txs_wf block -> checks block /\
  forall b, CheckBlock block params true true = Ok b -> checks b.
Proof.
  intros Hf [_ Hl]. destruct (CheckBlock_spec block params true true Hf Hl) as [Hok Heq].
  assert (forall b, CheckBlock block params true true = Ok b -> b = set_fChecked block /\ has_coinbase block) as Hb.
  { intros b E. pose proof (Heq b E) as ->. split; [done|]. destruct (bv_coinbase _ _ _ _ (proj1 Hok E)) as (first & rest & Ev & Hcb & _).
    destruct (coinbase_input first Hcb) as [i Ei]. by exists first, rest, i. }
  split.
  - intros b E. destruct (Hb b E) as [-> Hcb]. done.
  - intros b E. destruct (Hb b E) as [-> Hcb]. intros b' E'. cbn in E'. injection E' as <-. done.
Qed.

Lemma skip_unrequested_total nd n : node_inv addr params nd -> is_Some (skip_unrequested nMinimumChainWork nd n).
Proof.
  intros HN. unfold skip_unrequested. destruct (CChain_Tip (cs_active (nd_cs nd))) as [t|] eqn:Et; [|by eexists].
  destruct (sd_entry _ _ (iv_tip _ _ _ (ni_chain _ _ _ HN) t Et)) as (nt & -> & _). by eexists.
Qed.

Lemma vtx_count block : has_coinbase block -> txs_wf block -> 0 < u32 (Zlength (vtx block)) /\ u32 (Zlength (vtx block)) = Zlength (vtx block).
Proof.
  intros (first & rest & i & Ev & _) [_ Hl]. assert (0 < Zlength (vtx block)).
  { rewrite Ev, Zlength_cons. pose proof (Zlength_nonneg rest). lia. }
  rewrite wrapu_small by (split; lia). done.
Qed.

Lemma arrival_fits cs p n n2 nTx pos :
  chain_inv addr (CChain_Tip (cs_active cs)) cs -> counts_ok (cs_index cs) -> cs_index cs !! p = Some n -> has_data n = false ->
  received nTx pos n n2 -> 0 < nTx -> total_tx (cs_index cs) + nTx < 2 ^ 32 -> counts_fit (<[p := n2]> (cs_index cs)).
Proof.
  intros HI HC Hp Hd Hr Hpos Hroom. pose proof (arrival_counts addr cs p n n2 nTx pos HI HC Hp Hd Hr Hpos) as HC2.
  apply counts_fit_total; [|done|].
  - apply (same_places_index (cs_index cs)); [|apply HI]. apply (same_places_insert _ _ n); [done|apply Hr].
  - rewrite (total_tx_update _ _ n n2 Hp), (rc_nTx _ _ _ _ Hr). pose proof (ct_nonneg _ HC _ n Hp). lia.
Qed.

(** Writing the block and recording its transactions. *)
Lemma AcceptBlock_store_spec nd block n dbp :
  node_inv addr params nd -> cs_index (nd_cs nd) !! CBlockHeader_GetHash (block_header block) = Some n -> has_data n = false ->
  has_coinbase block -> txs_wf block -> given_ok (CBlockHeader_GetHash (block_header block)) block ->
  total_tx (cs_index (nd_cs nd)) + Zlength (vtx block) < 2 ^ 32 ->
  cs_sequence (nd_cs nd) + Z.of_nat (S (length (cs_unlinked (nd_cs nd)))) < 2 ^ 31 ->
  exists nd', AcceptBlock_store addr params nd block (CBlockHeader_GetHash (block_header block)) n dbp =
      (nd', block, true, Ok (CBlockHeader_GetHash (block_header block))) /\ node_inv addr params nd' /\
    exists n', cs_index (nd_cs nd') !! CBlockHeader_GetHash (block_header block) = Some n' /\ has_data n' = true.
Proof using Haddr Hdep HS.
  intros HN Hp Hd Hcb Hwf Hg Hroom Hseq. pose proof HN as [HI HH HC HU HG HV]. pose proof (iv_tree _ _ _ HI) as HT.
  destruct (vtx_count block Hcb Hwf) as [Hpos Hu]. unfold AcceptBlock_store.
  destruct (store_block (cs_effects (nd_cs nd)) block (bi_nHeight n) dbp) as [x r] eqn:Es.
  destruct (store_law _ _ _ block _ dbp _ n x r HT Hp Hd Hg (iv_match _ _ _ HI) Es) as (pos & -> & Hm).
  cbn [with_cs nd_cs nd_best_header nd_caches]. change (cs_index (with_effects (nd_cs nd) x)) with (cs_index (nd_cs nd)).
  destruct (IsWitnessEnabled_total (cs_index (nd_cs nd)) (bi_pprev n) params (nd_caches nd) (node_times nd HN) Hdep HV) as (caches & w & -> & Hca).
  { destruct (bi_pprev n) as [q|] eqn:Eq; [|done]. destruct (parent_ok _ (to_index _ HT) _ n q Hp Eq) as (nq & Hq & _). by eexists. }
  destruct (ReceivedBlockTransactions_spec addr Haddr (nd_cs nd) x block _ n pos w HI HC HU Hp Hd Hpos) as (cs' & -> & HI' & HC' & HU' & HB & Hdata).
  - intros n2 Hr. split; [by apply Hm|]. apply (arrival_fits _ _ n n2 _ pos HI HC Hp Hd Hr Hpos). by rewrite Hu.
  - done.
  - eexists. split; [done|]. split; [by apply node_inv_bookkept|done].
Qed.

Lemma total_tx_zero m : (forall p, tx_at m p = 0) -> total_tx m = 0.
Proof.
  induction m as [|p n m Hp IH] using map_ind; intros Hz; [done|]. rewrite total_tx_insert by done.
  pose proof (Hz p) as Ep. unfold tx_at in Ep. rewrite lookup_insert_eq in Ep. rewrite Ep, IH; [done|]. intros q. specialize (Hz q).
  unfold tx_at in *. destruct (decide (q = p)) as [->|Hq]; [by rewrite Hp|]. by rewrite lookup_insert_ne in Hz by congruence.
Qed.

Lemma tx_at_delete m p q : tx_at (delete p m) q = if decide (q = p) then 0 else tx_at m q.
Proof. unfold tx_at. case_decide as E; [subst; by rewrite lookup_delete_eq|by rewrite lookup_delete_ne by congruence]. Qed.

Lemma total_tx_at m m' : (forall p, tx_at m' p = tx_at m p) -> total_tx m' = total_tx m.
Proof.
  revert m'. induction m as [|p n m Hp IH] using map_ind; intros m' He; [by apply total_tx_zero|].
  rewrite total_tx_insert by done. rewrite <- (IH (delete p m')).
  - specialize (He p). unfold tx_at in He at 2. rewrite lookup_insert_eq in He. unfold tx_at in He.
    destruct (m' !! p) as [n'|] eqn:Hp'; [by rewrite (total_tx_delete m' p n' Hp'), He|]. rewrite delete_id by done. lia.
  - intros q. rewrite tx_at_delete. case_decide as E; [subst; unfold tx_at; by rewrite Hp|]. rewrite He. unfold tx_at.
    by rewrite lookup_insert_ne by congruence.
Qed.

Lemma parent_known m p n : index_ok m -> m !! p = Some n -> match bi_pprev n with Some q => is_Some (m !! q) | None => True end.
Proof.
  intros Hok Hp. destruct (bi_pprev n) as [q|] eqn:Eq; [|done]. destruct (parent_ok m Hok p n q Hp Eq) as (nq & ? & _). by eexists.
Qed.

Lemma safe_err {A B : Type} e : safe (Err e : result failure A) -> safe (Err e : result failure B).
Proof. intros Hs [= ->]. by apply Hs. Qed.

(** What a call of [AcceptBlock] leaves. *)
Record accepted (nd' : node X) (block block' : CBlock) (fRequested : bool) (r : result failure uint256) : Prop := {
  ad_inv : node_inv addr params nd';
  ad_safe : safe r;
  ad_block : block_header block' = block_header block /\ vtx block' = vtx block;
  ad_stored : forall p, r = Ok p -> p = CBlockHeader_GetHash (block_header block) /\
    (fRequested = true -> exists n, cs_index (nd_cs nd') !! p = Some n /\ has_data n = true)
}.

Lemma AcceptBlock_spec nd block fRequested adj :
  node_inv addr params nd -> offered nd block -> checks block ->
  exists nd' block' fNew r, AcceptBlock addr params rev_checkpoints nMinimumChainWork nd block fRequested None adj = (nd', block', fNew, r) /\
    accepted nd' block block' fRequested r.
Proof using Haddr Hdep HS Hpar.
  intros HN [O1 O2 O3 O4 O5 O6 O7 O8] Hck. unfold AcceptBlock. set (p := CBlockHeader_GetHash (block_header block)) in *.
  destruct (AcceptBlockHeader (index_of nd) _ _ _ _ _) as [st [q|e]] eqn:E;
    destruct (accept_header_node addr Haddr params nd _ _ _ st _ HN Hpar O1 O3 O4 O5 E) as ((HN1 & Htx) & Hcr & Hok).
  2: { eexists _, _, _, _. split; [done|]. by split. }
  destruct (Hok q eq_refl) as (Eq & n & Hn). fold p in Eq. subst q. rewrite Hn.
  destruct (has_data n) eqn:Hd.
  { eexists _, _, _, _. split; [done|]. split; [done..|]. intros ? [= <-]. split; [done|]. intros _. by exists n. }
  assert (exists b, (if fRequested then Some false else skip_unrequested nMinimumChainWork (with_headers nd st) n) = Some b /\
    (fRequested = true -> b = false)) as (b & -> & Hb).
  { destruct fRequested; [by eexists|]. destruct (skip_unrequested_total _ n HN1) as [b ->]. by exists b. }
  destruct b.
  { eexists _, _, _, _. split; [done|]. split; [done..|]. intros ? [= <-]. split; [done|]. intros ->. by specialize (Hb eq_refl). }
  clear Hb. pose proof (CheckBlock_safe block params true true O2) as Hs1.
  destruct (CheckBlock block params true true) as [b|e] eqn:Ec.
  2: { destruct (reject_block_spec (with_headers nd st) block p n e HN1 Hn Hd) as (nd' & -> & HN'). eexists _, _, _, _. split; [done|].
       split; [done|by eapply safe_err|done|done]. }
  destruct (Hck b Ec) as (Eh & Ev & Hcb).
  assert (txs_wf b /\ has_coinbase b) as [Hwf' Hcb'] by (unfold txs_wf, has_coinbase in *; by rewrite Ev).
  pose proof (iv_tree _ _ _ (ni_chain _ _ _ HN1)) as HT.
  destruct (ContextualCheckBlock (mapBlockIndex st) b params (bi_pprev n) _) as [caches r] eqn:Ecc.
  destruct (ContextualCheckBlock_total (mapBlockIndex st) b params (bi_pprev n) _ caches r (node_times _ HN1) Hdep (ni_caches _ _ _ HN1)
    (parent_known _ p n (to_index _ HT) Hn) Hwf' Hcb' Ecc) as [Hca Hs2].
  set (nd2 := mkNode _ _ caches). assert (node_inv addr params nd2) as HN2 by by apply (node_inv_caches (with_headers nd st)).
  destruct r as [u|e].
  2: { destruct (reject_block_spec nd2 b p n e HN2 Hn Hd) as (nd' & -> & HN'). eexists _, _, _, _. split; [done|]. split; [done|by eapply safe_err|done|done]. }
  assert (CBlockHeader_GetHash (block_header b) = p) as Ep by (unfold p; by rewrite Eh).
  destruct (AcceptBlock_store_spec nd2 b n None HN2) as (nd' & Es & HN' & Hst); rewrite ?Ep; try done.
  - by apply O8.
  - rewrite Ev. change (cs_index (nd_cs nd2)) with (mapBlockIndex st). by rewrite (total_tx_at _ _ Htx).
  - rewrite Ep in Es, Hst. rewrite Es. eexists _, _, _, _. split; [done|]. split; [done..|]. by intros ? [= <-].
Qed.

(** ** [ProcessNewBlock] *)

(** All blocks of the branch of [p] are stored and none is marked as failed. *)
Definition complete (m : BlockMap) (p : uint256) : Prop :=
  is_Some (m !! p) /\ forall q nq, anc m p q -> m !! q = Some nq -> has_data nq = true /\ failed nq = false.

Lemma complete_linked (cs : chainstate X) p : index_ok (cs_index cs) -> unlinked_ok cs [] -> complete (cs_index cs) p ->
  linked_in (cs_index cs) p /\ ~ bad (cs_index cs) p.
Proof.
  intros Hok HU. assert (forall q, complete (cs_index cs) q -> ~ bad (cs_index cs) q) as Hbad.
  { intros q [_ Hc] (a & Ha & na & Hna & Hf). destruct (Hc a na Ha Hna) as [_ ?]. congruence. }
  intros Hc. split; [|by apply Hbad]. assert (exists h, forall n, cs_index cs !! p = Some n -> bi_nHeight n <= Z.of_nat h) as [h Hh].
  { destruct Hc as [[n Hn] _]. exists (Z.to_nat (bi_nHeight n)). intros n' ?. simplify_eq. lia. }
  revert p Hc Hh. induction h as [|h IH]; intros p Hc Hh; pose proof Hc as [[n Hn] Hall]; exists n; (split; [done|]); intros Hz;
    destruct (Hall p n (anc_refl _ p) Hn) as [Hdata _];
    destruct (ul_complete _ _ HU p n Hn Hdata Hz (Hbad p Hc)) as [Hnil|(q & Eq & Hin)]; try (by apply elem_of_nil in Hnil);
    destruct (ul_entry _ _ HU _ _ Hin) as (q' & n' & nq & [= <-] & ? & ? & ? & ? & Hq & Hzq);
    destruct (parent_ok _ Hok p n q Hn Eq) as (nq' & ? & Ehq); simplify_eq; specialize (Hh n Hn).
  - pose proof (height_nonneg _ Hok q nq Hq). lia.
  - destruct (IH q) as (nq0 & Hq0 & Hne); [|intros ? ?; simplify_eq; lia|simplify_eq; done].
    split; [by eexists|]. intros a na Ha. apply Hall. by apply (anc_step _ p n q).
Qed.

(** What a call of [ProcessNewBlock] leaves. *)
Record processed (nd' : node X) (block : CBlock) (force : bool) (r : result failure unit) : Prop := {
  pd_inv : node_inv addr params nd';
  pd_safe : safe r;
  pd_best : r = Ok tt -> forall p, complete (cs_index (nd_cs nd')) p ->
    exists t, CChain_Tip (cs_active (nd_cs nd')) = Some t /\ at_most addr (cs_index (nd_cs nd')) p t;
  pd_stored : r = Ok tt -> force = true ->
    exists n, cs_index (nd_cs nd') !! CBlockHeader_GetHash (block_header block) = Some n /\ has_data n = true
}.

Lemma ProcessNewBlock_spec nd block force adj :
  node_inv addr params nd -> fChecked block = false -> offered nd block ->
  exists nd' fNew r, ProcessNewBlock addr params rev_checkpoints nMinimumChainWork nd block force adj = (nd', fNew, r) /\
    processed nd' block force r.
Proof using Haddr Hdep HS Hpar.
  intros HN Hf Hof. unfold ProcessNewBlock. pose proof (CheckBlock_safe block params true true (of_txs _ _ Hof)) as Hs.
  destruct (checks_fresh block Hf (of_txs _ _ Hof)) as [Hck0 Hck].
  destruct (CheckBlock block params true true) as [b|e] eqn:Ec.
  2: { eexists _, _, _. split; [done|]. split; [done|by eapply safe_err|done|done]. }
  destruct (Hck0 b Ec) as (Eh & Ev & _).
  assert (offered nd b) as Hof'.
  { destruct Hof as [O1 O2 O3 O4 O5 O6 O7 O8]. split; rewrite ?Eh, ?Ev; try done. unfold txs_wf in *. by rewrite Ev. }
  destruct (AcceptBlock_spec nd b force adj HN Hof' (Hck b eq_refl)) as (nd1 & b1 & fNew & r & -> & [A1 A2 [A3 A4] A5]).
  destruct r as [p|e].
  2: { eexists _, _, _. split; [done|]. split; [done|by eapply safe_err|done|done]. }
  assert (forall b2, Some b1 = Some b2 -> given_ok (CBlockHeader_GetHash (block_header b2)) b2) as Hg.
  { intros ? [= <-]. rewrite A3. apply (of_given _ _ Hof'); congruence. }
  destruct (ActivateBestChain_spec addr Haddr _ (nd_cs nd1) (Some b1) Hg (ni_chain _ _ _ A1)) as (cs' & -> & Hact).
  pose proof (node_inv_activated nd1 cs' A1 Hact) as HN'. eexists _, _, _. split; [done|]. split; [done..| |].
  - intros _ q Hq. destruct (complete_linked cs' q) as [(n & Hn & Hz) Hb]; [apply HN'..|done|]. by apply (ac_best _ _ _ Hact q n).
  - intros _ Hfo. destruct (A5 p eq_refl) as [-> Hst]. destruct (Hst Hfo) as (n & Hn & Hd). rewrite Eh in Hn.
    destruct (same_tree_lookup _ _ _ n (mk_tree _ _ _ (ac_marks _ _ _ Hact)) Hn) as (n' & Hn' & E). exists n'. split; [done|].
    destruct E as [[_ -> _ _ _ _] _]. done.
Qed.

End process.
