(* ===== verification/Invalidate.v ===== *)
(** * Declaring a block invalid by hand (topchain/src/validation.cpp)

    [InvalidateBlock] takes a block out of the active chain, marks it and what was connected
    on top of it, and makes every block a candidate that is now as good as the tip. *)

From Stdlib Require Import Strings.String.
From S2P Require Import Prelude Serialize Sha256 Primitives ArithUint256 Chain ChainState Activation NewBlock ProcessBlock.

#[local] Open Scope Z_scope.

Section invalidate.
Context (addr : uint256 -> Z) {X : Type} `{BlockEffects X}.

(** [while (chainActive.Contains(pindex))]: the state, [pindex_was_in_chain], and whether
    every [DisconnectTip] succeeded. *)
Fixpoint disconnect_while (fuel : nat) (cs : chainstate X) (pindex : uint256) (was_in_chain : bool)
  : option (chainstate X * bool * bool) :=
  c ← CChain_Contains (cs_index cs) (cs_active cs) pindex;
  if negb c then Some (cs, was_in_chain, true)
  else
    match fuel with
    | O => None
    | S fuel =>
        '(cs, ok) ← DisconnectTip cs;
        if ok : bool then disconnect_while fuel cs pindex true else Some (cs, true, false)
    end.

(** [while (pindex_was_in_chain && invalid_walk_tip != pindex)] *)
Fixpoint mark_walk (fuel : nat) (cs : chainstate X) (walk : option uint256) (pindex : uint256) : option (chainstate X) :=
  if bool_decide (walk = Some pindex) then Some cs
  else
    match fuel, walk with
    | S fuel, Some q =>
        n ← cs_index cs !! q;
        cs ← or_status cs BLOCK_FAILED_CHILD q;
        mark_walk fuel (erase_candidate (mark_dirty cs q) q) (bi_pprev n) pindex
    | _, _ => None
    end.

(** The loop over [mapBlockIndex] that adds candidates. *)
Fixpoint add_candidates (cs : chainstate X) (l : list uint256) : option (chainstate X) :=
  match l with
  | [] => Some cs
  | q :: l =>
      n ← cs_index cs !! q;
      valid ← IsValid BLOCK_VALID_TRANSACTIONS n;
      if (valid : bool) && negb (bi_nChainTx n =? 0) then
        tip ← CChain_Tip (cs_active cs);
        w ← worse addr (cs_index cs) q tip;
        add_candidates (if w : bool then cs else with_candidates cs ({[q]} ∪ cs_candidates cs)) l
      else add_candidates cs l
  end.

(** [InvalidateBlock]; the flag is its result. *)
Definition InvalidateBlock (cs : chainstate X) (pindex : uint256) : option (chainstate X * bool) :=
  let invalid_walk_tip := CChain_Tip (cs_active cs) in
  let fuel := length (cs_active cs) in
  '(cs, pindex_was_in_chain, ok) ← disconnect_while fuel cs pindex false;
  if negb ok then Some (cs, false)
  else
    cs ← (if pindex_was_in_chain : bool then mark_walk fuel cs invalid_walk_tip pindex else Some cs);
    cs ← or_status cs BLOCK_FAILED_VALID pindex;
    let cs := erase_candidate (mark_dirty cs pindex) pindex in
    let cs := with_failed cs ({[pindex]} ∪ cs_failed cs) in
    cs ← add_candidates cs (map_to_list (cs_index cs)).*1;
    cs ← InvalidChainFound cs pindex;
    Some (cs, true).

End invalidate.

Section facts.
Context (addr : uint256 -> Z) (Haddr : forall p q, addr p = addr q -> p = q).
Context {X : Type} `{HR : BlockRules X}.

(** The chain is cut below the block. *)
Lemma disconnect_while_spec w fuel cs t nt p n q was :
  chain_inv addr w cs -> CChain_Tip (cs_active cs) = Some t -> cs_index cs !! t = Some nt -> anc (cs_index cs) t p ->
  cs_index cs !! p = Some n -> bi_pprev n = Some q -> bi_nHeight nt < Z.of_nat fuel ->
  exists cs', disconnect_while fuel cs p was = Some (cs', true, true) /\ chain_inv addr w cs' /\ CChain_Tip (cs_active cs') = Some q /\ moved cs cs'.
Proof.
  revert cs t nt was. induction fuel as [|fuel IH]; intros cs t nt was HI Ht Hn Ha Hp Eq Hfuel;
    pose proof (to_index _ (iv_tree _ _ _ HI)) as Hok; pose proof (height_nonneg _ Hok t nt Hn); [lia|].
  cbn [disconnect_while]. destruct (Contains_spec _ _ p n Hok (iv_chain _ _ _ HI) Hp) as (b & -> & Hb). cbn [mbind option_bind].
  assert (b = true) as -> by (apply Hb; by exists t). cbn [negb].
  assert (exists r, bi_pprev nt = Some r /\ (t = p /\ r = q \/ anc (cs_index cs) r p)) as (r & Er & Hr).
  { destruct (anc_inv _ t nt p Hn Ha) as [->|(r & Er & Hr)]; [|exists r; tauto]. exists q. split; [congruence|tauto]. }
  destruct (DisconnectTip_spec addr w cs t nt r HI Ht Hn Er) as (nr & x & Hnr & -> & HI'). cbn [mbind option_bind].
  destruct (parent_ok _ Hok t nt r Hn Er) as (nr' & Hnr' & Eh). assert (nr' = nr) as -> by congruence.
  destruct Hr as [[-> ->]|Hr].
  - eexists. split; [|split; [exact HI'|split; [by apply Tip_branch|done]]]. set (cs1 := with_active _ _) in *.
    assert (CChain_Contains (cs_index cs1) (cs_active cs1) p = Some false) as Hc.
    { destruct (Contains_spec _ _ p n (to_index _ (iv_tree _ _ _ HI')) (iv_chain _ _ _ HI') Hp) as (b & -> & Hb').
      destruct b; [|done]. destruct (proj1 Hb' eq_refl) as (t' & Ht' & Ha'). change (cs_active cs1) with (branch (cs_index cs) q nr) in Ht'. rewrite (Tip_branch _ q nr Hnr) in Ht'.
      injection Ht' as <-. destruct (anc_in _ q nr p Hok Hnr Ha') as (n' & Hn' & Hle). simplify_eq. lia. }
    destruct fuel; cbn [disconnect_while]; by rewrite Hc.
  - destruct (IH _ r nr true HI') as (cs' & -> & HI'' & Ht' & Hm); try done; [by apply Tip_branch|lia|].
    exists cs'. split_and!; [done..|]. unfold moved in *. by rewrite Hm at 1.
Qed.

(** The state apart from marks, dirty entries and candidates. *)
Definition only_marks (cs cs' : chainstate X) : Prop :=
  cs' = with_dirty (with_candidates (with_index cs (cs_index cs')) (cs_candidates cs')) (cs_dirty cs').

Lemma mark_walk_spec fuel cs t nt p n :
  tree_ok (cs_index cs) -> cs_index cs !! t = Some nt -> anc (cs_index cs) t p -> cs_index cs !! p = Some n -> bi_nHeight nt < Z.of_nat fuel ->
  exists cs', mark_walk fuel cs (Some t) p = Some cs' /\ marks (fun r => anc (cs_index cs) r p) (cs_index cs) (cs_index cs') /\
    cs_candidates cs' ⊆ cs_candidates cs /\ only_marks cs cs'.
Proof.
  revert cs t nt n. induction fuel as [|fuel IH]; intros cs t nt n HT Ht Ha Hp Hfuel;
    pose proof (to_index _ HT) as Hok; pose proof (height_nonneg _ Hok t nt Ht); [lia|]. cbn [mark_walk]. case_bool_decide as E.
  { exists cs. split; [done|]. split; [apply marks_refl|]. split; [done|]. by destruct cs. }
  destruct (anc_inv _ t nt p Ht Ha) as [->|(r & Er & Hr)]; [done|]. destruct (parent_ok _ Hok t nt r Ht Er) as (nr & Hnr & Eh).
  rewrite Ht. cbn [mbind option_bind]. rewrite (or_status_index _ cs t nt Ht). cbn [mbind option_bind]. rewrite Er.
  set (m1 := <[t := _]> (cs_index cs)). set (cs1 := erase_candidate _ _).
  assert (marks (fun r => anc (cs_index cs) r p) (cs_index cs) m1) as M1 by (apply mark_marks; [by left|done..]).
  pose proof (mk_tree _ _ _ M1) as T1. destruct (same_tree_lookup _ _ r nr T1 Hnr) as (nr1 & Hnr1 & Sr).
  destruct (same_tree_lookup _ _ p n T1 Hp) as (n1 & Hp1 & _). apply same_entry_fields in Sr as (_ & _ & Ehr & _).
  destruct (IH cs1 r nr1 n1) as (cs' & -> & M2 & Hc & Ho); try done; [by apply (tree_ok_same (cs_index cs))|by apply (anc_same _ _ r p T1)|lia|].
  exists cs'. split; [done|]. split; [|split; [cbn in Hc; set_solver|]].
  - apply (marks_trans _ _ m1); [done|]. eapply marks_impl; [|exact M2]. intros a Ha'. by apply (anc_same _ _ a p T1).
  - unfold only_marks in *. by rewrite Ho at 1.
Qed.

(** The blocks that qualify join, nothing else changes. *)
Lemma add_candidates_spec l (cs : chainstate X) t nt :
  tree_ok (cs_index cs) -> CChain_Tip (cs_active cs) = Some t -> cs_index cs !! t = Some nt -> (forall q, q ∈ l -> is_Some (cs_index cs !! q)) ->
  exists s, add_candidates addr cs l = Some (with_candidates cs s) /\ cs_candidates cs ⊆ s /\
    (forall q, q ∈ s -> q ∈ cs_candidates cs \/ linked_in (cs_index cs) q) /\
    (forall q nq, q ∈ l -> cs_index cs !! q = Some nq -> bi_nChainTx nq <> 0 -> failed nq = false -> q ∈ s \/ less addr (cs_index cs) q t).
Proof.
  revert cs. induction l as [|q l IH]; intros cs HT Ht Hnt Hl.
  { exists (cs_candidates cs). split; [by destruct cs|]. split; [done|]. split; [by left|]. by intros q nq Hq%elem_of_nil. }
  cbn [add_candidates]. destruct (Hl q) as [n Hn]; [by left|]. rewrite Hn. cbn [mbind option_bind]. unfold IsValid.
  change (negb (Z.land BLOCK_VALID_TRANSACTIONS (Z.lnot BLOCK_VALID_MASK) =? 0)) with false. cbn [negb]. fold (failed n) (level n).
  assert (forall r, r ∈ l -> is_Some (cs_index cs !! r)) as Hl' by (intros r Hr; apply Hl; by right).
  set (valid := if failed n then _ else _).
  assert (exists v : bool, valid = Some v /\ (failed n = false -> bi_nChainTx n <> 0 -> v = true)) as (v & -> & Hv).
  { unfold valid. destruct (failed n) eqn:Ef; [by exists false|]. eexists. split; [done|]. intros _ Htx.
    destruct (to_level _ HT q n Hn) as [_ Hlv]. specialize (Hlv (to_data _ HT q n Hn Htx) Ef). zbool. lia. }
  cbn [mbind option_bind]. destruct (v && negb (bi_nChainTx n =? 0)) eqn:Ev.
  - apply andb_true_iff in Ev as [_ Hz%negb_true_iff%Z.eqb_neq]. rewrite Ht. cbn [mbind option_bind].
    destruct (worse_spec addr (cs_index cs) q n t nt (to_works _ HT) Hn Hnt) as (b & -> & Hb). cbn [mbind option_bind]. destruct b.
    + destruct (IH cs HT Ht Hnt Hl') as (s & -> & S1 & S2 & S3). exists s. split_and!; try done. intros r nr [->|Hr]%elem_of_cons Hnr Htx Hf.
      * right. by apply Hb.
      * by apply (S3 r nr).
    + destruct (IH (with_candidates cs ({[q]} ∪ cs_candidates cs)) HT Ht Hnt Hl') as (s & -> & S1 & S2 & S3). exists s. cbn in S1, S2.
      split; [done|]. split; [set_solver|]. split.
      * intros r Hr. destruct (S2 r Hr) as [Hr'|]; [|by right]. apply elem_of_union in Hr' as [->%elem_of_singleton|]; [|by left].
        right. by exists n.
      * intros r nr [->|Hr]%elem_of_cons Hnr Htx Hf; [left; set_solver|]. by apply (S3 r nr).
  - destruct (IH cs HT Ht Hnt Hl') as (s & -> & S1 & S2 & S3). exists s. split_and!; try done. intros r nr [->|Hr]%elem_of_cons Hnr Htx Hf.
    + assert (nr = n) as -> by congruence. rewrite (Hv Hf Htx) in Ev. cbn in Ev. apply negb_false_iff, Z.eqb_eq in Ev. done.
    + by apply (S3 r nr).
Qed.

(** Marks on blocks that do not lead to [t] leave it sound. *)
Lemma sound_apart m m' t p :
  tree_ok m -> sound m t -> marks (fun r => anc m r p) m m' -> ~ anc m t p -> sound m' t.
Proof.
  intros HT [(n & Hn & Htx) Hg Hr] [T HK HN] Hap. split.
  - destruct (same_tree_lookup _ _ t n T Hn) as (n' & Hn' & E). exists n'. split; [done|].
    apply same_entry_fields in E as (_ & _ & _ & _ & -> & _). done.
  - intros (a & Ha & Hf). apply (anc_same _ _ t a T) in Ha. destruct (HN a Hf) as [Hf'|Hf'].
    + apply Hg. by exists a.
    + apply Hap. by eapply anc_trans.
  - intros a Ha. apply Hr. by apply (anc_same _ _ t a T).
Qed.

(** What the end of [InvalidateBlock] needs: the block is out of the chain, and new marks
    are on it and on what was built on it. *)
Record cut (cs cs' : chainstate X) (p : uint256) : Prop := {
  cu_marks : marks (fun r => anc (cs_index cs) r p) (cs_index cs) (cs_index cs');
  cu_chain : chain_ok (cs_index cs') (cs_active cs');
  cu_tip : exists t, CChain_Tip (cs_active cs') = Some t /\ sound (cs_index cs) t /\ ~ anc (cs_index cs) t p;
  cu_match : matches (cs_index cs') (CChain_Tip (cs_active cs')) (cs_effects cs');
  cu_candidates : cs_candidates cs' ⊆ cs_candidates cs;
  cu_best : cs_best_invalid cs' = cs_best_invalid cs;
  cu_failed : cs_failed cs' = cs_failed cs;
  cu_unlinked : cs_unlinked cs' = cs_unlinked cs
}.

(** Both loops, if the block was in the chain; nothing, if not. *)
Lemma cut_spec cs p n q :
  chain_inv addr (CChain_Tip (cs_active cs)) cs -> is_Some (CChain_Tip (cs_active cs)) -> cs_index cs !! p = Some n -> bi_pprev n = Some q ->
  exists cs1 was cs2, disconnect_while (length (cs_active cs)) cs p false = Some (cs1, was, true) /\
    (if was : bool then mark_walk (length (cs_active cs)) cs1 (CChain_Tip (cs_active cs)) p else Some cs1) = Some cs2 /\ cut cs cs2 p /\
    (if was then CChain_Tip (cs_active cs2) = Some q /\ in_chain (cs_index cs) (cs_active cs) p
     else cs2 = cs /\ ~ in_chain (cs_index cs) (cs_active cs) p).
Proof.
  intros HI [t Ht] Hp Eq. pose proof (iv_tree _ _ _ HI) as HT. pose proof (to_index _ HT) as Hok.
  pose proof (chain_ok_tip _ _ (iv_chain _ _ _ HI)) as Hc. rewrite Ht in Hc. destruct Hc as (nt & Hnt & Ec).
  destruct (Contains_spec _ _ p n Hok (iv_chain _ _ _ HI) Hp) as (b & Eb & Hb). destruct b.
  - destruct (proj1 Hb eq_refl) as (t' & Ht' & Ha). assert (t' = t) as -> by congruence.
    pose proof (height_nonneg _ Hok t nt Hnt). assert (bi_nHeight nt < Z.of_nat (length (cs_active cs))) as Hlen
      by (rewrite Ec, length_branch; lia).
    destruct (disconnect_while_spec _ _ cs t nt p n q false HI Ht Hnt Ha Hp Eq Hlen) as (cs1 & E1 & HI1 & Ht1 & Hmv).
    assert (cs_index cs1 = cs_index cs /\ cs_candidates cs1 = cs_candidates cs /\ cs_best_invalid cs1 = cs_best_invalid cs /\
      cs_failed cs1 = cs_failed cs /\ cs_unlinked cs1 = cs_unlinked cs) as (Ei & E2 & E3 & E4 & E5) by by rewrite Hmv.
    destruct (mark_walk_spec (length (cs_active cs)) cs1 t nt p n) as (cs2 & Ew & M & Hcd & Ho); rewrite ?Ei; try done.
    assert (cs_active cs2 = cs_active cs1 /\ cs_effects cs2 = cs_effects cs1 /\ cs_best_invalid cs2 = cs_best_invalid cs1 /\
      cs_failed cs2 = cs_failed cs1 /\ cs_unlinked cs2 = cs_unlinked cs1) as (F1 & F2 & F3 & F4 & F5) by by rewrite Ho.
    pose proof (mk_tree _ _ _ M) as T. exists cs1, true, cs2. rewrite Ht. split_and!; [done..| |by rewrite F1|by apply Hb].
    rewrite Ei in M, T. split; rewrite ?F1, ?F2, ?F3, ?F4, ?F5; try congruence.
    + apply (same_tree_chain (cs_index cs1)); [by rewrite Ei|apply HI1].
    + exists q. split; [done|]. split; [rewrite <- Ei; by apply (iv_tip _ _ _ HI1)|]. intros Haq.
      destruct (parent_ok _ Hok p n q Hp Eq) as (nq & Hq & Eh). destruct (anc_in _ q nq p Hok Hq Haq) as (n' & Hn' & Hle). simplify_eq. lia.
    + apply (matches_tree (cs_index cs1)); [by rewrite Ei|apply HI1].
    + by rewrite <- E2.
  - exists cs, false, cs. assert (disconnect_while (length (cs_active cs)) cs p false = Some (cs, false, true)) as ->
      by (destruct (length (cs_active cs)); cbn [disconnect_while]; by rewrite Eb).
    split_and!; try done; [|by rewrite <- Hb]. split; try done; [apply marks_refl|apply HI| |apply HI]. exists t. split; [done|].
    split; [by apply (iv_tip _ _ _ HI)|]. intros Ha. apply diff_false_true, Hb. by exists t.
Qed.

(** What [InvalidateBlock] leaves: the invariant, the block out of the chain and marked,
    with new marks only on it and on what was built on it. *)
Record invalidated (cs cs' : chainstate X) (p q : uint256) : Prop := {
  ia_inv : chain_inv addr (CChain_Tip (cs_active cs')) cs';
  ia_marks : marks (fun r => anc (cs_index cs) r p) (cs_index cs) (cs_index cs');
  ia_failed : failed_in (cs_index cs') p;
  ia_listed : cs_failed cs' = {[p]} ∪ cs_failed cs;
  ia_tip : in_chain (cs_index cs) (cs_active cs) p -> CChain_Tip (cs_active cs') = Some q;
  ia_out : ~ in_chain (cs_index cs) (cs_active cs) p -> cs_active cs' = cs_active cs;
  ia_unlinked : cs_unlinked cs' = cs_unlinked cs
}.

Lemma InvalidateBlock_spec cs p n q :
  chain_inv addr (CChain_Tip (cs_active cs)) cs -> is_Some (CChain_Tip (cs_active cs)) -> cs_index cs !! p = Some n -> bi_pprev n = Some q ->
  exists cs', InvalidateBlock addr cs p = Some (cs', true) /\ invalidated cs cs' p q.
Proof.
  intros HI Htip Hp Eq. pose proof (iv_tree _ _ _ HI) as HT.
  destruct (cut_spec cs p n q HI Htip Hp Eq) as (cs1 & was & cs2 & E1 & E2 & [C1 C2 (t & Ht & Hs & Hat) C4 C5 C6 C7 C8] & Hwas).
  unfold InvalidateBlock. rewrite E1. cbn [mbind option_bind negb]. rewrite E2. cbn [mbind option_bind].
  destruct (same_tree_lookup _ _ p n (mk_tree _ _ _ C1) Hp) as (n2 & Hp2 & _).
  rewrite (or_status_index _ cs2 p n2 Hp2). cbn [mbind option_bind]. set (m := <[p := _]> (cs_index cs2)).
  set (cs3 := with_failed _ _).
  assert (marks (fun r => anc (cs_index cs) r p) (cs_index cs) m) as M.
  { apply (marks_trans _ _ (cs_index cs2)); [done|]. apply mark_marks; [by right|done|]. apply anc_refl. }
  pose proof (mk_tree _ _ _ M) as T. pose proof (tree_ok_same _ _ T HT) as HT3.
  pose proof (sound_apart _ _ t p HT Hs M Hat) as Hs3. destruct (sd_entry _ _ Hs3) as (nt & Hnt & _).
  change (cs_index cs3) with m.
  destruct (add_candidates_spec (map_to_list m).*1 cs3 t nt HT3 Ht Hnt) as (s & -> & S1 & S2 & S3).
  { intros r Hr. apply list_elem_of_fmap in Hr as ([r' nr] & -> & Hin). apply elem_of_map_to_list in Hin. by exists nr. }
  assert (m !! p = Some (set_status (Z.lor (bi_nStatus n2) BLOCK_FAILED_VALID) n2)) as Hp3 by apply lookup_insert_eq.
  cbn [mbind option_bind]. unfold InvalidChainFound. set (cs4 := with_candidates cs3 s).
  assert (best_ok cs4) as HB.
  { intros r Hr. cbn in Hr. rewrite C6 in Hr. destruct (iv_best _ _ _ HI r Hr) as [nr Hnr].
    destruct (same_tree_lookup _ _ r nr T Hnr) as (nr' & ? & _). by exists nr'. }
  destruct (update_best_invalid_spec cs4 p _ HB Hp3) as (b & -> & HB5). cbn [mbind option_bind].
  change (cs_active (with_best_invalid cs4 b)) with (cs_active cs2). rewrite Ht. cbn [mbind option_bind].
  eexists. split; [done|]. split; try done.
  - split; cbn; rewrite ?Ht; try done.
    + intros r nr Hr Er. destruct (same_tree_lookup_r _ _ r nr T Hr) as (n0 & H0 & S0). apply same_entry_fields in S0 as (E & _).
      apply (iv_root _ _ _ HI r n0); congruence.
    + apply (same_tree_chain (cs_index cs2)); [|done]. apply (mark_marks (fun r => r = p) _ _ _ n2); [by right|done..].
    + intros r Hr. destruct (S2 r Hr) as [Hr'|]; [|done]. change (cs_candidates cs3) with (cs_candidates cs2 ∖ {[p]}) in Hr'. apply elem_of_difference in Hr' as [Hr' _]. apply C5 in Hr'.
      destruct (iv_candidates _ _ _ HI r Hr') as (nr & Hnr & Htx). destruct (same_tree_lookup _ _ r nr T Hnr) as (nr' & ? & E).
      exists nr'. split; [done|]. apply same_entry_fields in E as (_ & _ & _ & _ & -> & _). done.
    + intros r Hr. change (r ∈ {[p]} ∪ cs_failed cs2) in Hr. apply elem_of_union in Hr as [->%elem_of_singleton|Hr].
      * eexists. split; [exact Hp3|]. unfold invalid. cbn [bi_nStatus set_status]. apply negb_true_iff, Z.eqb_neq. rewrite Z.lor_comm. by apply land_lor_ne0.
      * rewrite C7 in Hr. destruct (iv_failed _ _ _ HI r Hr) as (nr & Hnr & Hi). destruct (same_tree_lookup _ _ r nr T Hnr) as (nr' & ? & [S _]).
        exists nr'. split; [done|]. by apply (sb_invalid _ _ S).
    + apply (matches_tree (cs_index cs2)); [apply (mark_marks (fun r => r = p) _ _ _ n2); [by right|done..]|exact C4].
    + intros t' Ht'. change (CChain_Tip (cs_active cs2) = Some t') in Ht'. by assert (t' = t) as -> by congruence.
    + intros t' Ht'. change (CChain_Tip (cs_active cs2) = Some t') in Ht'. by assert (t' = t) as -> by congruence.
    + intros r nr Hr Htx Hg. assert (failed nr = false) as Hf.
      { apply not_true_iff_false. intros Hf. apply Hg. exists r. split; [apply anc_refl|by exists nr]. }
      destruct (S3 r nr) as [?|?]; [|done..|by left|right; by exists t].
      apply list_elem_of_fmap. exists (r, nr). split; [done|]. by apply elem_of_map_to_list.
  - eexists. split; [exact Hp3|]. by apply mark_entry; right.
  - cbn. by rewrite C7.
  - intros Hin. destruct was; [by destruct Hwas|]. by destruct Hwas.
  - intros Hin. destruct was; [by destruct Hwas|]. by destruct Hwas as [-> _].
Qed.

End facts.
