(* ===== verification/Reconsider.v ===== *)
(** * Taking back that a block is invalid (topchain/src/validation.cpp)

    [ResetBlockFailureFlags] unmarks a block, what was built on it, and what it was built
    on. It does so for the entries of the index; of the set [g_failed_blocks] it clears the
    descendants and forgets the ancestors, and [AcceptBlockHeader] asserts on the next
    header that those are still marked. *)

From Stdlib Require Import Strings.String.
From S2P Require Import Prelude Serialize Sha256 Primitives ArithUint256 Chain MedianTime Versionbits Pow FlatFile Script Coins TxVerify BlockCheck Headers ChainState Activation NewBlock ProcessBlock Invalidate.

#[local] Open Scope Z_scope.

(** [nStatus &= ~BLOCK_FAILED_MASK] *)
Definition clear_failed (n : CBlockIndex) : CBlockIndex := set_status (Z.land (bi_nStatus n) (Z.lnot BLOCK_FAILED_MASK)) n.

Section reset.
Context (addr : uint256 -> Z) {X : Type}.

(** The body of the loop over [mapBlockIndex] for the entry [q]. *)
Definition reset_entry (cs : chainstate X) (pindex : uint256) (nHeight : Z) (q : uint256) : option (chainstate X) :=
  n ← cs_index cs !! q;
  valid ← IsValid BLOCK_VALID_TRANSACTIONS n;
  if valid : bool then Some cs
  else
    a ← GetAncestor (cs_index cs) q nHeight;
    if negb (bool_decide (a = Some pindex)) then Some cs
    else
      let n := clear_failed n in
      let cs := mark_dirty (with_index cs (<[q := n]> (cs_index cs))) q in
      valid ← IsValid BLOCK_VALID_TRANSACTIONS n;
      cs ← (if (valid : bool) && negb (bi_nChainTx n =? 0) then
              tip ← CChain_Tip (cs_active cs);
              w ← worse addr (cs_index cs) tip q;
              Some (if w : bool then with_candidates cs ({[q]} ∪ cs_candidates cs) else cs)
            else Some cs);
      let cs := if bool_decide (cs_best_invalid cs = Some q) then with_best_invalid cs None else cs in
      Some (with_failed cs (cs_failed cs ∖ {[q]})).

Fixpoint reset_entries (cs : chainstate X) (pindex : uint256) (nHeight : Z) (l : list uint256) : option (chainstate X) :=
  match l with
  | [] => Some cs
  | q :: l => cs ← reset_entry cs pindex nHeight q; reset_entries cs pindex nHeight l
  end.

(** [while (pindex != nullptr)] *)
Fixpoint reset_ancestors (fuel : nat) (cs : chainstate X) (pindex : option uint256) : option (chainstate X) :=
  match fuel, pindex with
  | _, None => Some cs
  | O, Some _ => None
  | S fuel, Some q =>
      n ← cs_index cs !! q;
      let cs := if failed n then mark_dirty (with_index cs (<[q := clear_failed n]> (cs_index cs))) q else cs in
      reset_ancestors fuel cs (bi_pprev n)
  end.

Definition ResetBlockFailureFlags (cs : chainstate X) (pindex : uint256) : option (chainstate X) :=
  n ← cs_index cs !! pindex;
  cs ← reset_entries cs pindex (bi_nHeight n) (map_to_list (cs_index cs)).*1;
  reset_ancestors (S (Z.to_nat (bi_nHeight n))) cs (Some pindex).

End reset.

(** * What is cleared *)

Lemma clear_idemp n : clear_failed (clear_failed n) = clear_failed n.
Proof.
  unfold clear_failed, set_status. cbn. by rewrite <- Z.land_assoc, Z.land_diag.
Qed.

Lemma clear_place n : same_place n (clear_failed n).
Proof. by split. Qed.

Lemma clear_not_failed n : failed (clear_failed n) = false.
Proof.
  unfold failed, clear_failed. cbn [bi_nStatus set_status]. rewrite <- Z.land_assoc.
  change (Z.land (Z.lnot BLOCK_FAILED_MASK) BLOCK_FAILED_MASK) with 0. by rewrite Z.land_0_r.
Qed.

Lemma invalid_failed n : invalid n = true -> failed n = true.
Proof.
  unfold invalid, failed. rewrite !negb_true_iff, !Z.eqb_neq. intros H E. apply H.
  change BLOCK_FAILED_VALID with (Z.land BLOCK_FAILED_MASK BLOCK_FAILED_VALID). by rewrite Z.land_assoc, E.
Qed.

Lemma clear_level n : level (clear_failed n) = level n.
Proof.
  unfold level, clear_failed. cbn [bi_nStatus set_status]. rewrite <- Z.land_assoc.
  by change (Z.land (Z.lnot BLOCK_FAILED_MASK) BLOCK_VALID_MASK) with BLOCK_VALID_MASK.
Qed.

Lemma IsValid_transactions n : exists b, IsValid BLOCK_VALID_TRANSACTIONS n = Some b /\ (failed n = true -> b = false).
Proof.
  unfold IsValid. change (negb (Z.land BLOCK_VALID_TRANSACTIONS (Z.lnot BLOCK_VALID_MASK) =? 0)) with false. cbn [negb].
  fold (failed n). destruct (failed n); by eexists.
Qed.

(** Every entry is as it was or cleared, and only those of [P] are cleared. *)
Record clears (P : uint256 -> Prop) (m m' : BlockMap) : Prop := {
  cl_dom : forall q, is_Some (m' !! q) <-> is_Some (m !! q);
  cl_entry : forall q n, m !! q = Some n -> m' !! q = Some n \/ P q /\ m' !! q = Some (clear_failed n)
}.

Lemma clears_refl P m : clears P m m.
Proof. split; [done|]. by left. Qed.

Lemma clears_trans P a b c : clears P a b -> clears P b c -> clears P a c.
Proof.
  intros [A1 A2] [B1 B2]. split; [intros q; by rewrite B1|]. intros q n Hq. destruct (A2 q n Hq) as [H1|[HP H1]].
  - by apply B2.
  - right. split; [done|]. destruct (B2 q _ H1) as [H2|[_ H2]]; [done|]. by rewrite clear_idemp in H2.
Qed.

Lemma clears_insert (P : uint256 -> Prop) m q n : m !! q = Some n -> P q -> clears P m (<[q := clear_failed n]> m).
Proof.
  intros Hq HP. split.
  - intros r. destruct (decide (r = q)) as [->|Hr]; [rewrite lookup_insert_eq|by rewrite lookup_insert_ne]. by rewrite Hq.
  - intros r nr Hr. destruct (decide (r = q)) as [->|Hne]; [rewrite lookup_insert_eq|rewrite lookup_insert_ne by done; by left].
    right. split; [done|]. by assert (nr = n) as -> by congruence.
Qed.

Lemma clears_impl (P Q : uint256 -> Prop) m m' : (forall q, P q -> Q q) -> clears P m m' -> clears Q m m'.
Proof. intros HPQ [A1 A2]. split; [done|]. intros q n Hq. destruct (A2 q n Hq) as [|[? ?]]; [by left|right; auto]. Qed.

Lemma clears_places P m m' : clears P m m' -> same_places m m'.
Proof.
  intros [A1 A2] q. specialize (A1 q). destruct (m !! q) as [n|] eqn:Hn.
  - destruct (A2 q n Hn) as [-> |[_ ->]]; [by split|apply clear_place].
  - destruct (m' !! q) as [n'|]; [|done]. destruct A1 as [A1 _]. by destruct (A1 ltac:(by eexists)).
Qed.

(** A cleared entry stays so. *)
Lemma clears_stays P m m' q n : clears P m m' -> m !! q = Some (clear_failed n) -> m' !! q = Some (clear_failed n).
Proof. intros [_ A2] Hq. destruct (A2 q _ Hq) as [|[_ E]]; [done|]. by rewrite clear_idemp in E. Qed.

Lemma clears_works P m m' : clears P m m' -> works m -> works m'.
Proof.
  intros C Hw q n' Hq. destruct (same_places_lookup_r _ _ q n' (clears_places _ _ _ C) Hq) as (n & Hn & E).
  rewrite (sp_work _ _ E). by apply (Hw q).
Qed.

Section facts.
Context (addr : uint256 -> Z) {X : Type}.

(** The state after a part of the first loop, for the entries [l] it visited. *)
Record resets (p : uint256) (l : list uint256) (cs cs' : chainstate X) : Prop := {
  rs_clears : clears (fun r => r ∈ l /\ anc (cs_index cs) r p) (cs_index cs) (cs_index cs');
  rs_active : cs_active cs' = cs_active cs;
  rs_done : forall q n, q ∈ l -> cs_index cs !! q = Some n -> failed n = true -> anc (cs_index cs) q p ->
    cs_index cs' !! q = Some (clear_failed n) /\ q ∉ cs_failed cs';
  rs_sub : cs_failed cs' ⊆ cs_failed cs;
  rs_kept : forall r, ~ anc (cs_index cs) r p -> r ∈ cs_failed cs -> r ∈ cs_failed cs'
}.

Lemma GetAncestor_anc m p n q nq : index_ok m -> m !! p = Some n -> m !! q = Some nq ->
  exists a, GetAncestor m q (bi_nHeight n) = Some a /\ (a = Some p <-> anc m q p).
Proof.
  intros Hok Hp Hq. rewrite (GetAncestor_spec m Hok q nq) by done. pose proof (height_nonneg m Hok p n Hp).
  assert (anc m q p -> bi_nHeight n <= bi_nHeight nq) as Hle.
  { intros Ha. destruct (anc_in m q nq p Hok Hq Ha) as (n' & Hn' & ?). by simplify_eq. }
  rewrite (proj2 (Z.leb_le 0 _)) by lia. cbn [andb]. destruct (Z.leb_spec (bi_nHeight n) (bi_nHeight nq)) as [Hh|Hh].
  - eexists. split; [done|]. split; [intros E; by eexists|]. intros [k Hk].
    destruct (ancestor_inv m Hok k q nq p Hq Hk) as (n' & Hn' & E). simplify_eq. by replace (Z.to_nat (bi_nHeight nq - bi_nHeight n)) with k by lia.
  - exists None. split; [done|]. split; [done|]. intros Ha. specialize (Hle Ha). lia.
Qed.

Lemma reset_entry_spec (cs : chainstate X) p n q t :
  index_ok (cs_index cs) -> works (cs_index cs) -> cs_index cs !! p = Some n -> is_Some (cs_index cs !! q) ->
  CChain_Tip (cs_active cs) = Some t -> is_Some (cs_index cs !! t) ->
  exists cs', reset_entry addr cs p (bi_nHeight n) q = Some cs' /\ resets p [q] cs cs'.
Proof.
  intros Hok Hw Hp [nq Hq] Ht Hnt. unfold reset_entry. rewrite Hq. cbn [mbind option_bind].
  destruct (IsValid_transactions nq) as (b & -> & Hb). cbn [mbind option_bind].
  assert ((failed nq = true -> anc (cs_index cs) q p -> False) -> resets p [q] cs cs) as Hsame.
  { intros Hno. split; try done; [apply clears_refl|]. intros r nr Hr%list_elem_of_singleton Hnr Hf Ha. subst r.
    assert (nr = nq) as -> by congruence. by destruct (Hno Hf Ha). }
  destruct b; [exists cs; split; [done|]; apply Hsame; intros Hf; by specialize (Hb Hf)|].
  destruct (GetAncestor_anc _ p n q nq Hok Hp Hq) as (a & -> & Ha). cbn [mbind option_bind]. case_bool_decide as Ea; cbn [negb].
  2: { exists cs. split; [done|]. apply Hsame. intros _ Han. by apply Ea, Ha. }
  apply Ha in Ea. clear Hsame Ha Hb.
  set (m1 := <[q := clear_failed nq]> (cs_index cs)). set (cs1 := mark_dirty (with_index cs m1) q).
  assert (clears (fun r => r ∈ [q] /\ anc (cs_index cs) r p) (cs_index cs) m1) as C by (apply clears_insert; [done|]; split; [by left|done]).
  destruct (IsValid_transactions (clear_failed nq)) as (b & -> & _). cbn [mbind option_bind].
  assert (exists s, (if b && negb (bi_nChainTx (clear_failed nq) =? 0) then
              tip ← CChain_Tip (cs_active cs1); w ← worse addr (cs_index cs1) tip q;
              Some (if w : bool then with_candidates cs1 ({[q]} ∪ cs_candidates cs1) else cs1) else Some cs1) = Some (with_candidates cs1 s)) as [s ->].
  { destruct (b && _); [|exists (cs_candidates cs1); by destruct cs]. change (cs_active cs1) with (cs_active cs). rewrite Ht. cbn [mbind option_bind].
    destruct (proj2 (cl_dom _ _ _ C t) Hnt) as [nt' Hnt'].
    destruct (worse_spec addr (cs_index cs1) t nt' q (clear_failed nq)) as (w & -> & _); [by apply (clears_works _ _ _ C)|done|apply lookup_insert_eq|].
    cbn [mbind option_bind]. destruct w; [by eexists|]. exists (cs_candidates cs1). by destruct cs. }
  cbn [mbind option_bind]. eexists. split; [done|].
  assert (cs_failed (if bool_decide (cs_best_invalid (with_candidates cs1 s) = Some q) then with_best_invalid (with_candidates cs1 s) None
    else with_candidates cs1 s) = cs_failed cs) as Ef by by case_bool_decide.
  split; cbn [cs_index cs_active cs_failed with_failed]; rewrite ?Ef.
  - by case_bool_decide.
  - by case_bool_decide.
  - intros r nr Hr%list_elem_of_singleton Hnr Hf _. subst r. assert (nr = nq) as -> by congruence.
    split; [case_bool_decide; apply lookup_insert_eq|set_solver].
  - set_solver.
  - intros r Hr Hin. apply elem_of_difference. split; [done|]. intros ->%elem_of_singleton. done.
Qed.

Lemma reset_entries_spec l (cs : chainstate X) p n t :
  index_ok (cs_index cs) -> works (cs_index cs) -> cs_index cs !! p = Some n -> (forall q, q ∈ l -> is_Some (cs_index cs !! q)) ->
  CChain_Tip (cs_active cs) = Some t -> is_Some (cs_index cs !! t) ->
  exists cs', reset_entries addr cs p (bi_nHeight n) l = Some cs' /\ resets p l cs cs'.
Proof.
  revert cs n. induction l as [|q l IH]; intros cs n Hok Hw Hp Hl Ht Hnt; cbn [reset_entries].
  { exists cs. split; [done|]. split; try done; [apply clears_refl|]. by intros q nq Hq%elem_of_nil. }
  destruct (reset_entry_spec cs p n q t Hok Hw Hp (Hl q ltac:(by left)) Ht Hnt) as (cs1 & -> & [A1 A2 A3 A4 A5]). cbn [mbind option_bind].
  pose proof (clears_places _ _ _ A1) as SP. destruct (same_places_lookup _ _ p n SP Hp) as (n1 & Hp1 & E1).
  assert (forall r, is_Some (cs_index cs !! r) -> is_Some (cs_index cs1 !! r)) as Hd by (intros r; apply (cl_dom _ _ _ A1)).
  destruct (IH cs1 n1) as (cs' & E & [B1 B2 B3 B4 B5]).
  - by apply (same_places_index (cs_index cs)).
  - by apply (clears_works _ _ _ A1).
  - done.
  - intros r Hr. apply Hd, Hl. by right.
  - by rewrite A2.
  - by apply Hd.
  - rewrite (sp_height _ _ E1) in E. exists cs'. split; [done|].
    assert (forall r, anc (cs_index cs1) r p <-> anc (cs_index cs) r p) as Hanc by (intros r; by apply anc_places).
    split.
    + apply (clears_trans _ _ (cs_index cs1)).
      * eapply clears_impl; [|exact A1]. intros r [->%list_elem_of_singleton Ha]. split; [by left|done].
      * eapply clears_impl; [|exact B1]. intros r [Hr Ha%Hanc]. split; [by right|done].
    + congruence.
    + intros r nr Hr Hnr Hf Ha. apply elem_of_cons in Hr as [->|Hr].
      * destruct (A3 q nr ltac:(by left) Hnr Hf Ha) as [H2 H3]. split; [by apply (clears_stays _ _ _ _ _ B1)|]. intros Hin. by apply H3, B4.
      * destruct (cl_entry _ _ _ A1 r nr Hnr) as [H1|[[->%list_elem_of_singleton _] H1]]; [by apply (B3 r nr); [..|apply Hanc]|].
        destruct (A3 q nr ltac:(by left) Hnr Hf Ha) as [_ H3]. split; [by apply (clears_stays _ _ _ _ _ B1)|]. intros Hin. by apply H3, B4.
    + by transitivity (cs_failed cs1).
    + intros r Hr Hin. apply B5; [by rewrite Hanc|]. by apply A5.
Qed.

Lemma reset_ancestors_spec fuel (cs : chainstate X) p n :
  index_ok (cs_index cs) -> cs_index cs !! p = Some n -> bi_nHeight n < Z.of_nat fuel ->
  exists cs', reset_ancestors fuel cs (Some p) = Some cs' /\ cs_failed cs' = cs_failed cs /\
    clears (fun r => anc (cs_index cs) p r) (cs_index cs) (cs_index cs') /\
    (forall r nr, anc (cs_index cs) p r -> cs_index cs !! r = Some nr -> exists n', cs_index cs' !! r = Some n' /\ failed n' = false).
Proof.
  revert cs p n. induction fuel as [|fuel IH]; intros cs p n Hok Hp Hfuel; pose proof (height_nonneg _ Hok p n Hp); [lia|].
  cbn [reset_ancestors]. rewrite Hp. cbn [mbind option_bind].
  set (cs1 := if failed n then _ else cs).
  assert (clears (fun r => r = p) (cs_index cs) (cs_index cs1) /\ cs_failed cs1 = cs_failed cs /\
    exists n1, cs_index cs1 !! p = Some n1 /\ failed n1 = false) as (C & Ef & n1 & Hp1 & Hf1).
  { unfold cs1. destruct (failed n) eqn:E.
    - split; [by apply clears_insert|]. split; [done|]. eexists. split; [apply lookup_insert_eq|apply clear_not_failed].
    - split; [apply clears_refl|]. split; [done|]. by exists n. }
  pose proof (clears_places _ _ _ C) as SP.
  assert (forall a b, anc (cs_index cs1) a b <-> anc (cs_index cs) a b) as Hanc by (intros a b; by apply anc_places).
  assert (clears (fun r => anc (cs_index cs) p r) (cs_index cs) (cs_index cs1)) as C1.
  { eapply clears_impl; [|exact C]. intros r ->. apply anc_refl. }
  destruct (bi_pprev n) as [q|] eqn:Eq.
  - destruct (parent_ok _ Hok p n q Hp Eq) as (nq & Hq & Eh). destruct (same_places_lookup _ _ q nq SP Hq) as (nq1 & Hq1 & Eq1).
    destruct (IH cs1 q nq1) as (cs' & -> & E' & C' & HD); [by apply (same_places_index (cs_index cs))|done|rewrite (sp_height _ _ Eq1); lia|].
    exists cs'. split; [done|]. split; [congruence|]. split.
    + apply (clears_trans _ _ (cs_index cs1)); [done|]. eapply clears_impl; [|exact C']. intros r Hr%Hanc. by apply (anc_step _ p n q).
    + intros r nr Hr Hnr. destruct (anc_inv _ p n r Hp Hr) as [->|(q' & Eq' & Hr')].
      * destruct (cl_entry _ _ _ C' p n1 Hp1) as [H1|[_ H1]]; [by exists n1|]. eexists. split; [exact H1|apply clear_not_failed].
      * assert (q' = q) as -> by congruence. destruct (same_places_lookup _ _ r nr SP Hnr) as (nr1 & Hr1 & _). apply (HD r nr1); [by apply Hanc|done].
  - exists cs1. assert (reset_ancestors fuel cs1 None = Some cs1) as -> by by destruct fuel. split_and!; try done.
    intros r nr Hr Hnr. destruct (anc_inv _ p n r Hp Hr) as [->|(q' & Eq' & _)]; [by exists n1|congruence].
Qed.

Lemma ResetBlockFailureFlags_spec (cs : chainstate X) p n t :
  index_ok (cs_index cs) -> works (cs_index cs) -> cs_index cs !! p = Some n ->
  CChain_Tip (cs_active cs) = Some t -> is_Some (cs_index cs !! t) ->
  exists cs', ResetBlockFailureFlags addr cs p = Some cs' /\
    clears (fun r => anc (cs_index cs) r p \/ anc (cs_index cs) p r) (cs_index cs) (cs_index cs') /\
    (forall q, failed_in (cs_index cs') q <-> failed_in (cs_index cs) q /\ ~ anc (cs_index cs) q p /\ ~ anc (cs_index cs) p q) /\
    cs_failed cs' ⊆ cs_failed cs /\ (forall r, ~ anc (cs_index cs) r p -> r ∈ cs_failed cs -> r ∈ cs_failed cs').
Proof.
  intros Hok Hw Hp Ht Hnt. unfold ResetBlockFailureFlags. rewrite Hp. cbn [mbind option_bind].
  destruct (reset_entries_spec (map_to_list (cs_index cs)).*1 cs p n t Hok Hw Hp) as (cs1 & -> & [A1 A2 A3 A4 A5]); [|done..|].
  { intros r Hr. apply list_elem_of_fmap in Hr as ([r' nr] & -> & Hin). apply elem_of_map_to_list in Hin. by exists nr. }
  cbn [mbind option_bind]. pose proof (clears_places _ _ _ A1) as SP. destruct (same_places_lookup _ _ p n SP Hp) as (n1 & Hp1 & E1).
  assert (forall a b, anc (cs_index cs1) a b <-> anc (cs_index cs) a b) as Hanc by (intros a b; by apply anc_places).
  pose proof (height_nonneg _ Hok p n Hp).
  destruct (reset_ancestors_spec (S (Z.to_nat (bi_nHeight n))) cs1 p n1) as (cs' & E' & Ef & C' & HD);
    [by apply (same_places_index (cs_index cs))|done|rewrite (sp_height _ _ E1); lia|].
  exists cs'. split; [done|]. split; [|split; [|by rewrite Ef]].
  - apply (clears_trans _ _ (cs_index cs1)).
    + eapply clears_impl; [|exact A1]. intros r [_ ?]. by left.
    + eapply clears_impl; [|exact C']. intros r Hr%Hanc. by right.
  - intros q. split.
    + intros (n' & Hn' & Hf). destruct (proj1 (cl_dom _ _ _ C' q) ltac:(by eexists)) as [nq1 Hq1].
      destruct (proj1 (cl_dom _ _ _ A1 q) ltac:(by eexists)) as [nq Hq].
      assert (~ anc (cs_index cs) p q) as Hnp.
      { intros Ha. destruct (HD q nq1 ltac:(by apply Hanc) Hq1) as (n'' & ? & ?). congruence. }
      assert (cs_index cs1 !! q = Some n') as Hq1'.
      { destruct (cl_entry _ _ _ C' q nq1 Hq1) as [E|[Ha _]]; [congruence|]. by apply Hanc in Ha. }
      destruct (cl_entry _ _ _ A1 q nq Hq) as [E|[_ E]]; [|rewrite E in Hq1'; injection Hq1' as <-; by rewrite clear_not_failed in Hf].
      assert (nq = n') as -> by congruence. split; [by exists n'|]. split; [|done]. intros Ha.
      destruct (A3 q n') as [E3 _]; [|done..|]; [apply list_elem_of_fmap; exists (q, n'); split; [done|]; by apply elem_of_map_to_list|].
      assert (n' = clear_failed n') as Ec by congruence. rewrite Ec, clear_not_failed in Hf. done.
    + intros ((nq & Hq & Hf) & Hn1 & Hn2). exists nq. split; [|done].
      destruct (cl_entry _ _ _ A1 q nq Hq) as [E|[[_ Ha] _]]; [|done]. destruct (cl_entry _ _ _ C' q nq E) as [E2|[Ha _]]; [done|].
      by apply Hanc in Ha.
Qed.

(** A block on which [InvalidateBlock] was called stays in [g_failed_blocks] when one
    built on it is reconsidered. *)
Lemma reset_leaves_listed (cs : chainstate X) p n t q nq :
  index_ok (cs_index cs) -> works (cs_index cs) -> cs_index cs !! p = Some n -> cs_index cs !! q = Some nq ->
  CChain_Tip (cs_active cs) = Some t -> is_Some (cs_index cs !! t) -> anc (cs_index cs) p q -> q <> p -> cs_failed cs = {[q]} ->
  exists cs', ResetBlockFailureFlags addr cs p = Some cs' /\ cs_failed cs' = {[q]} /\
    same_places (cs_index cs) (cs_index cs') /\ ~ failed_in (cs_index cs') q /\
    exists n', cs_index cs' !! p = Some n' /\ failed n' = false /\ level n' = level n.
Proof.
  intros Hok Hw Hp Hq Ht Hnt Ha Hne Ef.
  destruct (ResetBlockFailureFlags_spec cs p n t Hok Hw Hp Ht Hnt) as (cs' & Er & C & Hf & Hsub & Hk). exists cs'. split; [done|].
  assert (~ anc (cs_index cs) q p) as Hna.
  { intros Hqp. destruct (anc_in _ q nq p Hok Hq Hqp) as (n0 & Hn0 & Hle). destruct (anc_in _ p n q Hok Hp Ha) as (q0 & Hq0 & Hle').
    simplify_eq. apply Hne. apply (anc_height (cs_index cs) p n q nq); [done..|lia]. }
  split; [|split; [by eapply clears_places|split]].
  - apply set_eq. intros r. rewrite elem_of_singleton. split.
    + intros Hr%Hsub. rewrite Ef in Hr. set_solver.
    + intros ->. apply Hk; [done|]. rewrite Ef. set_solver.
  - intros (_ & _ & Hnp)%Hf. done.
  - assert (~ failed_in (cs_index cs') p) as Hnp by (intros (_ & Hnp & _)%Hf; apply Hnp, anc_refl).
    destruct (cl_entry _ _ _ C p n Hp) as [H1|[_ H1]]; (eexists; split; [exact H1|]).
    + split; [|done]. apply not_true_iff_false. intros ?. apply Hnp. by exists n.
    + split; [apply clear_not_failed|apply clear_level].
Qed.

(** The next header on top of the reconsidered block fails the assertion of
    [AcceptBlockHeader] as soon as it passes the checks before it. *)
Theorem reset_then_header_crashes (cs : chainstate X) p n t q nq :
  index_ok (cs_index cs) -> works (cs_index cs) -> cs_index cs !! p = Some n -> cs_index cs !! q = Some nq ->
  CChain_Tip (cs_active cs) = Some t -> is_Some (cs_index cs !! t) -> anc (cs_index cs) p q -> q <> p -> cs_failed cs = {[q]} ->
  level n < BLOCK_VALID_SCRIPTS ->
  exists cs', ResetBlockFailureFlags addr cs p = Some cs' /\
    forall best block params cps adj,
      hashPrevBlock block = p -> CBlockHeader_GetHash block <> hashGenesisBlock params ->
      cs_index cs' !! CBlockHeader_GetHash block = None -> CheckBlockHeader block params true = Ok tt ->
      ContextualCheckBlockHeader (cs_index cs') block params cps p adj = Ok tt ->
      (AcceptBlockHeader (mkIndexState (cs_index cs') best (cs_dirty cs')) (elements (cs_failed cs')) block params cps adj).2 = Err Crash.
Proof.
  intros Hok Hw Hp Hq Ht Hnt Ha Hne Ef Hlv.
  destruct (reset_leaves_listed cs p n t q nq Hok Hw Hp Hq Ht Hnt Ha Hne Ef) as (cs' & Er & Ef' & SP & Hnf & n' & Hp' & Hf' & Hl').
  exists cs'. split; [done|]. intros best block params cps adj Eb Hg Hnew Hc Hcc. unfold AcceptBlockHeader.
  rewrite bool_decide_eq_false_2 by done. cbn [mapBlockIndex]. rewrite Hnew, Hc, Eb, Hp'. fold (failed n'). rewrite Hf', Hcc.
  unfold check_failed_blocks, IsValid. change (negb (Z.land BLOCK_VALID_SCRIPTS (Z.lnot BLOCK_VALID_MASK) =? 0)) with false. cbn [negb].
  fold (failed n') (level n'). rewrite Hf', Hl'. assert ((level n >=? BLOCK_VALID_SCRIPTS) = false) as -> by (zbool; lia).
  rewrite Ef', elements_singleton. cbn [find_failed_ancestor mapBlockIndex].
  destruct (same_places_lookup _ _ q nq SP Hq) as (nq' & Hq' & Eq'). rewrite Hq'. cbn [mbind option_bind].
  pose proof (same_places_index _ _ SP Hok) as Hok'.
  destruct (GetAncestor_anc _ q nq' p n' Hok' Hq' Hp') as (a & -> & Ea). cbn [mbind option_bind].
  rewrite bool_decide_eq_true_2 by (apply Ea; by apply (anc_places (cs_index cs))).
  assert ((Z.land (bi_nStatus nq') BLOCK_FAILED_VALID =? 0) = true) as ->; [|done].
  apply Z.eqb_eq, dec_stable. intros Hv. apply Hnf. exists nq'. split; [done|]. by apply invalid_failed, negb_true_iff, Z.eqb_neq.
Qed.

(** C24: [ResetBlockFailureFlags] ends without a failed assertion; afterwards exactly those
    blocks are marked that were and that are neither ancestors nor descendants of the
    block, entries change in nothing else, and a listed block that is no descendant stays
    listed in [g_failed_blocks]. *)
Theorem ResetBlockFailureFlags_correct (cs : chainstate X) p n t :
  index_ok (cs_index cs) -> works (cs_index cs) -> cs_index cs !! p = Some n ->
  CChain_Tip (cs_active cs) = Some t -> is_Some (cs_index cs !! t) ->
  exists cs', ResetBlockFailureFlags addr cs p = Some cs' /\
    clears (fun r => anc (cs_index cs) r p \/ anc (cs_index cs) p r) (cs_index cs) (cs_index cs') /\
    (forall q, failed_in (cs_index cs') q <-> failed_in (cs_index cs) q /\ ~ anc (cs_index cs) q p /\ ~ anc (cs_index cs) p q) /\
    cs_failed cs' ⊆ cs_failed cs /\ (forall r, ~ anc (cs_index cs) r p -> r ∈ cs_failed cs -> r ∈ cs_failed cs').
Proof. apply ResetBlockFailureFlags_spec. Qed.
End facts.
