(* ===== verification/Precious.v ===== *)
(** * Preferring one of several best blocks (topchain/src/validation.cpp)

    [PreciousBlock] gives a block a sequence number before all others and activates the best
    chain: among the chains of most work the one of the block wins. *)

From Stdlib Require Import Strings.String.
From S2P Require Import Prelude Serialize Sha256 Primitives ArithUint256 Chain ChainState Activation NewBlock ProcessBlock Invalidate.

#[local] Open Scope Z_scope.

Definition set_sequence (nSequenceId : Z) (n : CBlockIndex) : CBlockIndex :=
  mkBlockIndex (bi_pprev n) (bi_pskip n) (bi_nHeight n) (bi_nFile n) (bi_nDataPos n) (bi_nUndoPos n) (bi_nChainWork n)
    (bi_nTx n) (bi_nChainTx n) (bi_nStatus n) (bi_nVersion n) (bi_hashMerkleRoot n) (bi_nTime n) (bi_nBits n)
    (bi_nNonce n) nSequenceId (bi_nTimeMax n).

Section precious.
Context (addr : uint256 -> Z) {X : Type} `{BlockEffects X}.

(** The counter as the call uses it: it starts again when the chain has grown. *)
Definition reverse_sequence (cs : chainstate X) (tip : CBlockIndex) : Z :=
  if CompareTo (bi_nChainWork tip) (cs_precious_work cs) >? 0 then -1 else cs_reverse_sequence cs.

(** [PreciousBlock]; the flag is its result. *)
Definition PreciousBlock (cs : chainstate X) (pindex : uint256) : option (chainstate X * bool) :=
  n ← cs_index cs !! pindex;
  tip ← CChain_Tip (cs_active cs);
  nt ← cs_index cs !! tip;
  if CompareTo (bi_nChainWork n) (bi_nChainWork nt) <? 0 then Some (cs, true)
  else
    let nBlockReverseSequenceId := reverse_sequence cs nt in
    let n := set_sequence nBlockReverseSequenceId n in
    let cs := with_index (erase_candidate cs pindex) (<[pindex := n]> (cs_index cs)) in
    let cs := with_sequence cs (cs_sequence cs)
      (if nBlockReverseSequenceId >? - 2 ^ 31 then nBlockReverseSequenceId - 1 else nBlockReverseSequenceId) (bi_nChainWork nt) in
    valid ← IsValid BLOCK_VALID_TRANSACTIONS n;
    cs ← (if (valid : bool) && negb (bi_nChainTx n =? 0)
          then PruneBlockIndexCandidates addr (with_candidates cs ({[pindex]} ∪ cs_candidates cs)) else Some cs);
    ActivateBestChain addr cs None.

End precious.

Section facts.
Context (addr : uint256 -> Z) (Haddr : forall p q, addr p = addr q -> p = q).
Context {X : Type} `{HR : BlockRules X}.

Lemma set_sequence_block s n : same_block n (set_sequence s n).
Proof. by split. Qed.

Lemma set_sequence_place s n : same_place n (set_sequence s n).
Proof. by split. Qed.

Section resequence.
Context (m : BlockMap) (p : uint256) (n : CBlockIndex) (s : Z) (Hp : m !! p = Some n).
Let m' : BlockMap := <[p := set_sequence s n]> m.

(** Every entry is the same but for the number of one. *)
Lemma resequence_lookup q : m' !! q = (fun nq => if decide (q = p) then set_sequence s nq else nq) <$> m !! q.
Proof using Hp.
  unfold m'. case_decide as E; [subst; by rewrite lookup_insert_eq, Hp|]. rewrite lookup_insert_ne by done. by destruct (m !! q).
Qed.

Lemma resequence_entry q nq' : m' !! q = Some nq' -> exists nq, m !! q = Some nq /\ nq' = (if decide (q = p) then set_sequence s nq else nq).
Proof using Hp. rewrite resequence_lookup. intros (nq & -> & ?)%fmap_Some. eauto. Qed.

Lemma resequence_fields (q : uint256) nq : let nq' := if decide (q = p) then set_sequence s nq else nq in
  same_block nq nq' /\ same_place nq nq' /\ bi_nChainTx nq' = bi_nChainTx nq /\ failed nq' = failed nq.
Proof.
  cbn. case_decide; [split_and!; [apply set_sequence_block|apply set_sequence_place|done..]|].
  split_and!; [apply same_block_refl|by split|done..].
Qed.

Lemma resequence_places : same_places m m'.
Proof using Hp. apply (same_places_insert m p n); [done|apply set_sequence_place]. Qed.

Lemma resequence_failed q : failed_in m' q <-> failed_in m q.
Proof using Hp.
  split.
  - intros (nq' & Hq & Hf). destruct (resequence_entry q nq' Hq) as (nq & Hn & ->). exists nq. split; [done|].
    by destruct (resequence_fields q nq) as (_ & _ & _ & <-).
  - intros (nq & Hq & Hf). unfold failed_in. rewrite resequence_lookup, Hq. eexists. split; [done|].
    by destruct (resequence_fields q nq) as (_ & _ & _ & ->).
Qed.

Lemma resequence_bad q : bad m' q <-> bad m q.
Proof using Hp. apply bad_places; [apply resequence_places|]. apply resequence_failed. Qed.

Lemma resequence_tree : tree_ok m -> tree_ok m'.
Proof using Hp.
  intros [H1 H2 H3 H4 H5 H6 H7]. pose proof resequence_places as SP. split.
  - by apply (same_places_index m).
  - intros q nq' (nq & Hq & ->)%resequence_entry. destruct (resequence_fields q nq) as (_ & [_ _ _ ->] & _). by apply (H2 q).
  - intros q nq' r nr' (nq & Hq & ->)%resequence_entry Htx Er (nr & Hr & ->)%resequence_entry.
    destruct (resequence_fields q nq) as (_ & [E _ _ _] & F & _), (resequence_fields r nr) as (_ & _ & G & _).
    rewrite G. apply (H3 q nq r nr); congruence.
  - intros q nq' r nr' (nq & Hq & ->)%resequence_entry Er (nr & Hr & ->)%resequence_entry.
    destruct (resequence_fields q nq) as (_ & [E _ _ F] & _), (resequence_fields r nr) as (_ & [_ _ _ G] & _).
    rewrite F, G. apply (H4 q nq r nr); congruence.
  - intros q nq' (nq & Hq & ->)%resequence_entry Htx. destruct (resequence_fields q nq) as ([_ -> _ _ _ _] & _ & E & _).
    apply (H5 q nq); congruence.
  - intros q nq' r nr' (nq & Hq & ->)%resequence_entry Eq (nr & Hr & ->)%resequence_entry Er.
    destruct (resequence_fields q nq) as (_ & [E _ _ _] & _), (resequence_fields r nr) as (_ & [F _ _ _] & _).
    apply (H6 q nq r nr); congruence.
  - intros q nq' (nq & Hq & ->)%resequence_entry. destruct (H7 q nq Hq) as [L1 L2].
    destruct (resequence_fields q nq) as ([_ Ed _ Hl _ _] & _ & _ & Ef). split; [lia|]. rewrite Ed, Ef. intros Hd Hf. specialize (L2 Hd Hf). lia.
Qed.

Lemma resequence_matches t x : matches m t x -> matches m' t x.
Proof using Hp.
  apply matches_same.
  - intros a q _ _. rewrite resequence_lookup. destruct (m !! q) as [nq|]; [|done]. cbn. apply resequence_fields.
  - intros q nq' (nq & Hq & ->)%resequence_entry Hd. destruct (resequence_fields q nq) as ([E1 E2 _ _ _ _] & _).
    exists nq. rewrite <- E2. split_and!; [done..|exact (f_equal bi_nFile E1)|exact (f_equal bi_nDataPos E1)].
Qed.

Lemma resequence_sound t : sound m t -> sound m' t.
Proof using Hp.
  intros [(nt & Ht & Htx) Hg Hr]. split.
  - rewrite resequence_lookup, Ht. eexists. split; [done|]. by destruct (resequence_fields t nt) as (_ & _ & -> & _).
  - by rewrite resequence_bad.
  - intros q Hq. apply Hr. by apply (anc_places m m' t q resequence_places).
Qed.

(** The order changes only for the block, to its advantage if the number is no larger. *)
Lemma resequence_less q t : q <> p -> (t = p -> s <= bi_nSequenceId n) -> less addr m q t -> less addr m' q t.
Proof using Hp.
  intros Hne Hs (nq & nt & Hq & Ht & Hb). unfold less. rewrite !resequence_lookup, Hq, Ht. eexists _, _. split; [done|]. split; [done|].
  rewrite decide_False by done. case_decide as E; [|done]. specialize (Hs E). assert (nt = n) as -> by congruence.
  unfold below in *. cbn. lia.
Qed.

End resequence.

(** The invariant with the new number, the block being a candidate if it can be one. *)
Lemma chain_inv_resequence cs p n s t cs1 :
  chain_inv addr (Some t) cs -> CChain_Tip (cs_active cs) = Some t -> cs_index cs !! p = Some n -> (p = t -> s <= bi_nSequenceId n) ->
  cs_index cs1 = <[p := set_sequence s n]> (cs_index cs) -> cs_active cs1 = cs_active cs -> cs_effects cs1 = cs_effects cs ->
  cs_best_invalid cs1 = cs_best_invalid cs -> cs_failed cs1 = cs_failed cs ->
  (forall q, q <> p -> q ∈ cs_candidates cs1 <-> q ∈ cs_candidates cs) ->
  (p ∈ cs_candidates cs1 -> bi_nChainTx n <> 0) -> (bi_nChainTx n <> 0 -> failed n = false -> p ∈ cs_candidates cs1) ->
  chain_inv addr (Some t) cs1.
Proof.
  intros [H1 H2 H3 H4 H5 H5' H6 H7 H8 H9] Ht Hp Hs Ei Ea Ex Eb Ef HC HC1 HC2. pose proof (resequence_places _ p n s Hp) as SP.
  assert (forall q, q ∈ cs_candidates cs1 -> exists nq, cs_index cs !! q = Some nq /\ bi_nChainTx nq <> 0) as Hcand.
  { intros q Hq. destruct (decide (q = p)) as [->|Hne]; [exists n; split; [done|by apply HC1]|]. apply H4. by apply HC. }
  split; rewrite ?Ei, ?Ea, ?Ex.
  - by apply resequence_tree.
  - intros q nq' (nq & Hq & ->)%(resequence_entry _ p n s Hp) Er. destruct (resequence_fields p s q nq) as (_ & [E _ _ _] & _).
    apply (H2 q nq); congruence.
  - by apply (same_places_chain (cs_index cs)).
  - intros q Hq. destruct (Hcand q Hq) as (nq & Hnq & Htx). rewrite (resequence_lookup _ p n s Hp), Hnq. eexists. split; [done|].
    by destruct (resequence_fields p s q nq) as (_ & _ & -> & _).
  - intros q. rewrite Eb, Ei. intros Hq. destruct (H5 q Hq) as [nq Hnq]. rewrite (resequence_lookup _ p n s Hp), Hnq. by eexists.
  - intros q. rewrite Ef, Ei. intros Hq. destruct (H5' q Hq) as (nq & Hnq & Hi). rewrite (resequence_lookup _ p n s Hp), Hnq. eexists. split; [done|].
    destruct (resequence_fields p s q nq) as ([_ _ _ _ E _] & _). by apply E.
  - by apply resequence_matches.
  - intros u Hu. apply resequence_sound; [done|]. by apply H7.
  - intros u Hu. apply resequence_sound; [done|]. by apply H8.
  - intros q nq' (nq & Hq & ->)%(resequence_entry _ p n s Hp) Htx Hg. rewrite resequence_bad in Hg by done.
    destruct (resequence_fields p s q nq) as (_ & _ & E & _). rewrite E in Htx. destruct (decide (q = p)) as [->|Hne].
    + left. assert (nq = n) as -> by congruence. apply HC2; [done|]. apply not_true_iff_false. intros Hf. apply Hg.
      exists p. split; [apply anc_refl|by exists n].
    + destruct (H9 q nq Hq Htx Hg) as [Hc|(u & [= <-] & Hl)]; [left; by apply HC|right]. exists t. split; [done|].
      apply resequence_less; [done..| |done]. intros ->. by apply Hs.
Qed.

(** What a call leaves: the invariant, and a tip that is the block or has more work, if
    the block can be active and no other block of its work has so small a number. *)
Record preferred (cs cs' : chainstate X) (p : uint256) (n : CBlockIndex) (s : Z) : Prop := {
  pf_inv : chain_inv addr (CChain_Tip (cs_active cs')) cs';
  pf_marks : forall q, failed_in (cs_index cs') q -> failed_in (cs_index cs) q \/ explained (cs_index cs) q;
  pf_wins : bi_nChainTx n <> 0 -> ~ bad (cs_index cs') p ->
    (forall q nq, q <> p -> cs_index cs !! q = Some nq -> uval (bi_nChainWork nq) = uval (bi_nChainWork n) -> s < bi_nSequenceId nq) ->
    exists t' nt', CChain_Tip (cs_active cs') = Some t' /\ cs_index cs' !! t' = Some nt' /\
      (t' = p \/ uval (bi_nChainWork n) < uval (bi_nChainWork nt'))
}.

(** The part of the call before the activation. *)
Lemma precious_candidates cs1 p n t :
  tree_ok (cs_index cs1) -> cs_index cs1 !! p = Some n -> CChain_Tip (cs_active cs1) = Some t ->
  (forall s, (p ∈ s -> bi_nChainTx n <> 0) -> (bi_nChainTx n <> 0 -> failed n = false -> p ∈ s) ->
     (forall q, q <> p -> q ∈ s <-> q ∈ cs_candidates cs1) -> chain_inv addr (Some t) (with_candidates cs1 s)) -> p ∉ cs_candidates cs1 ->
  exists s w, (valid ← IsValid BLOCK_VALID_TRANSACTIONS n;
    if (valid : bool) && negb (bi_nChainTx n =? 0)
    then PruneBlockIndexCandidates addr (with_candidates cs1 ({[p]} ∪ cs_candidates cs1)) else Some cs1) = Some (with_candidates cs1 s) /\
    chain_inv addr w (with_candidates cs1 s).
Proof.
  intros HT Hp Ht HI Hnc. unfold IsValid. change (negb (Z.land BLOCK_VALID_TRANSACTIONS (Z.lnot BLOCK_VALID_MASK) =? 0)) with false. cbn [negb].
  fold (failed n) (level n). set (valid := if failed n then _ else _).
  assert (exists v : bool, valid = Some v /\ (v = true -> failed n = false) /\ (failed n = false -> bi_nChainTx n <> 0 -> v = true)) as (v & -> & Hv1 & Hv2).
  { unfold valid. destruct (failed n) eqn:Ef; [by exists false|]. eexists. split; [done|]. split; [done|]. intros _ Htx.
    destruct (to_level _ HT p n Hp) as [_ Hlv]. specialize (Hlv (to_data _ HT p n Hp Htx) Ef). zbool. lia. }
  cbn [mbind option_bind]. destruct (v && negb (bi_nChainTx n =? 0)) eqn:Ev.
  - apply andb_true_iff in Ev as [-> Hz%negb_true_iff%Z.eqb_neq]. set (cs2 := with_candidates cs1 _).
    assert (chain_inv addr (Some t) cs2) as HI2 by (apply HI; [done|set_solver|set_solver]).
    destruct (sd_entry _ _ (iv_tip _ _ _ HI2 t Ht)) as (nt & Hnt & Htx).
    destruct (iv_complete _ _ _ HI2 t nt Hnt Htx (sd_good _ _ (iv_tip _ _ _ HI2 t Ht))) as [Hc|(u & [= <-] & Hl)]; [|by apply less_irrefl in Hl].
    destruct (Prune_spec addr Haddr _ cs2 t t nt HI2 Ht Hc Hnt (anc_refl _ t)) as (s & w & -> & _ & _ & HI3). by exists s, w.
  - exists (cs_candidates cs1), (Some t). split; [by destruct cs1|]. apply HI; [done| |done]. intros Htx Hf. exfalso.
    rewrite (Hv2 Hf Htx) in Ev. cbn in Ev. by apply negb_false_iff, Z.eqb_eq in Ev.
Qed.

Lemma PreciousBlock_spec cs p n t nt :
  chain_inv addr (CChain_Tip (cs_active cs)) cs -> CChain_Tip (cs_active cs) = Some t -> cs_index cs !! t = Some nt ->
  cs_index cs !! p = Some n -> uval (bi_nChainWork nt) <= uval (bi_nChainWork n) -> (p = t -> reverse_sequence cs nt <= bi_nSequenceId n) ->
  exists cs', PreciousBlock addr cs p = Some (cs', true) /\ preferred cs cs' p n (reverse_sequence cs nt).
Proof.
  intros HI Ht Hnt Hp Hwork Hseq. rewrite Ht in HI. pose proof (iv_tree _ _ _ HI) as HT. unfold PreciousBlock.
  rewrite Hp. cbn [mbind option_bind]. rewrite Ht. cbn [mbind option_bind]. rewrite Hnt. cbn [mbind option_bind].
  assert ((CompareTo (bi_nChainWork n) (bi_nChainWork nt) <? 0) = false) as ->.
  { destruct (to_works _ HT p n Hp), (to_works _ HT t nt Hnt). rewrite CompareTo_spec by congruence. unfold compare_sign.
    destruct (Z.compare_spec (uval (bi_nChainWork n)) (uval (bi_nChainWork nt))); try done. lia. }
  set (s := reverse_sequence cs nt) in *. set (m1 := <[p := set_sequence s n]> (cs_index cs)).
  set (cs1 := with_sequence _ _ _ _). assert (cs_index cs1 = m1) as Ei by done.
  destruct (precious_candidates cs1 p (set_sequence s n) t) as (l & w & El & HIw); try done.
  - by apply resequence_tree.
  - apply lookup_insert_eq.
  - intros l L1 L2 L3. apply (chain_inv_resequence cs p n s t); try done. intros q Hq. cbn. rewrite (L3 q Hq). cbn. set_solver.
  - cbn. set_solver.
  - destruct (IsValid BLOCK_VALID_TRANSACTIONS (set_sequence s n)) as [v|]; cbn [mbind option_bind] in El |- *; [|done]. rewrite El. cbn [mbind option_bind].
    destruct (ActivateBestChain_spec addr Haddr w (with_candidates cs1 l) None ltac:(done) HIw) as (cs' & -> & [A1 A2 _ A4]). exists cs'. split; [done|].
    assert (forall q, bad m1 q <-> bad (cs_index cs) q) as Hbad by (intros q; by apply resequence_bad).
    pose proof (resequence_places _ p n s Hp) as SP. pose proof (mk_tree _ _ _ A2) as T. change (cs_index (with_candidates cs1 l)) with m1 in A2, T.
    split; [done|..].
    + intros q Hq. destruct (mk_new _ _ _ A2 q Hq) as [Hq'|[Hq'|(x & Hx & Hr)]].
      * left. by apply (resequence_failed _ p n s Hp).
      * right. left. by apply Hbad.
      * right. right. exists x. split; [|done]. by apply (anc_places (cs_index cs) m1).
    + intros Htx Hg Hmin. destruct (same_tree_lookup m1 _ p (set_sequence s n) T (lookup_insert_eq _ _ _)) as (n' & Hn' & E').
      apply same_entry_fields in E' as (_ & _ & _ & Ew & Etx & Es). destruct (A4 p n' Hn') as (t' & Ht' & Hle); [by rewrite Etx|done|].
      destruct Hle as [<-|(np & nt' & Hnp & Hnt' & Hb)]; [exists p, n'; split_and!; try done; by left|].
      exists t', nt'. split; [done|]. split; [done|]. destruct (decide (t' = p)) as [|Hne]; [by left|right]. assert (np = n') as -> by congruence.
      destruct (same_tree_lookup_r _ _ t' nt' T Hnt') as (nt1 & Hnt1 & E1). apply same_entry_fields in E1 as (_ & _ & _ & Ew1 & _ & Es1).
      unfold m1 in Hnt1. rewrite lookup_insert_ne in Hnt1 by done. specialize (Hmin t' nt1 Hne Hnt1).
      unfold below in Hb. rewrite Ew, Ew1, Es, Es1 in Hb. cbn [bi_nChainWork bi_nSequenceId set_sequence] in Hb. rewrite Ew1. lia.
Qed.

End facts.
