(* ===== verification/NodeRun.v ===== *)
(** * The node from its first start on (topchain/src/validation.cpp)

    [LoadGenesisBlock] sets up the invariant that [ProcessNewBlock], [AcceptBlockHeader],
    [ActivateBestChain] and [InvalidateBlock] keep; every state the node reaches by them has it. *)

From Stdlib Require Import Strings.String.
From S2P Require Import Prelude Serialize Sha256 Primitives ArithUint256 Chain MedianTime Versionbits Pow FlatFile Script Coins TxVerify BlockCheck Headers CheckTotal ChainState Activation NewBlock ProcessBlock Invalidate.

#[local] Open Scope Z_scope.

Section genesis.
Context (addr : uint256 -> Z) (Haddr : forall p q, addr p = addr q -> p = q).
Context {X : Type} `{HS : BlockStoreRules X}.
Context (params : ConsensusParams).

(** [LoadGenesisBlock]; unlike in [AcceptBlock], a block that could not be written is an error. *)
Definition LoadGenesisBlock (nd : node X) (genesis : CBlock) : node X * result failure unit :=
  let hash := CBlockHeader_GetHash (block_header genesis) in
  match cs_index (nd_cs nd) !! hash with
  | Some _ => (nd, Ok tt)
  | None =>
      let '(x, r) := store_block (cs_effects (nd_cs nd)) genesis 0 None in
      let nd := with_cs nd (with_effects (nd_cs nd) x) in
      match r with
      | NotStored => (nd, Err (RunError "FindBlockPos failed"))
      | Unwritten _ => (nd, Err (RunError "writing genesis block to disk failed"))
      | StoreThrew => (nd, Err (RunError "failed to write genesis block"))
      | Stored pos =>
          match AddToBlockIndex (index_of nd) (block_header genesis) with
          | None => (nd, Err Crash)
          | Some (st, pindex) =>
              let nd := with_headers nd st in
              match (n ← cs_index (nd_cs nd) !! pindex; Some (bi_pprev n)) with
              | None => (nd, Err Crash)
              | Some pprev =>
                  match IsWitnessEnabled (cs_index (nd_cs nd)) pprev params (nd_caches nd) with
                  | Err e => (nd, Err e)
                  | Ok (caches, witness) =>
                      match ReceivedBlockTransactions addr (nd_cs nd) genesis pindex pos witness with
                      | None => (nd, Err Crash)
                      | Some cs => (mkNode cs (nd_best_header nd) caches, Ok tt)
                      end
                  end
              end
          end
      end
  end.

(** The globals as the program starts. *)
Definition fresh_node (x : X) : node X :=
  mkNode (mkChainState ∅ [] ∅ [] None ∅ ∅ 1 (-1) (base_uint_of_u64 0) x) None VersionBitsCache_Clear.

(** The first block: its own root, accepted by the rules. *)
Record genesis_ok (genesis : CBlock) : Prop := {
  ge_header : header_wf (block_header genesis);
  ge_prev : hashPrevBlock (block_header genesis) <> CBlockHeader_GetHash (block_header genesis);
  ge_hash : CBlockHeader_GetHash (block_header genesis) = hashGenesisBlock params;
  ge_txs : 0 < Zlength (vtx genesis) < 2 ^ 32;
  ge_rules : block_ok (CBlockHeader_GetHash (block_header genesis)) = true;
  ge_given : given_ok (CBlockHeader_GetHash (block_header genesis)) genesis
}.

(** An index with one entry and no parent. *)
Lemma tree_single p n :
  node_ok {[p := n]} p n -> wf256 (bi_nChainWork n) -> bi_pprev n = None -> bi_nChainTx n = 0 -> bi_nStatus n = BLOCK_VALID_TREE ->
  tree_ok {[p := n]}.
Proof.
  intros Hok Hw Ep Hz Hs. split.
  - by intros q nq [<- <-]%lookup_singleton_Some.
  - by intros q nq [<- <-]%lookup_singleton_Some.
  - intros q nq r nr [<- <-]%lookup_singleton_Some. congruence.
  - intros q nq r nr [<- <-]%lookup_singleton_Some. congruence.
  - by intros q nq [<- <-]%lookup_singleton_Some.
  - by intros q nq r nr [<- <-]%lookup_singleton_Some _ [<- <-]%lookup_singleton_Some.
  - intros q nq [<- <-]%lookup_singleton_Some. unfold level_ok, level, has_data. by rewrite Hs.
Qed.

(** The entry of the first block, before its transactions are recorded. *)
Lemma genesis_entry_inv (cs : chainstate X) p n :
  cs_index cs = {[p := n]} -> tree_ok {[p := n]} -> bi_nChainTx n = 0 -> block_ok p = true ->
  cs_active cs = [] -> cs_candidates cs = ∅ -> cs_best_invalid cs = None -> cs_failed cs = ∅ ->
  matches {[p := n]} None (cs_effects cs) -> chain_inv addr (CChain_Tip (cs_active cs)) cs.
Proof.
  intros Ei HT Hz Hok Ea Ec Eb Ef Hm. rewrite Ea. split; rewrite ?Ei, ?Ea, ?Ec; try done.
  - by intros q nq [<- <-]%lookup_singleton_Some _.
  - by left.
  - intros q Hq. set_solver.
  - intros q Hq. rewrite Ef in Hq. set_solver.
  - by intros q nq [<- <-]%lookup_singleton_Some.
Qed.

Lemma genesis_unlinked (cs : chainstate X) p n :
  cs_index cs = {[p := n]} -> bi_nStatus n = BLOCK_VALID_TREE -> cs_unlinked cs = [] -> unlinked_ok cs [].
Proof.
  intros Ei Hs Eu. split; rewrite ?Eu, ?Ei.
  - by intros k q Hq%elem_of_nil.
  - by intros q Hq%elem_of_nil.
  - apply NoDup_nil_2.
  - intros q nq [<- <-]%lookup_singleton_Some Hd. unfold has_data in Hd. by rewrite Hs in Hd.
Qed.

Lemma LoadGenesisBlock_spec x genesis :
  deployments_ok (cp_deployments params) -> genesis_ok genesis -> matches ∅ None x ->
  exists nd, LoadGenesisBlock (fresh_node x) genesis = (nd, Ok tt) /\ node_inv addr params nd /\
    complete (cs_index (nd_cs nd)) (CBlockHeader_GetHash (block_header genesis)).
Proof using Haddr HS.
  intros Hdep [G1 G2 G3 G4 G5 G6] Hm. set (p := CBlockHeader_GetHash (block_header genesis)) in *. unfold LoadGenesisBlock. fold p.
  change (cs_index (nd_cs (fresh_node x)) !! p) with (@None CBlockIndex).
  destruct (store_block (cs_effects (nd_cs (fresh_node x))) genesis 0 None) as [x1 r] eqn:Es.
  set (nd1 := with_cs (fresh_node x) _). change (index_of nd1) with empty_index.
  destruct (AddToBlockIndex_new empty_index (block_header genesis) (ho_inv _ _ _ (empty_headers_ok params)) G1 G2 (lookup_empty _))
    as (st & n & Ea & Hinv & Em & Hspec & _). fold p in Ea, Em. change (mapBlockIndex empty_index) with (∅ : BlockMap) in Em, Hspec.
  destruct Hspec as (_ & _ & Et & Eb & _ & _ & Htx & Hctx & Hst & Hpar). rewrite lookup_empty in Hpar. destruct Hpar as (Ep & _).
  rewrite insert_empty in Em.
  assert (tree_ok {[p := n]}) as HT.
  { destruct Hinv as [I1 I2 _]. rewrite Em in I1, I2. apply tree_single; [apply I1|apply (I2 p)|done..]; apply lookup_singleton_eq. }
  assert (has_data n = false) as Hnd by (unfold has_data; by rewrite Hst).
  assert (matches {[p := n]} None x) as Hm1.
  { apply (matches_same ∅); [done| |done]. intros q nq [<- <-]%lookup_singleton_Some. by rewrite Hnd. }
  destruct (store_law {[p := n]} None x genesis 0 None p n x1 r HT (lookup_singleton_eq p n) Hnd G6 Hm1 Es) as (pos & -> & Hm2).
  rewrite Ea. set (nd2 := with_headers nd1 st). set (cs2 := with_effects (nd_cs nd2) x).
  assert (cs_index cs2 = {[p := n]}) as Ei by exact Em.
  assert (chain_inv addr (CChain_Tip (cs_active cs2)) cs2) as HI by by apply (genesis_entry_inv cs2 p n).
  assert (headers_ok params [] st) as HH.
  { destruct (AddHeader_spec params [] empty_index (block_header genesis) (empty_headers_ok params) G1 G2) as (st' & Est & HH' & _).
    - intros _ n' (_ & _ & E1 & E2 & _ & _ & _ & _ & _ & Hn'). change (mapBlockIndex empty_index) with (∅ : BlockMap) in Hn'. rewrite lookup_empty in Hn'.
      destruct Hn' as (E3 & _).
      unfold entry_fits. rewrite E1, E2, E3. split; [apply G1|]. split; [apply G1|done].
    - unfold AddHeader in Est. rewrite Ea in Est. by injection Est as ->. }
  assert (counts_ok {[p := n]}) as HC.
  { split; intros q nq [<- <-]%lookup_singleton_Some; [lia|congruence|congruence]. }
  assert (node_inv addr params (with_cs nd2 cs2)) as HN.
  { split; cbn -[cs2]; rewrite ?Ei; try done.
    - change (elements (cs_failed cs2)) with (elements (∅ : gset uint256)). rewrite elements_empty. by destruct st.
    - by apply (genesis_unlinked cs2 p n).
    - rewrite <- G3. rewrite lookup_singleton_eq. by eexists. }
  change (cs_index (nd_cs nd2)) with (cs_index cs2). rewrite Ei, lookup_singleton_eq. cbn [mbind option_bind]. rewrite Ep, <- Ei.
  destruct (IsWitnessEnabled_total (cs_index cs2) None params (nd_caches nd2) (node_times addr params _ HN) Hdep (ni_caches _ _ _ HN) I)
    as (caches & w & -> & Hca).
  assert (u32 (Zlength (vtx genesis)) = Zlength (vtx genesis)) as Hu by (apply wrapu_small; split; lia).
  destruct (ReceivedBlockTransactions_spec addr Haddr cs2 x1 genesis p n pos w HI) as (cs3 & E3 & HI3 & HC3 & HU3 & HB & n3 & Hn3 & Hd3);
    rewrite ?Ei, ?Hu; try done; try lia.
  - by apply (genesis_unlinked cs2 p n).
  - apply lookup_singleton_eq.
  - intros n2 Hr. split; [by apply Hm2; rewrite Hu|]. rewrite <- Ei in HC |- *.
    apply (arrival_fits addr cs2 p n n2 (Zlength (vtx genesis)) pos HI HC); try done; try lia; rewrite Ei; [apply lookup_singleton_eq|].
    unfold total_tx. rewrite map_fold_singleton, Htx. lia.
  - change (nd_cs nd2) with (with_effects cs2 x1). rewrite E3. eexists. split; [done|]. split.
    + by apply (node_inv_bookkept addr params (with_cs nd2 cs2)).
    + cbn [nd_cs]. split; [by exists n3|]. intros q nq Hq Hnq. destruct (bk_kept _ _ HB p n) as (n' & Hn' & K); [rewrite Ei; apply lookup_singleton_eq|].
      assert (n' = n3) as -> by congruence. destruct (anc_inv _ p n3 q Hn3 Hq) as [->|(r & Er & _)].
      * assert (nq = n3) as -> by congruence. split; [done|]. rewrite (kp_failed _ _ K). unfold failed. by rewrite Hst.
      * rewrite (sh_pprev _ _ (kp_header _ _ K)) in Er. congruence.
Qed.


End genesis.

(** * The states the node reaches *)

Section steps.
Context (addr : uint256 -> Z) (Haddr : forall p q, addr p = addr q -> p = q).
Context {X : Type} `{HS : BlockStoreRules X}.
Context (params : ConsensusParams) (rev_checkpoints : list (Z * uint256)) (nMinimumChainWork : base_uint).
Context (Hpar : params_ok (cp_pow params)) (Hdep : deployments_ok (cp_deployments params)).

(** A header that a message may carry. *)
Record offered_header (nd : node X) (block : CBlockHeader) : Prop := {
  oh_header : header_wf block;
  oh_prev : hashPrevBlock block <> CBlockHeader_GetHash block;
  oh_genesis : CBlockHeader_GetHash block = hashGenesisBlock params -> cs_index (nd_cs nd) !! hashPrevBlock block = None;
  oh_work : work_fits (cs_index (nd_cs nd)) block
}.

(** What changes the state: a block or a header of a peer, the start of the activation,
    and the operator's call to invalidate a block that is not the first. *)
Inductive node_step (nd : node X) : node X -> Prop :=
  | step_block block force adj nd' fNew r :
      fChecked block = false -> offered params nd block ->
      ProcessNewBlock addr params rev_checkpoints nMinimumChainWork nd block force adj = (nd', fNew, r) -> node_step nd nd'
  | step_header block adj st r :
      offered_header nd block ->
      AcceptBlockHeader (index_of nd) (elements (cs_failed (nd_cs nd))) block params rev_checkpoints adj = (st, r) ->
      node_step nd (with_headers nd st)
  | step_activate cs ok : ActivateBestChain addr (nd_cs nd) None = Some (cs, ok) -> node_step nd (with_cs nd cs)
  | step_invalidate p n q cs ok :
      is_Some (CChain_Tip (cs_active (nd_cs nd))) -> cs_index (nd_cs nd) !! p = Some n -> bi_pprev n = Some q ->
      InvalidateBlock addr (nd_cs nd) p = Some (cs, ok) -> node_step nd (with_cs nd cs).

Lemma node_step_inv nd nd' : node_step nd nd' -> node_inv addr params nd -> node_inv addr params nd'.
Proof using Haddr HS Hpar Hdep.
  intros [block force adj nd1 fNew r Hf Hof E|block adj st r [O1 O2 O3 O4] E|cs ok E|p n q cs ok Ht Hp Eq E] HN.
  - destruct (ProcessNewBlock_spec addr Haddr params rev_checkpoints nMinimumChainWork Hpar Hdep nd block force adj HN Hf Hof)
      as (nd2 & fNew2 & r2 & E2 & Hpd). rewrite E in E2. injection E2 as <- <- <-. apply Hpd.
  - by apply (accept_header_node addr Haddr params nd block rev_checkpoints adj st r HN Hpar O1 O2 O3 O4 E).
  - destruct (ActivateBestChain_spec addr Haddr _ (nd_cs nd) None ltac:(done) (ni_chain _ _ _ HN)) as (cs' & E2 & Ha).
    rewrite E in E2. injection E2 as <- _. by apply node_inv_activated.
  - destruct (InvalidateBlock_spec addr Haddr (nd_cs nd) p n q (ni_chain _ _ _ HN) Ht Hp Eq) as (cs' & E2 & Ha).
    rewrite E in E2. injection E2 as <- _. apply (node_inv_change addr params (fun r => anc (cs_index (nd_cs nd)) r p)); try apply Ha. done.
Qed.

Lemma reachable_inv_spec x genesis nd0 nd :
  genesis_ok params genesis -> matches ∅ None x -> LoadGenesisBlock addr params (fresh_node x) genesis = (nd0, Ok tt) ->
  rtc node_step nd0 nd -> node_inv addr params nd.
Proof using Haddr HS Hpar Hdep.
  intros Hg Hm E0 Hr. assert (node_inv addr params nd0) as HN.
  { destruct (LoadGenesisBlock_spec addr Haddr params x genesis Hdep Hg Hm) as (nd1 & E1 & HN & _). rewrite E0 in E1. by injection E1 as <-. }
  clear E0. induction Hr as [|nd0 nd1 nd Hs Hr IH]; [done|]. apply IH. by apply (node_step_inv nd0).
Qed.


End steps.
