(* ===== verification/NodeExamples.v ===== *)
(** * The node on a small chain

    Effects that only remember which block the coins belong to, and the statements on the
    node at a chain of two blocks: the first one, and one a peer sends. *)

From Stdlib Require Import Strings.String.
From S2P Require Import Prelude Serialize Sha256 Primitives ArithUint256 Chain MedianTime Versionbits Pow FlatFile Script Coins TxVerify BlockCheck Headers CheckTotal ChainState Activation NewBlock ProcessBlock Invalidate Reconsider Precious NodeRun.

#[local] Open Scope Z_scope.

(** ** Effects that follow the tip *)

Definition tip_effects : Type := option uint256.

#[local] Instance tip_block_effects : BlockEffects tip_effects := {
  connect_block m x p pblock := if bool_decide (p = replicate 32 xff) then (m, x, TipInvalid false) else (m, Some p, TipConnected);
  disconnect_block m x p := n ← m !! p; Some (bi_pprev n)
}.

#[local] Program Instance tip_block_rules : BlockRules tip_effects := {
  block_ok p := negb (bool_decide (p = replicate 32 xff));
  given_ok p b := True;
  matches m t x := x = t
}.
Next Obligation. done. Qed.
Next Obligation.
  intros m x p n pblock m' x' r _ _ _ -> _. cbn [connect_block tip_block_effects].
  case_bool_decide; intros [= <- <- <-]; (split; [apply same_tree_refl|done]).
Qed.
Next Obligation. intros m x p n q _ Hp Eq ->. exists (bi_pprev n). cbn. rewrite Hp. split; [done|]. by rewrite Eq. Qed.

#[local] Instance tip_block_store : BlockStore tip_effects := {
  store_block x block nHeight dbp := (x, Stored (mkDiskPos 0 8))
}.

#[local] Program Instance tip_store_rules : BlockStoreRules tip_effects.
Next Obligation. intros m t x block nHeight dbp p n x' r _ _ _ _ -> [= <- <-]. by eexists. Qed.

(** ** The chain *)

Definition first_block : CBlock := mkBlock demo_genesis [demo_coinbase] false.
Definition second_header (nonce : Z) : CBlockHeader := mkHeader 4 (CBlockHeader_GetHash demo_genesis) demo_root 1600 0x207fffff nonce.
Definition second_block : CBlock := mkBlock (second_header 1) [demo_coinbase] false.
(** Another block at the same height. *)
Definition third_block : CBlock := mkBlock (second_header 2) [demo_coinbase] false.
Abbreviation hash_of b := (CBlockHeader_GetHash (block_header b)) (only parsing).

(** Addresses of entries: any injective numbering will do. *)
Definition entry_addr (p : uint256) : Z := Zpos (encode p).

Lemma entry_addr_inj p q : entry_addr p = entry_addr q -> p = q.
Proof. unfold entry_addr. intros [= E]. by apply (inj encode). Qed.

(** Equality of hashes, cheap to evaluate. *)
Definition is_hash (o : option uint256) (q : uint256) : bool := match o with Some p => entry_addr p =? entry_addr q | None => false end.

Lemma is_hash_true o q : is_hash o q = true -> o = Some q.
Proof. destruct o as [p|]; [|done]. cbn [is_hash]. intros E%Z.eqb_eq. by rewrite (entry_addr_inj p q E). Qed.

Definition first_node : node tip_effects := (LoadGenesisBlock entry_addr demo_params (fresh_node None) first_block).1.
Definition receive (nd : node tip_effects) (block : CBlock) : node tip_effects * bool * result failure unit :=
  ProcessNewBlock entry_addr demo_params [] (base_uint_of_u64 0) nd block true 2000.
Definition second_node : node tip_effects := (receive first_node second_block).1.1.
Definition third_node : node tip_effects := (receive second_node third_block).1.1.

(** The header hash is computed by evaluation only. *)
#[local] Opaque CBlockHeader_GetHash.

Lemma first_block_ok : genesis_ok demo_params first_block.
Proof.
  destruct demo_headers_wf as (_ & H1 & _ & H2 & _). split; [exact H1|exact H2|reflexivity|vm_compute; split; reflexivity| |exact I].
  change (negb (bool_decide (CBlockHeader_GetHash demo_genesis = replicate 32 xff)) = true). vm_compute. reflexivity.
Qed.

Lemma demo_deployments_ok : deployments_ok (cp_deployments demo_params).
Proof. split; [vm_compute; reflexivity|]. intros pos. cbn. lia. Qed.

Lemma demo_params_ok : params_ok (cp_pow demo_params).
Proof. exact (proj1 demo_headers_wf). Qed.

Lemma demo_coinbase_wf : tx_wf demo_coinbase.
Proof. wf_compute. Qed.

(** ** The node on the chain *)

(** The conditions on a block, by evaluation. *)
Definition offered_b (nd : node tip_effects) (block : CBlock) : bool :=
  negb (bool_decide (hashPrevBlock (block_header block) = hash_of block)) &&
  negb (bool_decide (hash_of block = hashGenesisBlock demo_params)) &&
  match cs_index (nd_cs nd) !! hashPrevBlock (block_header block) with
  | Some prev => uval (bi_nChainWork prev) + proof_of (hdr_nBits (block_header block)) <? 2 ^ 256
  | None => true
  end &&
  (total_tx (cs_index (nd_cs nd)) + Zlength (vtx block) <? 2 ^ 32) &&
  (cs_sequence (nd_cs nd) + Z.of_nat (S (length (cs_unlinked (nd_cs nd)))) <? 2 ^ 31).

Lemma offered_check nd block :
  header_wf (block_header block) -> vtx block = [demo_coinbase] -> offered_b nd block = true -> offered demo_params nd block.
Proof.
  intros Hh Ev. unfold offered_b. rewrite !andb_true_iff. intros ((((H1 & H2) & H3) & H4) & H5).
  apply negb_true_iff, bool_decide_eq_false in H1, H2. apply Z.ltb_lt in H4, H5. split.
  - exact Hh.
  - split; rewrite Ev; [constructor; [apply demo_coinbase_wf|constructor]|vm_compute; congruence].
  - exact H1.
  - intros E. destruct (H2 E).
  - intros prev Hp. rewrite Hp in H3. apply Z.ltb_lt in H3. exact H3.
  - exact H4.
  - exact H5.
  - intros b _ _. exact I.
Qed.

Lemma second_header_wf k : uint_range 32 k -> header_wf (second_header k).
Proof.
  intros Hk. destruct demo_headers_wf as (_ & _ & (_ & Hp & _) & _). split_and!; [vm_compute; split; congruence|exact Hp| |..|exact Hk].
  - vm_compute. reflexivity.
  - vm_compute. split; congruence.
  - vm_compute. split; congruence.
Qed.

Lemma first_node_inv : node_inv entry_addr demo_params first_node.
Proof.
  destruct (LoadGenesisBlock_spec entry_addr entry_addr_inj demo_params None first_block demo_deployments_ok first_block_ok eq_refl) as (nd & E & HN & _).
  unfold first_node. rewrite E. exact HN.
Qed.

Lemma receive_spec nd block : node_inv entry_addr demo_params nd -> fChecked block = false -> offered demo_params nd block ->
  processed entry_addr demo_params (receive nd block).1.1 block true (receive nd block).2.
Proof.
  intros HN Hf Ho. unfold receive.
  destruct (ProcessNewBlock_spec entry_addr entry_addr_inj demo_params [] (base_uint_of_u64 0) demo_params_ok demo_deployments_ok nd block true 2000 HN Hf Ho)
    as (nd' & fNew & r & E & Hp). rewrite E. exact Hp.
Qed.

Lemma receive_step nd block : fChecked block = false -> offered demo_params nd block ->
  node_step entry_addr demo_params [] (base_uint_of_u64 0) nd (receive nd block).1.1.
Proof.
  intros Hf Ho. destruct (receive nd block) as [[nd' fNew] r] eqn:E. unfold receive in E. by apply (step_block _ _ _ _ _ block true 2000 nd' fNew r).
Qed.

Lemma second_offered : offered demo_params first_node second_block.
Proof. apply offered_check; [apply second_header_wf; vm_compute; split; congruence|reflexivity|vm_compute; reflexivity]. Qed.

Lemma second_node_inv : node_inv entry_addr demo_params second_node.
Proof. exact (pd_inv _ _ _ _ _ _ (receive_spec first_node second_block first_node_inv eq_refl second_offered)). Qed.

Lemma third_offered : offered demo_params second_node third_block.
Proof. apply offered_check; [apply second_header_wf; vm_compute; split; congruence|reflexivity|vm_compute; reflexivity]. Qed.

Lemma third_node_inv : node_inv entry_addr demo_params third_node.
Proof. exact (pd_inv _ _ _ _ _ _ (receive_spec second_node third_block second_node_inv eq_refl third_offered)). Qed.

(** ** Instances of the statements *)


Lemma FindMostWorkChain_correct_witness :
  exists cs' r, FindMostWorkChain entry_addr (nd_cs first_node) = Some (cs', r) /\ search_result entry_addr (nd_cs first_node) cs' r.
Proof.
  exact (FindMostWorkChain_correct entry_addr entry_addr_inj (nd_cs first_node) (chain_inv_search _ _ _ (ni_chain _ _ _ first_node_inv))).
Defined.



(** The entries of the two blocks above the first. *)
Lemma third_node_entries : exists n2 n3, cs_index (nd_cs third_node) !! hash_of second_block = Some n2 /\
  cs_index (nd_cs third_node) !! hash_of third_block = Some n3 /\
  bi_pprev n2 = Some (hash_of first_block) /\ uval (bi_nChainWork n2) = uval (bi_nChainWork n3) /\
  reverse_sequence (nd_cs third_node) n2 = -1 /\ CChain_Tip (cs_active (nd_cs third_node)) = Some (hash_of second_block).
Proof.
  assert (match cs_index (nd_cs third_node) !! hash_of second_block, cs_index (nd_cs third_node) !! hash_of third_block with
    | Some n2, Some n3 => is_hash (bi_pprev n2) (hash_of first_block) && (uval (bi_nChainWork n2) =? uval (bi_nChainWork n3)) &&
        (reverse_sequence (nd_cs third_node) n2 =? -1) && is_hash (CChain_Tip (cs_active (nd_cs third_node))) (hash_of second_block)
    | _, _ => false end = true) as Ht by (vm_compute; reflexivity).
  destruct (cs_index (nd_cs third_node) !! hash_of second_block) as [n2|]; [|discriminate Ht].
  destruct (cs_index (nd_cs third_node) !! hash_of third_block) as [n3|]; [|discriminate Ht].
  apply andb_prop in Ht as [Ht H4]. apply andb_prop in Ht as [Ht H3]. apply andb_prop in Ht as [H1 H2]. exists n2, n3.
  apply is_hash_true in H1, H4. apply Z.eqb_eq in H2, H3. split; [exact eq_refl|]. split; [exact eq_refl|].
  split; [exact H1|]. split; [exact H2|]. split; [exact H3|exact H4].
Qed.


(** Invalidating the second block and reconsidering it. *)
Lemma ResetBlockFailureFlags_correct_witness :
  exists cs1 cs2, InvalidateBlock entry_addr (nd_cs third_node) (hash_of second_block) = Some (cs1, true) /\
    failed_in (cs_index cs1) (hash_of second_block) /\
    ResetBlockFailureFlags entry_addr cs1 (hash_of second_block) = Some cs2 /\ ~ failed_in (cs_index cs2) (hash_of second_block).
Proof.
  destruct third_node_entries as (n2 & n3 & H2 & _ & Ep & _ & _ & Ht).
  destruct (InvalidateBlock_spec entry_addr entry_addr_inj (nd_cs third_node) (hash_of second_block) n2 (hash_of first_block)
    (ni_chain _ _ _ third_node_inv) (ex_intro _ _ Ht) H2 Ep) as (cs1 & E1 & [A1 A2 A3 _ A5 _ _]).
  pose proof (iv_tree _ _ _ A1) as HT. destruct A3 as (n1 & Hn1 & Hf).
  specialize (A5 (ex_intro _ _ (conj Ht (anc_refl _ _)))). destruct (sd_entry _ _ (iv_tip _ _ _ A1 _ A5)) as (nt & Hnt & _).
  destruct (ResetBlockFailureFlags_correct entry_addr cs1 (hash_of second_block) n1 (hash_of first_block) (to_index _ HT) (to_works _ HT) Hn1 A5
    (ex_intro _ _ Hnt)) as (cs2 & E2 & _ & Hc & _).
  exists cs1, cs2. split; [exact E1|]. split; [exists n1; split; [exact Hn1|exact Hf]|]. split; [exact E2|].
  intros Hx. apply Hc in Hx as (_ & Hx & _). apply Hx, anc_refl.
Defined.



