(* ===== verification/Chainbase.v ===== *)
(** * The database of the sub-chain: indices with undo history
    (subchain/libraries/chainbase/include/chainbase/chainbase.hpp, src/chainbase.cpp)

    A [generic_index] keeps the objects of one type in a container with a primary key, the
    id, and any number of unique secondary keys; a stack of undo states records what the
    open sessions changed. The contract is a stack of snapshots: opening a session saves
    one, undoing goes back to it, squashing forgets it, committing forgets the oldest. The
    refinement holds as long as modifications keep the unique keys; when they do not,
    undoing can fail, and examples at the end show how.

    The container is Boost's: [clash] says when two objects collide on a unique secondary
    key, and the operations do what its manual says ([emplace] refuses a collision,
    [modify] erases the element that collides). Ids and revisions are 64-bit counters that
    count objects and sessions one by one; they do not get near their bound. *)

From stdpp Require Import sorting.
From S2P Require Import Prelude.

(** The elements in the order in which [std::map] and [std::set] iterate. *)
Definition key_le {A} (p q : Z * A) : Prop := p.1 <= q.1.
#[global] Instance key_le_dec {A} : RelDecision (@key_le A).
Proof. intros p q. unfold key_le. apply _. Defined.
Definition in_order {A} (m : gmap Z A) : list (Z * A) := merge_sort key_le (map_to_list m).
Definition in_order_set (s : gset Z) : list Z := merge_sort Z.le (elements s).

(** [std::map::emplace] keeps the value that is there. *)
Definition map_emplace {A} (m : gmap Z A) (id : Z) (a : A) : gmap Z A :=
  match m !! id with Some _ => m | None => <[id := a]> m end.

(** The exceptions thrown, and what the language leaves undefined. *)
Inductive db_error := logic_error | out_of_range | undefined.

Section chainbase.
Context {V : Type} (clash : V -> V -> bool).

(** ** The container *)

Definition collides (s : gmap Z V) (id : Z) (v : V) : bool := existsb (fun p => clash v p.2) (map_to_list (delete id s)).

Definition mi_emplace (s : gmap Z V) (id : Z) (v : V) : option (gmap Z V) :=
  if bool_decide (is_Some (s !! id)) || collides s id v then None else Some (<[id := v]> s).

(** [None]: the iterator is past the end. *)
Definition mi_modify (s : gmap Z V) (id : Z) (m : V -> V) : option (gmap Z V * bool) :=
  v ← s !! id; Some (if collides s id (m v) then (delete id s, false) else (<[id := m v]> s, true)).

Definition mi_erase (s : gmap Z V) (id : Z) : option (gmap Z V) := _ ← s !! id; Some (delete id s).

(** ** An index and its undo states *)

Record undo_state := mkUndo {
  old_values : gmap Z V;
  removed_values : gmap Z V;
  new_ids : gset Z;
  old_next_id : Z;
  us_revision : Z
}.

(** The back of the deque is the head of the list. *)
Record generic_index := mkIndex {
  gi_stack : list undo_state;
  gi_revision : Z;
  gi_next_id : Z;
  gi_indices : gmap Z V
}.

Definition empty_index : generic_index := mkIndex [] 0 0 ∅.

Definition with_indices (st : generic_index) (s : gmap Z V) : generic_index := mkIndex (gi_stack st) (gi_revision st) (gi_next_id st) s.
Definition with_stack (st : generic_index) (us : list undo_state) : generic_index := mkIndex us (gi_revision st) (gi_next_id st) (gi_indices st).

Definition enabled (st : generic_index) : bool := match gi_stack st with [] => false | _ => true end.

Definition set_old (u : undo_state) (m : gmap Z V) : undo_state := mkUndo m (removed_values u) (new_ids u) (old_next_id u) (us_revision u).
Definition set_removed (u : undo_state) (m : gmap Z V) : undo_state := mkUndo (old_values u) m (new_ids u) (old_next_id u) (us_revision u).
Definition set_new (u : undo_state) (ids : gset Z) : undo_state := mkUndo (old_values u) (removed_values u) ids (old_next_id u) (us_revision u).

(** ** What the head of the stack records *)

Definition note_modify (head : undo_state) (id : Z) (v : V) : undo_state :=
  if bool_decide (id ∈ new_ids head) then head
  else match old_values head !! id with
       | Some _ => head
       | None => set_old head (map_emplace (old_values head) id v)
       end.

Definition note_remove (head : undo_state) (id : Z) (v : V) : undo_state :=
  if bool_decide (id ∈ new_ids head) then set_new head (new_ids head ∖ {[id]})
  else match old_values head !! id with
       | Some old => set_old (set_removed head (map_emplace (removed_values head) id old)) (delete id (old_values head))
       | None =>
           match removed_values head !! id with
           | Some _ => head
           | None => set_removed head (map_emplace (removed_values head) id v)
           end
       end.

Definition note_create (head : undo_state) (id : Z) : undo_state := set_new head ({[id]} ∪ new_ids head).

Definition on_head (f : undo_state -> undo_state) (st : generic_index) : generic_index :=
  match gi_stack st with
  | [] => st
  | head :: stack => with_stack st (f head :: stack)
  end.

Definition on_modify (st : generic_index) (id : Z) (v : V) : generic_index := on_head (fun head => note_modify head id v) st.
Definition on_remove (st : generic_index) (id : Z) (v : V) : generic_index := on_head (fun head => note_remove head id v) st.
Definition on_create (st : generic_index) (id : Z) : generic_index := on_head (fun head => note_create head id) st.

(** ** Objects *)

(** The constructor is given the object with its id set. *)
Definition emplace (st : generic_index) (c : Z -> V) : generic_index * result db_error Z :=
  let new_id := gi_next_id st in
  match mi_emplace (gi_indices st) new_id (c new_id) with
  | None => (st, Err logic_error)
  | Some s => (on_create (mkIndex (gi_stack st) (gi_revision st) (new_id + 1) s) new_id, Ok new_id)
  end.

(** The object is given by reference: one that is not in the container is undefined. *)
Definition modify (st : generic_index) (id : Z) (m : V -> V) : generic_index * result db_error unit :=
  match gi_indices st !! id with
  | None => (st, Err undefined)
  | Some v =>
      let st := on_modify st id v in
      match mi_modify (gi_indices st) id m with
      | None => (st, Err undefined)
      | Some (s, ok) => (with_indices st s, if ok then Ok tt else Err logic_error)
      end
  end.

Definition remove (st : generic_index) (id : Z) : generic_index * result db_error unit :=
  match gi_indices st !! id with
  | None => (st, Err undefined)
  | Some v =>
      let st := on_remove st id v in
      match mi_erase (gi_indices st) id with
      | None => (st, Err undefined)
      | Some s => (with_indices st s, Ok tt)
      end
  end.

Definition find (st : generic_index) (id : Z) : option V := gi_indices st !! id.
Definition get (st : generic_index) (id : Z) : result db_error V := match find st id with Some v => Ok v | None => Err out_of_range end.

Definition remove_object (st : generic_index) (id : Z) : generic_index * result db_error unit :=
  match find st id with
  | None => (st, Err out_of_range)
  | Some _ => remove st id
  end.

(** ** Undoing *)

Fixpoint undo_old (items : list (Z * V)) (s : gmap Z V) : gmap Z V * result db_error unit :=
  match items with
  | [] => (s, Ok tt)
  | (id, v) :: items =>
      match mi_modify s id (fun _ => v) with
      | None => (s, Err undefined)
      | Some (s, ok) => if ok then undo_old items s else (s, Err logic_error)
      end
  end.

Fixpoint undo_new (ids : list Z) (s : gmap Z V) : gmap Z V * result db_error unit :=
  match ids with
  | [] => (s, Ok tt)
  | id :: ids =>
      match mi_erase s id with
      | None => (s, Err undefined)
      | Some s => undo_new ids s
      end
  end.

Fixpoint undo_removed (items : list (Z * V)) (s : gmap Z V) : gmap Z V * result db_error unit :=
  match items with
  | [] => (s, Ok tt)
  | (id, v) :: items =>
      match mi_emplace s id v with
      | None => (s, Err logic_error)
      | Some s => undo_removed items s
      end
  end.

Definition undo (st : generic_index) : generic_index * result db_error unit :=
  match gi_stack st with
  | [] => (st, Ok tt)
  | head :: stack =>
      match undo_old (in_order (old_values head)) (gi_indices st) with
      | (s, Err e) => (with_indices st s, Err e)
      | (s, Ok _) =>
          match undo_new (in_order_set (new_ids head)) s with
          | (s, Err e) => (with_indices st s, Err e)
          | (s, Ok _) =>
              match undo_removed (in_order (removed_values head)) s with
              | (s, Err e) => (mkIndex (gi_stack st) (gi_revision st) (old_next_id head) s, Err e)
              | (s, Ok _) => (mkIndex stack (gi_revision st - 1) (old_next_id head) s, Ok tt)
              end
          end
      end
  end.

Fixpoint undo_all_loop (fuel : nat) (st : generic_index) : generic_index * result db_error unit :=
  match fuel with
  | O => (st, Ok tt)
  | S fuel =>
      match undo st with
      | (st, Err e) => (st, Err e)
      | (st, Ok _) => undo_all_loop fuel st
      end
  end.

(** Every round takes one state off the stack. *)
Definition undo_all (st : generic_index) : generic_index * result db_error unit := undo_all_loop (length (gi_stack st)) st.

(** ** Merging the two newest states *)

(** [None]: an assertion fails. *)
Definition squash_old (prev : undo_state) (id : Z) (v : V) : option undo_state :=
  if bool_decide (id ∈ new_ids prev) then Some prev
  else match old_values prev !! id with
       | Some _ => Some prev
       | None =>
           match removed_values prev !! id with
           | Some _ => None
           | None => Some (set_old prev (map_emplace (old_values prev) id v))
           end
       end.

Definition squash_new (prev : undo_state) (id : Z) (_ : unit) : option undo_state := Some (set_new prev ({[id]} ∪ new_ids prev)).

Definition squash_removed (prev : undo_state) (id : Z) (v : V) : option undo_state :=
  if bool_decide (id ∈ new_ids prev) then Some (set_new prev (new_ids prev ∖ {[id]}))
  else match old_values prev !! id with
       | Some old => Some (set_old (set_removed prev (map_emplace (removed_values prev) id old)) (delete id (old_values prev)))
       | None =>
           match removed_values prev !! id with
           | Some _ => None
           | None => Some (set_removed prev (map_emplace (removed_values prev) id v))
           end
       end.

Fixpoint merge_items {A} (f : undo_state -> Z -> A -> option undo_state) (items : list (Z * A)) (prev : undo_state) : option undo_state :=
  match items with
  | [] => Some prev
  | (id, a) :: items => prev ← f prev id a; merge_items f items prev
  end.

Definition squash_states (prev state : undo_state) : option undo_state :=
  prev ← merge_items squash_old (in_order (old_values state)) prev;
  prev ← merge_items squash_new (map (fun id => (id, tt)) (in_order_set (new_ids state))) prev;
  merge_items squash_removed (in_order (removed_values state)) prev.

Definition squash (st : generic_index) : generic_index * result db_error unit :=
  match gi_stack st with
  | [] => (st, Ok tt)
  | [_] => (with_stack st [], Ok tt)
  | state :: prev :: stack =>
      match squash_states prev state with
      | None => (st, Err undefined)
      | Some prev => (mkIndex (prev :: stack) (gi_revision st - 1) (gi_next_id st) (gi_indices st), Ok tt)
      end
  end.

(** ** Sessions and revisions *)

Fixpoint commit_front (us : list undo_state) (revision : Z) : list undo_state :=
  match us with
  | [] => []
  | u :: us' => if us_revision u <=? revision then commit_front us' revision else us
  end.

Definition commit (st : generic_index) (revision : Z) : generic_index :=
  with_stack st (reverse (commit_front (reverse (gi_stack st)) revision)).

(** The argument is unsigned, the member signed. *)
Definition set_revision (st : generic_index) (revision : Z) : generic_index * result db_error unit :=
  match gi_stack st with
  | [] => (mkIndex [] (i64 revision) (gi_next_id st) (gi_indices st), Ok tt)
  | _ => (st, Err logic_error)
  end.

Record session := mkSession { se_apply : bool; se_revision : Z }.

Definition start_undo_session (st : generic_index) (on : bool) : generic_index * session :=
  if on then
    let r := gi_revision st + 1 in
    (mkIndex (mkUndo ∅ ∅ ∅ (gi_next_id st) r :: gi_stack st) r (gi_next_id st) (gi_indices st), mkSession true r)
  else (st, mkSession false (-1)).

Definition session_push (se : session) : session := mkSession false (se_revision se).

(** An exception leaves the session as it was. *)
Definition settle (se : session) (r : result db_error unit) : session := match r with Ok _ => session_push se | Err _ => se end.

Definition session_squash (st : generic_index) (se : session) : generic_index * session * result db_error unit :=
  if se_apply se then let '(st, r) := squash st in (st, settle se r, r) else (st, se, Ok tt).

Definition session_undo (st : generic_index) (se : session) : generic_index * session * result db_error unit :=
  if se_apply se then let '(st, r) := undo st in (st, settle se r, r) else (st, se, Ok tt).

(** The destructor. *)
Definition session_end (st : generic_index) (se : session) : generic_index * result db_error unit :=
  if se_apply se then undo st else (st, Ok tt).
End chainbase.

Arguments undo_state : clear implicits.
Arguments generic_index : clear implicits.

(** ** The order of iteration *)

Lemma in_order_perm {A} (m : gmap Z A) : in_order m ≡ₚ map_to_list m.
Proof. apply merge_sort_Permutation. Qed.

Lemma in_order_nodup {A} (m : gmap Z A) : NoDup (in_order m).*1.
Proof. rewrite in_order_perm. apply NoDup_fst_map_to_list. Qed.

Lemma in_order_map {A} (m : gmap Z A) : list_to_map (in_order m) = m.
Proof. rewrite <- (list_to_map_to_list m) at 2. apply list_to_map_proper; [apply in_order_nodup|apply in_order_perm]. Qed.

Lemma in_order_set_nodup s : NoDup (in_order_set s).
Proof. unfold in_order_set. rewrite merge_sort_Permutation. apply NoDup_elements. Qed.

Lemma elem_of_in_order_set s id : id ∈ in_order_set s <-> id ∈ s.
Proof. unfold in_order_set. rewrite merge_sort_Permutation. apply elem_of_elements. Qed.

(** * The contract: a stack of snapshots *)

Section contract.
Context {V : Type} (clash : V -> V -> bool).

Record snapshot := mkSnap { sn_content : gmap Z V; sn_next : Z; sn_rev : Z }.
Record spec := mkSpec { sp_content : gmap Z V; sp_next : Z; sp_rev : Z; sp_saved : list snapshot }.

Inductive op :=
  | op_emplace (c : Z -> V)
  | op_modify (id : Z) (m : V -> V)
  | op_remove (id : Z)
  | op_remove_object (id : Z)
  | op_start
  | op_undo
  | op_squash
  | op_commit (revision : Z)
  | op_undo_all
  | op_set_revision (revision : Z).

Definition unit_result {S} (r : S * result db_error unit) : S * result db_error Z := (r.1, match r.2 with Ok _ => Ok 0 | Err e => Err e end).

Definition run_op (st : generic_index V) (o : op) : generic_index V * result db_error Z :=
  match o with
  | op_emplace c => emplace clash st c
  | op_modify id m => unit_result (modify clash st id m)
  | op_remove id => unit_result (remove st id)
  | op_remove_object id => unit_result (remove_object st id)
  | op_start => ((start_undo_session st true).1, Ok 0)
  | op_undo => unit_result (undo clash st)
  | op_squash => unit_result (squash st)
  | op_commit r => (commit st r, Ok 0)
  | op_undo_all => unit_result (undo_all clash st)
  | op_set_revision r => unit_result (set_revision st r)
  end.

Definition spec_op (sp : spec) (o : op) : spec * result db_error Z :=
  let '(mkSpec content next rev saved) := sp in
  match o with
  | op_emplace c =>
      if collides clash content next (c next) then (sp, Err logic_error)
      else (mkSpec (<[next := c next]> content) (next + 1) rev saved, Ok next)
  | op_modify id m => (mkSpec (alter m id content) next rev saved, Ok 0)
  | op_remove id => (mkSpec (delete id content) next rev saved, Ok 0)
  | op_remove_object id =>
      match content !! id with
      | None => (sp, Err out_of_range)
      | Some _ => (mkSpec (delete id content) next rev saved, Ok 0)
      end
  | op_start => (mkSpec content next (rev + 1) (mkSnap content next (rev + 1) :: saved), Ok 0)
  | op_undo =>
      match saved with
      | [] => (sp, Ok 0)
      | sn :: saved => (mkSpec (sn_content sn) (sn_next sn) (rev - 1) saved, Ok 0)
      end
  | op_squash => (mkSpec content next (match saved with _ :: _ :: _ => rev - 1 | _ => rev end) (tail saved), Ok 0)
  | op_commit r => (mkSpec content next rev (filter (fun sn => r < sn_rev sn) saved), Ok 0)
  | op_undo_all =>
      match last saved with
      | None => (sp, Ok 0)
      | Some sn => (mkSpec (sn_content sn) (sn_next sn) (rev - Zlength saved) [], Ok 0)
      end
  | op_set_revision r =>
      match saved with
      | [] => (mkSpec content next (i64 r) [], Ok 0)
      | _ => (sp, Err logic_error)
      end
  end.

(** Two values with the same unique keys. *)
Definition same_keys (v w : V) : Prop := forall x, clash v x = clash w x.

(** References are to objects of the index, and modifications keep the unique keys. *)
Definition legal (s : gmap Z V) (o : op) : Prop :=
  match o with
  | op_modify id m => exists v, s !! id = Some v /\ same_keys (m v) v
  | op_remove id => is_Some (s !! id)
  | _ => True
  end.

(** ** What an undo state says of an object *)

Definition entry (u : undo_state V) (id : Z) : bool * option V * option V :=
  (bool_decide (id ∈ new_ids u), old_values u !! id, removed_values u !! id).

(** The rows of the table in the comment of [squash]: new, updated, deleted, untouched;
    with the object now and as it was. *)
Inductive change : bool * option V * option V -> option V -> option V -> Prop :=
  | ch_new v : change (true, None, None) (Some v) None
  | ch_upd v w : same_keys w v -> change (false, Some w, None) (Some v) (Some w)
  | ch_del w : change (false, None, Some w) None (Some w)
  | ch_nop o : change (false, None, None) o o.

Definition unique (s : gmap Z V) : Prop := forall i j v w, i <> j -> s !! i = Some v -> s !! j = Some w -> clash v w = false.

Definition ids_below (s : gmap Z V) (next : Z) : Prop := forall id, is_Some (s !! id) -> id < next.

Record reverts (u : undo_state V) (cur : gmap Z V) (next : Z) (sn : snapshot) : Prop := {
  rv_next : old_next_id u = sn_next sn;
  rv_rev : us_revision u = sn_rev sn;
  rv_change : forall id, change (entry u id) (cur !! id) (sn_content sn !! id);
  rv_new : forall id, id ∈ new_ids u -> sn_next sn <= id;
  rv_unique : unique (sn_content sn);
  rv_ids : ids_below (sn_content sn) (sn_next sn);
  rv_le : sn_next sn <= next
}.

Inductive history : gmap Z V -> Z -> Z -> list (undo_state V) -> list snapshot -> Prop :=
  | hist_nil cur next rev : history cur next rev [] []
  | hist_cons cur next rev u us sn sns : reverts u cur next sn -> sn_rev sn = rev ->
      history (sn_content sn) (sn_next sn) (rev - 1) us sns -> history cur next rev (u :: us) (sn :: sns).

Record repr (st : generic_index V) (sp : spec) : Prop := {
  rp_content : gi_indices st = sp_content sp;
  rp_next : gi_next_id st = sp_next sp;
  rp_rev : gi_revision st = sp_rev sp;
  rp_unique : unique (sp_content sp);
  rp_ids : ids_below (sp_content sp) (sp_next sp);
  rp_history : history (sp_content sp) (sp_next sp) (sp_rev sp) (gi_stack st) (sp_saved sp)
}.

Hypothesis clash_sym : forall v w, clash v w = clash w v.

(** ** Collisions *)

Lemma collides_false s id v : collides clash s id v = false <-> forall j w, j <> id -> s !! j = Some w -> clash v w = false.
Proof.
  unfold collides. rewrite <- not_true_iff_false, existsb_exists. split.
  - intros H j w Hj Hw. apply not_true_iff_false. intros Hc. apply H. exists (j, w). split; [|done].
    apply list_elem_of_In, elem_of_map_to_list. by rewrite lookup_delete_ne.
  - intros H [[j w] [Hin Hc]]. apply list_elem_of_In, elem_of_map_to_list, lookup_delete_Some in Hin as [Hj Hw].
    cbn in Hc. by rewrite (H j w) in Hc.
Qed.

Lemma same_keys_r v w x : same_keys v w -> clash x v = clash x w.
Proof. intros H. rewrite !(clash_sym x). apply H. Qed.

Lemma unique_insert s id v : unique s -> collides clash s id v = false -> unique (<[id := v]> s).
Proof.
  intros Hu Hc i j x y Hij. rewrite collides_false in Hc.
  destruct (decide (i = id)) as [->|Hi]; [rewrite lookup_insert_eq|rewrite lookup_insert_ne by done];
    (destruct (decide (j = id)) as [->|Hj]; [rewrite lookup_insert_eq|rewrite lookup_insert_ne by done]); intros; simplify_eq; eauto.
Qed.

Lemma unique_delete s id : unique s -> unique (delete id s).
Proof. intros Hu i j v w Hij [_ Hi]%lookup_delete_Some [_ Hj]%lookup_delete_Some. eauto. Qed.

Lemma unique_collides s id v : unique s -> s !! id = Some v -> collides clash s id v = false.
Proof. intros Hu Hv. apply collides_false. eauto. Qed.

Lemma same_keys_collides s id v w : same_keys v w -> collides clash s id v = collides clash s id w.
Proof. intros H. unfold collides. induction (map_to_list _) as [|p l IH]; cbn; [done|]. by rewrite IH, H. Qed.

(** ** Undoing goes back to the snapshot *)

(** Maps that hold values with the same keys under the same ids. *)
Definition alike (s t : gmap Z V) : Prop := forall id, option_Forall2 same_keys (s !! id) (t !! id).

Lemma alike_refl s : alike s s.
Proof. intros id. destruct (s !! id); by constructor. Qed.

Lemma alike_insert s t id v w : alike s t -> t !! id = Some w -> same_keys v w -> alike (<[id := v]> s) t.
Proof.
  intros Ha Ht Hk j. destruct (decide (j = id)) as [->|Hj]; [rewrite lookup_insert_eq, Ht; by constructor|by rewrite lookup_insert_ne].
Qed.

Lemma alike_collides s t id v w : alike s t -> unique t -> t !! id = Some w -> same_keys v w -> collides clash s id v = false.
Proof.
  intros Ha Hu Ht Hk. apply collides_false. intros j x Hj Hx. specialize (Ha j). rewrite Hx in Ha. inversion Ha as [? y Hxy Hy|]; subst.
  rewrite (same_keys_r x y) by done. rewrite Hk. eauto.
Qed.

Lemma undo_old_spec items s t : alike s t -> unique t ->
  Forall (fun p => exists w, t !! p.1 = Some w /\ same_keys p.2 w) items -> NoDup items.*1 ->
  undo_old clash items s = (list_to_map items ∪ s, Ok tt).
Proof.
  revert s. induction items as [|[id v] items IH]; intros s Ha Hu Hi Hn; cbn [undo_old].
  { cbn. by rewrite (left_id_L ∅ (∪)). }
  apply Forall_cons in Hi as [(w & Hw & Hk) Hi]. apply NoDup_cons in Hn as [Hid Hn]. cbn [fst snd] in *.
  pose proof (Ha id) as Hat. rewrite Hw in Hat. inversion Hat as [x ? _ Hx|]; subst. unfold mi_modify. rewrite <- Hx. cbn [mbind option_bind].
  rewrite (alike_collides s t id v w) by done. rewrite IH; [|by eapply alike_insert|done..].
  rewrite list_to_map_cons. f_equal. rewrite <- insert_union_l. symmetry. apply insert_union_r. by apply not_elem_of_list_to_map_1.
Qed.

Lemma undo_new_spec ids (s : gmap Z V) : NoDup ids -> Forall (fun id => is_Some (s !! id)) ids ->
  undo_new ids s = (foldr delete s ids, Ok tt).
Proof.
  revert s. induction ids as [|id ids IH]; intros s Hn Hi; cbn [undo_new foldr]; [done|].
  apply NoDup_cons in Hn as [Hid Hn]. apply Forall_cons in Hi as [[v Hv] Hi]. unfold mi_erase. rewrite Hv. cbn [mbind option_bind].
  rewrite IH; [|done|].
  - f_equal. clear. induction ids as [|j ids IH]; cbn; [done|]. by rewrite IH, delete_delete.
  - rewrite Forall_forall in Hi |- *. intros j Hj. rewrite lookup_delete_ne by (intros ->; done). by apply Hi.
Qed.

Lemma undo_removed_spec items s t : s ⊆ t -> unique t -> Forall (fun p => t !! p.1 = Some p.2 /\ s !! p.1 = None) items -> NoDup items.*1 ->
  undo_removed clash items s = (list_to_map items ∪ s, Ok tt).
Proof.
  revert s. induction items as [|[id v] items IH]; intros s Hs Hu Hi Hn; cbn [undo_removed].
  { cbn. by rewrite (left_id_L ∅ (∪)). }
  apply Forall_cons in Hi as [[Ht Hnone] Hi]. apply NoDup_cons in Hn as [Hid Hn]. cbn [fst snd] in *.
  unfold mi_emplace. rewrite bool_decide_eq_false_2 by (rewrite Hnone; by intros [? [=]]).
  assert (collides clash s id v = false) as ->.
  { apply collides_false. intros j w Hj Hw. apply (Hu id j); [done..|]. by eapply lookup_weaken. }
  cbn [orb]. rewrite IH; [|by apply insert_subseteq_l|done| |done].
  - rewrite list_to_map_cons. f_equal. rewrite <- insert_union_l. symmetry. apply insert_union_r. by apply not_elem_of_list_to_map_1.
  - rewrite Forall_forall in Hi |- *. intros [j w] Hj. destruct (Hi _ Hj) as [H1 H2]. split; [done|].
    rewrite lookup_insert_ne; [done|]. cbn. intros ->. apply Hid, list_elem_of_fmap. by exists (j, w).
Qed.

Lemma Forall_in_order {A} (P : Z * A -> Prop) (m : gmap Z A) : (forall id a, m !! id = Some a -> P (id, a)) -> Forall P (in_order m).
Proof. intros H. rewrite in_order_perm. apply Forall_forall. intros [id a] Hin%elem_of_map_to_list. eauto. Qed.

Lemma lookup_foldr_delete_set (s : gmap Z V) ids id : foldr delete s (in_order_set ids) !! id = if bool_decide (id ∈ ids) then None else s !! id.
Proof.
  rewrite (bool_decide_ext _ (id ∈ in_order_set ids)) by (symmetry; apply elem_of_in_order_set). induction (in_order_set ids) as [|j l IH]; cbn; [done|].
  destruct (decide (j = id)) as [->|Hj]; [rewrite lookup_delete_eq; by rewrite bool_decide_eq_true_2 by set_solver|].
  rewrite lookup_delete_ne by done. rewrite IH. by rewrite (bool_decide_ext (id ∈ j :: l) (id ∈ l)) by set_solver.
Qed.

Ltac inv_change H := inversion H; clear H;
  repeat match goal with
  | E : _ = bool_decide _ |- _ => symmetry in E
  | E : bool_decide _ = true |- _ => apply bool_decide_eq_true_1 in E
  | E : bool_decide _ = false |- _ => apply bool_decide_eq_false_1 in E
  end.

Lemma reverts_undo u cur next sn : reverts u cur next sn -> unique cur ->
  exists s1 s2, undo_old clash (in_order (old_values u)) cur = (s1, Ok tt) /\ undo_new (in_order_set (new_ids u)) s1 = (s2, Ok tt) /\
    undo_removed clash (in_order (removed_values u)) s2 = (sn_content sn, Ok tt).
Proof.
  intros [_ _ Hc _ Hus _ _] Hu. exists (old_values u ∪ cur), (foldr delete (old_values u ∪ cur) (in_order_set (new_ids u))).
  assert (forall id, foldr delete (old_values u ∪ cur) (in_order_set (new_ids u)) !! id =
    if bool_decide (is_Some (removed_values u !! id)) then None else sn_content sn !! id) as Es2.
  { intros id. rewrite lookup_foldr_delete_set, lookup_union. specialize (Hc id). unfold entry in Hc.
    inv_change Hc; destruct (bool_decide_reflect (id ∈ new_ids u)); simplify_option_eq; try done. }
  split_and!.
  - rewrite (undo_old_spec _ cur cur); [by rewrite in_order_map|apply alike_refl|done| |apply in_order_nodup].
    apply Forall_in_order. intros id v Hv. specialize (Hc id). unfold entry in Hc. rewrite Hv in Hc. cbn. inversion Hc; subst. eauto.
  - rewrite undo_new_spec; [done|apply in_order_set_nodup|]. apply Forall_forall. intros id Hid%elem_of_in_order_set.
    specialize (Hc id). unfold entry in Hc. rewrite bool_decide_eq_true_2 in Hc by done. inversion Hc as [v E1 E2 E3| | |]. rewrite lookup_union, <- E1, <- E2. by eexists.
  - rewrite (undo_removed_spec _ _ (sn_content sn)); [|..|done| |apply in_order_nodup].
    + f_equal. rewrite in_order_map. apply map_eq. intros id. rewrite lookup_union, Es2. specialize (Hc id). unfold entry in Hc.
      inversion Hc as [v E1 E2 E3| | |]; simplify_option_eq; try done.
    + apply map_subseteq_spec. intros id v. rewrite Es2. by case_bool_decide.
    + apply Forall_in_order. intros id v Hv. cbn. rewrite Es2, Hv. specialize (Hc id). unfold entry in Hc. rewrite Hv in Hc. by inversion Hc.
Qed.

(** ** Merging two states composes what they say *)

Abbreviation entry_of := (bool * option V * option V)%type.

(** What the three loops do to the entry of the object they visit. *)
Definition merge_old (e : entry_of) (v : V) : option entry_of :=
  let '(n, o, r) := e in
  if n then Some e else match o, r with Some _, _ => Some e | None, Some _ => None | None, None => Some (n, Some v, r) end.

Definition merge_new (e : entry_of) (_ : unit) : option entry_of := let '(_, o, r) := e in Some (true, o, r).

Definition merge_removed (e : entry_of) (v : V) : option entry_of :=
  let '(n, o, r) := e in
  if n then Some (false, o, r)
  else match o, r with
       | Some x, Some _ => Some (n, None, r)
       | Some x, None => Some (n, None, Some x)
       | None, Some _ => None
       | None, None => Some (n, None, Some v)
       end.

(** A loop body that changes one entry only. *)
Definition local_step {A} (f : undo_state V -> Z -> A -> option (undo_state V)) (g : entry_of -> A -> option entry_of) : Prop :=
  forall u id a e, g (entry u id) a = Some e -> exists u', f u id a = Some u' /\ entry u' id = e /\
    (forall j, j <> id -> entry u' j = entry u j) /\ old_next_id u' = old_next_id u /\ us_revision u' = us_revision u.

Ltac local_entry :=
  intros u id a e; unfold entry, map_emplace; cbn; intros;
  destruct (bool_decide_reflect (id ∈ new_ids u)); destruct (old_values u !! id) eqn:?; destruct (removed_values u !! id) eqn:?; simplify_eq;
  eexists; (split; [reflexivity|]); unfold entry; cbn;
  (split; [|split; [intros j Hj|done]]);
  repeat first [rewrite lookup_insert_eq | rewrite lookup_delete_eq | rewrite lookup_insert_ne by done | rewrite lookup_delete_ne by done];
  repeat f_equal; try done; try (apply bool_decide_eq_true_2; set_solver); try (apply bool_decide_eq_false_2; set_solver);
  try (apply bool_decide_ext; set_solver).

Lemma squash_old_local : local_step (squash_old (V := V)) merge_old.
Proof. unfold local_step, squash_old, merge_old. local_entry. Qed.

Lemma squash_new_local : local_step (squash_new (V := V)) merge_new.
Proof. unfold local_step, squash_new, merge_new. local_entry. Qed.

Lemma squash_removed_local : local_step (squash_removed (V := V)) merge_removed.
Proof. unfold local_step, squash_removed, merge_removed. local_entry. Qed.

Definition merge_at {A} (g : entry_of -> A -> option entry_of) (e : entry_of) (o : option A) : option entry_of :=
  match o with Some a => g e a | None => Some e end.

Lemma merge_items_spec {A} f (g : entry_of -> A -> option entry_of) items prev : local_step f g -> NoDup items.*1 ->
  (forall id, is_Some (merge_at g (entry prev id) (list_to_map (M := gmap Z A) items !! id))) ->
  exists u, merge_items f items prev = Some u /\ (forall id, Some (entry u id) = merge_at g (entry prev id) (list_to_map (M := gmap Z A) items !! id)) /\
    old_next_id u = old_next_id prev /\ us_revision u = us_revision prev.
Proof.
  intros Hl. revert prev. induction items as [|[id a] items IH]; intros prev Hn Hs; cbn [merge_items]; [by exists prev|].
  apply NoDup_cons in Hn as [Hid Hn]. cbn [fst] in Hid. destruct (Hs id) as [e He]. rewrite list_to_map_cons, lookup_insert_eq in He. cbn in He.
  destruct (Hl prev id a e He) as (u1 & -> & Ee & Ej & En & Er). cbn [mbind option_bind].
  assert (forall j, merge_at g (entry u1 j) (list_to_map (M := gmap Z A) items !! j) =
    merge_at g (entry prev j) (list_to_map (M := gmap Z A) ((id, a) :: items) !! j)) as Em.
  { intros j. rewrite list_to_map_cons. destruct (decide (j = id)) as [->|Hj]; [|by rewrite lookup_insert_ne, Ej].
    rewrite lookup_insert_eq, (not_elem_of_list_to_map_1 _ _ Hid). cbn. by rewrite Ee, He. }
  destruct (IH u1 Hn) as (u & -> & Hu & En' & Er'); [intros j; rewrite Em; apply Hs|].
  exists u. split_and!; [done| |congruence..]. intros j. by rewrite Hu, Em.
Qed.

(** The table of [squash], row by row: what two states say of an object is composed, and
    the impossible combinations do not happen. *)
Lemma change_squash e n o r cur mid old : change (n, o, r) cur mid -> change e mid old -> (n = true -> old = None) ->
  exists e1 e2 e3, merge_at merge_old e o = Some e1 /\ merge_at merge_new e1 (if n then Some tt else None) = Some e2 /\
    merge_at merge_removed e2 r = Some e3 /\ change e3 cur old /\ (e3.1.1 = true -> e.1.1 = true \/ n = true).
Proof.
  intros H1 H2 H3. inversion H1; subst; inversion H2; subst; try (specialize (H3 eq_refl); congruence); cbn; eexists _, _, _; (split; [reflexivity|]); (split; [reflexivity|]);
    (split; [reflexivity|]); (split; [constructor; try done|cbn; auto]). intros x. etransitivity; eauto.
Qed.

Lemma set_items_lookup s id : list_to_map (M := gmap Z unit) (map (fun id => (id, tt)) (in_order_set s)) !! id = if bool_decide (id ∈ s) then Some tt else None.
Proof.
  assert ((map (fun id => (id, tt)) (in_order_set s)).*1 = in_order_set s) as Ef by (induction (in_order_set s); cbn; congruence).
  case_bool_decide as H.
  - apply elem_of_list_to_map_1; [rewrite Ef; apply in_order_set_nodup|]. apply list_elem_of_fmap. exists id. by rewrite elem_of_in_order_set.
  - apply not_elem_of_list_to_map_1. by rewrite Ef, elem_of_in_order_set.
Qed.

Lemma squash_states_spec prev state cur next mid old : reverts state cur next mid -> reverts prev (sn_content mid) (sn_next mid) old ->
  exists u, squash_states prev state = Some u /\ reverts u cur next old.
Proof.
  intros [A1 A2 A3 A4 A5 A6 A7] [B1 B2 B3 B4 B5 B6 B7]. unfold squash_states.
  assert (forall id, exists e1 e2 e3, merge_at merge_old (entry prev id) (old_values state !! id) = Some e1 /\
    merge_at merge_new e1 (if bool_decide (id ∈ new_ids state) then Some tt else None) = Some e2 /\
    merge_at merge_removed e2 (removed_values state !! id) = Some e3 /\ change e3 (cur !! id) (sn_content old !! id) /\
    (e3.1.1 = true -> (entry prev id).1.1 = true \/ bool_decide (id ∈ new_ids state) = true)) as Hm.
  { intros id. eapply change_squash; [apply A3|apply B3|]. intros Hn%bool_decide_eq_true_1%A4.
    destruct (sn_content old !! id) eqn:E; [|done]. specialize (B6 id (mk_is_Some _ _ E)). lia. }
  destruct (merge_items_spec squash_old merge_old (in_order (old_values state)) prev squash_old_local (in_order_nodup _)) as (u1 & -> & H1 & N1 & R1).
  { intros id. rewrite in_order_map. destruct (Hm id) as (e1 & e2 & e3 & E & _). rewrite E. by eexists. }
  rewrite in_order_map in H1. cbn [mbind option_bind].
  destruct (merge_items_spec squash_new merge_new (map (fun id => (id, tt)) (in_order_set (new_ids state))) u1 squash_new_local) as (u2 & -> & H2 & N2 & R2).
  { rewrite <- (list_fmap_compose _ fst). rewrite list_fmap_id. apply in_order_set_nodup. }
  { intros id. rewrite set_items_lookup. destruct (Hm id) as (e1 & e2 & e3 & E & E' & _). rewrite <- H1 in E. injection E as ->. rewrite E'. by eexists. }
  cbn [mbind option_bind].
  destruct (merge_items_spec squash_removed merge_removed (in_order (removed_values state)) u2 squash_removed_local (in_order_nodup _)) as (u3 & -> & H3 & N3 & R3).
  { intros id. rewrite in_order_map. destruct (Hm id) as (e1 & e2 & e3 & E & E' & E'' & _). rewrite <- H1 in E. injection E as <-.
    rewrite <- set_items_lookup, <- H2 in E'. injection E' as <-. rewrite E''. by eexists. }
  rewrite in_order_map in H3.
  assert (forall id, change (entry u3 id) (cur !! id) (sn_content old !! id) /\ (id ∈ new_ids u3 -> id ∈ new_ids prev \/ id ∈ new_ids state)) as Hu.
  { intros id. destruct (Hm id) as (e1 & e2 & e3 & E & E' & E'' & Hch & Hnew). rewrite <- H1 in E. injection E as <-.
    rewrite <- set_items_lookup, <- H2 in E'. injection E' as <-. rewrite <- H3 in E''. injection E'' as <-. split; [done|].
    cbn in Hnew. rewrite !bool_decide_eq_true in Hnew. done. }
  exists u3. split; [done|]. split; [congruence..|apply Hu| |done|done|lia]. intros id [H%B4|H%A4]%Hu; lia.
Qed.

(** ** What the head records stays true *)

Lemma history_head cur next rev stack saved cur' next' f : history cur next rev stack saved ->
  (forall u sn, reverts u cur next sn -> reverts (f u) cur' next' sn) ->
  history cur' next' rev (match stack with [] => [] | u :: us => f u :: us end) saved.
Proof. intros H Hf. destruct H; constructor; auto. Qed.

Lemma on_head_repr st f cur next rev :
  on_head f (mkIndex (gi_stack st) rev next cur) = mkIndex (V := V) (match gi_stack st with [] => [] | u :: us => f u :: us end) rev next cur.
Proof. unfold on_head. cbn. by destruct (gi_stack st). Qed.

Lemma reverts_at u u' cur cur' next next' sn id :
  reverts u cur next sn -> next <= next' -> old_next_id u' = old_next_id u -> us_revision u' = us_revision u ->
  (forall j, j <> id -> entry u' j = entry u j /\ cur' !! j = cur !! j) ->
  change (entry u' id) (cur' !! id) (sn_content sn !! id) -> (id ∈ new_ids u' -> id ∈ new_ids u \/ next <= id) -> reverts u' cur' next' sn.
Proof.
  intros [A1 A2 A3 A4 A5 A6 A7] Hn En Er Hj Hc Hnew. split; [congruence..| | |done|done|lia].
  - intros j. destruct (decide (j = id)) as [->|Hne]; [done|]. destruct (Hj j Hne) as [-> ->]. apply A3.
  - intros j Hin. destruct (decide (j = id)) as [->|Hne].
    + apply Hnew in Hin as [H%A4|H]; lia.
    + destruct (Hj j Hne) as [He _]. unfold entry in He. injection He as He _ _. apply A4.
      apply (bool_decide_eq_true_1 (j ∈ new_ids u)). rewrite <- He. by apply bool_decide_eq_true_2.
Qed.

(** Unfolds the entry of the object that is touched. *)
Ltac touch u id :=
  unfold entry, map_emplace in *; cbn in *;
  destruct (bool_decide_reflect (id ∈ new_ids u)); destruct (old_values u !! id) eqn:?; destruct (removed_values u !! id) eqn:?; cbn in *.

Ltac other_entries :=
  intros j Hj; rewrite ?lookup_insert_ne, ?lookup_delete_ne by done; split; [|done]; unfold entry; cbn;
  rewrite ?lookup_insert_ne, ?lookup_delete_ne by done; repeat f_equal; try done; apply bool_decide_ext; set_solver.

Lemma note_create_reverts u cur next sn v : reverts u cur next sn -> cur !! next = None -> ids_below (sn_content sn) (sn_next sn) ->
  reverts (note_create u next) (<[next := v]> cur) (next + 1) sn.
Proof.
  intros Hr Hn Hb. apply (reverts_at u _ cur _ next _ _ next Hr); [lia|done..|other_entries| |auto with lia].
  destruct Hr as [_ _ Hc _ _ _ Hle]. specialize (Hc next). rewrite Hn in Hc. rewrite lookup_insert_eq. unfold entry, note_create. cbn.
  rewrite bool_decide_eq_true_2 by set_solver. unfold entry in Hc. inversion Hc as [| |w E1 E2 E3|o E1 E2 E3]; [|constructor].
  specialize (Hb next (mk_is_Some _ _ (eq_sym E3))). lia.
Qed.

Lemma note_modify_reverts u cur next sn id v v' : reverts u cur next sn -> cur !! id = Some v -> same_keys v' v ->
  reverts (note_modify u id v) (<[id := v']> cur) next sn.
Proof.
  intros Hr Hv Hk. pose proof (rv_change _ _ _ _ Hr id) as Hc. rewrite Hv in Hc. apply (reverts_at u _ cur _ next _ _ id Hr); [lia|..].
  - unfold note_modify. touch u id; done.
  - unfold note_modify. touch u id; done.
  - unfold note_modify. touch u id; other_entries.
  - rewrite lookup_insert_eq. unfold note_modify. touch u id; inversion Hc; subst; cbn;
      rewrite ?bool_decide_eq_true_2, ?bool_decide_eq_false_2, ?lookup_insert_eq by done; simplify_option_eq;
      repeat match goal with E : _ u !! id = _ |- _ => rewrite E end; constructor; intros x; rewrite Hk; auto.
  - unfold note_modify. touch u id; auto.
Qed.

Lemma note_remove_reverts u cur next sn id v : reverts u cur next sn -> cur !! id = Some v ->
  reverts (note_remove u id v) (delete id cur) next sn.
Proof.
  intros Hr Hv. pose proof (rv_change _ _ _ _ Hr id) as Hc. rewrite Hv in Hc. apply (reverts_at u _ cur _ next _ _ id Hr); [lia|..].
  - unfold note_remove. touch u id; done.
  - unfold note_remove. touch u id; done.
  - unfold note_remove. touch u id; other_entries.
  - rewrite lookup_delete_eq. unfold note_remove. touch u id; inversion Hc; subst; cbn;
      rewrite ?lookup_insert_eq, ?lookup_delete_eq; repeat match goal with E : _ u !! id = _ |- _ => rewrite E end;
      rewrite ?bool_decide_eq_false_2 by set_solver; constructor.
  - unfold note_remove. touch u id; set_solver.
Qed.

(** ** Every operation refines the contract *)

Lemma ids_below_insert s next v : ids_below s next -> ids_below (<[next := v]> s) (next + 1).
Proof.
  intros Hb id Hid. destruct (decide (id = next)) as [->|Hne]; [lia|]. rewrite lookup_insert_ne in Hid by done. specialize (Hb id Hid). lia.
Qed.

Lemma emplace_refines st sp c : repr st sp ->
  repr (emplace clash st c).1 (spec_op sp (op_emplace c)).1 /\ (emplace clash st c).2 = (spec_op sp (op_emplace c)).2.
Proof.
  intros [Ec En Er Hu Hb Hh]. destruct sp as [content next rev saved]. cbn in *. unfold emplace. cbv zeta. rewrite Ec, En.
  assert (content !! next = None) as Hf by (destruct (content !! next) eqn:E; [specialize (Hb next (mk_is_Some _ _ E)); lia|done]).
  unfold mi_emplace. rewrite bool_decide_eq_false_2 by (rewrite Hf; by intros [? [=]]). cbn [orb].
  destruct (collides clash content next (c next)) eqn:Hcol; [done|]. split; [|done]. unfold on_create. rewrite on_head_repr. cbn [fst].
  split; cbn; [done..|by apply unique_insert|by apply ids_below_insert|].
  apply (history_head content next _ _ _ _ _ (fun head => note_create head next) Hh).
  intros u sn Hr. apply note_create_reverts; [done..|apply Hr].
Qed.

Lemma modify_refines st sp id m : repr st sp -> legal (sp_content sp) (op_modify id m) ->
  repr (modify clash st id m).1 (spec_op sp (op_modify id m)).1 /\ (modify clash st id m).2 = Ok tt.
Proof.
  intros [Ec En Er Hu Hb Hh] (v & Hv & Hk). destruct st as [stack grev gnext s], sp as [content next rev saved]. cbn in *. subst s gnext grev.
  unfold modify. cbn [gi_indices]. rewrite Hv. unfold on_modify, on_head. cbn [gi_stack].
  assert (collides clash content id (m v) = false) as Hcol by (rewrite (same_keys_collides _ _ _ _ Hk); by apply unique_collides).
  assert (alter m id content = <[id := m v]> content) as Ea by (apply map_eq; intros j; destruct (decide (j = id)) as [->|?];
    [by rewrite lookup_alter_eq, lookup_insert_eq, Hv|by rewrite lookup_alter_ne, lookup_insert_ne]).
  pose proof (history_head content next rev stack saved (<[id := m v]> content) next (fun u => note_modify u id v) Hh
    (fun u sn Hr => note_modify_reverts u content next sn id v (m v) Hr Hv Hk)) as Hh'.
  destruct stack as [|u us]; cbn [gi_indices with_stack]; unfold mi_modify; rewrite Hv; cbn [mbind option_bind]; rewrite Hcol;
    (split; [|done]); rewrite Ea; (split; cbn; [done..|by apply unique_insert| |done]);
    intros j Hj; apply Hb; (destruct (decide (j = id)) as [->|?]; [by exists v|by rewrite lookup_insert_ne in Hj]).
Qed.

Lemma remove_refines st sp id : repr st sp -> is_Some (sp_content sp !! id) ->
  repr (remove st id).1 (spec_op sp (op_remove id)).1 /\ (remove st id).2 = Ok tt.
Proof.
  intros [Ec En Er Hu Hb Hh] (v & Hv). destruct st as [stack grev gnext s], sp as [content next rev saved]. cbn in *. subst s gnext grev.
  unfold remove. cbn [gi_indices]. rewrite Hv. unfold on_remove, on_head. cbn [gi_stack].
  pose proof (history_head content next rev stack saved (delete id content) next (fun u => note_remove u id v) Hh
    (fun u sn Hr => note_remove_reverts u content next sn id v Hr Hv)) as Hh'.
  destruct stack as [|u us]; cbn [gi_indices with_stack]; unfold mi_erase; rewrite Hv; cbn [mbind option_bind];
    (split; [|done]); (split; cbn; [done..|by apply unique_delete| |done]);
    intros j [w Hj]; apply lookup_delete_Some in Hj as [_ Hj]; apply Hb; by exists w.
Qed.

Lemma undo_refines st sp : repr st sp -> repr (undo clash st).1 (spec_op sp op_undo).1 /\ (undo clash st).2 = Ok tt.
Proof.
  intros H. destruct (H) as [Ec En Er Hu Hb Hh]. destruct st as [stack grev gnext s], sp as [content next rev saved]. cbn in *. subst s gnext grev.
  inversion Hh as [|? ? ? u us sn sns Hr Erev Hrest]; subst; [by split|]. unfold undo. cbn [gi_stack gi_indices].
  destruct (reverts_undo u content next sn Hr Hu) as (s1 & s2 & -> & -> & ->). cbn. split; [|done].
  destruct Hr as [A1 A2 A3 A4 A5 A6 A7]. by split; cbn.
Qed.

Lemma squash_refines st sp : repr st sp -> repr (squash st).1 (spec_op sp op_squash).1 /\ (squash st).2 = Ok tt.
Proof.
  intros H. destruct (H) as [Ec En Er Hu Hb Hh]. destruct st as [stack grev gnext s], sp as [content next rev saved]. cbn in *. subst s gnext grev.
  inversion Hh as [|? ? ? u us sn sns Hr Erev Hrest]; subst; [by split|]. unfold squash. cbn [gi_stack].
  inversion Hrest as [|? ? ? u2 us2 sn2 sns2 Hr2 Erev2 Hrest2]; subst; [split; [split; cbn; try done; constructor|done]|].
  destruct (squash_states_spec u2 u content next sn sn2 Hr Hr2) as (u' & -> & Hr'). split; [|done]. split; cbn; try done.
  rewrite <- Erev2 in *. by constructor.
Qed.

(** The revisions of the stack count down, so that the states committed are its end. *)
Lemma commit_front_snoc (l : list (undo_state V)) u r :
  commit_front (l ++ [u]) r = if us_revision u <=? r then commit_front l r ++ (match commit_front l r with [] => [] | _ => [u] end)
    else commit_front l r ++ [u].
Proof.
  induction l as [|x l IH]; cbn; [by destruct (us_revision u <=? r)|]. destruct (us_revision x <=? r); [apply IH|].
  by destruct (us_revision u <=? r).
Qed.

Lemma history_committed cur next rev us sns r : history cur next rev us sns -> rev <= r ->
  commit_front (reverse us) r = [] /\ filter (fun sn => r < sn_rev sn) sns = [].
Proof.
  induction 1 as [|cur next rev u us sn sns Hr Er _ IH]; intros Hle; [done|]. destruct IH as [IH1 IH2]; [lia|].
  rewrite reverse_cons, commit_front_snoc, (rv_rev _ _ _ _ Hr), Er, IH1, filter_cons_False, IH2 by lia.
  by rewrite (proj2 (Z.leb_le _ _)) by lia.
Qed.

Lemma history_commit cur next rev us sns r : history cur next rev us sns ->
  history cur next rev (reverse (commit_front (reverse us) r)) (filter (fun sn => r < sn_rev sn) sns).
Proof.
  induction 1 as [|cur next rev u us sn sns Hr Er Hh IH]; [constructor|]. destruct (Z.le_gt_cases rev r) as [Hle|Hgt].
  - destruct (history_committed cur next rev (u :: us) (sn :: sns) r) as [-> ->]; [by constructor|done|constructor].
  - rewrite reverse_cons, commit_front_snoc, (rv_rev _ _ _ _ Hr), Er, (proj2 (Z.leb_gt _ _)) by lia.
    rewrite reverse_snoc, filter_cons_True by lia. by constructor.
Qed.

Lemma undo_all_refines st sp : repr st sp -> repr (undo_all clash st).1 (spec_op sp op_undo_all).1 /\ (undo_all clash st).2 = Ok tt.
Proof.
  unfold undo_all. remember (length (gi_stack st)) as n eqn:En. revert st sp En.
  induction n as [|n IH]; intros st [content next rev saved] En H; pose proof (rp_history _ _ H) as Hh.
  - destruct (gi_stack st) eqn:Es; [|done]. cbn in Hh. inversion Hh; subst. by cbn.
  - destruct (undo_refines st _ H) as [H' Hok]. cbn [undo_all_loop]. destruct (undo clash st) as [st' r] eqn:Eu. cbn [fst snd] in *. subst r.
    cbn [sp_saved sp_content sp_next sp_rev] in Hh.
    destruct (gi_stack st) as [|u us] eqn:Es; [done|].
    inversion Hh as [|? ? ? ? ? sn sns Hr Erev Hrest]; subst. cbn [spec_op fst] in H'.
    assert (n = length (gi_stack st')) as En'.
    { cbn in En. pose proof (rp_history _ _ H') as Hh'. cbn in Hh'.
      assert (forall c x r us ss, history c x r us ss -> length us = length ss) as Hlen by (induction 1; cbn; congruence).
      rewrite (Hlen _ _ _ _ _ Hh'), <- (Hlen _ _ _ _ _ Hrest). lia. }
    destruct (IH st' _ En' H') as [H2 Hok2]. split; [|done]. cbn [spec_op] in *. destruct sns as [|sn2 sns]; cbn [last fst] in *.
    + by replace (sn_rev sn - Zlength [sn]) with (sn_rev sn - 1) by (unfold Zlength; cbn; lia).
    + change (last (sn :: sn2 :: sns)) with (last (sn2 :: sns)). destruct (last (sn2 :: sns)) as [sn'|] eqn:El; [|by apply last_None in El].
      cbn [fst] in *. rewrite Zlength_cons. by replace (sn_rev sn - (1 + Zlength (sn2 :: sns))) with (sn_rev sn - 1 - Zlength (sn2 :: sns)) by lia.
Qed.

Lemma op_refines st sp o : repr st sp -> legal (sp_content sp) o ->
  repr (run_op st o).1 (spec_op sp o).1 /\ (run_op st o).2 = (spec_op sp o).2.
Proof.
  intros H Hl. assert (forall x : generic_index V * result db_error unit, repr x.1 (spec_op sp o).1 /\ x.2 = Ok tt -> (spec_op sp o).2 = Ok 0 ->
    repr (unit_result x).1 (spec_op sp o).1 /\ (unit_result x).2 = (spec_op sp o).2) as Hx by (intros x [H1 H2] ->; unfold unit_result; by rewrite H2).
  destruct o as [c|id m|id|id| | | |r| |r]; cbn [run_op].
  - by apply emplace_refines.
  - apply Hx; [by apply modify_refines|by destruct sp].
  - apply Hx; [by apply remove_refines|by destruct sp].
  - unfold remove_object, find. rewrite (rp_content _ _ H). destruct (sp_content sp !! id) as [v|] eqn:Hv; [|destruct sp; cbn in *; by rewrite Hv].
    pose proof (remove_refines st sp id H (mk_is_Some _ _ Hv)) as Hr. destruct sp; cbn in *. rewrite Hv in *. by apply Hx.
  - destruct H as [Ec En Er Hu Hb Hh], sp as [content next rev saved]. cbn in *. split; [|done]. rewrite Ec, En, Er. split; cbn; try done.
    constructor; [|done|cbn; by replace (rev + 1 - 1) with rev by lia]. split; cbn; try done. intros id. constructor.
  - apply Hx; [by apply undo_refines|by destruct sp as [? ? ? []]].
  - apply Hx; [by apply squash_refines|by destruct sp].
  - destruct H as [Ec En Er Hu Hb Hh], sp as [content next rev saved]. cbn in *. split; [|done]. split; cbn; try done. by apply history_commit.
  - apply Hx; [by apply undo_all_refines|]. destruct sp as [? ? ? saved]. cbn. by destruct (last saved).
  - destruct H as [Ec En Er Hu Hb Hh], sp as [content next rev saved], st as [stack grev gnext s]. cbn in *. subst.
    inversion Hh; subst; cbn; (split; [split; cbn; try done; constructor; done|done]).
Qed.

Lemma empty_repr : repr empty_index (mkSpec ∅ 0 0 []).
Proof. split; cbn; try done; [intros id [v Hv]; by rewrite lookup_empty in Hv|constructor]. Qed.

(** ** Sequences of operations *)

Fixpoint run_ops (st : generic_index V) (ops : list op) : generic_index V * list (result db_error Z) :=
  match ops with
  | [] => (st, [])
  | o :: ops => let '(st, r) := run_op st o in let '(st, rs) := run_ops st ops in (st, r :: rs)
  end.

Fixpoint spec_ops (sp : spec) (ops : list op) : spec * list (result db_error Z) :=
  match ops with
  | [] => (sp, [])
  | o :: ops => let '(sp, r) := spec_op sp o in let '(sp, rs) := spec_ops sp ops in (sp, r :: rs)
  end.

Fixpoint legal_ops (sp : spec) (ops : list op) : Prop :=
  match ops with
  | [] => True
  | o :: ops => legal (sp_content sp) o /\ legal_ops (spec_op sp o).1 ops
  end.

End contract.

Arguments snapshot : clear implicits.
Arguments spec : clear implicits.
Arguments op : clear implicits.

(** * The database: one stack of sessions over all indices *)

Section database.
Context {V : Type} (clash : V -> V -> bool).

(** [_index_list]; the objects of all indices are of one sum type here. *)
Definition database : Type := list (generic_index V).

(** An exception leaves the indices behind alone. *)
Fixpoint each_index (f : generic_index V -> generic_index V * result db_error unit) (db : database) : database * result db_error unit :=
  match db with
  | [] => ([], Ok tt)
  | st :: db =>
      match f st with
      | (st, Err e) => (st :: db, Err e)
      | (st, Ok _) => let '(db, r) := each_index f db in (st :: db, r)
      end
  end.

Definition database_undo : database -> database * result db_error unit := each_index (undo clash).
Definition database_squash : database -> database * result db_error unit := each_index (@squash V).
Definition database_undo_all : database -> database * result db_error unit := each_index (undo_all clash).
Definition database_set_revision (db : database) (revision : Z) : database * result db_error unit := each_index (fun st => set_revision st revision) db.
Definition database_commit (db : database) (revision : Z) : database := map (fun st => commit st revision) db.
Definition database_revision (db : database) : Z := match db with [] => -1 | st :: _ => gi_revision st end.

Record db_session := mkDbSession { ds_sessions : list session; ds_revision : Z }.

Definition database_start_undo_session (db : database) (on : bool) : database * db_session :=
  if on then
    let started := map (fun st => start_undo_session st true) db in
    (started.*1, mkDbSession started.*2 (match started.*2 with [] => -1 | se :: _ => se_revision se end))
  else (db, mkDbSession [] (-1)).

(** A session of an index refers to its index: the two lists run together. *)
Fixpoint each_session (f : generic_index V -> session -> generic_index V * session * result db_error unit) (db : database) (ses : list session)
    : database * list session * result db_error unit :=
  match db, ses with
  | st :: db', se :: ses' =>
      match f st se with
      | (st, se, Err e) => (st :: db', se :: ses', Err e)
      | (st, se, Ok _) => let '(db, ses, r) := each_session f db' ses' in (st :: db, se :: ses, r)
      end
  | _, _ => (db, ses, Ok tt)
  end.

(** The list is cleared after the loop. *)
Definition db_session_all (f : generic_index V -> session -> generic_index V * session * result db_error unit) (db : database) (ds : db_session)
    : database * db_session * result db_error unit :=
  match each_session f db (ds_sessions ds) with
  | (db, ses, Err e) => (db, mkDbSession ses (ds_revision ds), Err e)
  | (db, _, Ok _) => (db, mkDbSession [] (ds_revision ds), Ok tt)
  end.

Definition db_session_push (ds : db_session) : db_session := mkDbSession [] (ds_revision ds).
Definition db_session_squash : database -> db_session -> database * db_session * result db_error unit := db_session_all (@session_squash V).
Definition db_session_undo : database -> db_session -> database * db_session * result db_error unit := db_session_all (session_undo clash).

(** What a program does between opening a session and its end: operations on objects, and
    sessions inside. *)
Inductive db_op :=
  | db_object (k : nat) (o : op V)
  | db_start
  | db_squash
  | db_undo.

Definition run_db_op (db : database) (o : db_op) : database * result db_error Z :=
  match o with
  | db_object k o =>
      match db !! k with
      | None => (db, Err undefined)
      | Some st => let '(st, r) := run_op clash st o in (<[k := st]> db, r)
      end
  | db_start => ((database_start_undo_session db true).1, Ok 0)
  | db_squash => unit_result (database_squash db)
  | db_undo => unit_result (database_undo db)
  end.

Fixpoint run_db (db : database) (ops : list db_op) : database * list (result db_error Z) :=
  match ops with
  | [] => (db, [])
  | o :: ops => let '(db, r) := run_db_op db o in let '(db, rs) := run_db db ops in (db, r :: rs)
  end.

Definition object_op (o : op V) : bool :=
  match o with op_emplace _ | op_modify _ _ | op_remove _ | op_remove_object _ => true | _ => false end.

(** The sequences that end every session they open, and end no other; objects are those of
    the indices, and keep their unique keys. *)
Fixpoint well_nested (depth : nat) (db : database) (ops : list db_op) : Prop :=
  match ops with
  | [] => depth = O
  | o :: ops =>
      match o with
      | db_object k o => object_op o = true /\ (exists st, db !! k = Some st /\ legal clash (gi_indices st) o) /\ well_nested depth (run_db_op db (db_object k o)).1 ops
      | db_start => well_nested (S depth) (run_db_op db db_start).1 ops
      | db_squash | db_undo => match depth with O => False | S depth => well_nested depth (run_db_op db o).1 ops end
      end
  end.

(** An index on which [depth] sessions were opened since the snapshot. *)
Definition above (depth : nat) (st : generic_index V) (sn : snapshot V) : Prop :=
  exists sp tops rest, repr clash st sp /\ sp_saved sp = tops ++ sn :: rest /\ length tops = depth /\ sp_rev sp = sn_rev sn + Z.of_nat depth.

Hypothesis clash_sym : forall v w, clash v w = clash w v.

Lemma object_op_above depth st sn o : above depth st sn -> object_op o = true -> legal clash (gi_indices st) o ->
  above depth (run_op clash st o).1 sn /\ (run_op clash st o).2 <> Err undefined.
Proof.
  intros (sp & tops & rest & H & Es & El & Er) Ho Hl. rewrite (rp_content _ _ _ H) in Hl.
  destruct (op_refines clash clash_sym st sp o H Hl) as [H' ->]. destruct sp as [content next rev saved]. cbn [sp_saved sp_rev sp_content] in *.
  split; [eexists _, tops, rest; split; [exact H'|]|]; destruct o; try done; cbn; try case_match; cbn; done.
Qed.

Lemma start_above depth st sn : above depth st sn -> above (S depth) (start_undo_session st true).1 sn.
Proof.
  intros (sp & tops & rest & H & Es & El & Er). destruct (op_refines clash clash_sym st sp op_start H I) as [H' _].
  destruct sp as [content next rev saved]. cbn in *. subst. eexists _, (_ :: tops), rest. split; [exact H'|]. cbn. split_and!; [done|done|lia].
Qed.

Lemma finish_above depth st sn o : o = op_undo \/ o = op_squash -> above (S depth) st sn ->
  above depth (run_op clash st o).1 sn /\ (run_op clash st o).2 = Ok 0.
Proof.
  intros Ho (sp & [|top tops] & rest & H & Es & El & Er); [done|].
  destruct (op_refines clash clash_sym st sp o H) as [H' ->]; [by destruct Ho as [-> | ->]|]. destruct sp as [content next rev saved].
  cbn [sp_saved sp_rev] in *. subst saved. destruct Ho as [-> | ->]; cbn in *; (split; [|done]); eexists _, tops, rest; (split; [exact H'|]); cbn;
    (split_and!; [done|lia|]); [lia|]. destruct tops; cbn in *; lia.
Qed.

Lemma each_index_above f depth depth' db sns :
  (forall st sn, above depth st sn -> above depth' (f st).1 sn /\ (f st).2 = Ok tt) ->
  Forall2 (above depth) db sns -> Forall2 (above depth') (each_index f db).1 sns /\ (each_index f db).2 = Ok tt.
Proof.
  intros Hf. induction 1 as [|st sn db sns H _ [IH1 IH2]]; cbn [each_index]; [by constructor|].
  destruct (Hf st sn H) as [H1 H2]. destruct (f st) as [st' r]. cbn in H1, H2. subst r. destruct (each_index f db) as [db' r]. cbn in *.
  split; [by constructor|done].
Qed.

Lemma unit_result_ok (x : generic_index V * result db_error unit) : (unit_result x).2 = Ok 0 -> x.2 = Ok tt.
Proof. destruct x as [st [[]|e]]; done. Qed.

Lemma run_db_above depth db sns ops : Forall2 (above depth) db sns -> well_nested depth db ops ->
  Forall2 (above 0) (run_db db ops).1 sns /\ Forall (fun r => r <> Err undefined) (run_db db ops).2.
Proof.
  revert depth db. induction ops as [|o ops IH]; intros depth db Hd Hw; cbn [run_db].
  { cbn in Hw. subst depth. split; [done|constructor]. }
  assert (exists depth', Forall2 (above depth') (run_db_op db o).1 sns /\ well_nested depth' (run_db_op db o).1 ops /\
    (run_db_op db o).2 <> Err undefined) as (depth' & H1 & H2 & H3).
  { destruct o as [k o| | |]; cbn [well_nested] in Hw.
    - destruct Hw as (Ho & (st & Hk & Hl) & Hw). exists depth. cbn [run_db_op] in *. rewrite Hk in *.
      destruct (Forall2_lookup_l _ _ _ _ _ Hd Hk) as (sn & Hsn & Ha). destruct (object_op_above depth st sn o Ha Ho Hl) as [Ha' Hr].
      destruct (run_op clash st o) as [st' r]. cbn in *. split_and!; [|done..]. rewrite <- (list_insert_id _ _ _ Hsn). by apply Forall2_insert.
    - exists (S depth). split_and!; [|done..]. cbn. rewrite <- list_fmap_compose. apply Forall2_fmap_l. eapply Forall2_impl; [exact Hd|].
      intros st sn Ha. by apply start_above.
    - destruct depth as [|depth]; [done|]. exists depth. cbn [run_db_op] in *. unfold unit_result in *. cbn [fst snd] in *.
      destruct (each_index_above (@squash V) (S depth) depth db sns) as [H1 H2]; [|done|split_and!; [done..|unfold database_squash; by rewrite H2]].
      intros st sn Ha. destruct (finish_above depth st sn op_squash (or_intror eq_refl) Ha) as [Hs Hok]. split; [done|by apply unit_result_ok].
    - destruct depth as [|depth]; [done|]. exists depth. cbn [run_db_op] in *. unfold unit_result in *. cbn [fst snd] in *.
      destruct (each_index_above (undo clash) (S depth) depth db sns) as [H1 H2]; [|done|split_and!; [done..|unfold database_undo; by rewrite H2]].
      intros st sn Ha. destruct (finish_above depth st sn op_undo (or_introl eq_refl) Ha) as [Hs Hok]. split; [done|by apply unit_result_ok]. }
  destruct (IH depth' _ H1 H2) as [H4 H5]. destruct (run_db_op db o) as [db1 r1]. cbn [fst snd] in *. destruct (run_db db1 ops) as [db2 rs]. cbn in *.
  split; [done|by constructor].
Qed.

Definition at_snapshot (sn : snapshot V) (st : generic_index V) : Prop :=
  gi_indices st = sn_content sn /\ gi_next_id st = sn_next sn /\ gi_revision st = sn_rev sn - 1.

Lemma each_session_undo db ses sns : Forall2 (above 0) db sns -> length ses = length db -> Forall (fun se => se_apply se = true) ses ->
  exists db' ses', each_session (session_undo clash) db ses = (db', ses', Ok tt) /\ Forall2 at_snapshot sns db'.
Proof.
  intros H. revert ses. induction H as [|st sn db sns Ha _ IH]; intros [|se ses] Hl Hs; try done; cbn [each_session]; [by eexists _, _|].
  apply Forall_cons in Hs as [Hse Hs]. destruct (IH ses) as (db' & ses' & E & H'); [by injection Hl|done|].
  destruct Ha as (sp & [|] & rest & Hr & Es & El & Er); [|done]. destruct (undo_refines clash clash_sym st sp Hr) as [Hu Hok].
  assert (session_undo clash st se = ((undo clash st).1, session_push se, Ok tt)) as -> .
  { unfold session_undo. rewrite Hse. destruct (undo clash st) as [st' r]. cbn [snd] in Hok. by subst r. }
  rewrite E. eexists _, _. split; [done|].
  constructor; [|done]. destruct sp as [content next rev saved]. cbn [sp_saved sp_rev] in *. subst saved. cbn in *.
  destruct Hu as [Ec En Er' _ _ _]. cbn in *. unfold at_snapshot. split_and!; [done..|lia].
Qed.

Definition same_state (st st' : generic_index V) : Prop :=
  gi_indices st' = gi_indices st /\ gi_next_id st' = gi_next_id st /\ gi_revision st' = gi_revision st.

Lemma session_atomic_spec db ops : Forall (fun st => exists sp, repr clash st sp) db ->
  let '(db1, ds) := database_start_undo_session db true in well_nested 0 db1 ops ->
  let '(db2, rs) := run_db db1 ops in Forall (fun r => r <> Err undefined) rs /\
  exists db3, db_session_undo db2 ds = (db3, mkDbSession [] (ds_revision ds), Ok tt) /\ Forall2 same_state db db3.
Proof.
  intros Hr. cbn [database_start_undo_session]. intros Hw.
  set (sns := map (fun st => mkSnap (gi_indices st) (gi_next_id st) (gi_revision st + 1)) db).
  assert (Forall2 (above 0) (map (fun st => start_undo_session st true) db).*1 sns) as Ha.
  { subst sns. rewrite <- list_fmap_compose. apply Forall2_fmap. clear Hw. induction Hr as [|st db (sp & Hsp) _ IH]; constructor; [|done].
    destruct (op_refines clash clash_sym st sp op_start Hsp I) as [H' _]. destruct Hsp as [Ec En Er _ _ _], sp as [content next rev saved]. cbn in *.
    eexists _, [], saved. split; [exact H'|]. cbn. rewrite Ec, En, Er. split_and!; [done..|lia]. }
  destruct (run_db_above 0 _ sns ops Ha Hw) as [Ha' Hrs]. destruct (run_db _ ops) as [db2 rs]. cbn [fst snd] in *. split; [done|].
  destruct (each_session_undo db2 (map (fun st => start_undo_session st true) db).*2 sns Ha') as (db3 & ses' & E & Hs).
  - rewrite !length_fmap. apply Forall2_length in Ha'. subst sns. by rewrite Ha', length_map.
  - rewrite !Forall_fmap. apply Forall_true. done.
  - unfold db_session_undo, db_session_all. cbn [ds_sessions ds_revision]. rewrite E. exists db3. split; [done|].
    eapply Forall2_impl; [exact (proj1 (Forall2_fmap_l _ _ _ _) Hs)|]. intros st st' (H1 & H2 & H3). cbn in *. split_and!; [done..|lia].
Qed.

End database.

(** * Instances of the statements, and keys that change *)

(** Objects with a unique key and a balance. *)
Definition key_clash (v w : Z * Z) : bool := v.1 =? w.1.

Lemma key_clash_sym v w : key_clash v w = key_clash w v.
Proof. apply Z.eqb_sym. Qed.

Definition pay (v : Z * Z) : Z * Z := (v.1, v.2 + 1).
Definition demo_ops : list (op (Z * Z)) :=
  [op_emplace (fun _ => (10, 1)); op_start; op_modify 0 pay; op_emplace (fun _ => (11, 5)); op_emplace (fun _ => (10, 7)); op_start; op_remove 0;
   op_squash; op_undo].


Definition demo_indices : list (generic_index (Z * Z)) := [(run_ops key_clash empty_index (take 1 demo_ops)).1; empty_index].
Definition demo_db_ops : list (db_op (V := Z * Z)) :=
  [db_object 0 (op_modify 0 pay); db_start; db_object 1 (op_emplace (fun _ => (3, 4))); db_squash; db_object 0 (op_remove 0)].


(** A unique key given up by a modified object and taken by a new one: undoing puts the
    old value back before it erases the new object, the keys collide, and the undoing
    throws, the modified object lost. *)
Example undo_reused_key_throws :
  let st := (run_ops key_clash empty_index [op_emplace (fun _ => (10, 1)); op_start; op_modify 0 (fun v => (12, v.2)); op_emplace (fun _ => (10, 2))]).1 in
  (undo key_clash st).2 = Err logic_error /\ gi_indices (undo key_clash st).1 = {[1 := (10, 2)]}.
Proof. vm_compute. by split. Qed.

(** A modification that collides erases the object; undoing the session then modifies
    through an iterator past the end. *)
Example undo_after_collision_undefined :
  let st := (run_ops key_clash empty_index [op_emplace (fun _ => (10, 1)); op_emplace (fun _ => (11, 1)); op_start; op_modify 0 (fun v => (11, v.2))]).1 in
  (undo key_clash st).2 = Err undefined.
Proof. vm_compute. reflexivity. Qed.
