(* ===== verification/SubMerkle.v ===== *)
(** * Merkle trees of the sub-chain (subchain/libraries/chain/merkle.cpp, merkle.hpp,
    incremental_merkle.hpp)

    [merkle] halves a list of digests level by level, in place; [append] keeps, from one
    block to the next, only the roots of the complete subtrees. Both give the same root. The
    hash is OpenSSL's, behind [fc::sha256]: an argument, of which nothing is used. *)

From S2P Require Import Prelude Sha256.

(** ** Bit tricks *)

Definition smear (s value : Z) : Z := Z.lor value (Z.shiftr value s).

Definition next_power_of_2 (value : Z) : Z :=
  let value := u64 (value - 1) in
  let value := smear 1 value in
  let value := smear 2 value in
  let value := smear 4 value in
  let value := smear 8 value in
  let value := smear 16 value in
  let value := smear 32 value in
  u64 (value + 1).

Definition clz_power_2 (value : Z) : Z :=
  let lz := 64 in
  let lz := if negb (value =? 0) then lz - 1 else lz in
  let lz := if negb (Z.land value 0x00000000FFFFFFFF =? 0) then lz - 32 else lz in
  let lz := if negb (Z.land value 0x0000FFFF0000FFFF =? 0) then lz - 16 else lz in
  let lz := if negb (Z.land value 0x00FF00FF00FF00FF =? 0) then lz - 8 else lz in
  let lz := if negb (Z.land value 0x0F0F0F0F0F0F0F0F =? 0) then lz - 4 else lz in
  let lz := if negb (Z.land value 0x3333333333333333 =? 0) then lz - 2 else lz in
  if negb (Z.land value 0x5555555555555555 =? 0) then lz - 1 else lz.

Definition calcluate_max_depth (node_count : Z) : Z :=
  if node_count =? 0 then 0 else clz_power_2 (next_power_of_2 node_count) + 1.

(** ** Nodes *)

(** A digest is the 32 bytes of its four words, which are little-endian. *)
Abbreviation digest := (list byte).
Definition digest_zero : digest := replicate 32 x00.

Definition map_word0 (f : Z -> Z) (val : digest) : digest := le_bytes 8 (f (le_val (take 8 val))) ++ drop 8 val.

Definition make_canonical_left (val : digest) : digest := map_word0 (fun w => Z.land w 0xFFFFFFFFFFFFFF7F) val.
Definition make_canonical_right (val : digest) : digest := map_word0 (fun w => Z.lor w 0x0000000000000080) val.
Definition is_canonical_left (val : digest) : bool := Z.land (le_val (take 8 val)) 0x0000000000000080 =? 0.
Definition is_canonical_right (val : digest) : bool := negb (Z.land (le_val (take 8 val)) 0x0000000000000080 =? 0).

Definition make_canonical_pair (l r : digest) : digest * digest := (make_canonical_left l, make_canonical_right r).

Section merkle.
Context (sha256 : bytes -> digest).

(** [fc::raw::pack] writes the first digest and the second. *)
Definition hash_pair (p : digest * digest) : digest := sha256 (p.1 ++ p.2).

Definition node (l r : digest) : digest := hash_pair (make_canonical_pair l r).

(** ** [merkle] *)

(** The loop over the pairs writes its results into the front of the vector it reads. *)
Fixpoint merkle_pairs (n i : nat) (ids : list digest) : list digest :=
  match n with
  | O => ids
  | S n => merkle_pairs n (S i) (<[i := node (ids !!! (2 * i)%nat) (ids !!! (2 * i + 1)%nat)]> ids)
  end.

Definition merkle_round (ids : list digest) : list digest :=
  let ids := if Nat.odd (length ids) then ids ++ [default digest_zero (last ids)] else ids in
  let n := (length ids / 2)%nat in
  take n (merkle_pairs n 0 ids).

Fixpoint merkle_loop (fuel : nat) (ids : list digest) : list digest :=
  match fuel with
  | O => ids
  | S fuel => if (1 <? length ids)%nat then merkle_loop fuel (merkle_round ids) else ids
  end.

(** A round halves the list, so its length bounds the rounds. *)
Definition merkle (ids : list digest) : digest :=
  match ids with
  | [] => digest_zero
  | _ => default digest_zero (head (merkle_loop (length ids) ids))
  end.

(** ** [incremental_merkle] *)

Record incremental_merkle := mkIncremental { im_node_count : Z; im_active_nodes : list digest }.

Definition incremental_empty : incremental_merkle := mkIncremental 0 [].

(** [None]: the iterator over the active nodes is dereferenced at the end. *)
Fixpoint append_loop (current_depth : nat) (index : Z) (partial : bool) (top : digest) (active updated : list digest) : option (digest * list digest) :=
  match current_depth with
  | O => Some (top, updated)
  | S current_depth =>
      if Z.land index 1 =? 0 then
        append_loop current_depth (Z.shiftr index 1) true (node top top) active (if partial then updated else updated ++ [top])
      else
        match active with
        | [] => None
        | left_value :: active =>
            append_loop current_depth (Z.shiftr index 1) partial (node left_value top) active (if partial then updated ++ [left_value] else updated)
        end
  end.

Definition append (m : incremental_merkle) (digest : digest) : option incremental_merkle :=
  let max_depth := calcluate_max_depth (u64 (im_node_count m + 1)) in
  '(top, updated) ← append_loop (Z.to_nat (max_depth - 1)) (im_node_count m) false digest (im_active_nodes m) [];
  Some (mkIncremental (u64 (im_node_count m + 1)) (updated ++ [top])).

Definition get_root (m : incremental_merkle) : digest :=
  if 0 <? im_node_count m then default digest_zero (last (im_active_nodes m)) else digest_zero.

Fixpoint append_all (m : incremental_merkle) (ds : list digest) : option incremental_merkle :=
  match ds with
  | [] => Some m
  | d :: ds => m ← append m d; append_all m ds
  end.
End merkle.

(** ** The bit tricks *)

(** [y] has a bit wherever [x] has one among the [w] places from there up. *)
Definition smeared (w x y : Z) : Prop := 0 <= y /\ forall i, 0 <= i -> Z.testbit y i = true <-> exists j, i <= j < i + w /\ Z.testbit x j = true.

Lemma smear_step w x y : 0 < w -> smeared w x y -> smeared (2 * w) x (smear w y).
Proof.
  intros Hw [Hy H]. split; [apply Z.lor_nonneg; split; [done|by apply Z.shiftr_nonneg]|].
  intros i Hi. unfold smear. rewrite Z.lor_spec, orb_true_iff, Z.shiftr_spec, H, H by lia. split.
  - intros [(j & Hj & E)|(j & Hj & E)]; exists j; (split; [lia|done]).
  - intros (j & Hj & E). destruct (Z.lt_ge_cases j (i + w)); [left|right]; exists j; (split; [lia|done]).
Qed.

Lemma smear_start x : 0 <= x -> smeared 1 x x.
Proof. intros Hx. split; [done|]. intros i Hi. split; [intros E; exists i; split; [lia|done]|]. intros (j & Hj & E). by replace i with j by lia. Qed.

Lemma smeared_ones x y : 0 < x < 2 ^ 64 -> smeared 64 x y -> y = 2 ^ (Z.log2 x + 1) - 1.
Proof.
  intros Hx [Hy H]. rewrite Z.sub_1_r, <- Z.ones_equiv. apply Z.bits_inj'. intros i Hi. apply eq_true_iff_eq. rewrite H by done.
  pose proof (Z.log2_nonneg x). rewrite Z.testbit_ones by lia. rewrite andb_true_iff, Z.leb_le, Z.ltb_lt.
  assert (Z.log2 x < 64) by (apply Z.log2_lt_pow2; lia). split.
  - intros (j & Hj & E). split; [done|]. destruct (Z.le_gt_cases j (Z.log2 x)); [lia|]. by rewrite Z.bits_above_log2 in E by lia.
  - intros [_ Hl]. exists (Z.log2 x). split; [lia|]. apply Z.bit_log2. lia.
Qed.

Lemma next_power_of_2_spec n : 1 < n <= 2 ^ 63 -> next_power_of_2 n = 2 ^ Z.log2_up n.
Proof.
  intros Hn. unfold next_power_of_2. cbv zeta. rewrite (wrapu_small 64 (n - 1)) by (unfold uint_range; lia).
  assert (smeared 64 (n - 1) (smear 32 (smear 16 (smear 8 (smear 4 (smear 2 (smear 1 (n - 1)))))))) as Hs.
  { apply (smear_step 32), (smear_step 16), (smear_step 8), (smear_step 4), (smear_step 2), (smear_step 1), smear_start; lia. }
  rewrite (smeared_ones (n - 1) _ ltac:(lia) Hs), Z.log2_up_eqn, Z.add_1_r by lia. rewrite Z.sub_1_r.
  rewrite Z.add_1_r, Z.succ_pred. apply wrapu_small. split; [lia|]. apply Z.pow_lt_mono_r; [lia..|].
  assert (Z.log2 (Z.pred n) < 63) by (apply Z.log2_lt_pow2; lia). lia.
Qed.

(** What is called the number of leading zeros of a power of two is its exponent. *)
Lemma clz_power_2_spec k : 0 <= k < 64 -> clz_power_2 (2 ^ k) = k.
Proof.
  intros Hk. assert (forallb (fun n => clz_power_2 (2 ^ Z.of_nat n) =? Z.of_nat n) (seq 0 64) = true) as H by (vm_compute; reflexivity).
  rewrite forallb_forall in H. specialize (H (Z.to_nat k)). rewrite Z2Nat.id in H by lia. apply Z.eqb_eq, H, in_seq. lia.
Qed.

Lemma max_depth_spec n : 1 <= n <= 2 ^ 63 -> calcluate_max_depth n = Z.log2_up n + 1.
Proof.
  intros Hn. unfold calcluate_max_depth. rewrite (proj2 (Z.eqb_neq _ _)) by lia. f_equal.
  destruct (decide (n = 1)) as [->|]; [done|]. rewrite next_power_of_2_spec by lia. apply clz_power_2_spec.
  split; [apply Z.log2_up_nonneg|]. assert (Z.log2_up n <= 63) by (apply Z.log2_up_le_pow2; lia). lia.
Qed.

(** ** A level of the tree *)

Section levels.
Context (sha256 : bytes -> digest).
Abbreviation parent := (node sha256).
Abbreviation level_up := (merkle_round sha256).

(** The complete pairs of a level. *)
Fixpoint pairs (ids : list digest) : list digest :=
  match ids with
  | l :: r :: ids => parent l r :: pairs ids
  | _ => []
  end.

Lemma pairs_lookup ids k : (2 * k + 1 < length ids)%nat -> pairs ids !! k = Some (parent (ids !!! (2 * k)%nat) (ids !!! (2 * k + 1)%nat)).
Proof.
  revert ids. induction k as [|k IH]; intros [|l [|r ids]] Hk; cbn in Hk; try lia; [done|].
  replace (2 * S k)%nat with (S (S (2 * k))) by lia. cbn [pairs Nat.add lookup]. apply (IH ids). lia.
Qed.

Lemma pairs_length n ids : length ids = (2 * n)%nat -> length (pairs ids) = n.
Proof.
  revert ids. induction n as [|n IH]; intros [|l [|r ids]] Hl; cbn in Hl; try lia; [done|]. cbn. f_equal. apply IH. lia.
Qed.

(** Writing the results into the front of the vector does not disturb what is still read. *)
Lemma merkle_pairs_spec ids m : forall i cur, length ids = (2 * (i + m))%nat -> length cur = length ids ->
  (forall j, (i <= j)%nat -> cur !! j = ids !! j) -> take i cur = take i (pairs ids) ->
  take (i + m) (merkle_pairs sha256 m i cur) = pairs ids.
Proof.
  induction m as [|m IH]; intros i cur Hl Hc Hj Ht; cbn [merkle_pairs].
  { rewrite Nat.add_0_r in *. rewrite Ht. apply take_ge. by rewrite (pairs_length i). }
  replace (i + S m)%nat with (S i + m)%nat by lia.
  assert (parent (cur !!! (2 * i)%nat) (cur !!! (2 * i + 1)%nat) = pairs ids !!! i) as En.
  { rewrite !list_lookup_total_alt, !Hj by lia. symmetry. rewrite pairs_lookup by lia. by rewrite <- !list_lookup_total_alt. }
  apply IH; [lia|by rewrite length_insert|..].
  - intros j Hj'. rewrite list_lookup_insert_ne by lia. apply Hj. lia.
  - rewrite En. assert (i < length (pairs ids))%nat as Hi by (rewrite (pairs_length (i + S m)); lia).
    rewrite !(take_S_r _ _ (pairs ids !!! i)).
    + rewrite take_insert_ge by lia. by rewrite Ht.
    + by apply list_lookup_lookup_total_lt.
    + apply list_lookup_insert_eq. lia.
Qed.

Lemma merkle_round_even n ids : length ids = (2 * n)%nat -> level_up ids = pairs ids.
Proof.
  intros Hl. unfold merkle_round. rewrite Hl. replace (Nat.odd (2 * n)) with false by (symmetry; rewrite Nat.odd_mul; done).
  cbv zeta. rewrite Hl, Nat.mul_comm, Nat.div_mul by done. by apply (merkle_pairs_spec ids n 0).
Qed.

Lemma pairs_app n X Y : length X = (2 * n)%nat -> pairs (X ++ Y) = pairs X ++ pairs Y.
Proof.
  revert X. induction n as [|n IH]; intros [|l [|r X]] Hl; cbn in Hl; try lia; [done|]. cbn. f_equal. apply IH. lia.
Qed.

Lemma split_odd n (X : list digest) : length X = (2 * n + 1)%nat -> exists X0 l, X = X0 ++ [l] /\ length X0 = (2 * n)%nat.
Proof. intros Hl. destruct X as [|l X0 _] using rev_ind; [cbn in Hl; lia|]. exists X0, l. split; [done|]. rewrite length_app in Hl. cbn in Hl. lia. Qed.

(** One level up from complete nodes and a last one. *)
Lemma merkle_round_left n X top : length X = (2 * n)%nat -> level_up (X ++ [top]) = pairs X ++ [parent top top].
Proof.
  intros Hl. transitivity (level_up (X ++ [top; top])).
  - unfold merkle_round. rewrite !length_app, Hl. cbn [length].
    replace (Nat.odd (2 * n + 1)) with true by (symmetry; rewrite Nat.odd_add, Nat.odd_mul; done).
    replace (Nat.odd (2 * n + 2)) with false by (symmetry; rewrite Nat.odd_add, Nat.odd_mul; done). cbv zeta.
    rewrite last_snoc. cbn [default]. by rewrite <- (assoc_L (++)).
  - rewrite (merkle_round_even (S n)) by (rewrite length_app; cbn; lia). by rewrite (pairs_app n).
Qed.

Lemma merkle_round_right n X0 l top : length X0 = (2 * n)%nat ->
  level_up ((X0 ++ [l]) ++ [top]) = pairs (X0 ++ [l]) ++ [parent l top] /\ pairs ((X0 ++ [l]) ++ [top]) = pairs (X0 ++ [l]) ++ [parent l top].
Proof.
  intros Hl. rewrite <- (assoc_L (++)). rewrite (merkle_round_even (S n)) by (rewrite length_app; cbn; lia).
  change ([l] ++ [top]) with [l; top]. rewrite (pairs_app n X0 [l; top]), (pairs_app n X0 [l]) by done. cbn. by rewrite app_nil_r.
Qed.

(** The roots of the complete subtrees, from the leaves up: one for every bit of the count. *)
Fixpoint subtrees (depth : nat) (X : list digest) : list digest :=
  match depth with
  | O => []
  | S depth => (if Nat.odd (length X) then [default digest_zero (last X)] else []) ++ subtrees depth (pairs X)
  end.

Definition rounds (depth : nat) (ids : list digest) : list digest := Nat.iter depth level_up ids.

Lemma rounds_S depth ids : rounds (S depth) ids = rounds depth (level_up ids).
Proof. unfold rounds. by rewrite Nat.iter_succ_r. Qed.

Lemma land_1_parity n : (Z.land (Z.of_nat n) 1 =? 0) = negb (Nat.odd n).
Proof.
  change 1 with (Z.ones 1). rewrite Z.land_ones by lia. change (2 ^ 1) with 2. destruct (Nat.Even_or_Odd n) as [[k ->]|[k ->]].
  - replace (Z.of_nat (2 * k)) with (0 + Z.of_nat k * 2) by lia. by rewrite Nat.odd_mul, Z.mod_add.
  - replace (Z.of_nat (2 * k + 1)) with (1 + Z.of_nat k * 2) by lia. by rewrite Nat.odd_add, Nat.odd_mul, Z.mod_add.
Qed.

Lemma shiftr_half n : Z.shiftr (Z.of_nat n) 1 = Z.of_nat (n / 2).
Proof. rewrite Z.shiftr_div_pow2 by lia. change (2 ^ 1) with (Z.of_nat 2). by rewrite Nat2Z.inj_div. Qed.

(** The loop of [append] climbs the levels: what it returns is the last node of the level,
    and it keeps the roots of the complete subtrees. *)
Lemma append_loop_partial depth : forall X top active updated tail, (length X < 2 ^ depth)%nat -> active = subtrees depth X ++ tail ->
  exists root, append_loop sha256 depth (Z.of_nat (length X)) true top active updated = Some (root, updated ++ subtrees depth X) /\
    rounds depth (X ++ [top]) = [root].
Proof.
  induction depth as [|depth IH]; intros X top active updated tail Hl Ha; cbn [append_loop].
  { destruct X; [|cbn in Hl; lia]. exists top. cbn. by rewrite app_nil_r. }
  rewrite land_1_parity, shiftr_half, rounds_S. cbn [subtrees] in *. rewrite Nat.pow_succ_r' in Hl.
  destruct (Nat.Even_or_Odd (length X)) as [[n Hn]|[n Hn]].
  - replace (Nat.odd (length X)) with false in * by (rewrite Hn, Nat.odd_mul; done). cbn [negb app].
    rewrite (merkle_round_left n) by done.
    replace (length X / 2)%nat with (length (pairs X)) by (rewrite Hn, Nat.mul_comm, Nat.div_mul, (pairs_length n); done).
    by apply (IH (pairs X) (parent top top) active updated tail); [rewrite (pairs_length n); lia|].
  - replace (Nat.odd (length X)) with true in * by (rewrite Hn, Nat.odd_add, Nat.odd_mul; done). cbn [negb].
    destruct (split_odd n X Hn) as (X0 & l & -> & Hl0). rewrite last_snoc in *. cbn [default app] in Ha |- *. subst active.
    destruct (merkle_round_right n X0 l top Hl0) as [-> _].
    assert (length (pairs (X0 ++ [l])) = n) as Hp by (rewrite (pairs_app n), length_app, (pairs_length n) by done; cbn; lia).
    replace (length (X0 ++ [l]) / 2)%nat with (length (pairs (X0 ++ [l]))) by (rewrite Hp, Hn; apply (Nat.div_unique _ 2 n 1); lia).
    destruct (IH (pairs (X0 ++ [l])) (parent l top) (subtrees depth (pairs (X0 ++ [l])) ++ tail) (updated ++ [l]) tail) as (root & E & Hr); [lia|done|].
    exists root. split; [|done]. etransitivity; [exact E|]. by rewrite <- (assoc_L (++)).
Qed.

Lemma append_loop_complete depth : forall X top active updated tail, (length X < 2 ^ depth)%nat -> active = subtrees depth X ++ tail ->
  exists root, append_loop sha256 depth (Z.of_nat (length X)) false top active updated =
      Some (root, updated ++ (if (S (length X) =? 2 ^ depth)%nat then [] else subtrees depth (X ++ [top]))) /\
    rounds depth (X ++ [top]) = [root] /\
    ((S (length X) =? 2 ^ depth)%nat = true -> subtrees (S depth) (X ++ [top]) = [root]).
Proof.
  induction depth as [|depth IH]; intros X top active updated tail Hl Ha.
  { destruct X; [|cbn in Hl; lia]. exists top. cbn. by rewrite app_nil_r. }
  cbn [append_loop]. rewrite land_1_parity, shiftr_half, rounds_S. rewrite Nat.pow_succ_r' in Hl |- *. pose proof (Nat.pow_nonzero 2 depth ltac:(lia)).
  destruct (Nat.Even_or_Odd (length X)) as [[n Hn]|[n Hn]].
  - assert (Nat.odd (length X) = false) as Eo by (rewrite Hn, Nat.odd_mul; done). cbn [subtrees] in Ha. rewrite Eo in *. cbn [negb app] in Ha |- *.
    rewrite (merkle_round_left n) by done.
    replace (length X / 2)%nat with (length (pairs X)) by (rewrite Hn, Nat.mul_comm, Nat.div_mul, (pairs_length n); done).
    destruct (append_loop_partial depth (pairs X) (parent top top) active (updated ++ [top]) tail) as (root & E & Hr); [rewrite (pairs_length n); lia|done|].
    exists root. rewrite (proj2 (Nat.eqb_neq _ _)) by lia. split; [|done]. etransitivity; [exact E|]. cbn [subtrees].
    rewrite length_app, Hn. cbn [length]. replace (Nat.odd (2 * n + 1)) with true by (rewrite Nat.odd_add, Nat.odd_mul; done).
    rewrite last_snoc, (pairs_app n), app_nil_r, <- (assoc_L (++)) by done. done.
  - assert (Nat.odd (length X) = true) as Eo by (rewrite Hn, Nat.odd_add, Nat.odd_mul; done). cbn [subtrees] in Ha. rewrite Eo in *. cbn [negb] in Ha |- *.
    destruct (split_odd n X Hn) as (X0 & l & -> & Hl0). rewrite last_snoc in *. cbn [default app] in Ha |- *. subst active.
    destruct (merkle_round_right n X0 l top Hl0) as [-> Ep].
    assert (length (pairs (X0 ++ [l])) = n) as Hp by (rewrite (pairs_app n), length_app, (pairs_length n) by done; cbn; lia).
    replace (length (X0 ++ [l]) / 2)%nat with (length (pairs (X0 ++ [l]))) by (rewrite Hp, Hn; apply (Nat.div_unique _ 2 n 1); lia).
    destruct (IH (pairs (X0 ++ [l])) (parent l top) (subtrees depth (pairs (X0 ++ [l])) ++ tail) updated tail) as (root & E & Hr & Hs); [lia|done|].
    assert (forall d, subtrees (S d) ((X0 ++ [l]) ++ [top]) = subtrees d (pairs (X0 ++ [l]) ++ [parent l top])) as Est.
    { intros d. cbn [subtrees]. rewrite Ep, !length_app, Hl0. cbn [length]. by replace (Nat.odd (2 * n + 1 + 1)) with false by (rewrite !Nat.odd_add, Nat.odd_mul; done). }
    exists root. rewrite !Est. rewrite Hp in *. replace (S (length (X0 ++ [l])) =? 2 * 2 ^ depth)%nat with (S n =? 2 ^ depth)%nat
      by (rewrite Hn; destruct (Nat.eqb_spec (S n) (2 ^ depth)), (Nat.eqb_spec (S (2 * n + 1)) (2 * 2 ^ depth)); lia). done.
Qed.

(** ** The number of levels *)

Definition levels (n : nat) : nat := Z.to_nat (Z.log2_up (Z.of_nat n)).

Lemma levels_spec n depth : (n <= 2 ^ depth)%nat -> (depth = O \/ (2 ^ (depth - 1) < n)%nat) -> levels n = depth.
Proof.
  intros Hu Hl. unfold levels. destruct depth as [|depth].
  { rewrite Z.log2_up_eqn0; [done|]. cbn in Hu. lia. }
  destruct Hl as [|Hl]; [done|]. cbn in Hl. rewrite Nat.sub_0_r in Hl. pose proof (Nat.pow_nonzero 2 depth ltac:(lia)).
  rewrite (Z.log2_up_unique (Z.of_nat n) (Z.of_nat (S depth))); [by rewrite Nat2Z.id|lia|].
  assert (Z.of_nat (2 ^ depth) < Z.of_nat n <= Z.of_nat (2 ^ S depth)) as Hz by lia. rewrite !Nat2Z.inj_pow in Hz.
  by replace (Z.pred (Z.of_nat (S depth))) with (Z.of_nat depth) by lia.
Qed.

Lemma levels_bound n : (0 < n)%nat -> (n <= 2 ^ levels n)%nat /\ (levels n = O \/ (2 ^ (levels n - 1) < n)%nat).
Proof.
  intros Hn. unfold levels. destruct (decide (n = 1%nat)) as [->|]; [vm_compute; auto|].
  pose proof (Z.log2_up_spec (Z.of_nat n) ltac:(lia)) as Hs. pose proof (Z.log2_up_pos (Z.of_nat n) ltac:(lia)) as Hp.
  set (L := Z.log2_up (Z.of_nat n)) in *. split.
  - apply Nat2Z.inj_le. rewrite Nat2Z.inj_pow, Z2Nat.id by lia. lia.
  - right. apply Nat2Z.inj_lt. rewrite Nat2Z.inj_pow. replace (Z.of_nat (Z.to_nat L - 1)) with (Z.pred L) by lia. apply Hs.
Qed.

Lemma merkle_round_length ids : length (level_up ids) = ((length ids + 1) / 2)%nat.
Proof.
  destruct (Nat.Even_or_Odd (length ids)) as [[n Hn]|[n Hn]].
  - rewrite (merkle_round_even n), (pairs_length n), Hn by done. apply (Nat.div_unique _ 2 n 1); lia.
  - destruct (split_odd n ids Hn) as (X0 & l & -> & Hl0). rewrite (merkle_round_left n), !length_app, (pairs_length n), Hl0 by done. cbn [length].
    apply (Nat.div_unique _ 2 (n + 1) 0); lia.
Qed.

Lemma merkle_loop_rounds depth : forall fuel ids, (depth <= fuel)%nat -> (0 < length ids <= 2 ^ depth)%nat ->
  (depth = O \/ (2 ^ (depth - 1) < length ids)%nat) -> merkle_loop sha256 fuel ids = rounds depth ids.
Proof.
  induction depth as [|depth IH]; intros fuel ids Hf Hu Hl.
  { destruct fuel; cbn [merkle_loop]; [done|]. rewrite (proj2 (Nat.ltb_ge _ _)); [done|]. cbn in Hu. lia. }
  destruct Hl as [|Hl]; [done|]. cbn in Hl. rewrite Nat.sub_0_r in Hl. rewrite Nat.pow_succ_r' in Hu. pose proof (Nat.pow_nonzero 2 depth ltac:(lia)).
  destruct fuel as [|fuel]; [lia|]. cbn [merkle_loop]. rewrite (proj2 (Nat.ltb_lt _ _)) by lia. rewrite rounds_S.
  pose proof (Nat.div_mod_eq (length ids + 1) 2). pose proof (Nat.mod_upper_bound (length ids + 1) 2 ltac:(lia)).
  apply IH; rewrite ?merkle_round_length; [lia..|]. destruct depth as [|depth]; [by left|right]. cbn [Nat.sub]. rewrite Nat.sub_0_r, Nat.pow_succ_r' in *. lia.
Qed.

Lemma merkle_rounds ids root : rounds (levels (length ids)) ids = [root] -> (0 < length ids)%nat -> merkle sha256 ids = root.
Proof.
  intros Hr Hn. destruct (levels_bound (length ids) Hn) as [Hu Hl]. unfold merkle. destruct ids as [|d ids]; [cbn in Hn; lia|].
  rewrite (merkle_loop_rounds (levels (length (d :: ids)))); [by rewrite Hr| |lia|done].
  destruct Hl as [->|Hl]; [lia|]. pose proof (Nat.pow_gt_lin_r 2 (levels (length (d :: ids)) - 1) ltac:(lia)). lia.
Qed.

(** ** The incremental tree holds the root and the subtrees of what was appended *)

Record holds (m : incremental_merkle) (ds : list digest) : Prop := {
  ho_count : im_node_count m = Z.of_nat (length ds);
  ho_active : exists tail, im_active_nodes m = subtrees (levels (length ds + 1)) ds ++ tail;
  ho_root : ds <> [] -> last (im_active_nodes m) = Some (merkle sha256 ds)
}.

Lemma append_holds m ds d : holds m ds -> Z.of_nat (length ds) < 2 ^ 63 -> exists m', append sha256 m d = Some m' /\ holds m' (ds ++ [d]).
Proof.
  intros [Hc (tail & Ha) _] Hn. unfold append. cbv zeta. rewrite Hc. rewrite !(wrapu_small 64) by (split; lia). rewrite max_depth_spec by lia.
  replace (Z.to_nat (Z.log2_up (Z.of_nat (length ds) + 1) + 1 - 1)) with (levels (length ds + 1)) by (unfold levels; by rewrite Nat2Z.inj_add, Z.add_simpl_r).
  set (D := levels (length ds + 1)) in *. destruct (levels_bound (length ds + 1) ltac:(lia)) as [Hu Hl]. fold D in Hu, Hl.
  destruct (append_loop_complete D ds d (im_active_nodes m) [] tail ltac:(lia) Ha) as (root & E & Hr & Hs). rewrite E. cbn [mbind option_bind app].
  eexists. split; [done|]. pose proof (Nat.pow_nonzero 2 D ltac:(lia)).
  split; cbn [im_node_count im_active_nodes]; rewrite ?length_app; cbn [length]; [lia| |].
  - destruct (Nat.eqb_spec (S (length ds)) (2 ^ D)) as [Eq|Ne].
    + exists []. rewrite (levels_spec _ (S D)); [by rewrite Hs|rewrite Nat.pow_succ_r'; lia|right; cbn; rewrite Nat.sub_0_r; lia].
    + exists [root]. rewrite (levels_spec _ D); [done|lia|]. destruct Hl as [->|Hl]; [by left|right; lia].
  - intros _. rewrite last_snoc. f_equal. symmetry. apply merkle_rounds; rewrite length_app; cbn; [done|lia].
Qed.

Lemma append_all_holds ds : forall m ds0, holds m ds0 -> Z.of_nat (length ds0 + length ds) <= 2 ^ 63 ->
  exists m', append_all sha256 m ds = Some m' /\ holds m' (ds0 ++ ds).
Proof.
  induction ds as [|d ds IH]; intros m ds0 Hm Hl; cbn [append_all]; [exists m; by rewrite app_nil_r|].
  cbn [length] in Hl. destruct (append_holds m ds0 d Hm ltac:(lia)) as (m1 & -> & H1). cbn [mbind option_bind].
  destruct (IH m1 (ds0 ++ [d]) H1) as (m' & E & H'); [rewrite length_app; cbn; lia|]. exists m'. split; [done|]. by rewrite <- (assoc_L (++)) in H'.
Qed.

End levels.

